(* ===== verification/_CoqProject ===== *)
-Q . S2P
Prelude.v
PyRandom.v
Locations.v
PyObj.v
Reader.v
ReaderTheorems.v
ReaderScan.v
ReaderRoundTrip.v
Frame.v
FrameTheorems.v
ReadLoop.v
ReadLoopTheorems.v
Budget.v
BudgetTheorems.v
Extract.v
Types.v
Datapackage.v
Multidata.v
Conn.v
Hints.v
Json.v
Packets.v
Codec.v
CodecTheorems.v
PyValue.v
DataStore.v
DataStoreTheorems.v
SlotData.v
Text.v
Fuzzy.v
Filter.v
Options.v
Effects.v
Room.v
RoomOps.v
RoomStore.v
RoomPlay.v
Commands.v
ServerCommands.v
Say.v
Admin.v
RoomSpec.v
RoomFrame.v
RoomDirty.v
RoomInv.v
RoomWp.v
RoomRefines.v
SayRefines.v
RoomTheorems.v
RoomDemo.v
RoomAuth.v
RoomFeed.v
RoomStoreTheorems.v
SayTheorems.v
Deflate.v
Handshake.v
Accept.v
Server.v
HttpAdmin.v
HttpCommand.v
Shard.v
ShardTheorems.v
SaveBytes.v
Persist.v
Journal.v
Cli.v
Save.v
SaveTheorems.v
RoomSave.v
Restart.v
Startup.v
Actor.v
ActorTheorems.v
ActorWorld.v
ActorSaves.v
Http.v
Report.v
Metrics.v
Exposition.v
ActorDemo.v
