(* ===== verification/Prelude.v ===== *)
(** * Pahoa: a verification development

    Pahoa is a server for Archipelago multiworlds in Rust: it loads a seed (a
    pickled Python object in a container), serves one room of it to WebSocket
    clients on JSON, keeps the room's state in one actor, fans messages out
    through shards, saves the room to a directory and answers an administrator
    over HTTP.  This library models its crates under [src/crates] and proves
    what makes them correct.  The library root is this directory; a file
    requires the ones before it in [_CoqProject].

    ** How the program hangs together, and where it is modelled

    A seed is read once, at the start:
    - [pahoa-pickle]: [PyObj] has the wide integers of [bigint.rs] and the values
      of [lib.rs]; [Reader] the pickle machine of [reader.rs], with
      [ReaderTheorems], [ReaderScan] and [ReaderRoundTrip] about it;
    - [pahoa-multidata]: [Locations] ([locations.rs]), [Extract] ([error.rs],
      [extract.rs]), [Types] ([types.rs], with [pahoa-proto/src/types.rs]),
      [Datapackage] ([datapackage.rs], [hint_blacklist.rs]) and [Multidata]
      ([multidata.rs] and the decoders of the other files);
    - [pahoa-pyrandom]: [PyRandom] is CPython's generator, which the room draws
      from as the reference server does.

    The room, [pahoa-room], is a state and handlers on it:
    - its parts: [Conn] ([conn.rs]), [Hints] ([hints.rs]), [Filter]
      ([filter.rs]), [Options] ([options.rs], [secret.rs]), [SlotData]
      ([slot_data.rs], and what is served of [datapackage.rs]), [Fuzzy]
      ([fuzzy.rs]), and what it emits, [Effects] ([effect.rs], [redundant.rs]);
    - [pahoa-datastore]: [PyValue] ([pyvalue.rs]) and [DataStore] ([ops.rs]),
      with [DataStoreTheorems];
    - [pahoa-proto]: [Json] (values, [lenient.rs], [arg.rs]), [Packets]
      ([server.rs], [client.rs]) and [Codec] ([depth.rs], [codec.rs]), with
      [CodecTheorems];
    - [room.rs] itself: [Room] (the record and its views), [RoomOps] (sessions,
      checks, items, scouts, bounces), [RoomStore] (the data store's commands),
      [RoomPlay] (hints, goals, releases, the countdown); of [room/]:
      [Commands] and [Say] ([commands.rs]; [dispatch] and [handle] of [room.rs]
      end [Say]), [ServerCommands] ([server_commands.rs]), [Admin] ([admin.rs]).
      [Text] has the characters and words they work on.

    The transport, [pahoa-net], brings bytes to the room and its effects out:
    - [Accept] ([ws/accept.rs]) and [Handshake] ([ws/handshake.rs]) decide what a
      connection is; [Frame] ([ws/frame.rs], [ws/mod.rs]), [Deflate]
      ([ws/deflate.rs]) and [ReadLoop] ([ws/message.rs] and the reader of
      [server.rs]) turn its bytes into packets; [CodecTheorems] composes them
      with [Codec];
    - [Actor] is a turn of the loop of [actor.rs], with its saver; [Shard] a turn
      of a shard and the actor's handle on the shards ([shard.rs]); [Budget] the
      counters of [budget.rs], one atomic access at a time;
    - [Server] is the writer of a connection with its keepalive, the choice of
      scheme ([server.rs]) and the sizes of a room ([config.rs]);
    - [HttpAdmin] ([http/admin.rs], [http/response.rs]), [HttpCommand]
      ([http/command.rs]) and [Http] ([http/mod.rs]) are the HTTP surface;
    - [SaveBytes], [Save] and [RoomSave] are [pahoa-room/src/save.rs] and the
      snapshots of [room.rs]; [Persist] is the save directory ([save.rs] of
      [pahoa-net]); [Journal] the history file ([journal.rs]);
    - [Metrics] is the tables of counters every task writes ([metrics.rs], and
      those of [filter.rs], [redundant.rs] and [pahoa-datastore]), [Report] what a
      room says of itself: the tracker's and the status documents ([tracker.rs],
      [http/tracker.rs], [http/status.rs]), and [Exposition] the text of
      [prometheus], the rest of [http/status.rs].

    The binary, [pahoa]: [Cli] is the command line and the secrets ([cli.rs],
    [main.rs], [secrets.rs]), [Startup] the start of a room from its flags, its
    seed and its save ([serve.rs]).

    ** How code is written here

    A machine integer is the [Z] it denotes; wrap-around, saturation and checked
    arithmetic are written out where the source has them.  A [Vec] or a slice is a
    list, an index out of range is the panic it is; a map is a [gmap], and where
    the source walks a hash map the order is the class [HashOrder]'s, any
    permutation.  A Rust string is the [string] of its UTF-8 bytes.  A float is
    [spec_float] at binary64.  Fallible code returns [result], below.

    A handler of the room is a computation in the monad [M] of [Room]: it reads and
    replaces the room, emits effects in order, and stops on a panic, on a recursion
    that outruns its fuel or on an unlucky generator.  A [Cell] or a shared [Arc]
    that the room mutates is a field of the state.  Where threads meet, an operation is the
    sequence of its atomic accesses and a run is any interleaving: [Budget],
    [Metrics], [Journal], and the channels of [Actor] and [Shard].  What time, the network or
    the disk do is an argument of a step, an event of a list or a step of a relation.

    ** What is proved

    The room.  [RoomSpec] is an abstract machine of the shared state; [RoomWp],
    [RoomRefines] and [SayRefines] prove that every handler returns and is a
    sequence of its steps ([handlers_refine_steps]), and [RoomInv] that its
    invariants hold along every run: items are delivered exactly once, hints tell
    the truth, progress is permanent ([RoomTheorems]).  [RoomAuth] proves who gets
    in and whom a message reaches; [RoomFeed] what is said of an item, and the
    countdown; [RoomStoreTheorems] the data store's commands; [SayTheorems] the
    chat commands: masked logins, permissions, prices.  [RoomFrame] and [RoomDirty]
    prove what a handler leaves alone and that a change a save carries is marked.

    Saves.  [SaveTheorems]: bytes round trip, do not depend on hash order, and
    damage is refused.  [RoomSave] and [Restart]: a room that goes down and comes
    back loses nothing and keeps every invariant.  [ActorSaves]: a clean saver has
    the room on the disk.  [Persist]: whatever fails, dies or loses power, what is
    read back is a whole save, and the acknowledged one.

    Delivery.  [ShardTheorems]: a connection that missed a frame gets no other
    frame, each recipient gets the bytes its window asks for, everyone addressed
    is reached.  [ActorWorld]: the shards hold the room's membership.
    [BudgetTheorems]: the counters account for what is queued.  [Server]: the
    keepalive drops nobody who answers, and a dead peer in time.  [Journal]: the
    history accounts for every record.

    The edge.  [ReaderTheorems]: the pickle machine never panics, what it decodes
    is well formed, its pre-scan changes nothing.  [FrameTheorems] and
    [ReadLoopTheorems]: masking, framing, any cut of the bytes and any
    fragmentation.  [CodecTheorems]: what a client can say is what the room hears.  [Handshake], [Accept], [Http], [HttpAdmin], [HttpCommand]: the
    negotiation is sound, a request may arrive in any pieces, nothing private is
    served without the token, noise does not lock its owner out, and bodies are
    read as what they say.  [Cli]: a command line is read as it was meant.
    [Startup]: a room runs under the options that should win, and logs none of its
    passwords.

    Reports.  [Metrics]: whatever the interleaving, no count is lost and no task
    waits for ever.  [Report]: what a tracker reads in its documents is the room's.
    [Exposition]: the text of a scrape reads back as the samples it was made of,
    whatever the names in the seed hold.

    [RoomDemo], [ActorDemo] and the ends of the other files apply the theorems
    at concrete rooms, saves and requests.

    ** Fuel and bounds

    Recursion that is not structural takes fuel, and a theorem says it is enough:
    - [randbelow] and [shuffle] draw until a draw is in range; nothing bounds that,
      so the room's draws have 256 attempts ([DRAWS]) and a run that needs more is
      an outcome of its own, [Unlucky], which the theorems name;
    - the groups of an item ([group_fuel]) and the ticks of the countdown
      ([tick_fuel]) are bounded by the table and by the time left, and no handler
      runs out ([handlers_refine_steps], [tick_catches_up]);
    - the pickle machine takes one step a byte and one more, and never runs out
      ([ReaderTheorems]); [drain] takes one round a byte and one more, a frame being
      at least two bytes; the variable-width integers of a save take at most ten
      bytes; an operation on the budget at most ten accesses;
    - the comparisons of JSON values take the height of their left operand;
    - inflating a message ([inflate_fuel]) ends because each round takes input or
      makes output and both are bounded ([inflating_is_bounded]);
    - the writer of the history finishes in three steps a queued message and four;
    - a call on a table of counters takes at most five steps and one a counter.

    ** Parameters

    Code that is not in the repository is a class or an argument, with what the code
    relies on as its laws: JSON values ([Json]) and their text ([JsonText]), hash
    order ([HashOrder]), Unicode's tables ([Unicode]), the compressors of flate2
    ([Flate], [Flate2], [Inflate]), the parser of request heads ([HttpParse]), the
    digests ([sha512], [Sha1]), the unstable sort, edit distance and float formatting of the
    libraries, the texts of their errors, the byte order of the machine, and the
    encoder of server packets.  Each class has an instance in the library, a tree
    of JSON or a stand-in, at which the witnesses are evaluated.

    ** Not modelled

    TLS ([tls.rs]) and the spawning of tasks, listeners and signals in [server.rs]
    and [serve.rs], which are the runtime's; the test client ([ws/client.rs]),
    tests, benches and examples; the banner and [inspect], which print, and logging
    but for the lines [Startup] gives; reading the files of [/proc] and of the
    seed; serde's derived implementations beyond the forms that [Codec], [Effects]
    and [SlotData] write out.  The handlers report what they count as effects, and
    [Report] and [Exposition] take the totals as arguments: that the totals are the
    sums of the reports is [Metrics]' theorem, for each table by itself. *)

From Stdlib Require Import ZArith Lia Bool Ascii.
From stdpp Require Import base tactics list sorting gmap strings.

(** ** Fallible code *)

(** Rust's [Result<A, E>], with the error type first so that [result E] is a
    monad. *)
Inductive result (E A : Type) : Type :=
| Ok (a : A)
| Err (e : E).
Arguments Ok {E A} a.
Arguments Err {E A} e.

#[export] Instance result_ret {E} : MRet (result E) := fun A a => Ok a.
#[export] Instance result_bind {E} : MBind (result E) :=
  fun A B k m => match m with Ok a => k a | Err e => Err e end.
#[export] Instance result_fmap {E} : FMap (result E) :=
  fun A B f m => match m with Ok a => Ok (f a) | Err e => Err e end.

(** [opt.ok_or(e)]. *)
Definition ok_or {E A} (e : E) (o : option A) : result E A :=
  match o with Some a => Ok a | None => Err e end.

Definition is_ok {E A} (r : result E A) : bool :=
  match r with Ok _ => true | Err _ => false end.

(** ** Machine integers: a [w]-bit value is the [Z] it denotes *)

#[export] Set Default Goal Selector "!".
Open Scope Z_scope.

Declare Scope pahoa_scope.
Delimit Scope pahoa_scope with pahoa.

Definition u8_max : Z := 255.
Definition u16_max : Z := 65535.
Definition u32_max : Z := 4294967295.
Definition u64_max : Z := 18446744073709551615.
Definition i64_max : Z := 9223372036854775807.
Definition i64_min : Z := -9223372036854775808.

(** [as u8] .. [as u64]: truncation to the low bits. *)
Definition wrap8 (x : Z) : Z := x mod 2 ^ 8.
Definition wrap16 (x : Z) : Z := x mod 2 ^ 16.
Definition wrap32 (x : Z) : Z := x mod 2 ^ 32.
Definition wrap64 (x : Z) : Z := x mod 2 ^ 64.
(** [as i64] from a wider value, and the wrap-around of release-mode [i64]
    arithmetic. *)
Definition wrap_i64 (x : Z) : Z := (x + 2 ^ 63) mod 2 ^ 64 - 2 ^ 63.

Definition is_u8 (x : Z) : Prop := (0 <= x < 2 ^ 8)%Z.
Definition is_u16 (x : Z) : Prop := (0 <= x < 2 ^ 16)%Z.
Definition is_u32 (x : Z) : Prop := (0 <= x < 2 ^ 32)%Z.
Definition is_u64 (x : Z) : Prop := (0 <= x < 2 ^ 64)%Z.
Definition is_i64 (x : Z) : Prop := (- 2 ^ 63 <= x < 2 ^ 63)%Z.

Notation "x '^>>' n" := (Z.shiftr x n) (at level 35) : pahoa_scope.
Notation "x '^<<' n" := (Z.shiftl x n) (at level 35) : pahoa_scope.
Notation "x '^&' y" := (Z.land x y) (at level 40) : pahoa_scope.
Notation "x '^|' y" := (Z.lor x y) (at level 50) : pahoa_scope.
Notation "x '^^' y" := (Z.lxor x y) (at level 45) : pahoa_scope.

(** ** Automation *)

Create HintDb pahoa discriminated.

(** Split every boolean connective and comparison in the context into its
    propositional reading. *)
Ltac breflect :=
  repeat match goal with
  | H : _ && _ = true |- _ => apply andb_true_iff in H; destruct H
  | H : _ || _ = false |- _ => apply orb_false_iff in H; destruct H
  | H : negb _ = true |- _ => apply negb_true_iff in H
  | H : negb _ = false |- _ => apply negb_false_iff in H
  | H : (_ <? _)%Z = true |- _ => apply Z.ltb_lt in H
  | H : (_ <? _)%Z = false |- _ => apply Z.ltb_ge in H
  | H : (_ <=? _)%Z = true |- _ => apply Z.leb_le in H
  | H : (_ <=? _)%Z = false |- _ => apply Z.leb_gt in H
  | H : (_ =? _)%Z = true |- _ => apply Z.eqb_eq in H
  | H : (_ =? _)%Z = false |- _ => apply Z.eqb_neq in H
  end.

(** Case analysis on the scrutinee of every [match] in a hypothesis, keeping
    the equation. *)
Ltac case_hyp H :=
  repeat match type of H with
  | context [match ?x with _ => _ end] =>
      let E := fresh "E" in destruct x eqn:E; simplify_eq/=
  end.

(** ** Generic lemmas on machine integers *)

Lemma wrap32_range x : is_u32 (wrap32 x).
Proof. unfold is_u32, wrap32. apply Z.mod_pos_bound. lia. Qed.

Lemma wrap64_range x : is_u64 (wrap64 x).
Proof. unfold is_u64, wrap64. apply Z.mod_pos_bound. lia. Qed.

Lemma wrap64_add x y : wrap64 (wrap64 x + y) = wrap64 (x + y).
Proof. unfold wrap64. apply Zplus_mod_idemp_l. Qed.

Lemma wrap64_id x : is_u64 x -> wrap64 x = x.
Proof. intros. unfold wrap64. by apply Z.mod_small. Qed.

Lemma wrap32_id x : is_u32 x -> wrap32 x = x.
Proof. intros. unfold wrap32. apply Z.mod_small. exact H. Qed.

(** A value is below [2^n] exactly when no bit at or above [n] is set. *)
Lemma below_pow2_bits x n :
  (0 <= n)%Z -> (0 <= x)%Z ->
  (x < 2 ^ n)%Z <-> (forall i, (n <= i)%Z -> Z.testbit x i = false).
Proof.
  intros Hn Hx. split.
  - intros Hlt i Hi. destruct (Z.eq_dec x 0) as [->|]; [apply Z.testbit_0_l|].
    apply Z.bits_above_log2; [lia|].
    assert (Z.log2 x < n)%Z by (apply Z.log2_lt_pow2; lia). lia.
  - intros Hb. destruct (Z.eq_dec x 0) as [->|]; [apply Z.pow_pos_nonneg; lia|].
    destruct (Z.lt_ge_cases x (2 ^ n)) as [|Hge]; [done|exfalso].
    assert (Hl : (n <= Z.log2 x)%Z) by (apply Z.log2_le_pow2; lia).
    specialize (Hb _ Hl). rewrite Z.bit_log2 in Hb; [done|lia].
Qed.

Lemma land_below x y n :
  (0 <= n)%Z -> (0 <= x)%Z -> (0 <= y < 2 ^ n)%Z -> (0 <= Z.land x y < 2 ^ n)%Z.
Proof.
  intros Hn Hx Hy. split; [apply Z.land_nonneg; lia|].
  apply below_pow2_bits; [lia|apply Z.land_nonneg; lia|].
  intros i Hi. rewrite Z.land_spec.
  rewrite (proj1 (below_pow2_bits y n Hn (proj1 Hy)) (proj2 Hy) i Hi).
  apply andb_false_r.
Qed.

Lemma lor_below x y n :
  (0 <= n)%Z -> (0 <= x < 2 ^ n)%Z -> (0 <= y < 2 ^ n)%Z -> (0 <= Z.lor x y < 2 ^ n)%Z.
Proof.
  intros Hn Hx Hy. split; [apply Z.lor_nonneg; lia|].
  apply below_pow2_bits; [lia|apply Z.lor_nonneg; lia|].
  intros i Hi. rewrite Z.lor_spec.
  rewrite (proj1 (below_pow2_bits x n Hn (proj1 Hx)) (proj2 Hx) i Hi).
  rewrite (proj1 (below_pow2_bits y n Hn (proj1 Hy)) (proj2 Hy) i Hi). done.
Qed.

Lemma lxor_below x y n :
  (0 <= n)%Z -> (0 <= x < 2 ^ n)%Z -> (0 <= y < 2 ^ n)%Z -> (0 <= Z.lxor x y < 2 ^ n)%Z.
Proof.
  intros Hn Hx Hy. assert (0 <= Z.lxor x y)%Z by (apply Z.lxor_nonneg; lia).
  split; [done|]. apply below_pow2_bits; [lia|done|].
  intros i Hi. rewrite Z.lxor_spec.
  rewrite (proj1 (below_pow2_bits x n Hn (proj1 Hx)) (proj2 Hx) i Hi).
  rewrite (proj1 (below_pow2_bits y n Hn (proj1 Hy)) (proj2 Hy) i Hi). done.
Qed.

Lemma shiftr_below x k n :
  (0 <= k)%Z -> (0 <= x < 2 ^ n)%Z -> (0 <= Z.shiftr x k < 2 ^ n)%Z.
Proof.
  intros Hk Hx. rewrite Z.shiftr_div_pow2 by lia.
  assert (0 < 2 ^ k)%Z by (apply Z.pow_pos_nonneg; lia).
  split; [apply Z.div_pos; lia|].
  assert (x / 2 ^ k <= x)%Z by (apply Z.div_le_upper_bound; nia). lia.
Qed.

#[export] Hint Resolve land_below lor_below lxor_below shiftr_below wrap32_range : pahoa.

(** ** Little- and big-endian byte strings *)

(** [uN::from_le_bytes]. *)
Fixpoint le_val (bs : list Z) : Z :=
  match bs with
  | [] => 0
  | b :: bs => b + 256 * le_val bs
  end.

(** [uN::from_be_bytes]. *)
Definition be_val (bs : list Z) : Z := fold_left (fun acc b => 256 * acc + b)%Z bs 0%Z.

(** [uN::to_le_bytes] at a width of [n] bytes. *)
Fixpoint le_bytes (n : nat) (x : Z) : list Z :=
  match n with
  | O => []
  | S n => x mod 256 :: le_bytes n (x / 256)
  end.

Definition be_bytes (n : nat) (x : Z) : list Z := rev (le_bytes n x).

Lemma le_val_app l1 l2 :
  (le_val (l1 ++ l2) = le_val l1 + 256 ^ Z.of_nat (length l1) * le_val l2)%Z.
Proof.
  induction l1 as [|b l1 IH]; [simpl; lia|].
  cbn [le_val app length]. rewrite IH, Nat2Z.inj_succ, Z.pow_succ_r by lia. lia.
Qed.

Lemma be_val_rev l : be_val l = le_val (rev l).
Proof.
  unfold be_val. induction l as [|b l IH] using rev_ind; [done|].
  rewrite fold_left_app, rev_app_distr. simpl. rewrite IH. lia.
Qed.

Lemma le_val_bound bs :
  Forall is_u8 bs -> (0 <= le_val bs < 256 ^ Z.of_nat (length bs))%Z.
Proof.
  induction 1 as [|b bs Hb Hbs IH]; [simpl; lia|].
  cbn [le_val length]. rewrite Nat2Z.inj_succ, Z.pow_succ_r by lia.
  unfold is_u8 in Hb. lia.
Qed.

Lemma length_le_bytes n x : length (le_bytes n x) = n.
Proof. revert x. induction n; simpl; auto. Qed.

Lemma le_bytes_u8 n x : Forall is_u8 (le_bytes n x).
Proof.
  revert x. induction n as [|n IH]; intros x; constructor; [|apply IH].
  apply Z.mod_pos_bound. lia.
Qed.

Lemma le_val_bytes n x :
  (0 <= x < 256 ^ Z.of_nat n)%Z -> le_val (le_bytes n x) = x.
Proof.
  revert x. induction n as [|n IH]; intros x Hx; [simpl in *; lia|].
  rewrite Nat2Z.inj_succ, Z.pow_succ_r in Hx by lia. cbn [le_bytes le_val].
  rewrite IH; [pose proof (Z.div_mod x 256); lia|].
  split; [apply Z.div_pos; lia|apply Z.div_lt_upper_bound; lia].
Qed.

Lemma be_val_bytes n x :
  (0 <= x < 256 ^ Z.of_nat n)%Z -> be_val (be_bytes n x) = x.
Proof.
  intros. unfold be_bytes. rewrite be_val_rev, rev_involutive. by apply le_val_bytes.
Qed.

Lemma length_be_bytes n x : length (be_bytes n x) = n.
Proof. unfold be_bytes. rewrite length_rev. apply length_le_bytes. Qed.

Lemma le_val_replicate_0 n : le_val (replicate n 0%Z) = 0%Z.
Proof. induction n as [|n IH]; [done|]. cbn [replicate le_val]. lia. Qed.

(** ** Maps as the standard library's collections *)

(** [iter.collect::<HashMap<_, _>>()]: a later pair replaces an earlier one. *)
Definition collect_map {K A} `{Countable K} (l : list (K * A)) : gmap K A :=
  fold_left (fun m kv => <[kv.1 := kv.2]> m) l ∅.

(** The keys of a [BTreeMap<u32, _>] in ascending order, and its entries. *)
Definition btree_keys {A} (m : gmap Z A) : list Z := merge_sort Z.le (elements (dom m)).

Definition btree_items {A} (m : gmap Z A) : list (Z * A) :=
  omap (fun k => pair k <$> m !! k) (btree_keys m).

Lemma elem_of_btree_keys {A} (m : gmap Z A) k : k ∈ btree_keys m <-> is_Some (m !! k).
Proof.
  unfold btree_keys. rewrite merge_sort_Permutation, elem_of_elements, elem_of_dom. done.
Qed.

Lemma elem_of_btree_items {A} (m : gmap Z A) k x : (k, x) ∈ btree_items m <-> m !! k = Some x.
Proof.
  unfold btree_items. rewrite list_elem_of_omap. split.
  - intros (k' & _ & H). destruct (m !! k') as [y|] eqn:E; cbn in H; congruence.
  - intros H. exists k. rewrite elem_of_btree_keys, H. eauto.
Qed.

Lemma NoDup_btree_keys {A} (m : gmap Z A) : NoDup (btree_keys m).
Proof. unfold btree_keys. rewrite merge_sort_Permutation. apply NoDup_elements. Qed.

Lemma btree_keys_sorted {A} (m : gmap Z A) : StronglySorted Z.le (btree_keys m).
Proof. apply (StronglySorted_merge_sort Z.le). Qed.

Lemma collect_map_acc {K A} `{Countable K} (l : list (K * A)) acc :
  fold_left (fun m kv => <[kv.1 := kv.2]> m) l acc = collect_map l ∪ acc.
Proof.
  unfold collect_map. revert acc. induction l as [|[k x] l IH]; intros acc; cbn.
  { by rewrite (left_id_L ∅ (∪)). }
  rewrite IH, (IH (<[k:=x]> ∅)). rewrite <- (assoc_L (∪)). f_equal.
  rewrite <- insert_union_l. by rewrite (left_id_L ∅ (∪)).
Qed.

Lemma collect_map_cons {K A} `{Countable K} k (x : A) (l : list (K * A)) :
  collect_map ((k, x) :: l) = collect_map l ∪ {[k := x]}.
Proof. unfold collect_map. cbn. rewrite collect_map_acc. done. Qed.

Lemma lookup_collect_map_Some {K A} `{Countable K} (l : list (K * A)) k x :
  collect_map l !! k = Some x -> (k, x) ∈ l.
Proof.
  induction l as [|[k' x'] l IH]; [done|]. rewrite collect_map_cons, lookup_union_Some_raw.
  intros [Hl|[_ Hl]]; [right; auto|]. apply lookup_singleton_Some in Hl as [-> ->]. left.
Qed.

(** ** The standard library's sorts *)

(** [Vec::dedup]: drop each element equal to the previous one. *)
Fixpoint dedup {A} `{EqDecision A} (l : list A) : list A :=
  match l with
  | x :: ((y :: _) as rest) => if decide (x = y) then dedup rest else x :: dedup rest
  | _ => l
  end.

Lemma elem_of_dedup {A} `{EqDecision A} (l : list A) x : x ∈ dedup l <-> x ∈ l.
Proof.
  induction l as [|a l IH]; [done|]. destruct l as [|b l]; [done|].
  change (dedup (a :: b :: l)) with
    (if decide (a = b) then dedup (b :: l) else a :: dedup (b :: l)).
  case_decide as Hab; [rewrite IH, Hab; rewrite !elem_of_cons; tauto|].
  rewrite elem_of_cons, IH, (elem_of_cons (b :: l)). done.
Qed.

Lemma dedup_sorted_NoDup (l : list Z) : StronglySorted Z.le l -> NoDup (dedup l).
Proof.
  induction 1 as [|a l Hs IH Hf]; [constructor|]. destruct l as [|b l]; [apply NoDup_singleton|].
  change (dedup (a :: b :: l)) with
    (if decide (a = b) then dedup (b :: l) else a :: dedup (b :: l)).
  case_decide as Hab; [done|]. apply NoDup_cons. split; [|done]. rewrite elem_of_dedup.
  intros Hin. apply StronglySorted_inv in Hs as [_ Hb]. apply Forall_cons in Hf as [Hle Hf].
  apply elem_of_cons in Hin as [->|Hin]; [done|].
  rewrite Forall_forall in Hb. specialize (Hb _ Hin). lia.
Qed.

(** [sort_by] with the comparison [le]: a stable sort, an element going before
    the equal ones that follow it. *)
Fixpoint stable_insert {A} (le : A -> A -> bool) (x : A) (l : list A) : list A :=
  match l with
  | [] => [x]
  | y :: l => if le x y then x :: y :: l else y :: stable_insert le x l
  end.

Definition stable_sort {A} (le : A -> A -> bool) (l : list A) : list A :=
  foldr (stable_insert le) [] l.

Lemma stable_insert_perm {A} (le : A -> A -> bool) x l : stable_insert le x l ≡ₚ x :: l.
Proof.
  induction l as [|y l IH]; [done|]. cbn. destruct (le x y); [done|].
  rewrite IH. apply Permutation_swap.
Qed.

Lemma stable_sort_perm {A} (le : A -> A -> bool) l : stable_sort le l ≡ₚ l.
Proof.
  induction l as [|x l IH]; [done|]. cbn. rewrite stable_insert_perm.
  by apply Permutation_skip.
Qed.

(** Sorting by an integer key keeps a previous order [R] within equal keys. *)
Lemma stable_sort_sorted {A} (key : A -> Z) (R : A -> A -> Prop) (l : list A) :
  StronglySorted R l ->
  StronglySorted (fun a b => key a < key b \/ (key a = key b /\ R a b))
    (stable_sort (fun a b => key a <=? key b) l).
Proof.
  induction 1 as [|x l Hs IH Hf]; [constructor|]. cbn [stable_sort foldr].
  fold (stable_sort (fun a b => key a <=? key b) l).
  assert (Hf' : Forall (R x) (stable_sort (fun a b => key a <=? key b) l))
    by (by rewrite stable_sort_perm).
  revert IH Hf'. generalize (stable_sort (fun a b => key a <=? key b) l) as m.
  induction m as [|y m IHm]; intros Hm Hfm; [repeat constructor|]. cbn.
  apply StronglySorted_inv in Hm as [Hm Hy]. apply Forall_cons in Hfm as [Hxy Hfm].
  destruct (Z.leb_spec (key x) (key y)).
  - constructor; [by constructor|]. constructor.
    + destruct (Z.eq_dec (key x) (key y)); [right; done|left; lia].
    + rewrite Forall_forall in *. intros z Hz. specialize (Hy z Hz). specialize (Hfm z Hz).
      destruct (Z.eq_dec (key x) (key z)); [right; done|left; lia].
  - constructor; [by apply IHm|]. rewrite stable_insert_perm. constructor; [left; lia|done].
Qed.

Lemma StronglySorted_weaken {A} (R R' : A -> A -> Prop) l :
  (forall a b, R a b -> R' a b) -> StronglySorted R l -> StronglySorted R' l.
Proof.
  intros HR. induction 1 as [|x l Hs IH Hf]; constructor; [done|].
  eapply Forall_impl; [exact Hf|]. auto.
Qed.

(** ** Inverting a successful computation *)

Lemma bind_ok {E A B} (m : result E A) (k : A -> result E B) b :
  (m ≫= k) = Ok b <-> exists a, m = Ok a /\ k a = Ok b.
Proof.
  destruct m as [a|e]; cbn; split.
  - eauto.
  - by intros (a' & [= ->] & H).
  - done.
  - by intros (a' & ? & _).
Qed.

(** Peel the binds off [m = Ok b]. *)
Ltac inv_ok :=
  repeat match goal with
  | H : (_ ≫= _) = Ok _ |- _ =>
      apply bind_ok in H; let a := fresh "a" in let Ha := fresh "Hok" in
      destruct H as (a & Ha & H)
  | H : Ok _ = Ok _ |- _ => injection H as H
  | H : Err _ = Ok _ |- _ => discriminate H
  end.

Lemma ok_or_ok {E A} (e : E) o (a : A) : ok_or e o = Ok a <-> o = Some a.
Proof. destruct o; cbn; split; congruence. Qed.

Lemma mapM_ok {E A B} (f : A -> result E B) l l' :
  mapM f l = Ok l' <-> Forall2 (fun x y => f x = Ok y) l l'.
Proof.
  revert l'. induction l as [|x l IH]; intros l'; cbn.
  - split; [intros [= <-]; constructor|by intros H; inversion H].
  - rewrite bind_ok. split.
    + intros (y & Hy & H). apply bind_ok in H as (ys & Hys & [= <-]).
      constructor; [done|]. by apply IH.
    + intros H. inversion H as [|? y ? ys Hy Hys]; subst. exists y. split; [done|].
      apply bind_ok. exists ys. split; [by apply IH|done].
Qed.

Lemma fmap_ext_in {A B} (f g : A -> B) (l : list A) :
  (forall x, x ∈ l -> f x = g x) -> f <$> l = (g <$> l : list B).
Proof. intros Hfg. apply list_fmap_ext. intros i x Hx. apply Hfg. by eapply list_elem_of_lookup_2. Qed.

Lemma eq_Permutation {A} (l k : list A) : l = k -> l ≡ₚ k.
Proof. by intros ->. Qed.

Lemma filter_none {A} (P : A -> Prop) `{forall x, Decision (P x)} (l : list A) :
  (forall x, x ∈ l -> ~ P x) -> filter P l = [].
Proof.
  induction l as [|x l IH]; intros Hn; [done|]. rewrite filter_cons_False by (apply Hn; left).
  apply IH. intros y Hy. apply Hn. by right.
Qed.

(** ** Strings *)

Lemma append_assoc a b c :
  String.append a (String.append b c) = String.append (String.append a b) c.
Proof. induction a as [|ch a IH]; [done|]. exact (f_equal (String ch) IH). Qed.

(** * Bytes and strings

    A Rust [str] is a [string] whose characters are its UTF-8 bytes.  This file
    has the two conversions with lists of bytes and the standard library's
    [str::from_utf8] test (the well-formed byte sequences of Unicode). *)

Fixpoint string_of_bytes (l : list Z) : string :=
  match l with
  | [] => EmptyString
  | b :: l => String (ascii_of_N (Z.to_N b)) (string_of_bytes l)
  end.

Fixpoint bytes_of_string (s : string) : list Z :=
  match s with
  | EmptyString => []
  | String c s => Z.of_N (N_of_ascii c) :: bytes_of_string s
  end.

(** [lo <= b <= hi]. *)
Definition within (lo hi b : Z) : bool := (lo <=? b) && (b <=? hi).

(** [str::from_utf8(bytes).is_ok()]. *)
Fixpoint utf8_valid (l : list Z) : bool :=
  match l with
  | [] => true
  | b :: l =>
      if b <? 0x80 then utf8_valid l
      else match l with
      | c :: l =>
          if within 0xC2 0xDF b && within 0x80 0xBF c then utf8_valid l
          else match l with
          | d :: l =>
              if within 0x80 0xBF d &&
                 ((b =? 0xE0) && within 0xA0 0xBF c ||
                  within 0xE1 0xEC b && within 0x80 0xBF c ||
                  (b =? 0xED) && within 0x80 0x9F c ||
                  within 0xEE 0xEF b && within 0x80 0xBF c) then utf8_valid l
              else match l with
              | e :: l =>
                  if within 0x80 0xBF d && within 0x80 0xBF e &&
                     ((b =? 0xF0) && within 0x90 0xBF c ||
                      within 0xF1 0xF3 b && within 0x80 0xBF c ||
                      (b =? 0xF4) && within 0x80 0x8F c)
                  then utf8_valid l else false
              | [] => false
              end
          | [] => false
          end
      | [] => false
      end
  end.

Definition utf8_string (s : string) : bool := utf8_valid (bytes_of_string s).

Lemma string_of_bytes_of s : string_of_bytes (bytes_of_string s) = s.
Proof. induction s as [|c s IH]; cbn; [done|]. by rewrite N2Z.id, ascii_N_embedding, IH. Qed.

Lemma bytes_of_string_of l : Forall is_u8 l -> bytes_of_string (string_of_bytes l) = l.
Proof.
  induction 1 as [|b l Hb _ IH]; cbn; [done|].
  unfold is_u8 in Hb. rewrite N_ascii_embedding by lia. rewrite IH, Z2N.id by lia. done.
Qed.

Lemma bytes_of_string_u8 s : Forall is_u8 (bytes_of_string s).
Proof.
  induction s as [|c s IH]; cbn; constructor; [|done].
  pose proof (N_ascii_bounded c). unfold is_u8. lia.
Qed.

(** [s.chars()]: each character is a byte and the continuation bytes after it.
    [chars_go] gives the continuation bytes [s] starts with and the characters
    after them. *)
Definition is_continuation (c : ascii) : bool := within 0x80 0xBF (Z.of_N (N_of_ascii c)).

Fixpoint chars_go (s : string) : string * list string :=
  match s with
  | EmptyString => (EmptyString, [])
  | String c s =>
      let '(pending, l) := chars_go s in
      if is_continuation c then (String c pending, l) else (EmptyString, String c pending :: l)
  end.

Definition chars (s : string) : list string := (chars_go s).2.

(** ** Sums over a list with one element replaced *)

Definition sum_of {A} (f : A -> Z) (l : list A) : Z := foldr (fun x n => f x + n) 0 l.

Lemma sum_of_cons {A} (f : A -> Z) x l : sum_of f (x :: l) = f x + sum_of f l.
Proof. done. Qed.

Lemma sum_of_insert {A} (f : A -> Z) l i x y :
  l !! i = Some x -> sum_of f (<[i := y]> l) = sum_of f l - f x + f y.
Proof.
  revert i. induction l as [|a l IH]; intros [|i] Hl; try done.
  - injection Hl as ->. change (f y + sum_of f l = f x + sum_of f l - f x + f y). lia.
  - change (f a + sum_of f (<[i := y]> l) = f a + sum_of f l - f x + f y).
    rewrite (IH i Hl). lia.
Qed.

Lemma sum_of_nonneg {A} (f : A -> Z) l : Forall (fun x => 0 <= f x) l -> 0 <= sum_of f l.
Proof. induction 1; [done|]. rewrite sum_of_cons. lia. Qed.

Lemma sum_of_elem {A} (f : A -> Z) l i x :
  Forall (fun x => 0 <= f x) l -> l !! i = Some x -> f x <= sum_of f l.
Proof.
  intros Hf. revert i. induction Hf as [|a l Ha Hl IH]; intros [|i] Hi; try done.
  - injection Hi as ->. change (f x <= f x + sum_of f l). pose proof (sum_of_nonneg f l Hl). lia.
  - change (f x <= f a + sum_of f l). specialize (IH i Hi). lia.
Qed.

Lemma sum_of_bound {A} (f : A -> Z) m l :
  Forall (fun x => f x <= m) l -> sum_of f l <= Z.of_nat (length l) * m.
Proof. induction 1; [done|]. rewrite sum_of_cons. cbn [length]. lia. Qed.

Lemma sum_of_replicate {A} (f : A -> Z) n x : f x = 0 -> sum_of f (replicate n x) = 0.
Proof. intros Hx. induction n as [|n IH]; [done|]. cbn [replicate]. rewrite sum_of_cons. lia. Qed.

Lemma sum_of_ext {A} (f g : A -> Z) l : (forall x, f x = g x) -> sum_of f l = sum_of g l.
Proof. intros He. induction l as [|a l IH]; [done|]. by rewrite !sum_of_cons, He, IH. Qed.

Lemma sum_of_plus {A} (f g : A -> Z) l : sum_of (fun x => f x + g x) l = sum_of f l + sum_of g l.
Proof. induction l as [|a l IH]; [done|]. rewrite !sum_of_cons. lia. Qed.
