(* ===== verification/PyRandom.v ===== *)
(** * [crates/pahoa-pyrandom]: CPython's Mersenne Twister

    [Mt19937] models [src/mt19937.rs], [PyRandom] models [src/lib.rs].  A [u32]
    is the [Z] it denotes, an array is a list, and the [while] loops of the
    seeding count down a [nat].  The SHA-512 digest of [seed_str] belongs to
    the [sha2] crate and is a section variable.

    The rejection loop of [randbelow] takes fuel: nothing bounds the number of
    draws it rejects.  [randbelow_spec] says exactly when, and with what, it
    returns. *)

From Stdlib Require Import ZArith Lia Bool.
From stdpp Require Import base tactics list.
From S2P Require Import Prelude.
Open Scope pahoa_scope.

Module Mt19937.

Definition N : nat := 624.
Definition M : nat := 397.
Definition MATRIX_A : Z := 0x9908b0df.
Definition UPPER_MASK : Z := 0x80000000.
Definition LOWER_MASK : Z := 0x7fffffff.

Record t : Type := mk { state : list Z; index : nat }.

(** [init_genrand]: one assignment of the [for i in 1..N] loop. *)
Definition seed_word (st : list Z) (i : nat) : list Z :=
  let prev := st !!! (i - 1)%nat in
  <[i := wrap32 (wrap32 (1812433253 * (prev ^^ (prev ^>> 30))) + Z.of_nat i)]> st.

Definition from_u32 (seed : Z) : t :=
  mk (fold_left seed_word (seq 1 (N - 1)) (<[0%nat := seed]> (replicate N 0))) N.

(** The wrap-around of the cursor [i] both loops of [from_key] end with. *)
Definition wrap_cursor (st : list Z) (i : nat) : list Z * nat :=
  if (N <=? i)%nat then (<[0%nat := st !!! (N - 1)%nat]> st, 1%nat) else (st, i).

(** First loop of [init_by_array], [k] iterations left. *)
Fixpoint mix_key (k : nat) (key st : list Z) (i j : nat) : list Z * nat :=
  match k with
  | O => (st, i)
  | S k =>
      let prev := st !!! (i - 1)%nat in
      let word :=
        wrap32 (wrap32 ((st !!! i ^^ wrap32 ((prev ^^ (prev ^>> 30)) * 1664525))
                        + key !!! j)
                + wrap32 (Z.of_nat j)) in
      let st := <[i := word]> st in
      let i := S i in
      let j := S j in
      let '(st, i) := wrap_cursor st i in
      let j := if (length key <=? j)%nat then 0%nat else j in
      mix_key k key st i j
  end.

(** Second loop of [init_by_array]. *)
Fixpoint mix_index (k : nat) (st : list Z) (i : nat) : list Z :=
  match k with
  | O => st
  | S k =>
      let prev := st !!! (i - 1)%nat in
      let word :=
        wrap32 ((st !!! i ^^ wrap32 ((prev ^^ (prev ^>> 30)) * 1566083941))
                - wrap32 (Z.of_nat i)) in
      let st := <[i := word]> st in
      let '(st, i) := wrap_cursor st (S i) in
      mix_index k st i
  end.

Definition from_key (key : list Z) : t :=
  let mt := from_u32 19650218 in
  let key := match key with [] => [0] | _ => key end in
  let '(st, i) := mix_key (Nat.max N (length key)) key (state mt) 1 0 in
  let st := mix_index (N - 1) st i in
  mk (<[0%nat := 0x80000000]> st) N.

(** The loop body of [regenerate]. *)
Definition twist (st : list Z) (i : nat) : list Z :=
  let y := (st !!! i ^& UPPER_MASK) ^| (st !!! ((i + 1) mod N)%nat ^& LOWER_MASK) in
  let next := st !!! ((i + M) mod N)%nat ^^ (y ^>> 1) in
  let next := if negb (Z.land y 1 =? 0) then next ^^ MATRIX_A else next in
  <[i := next]> st.

Definition regenerate (m : t) : t := mk (fold_left twist (seq 0 N) (state m)) 0.

(** The tempering of [next_u32]. *)
Definition temper (y : Z) : Z :=
  let y := y ^^ (y ^>> 11) in
  let y := y ^^ (wrap32 (y ^<< 7) ^& 0x9d2c5680) in
  let y := y ^^ (wrap32 (y ^<< 15) ^& 0xefc60000) in
  y ^^ (y ^>> 18).

Definition next_u32 (m : t) : Z * t :=
  let m := if (N <=? index m)%nat then regenerate m else m in
  (temper (state m !!! index m), mk (state m) (S (index m))).

Definition to_state (m : t) : list Z := state m ++ [wrap32 (Z.of_nat (index m))].

Definition from_state (words : list Z) : option t :=
  if negb (length words =? N + 1)%nat then None
  else
    let index := Z.to_nat (words !!! N) in
    if (N <? index)%nat then None
    else Some (mk (take N words) index).

Lemma N_624 : N = 624%nat. Proof. reflexivity. Qed.
Lemma M_397 : M = 397%nat. Proof. reflexivity. Qed.

End Mt19937.
#[global] Opaque Mt19937.N Mt19937.M.

(** [lia] that knows the two array constants. *)
Ltac mtlia := pose proof Mt19937.N_624; pose proof Mt19937.M_397; lia.

Record PyRandom : Type := mkPyRandom { mt : Mt19937.t }.

Section seed_str.
Variable sha512 : list Z -> list Z.

(** [le.chunks(4)] and the zero-padded [u32::from_le_bytes] of each chunk. *)
Fixpoint le_words (fuel : nat) (le : list Z) : list Z :=
  match fuel, le with
  | _, [] => []
  | O, _ => []
  | S fuel, _ => le_val (take 4 le ++ replicate (4 - length (take 4 le)) 0)
                 :: le_words fuel (drop 4 le)
  end.

(** [while le.last() == Some(&0) { le.pop() }], on the reversed list. *)
Fixpoint strip_zeros (rev_le : list Z) : list Z :=
  match rev_le with
  | [] => []
  | b :: rest => if b =? 0 then strip_zeros rest else rev_le
  end.

Definition seed_key (key : list Z) : PyRandom := mkPyRandom (Mt19937.from_key key).

Definition seed_words (be : list Z) : list Z :=
  let le := rev (strip_zeros be) in
  le_words (length le) le.

Definition seed_be_bytes (be : list Z) : PyRandom :=
  let key := seed_words be in
  seed_key (match key with [] => [0] | _ => key end).

Definition seed_str (bytes : list Z) : PyRandom :=
  seed_be_bytes (bytes ++ sha512 bytes).
End seed_str.

Definition from_state (words : list Z) : option PyRandom :=
  mkPyRandom <$> Mt19937.from_state words.
Definition to_state (r : PyRandom) : list Z := Mt19937.to_state (mt r).

(** One 32-bit draw. *)
Definition draw (r : PyRandom) : Z * PyRandom :=
  let '(x, m) := Mt19937.next_u32 (mt r) in (x, mkPyRandom m).

(** The [for _ in 0..words] loop of [getrandbits_words]. *)
Fixpoint draw_words (words : nat) (remaining : Z) (r : PyRandom) : list Z * PyRandom :=
  match words with
  | O => ([], r)
  | S words =>
      let '(x, r) := draw r in
      let x := if remaining <? 32 then x ^>> (32 - remaining) else x in
      let '(rest, r) := draw_words words (wrap32 (remaining - 32)) r in
      (x :: rest, r)
  end.

Definition getrandbits_words (k : Z) (r : PyRandom) : list Z * PyRandom :=
  if k =? 0 then ([0], r)
  else if k <=? 32 then
    let '(x, r) := draw r in ([x ^>> (32 - k)], r)
  else draw_words (Z.to_nat ((k - 1) / 32 + 1)) k r.

(** [None] is the [assert!] failing. *)
Definition getrandbits_u64 (k : Z) (r : PyRandom) : option (Z * PyRandom) :=
  if 64 <? k then None
  else
    let '(words, r) := getrandbits_words k r in
    let lo := words !!! 0%nat in
    let hi := default 0 (words !! 1%nat) in
    Some ((hi ^<< 32) ^| lo, r).

(** [64 - n.leading_zeros()] for a nonzero [u64]. *)
Definition bit_length (n : Z) : Z := Z.log2 n + 1.

(** The rejection loop. [None]: out of fuel. *)
Fixpoint reject (fuel : nat) (k n : Z) (r : PyRandom) : option (Z * PyRandom) :=
  match fuel with
  | O => None
  | S fuel =>
      match getrandbits_u64 k r with
      | None => None
      | Some (x, r) => if x <? n then Some (x, r) else reject fuel k n r
      end
  end.

Definition randbelow (fuel : nat) (n : Z) (r : PyRandom) : option (Z * PyRandom) :=
  if n =? 0 then Some (0, r) else reject fuel (bit_length n) n r.

(** [x.swap(i, j)]. *)
Definition swap {A} (i j : nat) (l : list A) : list A :=
  match l !! i, l !! j with
  | Some a, Some b => <[i := b]> (<[j := a]> l)
  | _, _ => l
  end.

(** The [for i in (1..x.len()).rev()] loop, [i] iterations left. *)
Fixpoint shuffle_from {A} (fuel : nat) (i : nat) (x : list A) (r : PyRandom)
    : option (list A * PyRandom) :=
  match i with
  | O => Some (x, r)
  | S i' =>
      match randbelow fuel (Z.of_nat i + 1) r with
      | None => None
      | Some (j, r) => shuffle_from fuel i' (swap i (Z.to_nat j) x) r
      end
  end.

Definition shuffle {A} (fuel : nat) (x : list A) (r : PyRandom) : option (list A * PyRandom) :=
  if (length x <? 2)%nat then Some (x, r) else shuffle_from fuel (length x - 1) x r.

(** The known-answer vector of the crate's own test, captured from CPython. *)
Fixpoint outputs (n : nat) (m : Mt19937.t) : list Z :=
  match n with
  | O => []
  | S n => let '(x, m) := Mt19937.next_u32 m in x :: outputs n m
  end.

Example matches_cpython_init_by_array :
  outputs 10 (Mt19937.from_key [0x123; 0x234; 0x345; 0x456])
  = [1067595299; 955945823; 477289528; 4107218783; 4228976476;
     3344332714; 3355579695; 227628506; 810200273; 2591290167].
Proof. vm_compute. reflexivity. Qed.

(** ** Well-formed generators *)

Definition words_ok (st : list Z) : Prop :=
  length st = Mt19937.N /\ Forall is_u32 st.

Definition mt_wf (m : Mt19937.t) : Prop :=
  words_ok (Mt19937.state m) /\ (Mt19937.index m <= Mt19937.N)%nat.

Definition rng_wf (r : PyRandom) : Prop := mt_wf (mt r).

Lemma words_ok_insert st i x : words_ok st -> is_u32 x -> words_ok (<[i := x]> st).
Proof.
  intros [Hl Hf] Hx. split; [by rewrite length_insert|].
  by apply Forall_insert.
Qed.

Lemma words_ok_lookup st i : words_ok st -> is_u32 (st !!! i).
Proof.
  intros [_ Hf]. rewrite list_lookup_total_alt.
  destruct (st !! i) as [x|] eqn:E; cbn; [|unfold is_u32; lia].
  by eapply (Forall_lookup_1 is_u32).
Qed.

#[export] Hint Resolve words_ok_insert words_ok_lookup : pahoa.

Lemma fold_words_ok (f : list Z -> nat -> list Z) l st :
  (forall st i, words_ok st -> words_ok (f st i)) ->
  words_ok st -> words_ok (fold_left f l st).
Proof. intros Hf. revert st. induction l; simpl; auto. Qed.

Lemma from_u32_ok seed : is_u32 seed -> words_ok (Mt19937.state (Mt19937.from_u32 seed)).
Proof.
  intros Hs. unfold Mt19937.from_u32. cbn [Mt19937.state].
  apply fold_words_ok; [intros; unfold Mt19937.seed_word; auto with pahoa|].
  apply words_ok_insert; [|done]. split; [done|].
  apply Forall_replicate. unfold is_u32. lia.
Qed.

Lemma wrap_cursor_ok st i : words_ok st -> words_ok (Mt19937.wrap_cursor st i).1.
Proof. intros. unfold Mt19937.wrap_cursor. case_match; cbn; auto with pahoa. Qed.

Lemma mix_key_ok k key st i j : words_ok st -> words_ok (Mt19937.mix_key k key st i j).1.
Proof.
  revert st i j. induction k as [|k IH]; intros st i j Hok; [done|].
  cbn -[wrap32 Mt19937.wrap_cursor]. set (st' := <[i := _]> st).
  destruct (Mt19937.wrap_cursor st' (S i)) as [st'' i'] eqn:E.
  assert (words_ok st'') as Hok''; [|by apply IH].
  change st'' with (st'', i').1. rewrite <- E. apply wrap_cursor_ok. subst st'. auto with pahoa.
Qed.

Lemma mix_index_ok k st i : words_ok st -> words_ok (Mt19937.mix_index k st i).
Proof.
  revert st i. induction k as [|k IH]; intros st i Hok; [done|].
  cbn -[wrap32 Mt19937.wrap_cursor]. set (st' := <[i := _]> st).
  destruct (Mt19937.wrap_cursor st' (S i)) as [st'' i'] eqn:E.
  assert (words_ok st'') as Hok''; [|by apply IH].
  change st'' with (st'', i').1. rewrite <- E. apply wrap_cursor_ok. subst st'. auto with pahoa.
Qed.

Lemma from_key_wf key : mt_wf (Mt19937.from_key key).
Proof.
  unfold Mt19937.from_key.
  destruct (Mt19937.mix_key _ _ _ _ _) as [st i] eqn:E.
  split; [|cbn; lia]. cbn [Mt19937.state]. apply words_ok_insert; [|unfold is_u32; lia].
  apply mix_index_ok. change st with (st, i).1. rewrite <- E.
  apply mix_key_ok, from_u32_ok. unfold is_u32. lia.
Qed.

Lemma twist_ok st i : words_ok st -> words_ok (Mt19937.twist st i).
Proof.
  intros Hok. unfold Mt19937.twist. apply words_ok_insert; [done|].
  assert (is_u32 (Mt19937.MATRIX_A)) by (unfold is_u32, Mt19937.MATRIX_A; lia).
  assert (forall a b, is_u32 a -> is_u32 (Z.land a b ) \/ b < 0) as Hland.
  { intros a b Ha. destruct (Z.lt_ge_cases b 0); [by right|left].
    rewrite Z.land_comm. apply land_below; unfold is_u32 in *; lia. }
  assert (is_u32 (Z.shiftr (Z.lor (Z.land (st !!! i) Mt19937.UPPER_MASK)
     (Z.land (st !!! ((i + 1) mod Mt19937.N)%nat) Mt19937.LOWER_MASK)) 1)) as Hy.
  { apply shiftr_below; [lia|].
    apply lor_below; [lia| |].
    - destruct (Hland (st !!! i) Mt19937.UPPER_MASK); auto with pahoa.
      unfold Mt19937.UPPER_MASK in *. lia.
    - destruct (Hland (st !!! ((i + 1) mod Mt19937.N)%nat) Mt19937.LOWER_MASK); auto with pahoa.
      unfold Mt19937.LOWER_MASK in *. lia. }
  case_match; repeat (apply lxor_below; [lia| |]); auto; by apply words_ok_lookup.
Qed.

Lemma regenerate_wf m : words_ok (Mt19937.state m) -> mt_wf (Mt19937.regenerate m).
Proof.
  intros Hok. split; [|cbn; lia]. unfold Mt19937.regenerate. cbn [Mt19937.state].
  apply fold_words_ok; [apply twist_ok|done].
Qed.

Lemma temper_u32 y : is_u32 y -> is_u32 (Mt19937.temper y).
Proof.
  intros Hy. unfold Mt19937.temper.
  repeat (first [apply lxor_below; [lia| |] | apply shiftr_below; [lia|]
                | apply land_below; [lia| |]]);
    auto using wrap32_range; try lia; apply wrap32_range.
Qed.

Lemma next_u32_wf m :
  mt_wf m ->
  is_u32 (Mt19937.next_u32 m).1 /\ mt_wf (Mt19937.next_u32 m).2.
Proof.
  intros [Hok Hi]. unfold Mt19937.next_u32.
  set (m' := if (Mt19937.N <=? Mt19937.index m)%nat then _ else _).
  assert (words_ok (Mt19937.state m') /\ (Mt19937.index m' < Mt19937.N)%nat) as [Hok' Hi'].
  { subst m'. case_match eqn:E.
    - split; [by apply regenerate_wf|]. cbn. mtlia.
    - apply Nat.leb_gt in E. done. }
  cbn. split; [apply temper_u32; auto with pahoa|].
  split; cbn; [done|lia].
Qed.

Lemma draw_wf r : rng_wf r -> is_u32 (draw r).1 /\ rng_wf (draw r).2.
Proof.
  intros Hwf. unfold draw. pose proof (next_u32_wf _ Hwf) as [Hx Hm].
  destruct (Mt19937.next_u32 (mt r)) as [x m]. done.
Qed.

(** ** Refinement: the in-place block update computes the MT19937 recurrence

    The reference definition keeps a window of 624 words and slides it one
    word at a time. *)

Module Reference.
Definition mix (u l : Z) : Z :=
  let y := (u ^& Mt19937.UPPER_MASK) ^| (l ^& Mt19937.LOWER_MASK) in
  if negb (Z.land y 1 =? 0) then (y ^>> 1) ^^ Mt19937.MATRIX_A else y ^>> 1.

Definition slide (w : list Z) : list Z :=
  drop 1 w ++ [w !!! Mt19937.M ^^ mix (w !!! 0%nat) (w !!! 1%nat)].

(** The [k]-th word of the infinite sequence a window generates. *)
Definition word (w : list Z) (k : nat) : Z := Nat.iter k slide w !!! 0%nat.
End Reference.

Lemma slide_length w : length w = Mt19937.N -> length (Reference.slide w) = Mt19937.N.
Proof.
  intros Hw. unfold Reference.slide. rewrite length_app, length_drop, Hw. done.
Qed.

Lemma iter_slide_length k w :
  length w = Mt19937.N -> length (Nat.iter k Reference.slide w) = Mt19937.N.
Proof. intros. induction k; simpl; auto using slide_length. Qed.

Lemma slide_lookup w i :
  length w = Mt19937.N -> (S i < Mt19937.N)%nat ->
  Reference.slide w !!! i = w !!! S i.
Proof.
  intros Hw Hi. unfold Reference.slide.
  rewrite lookup_total_app_l by (rewrite length_drop; lia).
  rewrite lookup_total_drop. done.
Qed.

(** The window after [k] slides holds words [k .. k + 623]. *)
Lemma window_lookup w k i :
  length w = Mt19937.N -> (i < Mt19937.N)%nat ->
  Nat.iter k Reference.slide w !!! i = Reference.word w (k + i).
Proof.
  intros Hw. revert k. induction i as [|i IH]; intros k Hi.
  - unfold Reference.word. by rewrite Nat.add_0_r.
  - rewrite <- slide_lookup by (try apply iter_slide_length; done || lia).
    replace (k + S i)%nat with (S k + i)%nat by lia.
    change (Reference.slide (Nat.iter k Reference.slide w))
      with (Nat.iter (S k) Reference.slide w).
    apply IH. lia.
Qed.

(** The recurrence of the MT19937 paper. *)
Lemma word_recurrence w k :
  length w = Mt19937.N ->
  Reference.word w (k + Mt19937.N)
  = Z.lxor (Reference.word w (k + Mt19937.M))
           (Reference.mix (Reference.word w k) (Reference.word w (k + 1))).
Proof.
  intros Hw. set (v := Nat.iter k Reference.slide w).
  assert (Hv : length v = Mt19937.N) by by apply iter_slide_length.
  replace (k + Mt19937.N)%nat with (S k + (Mt19937.N - 1))%nat by mtlia.
  rewrite <- window_lookup by (done || mtlia).
  change (Nat.iter (S k) Reference.slide w) with (Reference.slide v). unfold Reference.slide.
  rewrite lookup_total_app_r by (rewrite length_drop; lia).
  rewrite length_drop, Hv.
  replace (Mt19937.N - 1 - (Mt19937.N - 1))%nat with 0%nat by lia. cbn.
  rewrite <- (window_lookup w k Mt19937.M) by (done || mtlia).
  rewrite <- (window_lookup w k 1) by (done || mtlia).
  replace (Reference.word w k) with (v !!! 0%nat) by done.
  done.
Qed.

(** The array holds the words [b .. b + 623] of the sequence, the first [i] of
    them already replaced by the words 624 further on. *)
Definition half_regenerated (w : list Z) (b i : nat) (st : list Z) : Prop :=
  length st = Mt19937.N /\
  forall j, (j < Mt19937.N)%nat ->
    st !!! j = Reference.word w (if (j <? i)%nat then b + Mt19937.N + j else b + j).

Lemma twist_step w b i st :
  length w = Mt19937.N -> (i < Mt19937.N)%nat ->
  half_regenerated w b i st -> half_regenerated w b (S i) (Mt19937.twist st i).
Proof.
  intros Hw Hi [Hl Hst].
  assert (Hval : Mt19937.twist st i
          = <[i := Reference.word w (b + i + Mt19937.N)]> st).
  { unfold Mt19937.twist. f_equal. rewrite word_recurrence by done.
    rewrite (Hst i) by done. rewrite Nat.ltb_irrefl.
    assert (H1 : st !!! ((i + 1) mod Mt19937.N)%nat = Reference.word w (b + i + 1)).
    { destruct (Nat.eq_dec (i + 1)%nat Mt19937.N) as [E|E].
      - rewrite E, Nat.Div0.mod_same, Hst by mtlia.
        destruct (Nat.ltb_spec 0 i); [f_equal; mtlia|mtlia].
      - rewrite Nat.mod_small, Hst by mtlia.
        destruct (Nat.ltb_spec (i + 1)%nat i); [lia|f_equal; lia]. }
    assert (HM : st !!! ((i + Mt19937.M) mod Mt19937.N)%nat
                 = Reference.word w (b + i + Mt19937.M)).
    { destruct (Nat.lt_ge_cases (i + Mt19937.M)%nat Mt19937.N) as [E|E].
      - rewrite Nat.mod_small, Hst by mtlia.
        destruct (Nat.ltb_spec (i + Mt19937.M)%nat i); [lia|f_equal; lia].
      - replace ((i + Mt19937.M) mod Mt19937.N)%nat with (i + Mt19937.M - Mt19937.N)%nat.
        + rewrite Hst by mtlia.
          destruct (Nat.ltb_spec (i + Mt19937.M - Mt19937.N)%nat i); [f_equal; mtlia|mtlia].
        + apply (Nat.mod_unique _ _ 1%nat); mtlia. }
    rewrite H1, HM. unfold Reference.mix. case_match; [|done].
    by rewrite Z.lxor_assoc. }
  rewrite Hval. split; [by rewrite length_insert|]. intros j Hj.
  destruct (Nat.eq_dec i j) as [->|Hne].
  - rewrite list_lookup_total_insert_eq by lia.
    destruct (Nat.ltb_spec j (S j)); [f_equal; lia|lia].
  - rewrite list_lookup_total_insert_ne, Hst by done.
    destruct (Nat.ltb_spec j i), (Nat.ltb_spec j (S i)); done || lia.
Qed.

Lemma twist_loop w b n st :
  length w = Mt19937.N -> (n <= Mt19937.N)%nat ->
  half_regenerated w b 0 st ->
  half_regenerated w b n (fold_left Mt19937.twist (seq 0 n) st).
Proof.
  intros Hw Hn Hst. induction n as [|n IH]; [done|].
  rewrite seq_S, fold_left_app. cbn [fold_left]. apply twist_step; [done|lia|].
  apply IH. lia.
Qed.

(** [m] will next temper word [p] of the sequence generated by [w]. *)
Definition at_word (w : list Z) (p : nat) (m : Mt19937.t) : Prop :=
  exists b, p = (b + Mt19937.index m)%nat /\ (Mt19937.index m <= Mt19937.N)%nat /\
    half_regenerated w b 0 (Mt19937.state m).

Lemma next_u32_at w p m :
  length w = Mt19937.N -> at_word w p m ->
  (Mt19937.next_u32 m).1 = Mt19937.temper (Reference.word w p)
  /\ at_word w (S p) (Mt19937.next_u32 m).2.
Proof.
  intros Hw (b & -> & Hi & Hst). unfold Mt19937.next_u32.
  destruct (Nat.leb_spec Mt19937.N (Mt19937.index m)) as [Hge|Hlt].
  - assert (half_regenerated w (b + Mt19937.N) 0 (Mt19937.state (Mt19937.regenerate m))) as [Hl Hv].
    { destruct (twist_loop w b Mt19937.N _ Hw (le_n _) Hst) as [Hl Hv].
      split; [done|]. intros j Hj. cbn [Nat.ltb]. unfold Mt19937.regenerate.
      cbn [Mt19937.state]. rewrite Hv by done.
      destruct (Nat.ltb_spec j Mt19937.N); [f_equal; lia|lia]. }
    cbn [fst snd]. change (Mt19937.index (Mt19937.regenerate m)) with 0%nat.
    split; [rewrite Hv by mtlia; do 2 f_equal; cbn; lia|].
    exists (b + Mt19937.N)%nat. cbn. repeat split; [lia|mtlia|done|done].
  - cbn [fst snd]. destruct Hst as [Hl Hv]. split; [by rewrite Hv by done|].
    exists b. cbn. repeat split; [lia|lia|done|done].
Qed.

Lemma outputs_at w p m n :
  length w = Mt19937.N -> at_word w p m ->
  outputs n m = map (fun k => Mt19937.temper (Reference.word w k)) (seq p n).
Proof.
  intros Hw. revert p m. induction n as [|n IH]; intros p m Hat; [done|].
  cbn [outputs seq map]. destruct (next_u32_at w p m Hw Hat) as [Hx Hat'].
  destruct (Mt19937.next_u32 m) as [x m']. cbn in *. f_equal; auto.
Qed.

(** From any well-shaped generator the outputs of successive [next_u32]
    calls, whose [regenerate] overwrites the 624-word array in place with
    indices modulo 624, are the tempered words of the MT19937 recurrence read
    one at a time from a sliding window, from the generator's own index on. *)
Theorem next_u32_refines_recurrence m n :
  length (Mt19937.state m) = Mt19937.N -> (Mt19937.index m <= Mt19937.N)%nat ->
  outputs n m
  = map (fun k => Mt19937.temper (Reference.word (Mt19937.state m) k))
        (seq (Mt19937.index m) n).
Proof.
  intros Hl Hi. apply outputs_at; [done|]. exists 0%nat. repeat split; [done|done|].
  intros j Hj. exact (window_lookup (Mt19937.state m) 0 j Hl Hj).
Qed.

(** ** Bounds of a draw *)

(** A list of [u32] as the integer of its little-endian digits. *)
Fixpoint words_val (ws : list Z) : Z :=
  match ws with
  | [] => 0
  | w :: ws => w + 2 ^ 32 * words_val ws
  end.

Lemma shiftr_u32_bound x k :
  is_u32 x -> 0 <= k <= 32 -> 0 <= Z.shiftr x (32 - k) < 2 ^ k.
Proof.
  unfold is_u32. intros Hx Hk. rewrite Z.shiftr_div_pow2 by lia.
  assert (Hp : 2 ^ 32 = 2 ^ (32 - k) * 2 ^ k) by (rewrite <- Z.pow_add_r by lia; f_equal; lia).
  assert (0 < 2 ^ (32 - k)) by (apply Z.pow_pos_nonneg; lia).
  split; [apply Z.div_pos; lia|apply Z.div_lt_upper_bound; lia].
Qed.

(** The loop runs [ceil(remaining / 32)] times. *)
Lemma draw_words_bound n rem r :
  rng_wf r -> 32 * Z.of_nat n - 32 < rem <= 32 * Z.of_nat n -> rem < 2 ^ 32 ->
  (1 <= n)%nat ->
  length (draw_words n rem r).1 = n /\ Forall is_u32 (draw_words n rem r).1 /\
  0 <= words_val (draw_words n rem r).1 < 2 ^ rem /\ rng_wf (draw_words n rem r).2.
Proof.
  revert rem r. induction n as [|n IH]; intros rem r Hwf Hrem H32 Hn; [lia|].
  cbn [draw_words]. destruct (draw_wf r Hwf) as [Hx Hwf'].
  destruct (draw r) as [x r'] eqn:Ed. cbn [fst snd] in *.
  destruct n as [|n].
  - cbn. assert (Hw : is_u32 (if rem <? 32 then Z.shiftr x (32 - rem) else x)
                     /\ 0 <= (if rem <? 32 then Z.shiftr x (32 - rem) else x) < 2 ^ rem).
    { destruct (Z.ltb_spec rem 32).
      - split; [apply shiftr_below; [lia|done]|apply shiftr_u32_bound; [done|lia]].
      - replace rem with 32 by lia. done. }
    destruct Hw. split_and!; try lia; [by constructor|done].
  - destruct (Z.ltb_spec rem 32); [lia|].
    assert (Hrem' : wrap32 (rem - 32) = rem - 32) by (apply wrap32_id; unfold is_u32; lia).
    rewrite Hrem'.
    destruct (IH (rem - 32) r' Hwf') as (Hl & Hf & Hb & Hwf''); [lia|lia|lia|].
    destruct (draw_words (S n) (rem - 32) r') as [rest r'']. cbn [fst snd] in *.
    assert (2 ^ rem = 2 ^ 32 * 2 ^ (rem - 32))
      by (rewrite <- Z.pow_add_r by lia; f_equal; lia).
    cbn [length words_val]. unfold is_u32 in Hx.
    split_and!; [lia|by constructor|lia|nia|done].
Qed.

(** [getrandbits(k)] yields [max(1, ceil(k/32))] words of 32 bits whose
    little-endian value is below [2^k] (so the most significant word is the
    one shifted down), and leaves a well-formed generator. *)
Theorem getrandbits_words_bounds k r :
  rng_wf r -> 0 <= k < 2 ^ 32 ->
  Forall is_u32 (getrandbits_words k r).1
  /\ length (getrandbits_words k r).1 = Z.to_nat (Z.max 1 ((k + 31) / 32))
  /\ 0 <= words_val (getrandbits_words k r).1 < 2 ^ k
  /\ rng_wf (getrandbits_words k r).2.
Proof.
  intros Hwf Hk. unfold getrandbits_words.
  destruct (Z.eqb_spec k 0) as [->|Hk0].
  { cbn [fst snd words_val length]. split_and!; try lia; [|done|done].
    constructor; [unfold is_u32; lia|constructor]. }
  destruct (Z.leb_spec k 32) as [Hle|Hgt].
  - destruct (draw_wf r Hwf) as [Hx Hwf'].
    destruct (draw r) as [x r'] eqn:Ed. cbn [fst snd words_val length] in *.
    assert (Hs : is_u32 (Z.shiftr x (32 - k))) by (apply shiftr_below; [lia|done]).
    assert ((k + 31) / 32 = 1) as ->
      by (symmetry; apply Z.div_unique with (k - 1); lia).
    pose proof (shiftr_u32_bound x k Hx) as Hb.
    split_and!; try lia; [by constructor|done].
  - pose proof (Z.div_mod (k - 1) 32) as Hd.
    pose proof (Z.mod_pos_bound (k - 1) 32) as Hm.
    assert ((k + 31) / 32 = (k - 1) / 32 + 1) as Hc
      by (replace (k + 31) with (k - 1 + 1 * 32) by lia; apply Z.div_add; lia).
    assert (1 <= (k - 1) / 32) by (apply Z.div_le_lower_bound; lia).
    destruct (draw_words_bound (Z.to_nat ((k - 1) / 32 + 1)) k r Hwf)
      as (Hl & Hf & Hb & Hwf'); [lia|lia|lia|].
    split_and!; first [done|lia|rewrite Hl, Hc; lia].
Qed.

Lemma lor_shiftl_add lo hi : is_u32 lo -> 0 <= hi -> Z.lor (Z.shiftl hi 32) lo = lo + 2 ^ 32 * hi.
Proof.
  unfold is_u32. intros Hlo Hhi.
  assert (Hd : Z.land (Z.shiftl hi 32) lo = 0).
  { apply Z.bits_inj'. intros n Hn. rewrite Z.land_spec, Z.bits_0.
    destruct (Z.lt_ge_cases n 32).
    - rewrite Z.shiftl_spec_low by lia. done.
    - rewrite (proj1 (below_pow2_bits lo 32 ltac:(lia) (proj1 Hlo)) (proj2 Hlo) n) by lia.
      apply andb_false_r. }
  pose proof (Z.add_lor_land (Z.shiftl hi 32) lo) as Hs. rewrite Hd in Hs.
  rewrite Z.shiftl_mul_pow2 in * by lia. lia.
Qed.

Lemma getrandbits_u64_value k r :
  rng_wf r -> 0 <= k <= 64 ->
  exists x r', getrandbits_u64 k r = Some (x, r')
    /\ getrandbits_words k r = ((getrandbits_words k r).1, r')
    /\ x = words_val (getrandbits_words k r).1 /\ 0 <= x < 2 ^ k /\ rng_wf r'.
Proof.
  intros Hwf Hk. unfold getrandbits_u64.
  destruct (Z.ltb_spec 64 k); [lia|].
  assert (Hk' : 0 <= k < 2 ^ 32) by lia.
  destruct (getrandbits_words_bounds k r Hwf Hk') as (Hf & Hl & Hb & Hwf').
  destruct (getrandbits_words k r) as [ws r'] eqn:E. cbn [fst snd] in *.
  assert ((k + 31) / 32 <= 2) by (apply Z.lt_succ_r, Z.div_lt_upper_bound; lia).
  assert (Hx : Z.lor (Z.shiftl (default 0 (ws !! 1%nat)) 32) (ws !!! 0%nat) = words_val ws).
  { destruct ws as [|w0 [|w1 [|w2 ws]]]; cbn in Hl; [lia| | |lia].
    - apply Forall_inv in Hf. cbn -[Z.shiftl Z.lor Z.pow Z.mul].
      rewrite lor_shiftl_add by (done || lia). lia.
    - pose proof (Forall_inv (Forall_inv_tail Hf)) as H1. apply Forall_inv in Hf.
      cbn -[Z.shiftl Z.lor Z.pow Z.mul].
      rewrite lor_shiftl_add; [lia|done|]. unfold is_u32 in H1. lia. }
  rewrite Hx. exists (words_val ws), r'. done.
Qed.

(** ** The rejection loop *)

(** The [j]-th [k]-bit draw from [r], and the generator after it. *)
Fixpoint nth_draw (k : Z) (j : nat) (r : PyRandom) : option (Z * PyRandom) :=
  match getrandbits_u64 k r with
  | None => None
  | Some (x, r) => match j with O => Some (x, r) | S j => nth_draw k j r end
  end.

Lemma reject_spec fuel k n r x r' :
  reject fuel k n r = Some (x, r') <->
  exists j, (j < fuel)%nat /\ nth_draw k j r = Some (x, r') /\ x < n /\
    forall i, (i < j)%nat -> exists y s, nth_draw k i r = Some (y, s) /\ n <= y.
Proof.
  revert r. induction fuel as [|fuel IH]; intros r.
  { split; [done|]. intros (j & Hj & _). lia. }
  cbn [reject]. destruct (getrandbits_u64 k r) as [[y s]|] eqn:E.
  - destruct (Z.ltb_spec y n) as [Hlt|Hge].
    + split.
      * intros [= -> ->]. exists 0%nat. cbn. rewrite E. split_and!; [lia|done|done|lia].
      * intros (j & Hj & Hd & Hx & Hmin). destruct j as [|j].
        { cbn in Hd. by rewrite E in Hd. }
        destruct (Hmin 0%nat) as (y' & s' & Hd' & Hy'); [lia|]. cbn in Hd'.
        rewrite E in Hd'. simplify_eq. lia.
    + rewrite IH. split.
      * intros (j & Hj & Hd & Hx & Hmin). exists (S j). cbn [nth_draw]. rewrite E.
        split_and!; [lia|done|done|]. intros [|i] Hi; cbn [nth_draw]; rewrite E; [eauto|].
        apply Hmin. lia.
      * intros (j & Hj & Hd & Hx & Hmin). destruct j as [|j]; cbn [nth_draw] in Hd; rewrite E in Hd.
        { simplify_eq. lia. }
        exists j. split_and!; [lia|done|done|]. intros i Hi.
        destruct (Hmin (S i)) as (y' & s' & Hd' & Hy'); [lia|].
        cbn [nth_draw] in Hd'. rewrite E in Hd'. eauto.
  - split; [done|]. intros (j & _ & Hd & _). destruct j; cbn in Hd; by rewrite E in Hd.
Qed.

Lemma bit_length_bound n : 0 < n < 2 ^ 64 -> 0 <= bit_length n <= 64.
Proof.
  unfold bit_length. intros Hn.
  assert (0 <= Z.log2 n) by apply Z.log2_nonneg.
  assert (Z.log2 n < 64) by (apply Z.log2_lt_pow2; lia). lia.
Qed.

Lemma nth_draw_wf k j r x r' :
  rng_wf r -> 0 <= k <= 64 -> nth_draw k j r = Some (x, r') -> 0 <= x < 2 ^ k /\ rng_wf r'.
Proof.
  intros Hwf Hk. revert r Hwf. induction j as [|j IH]; intros r Hwf;
    destruct (getrandbits_u64_value k r Hwf Hk) as (y & s & E & _ & _ & Hy & Hs);
    cbn [nth_draw]; rewrite E.
  - by intros [= -> ->].
  - by apply IH.
Qed.

(** [randbelow n] returns exactly the first of the successive
    [bit_length n]-bit draws that is below [n], together with the generator
    after that draw and no later one; it lies in [[0, n)]; it consumes no
    draw when [n = 0]; and it returns whenever such a draw comes within the
    fuel, so the loop fails to return only when every draw is rejected. *)
Theorem randbelow_spec fuel n r x r' :
  rng_wf r -> 0 <= n < 2 ^ 64 ->
  randbelow fuel n r = Some (x, r') <->
  (n = 0 /\ x = 0 /\ r' = r) \/
  (0 <= x < n /\ rng_wf r' /\
   exists j, (j < fuel)%nat /\ nth_draw (bit_length n) j r = Some (x, r') /\
     forall i, (i < j)%nat -> exists y s, nth_draw (bit_length n) i r = Some (y, s) /\ n <= y).
Proof.
  intros Hwf Hn. unfold randbelow. destruct (Z.eqb_spec n 0) as [->|Hn0].
  - split; [intros [= <- <-]; by left|]. intros [(_ & -> & ->)|[Hx _]]; [done|lia].
  - rewrite reject_spec. assert (Hb : 0 <= bit_length n <= 64) by (apply bit_length_bound; lia).
    split.
    + intros (j & Hj & Hd & Hx & Hmin). right.
      destruct (nth_draw_wf _ _ _ _ _ Hwf Hb Hd) as [Hx' Hwf'].
      split_and!; [lia|lia|done|]. eauto.
    + intros [(-> & _)|(Hx & _ & j & Hj & Hd & Hmin)]; [lia|]. exists j. split_and!; [done|done|lia|done].
Qed.

Lemma randbelow_range fuel n r x r' :
  rng_wf r -> 0 < n < 2 ^ 64 -> randbelow fuel n r = Some (x, r') -> 0 <= x < n /\ rng_wf r'.
Proof.
  intros Hwf Hn Hr. unfold randbelow in Hr. rewrite (proj2 (Z.eqb_neq n 0)) in Hr by lia.
  apply reject_spec in Hr as (j & _ & Hd & Hx & _).
  assert (Hb : 0 <= bit_length n <= 64) by (apply bit_length_bound; lia).
  destruct (nth_draw_wf _ _ _ _ _ Hwf Hb Hd) as [Hx' Hwf']. split; [lia|done].
Qed.

(** ** Fisher-Yates *)

Lemma swap_length {A} i j (l : list A) : length (swap i j l) = length l.
Proof. unfold swap. do 2 (case_match; [|done]). by rewrite !length_insert. Qed.

Lemma swap_perm {A} i j (l : list A) : Permutation (swap i j l) l.
Proof.
  unfold swap. destruct (l !! i) as [a|] eqn:Hi; [|done].
  destruct (l !! j) as [b|] eqn:Hj; [|done].
  by apply Permutation_insert_swap.
Qed.

Lemma swap_map {A B} (f : A -> B) i j (l : list A) : swap i j (f <$> l : list B) = f <$> swap i j l.
Proof.
  unfold swap. rewrite !list_lookup_fmap.
  destruct (l !! i), (l !! j); cbn; [|done..]. by rewrite !list_fmap_insert.
Qed.

Lemma shuffle_from_map {A B} (f : A -> B) fuel i (x : list A) r :
  shuffle_from fuel i (f <$> x : list B) r
  = option_map (fun p => (f <$> p.1 : list B, p.2)) (shuffle_from fuel i x r).
Proof.
  revert x r. induction i as [|i IH]; intros x r; [done|].
  cbn [shuffle_from]. destruct (randbelow _ _ _) as [[j s]|]; [|done].
  by rewrite swap_map, IH.
Qed.

Lemma shuffle_from_perm {A} fuel i (x y : list A) r r' :
  rng_wf r -> Z.of_nat i < 2 ^ 64 - 1 ->
  shuffle_from fuel i x r = Some (y, r') -> Permutation y x /\ rng_wf r'.
Proof.
  revert x r. induction i as [|i IH]; intros x r Hwf Hi; cbn [shuffle_from].
  { by intros [= <- <-]. }
  destruct (randbelow fuel (Z.of_nat (S i) + 1) r) as [[j s]|] eqn:E; [|done].
  intros H. apply randbelow_range in E as [_ Hs]; [|done|lia].
  apply IH in H as [Hp Hwf']; [|done|lia]. split; [|done]. by rewrite Hp, swap_perm.
Qed.

(** A shuffle returns a permutation of its input and a well-formed
    generator, never looks at the elements (it commutes with relabelling them,
    same draws), and on a slice of fewer than two elements draws nothing. *)
Theorem shuffle_permutes {A B} (f : A -> B) fuel (x : list A) r :
  rng_wf r -> Z.of_nat (length x) < 2 ^ 64 ->
  shuffle fuel (f <$> x : list B) r
  = option_map (fun p => (f <$> p.1 : list B, p.2)) (shuffle fuel x r)
  /\ (forall y r', shuffle fuel x r = Some (y, r') -> Permutation y x /\ rng_wf r')
  /\ ((length x < 2)%nat -> shuffle fuel x r = Some (x, r)).
Proof.
  intros Hwf Hlen. unfold shuffle. rewrite length_fmap.
  destruct (Nat.ltb_spec (length x) 2) as [Hlt|Hge].
  - split_and!; [done|by intros y r' [= <- <-]|done].
  - split_and!; [apply shuffle_from_map| |lia].
    intros y r'. apply shuffle_from_perm; [done|lia].
Qed.

(** ** State round trips *)

Lemma from_state_inv ws m :
  Forall is_u32 ws -> Mt19937.from_state ws = Some m -> mt_wf m /\ Mt19937.to_state m = ws.
Proof.
  intros Hf. unfold Mt19937.from_state.
  destruct (Nat.eqb_spec (length ws) (Mt19937.N + 1)) as [Hl|]; [|done]. cbn [negb].
  destruct (Nat.ltb_spec Mt19937.N (Z.to_nat (ws !!! Mt19937.N))) as [|Hi]; [done|].
  intros [= <-]. split.
  - split; [|done]. split; [cbn; rewrite length_take; lia|by apply Forall_take].
  - unfold Mt19937.to_state. cbn [Mt19937.state Mt19937.index].
    destruct (lookup_lt_is_Some_2 ws Mt19937.N) as [w Hw]; [lia|].
    rewrite list_lookup_total_alt, Hw. cbn [default from_option id].
    pose proof (Forall_lookup_1 _ _ _ _ Hf Hw) as Hw32.
    rewrite Z2Nat.id by (unfold is_u32 in Hw32; lia). rewrite wrap32_id by done.
    rewrite <- take_S_r by done. apply take_ge. lia.
Qed.

(** [from_state] inverts [to_state] on every well-formed generator;
    whatever it accepts is well-formed and is what [to_state] gives back; and
    it accepts exactly the 625-word lists whose last word is at most 624. *)
Theorem state_round_trip :
  (forall r, rng_wf r -> from_state (to_state r) = Some r) /\
  (forall ws r, Forall is_u32 ws -> from_state ws = Some r -> rng_wf r /\ to_state r = ws) /\
  (forall ws, Forall is_u32 ws ->
     is_Some (from_state ws) <-> length ws = 625%nat /\ ws !!! 624%nat <= 624).
Proof.
  split_and!.
  - intros [m] [[Hl Hf] Hi]. unfold from_state, to_state. cbn [mt] in *.
    unfold Mt19937.from_state, Mt19937.to_state. rewrite length_app, Hl. cbn [length].
    rewrite Nat.eqb_refl. cbn [negb].
    rewrite lookup_total_app_r by lia. rewrite Hl, Nat.sub_diag. cbn [lookup_total list_lookup_total].
    rewrite wrap32_id by (unfold is_u32; mtlia). rewrite Nat2Z.id.
    destruct (Nat.ltb_spec Mt19937.N (Mt19937.index m)); [lia|].
    rewrite take_app_length' by done. by destruct m.
  - intros ws r Hf. unfold from_state. destruct (Mt19937.from_state ws) as [m|] eqn:E; [|done].
    intros [= <-]. by apply from_state_inv.
  - intros ws Hf. unfold from_state. rewrite fmap_is_Some. unfold Mt19937.from_state.
    rewrite Mt19937.N_624. destruct (Nat.eqb_spec (length ws) (624 + 1)) as [Hl|Hl]; cbn [negb].
    + assert (is_u32 (ws !!! 624%nat)) as Hw.
      { destruct (lookup_lt_is_Some_2 ws 624) as [w Hw]; [lia|].
        rewrite list_lookup_total_alt, Hw. cbn. by apply (Forall_lookup_1 _ _ _ _ Hf Hw). }
      unfold is_u32 in Hw.
      destruct (Nat.ltb_spec 624 (Z.to_nat (ws !!! 624%nat))).
      * split; [by intros []|]. lia.
      * split; [|by eauto]. intros _. split; [done|lia].
    + split; [by intros []|]. lia.
Qed.

(** ** Seeding from a big-endian integer *)

Lemma strip_zeros_val be : le_val (rev (strip_zeros be)) = le_val (rev be).
Proof.
  induction be as [|b be IH]; [done|]. cbn [strip_zeros].
  destruct (Z.eqb_spec b 0) as [->|]; [|done].
  rewrite IH. cbn [rev]. rewrite le_val_app. cbn [le_val]. lia.
Qed.

Lemma strip_zeros_u8 be : Forall is_u8 be -> Forall is_u8 (strip_zeros be).
Proof. induction 1; cbn; [constructor|]. case_match; auto. Qed.

Lemma strip_zeros_head be b rest : strip_zeros be = b :: rest -> b <> 0.
Proof.
  induction be as [|c be IH]; [done|]. cbn.
  destruct (Z.eqb_spec c 0); [done|]. by intros [= <- <-].
Qed.

Lemma le_words_val fuel le :
  (length le <= fuel)%nat -> words_val (le_words fuel le) = le_val le.
Proof.
  revert le. induction fuel as [|fuel IH]; intros le Hl.
  { by destruct le; [|cbn in Hl; lia]. }
  destruct le as [|b le]; [done|]. cbn [le_words]. set (l := b :: le) in *.
  cbn [words_val]. rewrite IH by (subst l; rewrite length_drop; cbn in *; lia).
  rewrite le_val_app, le_val_replicate_0, Z.mul_0_r, Z.add_0_r.
  rewrite <- (take_drop 4 l) at 3. rewrite le_val_app. f_equal.
  destruct (Nat.le_gt_cases 4 (length l)) as [Hge|Hlt].
  - rewrite length_take, Nat.min_l by done. done.
  - rewrite (drop_ge l 4) by lia. cbn. lia.
Qed.

Lemma le_words_u32 fuel le : Forall is_u8 le -> Forall is_u32 (le_words fuel le).
Proof.
  revert le. induction fuel as [|fuel IH]; intros le Hf; [by destruct le; constructor|].
  destruct le as [|b le]; [constructor|]. cbn [le_words]. set (l := b :: le) in *.
  constructor; [|by apply IH, Forall_drop].
  assert (Hc : Forall is_u8 (take 4 l ++ replicate (4 - length (take 4 l)) 0)).
  { apply Forall_app; split; [by apply Forall_take|]. apply Forall_replicate. unfold is_u8. lia. }
  apply le_val_bound in Hc. rewrite length_app, length_replicate in Hc.
  replace (length (take 4 l) + (4 - length (take 4 l)))%nat with 4%nat in Hc
    by (rewrite length_take; lia).
  exact Hc.
Qed.

(** The key words of a big-endian byte string are the 32-bit digits of
    exactly that integer, the key is empty (and replaced by [[0]]) exactly for
    the integer zero, and the generator seeded from it is well-formed. *)
Theorem seed_words_value be :
  Forall is_u8 be ->
  words_val (seed_words be) = be_val be
  /\ Forall is_u32 (seed_words be)
  /\ (seed_words be = [] <-> be_val be = 0)
  /\ rng_wf (seed_be_bytes be).
Proof.
  intros Hf. unfold seed_words. set (le := rev (strip_zeros be)).
  assert (Hle : Forall is_u8 le) by (apply Forall_rev, strip_zeros_u8, Hf).
  assert (Hv : words_val (le_words (length le) le) = be_val be).
  { rewrite le_words_val by done. unfold le. by rewrite strip_zeros_val, be_val_rev. }
  split_and!; [done|by apply le_words_u32| |apply from_key_wf].
  rewrite <- Hv. split; [by intros ->|].
  intros Hz. destruct (strip_zeros be) as [|b rest] eqn:E.
  { unfold le. done. }
  exfalso. pose proof (strip_zeros_head _ _ _ E) as Hb.
  rewrite le_words_val in Hz by done. unfold le in *. cbn [rev] in *.
  rewrite le_val_app in Hz. cbn [le_val] in Hz.
  apply Forall_app in Hle as [Hr Hb8]. apply Forall_inv in Hb8.
  pose proof (le_val_bound _ Hr). unfold is_u8 in Hb8.
  assert (0 < 256 ^ Z.of_nat (length (rev rest))) by (apply Z.pow_pos_nonneg; lia). nia.
Qed.

(** ** Witnesses *)

Definition sample : PyRandom := seed_key [0x123; 0x234; 0x345; 0x456].

Lemma sample_wf : rng_wf sample.
Proof. apply from_key_wf. Qed.

Lemma sample_draws :
  bool_decide (is_Some (randbelow 50 6 sample)) &&
  bool_decide (is_Some (shuffle 50 [1; 2; 3; 4; 5] sample)) = true.
Proof. vm_compute. reflexivity. Qed.

Lemma next_u32_refines_recurrence_witness :
  outputs 700 (mt sample)
  = map (fun k => Mt19937.temper (Reference.word (Mt19937.state (mt sample)) k))
        (seq (Mt19937.index (mt sample)) 700).
Proof.
  exact (next_u32_refines_recurrence (mt sample) 700
           (proj1 (proj1 sample_wf)) (proj2 sample_wf)).
Defined.

Lemma getrandbits_words_bounds_witness :
  0 <= words_val (getrandbits_words 71 sample).1 < 2 ^ 71
  /\ length (getrandbits_words 71 sample).1 = 3%nat.
Proof.
  destruct (getrandbits_words_bounds 71 sample sample_wf) as (_ & Hl & Hb & _); [lia|].
  split; [exact Hb|exact Hl].
Defined.

Lemma randbelow_spec_witness :
  exists x r', randbelow 50 6 sample = Some (x, r') /\ 0 <= x < 6.
Proof.
  pose proof sample_draws as Hs. apply andb_true_iff in Hs as [Hs _].
  apply bool_decide_eq_true in Hs as [[x r'] E]. exists x, r'. split; [exact E|].
  apply (randbelow_spec 50 6 sample x r' sample_wf) in E; [|lia].
  destruct E as [[H _]|[H _]]; [discriminate|exact H].
Defined.

Lemma shuffle_permutes_witness :
  exists y r', shuffle 50 [1; 2; 3; 4; 5] sample = Some (y, r') /\ Permutation y [1; 2; 3; 4; 5].
Proof.
  pose proof sample_draws as Hs. apply andb_true_iff in Hs as [_ Hs].
  apply bool_decide_eq_true in Hs as [[y r'] E]. exists y, r'. split; [exact E|].
  destruct (shuffle_permutes (fun x : Z => x) 50 [1; 2; 3; 4; 5] sample sample_wf)
    as (_ & H & _); [cbn; lia|].
  exact (proj1 (H y r' E)).
Defined.

Lemma state_round_trip_witness : from_state (to_state sample) = Some sample.
Proof. exact (proj1 state_round_trip sample sample_wf). Defined.

Lemma seed_words_value_witness :
  words_val (seed_words [0; 1; 2; 3; 4; 5]) = be_val [0; 1; 2; 3; 4; 5].
Proof.
  apply (seed_words_value [0; 1; 2; 3; 4; 5]).
  repeat (constructor; [unfold is_u8; lia|]). constructor.
Defined.
