(* ===== verification/Locations.v ===== *)
(** * [crates/pahoa-multidata/src/locations.rs]: the location table

    One flat array sorted by [(sender, location)] with a per-sender
    [(start, count)] index, searched by bisection.  [LocationStore] mirrors the
    struct; [None] marks the panics (an index out of range).  The unstable sort
    of the standard library is a section variable with its documented contract:
    the result is a sorted permutation.  [from_py], which parses a pickle, is
    in [Multidata]. *)

From Stdlib Require Import ZArith Lia Bool.
From stdpp Require Import base tactics list sorting sets gmap fin_sets.
From S2P Require Import Prelude.

(** The padding word has no content and is left out. *)
Record LocationEntry : Type := mkEntry {
  e_sender : Z;
  e_location : Z;
  e_item : Z;
  e_receiver : Z;
  e_flags : Z
}.

#[export] Instance LocationEntry_eq_dec : EqDecision LocationEntry.
Proof. solve_decision. Defined.

#[export] Instance LocationEntry_inhabited : Inhabited LocationEntry :=
  populate (mkEntry 0 0 0 0 0).

Record LocationStore : Type := mkStore {
  entries : list LocationEntry;
  index : list (Z * Z);
  slots : Z
}.

(** The key of the sort, and its order. *)
Definition key_le (a b : LocationEntry) : Prop :=
  e_sender a < e_sender b \/ (e_sender a = e_sender b /\ e_location a <= e_location b).

#[export] Instance key_le_dec : RelDecision key_le.
Proof. intros a b. unfold key_le. apply _. Defined.

(** ** Building *)

(** The inner [while]: how many entries from here on have this sender. *)
Fixpoint run_len (sender : Z) (es : list LocationEntry) : nat :=
  match es with
  | e :: es => if e_sender e =? sender then S (run_len sender es) else 0%nat
  | [] => 0%nat
  end.

(** The outer [while i < entries.len()]. [None]: [index[sender]] panics. *)
Fixpoint build_index (fuel : nat) (es : list LocationEntry) (i : nat)
    (index : list (Z * Z)) (slots : Z) : option (list (Z * Z) * Z) :=
  match fuel with
  | O => Some (index, slots)
  | S fuel =>
      match drop i es with
      | [] => Some (index, slots)
      | e :: _ =>
          let sender := e_sender e in
          let start := i in
          let i := (i + run_len sender (drop i es))%nat in
          if Z.of_nat (length index) <=? sender then None
          else
            let slot_range := (wrap32 (Z.of_nat start), wrap32 (Z.of_nat (i - start))) in
            build_index fuel es i (<[Z.to_nat sender := slot_range]> index) (wrap32 (slots + 1))
      end
  end.

Section from_entries.
Variable sort_unstable_by_key : list LocationEntry -> list LocationEntry.

Definition from_entries (es : list LocationEntry) (max_slot : Z) : option LocationStore :=
  let es := sort_unstable_by_key es in
  let index := replicate (Z.to_nat max_slot + 1) (0, 0) in
  '(index, slots) ← build_index (length es) es 0 index 0;
  Some (mkStore es index slots).
End from_entries.

(** ** Reading *)

(** [None]: the slice bounds panic. *)
Definition for_slot_checked (s : LocationStore) (slot : Z) : option (list LocationEntry) :=
  match index s !! Z.to_nat slot with
  | Some (start, count) =>
      let stop := wrap32 (start + count) in
      if (start <=? stop) && (stop <=? Z.of_nat (length (entries s)))
      then Some (take (Z.to_nat (stop - start)) (drop (Z.to_nat start) (entries s)))
      else None
  | None => Some []
  end.

Definition for_slot (s : LocationStore) (slot : Z) : list LocationEntry :=
  default [] (for_slot_checked s slot).

(** [slice::binary_search_by_key] of the standard library: narrow to one
    candidate, then compare it. *)
Fixpoint bisect (fuel : nat) (l : list LocationEntry) (key : Z) (base size : nat) : nat :=
  match fuel with
  | O => base
  | S fuel =>
      if (1 <? size)%nat then
        let half := (size / 2)%nat in
        let mid := (base + half)%nat in
        let base := if key <? e_location (l !!! mid) then base else mid in
        bisect fuel l key base (size - half)
      else base
  end.

Definition binary_search (l : list LocationEntry) (key : Z) : option nat :=
  match l with
  | [] => None
  | _ =>
      let base := bisect (length l) l key 0 (length l) in
      if e_location (l !!! base) =? key then Some base else None
  end.

Definition get (s : LocationStore) (slot location : Z) : option LocationEntry :=
  let slice := for_slot s slot in
  i ← binary_search slice location; slice !! i.

Definition contains (s : LocationStore) (slot location : Z) : bool :=
  bool_decide (is_Some (get s slot location)).

Definition count_for (s : LocationStore) (slot : Z) : nat := length (for_slot s slot).
Definition len (s : LocationStore) : nat := length (entries s).
Definition max_slot (s : LocationStore) : Z := wrap32 (Z.of_nat (length (index s) - 1)).
Definition all (s : LocationStore) : list LocationEntry := entries s.

(** ** Validation *)

Inductive LocationsError : Type :=
| NoLocations
| MissingSlot (slot : Z)
| NotContiguous (declared highest : Z)
| DuplicateLocation (slot location : Z).

(** [s.windows(2).find(|w| w[0].location == w[1].location)]. *)
Fixpoint find_duplicate (es : list LocationEntry) : option Z :=
  match es with
  | a :: ((b :: _) as rest) =>
      if e_location a =? e_location b then Some (e_location a) else find_duplicate rest
  | _ => None
  end.

(** [1..=max]. *)
Definition slot_ids (max : Z) : list Z := Z.of_nat <$> seq 1 (Z.to_nat max).

Fixpoint check_duplicates (s : LocationStore) (ids : list Z) : result LocationsError unit :=
  match ids with
  | [] => Ok tt
  | slot :: ids =>
      match find_duplicate (for_slot s slot) with
      | Some location => Err (DuplicateLocation slot location)
      | None => check_duplicates s ids
      end
  end.

Definition validate (s : LocationStore) : result LocationsError unit :=
  match entries s with
  | [] => Err NoLocations
  | _ =>
      if negb (slots s =? max_slot s) then
        match List.find (fun slot => (index s !!! Z.to_nat slot).2 =? 0) (slot_ids (max_slot s)) with
        | Some slot => Err (MissingSlot slot)
        | None => Err (NotContiguous (slots s) (max_slot s))
        end
      else check_duplicates s (slot_ids (max_slot s))
  end.

(** ** Bisection *)

Definition by_location (l : list LocationEntry) : Prop :=
  forall i j, (i <= j < length l)%nat -> e_location (l !!! i) <= e_location (l !!! j).

Lemma bisect_spec fuel l key base size :
  by_location l -> (1 <= size <= S fuel)%nat -> (base + size <= length l)%nat ->
  let r := bisect fuel l key base size in
  (base <= r < base + size)%nat /\
  ((exists j, (base <= j < base + size)%nat /\ e_location (l !!! j) = key) ->
   e_location (l !!! r) = key).
Proof.
  intros Hs. revert base size. induction fuel as [|fuel IH]; intros base size Hsz Hlen; cbn [bisect].
  { cbn. split; [lia|]. intros (j & Hj & <-). by replace j with base by lia. }
  destruct (Nat.ltb_spec 1 size) as [Hgt|Hle].
  2: { split; [lia|]. intros (j & Hj & <-). by replace j with base by lia. }
  pose proof (Nat.div_mod_eq size 2) as Hdiv.
  pose proof (Nat.mod_upper_bound size 2).
  set (half := (size / 2)%nat) in *. assert (1 <= half < size)%nat by lia.
  destruct (Z.ltb_spec key (e_location (l !!! (base + half)%nat))) as [Hlt|Hge].
  - destruct (IH base (size - half)%nat) as [Hr Hf]; [lia|lia|]. split; [lia|].
    intros (j & Hj & Hk). apply Hf. exists j. split; [|done].
    destruct (Nat.lt_ge_cases j (base + half)%nat) as [|Hjge]; [lia|].
    pose proof (Hs (base + half)%nat j ltac:(lia)). lia.
  - destruct (IH (base + half)%nat (size - half)%nat) as [Hr Hf]; [lia|lia|]. split; [lia|].
    intros (j & Hj & Hk). apply Hf.
    destruct (Nat.lt_ge_cases j (base + half)%nat) as [Hjlt|]; [|exists j; split; [lia|done]].
    exists (base + half)%nat. split; [lia|].
    pose proof (Hs j (base + half)%nat ltac:(lia)). lia.
Qed.

Lemma binary_search_spec l key :
  by_location l ->
  match binary_search l key with
  | Some i => exists e, l !! i = Some e /\ e_location e = key
  | None => forall e, e ∈ l -> e_location e <> key
  end.
Proof.
  intros Hs. unfold binary_search. destruct l as [|e l]; [intros ? []%not_elem_of_nil|].
  set (l' := e :: l) in *. assert (Hlen : (1 <= length l')%nat) by (subst l'; cbn; lia).
  destruct (bisect_spec (length l') l' key 0 (length l') Hs) as [Hr Hf]; [lia|lia|].
  set (r := bisect _ _ _ _ _) in *.
  destruct (lookup_lt_is_Some_2 l' r) as [x Hx]; [lia|].
  assert (Hxt : l' !!! r = x) by (by rewrite list_lookup_total_alt, Hx).
  rewrite Hxt in *. destruct (Z.eqb_spec (e_location x) key) as [|Hne]; [by eauto|].
  intros y Hy Hk. apply Hne, Hf. apply list_elem_of_lookup in Hy as [j Hj].
  exists j. pose proof (lookup_lt_Some _ _ _ Hj).
  split; [lia|]. by rewrite list_lookup_total_alt, Hj.
Qed.

(** ** The store invariant *)

Definition of_sender (slot : Z) (es : list LocationEntry) : list LocationEntry :=
  filter (fun e => e_sender e = slot) es.

Definition range_ok (es : list LocationEntry) (processed : list LocationEntry)
    (idx : list (Z * Z)) : Prop :=
  forall slot start count, idx !! slot = Some (start, count) ->
    0 <= start /\ 0 <= count /\ start + count <= Z.of_nat (length es) /\
    take (Z.to_nat count) (drop (Z.to_nat start) es) = of_sender (Z.of_nat slot) processed.

Definition store_wf (s : LocationStore) : Prop :=
  Z.of_nat (length (entries s)) < 2 ^ 32 /\
  (1 <= length (index s))%nat /\ Z.of_nat (length (index s)) <= 2 ^ 32 /\
  StronglySorted key_le (entries s) /\
  Forall (fun e => 0 <= e_sender e < Z.of_nat (length (index s))) (entries s) /\
  range_ok (entries s) (entries s) (index s).

Lemma of_sender_none slot es :
  (forall e, e ∈ es -> e_sender e <> slot) -> of_sender slot es = [].
Proof.
  intros H. induction es as [|e es IH]; [done|]. unfold of_sender.
  rewrite filter_cons_False by (apply H; set_solver). apply IH. set_solver.
Qed.

Lemma of_sender_all slot es :
  (forall e, e ∈ es -> e_sender e = slot) -> of_sender slot es = es.
Proof.
  intros H. induction es as [|e es IH]; [done|]. unfold of_sender.
  rewrite filter_cons_True by (apply H; set_solver). f_equal. apply IH. set_solver.
Qed.

(** The run measured by the inner loop: one sender, and nothing of that sender
    (nor of a smaller one) after it. *)
Lemma run_len_spec e es :
  StronglySorted key_le (e :: es) ->
  let n := run_len (e_sender e) (e :: es) in
  (1 <= n <= S (length es))%nat /\
  (forall x, x ∈ take n (e :: es) -> e_sender x = e_sender e) /\
  (forall x, x ∈ drop n (e :: es) -> e_sender e < e_sender x).
Proof.
  intros Hs. cbn [run_len]. rewrite Z.eqb_refl. cbn zeta.
  apply StronglySorted_inv in Hs as [Hs Hge].
  enough ((run_len (e_sender e) es <= length es)%nat /\
          (forall x, x ∈ take (run_len (e_sender e) es) es -> e_sender x = e_sender e) /\
          (forall x, x ∈ drop (run_len (e_sender e) es) es -> e_sender e < e_sender x))
    as (Hl & Ht & Hd).
  { split_and!; [lia|lia| |exact Hd]. cbn [take]. intros x Hx.
    apply elem_of_cons in Hx as [->|Hx]; [done|auto]. }
  induction es as [|a es IH]; cbn [run_len]; [cbn; split_and!; [lia|set_solver|set_solver]|].
  apply StronglySorted_inv in Hs as [Hs Ha]. apply Forall_cons in Hge as [Hea Hge].
  destruct (Z.eqb_spec (e_sender a) (e_sender e)) as [He|Hne].
  - destruct (IH Hs Hge) as (Hl & Ht & Hd). cbn. split_and!; [lia| |exact Hd].
    intros x [->|Hx]%elem_of_cons; [done|auto].
  - cbn. split_and!; [lia|set_solver|]. intros x Hx.
    assert (e_sender e < e_sender a) by (destruct Hea; lia).
    apply elem_of_cons in Hx as [->|Hx]; [done|].
    rewrite Forall_forall in Ha. destruct (Ha x Hx); lia.
Qed.

Lemma StronglySorted_drop {A} (R : A -> A -> Prop) n l :
  StronglySorted R l -> StronglySorted R (drop n l).
Proof.
  revert n. induction l as [|a l IH]; intros [|n] H; cbn; auto.
  apply IH. apply StronglySorted_inv in H. tauto.
Qed.

Lemma range_ok_step es i e rest idx :
  StronglySorted key_le es -> Z.of_nat (length es) < 2 ^ 32 ->
  drop i es = e :: rest -> 0 <= e_sender e ->
  (forall x, x ∈ take i es -> e_sender x < e_sender e) ->
  range_ok es (take i es) idx ->
  let n := run_len (e_sender e) (drop i es) in
  range_ok es (take (i + n) es)
    (<[Z.to_nat (e_sender e) :=
        (wrap32 (Z.of_nat i), wrap32 (Z.of_nat (i + n - i)))]> idx).
Proof.
  intros Hs Hlen Hd He Hlt Hok n slot start count Hl.
  assert (Hi : (length es - i = S (length rest))%nat) by (rewrite <- length_drop, Hd; done).
  pose proof (StronglySorted_drop _ i es Hs) as Hsd. rewrite Hd in Hsd.
  pose proof (run_len_spec e rest Hsd) as (Hn & Ht & Hgt). rewrite <- Hd in Ht, Hn, Hgt.
  fold n in Hn, Ht, Hgt. unfold of_sender. rewrite <- take_take_drop, filter_app.
  change (filter (λ e0, e_sender e0 = Z.of_nat slot) (take i es)) with
    (of_sender (Z.of_nat slot) (take i es)).
  change (filter (λ e0, e_sender e0 = Z.of_nat slot) (take n (drop i es))) with
    (of_sender (Z.of_nat slot) (take n (drop i es))).
  destruct (decide (slot = Z.to_nat (e_sender e))) as [->|Hne].
  - assert (Hb : (Z.to_nat (e_sender e) < length idx)%nat).
    { apply lookup_lt_Some in Hl. by rewrite length_insert in Hl. }
    rewrite list_lookup_insert_eq in Hl by done. injection Hl as <- <-.
    rewrite !wrap32_id by (unfold is_u32; lia).
    split_and!; [lia|lia|lia|]. rewrite Z2Nat.id by done.
    rewrite (of_sender_none _ (take i es)) by (intros x Hx; specialize (Hlt x Hx); lia).
    rewrite (of_sender_all _ (take n _)) by done.
    rewrite !Nat2Z.id. cbn. do 2 f_equal. lia.
  - rewrite list_lookup_insert_ne in Hl by done.
    destruct (Hok slot start count Hl) as (H1 & H2 & H3 & H4).
    rewrite (of_sender_none _ (take n _)), app_nil_r; [done|].
    intros x Hx. rewrite (Ht x Hx). intros Heq. apply Hne. lia.
Qed.

(** The distinct senders of a table. *)
Definition senders (es : list LocationEntry) : gset Z := list_to_set (e_sender <$> es).

Lemma senders_app a b : senders (a ++ b) = senders a ∪ senders b.
Proof. unfold senders. by rewrite fmap_app, list_to_set_app_L. Qed.

Lemma elem_of_senders x es : x ∈ senders es <-> exists e, e ∈ es /\ e_sender e = x.
Proof.
  unfold senders. rewrite elem_of_list_to_set, list_elem_of_fmap. split; intros (e & H & ?); eauto.
Qed.

Lemma size_senders_step done run k :
  run <> [] -> (forall x, x ∈ run -> e_sender x = k) ->
  (forall x, x ∈ done -> e_sender x < k) ->
  (size (senders (done ++ run)) = size (senders done) + 1)%nat.
Proof.
  intros Hne Hrun Hlt. rewrite senders_app.
  assert (senders run = {[k]}) as ->.
  { apply set_eq. intros x. rewrite elem_of_senders, elem_of_singleton. split.
    - intros (e & He & <-). auto.
    - intros ->. destruct run as [|e run]; [done|]. exists e. split; [left|]. apply Hrun. left. }
  rewrite size_union; [by rewrite size_singleton|].
  intros x Hx Hk. apply elem_of_singleton in Hk as ->.
  apply elem_of_senders in Hx as (e & He & Hek). specialize (Hlt e He). lia.
Qed.

Lemma size_senders_le es : (size (senders es) <= length es)%nat.
Proof.
  induction es as [|e es IH]; [done|].
  change (e :: es) with ([e] ++ es). rewrite senders_app, size_union_alt.
  assert (Hle : (size (senders es ∖ senders [e]) <= size (senders es))%nat).
  { apply subseteq_size. intros x Hx. apply elem_of_difference in Hx. tauto. }
  assert (He : size (senders [e]) = 1%nat).
  { unfold senders. cbn. by rewrite union_empty_r_L, size_singleton. }
  rewrite length_app. cbn [length]. lia.
Qed.

Lemma build_index_spec fuel es i idx slots :
  StronglySorted key_le es -> Z.of_nat (length es) < 2 ^ 32 ->
  Forall (fun e => 0 <= e_sender e < Z.of_nat (length idx)) es ->
  (length es - i <= fuel)%nat ->
  (forall x y, x ∈ take i es -> y ∈ drop i es -> e_sender x < e_sender y) ->
  range_ok es (take i es) idx -> slots = wrap32 (Z.of_nat (size (senders (take i es)))) ->
  exists idx', build_index fuel es i idx slots
               = Some (idx', wrap32 (Z.of_nat (size (senders es)))) /\
               length idx' = length idx /\ range_ok es es idx'.
Proof.
  intros Hs Hlen. revert i idx slots.
  induction fuel as [|fuel IH]; intros i idx slots Hb Hf Hsep Hok Hslots; cbn [build_index].
  { rewrite take_ge in Hok, Hslots by lia. subst. eauto. }
  destruct (drop i es) as [|e rest] eqn:Hd.
  { rewrite take_ge in Hok, Hslots.
    { subst; eauto. }
    { pose proof (f_equal length Hd) as Hl. rewrite length_drop in Hl. cbn in Hl. lia. }
    { pose proof (f_equal length Hd) as Hl. rewrite length_drop in Hl. cbn in Hl. lia. } }
  assert (He : 0 <= e_sender e < Z.of_nat (length idx)).
  { pose proof (Forall_drop _ i _ Hb) as Hbd. rewrite Hd in Hbd. apply Forall_cons in Hbd. tauto. }
  destruct (Z.leb_spec (Z.of_nat (length idx)) (e_sender e)); [lia|].
  pose proof (StronglySorted_drop _ i es Hs) as Hsd. rewrite Hd in Hsd.
  pose proof (run_len_spec e rest Hsd) as (Hn & Ht & Hgt).
  assert (Hlt : forall x, x ∈ take i es -> e_sender x < e_sender e)
    by (intros x Hx; apply Hsep; [done|left]).
  pose proof (range_ok_step es i e rest idx Hs Hlen Hd (proj1 He) Hlt Hok) as Hok'.
  rewrite Hd in Hok'. cbn zeta in Hok'. set (n := run_len (e_sender e) (e :: rest)) in *.
  pose proof (fun a b c d => IH (i + n)%nat _ (wrap32 (slots + 1)) a b c Hok' d) as IH'.
  destruct IH' as (idx' & Hr & Hli & Hw).
  - by rewrite length_insert.
  - lia.
  - intros x y Hx Hy. rewrite <- take_take_drop, Hd in Hx. rewrite <- drop_drop, Hd in Hy.
    specialize (Hgt y Hy). apply elem_of_app in Hx as [Hx|Hx].
    + specialize (Hlt x Hx). lia.
    + specialize (Ht x Hx). lia.
  - rewrite <- take_take_drop, Hd.
    rewrite (size_senders_step (take i es) (take n (e :: rest)) (e_sender e)); [|..|done|done].
    { subst slots. unfold wrap32. rewrite Zplus_mod_idemp_l. f_equal. lia. }
    destruct n; [lia|]. done.
  - exists idx'. rewrite length_insert in Hli. done.
Qed.

Lemma of_sender_sorted slot es :
  StronglySorted key_le es -> StronglySorted key_le (of_sender slot es).
Proof.
  induction 1 as [|e es Hs IH Hf]; [constructor|]. unfold of_sender.
  destruct (decide (e_sender e = slot)).
  - rewrite filter_cons_True by done. constructor; [exact IH|].
    rewrite Forall_forall in *. intros x Hx. apply list_elem_of_filter in Hx as [_ Hx]. auto.
  - by rewrite filter_cons_False.
Qed.

Lemma elem_of_of_sender slot es e : e ∈ of_sender slot es <-> e_sender e = slot /\ e ∈ es.
Proof. unfold of_sender. by rewrite list_elem_of_filter. Qed.

Lemma of_sender_by_location slot es :
  StronglySorted key_le es -> by_location (of_sender slot es).
Proof.
  intros Hs%(of_sender_sorted slot).
  assert (Hk : forall e, e ∈ of_sender slot es -> e_sender e = slot)
    by (intros e He; apply elem_of_of_sender in He; tauto).
  induction Hs as [|e l Hs IH Hf]; intros i j [Hij Hj]; [cbn in Hj; lia|].
  destruct i as [|i], j as [|j]; [done| |lia|].
  - cbn in Hj. destruct (lookup_lt_is_Some_2 l j) as [x Hx]; [lia|].
    change ((e :: l) !!! S j) with (l !!! j). change ((e :: l) !!! 0%nat) with e. rewrite (list_lookup_total_correct _ _ _ Hx).
    pose proof (list_elem_of_lookup_2 _ _ _ Hx) as Hin.
    rewrite Forall_forall in Hf. pose proof (Hk e ltac:(left)). 
    pose proof (Hk x ltac:(right; done)). destruct (Hf x Hin); lia.
  - cbn in Hj. apply (IH) with (i := i) (j := j); [|lia]. intros x Hx. apply Hk. by right.
Qed.

(** [for_slot] never panics on a well-formed table and returns exactly the
    entries of that sender, in table order. *)
Lemma for_slot_checked_eq (s : LocationStore) (slot : Z) :
  store_wf s -> 0 <= slot ->
  for_slot_checked s slot = Some (of_sender slot (entries s)).
Proof.
  intros (Hlen & _ & _ & _ & Hb & Hok) Hslot. unfold for_slot_checked.
  destruct (index s !! Z.to_nat slot) as [[start count]|] eqn:Hi.
  - destruct (Hok _ _ _ Hi) as (H1 & H2 & H3 & H4). rewrite Z2Nat.id in H4 by done.
    rewrite wrap32_id by (unfold is_u32; lia).
    destruct (Z.leb_spec start (start + count)); [|lia].
    destruct (Z.leb_spec (start + count) (Z.of_nat (length (entries s)))); [|lia].
    cbn. rewrite <- H4. do 2 f_equal. lia.
  - f_equal. symmetry. apply of_sender_none. intros e He.
    rewrite Forall_forall in Hb. specialize (Hb e He).
    apply lookup_ge_None in Hi. lia.
Qed.

Lemma for_slot_eq s slot : store_wf s -> 0 <= slot -> for_slot s slot = of_sender slot (entries s).
Proof. intros. unfold for_slot. by rewrite for_slot_checked_eq. Qed.

Lemma get_eq s slot location :
  store_wf s -> 0 <= slot ->
  match get s slot location with
  | Some e => e ∈ entries s /\ e_sender e = slot /\ e_location e = location
  | None => forall e, e ∈ entries s -> e_sender e = slot -> e_location e <> location
  end.
Proof.
  intros Hwf Hslot. unfold get. rewrite for_slot_eq by done.
  pose proof (binary_search_spec (of_sender slot (entries s)) location) as Hb.
  destruct Hwf as (_ & _ & _ & Hs & _). specialize (Hb (of_sender_by_location _ _ Hs)).
  destruct (binary_search _ _) as [i|]; cbn.
  - destruct Hb as (e & Hi & Hl). rewrite Hi.
    apply list_elem_of_lookup_2, elem_of_of_sender in Hi. tauto.
  - intros e He Hse. apply Hb, elem_of_of_sender. done.
Qed.

Lemma find_duplicate_spec l :
  by_location l ->
  match find_duplicate l with
  | Some x => exists a b, a <> b /\ e_location <$> l !! a = Some x /\ e_location <$> l !! b = Some x
  | None => NoDup (e_location <$> l)
  end.
Proof.
  induction l as [|a l IH]; intros Hs; [constructor|].
  destruct l as [|b l]; [cbn; apply NoDup_singleton|].
  assert (Hs' : by_location (b :: l)).
  { intros i j Hij. apply (Hs (S i) (S j)). cbn in *. lia. }
  specialize (IH Hs').
  change (find_duplicate (a :: b :: l)) with
    (if e_location a =? e_location b then Some (e_location a) else find_duplicate (b :: l)).
  destruct (Z.eqb_spec (e_location a) (e_location b)) as [He|Hne].
  { exists 0%nat, 1%nat. cbn. by rewrite He. }
  destruct (find_duplicate (b :: l)) as [x|].
  { destruct IH as (i & j & Hij & Hi & Hj). exists (S i), (S j). auto. }
  rewrite fmap_cons. apply NoDup_cons. split; [|exact IH].
  intros Hin. rewrite list_elem_of_fmap in Hin. destruct Hin as (e & Hae & He).
  apply list_elem_of_lookup in He as [j Hj]. pose proof (lookup_lt_Some _ _ _ Hj) as Hlt.
  pose proof (Hs 0%nat 1%nat ltac:(cbn in *; lia)) as H01. cbn in H01.
  pose proof (Hs' 0%nat j ltac:(lia)) as H0j.
  rewrite (list_lookup_total_correct _ _ _ Hj) in H0j. cbn in H0j. lia.
Qed.

(** The entries of one sender have pairwise distinct locations. *)
Definition unambiguous (es : list LocationEntry) (slot : Z) : Prop :=
  forall i j a b, es !! i = Some a -> es !! j = Some b ->
    e_sender a = slot -> e_sender b = slot -> e_location a = e_location b -> i = j.

Lemma unambiguous_NoDup es slot :
  unambiguous es slot <-> NoDup (e_location <$> of_sender slot es).
Proof.
  unfold unambiguous. induction es as [|e es IH].
  { split; [constructor|]. intros _ i j a b Ha. by rewrite lookup_nil in Ha. }
  assert (Htl : (forall i j a b, (e :: es) !! i = Some a -> (e :: es) !! j = Some b ->
      e_sender a = slot -> e_sender b = slot -> e_location a = e_location b -> i = j) <->
    ((forall i j a b, es !! i = Some a -> es !! j = Some b ->
      e_sender a = slot -> e_sender b = slot -> e_location a = e_location b -> i = j) /\
     (e_sender e = slot -> e_location e ∉ (e_location <$> of_sender slot es)))).
  { split.
    - intros H. split.
      + intros i j a b Ha Hb ???. assert (S i = S j) by (apply (H (S i) (S j) a b); done). lia.
      + intros He Hin. rewrite list_elem_of_fmap in Hin. destruct Hin as (x & Hl & Hx).
        rewrite elem_of_of_sender in Hx. destruct Hx as [Hxs Hx].
        apply list_elem_of_lookup in Hx as [j Hj].
        assert (0%nat = S j) by (apply (H 0%nat (S j) e x); done). lia.
    - intros [H Hn] [|i] [|j] a b Ha Hb Hsa Hsb Hl; cbn in Ha, Hb; simplify_eq; [done| | |].
      + exfalso. apply Hn; [done|]. rewrite list_elem_of_fmap. exists b.
        rewrite elem_of_of_sender. eauto using list_elem_of_lookup_2.
      + exfalso. apply Hn; [done|]. rewrite list_elem_of_fmap. exists a.
        rewrite elem_of_of_sender. eauto using list_elem_of_lookup_2.
      + f_equal. eauto. }
  rewrite Htl, IH. unfold of_sender at 3. destruct (decide (e_sender e = slot)) as [He|He].
  - rewrite filter_cons_True, fmap_cons, NoDup_cons by done. unfold of_sender in *. tauto.
  - rewrite filter_cons_False by done. unfold of_sender in *. tauto.
Qed.

Lemma check_duplicates_spec s ids :
  store_wf s -> Forall (fun i => 0 <= i) ids ->
  check_duplicates s ids = Ok tt <-> Forall (unambiguous (entries s)) ids.
Proof.
  intros Hwf. induction 1 as [|i ids Hi Hids IH]; cbn [check_duplicates]; [split; [constructor|done]|].
  rewrite for_slot_eq by done. rewrite Forall_cons, <- IH, unambiguous_NoDup.
  pose proof Hwf as (_ & _ & _ & Hs & _).
  pose proof (find_duplicate_spec _ (of_sender_by_location i _ Hs)) as Hf.
  destruct (find_duplicate _) as [x|]; [|tauto]. split; [done|]. intros [Hn _]. exfalso.
  destruct Hf as (a & b & Hab & Ha & Hb). apply Hab.
  rewrite <- list_lookup_fmap in Ha, Hb. eapply NoDup_lookup; eauto.
Qed.

Lemma elem_of_slot_ids max x : x ∈ slot_ids max <-> 1 <= x <= max.
Proof.
  unfold slot_ids. rewrite list_elem_of_fmap. split.
  - intros (n & -> & Hn). rewrite elem_of_seq in Hn. lia.
  - intros H. exists (Z.to_nat x). rewrite elem_of_seq. lia.
Qed.

Lemma from_entries_ok (sort : list LocationEntry -> list LocationEntry) es max :
  sort es ≡ₚ es -> StronglySorted key_le (sort es) ->
  Forall (fun e => 0 <= e_sender e <= max) es ->
  0 <= max < 2 ^ 32 -> Z.of_nat (length es) < 2 ^ 32 ->
  exists s, from_entries sort es max = Some s /\ store_wf s /\ all s = sort es /\
            max_slot s = max /\ slots s = Z.of_nat (size (senders es)).
Proof.
  intros Hp Hs Hb Hmax Hlen. unfold from_entries.
  assert (Hl : length (sort es) = length es) by (by rewrite Hp).
  destruct (build_index_spec (length (sort es)) (sort es) 0
              (replicate (Z.to_nat max + 1) (0, 0)) 0 Hs) as (idx & Hr & Hli & Hok).
  - lia.
  - rewrite length_replicate. rewrite Hp. eapply Forall_impl; [exact Hb|]. cbn. lia.
  - lia.
  - cbn. intros x y []%not_elem_of_nil.
  - intros slot start count Hslot. apply lookup_replicate in Hslot as [Heq _].
    injection Heq as -> ->. cbn. split_and!; [lia|lia|lia|]. by rewrite drop_0.
  - done.
  - rewrite Hr. cbn. rewrite length_replicate in Hli. eexists. split; [done|].
    unfold store_wf, all, max_slot. cbn. rewrite Hli, Hl. split_and!; try lia; try done.
    + rewrite Hp. eapply Forall_impl; [exact Hb|]. cbn. lia.
    + rewrite wrap32_id; [lia|]. unfold is_u32. lia.
    + pose proof (size_senders_le es). rewrite wrap32_id.
      * unfold senders. by rewrite Hp.
      * unfold is_u32, senders. rewrite Hp. unfold senders in *. lia.
Qed.

(** Whatever sorted permutation the unstable sort produces, building the
    table from entries whose senders are within [max_slot] never panics, keeps
    exactly those entries, counts the distinct senders, and yields a store that
    satisfies the invariant every lookup relies on. *)
Theorem from_entries_wf (sort : list LocationEntry -> list LocationEntry) es max :
  (forall l, sort l ≡ₚ l /\ StronglySorted key_le (sort l)) ->
  Forall (fun e => 0 <= e_sender e <= max) es ->
  0 <= max < 2 ^ 32 -> Z.of_nat (length es) < 2 ^ 32 ->
  exists s, from_entries sort es max = Some s /\ store_wf s /\ all s ≡ₚ es /\
            max_slot s = max /\ slots s = Z.of_nat (size (senders es)).
Proof.
  intros Hsort Hb Hmax Hlen. destruct (Hsort es) as [Hp Hs].
  destruct (from_entries_ok sort es max Hp Hs Hb Hmax Hlen) as (s & ? & ? & Ha & ? & ?).
  exists s. by rewrite Ha.
Qed.

(** A lookup finds an entry of that slot at that location, and fails only
    when the table has none; [contains] is the same question as a boolean. *)
Theorem get_spec (s : LocationStore) (slot location : Z) :
  store_wf s -> 0 <= slot ->
  (forall e, get s slot location = Some e ->
     e ∈ all s /\ e_sender e = slot /\ e_location e = location) /\
  (contains s slot location = true <->
     exists e, e ∈ all s /\ e_sender e = slot /\ e_location e = location) /\
  (unambiguous (all s) slot -> forall e, e ∈ all s -> e_sender e = slot ->
     e_location e = location -> get s slot location = Some e).
Proof.
  intros Hwf Hslot. pose proof (get_eq s slot location Hwf Hslot) as H.
  unfold all, contains. rewrite bool_decide_eq_true.
  destruct (get s slot location) as [x|]; split_and!.
  - intros e [= <-]. exact H.
  - split; [|by eauto]. intros _. eauto.
  - intros Hu e He Hs Hl. destruct H as (Hx & Hxs & Hxl).
    apply list_elem_of_lookup in He as [i Hi], Hx as [j Hj].
    rewrite (Hu i j e x) in Hi by congruence. congruence.
  - done.
  - split; [intros [? [=]]|]. intros (e & He & Hs & Hl). by destruct (H e).
  - intros _ e He Hs Hl. by destruct (H e).
Qed.

(** The loader's check accepts exactly the tables that are nonempty, that
    declare as many slots as the highest id, and in which no slot lists a
    location twice. *)
Theorem validate_spec (s : LocationStore) :
  store_wf s ->
  validate s = Ok tt <->
  entries s <> [] /\ slots s = max_slot s /\
  forall slot, 1 <= slot <= max_slot s -> unambiguous (all s) slot.
Proof.
  intros Hwf. unfold validate. destruct (entries s) as [|e es] eqn:He.
  { split; [done|]. by intros []. }
  destruct (Z.eqb_spec (slots s) (max_slot s)) as [Heq|Hne]; cbn [negb].
  2: { split; [|tauto]. intros H. destruct (List.find _ _); discriminate. }
  rewrite check_duplicates_spec, Forall_forall; [|done|].
  - unfold all. setoid_rewrite elem_of_slot_ids.
    split; [intros H; split; [discriminate|split; [done|exact H]]|intros (_ & _ & H); exact H].
  - apply Forall_forall. intros x Hx. apply elem_of_slot_ids in Hx. lia.
Qed.

(** ** Witnesses: a two-slot table built with merge sort *)

Definition demo_entries : list LocationEntry :=
  [mkEntry 2 30 7 1 0; mkEntry 1 20 6 2 1; mkEntry 1 10 5 1 0].

Lemma key_le_total a b : {key_le a b} + {key_le b a}.
Proof.
  destruct (decide (key_le a b)) as [|Hn]; [by left|]. right. unfold key_le in *. lia.
Qed.

#[export] Instance key_le_trans : Transitive key_le.
Proof. intros a b c. unfold key_le. lia. Qed.

#[export] Instance key_le_Total : Total key_le.
Proof. intros a b. destruct (key_le_total a b); auto. Qed.

Lemma merge_sort_ok l : merge_sort key_le l ≡ₚ l /\ StronglySorted key_le (merge_sort key_le l).
Proof. split; [apply merge_sort_Permutation|apply StronglySorted_merge_sort; apply _]. Qed.

Definition demo_store : LocationStore :=
  default (mkStore [] [] 0) (from_entries (merge_sort key_le) demo_entries 2).

Lemma demo_store_wf : store_wf demo_store.
Proof.
  destruct (from_entries_ok (merge_sort key_le) demo_entries 2) as (s & Hs & Hwf & _).
  - apply merge_sort_ok.
  - apply merge_sort_ok.
  - repeat constructor; cbn; lia.
  - lia.
  - cbn. lia.
  - unfold demo_store. by rewrite Hs.
Qed.

Lemma from_entries_wf_witness :
  exists s, from_entries (merge_sort key_le) demo_entries 2 = Some s /\ store_wf s /\
    all s ≡ₚ demo_entries /\ max_slot s = 2 /\
    slots s = Z.of_nat (size (senders demo_entries)).
Proof.
  apply (from_entries_wf (merge_sort key_le) demo_entries 2).
  - apply merge_sort_ok.
  - repeat constructor; cbn; lia.
  - lia.
  - cbn. lia.
Defined.

Lemma get_spec_witness :
  contains demo_store 1 20 = true /\ contains demo_store 2 20 = false /\
  (contains demo_store 1 20 = true <->
     exists e, e ∈ all demo_store /\ e_sender e = 1 /\ e_location e = 20).
Proof.
  split; [reflexivity|]. split; [reflexivity|].
  apply (get_spec demo_store 1 20 demo_store_wf). lia.
Defined.

Lemma validate_spec_witness :
  validate demo_store = Ok tt /\
  (forall slot, 1 <= slot <= max_slot demo_store -> unambiguous (all demo_store) slot).
Proof.
  assert (H : validate demo_store = Ok tt) by reflexivity.
  split; [exact H|]. apply (validate_spec demo_store demo_store_wf). exact H.
Defined.
