(* ===== verification/PyObj.v ===== *)
(** * [crates/pahoa-pickle/src/bigint.rs]: wide Python integers

    Sign and magnitude, 32-bit limbs, least significant first.  Only what a
    pickle needs: decoding a little-endian two's complement payload, narrowing
    to [i64], and printing in decimal.  The theorems relate all three to the
    integer the limbs denote. *)

From Stdlib Require Import ZArith Lia Bool Ascii.
From stdpp Require Import base tactics list sets strings pretty sorting.
From S2P Require Import Prelude.

Open Scope pahoa_scope.

Record BigInt : Type := mkBigInt { negative : bool; magnitude : list Z }.

#[export] Instance BigInt_eq_dec : EqDecision BigInt.
Proof. solve_decision. Defined.

(** ** Decoding *)

(** [for b in &mut bytes { *b = !*b; }]. *)
Definition invert (bytes : list Z) : list Z := (fun b => wrap8 (Z.lnot b)) <$> bytes.

(** The carry loop, which stops at the first byte that absorbs it. *)
Fixpoint add_carry (carry : Z) (bytes : list Z) : list Z :=
  match bytes with
  | [] => []
  | b :: bytes =>
      let v := b + carry in
      let carry := v ^>> 8 in
      if carry =? 0 then wrap8 v :: bytes else wrap8 v :: add_carry carry bytes
  end.

(** [chunks(4)], each padded with zeroes to a limb. *)
Fixpoint limbs (bytes : list Z) : list Z :=
  match bytes with
  | b0 :: b1 :: b2 :: b3 :: bytes => le_val [b0; b1; b2; b3] :: limbs bytes
  | [] => []
  | chunk => [le_val (take 4 (chunk ++ [0; 0; 0; 0]))]
  end.

(** [while limbs.last() == Some(&0) { limbs.pop(); }]. *)
Fixpoint trim (l : list Z) : list Z :=
  match l with
  | [] => []
  | x :: l => match trim l with
              | [] => if x =? 0 then [] else [x]
              | l' => x :: l'
              end
  end.

Definition from_le_twos_complement (bytes : list Z) : BigInt :=
  match last bytes with
  | None => mkBigInt false []
  | Some top =>
      let negative := negb (top ^& 128 =? 0) in
      let bytes := if negative then add_carry 1 (invert bytes) else bytes in
      let magnitude := trim (limbs bytes) in
      match magnitude with
      | [] => mkBigInt false magnitude
      | _ => mkBigInt negative magnitude
      end
  end.

Definition is_zero (b : BigInt) : bool :=
  match magnitude b with [] => true | _ => false end.

(** [None]: no narrowing.  The two-limb case computes in [u128], which cannot
    wrap; [as i64] of the negated value is [wrap_i64]. *)
Definition to_i64 (b : BigInt) : option Z :=
  match magnitude b with
  | [] => Some 0
  | [m0] => Some (if negative b then - m0 else m0)
  | [m0; m1] =>
      let v := (m1 ^<< 32) ^| m0 in
      if negative b then (if v <=? i64_max + 1 then Some (wrap_i64 (- v)) else None)
      else (if v <=? i64_max then Some v else None)
  | _ => None
  end.

(** ** Decimal rendering *)

Definition CHUNK : Z := 1000000000.

(** One pass of the inner loop, from the most significant limb down: the
    quotient limbs (least significant first) and the remainder. *)
Fixpoint div_chunk (l : list Z) : list Z * Z :=
  match l with
  | [] => ([], 0)
  | limb :: l =>
      let '(qs, rem) := div_chunk l in
      let cur := (rem ^<< 32) ^| limb in
      (wrap32 (cur / CHUNK) :: qs, cur mod CHUNK)
  end.

(** The outer [while !limbs.is_empty()]: the base-10^9 digits, least
    significant first. *)
Fixpoint dec_chunks (fuel : nat) (l : list Z) : list Z :=
  match fuel, l with
  | S fuel, _ :: _ =>
      let '(qs, rem) := div_chunk l in
      wrap32 rem :: dec_chunks fuel (trim qs)
  | _, _ => []
  end.

(** [{c:09}]. *)
Definition pad9 (c : Z) : string :=
  let s := pretty c in
  String.append (String.concat "" (replicate (9 - String.length s) "0"%string)) s.

(** [Display::fmt]; each pass removes at least 29 bits, so twice the number of
    limbs is enough fuel. *)
Definition to_string (b : BigInt) : string :=
  if is_zero b then "0"%string
  else
    let chunks := dec_chunks (2 * length (magnitude b)) (magnitude b) in
    let sign := if negative b then "-"%string else ""%string in
    match rev chunks with
    | [] => sign
    | c :: rest => String.append sign (String.append (pretty c) (String.concat "" (pad9 <$> rest)))
    end.


(** ** What the limbs denote *)

(** Digits in base [b], least significant first. *)
Fixpoint val (b : Z) (l : list Z) : Z :=
  match l with [] => 0 | x :: l => x + b * val b l end.

Definition big_val (b : BigInt) : Z :=
  let m := val (2 ^ 32) (magnitude b) in if negative b then - m else m.

(** The invariant of the type: 32-bit limbs, no trailing zero limb, and no
    negative zero. *)
Definition big_wf (b : BigInt) : Prop :=
  Forall is_u32 (magnitude b) /\ last (magnitude b) <> Some 0 /\
  (magnitude b = [] -> negative b = false).

(** Python's reading of a LONG1 payload. *)
Definition twos_val (bytes : list Z) : Z :=
  match last bytes with
  | None => 0
  | Some top => le_val bytes - (if 128 <=? top then 256 ^ Z.of_nat (length bytes) else 0)
  end.

Lemma val_bound b l :
  1 < b -> Forall (fun x => 0 <= x < b) l -> 0 <= val b l < b ^ Z.of_nat (length l).
Proof.
  intros Hb. induction 1 as [|x l Hx Hl IH]; cbn [val length]; [lia|].
  rewrite Nat2Z.inj_succ, Z.pow_succ_r by lia. nia.
Qed.

Lemma val_pos b l :
  1 < b -> Forall (fun x => 0 <= x < b) l -> l <> [] -> last l <> Some 0 -> 0 < val b l.
Proof.
  intros Hb. induction 1 as [|x l Hx Hl IH]; [done|]. intros _ Hlast. cbn [val].
  destruct l as [|y l].
  - cbn in *. assert (x <> 0) by congruence. lia.
  - assert (0 < val b (y :: l)) by (apply IH; done). nia.
Qed.

Lemma trim_val b l : val b (trim l) = val b l.
Proof.
  induction l as [|x l IH]; [done|]. cbn [trim val]. rewrite <- IH.
  destruct (trim l) as [|y l']; [|done]. destruct (Z.eqb_spec x 0); cbn; lia.
Qed.

Lemma trim_last l : last (trim l) <> Some 0.
Proof.
  induction l as [|x l IH]; [done|]. cbn [trim].
  destruct (trim l) as [|y l']; [|exact IH]. destruct (Z.eqb_spec x 0); cbn; congruence.
Qed.

Lemma trim_Forall P l : Forall P l -> Forall P (trim l).
Proof.
  induction 1 as [|x l Hx Hl IH]; [constructor|]. cbn [trim].
  destruct (trim l) as [|y l']; [|by constructor]. destruct (x =? 0); by constructor.
Qed.

Lemma limbs_spec bytes :
  Forall is_u8 bytes ->
  Forall is_u32 (limbs bytes) /\ val (2 ^ 32) (limbs bytes) = le_val bytes.
Proof.
  remember (length bytes) as n eqn:Hn. revert bytes Hn.
  induction (lt_wf n) as [n _ IH]. intros bytes Hn Hb.
  destruct bytes as [|b0 [|b1 [|b2 [|b3 bytes]]]].
  - split; [constructor|done].
  - inversion_clear Hb. unfold is_u8 in *. cbn. split; [repeat constructor; unfold is_u32; lia|lia].
  - inversion_clear Hb as [|? ? ? Hb']. inversion_clear Hb'. unfold is_u8 in *. cbn.
    split; [repeat constructor; unfold is_u32; lia|lia].
  - inversion_clear Hb as [|? ? ? Hb']. inversion_clear Hb' as [|? ? ? Hb''].
    inversion_clear Hb''. unfold is_u8 in *. cbn.
    split; [repeat constructor; unfold is_u32; lia|lia].
  - inversion_clear Hb as [|? ? H0 Hb']. inversion_clear Hb' as [|? ? H1 Hb''].
    inversion_clear Hb'' as [|? ? H2 Hb3]. inversion_clear Hb3 as [|? ? H3 Hb4].
    destruct (IH (length bytes)) with (bytes := bytes) as [Hf Hv]; [cbn in Hn; lia|done|done|].
    cbn [limbs val le_val]. rewrite Hv. unfold is_u8 in *. split; [|lia].
    constructor; [|done]. unfold is_u32. lia.
Qed.

Lemma invert_val bytes :
  Forall is_u8 bytes ->
  Forall is_u8 (invert bytes) /\
  le_val (invert bytes) = 256 ^ Z.of_nat (length bytes) - 1 - le_val bytes.
Proof.
  induction 1 as [|b bytes Hb Hbs IH]; [split; [constructor|done]|].
  destruct IH as [IHf IHv]. unfold invert in *. cbn [fmap list_fmap le_val length].
  unfold is_u8 in Hb. assert (Hw : wrap8 (Z.lnot b) = 255 - b).
  { unfold wrap8. replace (Z.lnot b) with (255 - b + (-1) * 2 ^ 8)
      by (unfold Z.lnot; lia). rewrite Z.mod_add by lia. apply Z.mod_small. lia. }
  rewrite Hw, IHv, Nat2Z.inj_succ, Z.pow_succ_r by lia. split; [|lia].
  constructor; [unfold is_u8; lia|exact IHf].
Qed.

Lemma add_carry_val carry bytes :
  Forall is_u8 bytes -> 0 <= carry <= 1 ->
  Forall is_u8 (add_carry carry bytes) /\
  le_val (add_carry carry bytes)
  = (le_val bytes + carry) mod 256 ^ Z.of_nat (length bytes).
Proof.
  intros Hb. revert carry. induction Hb as [|b bytes Hb Hbs IH]; intros carry Hc.
  { cbn. split; [constructor|]. by rewrite Z.mod_1_r. }
  cbn [add_carry]. unfold is_u8 in Hb. rewrite Z.shiftr_div_pow2 by lia.
  assert (Hw : is_u8 (wrap8 (b + carry))) by (apply Z.mod_pos_bound; lia).
  pose proof (le_val_bound bytes Hbs) as Hv.
  pose proof (Z.div_mod (b + carry) (2 ^ 8) ltac:(lia)) as Hdm.
  assert (Hq : 0 <= (b + carry) / 2 ^ 8 <= 1) by (split; [apply Z.div_pos; lia|
    apply Z.div_le_upper_bound; lia]).
  fold (wrap8 (b + carry)) in Hdm. unfold is_u8 in Hw.
  cbn [length le_val]. rewrite Nat2Z.inj_succ, Z.pow_succ_r by lia.
  set (P := 256 ^ Z.of_nat (length bytes)) in *.
  destruct (Z.eqb_spec ((b + carry) / 2 ^ 8) 0) as [He|He].
  - split; [constructor; [exact Hw|done]|]. cbn [le_val]. rewrite Z.mod_small by lia. lia.
  - destruct (IH ((b + carry) / 2 ^ 8) Hq) as [Hf Hr].
    split; [constructor; [exact Hw|done]|]. cbn [le_val]. rewrite Hr.
    assert (Hq1 : (b + carry) / 2 ^ 8 = 1) by lia. rewrite Hq1 in *.
    replace (b + 256 * le_val bytes + carry) with (wrap8 (b + carry) + 256 * (le_val bytes + 1)) by lia.
    destruct (Z.eq_dec (le_val bytes + 1) P) as [Hp|Hp].
    + rewrite Hp, Z.mod_same by lia.
      replace (wrap8 (b + carry) + 256 * P) with (wrap8 (b + carry) + 1 * (256 * P)) by lia.
      rewrite Z.mod_add by lia. rewrite Z.mod_small by lia. lia.
    + rewrite (Z.mod_small (le_val bytes + 1)) by lia. rewrite Z.mod_small by lia. lia.
Qed.

Lemma top_bit top : is_u8 top -> negb (top ^& 128 =? 0) = (128 <=? top).
Proof.
  intros H. assert (Hall : forallb (fun t => Bool.eqb (negb (Z.of_nat t ^& 128 =? 0)) (128 <=? Z.of_nat t))
    (seq 0 256) = true) by (vm_compute; reflexivity).
  rewrite forallb_forall in Hall. unfold is_u8 in H.
  specialize (Hall (Z.to_nat top)). rewrite Z2Nat.id in Hall by lia.
  apply eqb_prop, Hall. apply in_seq. lia.
Qed.

Lemma le_val_top bytes top :
  Forall is_u8 bytes -> last bytes = Some top ->
  top * 256 ^ (Z.of_nat (length bytes) - 1) <= le_val bytes.
Proof.
  intros Hb. revert top. induction Hb as [|b bytes Hb Hbs IH]; intros top Hl; [done|].
  unfold is_u8 in Hb. cbn [le_val length]. destruct bytes as [|b' bytes].
  - cbn in *. simplify_eq. lia.
  - specialize (IH top Hl). rewrite Nat2Z.inj_succ.
    replace (Z.succ (Z.of_nat (length (b' :: bytes))) - 1)
      with (Z.succ (Z.of_nat (length (b' :: bytes)) - 1)) by lia.
    rewrite Z.pow_succ_r by (cbn [length]; lia). lia.
Qed.

Lemma decode_correct bytes :
  Forall is_u8 bytes ->
  big_wf (from_le_twos_complement bytes) /\
  big_val (from_le_twos_complement bytes) = twos_val bytes.
Proof.
  intros Hb. unfold from_le_twos_complement, twos_val.
  destruct (last bytes) as [top|] eqn:Hl.
  2: { split; [split; [constructor|done]|done]. }
  assert (Htop : is_u8 top).
  { rewrite Forall_forall in Hb. apply Hb. apply last_Some in Hl as [l' ->]. set_solver. }
  rewrite (top_bit top Htop).
  destruct (invert_val bytes Hb) as [Hif Hiv].
  assert (Hlen : length (invert bytes) = length bytes) by (unfold invert; by rewrite length_fmap).
  destruct (add_carry_val 1 (invert bytes) Hif ltac:(lia)) as [Haf Hav].
  pose proof (le_val_bound bytes Hb) as Hbd. pose proof (le_val_top bytes top Hb Hl) as Ht.
  set (neg := 128 <=? top).
  set (bs := if neg then add_carry 1 (invert bytes) else bytes).
  assert (Hbs : Forall is_u8 bs) by (subst bs; by destruct neg).
  destruct (limbs_spec bs Hbs) as [Hf Hv].
  assert (Hval : (if neg then - le_val bs else le_val bs) =
    le_val bytes - (if neg then 256 ^ Z.of_nat (length bytes) else 0)).
  { subst bs neg. destruct (Z.leb_spec 128 top); [|lia]. rewrite Hav, Hiv, Hlen.
    assert (0 < le_val bytes).
    { assert (0 < 256 ^ (Z.of_nat (length bytes) - 1)); [|nia].
      apply Z.pow_pos_nonneg; [lia|]. destruct bytes; [done|cbn [length]; lia]. }
    rewrite Z.mod_small by lia. lia. }
  rewrite <- Hval, <- Hv, <- (trim_val (2 ^ 32) (limbs bs)).
  pose proof (trim_last (limbs bs)) as Htl. pose proof (trim_Forall _ _ Hf) as Htf.
  unfold big_wf, big_val. destruct (trim (limbs bs)) as [|m ms]; cbn [magnitude negative].
  - split; [done|]. cbn. by destruct neg.
  - done.
Qed.

(** ** Narrowing *)

Lemma join_limbs hi lo : is_u32 lo -> 0 <= hi -> (hi ^<< 32) ^| lo = hi * 2 ^ 32 + lo.
Proof.
  intros Hlo Hhi. unfold is_u32 in Hlo.
  rewrite Z.shiftl_mul_pow2 by lia. rewrite <- Z.add_lor_land.
  assert (Hz : Z.land (hi * 2 ^ 32) lo = 0); [|lia].
  apply Z.bits_inj'. intros i Hi. rewrite Z.land_spec, Z.bits_0.
  destruct (Z.lt_ge_cases i 32) as [Hlt|Hge].
  - rewrite Z.mul_pow2_bits_low by lia. done.
  - rewrite (proj1 (below_pow2_bits lo 32 ltac:(lia) ltac:(lia)) ltac:(lia) i Hge).
    apply andb_false_r.
Qed.

Lemma wrap_i64_id x : is_i64 x -> wrap_i64 x = x.
Proof. unfold is_i64, wrap_i64. intros H. rewrite Z.mod_small by lia. lia. Qed.

Lemma narrow_correct b :
  big_wf b ->
  to_i64 b = if (i64_min <=? big_val b) && (big_val b <=? i64_max)
             then Some (big_val b) else None.
Proof.
  intros (Hf & Hl & Hz). unfold to_i64, big_val. destruct (magnitude b) as [|m0 [|m1 [|m2 ms]]].
  - by rewrite Hz.
  - apply Forall_cons in Hf as [H0 _]. unfold is_u32, i64_min, i64_max in *. cbn [val].
    rewrite Z.mul_0_r, Z.add_0_r. destruct (negative b);
    match goal with |- context [?a && ?c] => assert (Hc : a && c = true) by
      (apply andb_true_iff; split; apply Z.leb_le; lia) end; by rewrite Hc.
  - apply Forall_cons in Hf as [H0 Hf]. apply Forall_cons in Hf as [H1 _].
    rewrite join_limbs by (unfold is_u32 in *; lia || done). cbn [val].
    replace (m0 + 2 ^ 32 * (m1 + 2 ^ 32 * 0)) with (m1 * 2 ^ 32 + m0) by lia.
    set (v := m1 * 2 ^ 32 + m0). assert (0 <= v) by (unfold is_u32, v in *; lia).
    unfold i64_max, i64_min. destruct (negative b).
    + destruct (Z.leb_spec v (9223372036854775807 + 1)), (Z.leb_spec (-9223372036854775808) (- v));
        try lia; destruct (Z.leb_spec (- v) 9223372036854775807); try lia; cbn; [|done].
      rewrite wrap_i64_id; [done|]. unfold is_i64. lia.
    + destruct (Z.leb_spec v 9223372036854775807), (Z.leb_spec (-9223372036854775808) v);
        try lia; done.
  - assert (Hv : 2 ^ 64 <= val (2 ^ 32) (m0 :: m1 :: m2 :: ms)).
    { apply Forall_cons in Hf as [H0 Hf]. apply Forall_cons in Hf as [H1 Hf].
      pose proof (val_pos (2 ^ 32) (m2 :: ms) ltac:(lia) Hf ltac:(done) Hl).
      unfold is_u32 in *. cbn [val] in *. lia. }
    unfold i64_max, i64_min. set (v := val _ _) in *. destruct (negative b).
    + destruct (Z.leb_spec (-9223372036854775808) (- v)); [lia|done].
    + destruct (Z.leb_spec v 9223372036854775807); [lia|by rewrite andb_false_r].
Qed.

(** ** Decimal rendering agrees with [pretty], the decimal of the integer *)

Lemma sapp_assoc a b c : String.append a (String.append b c) = String.append (String.append a b) c.
Proof. induction a as [|ch a IH]; [done|]. exact (f_equal (String ch) IH). Qed.

Lemma sapp_nil_r a : String.append a EmptyString = a.
Proof. induction a as [|ch a IH]; [done|]. exact (f_equal (String ch) IH). Qed.

Lemma concat_cons p ps :
  String.concat "" (p :: ps) = String.append p (String.concat "" ps).
Proof. destruct ps as [|q ps]; [symmetry; apply sapp_nil_r|done]. Qed.

Lemma concat_app l1 l2 :
  String.concat "" (l1 ++ l2) = String.append (String.concat "" l1) (String.concat "" l2).
Proof.
  induction l1 as [|p l1 IH]; [done|]. cbn [app]. by rewrite !concat_cons, IH, sapp_assoc.
Qed.

(** [k] decimal digits of [x] in front of [s]. *)
Fixpoint digs (k : nat) (x : N) (s : string) : string :=
  match k with
  | O => s
  | S k => digs k (x `div` 10)%N (String (pretty_N_char (x `mod` 10)%N) s)
  end.

Lemma digs_app k x s : digs k x s = String.append (digs k x EmptyString) s.
Proof.
  revert x s. induction k as [|k IH]; intros x s; [done|]. cbn [digs].
  set (ch := pretty_N_char _). rewrite (IH _ (String ch s)), (IH _ (String ch EmptyString)).
  by rewrite <- sapp_assoc.
Qed.

Lemma pretty_go_app x s : pretty_N_go x s = String.append (pretty_N_go x EmptyString) s.
Proof.
  revert s. induction (N.lt_wf_0 x) as [x _ IH]. intros s.
  destruct (decide (0 < x)%N) as [Hx|Hx].
  - rewrite !(pretty_N_go_step x) by done.
    set (ch := pretty_N_char _). pose proof (IH _ (N.div_lt x 10 Hx eq_refl)) as IH'.
    rewrite (IH' (String ch s)), (IH' (String ch EmptyString)). by rewrite <- sapp_assoc.
  - assert (x = 0%N) as -> by lia. by rewrite !pretty_N_go_0.
Qed.

Lemma pretty_go_split k q r s :
  (0 < q)%N -> (r < 10 ^ N.of_nat k)%N ->
  pretty_N_go (q * 10 ^ N.of_nat k + r) s = pretty_N_go q (digs k r s).
Proof.
  revert r s. induction k as [|k IH]; intros r s Hq Hr.
  { change (10 ^ N.of_nat 0)%N with 1%N in *. cbn [digs]. f_equal. lia. }
  rewrite Nat2N.inj_succ, N.pow_succ_r' in *. set (P := (10 ^ N.of_nat k)%N) in *.
  rewrite pretty_N_go_step by (assert (0 < P)%N by (subst P; apply N.neq_0_lt_0, N.pow_nonzero; lia); nia).
  assert (Hd : ((q * (10 * P) + r) `div` 10 = q * P + r `div` 10)%N).
  { replace (q * (10 * P) + r)%N with (r + q * P * 10)%N by ring. rewrite N.div_add by lia. lia. }
  assert (Hm : ((q * (10 * P) + r) `mod` 10 = r `mod` 10)%N).
  { replace (q * (10 * P) + r)%N with (r + q * P * 10)%N by ring. apply N.Div0.mod_add. }
  rewrite Hd, Hm, IH; [done|done|]. apply N.Div0.div_lt_upper_bound. lia.
Qed.

Definition zeros (n : nat) : string := String.concat "" (replicate n "0"%string).

Lemma zeros_S n : zeros (S n) = String "0"%char (zeros n).
Proof. unfold zeros. destruct n; done. Qed.

Lemma zeros_snoc n s : String.append (zeros n) (String "0"%char s) = String.append (zeros (S n)) s.
Proof.
  induction n as [|n IH]; [done|]. rewrite zeros_S.
  change (String "0"%char (String.append (zeros n) (String "0"%char s)) = String.append (zeros (S (S n))) s).
  rewrite IH, (zeros_S (S n)). done.
Qed.

Lemma slength_app a b : String.length (String.append a b) = (String.length a + String.length b)%nat.
Proof. induction a as [|c a IH]; [done|]. exact (f_equal S IH). Qed.

Lemma digs_pad k x s :
  (x < 10 ^ N.of_nat k)%N ->
  digs k x s = String.append (zeros (k - String.length (pretty_N_go x EmptyString))) (pretty_N_go x s).
Proof.
  revert x s. induction k as [|k IH]; intros x s Hx.
  { change (10 ^ N.of_nat 0)%N with 1%N in Hx. assert (x = 0%N) as -> by lia. by rewrite !pretty_N_go_0. }
  rewrite Nat2N.inj_succ, N.pow_succ_r' in Hx. cbn [digs]. rewrite IH.
  2: { apply N.Div0.div_lt_upper_bound. lia. }
  destruct (decide (0 < x)%N) as [Hp|Hp].
  - rewrite (pretty_N_go_step x s), (pretty_N_go_step x EmptyString) by done.
    rewrite (pretty_go_app _ (String _ EmptyString)), slength_app. cbn [String.length].
    do 2 f_equal. lia.
  - assert (x = 0%N) as -> by lia. change (0 `div` 10)%N with 0%N. rewrite !pretty_N_go_0.
    cbn [String.length]. rewrite !Nat.sub_0_r. apply zeros_snoc.
Qed.

Lemma pad9_digs c : 0 <= c < CHUNK -> pad9 c = digs 9 (Z.to_N c) EmptyString.
Proof.
  intros Hc. unfold CHUNK in Hc. destruct (Z.eq_dec c 0) as [->|Hne]; [vm_compute; reflexivity|].
  rewrite digs_pad by (change (10 ^ N.of_nat 9)%N with 1000000000%N; lia).
  unfold pad9. fold (zeros (9 - String.length (pretty c))).
  assert (Hp : pretty c = pretty_N_go (Z.to_N c) EmptyString).
  { destruct c as [|p|p]; [lia| |lia]. done. }
  by rewrite Hp.
Qed.

(** The value printed by a most-significant-first list of chunks. *)
Lemma render_chunks c rest s :
  0 < c -> Forall (fun d => 0 <= d < CHUNK) rest ->
  pretty_N_go (Z.to_N (val CHUNK (rev (c :: rest)))) s
  = pretty_N_go (Z.to_N c) (String.append (String.concat "" (pad9 <$> rest)) s).
Proof.
  intros Hc. revert s. induction rest as [|d rest IH] using rev_ind; intros s Hf.
  { cbn [val rev app]. by rewrite Z.mul_0_r, Z.add_0_r. }
  apply Forall_app in Hf as [Hf Hd]. apply Forall_cons in Hd as [Hd _].
  rewrite app_comm_cons, rev_app_distr. cbn [rev app val].
  assert (Hv : 0 < val CHUNK (rev rest ++ [c])).
  { clear - Hc Hf. assert (Hr : Forall (fun d => 0 <= d < CHUNK) (rev rest)) by
      (by apply List.Forall_rev). revert Hr. generalize (rev rest). unfold CHUNK.
    induction 1 as [|x l Hx Hl IH]; cbn [val app]; [|unfold CHUNK in *]; lia. }
  replace (Z.to_N (d + CHUNK * val CHUNK (rev rest ++ [c])))
    with (Z.to_N (val CHUNK (rev rest ++ [c])) * 10 ^ N.of_nat 9 + Z.to_N d)%N.
  2: { change (10 ^ N.of_nat 9)%N with 1000000000%N. unfold CHUNK in *. lia. }
  rewrite pretty_go_split; [|lia|change (10 ^ N.of_nat 9)%N with 1000000000%N; unfold CHUNK in *; lia].
  cbn [rev] in IH. rewrite (IH _ Hf), fmap_app. f_equal. rewrite digs_app, <- pad9_digs by done.
  by rewrite concat_app, <- sapp_assoc.
Qed.

Lemma div_chunk_spec l :
  Forall is_u32 l ->
  let '(qs, rem) := div_chunk l in
  Forall is_u32 qs /\ 0 <= rem < CHUNK /\ val (2 ^ 32) l = CHUNK * val (2 ^ 32) qs + rem.
Proof.
  induction 1 as [|x l Hx Hl IH]; cbn [div_chunk];
    [unfold CHUNK; cbn [val]; split_and!; [constructor|lia|lia|lia]|].
  destruct (div_chunk l) as [qs rem]. destruct IH as (Hf & Hr & Hv). unfold CHUNK in *.
  rewrite join_limbs by (done || lia). unfold is_u32 in Hx.
  pose proof (Z.div_mod (rem * 2 ^ 32 + x) 1000000000 ltac:(lia)) as Hdm.
  pose proof (Z.mod_pos_bound (rem * 2 ^ 32 + x) 1000000000 ltac:(lia)) as Hm.
  assert (Hq : is_u32 ((rem * 2 ^ 32 + x) / 1000000000)).
  { unfold is_u32. split; [apply Z.div_pos; lia|apply Z.div_lt_upper_bound; lia]. }
  rewrite wrap32_id by done. split_and!; [by constructor|lia|lia|]. cbn [val]. lia.
Qed.

Lemma dec_chunks_spec fuel l :
  Forall is_u32 l -> last l <> Some 0 -> val (2 ^ 32) l < CHUNK ^ Z.of_nat fuel ->
  let cs := dec_chunks fuel l in
  Forall (fun c => 0 <= c < CHUNK) cs /\ val CHUNK cs = val (2 ^ 32) l /\
  (l <> [] -> cs <> []) /\ last cs <> Some 0.
Proof.
  revert l. induction fuel as [|fuel IH]; intros l Hf Hl Hv.
  { destruct l as [|x l]; [done|].
    pose proof (val_pos (2 ^ 32) (x :: l) ltac:(lia) Hf ltac:(done) Hl).
    change (CHUNK ^ Z.of_nat 0) with 1 in Hv. lia. }
  destruct l as [|x l']; [done|]. set (l := x :: l') in *. cbn zeta.
  change (dec_chunks (S fuel) l) with
    (let '(qs, rem) := div_chunk l in wrap32 rem :: dec_chunks fuel (trim qs)).
  pose proof (div_chunk_spec l Hf) as Hd. destruct (div_chunk l) as [qs rem].
  destruct Hd as (Hqf & Hr & Hval).
  assert (Hqv : val (2 ^ 32) (trim qs) < CHUNK ^ Z.of_nat fuel).
  { rewrite trim_val. rewrite Nat2Z.inj_succ, Z.pow_succ_r in Hv by lia.
    unfold CHUNK in *. nia. }
  destruct (IH (trim qs) (trim_Forall _ _ Hqf) (trim_last qs) Hqv) as (Hcf & Hcv & Hne & Hcl).
  rewrite wrap32_id by (unfold is_u32, CHUNK in *; lia).
  split_and!; [by constructor|cbn [val]; rewrite Hcv, trim_val; lia|done|].
  destruct (dec_chunks fuel (trim qs)) as [|c cs] eqn:Hcs; [|exact Hcl].
  assert (Hq0 : val (2 ^ 32) qs = 0) by (rewrite <- trim_val, <- Hcv; done).
  pose proof (val_pos (2 ^ 32) l ltac:(lia) Hf ltac:(done) Hl). cbn. intros [= ->]. lia.
Qed.

Lemma pretty_pos x : 0 < x -> pretty x = pretty_N_go (Z.to_N x) EmptyString.
Proof. intros H. by destruct x as [|p|p]. Qed.

Lemma print_correct b : big_wf b -> to_string b = pretty (big_val b).
Proof.
  intros (Hf & Hl & Hz). unfold to_string, is_zero, big_val.
  destruct (magnitude b) as [|x l'] eqn:Hm; [by rewrite Hz|]. set (l := x :: l') in *.
  pose proof (val_pos (2 ^ 32) l ltac:(lia) Hf ltac:(done) Hl) as Hpos.
  pose proof (val_bound (2 ^ 32) l ltac:(lia) Hf) as Hbd.
  assert (Hfuel : val (2 ^ 32) l < CHUNK ^ Z.of_nat (2 * length l)).
  { eapply Z.lt_le_trans; [apply Hbd|]. rewrite Nat2Z.inj_mul, Z.pow_mul_r by lia.
    apply Z.pow_le_mono_l. unfold CHUNK. lia. }
  destruct (dec_chunks_spec (2 * length l) l Hf Hl Hfuel) as (Hcf & Hcv & Hne & Hcl).
  set (cs := dec_chunks (2 * length l) l) in *.
  destruct (rev cs) as [|c rest] eqn:Hrev.
  { exfalso. apply (Hne ltac:(done)). rewrite <- (rev_involutive cs), Hrev. done. }
  assert (Hcs : cs = rev (c :: rest)) by (rewrite <- Hrev; symmetry; apply rev_involutive).
  assert (Hcr : Forall (fun d => 0 <= d < CHUNK) (c :: rest))
    by (rewrite <- Hrev; by apply List.Forall_rev).
  apply Forall_cons in Hcr as [Hc Hcr].
  assert (c <> 0). { intros ->. apply Hcl. rewrite Hcs. cbn [rev]. apply last_snoc. }
  assert (Hp : String.append (pretty c) (String.concat "" (pad9 <$> rest)) = pretty (val (2 ^ 32) l)).
  { rewrite (pretty_pos c), (pretty_pos (val (2 ^ 32) l)) by lia.
    rewrite <- Hcv, Hcs, render_chunks by (done || lia).
    by rewrite sapp_nil_r, (pretty_go_app _ (String.concat _ _)). }
  rewrite Hp. destruct (negative b); [|done].
  destruct (val (2 ^ 32) l) as [|p|p]; [lia|done|lia].
Qed.

(** ** Properties *)

(** A LONG1 payload decodes to a normalized integer equal to Python's
    two's complement reading of the bytes, and narrowing it to [i64] succeeds
    exactly when that integer fits, returning it. *)
Theorem long1_denotes (bytes : list Z) :
  Forall is_u8 bytes ->
  let b := from_le_twos_complement bytes in
  big_wf b /\ big_val b = twos_val bytes /\
  to_i64 b = if (i64_min <=? twos_val bytes) && (twos_val bytes <=? i64_max)
             then Some (twos_val bytes) else None.
Proof.
  intros Hb b. subst b. destruct (decode_correct bytes Hb) as [Hwf Hv].
  split; [done|]. split; [done|]. rewrite narrow_correct by done. by rewrite Hv.
Qed.

Lemma long1_denotes_witness :
  to_i64 (from_le_twos_complement [0xff; 0xff]) = Some (-1) /\
  to_i64 (from_le_twos_complement [0; 0; 0; 0; 0; 0; 0; 0x80; 0]) = None /\
  big_val (from_le_twos_complement [0xff; 0xff]) = -1.
Proof.
  split; [reflexivity|]. split; [reflexivity|].
  apply (long1_denotes [0xff; 0xff]). repeat constructor; unfold is_u8; lia.
Defined.

(** Rendering by repeated division by 10^9 with zero-padded chunks prints
    exactly the decimal of the integer, sign included, and the fuel of the
    division loop is always enough. *)
Theorem to_string_decimal (b : BigInt) :
  big_wf b -> to_string b = pretty (big_val b).
Proof. apply print_correct. Qed.

Lemma to_string_decimal_witness :
  to_string (mkBigInt true [0; 0; 1]) = "-18446744073709551616"%string /\
  to_string (mkBigInt true [0; 0; 1]) = pretty (-18446744073709551616).
Proof.
  split; [reflexivity|].
  apply (to_string_decimal (mkBigInt true [0; 0; 1])).
  split; [repeat constructor; unfold is_u32; lia|]. split; discriminate.
Defined.

(** * [crates/pahoa-pickle/src/value.rs], [allowlist.rs], [canonical.rs]:
      the Python object model

    [PyObj] mirrors the enum.  A float is its IEEE-754 bit pattern, which is
    all the crate ever reads of one ([from_be_bytes], [to_bits]); [as_float]
    is not modelled.  A dict is the list of its pairs in insertion order. *)

Record ClassId : Type := mkClassId { module : string; cname : string }.

#[export] Instance ClassId_eq_dec : EqDecision ClassId.
Proof. solve_decision. Defined.

Definition matches (c : ClassId) (m n : string) : bool :=
  bool_decide (module c = m) && bool_decide (cname c = n).

(** [Display for ClassId]. *)
Definition class_text (c : ClassId) : string :=
  String.append (module c) (String.append "." (cname c)).

#[warnings="-register-all"]
Inductive PyObj : Type :=
| PNone
| PBool (b : bool)
| PInt (i : Z)
| PBig (b : BigInt)
| PFloat (bits : Z)
| PStr (s : string)
| PList (items : list PyObj)
| PTuple (items : list PyObj)
| PDict (pairs : list (PyObj * PyObj))
| PSet (items : list PyObj)
| PGlobal (c : ClassId)
| PInstance (class : ClassId) (args : list PyObj).

(** The induction principle that reaches through the nested lists. *)
Section PyObj_ind.
Variable P : PyObj -> Prop.
Hypothesis Hnone : P PNone.
Hypothesis Hbool : forall b, P (PBool b).
Hypothesis Hint' : forall i, P (PInt i).
Hypothesis Hbig : forall b, P (PBig b).
Hypothesis Hfloat : forall f, P (PFloat f).
Hypothesis Hstr : forall s, P (PStr s).
Hypothesis Hlist : forall l, Forall P l -> P (PList l).
Hypothesis Htuple : forall l, Forall P l -> P (PTuple l).
Hypothesis Hdict : forall d, Forall (fun kv => P kv.1 /\ P kv.2) d -> P (PDict d).
Hypothesis Hset : forall l, Forall P l -> P (PSet l).
Hypothesis Hglobal : forall c, P (PGlobal c).
Hypothesis Hinstance : forall c l, Forall P l -> P (PInstance c l).

Fixpoint PyObj_rect' (o : PyObj) : P o :=
  let all := fix all (l : list PyObj) : Forall P l :=
    match l with
    | [] => Forall_nil_2 P
    | x :: l => Forall_cons_2 P x l (PyObj_rect' x) (all l)
    end in
  match o with
  | PNone => Hnone
  | PBool b => Hbool b
  | PInt i => Hint' i
  | PBig b => Hbig b
  | PFloat f => Hfloat f
  | PStr s => Hstr s
  | PList l => Hlist l (all l)
  | PTuple l => Htuple l (all l)
  | PDict d => Hdict d
      ((fix alld (d : list (PyObj * PyObj)) : Forall (fun kv => P kv.1 /\ P kv.2) d :=
        match d with
        | [] => Forall_nil_2 _
        | (k, v) :: d => Forall_cons_2 _ (k, v) d (conj (PyObj_rect' k) (PyObj_rect' v)) (alld d)
        end) d)
  | PSet l => Hset l (all l)
  | PGlobal c => Hglobal c
  | PInstance c l => Hinstance c l (all l)
  end.
End PyObj_ind.

(** ** Accessors *)

Definition type_name (o : PyObj) : string :=
  match o with
  | PNone => "None"
  | PBool _ => "bool"
  | PInt _ | PBig _ => "int"
  | PFloat _ => "float"
  | PStr _ => "str"
  | PList _ => "list"
  | PTuple _ => "tuple"
  | PDict _ => "dict"
  | PSet _ => "set"
  | PGlobal _ => "global"
  | PInstance _ _ => "instance"
  end.

Definition as_int (o : PyObj) : option Z :=
  match o with
  | PInt i => Some i
  | PBool b => Some (Z.b2z b)
  | _ => None
  end.

Definition as_big (o : PyObj) : option BigInt :=
  match o with PBig b => Some b | _ => None end.

Definition as_bool (o : PyObj) : option bool :=
  match o with PBool b => Some b | _ => None end.

Definition is_int (o : PyObj) : bool :=
  match o with PInt _ | PBig _ => true | _ => false end.

Definition as_str (o : PyObj) : option string :=
  match o with PStr s => Some s | _ => None end.

Definition as_seq (o : PyObj) : option (list PyObj) :=
  match o with PList v | PTuple v | PSet v => Some v | _ => None end.

Definition as_dict (o : PyObj) : option (list (PyObj * PyObj)) :=
  match o with PDict d => Some d | _ => None end.

Definition as_instance_of (o : PyObj) (m n : string) : option (list PyObj) :=
  match o with
  | PInstance class args => if matches class m n then Some args else None
  | _ => None
  end.

(** The first pair whose key is this string. *)
Definition dict_get (o : PyObj) (key : string) : option PyObj :=
  d ← as_dict o;
  snd <$> List.find (fun kv => bool_decide (as_str kv.1 = Some key)) d.

(** ** The allowlist *)

Definition Allowlist : Type := list (string * string).

Definition allow (a : Allowlist) (m n : string) : Allowlist := a ++ [(m, n)].

Definition permits (a : Allowlist) (c : ClassId) : bool :=
  existsb (fun e => bool_decide (e.1 = module c) && bool_decide (e.2 = cname c)) a.

Definition archipelago : Allowlist :=
  [("NetUtils", "NetworkItem"); ("NetUtils", "NetworkSlot"); ("NetUtils", "Hint");
   ("NetUtils", "SlotType"); ("NetUtils", "HintStatus"); ("NetUtils", "ClientStatus");
   ("collections", "Counter")]%string.

(** ** Canonical rendering *)

(** [{:016x}]. *)
Definition hex_digit (n : Z) : ascii :=
  if n <? 10 then ascii_of_N (Z.to_N (48 + n)) else ascii_of_N (Z.to_N (87 + n)).

Fixpoint hex (digits : nat) (x : Z) (acc : string) : string :=
  match digits with
  | O => acc
  | S d => hex d (x / 16) (String (hex_digit (x mod 16)) acc)
  end.

(** Byte-wise order of [String], for [parts.sort()]. *)
Fixpoint string_leb (a b : string) : bool :=
  match a, b with
  | EmptyString, _ => true
  | String _ _, EmptyString => false
  | String x a, String y b =>
      if (N_of_ascii x <? N_of_ascii y)%N then true
      else if (N_of_ascii x =? N_of_ascii y)%N then string_leb a b else false
  end.

Definition string_le (a b : string) : Prop := string_leb a b = true.

#[export] Instance string_le_dec : RelDecision string_le.
Proof. intros a b. unfold string_le. apply _. Defined.

Definition sorted_strings (l : list string) : list string := merge_sort string_le l.

Fixpoint canonical (o : PyObj) : string :=
  let join := fix join (l : list PyObj) : string :=
    match l with
    | [] => ""
    | [x] => canonical x
    | x :: l => String.append (canonical x) (String.append "," (join l))
    end in
  let all := fix all (l : list PyObj) : list string :=
    match l with [] => [] | x :: l => canonical x :: all l end in
  match o with
  | PNone => "None"
  | PBool true => "True"
  | PBool false => "False"
  | PInt i => pretty i
  | PBig b => to_string b
  | PFloat bits => String.append "f:" (hex 16 bits "")
  | PStr s => String.append "s" (String.append (pretty (String.length s)) (String.append ":" s))
  | PTuple l => String.append "(" (String.append (join l) ")")
  | PList l => String.append "[" (String.append (join l) "]")
  | PSet l => String.append "{" (String.append (String.concat "," (sorted_strings (all l))) "}")
  | PDict d =>
      let pairs := fix pairs (d : list (PyObj * PyObj)) : string :=
        match d with
        | [] => ""
        | [(k, v)] => String.append (canonical k) (String.append ":" (canonical v))
        | (k, v) :: d =>
            String.append (canonical k)
              (String.append ":" (String.append (canonical v) (String.append "," (pairs d))))
        end in
      String.append "d{" (String.append (pairs d) "}")
  | PGlobal c => String.append "<" (String.append (class_text c) ">")
  | PInstance c l =>
      String.append "<" (String.append (class_text c) (String.append ">(" (String.append (join l) ")")))
  end%string.
