(* ===== verification/Reader.v ===== *)
(** * [crates/pahoa-pickle/src/reader.rs]: the pickle machine

    A stream is the list of its bytes.  The machine keeps the unread rest with
    its offset, and its stack and marks with the top first; indices into the
    stack ([marks], [live], [Live]) count from the bottom, as in the source's
    vectors.  Every opcode of the source reads its operand before it touches
    the stack: [fetch] is that part, [exec] the rest of the arm.

    [Panicked] is an index out of range and [OutOfFuel] the end of the loop's
    fuel; neither is a value of the source's error type, and both are proved
    not to happen.  The reference encoder at the end is this file's own. *)

From Stdlib Require Import ZArith Lia Bool Ascii.
From stdpp Require Import base tactics list sets gmap strings pretty.
From S2P Require Import Prelude PyObj.

(** ** Opcodes *)

Inductive Opcode : Type :=
| MARK | STOP | NONE | BININT | BININT1 | BININT2 | BINFLOAT | BINUNICODE | EMPTY_LIST | APPEND
| APPENDS | EMPTY_DICT | SETITEM | SETITEMS | EMPTY_TUPLE | TUPLE | BINGET | LONG_BINGET | REDUCE
| PROTO | NEWOBJ | TUPLE1 | TUPLE2 | TUPLE3 | NEWTRUE | NEWFALSE | LONG1 | SHORT_BINUNICODE
| EMPTY_SET | ADDITEMS | STACK_GLOBAL | MEMOIZE | FRAME.

#[export] Instance Opcode_eq_dec : EqDecision Opcode.
Proof. solve_decision. Defined.

(** The constants of [mod op]. *)
Definition op_code (o : Opcode) : Z :=
  match o with
  | MARK => 40 | STOP => 46 | NONE => 78 | BININT => 74 | BININT1 => 75 | BININT2 => 77
  | BINFLOAT => 71 | BINUNICODE => 88 | EMPTY_LIST => 93 | APPEND => 97 | APPENDS => 101
  | EMPTY_DICT => 125 | SETITEM => 115 | SETITEMS => 117 | EMPTY_TUPLE => 41 | TUPLE => 116
  | BINGET => 104 | LONG_BINGET => 106 | REDUCE => 82 | PROTO => 0x80 | NEWOBJ => 0x81
  | TUPLE1 => 0x85 | TUPLE2 => 0x86 | TUPLE3 => 0x87 | NEWTRUE => 0x88 | NEWFALSE => 0x89
  | LONG1 => 0x8a | SHORT_BINUNICODE => 0x8c | EMPTY_SET => 0x8f | ADDITEMS => 0x90
  | STACK_GLOBAL => 0x93 | MEMOIZE => 0x94 | FRAME => 0x95
  end.

Definition opcodes : list Opcode :=
  [MARK; STOP; NONE; BININT; BININT1; BININT2; BINFLOAT; BINUNICODE; EMPTY_LIST; APPEND; APPENDS;
   EMPTY_DICT; SETITEM; SETITEMS; EMPTY_TUPLE; TUPLE; BINGET; LONG_BINGET; REDUCE; PROTO; NEWOBJ;
   TUPLE1; TUPLE2; TUPLE3; NEWTRUE; NEWFALSE; LONG1; SHORT_BINUNICODE; EMPTY_SET; ADDITEMS;
   STACK_GLOBAL; MEMOIZE; FRAME].

(** The match on an opcode byte. *)
Definition opcode_of (b : Z) : option Opcode := List.find (fun o => op_code o =? b) opcodes.

Definition known_unsupported (b : Z) : option string :=
  snd <$> List.find (fun e => e.1 =? b)
    [(48, "POP"); (49, "POP_MARK"); (50, "DUP"); (70, "FLOAT"); (73, "INT"); (76, "LONG");
     (83, "STRING"); (84, "BINSTRING"); (85, "SHORT_BINSTRING"); (86, "UNICODE"); (99, "GLOBAL");
     (100, "DICT"); (103, "GET"); (105, "INST"); (108, "LIST"); (111, "OBJ"); (112, "PUT");
     (113, "BINPUT"); (114, "LONG_BINPUT"); (98, "BUILD"); (80, "PERSID"); (81, "BINPERSID");
     (0x82, "EXT1"); (0x83, "EXT2"); (0x84, "EXT4"); (0x8b, "LONG4"); (0x8d, "BINBYTES8");
     (0x8e, "BYTEARRAY8"); (0x91, "FROZENSET"); (0x92, "NEWOBJ_EX"); (0x96, "BYTEARRAY8");
     (0x97, "NEXT_BUFFER"); (0x98, "READONLY_BUFFER")]%string.

Definition MAX_DEPTH : Z := 256.
Definition MAX_OBJECTS : Z := 4000000.

(** [error.rs].  [IntegerTooLarge] and [NoStop] are never constructed. *)
Inductive PickleError : Type :=
| Truncated (offset wanted available : Z)
| UnsupportedOpcode (offset opcode : Z) (name : string)
| UnknownOpcode (offset opcode : Z)
| UnsupportedProtocol (offset version : Z)
| StackUnderflow (offset : Z) (opcode : string)
| NoMark (offset : Z) (opcode : string)
| BadMemo (offset index len : Z)
| BadUtf8 (offset : Z)
| TypeMismatch (offset : Z) (opcode expected found : string)
| ForbiddenClass (offset : Z) (class : ClassId)
| OddSetItems (offset : Z)
| UnbalancedStack (len : Z)
| TooDeep (offset limit : Z)
| TooManyObjects (offset limit : Z)
| Panicked
| OutOfFuel.

(** ** The pre-scan *)

Definition zlen {A} (l : list A) : Z := Z.of_nat (length l).

(** [skip!(n)]: the bytes left, if there are [n] of them. *)
Definition skip (n : Z) (l : list Z) : option (list Z) :=
  if zlen l <? n then None else Some (drop (Z.to_nat n) l).

(** [le!(n)]: an [n]-byte little-endian integer and the bytes left. *)
Definition le (n : Z) (l : list Z) : option (Z * list Z) :=
  if zlen l <? n then None else Some (le_val (take (Z.to_nat n) l), drop (Z.to_nat n) l).

(** One opcode of the scan: the indices seen so far, and the bytes left. *)
Definition scan_step (o : Opcode) (l : list Z) (refs : gset Z) : option (gset Z * list Z) :=
  match o with
  | BINGET => '(v, l) ← le 1 l; Some (refs ∪ {[v]}, l)
  | LONG_BINGET => '(v, l) ← le 4 l; Some (refs ∪ {[v]}, l)
  | PROTO | BININT1 => l ← skip 1 l; Some (refs, l)
  | BININT2 => l ← skip 2 l; Some (refs, l)
  | BININT => l ← skip 4 l; Some (refs, l)
  | BINFLOAT | FRAME => l ← skip 8 l; Some (refs, l)
  | SHORT_BINUNICODE | LONG1 => '(n, l) ← le 1 l; l ← skip n l; Some (refs, l)
  | BINUNICODE => '(n, l) ← le 4 l; l ← skip n l; Some (refs, l)
  | _ => Some (refs, l)
  end.

Fixpoint scan_go (fuel : nat) (l : list Z) (refs : gset Z) : option (gset Z) :=
  match fuel, l with
  | _, [] => Some refs
  | O, _ => None
  | S fuel, b :: l =>
      o ← opcode_of b;
      '(refs, l) ← scan_step o l refs;
      scan_go fuel l refs
  end.

(** Every round reads a byte, so the length is fuel enough. *)
Definition scan_memo_refs (buf : list Z) : option (gset Z) := scan_go (length buf) buf ∅.

(** ** The machine *)

Inductive MemoSlot : Type :=
| Value (v : PyObj)
| Live (idx : nat)
| Unreferenced.

Record Reader : Type := mkReader {
  pos : Z;
  rest : list Z;
  stack : list PyObj;
  marks : list nat;
  memo : list MemoSlot;
  live : list (nat * nat);
  referenced : option (gset Z);
  allowlist : Allowlist;
  objects : Z
}.

Definition reader_new (buf : list Z) (a : Allowlist) : Reader :=
  mkReader 0 buf [] [] [] [] (scan_memo_refs buf) a 0.

(** The state-and-error monad of [&mut self] with [?]. *)
Definition R (A : Type) : Type := Reader -> result PickleError (A * Reader).

#[global] Instance R_ret : MRet R := fun A a s => Ok (a, s).
#[global] Instance R_bind : MBind R := fun A B k m s =>
  match m s with Ok (a, s) => k a s | Err e => Err e end.

Definition get_ {A} (f : Reader -> A) : R A := fun s => Ok (f s, s).
Definition fail {A} (e : PickleError) : R A := fun _ => Err e.

Definition set_input (p : Z) (l : list Z) (s : Reader) : Reader :=
  mkReader p l (stack s) (marks s) (memo s) (live s) (referenced s) (allowlist s) (objects s).
Definition set_stack (st : list PyObj) (s : Reader) : Reader :=
  mkReader (pos s) (rest s) st (marks s) (memo s) (live s) (referenced s) (allowlist s) (objects s).
Definition set_marks (m : list nat) (s : Reader) : Reader :=
  mkReader (pos s) (rest s) (stack s) m (memo s) (live s) (referenced s) (allowlist s) (objects s).
Definition set_memo (m : list MemoSlot) (lv : list (nat * nat)) (s : Reader) : Reader :=
  mkReader (pos s) (rest s) (stack s) (marks s) m lv (referenced s) (allowlist s) (objects s).
Definition set_objects (n : Z) (s : Reader) : Reader :=
  mkReader (pos s) (rest s) (stack s) (marks s) (memo s) (live s) (referenced s) (allowlist s) n.

Definition put (f : Reader -> Reader) : R unit := fun s => Ok (tt, f s).

(** [self.referenced] holds [u32]s. *)
Definition is_referenced (s : Reader) (index : nat) : bool :=
  match referenced s with
  | Some refs => bool_decide (wrap32 (Z.of_nat index) ∈ refs)
  | None => true
  end.

(** [self.stack[i]]. *)
Definition stack_at (st : list PyObj) (i : nat) : option PyObj :=
  if (i <? length st)%nat then st !! (length st - 1 - i)%nat else None.

(** The entries whose container is at or above [new_len]; [None] is an index
    out of range. *)
Fixpoint materialize (st : list PyObj) (new_len : nat) (lv : list (nat * nat)) (m : list MemoSlot)
    : option (list (nat * nat) * list MemoSlot) :=
  match lv with
  | [] => Some ([], m)
  | (stack_idx, memo_idx) :: lv' =>
      if (stack_idx <? new_len)%nat then Some (lv, m)
      else
        v ← stack_at st stack_idx;
        if (memo_idx <? length m)%nat
        then materialize st new_len lv' (<[memo_idx := Value v]> m)
        else None
  end.

Definition materialize_above (new_len : nat) : R unit := fun s =>
  match materialize (stack s) new_len (live s) (memo s) with
  | Some (lv, m) => Ok (tt, set_memo m lv s)
  | None => Err Panicked
  end.

(** *** Primitive reads *)

Definition need (n : Z) : R unit := fun s =>
  if zlen (rest s) <? n then Err (Truncated (pos s) n (zlen (rest s))) else Ok (tt, s).

Definition take_ (n : Z) : R (list Z) :=
  _ ← need n;
  l ← get_ rest;
  _ ← put (fun s => set_input (pos s + n) (drop (Z.to_nat n) l) s);
  mret (take (Z.to_nat n) l).

Definition u8 : R Z := l ← take_ 1; mret (le_val l).
Definition u16le : R Z := l ← take_ 2; mret (le_val l).
Definition u32le : R Z := l ← take_ 4; mret (le_val l).
Definition u64le : R Z := l ← take_ 8; mret (le_val l).

(** Two's complement. *)
Definition i32le : R Z :=
  l ← take_ 4;
  let v := le_val l in
  mret (if v <? 2 ^ 31 then v else v - 2 ^ 32).

Definition utf8 (len : Z) : R string :=
  at_ ← get_ pos;
  bytes ← take_ len;
  if utf8_valid bytes then mret (string_of_bytes bytes) else fail (BadUtf8 at_).

(** *** The stack and the memo *)

Definition push (v : PyObj) : R unit := fun s =>
  if MAX_DEPTH * 4096 <=? zlen (stack s) then Err (TooDeep (pos s) MAX_DEPTH)
  else
    let n := objects s + 1 in
    if MAX_OBJECTS <? n then Err (TooManyObjects (pos s) MAX_OBJECTS)
    else Ok (tt, set_stack (v :: stack s) (set_objects n s)).

Definition pop (opcode : string) : R PyObj :=
  s ← get_ id;
  match marks s, stack s with
  | m :: _, st => if (length st <=? m)%nat then fail (StackUnderflow (pos s) opcode) else
      match st with
      | v :: st => _ ← materialize_above (length st); _ ← put (set_stack st); mret v
      | [] => fail (StackUnderflow (pos s) opcode)
      end
  | [], v :: st => _ ← materialize_above (length st); _ ← put (set_stack st); mret v
  | [], [] => fail (StackUnderflow (pos s) opcode)
  end.

(** The items in the order they were pushed. *)
Definition pop_to_mark (opcode : string) : R (list PyObj) :=
  s ← get_ id;
  match marks s with
  | [] => fail (NoMark (pos s) opcode)
  | m :: ms =>
      _ ← put (set_marks ms);
      if (length (stack s) <? m)%nat then fail (StackUnderflow (pos s) opcode)
      else
        _ ← materialize_above m;
        let n := (length (stack s) - m)%nat in
        _ ← put (set_stack (drop n (stack s)));
        mret (rev (take n (stack s)))
  end.

Definition memo_get (index : Z) : R PyObj := fun s =>
  let bad := BadMemo (pos s) index (zlen (memo s)) in
  if zlen (memo s) <=? index then Err bad
  else match memo s !! Z.to_nat index with
       | Some (Value v) => Ok (v, s)
       | Some (Live idx) => match stack_at (stack s) idx with Some v => Ok (v, s) | None => Err Panicked end
       | Some Unreferenced | None => Err bad
       end.

(** ** Operands *)

Inductive Instr : Type :=
| IProto (v : Z) | IFrame | IPush (o : PyObj) | IGet (i : Z) | IOp (o : Opcode).

(** LONG1's payload. *)
Definition long_from_le (bytes : list Z) : PyObj :=
  let big := from_le_twos_complement bytes in
  match to_i64 big with Some v => PInt v | None => PBig big end.

Definition fetch_operand (o : Opcode) : R Instr :=
  match o with
  | PROTO => v ← u8; mret (IProto v)
  | FRAME => _ ← u64le; mret IFrame
  | BININT => v ← i32le; mret (IPush (PInt v))
  | BININT1 => v ← u8; mret (IPush (PInt v))
  | BININT2 => v ← u16le; mret (IPush (PInt v))
  | LONG1 => n ← u8; bytes ← take_ n; mret (IPush (long_from_le bytes))
  | BINFLOAT => bytes ← take_ 8; mret (IPush (PFloat (be_val bytes)))
  | SHORT_BINUNICODE => n ← u8; s ← utf8 n; mret (IPush (PStr s))
  | BINUNICODE => n ← u32le; s ← utf8 n; mret (IPush (PStr s))
  | BINGET => i ← u8; mret (IGet i)
  | LONG_BINGET => i ← u32le; mret (IGet i)
  | NONE => mret (IPush PNone)
  | NEWTRUE => mret (IPush (PBool true))
  | NEWFALSE => mret (IPush (PBool false))
  | EMPTY_TUPLE => mret (IPush (PTuple []))
  | EMPTY_LIST => mret (IPush (PList []))
  | EMPTY_SET => mret (IPush (PSet []))
  | EMPTY_DICT => mret (IPush (PDict []))
  | _ => mret (IOp o)
  end.

Definition fetch : R Instr :=
  at_ ← get_ pos;
  b ← u8;
  match opcode_of b with
  | Some o => fetch_operand o
  | None => fail (match known_unsupported b with
                  | Some name => UnsupportedOpcode at_ b name
                  | None => UnknownOpcode at_ b
                  end)
  end.

(** ** The arms *)

Definition found_ (st : list PyObj) : string :=
  match st with v :: _ => type_name v | [] => "nothing" end.

(** The container on top of the stack, changed by [f] where it applies. *)
Definition update_top (at_ : Z) (opcode expected : string) (f : PyObj -> option PyObj) : R unit :=
  st ← get_ stack;
  match st with
  | v :: st' =>
      match f v with
      | Some v' => put (set_stack (v' :: st'))
      | None => fail (TypeMismatch at_ opcode expected (found_ st))
      end
  | [] => fail (TypeMismatch at_ opcode expected (found_ st))
  end.

Definition extend_list (items : list PyObj) (o : PyObj) : option PyObj :=
  match o with PList l => Some (PList (l ++ items)) | _ => None end.
Definition extend_set (items : list PyObj) (o : PyObj) : option PyObj :=
  match o with PSet l => Some (PSet (l ++ items)) | _ => None end.
Definition extend_dict (items : list (PyObj * PyObj)) (o : PyObj) : option PyObj :=
  match o with PDict l => Some (PDict (l ++ items)) | _ => None end.

Fixpoint pairs_of (l : list PyObj) : list (PyObj * PyObj) :=
  match l with k :: v :: l => (k, v) :: pairs_of l | _ => [] end.

Definition memoize (at_ : Z) : R unit :=
  s ← get_ id;
  match stack s with
  | [] => fail (StackUnderflow at_ "MEMOIZE")
  | top :: _ =>
      let idx := (length (stack s) - 1)%nat in
      let memo_idx := length (memo s) in
      if negb (is_referenced s memo_idx) then put (set_memo (memo s ++ [Unreferenced]) (live s))
      else match top with
           | PList _ | PDict _ | PSet _ => put (set_memo (memo s ++ [Live idx]) ((idx, memo_idx) :: live s))
           | _ => put (set_memo (memo s ++ [Value top]) (live s))
           end
  end.

(** [cls( *args )], and [cls.__new__(cls, *args)]. *)
Definition construct (at_ : Z) (name : string) : R unit :=
  args ← pop name;
  callable ← pop name;
  match args with
  | PTuple args =>
      match callable with
      | PGlobal class => push (PInstance class args)
      | _ => fail (TypeMismatch at_ name "class" (type_name callable))
      end
  | _ => fail (TypeMismatch at_ name "tuple of arguments" (type_name args))
  end.

Definition stack_global (at_ : Z) : R unit :=
  name ← pop "STACK_GLOBAL";
  module ← pop "STACK_GLOBAL";
  match module, name with
  | PStr module, PStr name =>
      let class := mkClassId module name in
      a ← get_ allowlist;
      if permits a class then push (PGlobal class) else fail (ForbiddenClass at_ class)
  | _, _ => fail (TypeMismatch at_ "STACK_GLOBAL" "two strings" "something else")
  end.

(** One arm of the loop; a value ends it. *)
Definition exec (at_ : Z) (i : Instr) : R (option PyObj) :=
  match i with
  | IProto v => if (2 <=? v) && (v <=? 5) then mret None else fail (UnsupportedProtocol at_ v)
  | IFrame => mret None
  | IPush o => _ ← push o; mret None
  | IGet i => v ← memo_get i; _ ← push v; mret None
  | IOp MARK => _ ← put (fun s => set_marks (length (stack s) :: marks s) s); mret None
  | IOp TUPLE1 => a ← pop "TUPLE1"; _ ← push (PTuple [a]); mret None
  | IOp TUPLE2 => b ← pop "TUPLE2"; a ← pop "TUPLE2"; _ ← push (PTuple [a; b]); mret None
  | IOp TUPLE3 =>
      c ← pop "TUPLE3"; b ← pop "TUPLE3"; a ← pop "TUPLE3"; _ ← push (PTuple [a; b; c]); mret None
  | IOp TUPLE => items ← pop_to_mark "TUPLE"; _ ← push (PTuple items); mret None
  | IOp APPEND => v ← pop "APPEND"; _ ← update_top at_ "APPEND" "list" (extend_list [v]); mret None
  | IOp APPENDS =>
      items ← pop_to_mark "APPENDS"; _ ← update_top at_ "APPENDS" "list" (extend_list items); mret None
  | IOp ADDITEMS =>
      items ← pop_to_mark "ADDITEMS"; _ ← update_top at_ "ADDITEMS" "set" (extend_set items); mret None
  | IOp SETITEM =>
      v ← pop "SETITEM"; k ← pop "SETITEM";
      _ ← update_top at_ "SETITEM" "dict" (extend_dict [(k, v)]); mret None
  | IOp SETITEMS =>
      items ← pop_to_mark "SETITEMS";
      if Nat.odd (length items) then fail (OddSetItems at_)
      else _ ← update_top at_ "SETITEMS" "dict" (extend_dict (pairs_of items)); mret None
  | IOp MEMOIZE => _ ← memoize at_; mret None
  | IOp STACK_GLOBAL => _ ← stack_global at_; mret None
  | IOp REDUCE => _ ← construct at_ "REDUCE"; mret None
  | IOp NEWOBJ => _ ← construct at_ "NEWOBJ"; mret None
  | IOp _ => (* STOP; the other opcodes are never an [IOp] *)
      st ← get_ stack;
      match st with [v] => mret (Some v) | _ => fail (UnbalancedStack (zlen st)) end
  end.

Fixpoint decode_loop (fuel : nat) : R PyObj :=
  match fuel with
  | O => fail OutOfFuel
  | S fuel =>
      at_ ← get_ pos;
      i ← fetch;
      x ← exec at_ i;
      match x with Some v => mret v | None => decode_loop fuel end
  end.

(** Every round reads a byte, and the round after the last fails to. *)
Definition decode (s : Reader) : result PickleError PyObj :=
  match decode_loop (S (length (rest s))) s with Ok (v, _) => Ok v | Err e => Err e end.

Definition from_slice (buf : list Z) (a : Allowlist) : result PickleError PyObj :=
  decode (reader_new buf a).
