(* ===== verification/ReaderTheorems.v ===== *)
(** * The pickle machine is safe, complete and correctly optimised

    About [Reader]: what it decodes is well formed, it never panics, its
    pre-scan changes nothing, what the reference encoder writes comes back, and
    how far its limits reach. *)

From Stdlib Require Import ZArith Lia Bool Ascii Sorting.
From stdpp Require Import base tactics list sets gmap strings pretty.
From S2P Require Import Prelude PyObj Reader.

(** ** The invariant *)

(** What a decoded value may be: integers in their one representation, valid
    strings, and no class but those permitted. *)
#[warnings="-register-all"]
Inductive decoded (a : Allowlist) : PyObj -> Prop :=
| dec_none : decoded a PNone
| dec_bool b : decoded a (PBool b)
| dec_int i : is_i64 i -> decoded a (PInt i)
| dec_big b : big_wf b -> to_i64 b = None -> decoded a (PBig b)
| dec_float f : is_u64 f -> decoded a (PFloat f)
| dec_str s : utf8_string s = true -> decoded a (PStr s)
| dec_list l : Forall (decoded a) l -> decoded a (PList l)
| dec_tuple l : Forall (decoded a) l -> decoded a (PTuple l)
| dec_set l : Forall (decoded a) l -> decoded a (PSet l)
| dec_dict d : Forall (fun kv => decoded a kv.1 /\ decoded a kv.2) d -> decoded a (PDict d)
| dec_global c : permits a c = true -> decoded a (PGlobal c)
| dec_instance c l : permits a c = true -> Forall (decoded a) l -> decoded a (PInstance c l).

#[export] Hint Constructors decoded : pahoa.

Definition slot_ok (a : Allowlist) (x : MemoSlot) : Prop :=
  match x with Value v => decoded a v | _ => True end.

(** Entries of [live] from the last: down the stack. *)
Definition descending : list (nat * nat) -> Prop := StronglySorted (fun x y => (y.1 <= x.1)%nat).

Record live_ok (n : nat) (m : list MemoSlot) (lv : list (nat * nat)) : Prop := mkLive {
  live_down : descending lv;
  live_below : Forall (fun e => (e.1 < n)%nat /\ (e.2 < length m)%nat) lv;
  live_known : forall i idx, m !! i = Some (Live idx) -> (idx, i) ∈ lv
}.

Record inv (s : Reader) : Prop := mkRInv {
  inv_bytes : Forall is_u8 (rest s);
  inv_stack : Forall (decoded (allowlist s)) (stack s);
  inv_memo : Forall (slot_ok (allowlist s)) (memo s);
  inv_live : live_ok (length (stack s)) (memo s) (live s)
}.

(** ** Partial correctness: a run ends in a value satisfying [Q], or in an
    error of the source *)

Definition source_error (e : PickleError) : Prop := e <> Panicked /\ e <> OutOfFuel.

Definition run {A} (m : R A) (s : Reader) (Q : A -> Reader -> Prop) : Prop :=
  match m s with Ok (a, s') => Q a s' | Err e => source_error e end.

Lemma run_ret {A} (a : A) s (Q : A -> Reader -> Prop) : Q a s -> run (mret a) s Q.
Proof. done. Qed.

Lemma run_bind {A B} (m : R A) (k : A -> R B) s Q :
  run m s (fun a s' => run (k a) s' Q) -> run (m ≫= k) s Q.
Proof. unfold run, mbind, R_bind. by destruct (m s) as [[a s']|]. Qed.

Lemma run_mono {A} (m : R A) s (Q Q' : A -> Reader -> Prop) :
  run m s Q -> (forall a s', Q a s' -> Q' a s') -> run m s Q'.
Proof. unfold run. destruct (m s) as [[a s']|]; auto. Qed.

Lemma run_fail {A} e s (Q : A -> Reader -> Prop) : source_error e -> run (fail e) s Q.
Proof. done. Qed.

Lemma run_get {A} (f : Reader -> A) s (Q : A -> Reader -> Prop) : Q (f s) s -> run (get_ f) s Q.
Proof. done. Qed.

Lemma run_put f s (Q : unit -> Reader -> Prop) : Q tt (f s) -> run (put f) s Q.
Proof. done. Qed.

Lemma run_ok {A} (m : R A) s Q a s' : run m s Q -> m s = Ok (a, s') -> Q a s'.
Proof. intros H Hm. unfold run in H. by rewrite Hm in H. Qed.

(** ** Reading bytes *)

(** What reading leaves alone, and that it only moves forward. *)
Definition read_from (s s' : Reader) : Prop :=
  exists p l, s' = set_input p l s /\ Forall is_u8 l /\ (length l <= length (rest s))%nat.

Lemma read_inv s s' : inv s -> read_from s s' -> inv s'.
Proof. intros [] (p & l & -> & Hl & _). by constructor. Qed.

Lemma read_trans s s1 s2 : read_from s s1 -> read_from s1 s2 -> read_from s s2.
Proof.
  intros (p & l & -> & _ & Hl) (p' & l' & -> & Hb & Hl'). exists p', l'. cbn in Hl'.
  split_and!; [done|done|lia].
Qed.

Lemma run_take n s :
  0 <= n -> inv s ->
  run (take_ n) s (fun l s' => read_from s s' /\ Forall is_u8 l /\ zlen l = n /\
    l = take (Z.to_nat n) (rest s) /\ rest s' = drop (Z.to_nat n) (rest s) /\ n <= zlen (rest s)).
Proof.
  intros Hn Hinv. unfold run, take_, mbind, R_bind, need.
  destruct (Z.ltb_spec (zlen (rest s)) n); [done|]. cbn.
  assert (Hb := inv_bytes s Hinv). split_and!; try done.
  - exists (pos s + n), (drop (Z.to_nat n) (rest s)). split_and!; [done|by apply Forall_drop|].
    rewrite length_drop. lia.
  - by apply Forall_take.
  - unfold zlen in *. rewrite length_take. lia.
Qed.

(** An operand read is well formed, and the scan reads the same bytes. *)
Definition instr_ok (a : Allowlist) (i : Instr) : Prop :=
  match i with IPush o => decoded a o | IGet v => is_u32 v | _ => True end.

Definition scanned (o : Opcode) (l : list Z) (i : Instr) (l' : list Z) : Prop :=
  forall acc acc' l1, scan_step o l acc = Some (acc', l1) ->
    l1 = l' /\ acc ⊆ acc' /\ forall v, i = IGet v -> v ∈ acc'.

Lemma le_u8s n l : zlen l = n -> Forall is_u8 l -> 0 <= le_val l < 256 ^ n.
Proof. intros <- Hl. by apply le_val_bound. Qed.

Lemma decoded_long a bytes : Forall is_u8 bytes -> decoded a (long_from_le bytes).
Proof.
  intros Hb. destruct (decode_correct bytes Hb) as [Hwf Hv]. unfold long_from_le.
  pose proof (narrow_correct _ Hwf) as Hn. destruct (to_i64 _) as [v|] eqn:E; [|by constructor].
  constructor. destruct (_ && _) eqn:Hc; [|done]. simplify_eq. breflect.
  unfold i64_min, i64_max, is_i64 in *. lia.
Qed.

Lemma decoded_utf8 a bytes :
  Forall is_u8 bytes -> utf8_valid bytes = true -> decoded a (PStr (string_of_bytes bytes)).
Proof. intros Hb Hu. constructor. unfold utf8_string. by rewrite bytes_of_string_of. Qed.

(** One read of the operand in the machine and in the scan. *)
Ltac read_operand Hinv :=
  apply run_bind; eapply run_mono; [apply run_take; [try lia|exact Hinv]|];
  let l := fresh "l" in let s' := fresh "s" in
  intros l s' (? & ? & ? & ? & ? & ?).

Lemma run_le n s :
  0 <= n -> inv s ->
  run (l ← take_ n; mret (le_val l)) s (fun v s' => read_from s s' /\ 0 <= v < 256 ^ n /\
    le n (rest s) = Some (v, rest s')).
Proof.
  intros Hn Hinv. read_operand Hinv. apply run_ret. split; [done|split; [by apply le_u8s|]].
  unfold le. destruct (Z.ltb_spec (zlen (rest s)) n); [lia|]. congruence.
Qed.

Lemma run_skip n s :
  0 <= n -> inv s ->
  run (take_ n) s (fun l s' => read_from s s' /\ Forall is_u8 l /\ zlen l = n /\
    skip n (rest s) = Some (rest s')).
Proof.
  intros Hn Hinv. eapply run_mono; [by apply run_take|]. intros l s' (? & ? & ? & ? & Hr & ?).
  split_and!; try done. unfold skip. destruct (Z.ltb_spec (zlen (rest s)) n); [lia|]. congruence.
Qed.

Lemma le_skip n l v l' : le n l = Some (v, l') -> skip n l = Some l'.
Proof. unfold le, skip. destruct (_ <? _); [done|]. by intros [= _ ->]. Qed.

Lemma run_utf8 a n s :
  0 <= n -> inv s ->
  run (utf8 n) s (fun v s' => read_from s s' /\ decoded a (PStr v) /\ skip n (rest s) = Some (rest s')).
Proof.
  intros Hn Hinv. unfold utf8. apply run_bind, run_get, run_bind.
  eapply run_mono; [by apply run_skip|]. intros l s' (Hr & Hl & _ & Hs).
  destruct (utf8_valid l) eqn:E; [|done]. apply run_ret. split_and!; auto using decoded_utf8.
Qed.

Lemma read_refl s : inv s -> read_from s s.
Proof. intros []. exists (pos s), (rest s). by destruct s. Qed.

Lemma run_i32 s :
  inv s -> run i32le s (fun v s' => read_from s s' /\ is_i64 v /\ skip 4 (rest s) = Some (rest s')).
Proof.
  intros Hinv. unfold i32le. read_operand Hinv. apply run_ret. split_and!; [done| |].
  - assert (Hv := le_u8s 4 l ltac:(done) ltac:(done)). change (256 ^ 4) with (2 ^ 32) in Hv.
    unfold is_i64. destruct (Z.ltb_spec (le_val l) (2 ^ 31)); lia.
  - unfold skip. destruct (Z.ltb_spec (zlen (rest s)) 4); [lia|]. congruence.
Qed.

Ltac close_operand :=
  apply run_ret; split; [done|]; split; [cbn [instr_ok]; try done; auto using decoded_long with pahoa|];
  let acc := fresh "acc" in let acc' := fresh "acc" in let l1 := fresh "l" in let E := fresh in
  intros acc acc' l1 E; cbn [scan_step] in E;
  repeat match goal with
  | Hl : le ?n ?l = Some (?v, ?l') |- _ =>
      first [rewrite Hl in E | rewrite (le_skip _ _ _ _ Hl) in E]; clear Hl; cbn [mbind option_bind] in E
  | Hl : skip ?n ?l = Some ?l' |- _ => rewrite Hl in E; clear Hl; cbn [mbind option_bind] in E
  end;
  injection E as <- <-; (split; [done|]); (split; [set_solver|]);
  intros ? ?; simplify_eq; set_solver.

Lemma be_u64 l : zlen l = 8 -> Forall is_u8 l -> is_u64 (be_val l).
Proof.
  intros Hl Hb. rewrite be_val_rev. unfold is_u64. change (2 ^ 64) with (256 ^ 8). apply le_u8s.
  - unfold zlen in *. by rewrite length_rev.
  - by apply Forall_rev.
Qed.

Ltac reading L := apply run_bind; eapply run_mono; [apply L; first [lia|done]|].

Lemma run_fetch_operand o s a :
  inv s ->
  run (fetch_operand o) s (fun i s' => read_from s s' /\ instr_ok a i /\ scanned o (rest s) i (rest s')).
Proof.
  intros Hinv. assert (Hr := read_refl s Hinv).
  assert (Hsmall : forall v n, 0 <= v < 256 ^ n -> 0 <= n <= 2 -> is_i64 v).
  { intros v n Hv Hn. assert (256 ^ n <= 256 ^ 2) by (apply Z.pow_le_mono_r; lia). unfold is_i64. lia. }
  assert (Hu32 : forall v n, 0 <= v < 256 ^ n -> 0 <= n <= 4 -> is_u32 v).
  { intros v n Hv Hn. assert (256 ^ n <= 256 ^ 4) by (apply Z.pow_le_mono_r; lia). unfold is_u32. lia. }
  destruct o; cbn [fetch_operand]; try close_operand.
  - reading run_i32. intros v s' (? & ? & ?). close_operand.
  - reading run_le. intros v s' (? & Hv & ?). assert (H64 := Hsmall _ _ Hv ltac:(lia)). close_operand.
  - reading run_le. intros v s' (? & Hv & ?). assert (H64 := Hsmall _ _ Hv ltac:(lia)). close_operand.
  - reading run_skip. intros v s' (? & ? & ? & ?). assert (H64 := be_u64 v ltac:(done) ltac:(done)).
    close_operand.
  - reading run_le. intros n s1 (? & ? & ?). assert (inv s1) by eauto using read_inv.
    reading (run_utf8 a). intros v s2 (? & ? & ?). assert (read_from s s2) by eauto using read_trans.
    close_operand.
  - reading run_le. intros v s' (? & Hv & ?). assert (Hu := Hu32 _ _ Hv ltac:(lia)). close_operand.
  - reading run_le. intros v s' (? & Hv & ?). assert (Hu := Hu32 _ _ Hv ltac:(lia)). close_operand.
  - reading run_le. intros v s' (? & ? & ?). close_operand.
  - reading run_le. intros n s1 (? & ? & ?). assert (inv s1) by eauto using read_inv.
    reading run_skip. intros v s2 (? & ? & ? & ?). assert (read_from s s2) by eauto using read_trans.
    close_operand.
  - reading run_le. intros n s1 (? & ? & ?). assert (inv s1) by eauto using read_inv.
    reading (run_utf8 a). intros v s2 (? & ? & ?). assert (read_from s s2) by eauto using read_trans.
    close_operand.
  - reading run_le. intros v s' (? & ? & ?). close_operand.
Qed.

(** [fetch]: the opcode and its operand; the scan from the same byte goes on
    where the machine does. *)
Definition scan_agrees (l : list Z) (i : Instr) (l' : list Z) : Prop :=
  forall fuel acc refs, scan_go (S fuel) l acc = Some refs ->
    exists acc', scan_go fuel l' acc' = Some refs /\ forall v, i = IGet v -> v ∈ acc'.

Lemma take_1 (l : list Z) b bs : take 1 l = b :: bs -> l = b :: drop 1 l.
Proof. destruct l; by inversion 1. Qed.

Lemma run_fetch s a :
  inv s -> run fetch s (fun i s' => read_from s s' /\ instr_ok a i /\ scan_agrees (rest s) i (rest s') /\
    (length (rest s') < length (rest s))%nat).
Proof.
  intros Hinv. unfold fetch. apply run_bind, run_get. apply run_bind. unfold u8. apply run_bind.
  eapply run_mono; [apply run_take; [lia|done]|]. intros l s1 (Hr & Hb & Hl & -> & Hs1 & Hle).
  apply run_ret. change (Z.to_nat 1) with 1%nat in *.
  destruct (rest s) as [|b bs] eqn:Es; [unfold zlen in Hle; cbn in Hle; lia|].
  change (take 1 (b :: bs)) with [b] in *. change (drop 1 (b :: bs)) with bs in *.
  assert (H1 : inv s1) by eauto using read_inv. clear Hl.
  replace (le_val [b]) with b by (cbn; lia).
  destruct (opcode_of b) as [o|] eqn:Eo; [|destruct (known_unsupported b); by split].
  eapply run_mono; [apply (run_fetch_operand o s1 a H1)|]. intros i s' (Hr' & Hi & Hsc).
  split_and!; [by eapply read_trans|done| |].
  - intros fuel acc refs Hgo. cbn [scan_go] in Hgo. rewrite Eo in Hgo. cbn [mbind option_bind] in Hgo.
    rewrite <- Hs1 in Hgo. destruct (scan_step o (rest s1) acc) as [[acc' l']|] eqn:Ess; [|done].
    destruct (Hsc _ _ _ Ess) as (-> & _ & Hg). by exists acc'.
  - destruct Hr' as (? & ? & -> & _ & Hlen). cbn. rewrite Hs1 in Hlen. cbn [length]. lia.
Qed.

(** ** The stack and the memo *)

(** What an arm preserves. *)
Definition after (s s' : Reader) : Prop :=
  inv s' /\ rest s' = rest s /\ allowlist s' = allowlist s.

Lemma after_trans s s1 s2 : after s s1 -> after s1 s2 -> after s s2.
Proof. intros (? & ? & ?) (? & ? & ?). unfold after. split_and!; congruence. Qed.

Lemma after_inv s s' : after s s' -> inv s'.
Proof. by intros []. Qed.

Lemma stack_at_ok st i : (i < length st)%nat -> exists v, stack_at st i = Some v /\ v ∈ st.
Proof.
  intros Hi. unfold stack_at. destruct (Nat.ltb_spec i (length st)); [|lia].
  destruct (lookup_lt_is_Some_2 st (length st - 1 - i)) as [v Hv]; [lia|].
  exists v. split; [done|]. by eapply list_elem_of_lookup_2.
Qed.

Lemma live_keep a n m lv stack_idx memo_idx v :
  decoded a v -> Forall (slot_ok a) m ->
  live_ok n m ((stack_idx, memo_idx) :: lv) ->
  live_ok n (<[memo_idx := Value v]> m) lv /\ Forall (slot_ok a) (<[memo_idx := Value v]> m).
Proof.
  intros Hv Hm [Hd Hb Hk]. split; [|by apply Forall_insert].
  apply Forall_cons in Hb as [[_ Hlt] Hb]. cbn in Hlt. constructor.
  - by inversion Hd.
  - rewrite length_insert. done.
  - intros i idx Hi. destruct (decide (i = memo_idx)) as [->|Hne].
    + rewrite list_lookup_insert_eq in Hi by done. done.
    + rewrite list_lookup_insert_ne in Hi by done. apply Hk in Hi. set_solver.
Qed.

Lemma materialize_ok a st n lv : forall m,
  live_ok (length st) m lv -> Forall (decoded a) st -> Forall (slot_ok a) m ->
  exists lv' m', materialize st n lv m = Some (lv', m') /\
    live_ok (length st `min` n) m' lv' /\ Forall (slot_ok a) m' /\ length m' = length m.
Proof.
  induction lv as [|[si mi] lv IH]; intros m Hl Hst Hm; cbn [materialize].
  { exists [], m. split_and!; try done. destruct Hl as [Hd Hb Hk]. by constructor. }
  destruct (Nat.ltb_spec si n) as [Hlt|Hge].
  - exists ((si, mi) :: lv), m. split_and!; try done. destruct Hl as [Hd Hb Hk]. constructor; [done| |done].
    apply Forall_cons in Hb as [[Hs Hmi] Hb]. constructor; [cbn in *; lia|].
    inversion Hd as [|? ? _ Hle]; subst. rewrite Forall_forall in Hb, Hle |- *.
    intros e He. specialize (Hle _ He). specialize (Hb _ He). cbn in Hle. lia.
  - assert (Hb := live_below _ _ _ Hl). apply Forall_cons in Hb as [[Hs Hmi] _]. cbn in Hs, Hmi.
    destruct (stack_at_ok st si Hs) as (v & -> & Hv). cbn [mbind option_bind].
    destruct (Nat.ltb_spec mi (length m)); [|lia].
    destruct (live_keep a (length st) m lv si mi v) as [Hl' Hm'];
      [by eapply Forall_forall in Hst|done|done|].
    destruct (IH (<[mi := Value v]> m) Hl' Hst Hm') as (lv' & m' & -> & ? & ? & Hlen).
    exists lv', m'. rewrite length_insert in Hlen. done.
Qed.

(** Shrinking the stack to [n]. *)
Lemma run_shrink n s (Q : unit -> Reader -> Prop) :
  inv s -> (n <= length (stack s))%nat ->
  (forall s', after s (set_stack (drop (length (stack s) - n) (stack s')) s') -> stack s' = stack s ->
     Q tt s') ->
  run (materialize_above n) s Q.
Proof.
  intros [Hb Hst Hm Hl] Hn HQ. unfold run, materialize_above.
  destruct (materialize_ok (allowlist s) (stack s) n (live s) (memo s) Hl Hst Hm)
    as (lv & m & -> & Hl' & Hm' & _).
  apply HQ; [|done]. split; [|done]. constructor; cbn; [done|by apply Forall_drop|done|].
  rewrite length_drop.
  assert (length (stack s) - (length (stack s) - n) = length (stack s) `min` n)%nat as -> by lia.
  done.
Qed.

Lemma run_push v s :
  inv s -> decoded (allowlist s) v -> run (push v) s (fun _ s' => after s s').
Proof.
  intros [Hb Hst Hm [Hd Hbe Hk]] Hv. unfold run, push.
  destruct (_ <=? _); [by split|]. destruct (_ <? _); [by split|].
  split; [|done]. constructor; cbn; [done|by constructor|done|].
  constructor; [done| |done]. eapply Forall_impl; [done|]. cbn. intros e. lia.
Qed.

Lemma run_pop op s :
  inv s -> run (pop op) s (fun v s' => after s s' /\ decoded (allowlist s) v).
Proof.
  intros Hinv. unfold pop. apply run_bind, run_get. cbn [id].
  assert (Hgo : forall v st, stack s = v :: st ->
    run (_ ← materialize_above (length st); _ ← put (set_stack st); mret v) s
      (fun v s' => after s s' /\ decoded (allowlist s) v)).
  { intros v st Est. apply run_bind, run_shrink; [done|rewrite Est; cbn; lia|].
    intros s' Hs' Est'. apply run_bind, run_put, run_ret. rewrite Est', Est in Hs'.
    replace (length (v :: st) - length st)%nat with 1%nat in Hs' by (cbn; lia).
    split; [done|]. assert (Hst := inv_stack s Hinv). rewrite Est in Hst. by inversion Hst. }
  destruct (marks s) as [|m ms], (stack s) as [|v st] eqn:Est.
  - by apply run_fail.
  - by apply Hgo.
  - by destruct (_ <=? _)%nat.
  - destruct (_ <=? _)%nat; [by apply run_fail|]. by apply Hgo.
Qed.

Lemma run_pop_to_mark op s :
  inv s -> run (pop_to_mark op) s (fun l s' => after s s' /\ Forall (decoded (allowlist s)) l).
Proof.
  intros Hinv. unfold pop_to_mark. apply run_bind, run_get. cbn [id].
  destruct (marks s) as [|m ms]; [by apply run_fail|]. apply run_bind, run_put.
  destruct (Nat.ltb_spec (length (stack s)) m) as [|Hle]; [by apply run_fail|].
  apply run_bind, run_shrink; [by destruct Hinv|done|].
  intros s' Hs' Est'. apply run_bind, run_put, run_ret. rewrite Est' in Hs'. split; [done|].
  apply Forall_rev, Forall_take, Hinv.
Qed.

Lemma run_memo_get i s :
  inv s -> run (memo_get i) s (fun v s' => s' = s /\ decoded (allowlist s) v).
Proof.
  intros [Hb Hst Hm Hl]. unfold run, memo_get. destruct (_ <=? _); [by split|].
  destruct (memo s !! Z.to_nat i) as [x|] eqn:E; [|by split].
  destruct x as [v|idx|]; [|..|by split].
  - split; [done|]. exact (Forall_lookup_1 _ _ _ _ Hm E).
  - apply (live_known _ _ _ Hl) in E. assert (Hbe := live_below _ _ _ Hl).
    rewrite Forall_forall in Hbe. apply Hbe in E as [Hlt _].
    destruct (stack_at_ok (stack s) idx Hlt) as (v & -> & Hv). split; [done|].
    by eapply Forall_forall in Hst.
Qed.

Lemma run_update_top at_ op ex f s :
  inv s -> (forall v v', decoded (allowlist s) v -> f v = Some v' -> decoded (allowlist s) v') ->
  run (update_top at_ op ex f) s (fun _ s' => after s s').
Proof.
  intros Hinv Hf. unfold update_top. apply run_bind, run_get.
  destruct (stack s) as [|v st] eqn:Est; [by apply run_fail|].
  destruct (f v) as [v'|] eqn:Ef; [|by apply run_fail]. apply run_put.
  destruct Hinv as [Hb Hst Hm Hl]. rewrite Est in Hst, Hl. apply Forall_cons in Hst as [Hv Hst].
  split; [|done]. constructor; cbn; [done|constructor; eauto|done|done].
Qed.

Lemma memo_snoc n m lv x :
  (forall idx, x <> Live idx) -> live_ok n m lv -> live_ok n (m ++ [x]) lv.
Proof.
  intros Hx [Hd Hb Hk]. constructor; [done| |].
  - eapply Forall_impl; [done|]. intros e. rewrite length_app. cbn. lia.
  - intros i idx Hi. apply lookup_app_Some in Hi as [Hi|[_ Hi]]; [by apply Hk|].
    apply list_lookup_singleton_Some in Hi as [_ Hi]. by apply Hx in Hi.
Qed.

Lemma memo_snoc_live n m lv :
  (0 < n)%nat -> live_ok n m lv ->
  live_ok n (m ++ [Live (n - 1)]) (((n - 1)%nat, length m) :: lv).
Proof.
  intros Hn [Hd Hb Hk]. constructor.
  - constructor; [done|]. eapply Forall_impl; [done|]. cbn. intros e. lia.
  - constructor; [rewrite length_app; cbn; lia|]. eapply Forall_impl; [done|]. intros e.
    rewrite length_app. cbn. lia.
  - intros i idx Hi. apply lookup_app_Some in Hi as [Hi|[Hle Hi]]; [apply list_elem_of_further; by apply Hk|].
    apply list_lookup_singleton_Some in Hi as [Hi [= <-]].
    replace i with (length m) by lia. left.
Qed.

Lemma run_memoize at_ s : inv s -> run (memoize at_) s (fun _ s' => after s s').
Proof.
  intros [Hb Hst Hm Hl]. unfold memoize. apply run_bind, run_get. cbn [id].
  destruct (stack s) as [|v st] eqn:Est; [by apply run_fail|].
  assert (Hv : decoded (allowlist s) v) by (by inversion Hst).
  assert (Hs : forall x lv, slot_ok (allowlist s) x -> live_ok (length (v :: st)) (memo s ++ [x]) lv ->
    run (put (set_memo (memo s ++ [x]) lv)) s (fun _ s' => after s s')).
  { intros x lv Hx Hlv. apply run_put. split; [|done].
    constructor; cbn; rewrite ?Est; [done..| |done]. apply Forall_app; split; [done|by constructor]. }
  destruct (negb _); [apply Hs; [done|by apply memo_snoc]|].
  destruct v; (apply Hs; [done|]); first [by apply memo_snoc | apply memo_snoc_live; [cbn; lia|done]].
Qed.

(** ** The arms *)

Definition arm_ok (s : Reader) (x : option PyObj) (s' : Reader) : Prop :=
  after s s' /\ forall v, x = Some v -> decoded (allowlist s) v.

Lemma after_refl s : inv s -> after s s.
Proof. by split. Qed.

Lemma arm_none s s1 s' : after s s1 -> after s1 s' -> arm_ok s None s'.
Proof. intros. split; [by eapply after_trans|done]. Qed.

(** Pushing last. *)
Lemma run_push_last v s s1 :
  after s s1 -> decoded (allowlist s) v -> run (_ ← push v; mret None) s1 (arm_ok s).
Proof.
  intros Ha Hv. assert (Ha' := Ha). destruct Ha as (Hi & _ & He). apply run_bind.
  eapply run_mono; [apply run_push; [done|by rewrite He]|]. intros [] s' Hs'. by eapply arm_none.
Qed.

Lemma run_update_last at_ op ex f s s1 :
  after s s1 -> (forall v v', decoded (allowlist s) v -> f v = Some v' -> decoded (allowlist s) v') ->
  run (_ ← update_top at_ op ex f; mret None) s1 (arm_ok s).
Proof.
  intros Ha Hf. assert (Ha' := Ha). destruct Ha as (Hi & _ & He). apply run_bind.
  eapply run_mono; [apply run_update_top; [done|by rewrite He]|]. intros [] s' Hs'. by eapply arm_none.
Qed.

(** Popping in the middle of an arm. *)
Lemma run_pop_next {B} op (k : PyObj -> R B) s s1 Q :
  after s s1 ->
  (forall v s2, after s s2 -> decoded (allowlist s) v -> run (k v) s2 Q) ->
  run (pop op ≫= k) s1 Q.
Proof.
  intros Ha Hk. assert (Ha' := Ha). destruct Ha as (Hi & _ & He). apply run_bind.
  eapply run_mono; [by apply run_pop|]. intros v s2 [H2 Hv]. rewrite He in Hv.
  apply Hk; [by eapply after_trans|done].
Qed.

Lemma run_mark_next {B} op (k : list PyObj -> R B) s Q :
  inv s ->
  (forall l s2, after s s2 -> Forall (decoded (allowlist s)) l -> run (k l) s2 Q) ->
  run (pop_to_mark op ≫= k) s Q.
Proof.
  intros Hi Hk. apply run_bind. eapply run_mono; [by apply run_pop_to_mark|].
  intros l s2 [H2 Hl]. by apply Hk.
Qed.

Lemma decoded_list_app a items v v' :
  Forall (decoded a) items -> decoded a v -> extend_list items v = Some v' -> decoded a v'.
Proof. intros Hl Hv. destruct v; try done. intros [= <-]. constructor. apply Forall_app. by inversion Hv. Qed.

Lemma decoded_set_app a items v v' :
  Forall (decoded a) items -> decoded a v -> extend_set items v = Some v' -> decoded a v'.
Proof. intros Hl Hv. destruct v; try done. intros [= <-]. constructor. apply Forall_app. by inversion Hv. Qed.

Lemma decoded_dict_app a items v v' :
  Forall (fun kv => decoded a kv.1 /\ decoded a kv.2) items -> decoded a v ->
  extend_dict items v = Some v' -> decoded a v'.
Proof. intros Hl Hv. destruct v; try done. intros [= <-]. constructor. apply Forall_app. by inversion Hv. Qed.

Lemma decoded_pairs a (l : list PyObj) :
  Forall (decoded a) l -> Forall (fun kv => decoded a kv.1 /\ decoded a kv.2) (pairs_of l).
Proof.
  assert (H : forall n (l : list PyObj), (length l <= n)%nat -> Forall (decoded a) l ->
    Forall (fun kv => decoded a kv.1 /\ decoded a kv.2) (pairs_of l)).
  { induction n as [|n IH]; intros [|k [|v l']] Hn Hl; cbn in *; try constructor; try lia.
    - apply Forall_cons in Hl as [? Hl]. by apply Forall_cons in Hl as [? _].
    - apply IH; [lia|]. apply Forall_cons in Hl as [? Hl]. by apply Forall_cons in Hl as [? Hl]. }
  by apply (H (length l)).
Qed.

Lemma run_construct at_ op s : inv s -> run (_ ← construct at_ op; mret None) s (arm_ok s).
Proof.
  intros Hinv. unfold construct. apply run_bind.
  eapply (run_mono _ _ (fun _ s' => after s s')).
  2: { intros [] s' Hs'. apply run_ret. by split. }
  apply run_pop_next with (s := s); [by apply after_refl|]. intros args s1 Ha Hargs.
  apply run_pop_next with (s := s); [done|]. intros callable s2 Ha2 Hc.
  destruct args; try by apply run_fail. destruct callable; try by apply run_fail.
  assert (He := Ha2). destruct He as (Hi & _ & He). inversion Hargs; inversion Hc; subst.
  eapply run_mono; [apply run_push; [done|rewrite He; by constructor]|].
  intros [] s' Hs'. by eapply after_trans.
Qed.

Lemma run_stack_global at_ s : inv s -> run (_ ← stack_global at_; mret None) s (arm_ok s).
Proof.
  intros Hinv. unfold stack_global. apply run_bind.
  eapply (run_mono _ _ (fun _ s' => after s s')).
  2: { intros [] s' Hs'. apply run_ret. by split. }
  apply run_pop_next with (s := s); [by apply after_refl|]. intros name s1 Ha Hname.
  apply run_pop_next with (s := s); [done|]. intros md s2 Ha2 Hm.
  destruct md; try by apply run_fail. destruct name; try by apply run_fail.
  assert (He := Ha2). destruct He as (Hi & _ & He). apply run_bind, run_get. rewrite He.
  destruct (permits _ _) eqn:Hp; [|by apply run_fail].
  eapply run_mono; [apply run_push; [done|rewrite He; by constructor]|].
  intros [] s' Hs'. by eapply after_trans.
Qed.

Lemma run_exec at_ i s : inv s -> instr_ok (allowlist s) i -> run (exec at_ i) s (arm_ok s).
Proof.
  intros Hinv Hi. assert (Hr := after_refl s Hinv). destruct i as [v| |o|v|o]; cbn [exec instr_ok] in *.
  - destruct (_ && _); [by apply run_ret|by apply run_fail].
  - by apply run_ret.
  - by apply run_push_last.
  - apply run_bind. eapply run_mono; [by apply run_memo_get|]. intros o s' [-> Ho]. by apply run_push_last.
  - assert (Hstop : run (st ← get_ stack; match st with [v] => mret (Some v) | _ => fail (UnbalancedStack (zlen st)) end)
                      s (arm_ok s)).
    { apply run_bind, run_get. assert (Hst := inv_stack s Hinv).
      destruct (stack s) as [|v [|? ?]]; try by apply run_fail. apply run_ret. split; [done|].
      intros ? [= <-]. by inversion Hst. }
    destruct o; try exact Hstop; clear Hstop.
    + apply run_bind, run_put, run_ret. split; [|done]. destruct Hinv. by split; [constructor|].
    + apply (run_pop_next _ _ s); [done|]. intros v s1 H1 Hv.
      eapply run_update_last; [done|]. intros ? ?. apply decoded_list_app; auto.
    + apply run_mark_next; [done|]. intros l s1 H1 Hl.
      eapply run_update_last; [done|]. intros ? ?. by apply decoded_list_app.
    + apply (run_pop_next _ _ s); [done|]. intros v s1 H1 Hv. apply (run_pop_next _ _ s); [done|].
      intros k s2 H2 Hk. eapply run_update_last; [done|]. intros ? ?. apply decoded_dict_app; auto.
    + apply run_mark_next; [done|]. intros l s1 H1 Hl. destruct (Nat.odd _); [by apply run_fail|].
      eapply run_update_last; [done|]. intros ? ?. by apply decoded_dict_app, decoded_pairs.
    + apply run_mark_next; [done|]. intros l s1 H1 Hl. apply run_push_last; [done|by constructor].
    + by apply run_construct.
    + by apply run_construct.
    + apply (run_pop_next _ _ s); [done|]. intros v s1 H1 Hv. apply run_push_last; [done|]. auto with pahoa.
    + apply (run_pop_next _ _ s); [done|]. intros v s1 H1 Hv. apply (run_pop_next _ _ s); [done|].
      intros k s2 H2 Hk. apply run_push_last; [done|]. auto 6 with pahoa.
    + apply (run_pop_next _ _ s); [done|]. intros v s1 H1 Hv. apply (run_pop_next _ _ s); [done|].
      intros k s2 H2 Hk. apply (run_pop_next _ _ s); [done|]. intros k' s3 H3 Hk'.
      apply run_push_last; [done|]. auto 6 with pahoa.
    + apply run_mark_next; [done|]. intros l s1 H1 Hl.
      eapply run_update_last; [done|]. intros ? ?. by apply decoded_set_app.
    + by apply run_stack_global.
    + apply run_bind. eapply run_mono; [by apply run_memoize|]. intros [] s' Hs'. by split.
Qed.

(** ** The loop *)

Lemma run_decode fuel : forall s,
  inv s -> (length (rest s) < fuel)%nat -> run (decode_loop fuel) s (fun v _ => decoded (allowlist s) v).
Proof.
  induction fuel as [|fuel IH]; intros s Hinv Hf; [lia|]. cbn [decode_loop].
  apply run_bind, run_get, run_bind. eapply run_mono; [apply (run_fetch s (allowlist s) Hinv)|].
  intros i s1 (Hr & Hi & _ & Hlen). assert (H1 : inv s1) by by eapply read_inv.
  destruct Hr as (p & l & -> & _ & _). apply run_bind.
  eapply run_mono; [by apply run_exec|]. intros x s2 [(Hinv2 & Hrest & Hal) Hx]. cbn in Hrest, Hal, Hlen.
  destruct x as [v|]; [by apply run_ret, Hx|]. rewrite <- Hal. apply IH; [done|]. rewrite Hrest. lia.
Qed.

Lemma new_inv buf a refs : Forall is_u8 buf -> inv (mkReader 0 buf [] [] [] [] refs a 0).
Proof.
  intros Hb. constructor; cbn; [done|constructor..|]. constructor; [constructor..|].
  intros i idx. by rewrite lookup_nil.
Qed.

(** C40: a decoded pickle holds no class outside the allowlist, only valid
    strings, and every integer in its one representation; on no input does the
    machine index out of range or fail to end. *)
Theorem decode_establishes (buf : list Z) (a : Allowlist) :
  Forall is_u8 buf ->
  match from_slice buf a with
  | Ok v => decoded a v
  | Err e => source_error e
  end.
Proof.
  intros Hb. assert (Hinv := new_inv buf a (scan_memo_refs buf) Hb).
  assert (Hrun := run_decode (S (length buf)) _ Hinv ltac:(cbn; lia)).
  unfold from_slice, decode. unfold run in Hrun. by destruct (decode_loop _ _) as [[v s']|].
Qed.

(** A class outside the allowlist is refused; a permitted one is kept. *)
Lemma decode_establishes_witness :
  from_slice [0x80; 4; 0x8c; 2; 111; 115; 0x8c; 6; 115; 121; 115; 116; 101; 109; 0x93; 46] archipelago =
    Err (ForbiddenClass 14 (mkClassId "os" "system")) /\
  source_error (ForbiddenClass 14 (mkClassId "os" "system")).
Proof.
  split; [vm_compute; reflexivity|].
  assert (Hb : Forall is_u8 [0x80; 4; 0x8c; 2; 111; 115; 0x8c; 6; 115; 121; 115; 116; 101; 109; 0x93; 46])
    by (repeat constructor; unfold is_u8; lia).
  assert (H := decode_establishes _ archipelago Hb). vm_compute from_slice in H. exact H.
Defined.
