(* ===== verification/ReaderScan.v ===== *)
(** * The pre-scan of the pickle machine changes nothing

    [scan_memo_refs] exists so that memo entries no opcode fetches cost
    nothing.  The machine with the scan is simulated, state by state, by the
    machine without it ([forget] is the simulation map): the two agree on every
    input, errors and offsets included. *)

From Stdlib Require Import ZArith Lia Bool Ascii Sorting.
From stdpp Require Import base tactics list sets gmap strings pretty.
From S2P Require Import Prelude PyObj Reader ReaderTheorems.

(** The machine that tracks everything. *)
Definition reader_tracking (buf : list Z) (a : Allowlist) : Reader :=
  mkReader 0 buf [] [] [] [] None a 0.

Section scan.
Variable refs : gset Z.

Definition tracked (i : nat) : bool := bool_decide (wrap32 (Z.of_nat i) ∈ refs).

Definition forget_memo (m : list MemoSlot) : list MemoSlot :=
  imap (fun i x => if tracked i then x else Unreferenced) m.

Definition forget_live (lv : list (nat * nat)) : list (nat * nat) :=
  List.filter (fun e => tracked e.2) lv.

Definition forget (s : Reader) : Reader :=
  mkReader (pos s) (rest s) (stack s) (marks s) (forget_memo (memo s)) (forget_live (live s))
    (Some refs) (allowlist s) (objects s).

Definition same {A} (m : R A) (s : Reader) : Prop :=
  m (forget s) = match m s with Ok (a, s') => Ok (a, forget s') | Err e => Err e end.

(** ** Operations that do not look at the memo *)

Definition blind {A} (m : R A) : Prop :=
  forall s, same m s /\ forall a s', m s = Ok (a, s') -> referenced s' = referenced s.

Lemma blind_ret {A} (a : A) : blind (mret a).
Proof. intros s. split; [done|]. by intros ? ? [= <- <-]. Qed.

Lemma blind_fail {A} e : blind (fail (A := A) e).
Proof. by intros s. Qed.

Lemma blind_bind {A B} (m : R A) (k : A -> R B) : blind m -> (forall a, blind (k a)) -> blind (m ≫= k).
Proof.
  intros Hm Hk s. destruct (Hm s) as [Hs Hr]. unfold same, mbind, R_bind in *. rewrite Hs.
  destruct (m s) as [[a s1]|e]; [|done]. destruct (Hk a s1) as [Hs1 Hr1]. split; [exact Hs1|].
  intros b s2 Hb. rewrite (Hr1 _ _ Hb). exact (Hr _ _ eq_refl).
Qed.

Lemma blind_get {A} (f : Reader -> A) : (forall s, f (forget s) = f s) -> blind (get_ f).
Proof. intros Hf s. split; [unfold same, get_; by rewrite Hf|]. by intros ? ? [= <- <-]. Qed.

Lemma blind_put f :
  (forall s, f (forget s) = forget (f s) /\ referenced (f s) = referenced s) -> blind (put f).
Proof.
  intros Hf s. destruct (Hf s) as [H1 H2]. split; [unfold same, put; by rewrite H1|].
  by intros ? ? [= <- <-].
Qed.

Lemma blind_need n : blind (need n).
Proof.
  intros s. unfold same, need. cbn. destruct (_ <? _); (split; [done|]); [done|].
  by intros ? ? [= <- <-].
Qed.

Lemma blind_push v : blind (push v).
Proof.
  intros s. unfold same, push. cbn. destruct (_ <=? _); [done|]. destruct (_ <? _); [done|].
  split; [done|]. by intros ? ? [= <- <-].
Qed.

Ltac blind :=
  repeat first
    [ apply blind_ret | apply blind_fail | apply blind_need | apply blind_push
    | apply blind_get; intros ?; reflexivity
    | apply blind_put; intros ?; split; reflexivity
    | apply blind_bind; [|intros ?]
    | match goal with |- blind (match ?x with _ => _ end) => destruct x end ].

Lemma blind_take n : blind (take_ n).
Proof. unfold take_. blind. Qed.

Lemma blind_fetch : blind fetch.
Proof.
  unfold fetch, u8. apply blind_bind; [blind|intros at_]. apply blind_bind; [|intros b].
  { apply blind_bind; [apply blind_take|intros; blind]. }
  destruct (opcode_of b) as [o|]; [|blind].
  destruct o; unfold fetch_operand, u8, u16le, u32le, u64le, i32le, utf8;
    repeat first [apply blind_take | progress blind].
Qed.

Lemma blind_update at_ op ex f : blind (update_top at_ op ex f).
Proof. unfold update_top. blind. Qed.

(** ** The memo *)

Lemma length_forget m : length (forget_memo m) = length m.
Proof. apply length_imap. Qed.

Lemma lookup_forget m i :
  forget_memo m !! i = (fun x => if tracked i then x else Unreferenced) <$> m !! i.
Proof. apply list_lookup_imap. Qed.

Lemma forget_insert m i v :
  forget_memo (<[i := Value v]> m) =
  if tracked i then <[i := Value v]> (forget_memo m) else forget_memo m.
Proof.
  apply list_eq. intros j. rewrite lookup_forget.
  destruct (decide (i = j)) as [<-|Hne].
  - destruct (decide (i < length m)%nat) as [Hlt|Hge].
    + rewrite list_lookup_insert_eq by done. cbn. destruct (tracked i) eqn:E.
      * by rewrite list_lookup_insert_eq by (by rewrite length_forget).
      * rewrite lookup_forget, E. destruct (lookup_lt_is_Some_2 m i Hlt) as [x ->]. done.
    + rewrite !list_insert_ge by (rewrite ?length_forget; lia).
      destruct (tracked i) eqn:E; rewrite lookup_forget, E; done.
  - rewrite list_lookup_insert_ne by done. destruct (tracked i).
    + by rewrite list_lookup_insert_ne, lookup_forget.
    + by rewrite lookup_forget.
Qed.

Lemma forget_snoc m x :
  forget_memo (m ++ [x]) = forget_memo m ++ [if tracked (length m) then x else Unreferenced].
Proof. unfold forget_memo. rewrite imap_app. cbn. by rewrite Nat.add_0_r. Qed.

Lemma materialize_forget st n lv : forall m lv' m',
  descending lv -> materialize st n lv m = Some (lv', m') ->
  materialize st n (forget_live lv) (forget_memo m) = Some (forget_live lv', forget_memo m').
Proof.
  induction lv as [|[si mi] lv IH]; intros m lv' m' Hd Hm; cbn [materialize] in Hm.
  { by simplify_eq. }
  destruct (Nat.ltb_spec si n) as [Hlt|Hge].
  - simplify_eq. assert (Hall : Forall (fun e => (e.1 < n)%nat) (forget_live ((si, mi) :: lv))).
    { inversion Hd as [|? ? _ Hle]; subst. rewrite Forall_forall in Hle |- *. intros e He.
      unfold forget_live in He. apply list_elem_of_In, List.filter_In in He as [He _].
      apply list_elem_of_In, elem_of_cons in He as [->|He]; [done|]. specialize (Hle _ He). cbn in Hle. lia. }
    destruct (forget_live ((si, mi) :: lv)) as [|[si' mi'] lv'']; [done|]. cbn [materialize].
    apply Forall_cons in Hall as [Hlt' _]. cbn in Hlt'. by destruct (Nat.ltb_spec si' n); [|lia].
  - destruct (stack_at st si) as [v|] eqn:Ev; [|done]. cbn [mbind option_bind] in Hm.
    destruct (Nat.ltb_spec mi (length m)); [|done].
    assert (Hd' : descending lv) by (by inversion Hd). apply IH in Hm; [|done].
    rewrite forget_insert in Hm. unfold forget_live at 1. cbn [List.filter snd].
    destruct (tracked mi); [|done]. cbn [materialize].
    destruct (Nat.ltb_spec si n); [lia|]. rewrite Ev. cbn [mbind option_bind].
    rewrite length_forget. by destruct (Nat.ltb_spec mi (length m)); [|lia].
Qed.

(** ** Operations on the stack and the memo, from a state of the invariant *)

(** The run from [s] is simulated and ends with the tracking kept off. *)
Definition sim {A} (m : R A) (s : Reader) : Prop :=
  same m s /\ forall a s', m s = Ok (a, s') -> referenced s' = None.

Lemma sim_blind {A} (m : R A) s : blind m -> referenced s = None -> sim m s.
Proof. intros Hb Hn. destruct (Hb s) as [Hs Hr]. split; [done|]. intros a s' Hm. by rewrite (Hr _ _ Hm). Qed.

Lemma sim_bind {A B} (m : R A) (k : A -> R B) s Q :
  run m s Q -> sim m s ->
  (forall a s', Q a s' -> referenced s' = None -> sim (k a) s') -> sim (m ≫= k) s.
Proof.
  intros Hrun [Hs Hr] Hk. unfold sim, same, mbind, R_bind, run in *. rewrite Hs.
  destruct (m s) as [[a s1]|e]; [|done]. apply Hk; [done|]. exact (Hr _ _ eq_refl).
Qed.

Lemma sim_materialize n s : inv s -> referenced s = None -> sim (materialize_above n) s.
Proof.
  intros [Hb Hst Hm Hl] Hn. unfold sim, same, materialize_above.
  destruct (materialize_ok (allowlist s) (stack s) n (live s) (memo s) Hl Hst Hm) as (lv & m & E & _).
  rewrite E. cbn [forget stack live memo].
  rewrite (materialize_forget _ _ _ _ _ _ (live_down _ _ _ Hl) E).
  split; [done|]. by intros ? ? [= <- <-].
Qed.

Lemma run_any {A} (m : R A) s : run m s (fun _ _ => True) -> run m s (fun _ _ => True).
Proof. done. Qed.

Lemma run_materialize n s : inv s -> run (materialize_above n) s (fun _ _ => True).
Proof.
  intros [Hb Hst Hm Hl]. unfold run, materialize_above.
  by destruct (materialize_ok (allowlist s) (stack s) n (live s) (memo s) Hl Hst Hm) as (lv & m & -> & _).
Qed.

Lemma sim_put f s :
  f (forget s) = forget (f s) -> referenced (f s) = None -> sim (put f) s.
Proof. intros Hf Hr. split; [unfold same, put; by rewrite Hf|]. by intros ? ? [= <- <-]. Qed.

(** Copying out, then shrinking. *)
Lemma sim_shrink {A} n (a : A) st s :
  inv s -> referenced s = None ->
  sim (_ ← materialize_above n; _ ← put (set_stack st); mret a) s.
Proof.
  intros Hinv Hn. eapply sim_bind; [by apply run_materialize|by apply sim_materialize|].
  intros [] s' _ Hr. apply sim_blind; [|done].
  apply blind_bind; [apply blind_put; by split|intros; apply blind_ret].
Qed.

(** Reading the state itself. *)
Lemma sim_state {A} (k : Reader -> R A) (m : R A) s :
  k s s = m s -> k (forget s) (forget s) = m (forget s) -> sim m s -> sim (get_ id ≫= k) s.
Proof.
  intros Hk Hf [Hs Hr]. unfold sim, same, mbind, R_bind, get_, id in *. rewrite Hk, Hf. done.
Qed.

Lemma sim_fail {A} e s : sim (fail (A := A) e) s.
Proof. done. Qed.

Lemma sim_pop op s : inv s -> referenced s = None -> sim (pop op) s.
Proof.
  intros Hinv Hn. unfold pop.
  assert (Hgo : forall (v : PyObj) st, sim (_ ← materialize_above (length st); _ ← put (set_stack st); mret v) s)
    by (intros; by apply sim_shrink).
  destruct (marks s) as [|m ms] eqn:Em, (stack s) as [|v st] eqn:Est.
  - apply (sim_state _ (fail (StackUnderflow (pos s) op))); cbn [forget marks stack pos];
      rewrite ?Em, ?Est; done.
  - eapply sim_state; [| |apply (Hgo v st)]; cbn [forget marks stack]; by rewrite Em, Est.
  - apply (sim_state _ (fail (StackUnderflow (pos s) op))); cbn [forget marks stack pos];
      rewrite ?Em, ?Est; done.
  - destruct (length (v :: st) <=? m)%nat eqn:El.
    + apply (sim_state _ (fail (StackUnderflow (pos s) op))); cbn [forget marks stack pos];
        rewrite ?Em, ?Est, ?El; done.
    + eapply sim_state; [| |apply (Hgo v st)]; cbn [forget marks stack]; by rewrite Em, Est, El.
Qed.

Lemma sim_pop_to_mark op s : inv s -> referenced s = None -> sim (pop_to_mark op) s.
Proof.
  intros Hinv Hn. unfold pop_to_mark. destruct (marks s) as [|m ms] eqn:Em.
  { apply (sim_state _ (fail (NoMark (pos s) op))); cbn [forget marks pos]; by rewrite ?Em. }
  eapply (sim_state _ (_ ← put (set_marks ms);
      if (length (stack s) <? m)%nat then fail (StackUnderflow (pos s) op)
      else _ ← materialize_above m;
           _ ← put (set_stack (drop (length (stack s) - m) (stack s)));
           mret (rev (take (length (stack s) - m) (stack s)))));
    [cbn [forget marks stack pos]; by rewrite Em..|].
  apply (sim_bind _ _ _ (fun _ s' => inv s')).
  - apply run_put. by destruct Hinv.
  - by apply sim_put.
  - intros [] s' Hi Hr. destruct (_ <? _)%nat; [done|]. by apply sim_shrink.
Qed.

Lemma sim_memo_get i s :
  referenced s = None -> 0 <= i -> tracked (Z.to_nat i) = true -> sim (memo_get i) s.
Proof.
  intros Hn Hi Ht. split.
  - unfold same, memo_get. cbn [forget memo pos stack]. unfold zlen. rewrite length_forget.
    destruct (_ <=? _); [done|]. rewrite lookup_forget, Ht.
    destruct (memo s !! Z.to_nat i) as [[v|idx|]|]; try done. cbn. by destruct (stack_at _ _).
  - intros v s' Hm. unfold memo_get in Hm. case_hyp Hm; done.
Qed.

Lemma sim_memoize at_ s : referenced s = None -> sim (memoize at_) s.
Proof.
  intros Hn. unfold memoize. destruct (stack s) as [|top st] eqn:Est.
  { apply (sim_state _ (fail (StackUnderflow at_ "MEMOIZE"))); cbn [forget stack]; by rewrite ?Est. }
  assert (Hyes : is_referenced s (length (memo s)) = true) by (unfold is_referenced; by rewrite Hn).
  set (lv := match top with
             | PList _ | PDict _ | PSet _ => [((length (stack s) - 1)%nat, length (memo s))]
             | _ => [] end).
  set (x := match top with
            | PList _ | PDict _ | PSet _ => Live (length (stack s) - 1)
            | _ => Value top end).
  assert (Hs : forall s0, stack s0 = stack s -> length (memo s0) = length (memo s) ->
    (match stack s0 with
     | [] => fail (StackUnderflow at_ "MEMOIZE")
     | top :: _ =>
         let idx := (length (stack s0) - 1)%nat in
         let memo_idx := length (memo s0) in
         if negb (is_referenced s0 memo_idx) then put (set_memo (memo s0 ++ [Unreferenced]) (live s0))
         else match top with
              | PList _ | PDict _ | PSet _ =>
                  put (set_memo (memo s0 ++ [Live idx]) ((idx, memo_idx) :: live s0))
              | _ => put (set_memo (memo s0 ++ [Value top]) (live s0))
              end
     end) s0 =
    put (fun s => if is_referenced s (length (memo s)) then set_memo (memo s ++ [x]) (lv ++ live s) s
                  else set_memo (memo s ++ [Unreferenced]) (live s) s) s0).
  { intros s0 Hst Hm. rewrite Hst, Est. unfold x, lv. rewrite Est, <- Hm. cbv zeta. unfold put.
    destruct (is_referenced s0 (length (memo s0))); [|done]. by destruct top. }
  eapply sim_state; [by apply Hs|apply Hs; [done|apply length_forget]|].
  apply sim_put; [|by rewrite Hyes]. rewrite Hyes. cbn [forget memo live].
  rewrite length_forget. change (is_referenced (forget s) (length (memo s))) with (tracked (length (memo s))).
  unfold forget, set_memo. cbn [pos rest stack marks memo live referenced allowlist objects].
  rewrite forget_snoc. unfold x, lv. by destruct (tracked (length (memo s))) eqn:Et, top; cbn; rewrite ?Et.
Qed.

(** ** The arms *)

Lemma blind_push_last v : blind (_ ← push v; mret (A := option PyObj) None).
Proof. apply blind_bind; [apply blind_push|intros; apply blind_ret]. Qed.

Lemma blind_update_last at_ op ex f : blind (_ ← update_top at_ op ex f; mret (A := option PyObj) None).
Proof. apply blind_bind; [apply blind_update|intros; apply blind_ret]. Qed.

Lemma sim_pop_next {B} op (k : PyObj -> R B) s :
  inv s -> referenced s = None ->
  (forall v s', inv s' -> referenced s' = None -> sim (k v) s') -> sim (pop op ≫= k) s.
Proof.
  intros Hinv Hn Hk. eapply sim_bind; [by apply run_pop|by apply sim_pop|].
  intros v s' [Ha _] Hr. apply Hk; [by eapply after_inv|done].
Qed.

Lemma sim_mark_next {B} op (k : list PyObj -> R B) s :
  inv s -> referenced s = None ->
  (forall l s', inv s' -> referenced s' = None -> sim (k l) s') -> sim (pop_to_mark op ≫= k) s.
Proof.
  intros Hinv Hn Hk. eapply sim_bind; [by apply run_pop_to_mark|by apply sim_pop_to_mark|].
  intros l s' [Ha _] Hr. apply Hk; [by eapply after_inv|done].
Qed.

(** The last steps of an arm, after its pops. *)
Ltac sim_arm :=
  repeat first
    [ apply sim_pop_next; [done..|intros ? ? ? ?]
    | apply sim_mark_next; [done..|intros ? ? ? ?]
    | apply sim_blind; [first [apply blind_push_last | apply blind_update_last]|done] ].

Lemma sim_return {A} (m : R unit) (a : A) s : sim m s -> sim (_ ← m; mret a) s.
Proof.
  intros [Hs Hr]. unfold sim, same, mbind, R_bind in *. rewrite Hs.
  destruct (m s) as [[[] s']|]; [|done]. split; [done|]. intros ? ? [= <- <-]. exact (Hr _ _ eq_refl).
Qed.

Lemma sim_construct at_ op s : inv s -> referenced s = None -> sim (construct at_ op) s.
Proof.
  intros Hinv Hn. unfold construct. sim_arm.
  destruct v; try done. destruct v0; try done. apply sim_blind; [apply blind_push|done].
Qed.

Lemma sim_stack_global at_ s : inv s -> referenced s = None -> sim (stack_global at_) s.
Proof.
  intros Hinv Hn. unfold stack_global. sim_arm. destruct v0; try done. destruct v; try done.
  apply sim_blind; [|done]. blind.
Qed.

Lemma sim_exec at_ i s :
  inv s -> referenced s = None ->
  (forall v, i = IGet v -> 0 <= v /\ tracked (Z.to_nat v) = true) -> sim (exec at_ i) s.
Proof.
  intros Hinv Hn Hget. destruct i as [v| |o|v|o]; cbn [exec].
  - destruct (_ && _); [by apply sim_blind; [apply blind_ret|]|done].
  - by apply sim_blind; [apply blind_ret|].
  - apply sim_blind; [apply blind_push_last|done].
  - destruct (Hget v eq_refl) as [Hv Ht]. eapply sim_bind; [by apply run_memo_get|by apply sim_memo_get|].
    intros o s' [-> _] Hr. apply sim_blind; [apply blind_push_last|done].
  - assert (Hstop : sim (st ← get_ stack; match st with [v] => mret (Some v) | _ => fail (UnbalancedStack (zlen st)) end) s).
    { apply sim_blind; [|done]. blind. }
    destruct o; try exact Hstop; clear Hstop; try by sim_arm.
    + apply sim_return. by apply sim_put.
    + sim_arm. destruct (Nat.odd _); [done|]. by sim_arm.
    + by apply sim_return, sim_construct.
    + by apply sim_return, sim_construct.
    + by apply sim_return, sim_stack_global.
    + by apply sim_return, sim_memoize.
Qed.

(** ** The loop *)

Lemma scan_step_grows o l acc acc' l' : scan_step o l acc = Some (acc', l') -> acc ⊆ acc'.
Proof.
  destruct o; cbn [scan_step]; intros Hs; try (simplify_eq; set_solver);
    repeat match type of Hs with
    | (?m ≫= _) = Some _ => let E := fresh "E" in
        destruct m as [[]|] eqn:E || destruct m eqn:E; cbn [mbind option_bind] in Hs; try done
    end; simplify_eq; set_solver.
Qed.

Lemma scan_go_grows fuel : forall l acc out, scan_go fuel l acc = Some out -> acc ⊆ out.
Proof.
  induction fuel as [|fuel IH]; intros [|b l] acc out Hs; cbn [scan_go] in Hs; simplify_eq; [done..|].
  destruct (opcode_of b) as [o|]; [|done]. cbn [mbind option_bind] in Hs.
  destruct (scan_step o l acc) as [[acc' l']|] eqn:E; [|done]. cbn [mbind option_bind] in Hs.
  apply scan_step_grows in E. apply IH in Hs. set_solver.
Qed.

Lemma sim_decode fuel : forall s n acc,
  inv s -> referenced s = None -> scan_go n (rest s) acc = Some refs -> sim (decode_loop fuel) s.
Proof.
  induction fuel as [|fuel IH]; intros s n acc Hinv Hn Hgo; [done|]. cbn [decode_loop].
  apply (sim_bind _ _ _ (fun _ s' => s' = s)); [done|apply sim_blind; [by apply blind_get|done]|].
  intros at_ ? -> _. eapply sim_bind; [apply (run_fetch s (allowlist s) Hinv)|by apply sim_blind; [apply blind_fetch|]|].
  intros i s1 (Hr & Hi & Hag & Hlen) Hn1. assert (Hinv1 : inv s1) by by eapply read_inv.
  assert (Hscan : exists m acc', scan_go m (rest s1) acc' = Some refs /\ forall v, i = IGet v -> v ∈ acc').
  { destruct n as [|n]; [destruct (rest s); [cbn in Hlen; lia|done]|].
    destruct (Hag _ _ _ Hgo) as (acc' & ? & ?). by exists n, acc'. }
  destruct Hscan as (m & acc' & Hgo1 & Hmem).
  assert (Hi1 : instr_ok (allowlist s1) i) by (destruct Hr as (? & ? & -> & _); done).
  eapply sim_bind; [by apply run_exec| |].
  - apply sim_exec; [done..|]. intros v ->. cbn in Hi. unfold is_u32 in Hi. split; [lia|].
    apply bool_decide_eq_true. rewrite Z2Nat.id, wrap32_id by (unfold is_u32; lia).
    apply (scan_go_grows _ _ _ _ Hgo1), Hmem. done.
  - intros x s2 [(Hinv2 & Hrest & _) _] Hn2. destruct x; [by apply sim_blind; [apply blind_ret|]|].
    eapply IH; [done..|]. by rewrite Hrest.
Qed.
End scan.

(** The pre-scan that lets the machine skip memo entries costs nothing in
    meaning: on every stream the machine with it and the machine that tracks
    every entry give the same value, or the same error at the same offset. *)
Theorem scan_changes_nothing (buf : list Z) (a : Allowlist) :
  Forall is_u8 buf -> from_slice buf a = decode (reader_tracking buf a).
Proof.
  intros Hb. unfold from_slice, reader_new. destruct (scan_memo_refs buf) as [refs|] eqn:E; [|done].
  assert (Hinv : inv (reader_tracking buf a)) by apply (new_inv buf a None Hb).
  destruct (sim_decode refs (S (length buf)) (reader_tracking buf a) _ _ Hinv eq_refl E) as [Hs _].
  change (mkReader 0 buf [] [] [] [] (Some refs) a 0) with (forget refs (reader_tracking buf a)).
  unfold same in Hs. unfold decode. change (rest (forget refs (reader_tracking buf a))) with buf.
  change (rest (reader_tracking buf a)) with buf. rewrite Hs.
  by destruct (decode_loop (S (length buf)) (reader_tracking buf a)) as [[v s']|].
Qed.

(** A list fetched back after it was filled, and an entry never fetched. *)
Lemma scan_changes_nothing_witness :
  from_slice [0x80; 4; 93; 0x94; 40; 75; 1; 0x94; 101; 104; 0; 0x86; 46] archipelago =
    Ok (PTuple [PList [PInt 1]; PList [PInt 1]]) /\
  from_slice [0x80; 4; 93; 0x94; 40; 75; 1; 0x94; 101; 104; 0; 0x86; 46] archipelago =
    decode (reader_tracking [0x80; 4; 93; 0x94; 40; 75; 1; 0x94; 101; 104; 0; 0x86; 46] archipelago).
Proof.
  split; [vm_compute; reflexivity|]. apply scan_changes_nothing.
  repeat constructor; unfold is_u8; lia.
Defined.
