(* ===== verification/ReaderRoundTrip.v ===== *)
(** * What the reference encoder writes, the pickle machine reads back

    The encoder is this development's own: protocol 4, no memo, one opcode
    sequence per constructor, as CPython's pickler would choose them for a
    value without sharing.  The round trip shows that the machine accepts and
    means every value of the type, up to its object budget. *)

From Stdlib Require Import ZArith Lia Bool Ascii Sorting.
From stdpp Require Import base tactics list sets gmap strings pretty.
From S2P Require Import Prelude PyObj Reader ReaderTheorems ReaderScan.

(** ** Two's complement *)

Definition twos_enc (n : nat) (v : Z) : list Z := le_bytes n (v mod 256 ^ Z.of_nat n).

Lemma twos_val_enc n v :
  - (128 * 256 ^ Z.of_nat n) <= v < 128 * 256 ^ Z.of_nat n ->
  twos_val (twos_enc (S n) v) = v.
Proof.
  intros Hv. set (w := 256 ^ Z.of_nat n) in *.
  assert (Hw : 0 < w) by (apply Z.pow_pos_nonneg; lia).
  assert (HW : 256 ^ Z.of_nat (S n) = 256 * w) by (rewrite Nat2Z.inj_succ, Z.pow_succ_r by lia; done).
  unfold twos_enc. set (x := v mod 256 ^ Z.of_nat (S n)).
  assert (Hx : 0 <= x < 256 * w) by (unfold x; rewrite HW; apply Z.mod_pos_bound; lia).
  assert (Hlen := length_le_bytes (S n) x). assert (Hu := le_bytes_u8 (S n) x).
  assert (Hval : le_val (le_bytes (S n) x) = x) by (apply le_val_bytes; rewrite HW; lia).
  unfold twos_val. destruct (last (le_bytes (S n) x)) as [top|] eqn:Hl.
  2: { apply last_None in Hl. rewrite Hl in Hlen. done. }
  apply last_Some in Hl as [l' Hl]. rewrite Hl in Hlen, Hu, Hval |- *.
  apply Forall_app in Hu as [Hu' Htop]. rewrite length_app in Hlen. cbn in Hlen.
  assert (Hn : length l' = n) by lia. rewrite le_val_app, Hn in Hval. fold w in Hval. cbn [le_val] in Hval.
  pose proof (le_val_bound l' Hu') as Hb. rewrite Hn in Hb. fold w in Hb.
  rewrite length_app, Hn, le_val_app, Hn. fold w. cbn [le_val length].
  replace (n + 1)%nat with (S n) by lia. rewrite HW.
  assert (Hmod : x = if v <? 0 then v + 256 * w else v).
  { unfold x. rewrite HW. destruct (Z.ltb_spec v 0).
    - symmetry. apply Z.mod_unique_pos with (-1); lia.
    - apply Z.mod_small. lia. }
  destruct (Z.leb_spec 128 top), (Z.ltb_spec v 0); nia.
Qed.

(** A normalized integer is the only one with its value. *)
Lemma val_inj b l1 : forall l2,
  1 < b -> Forall (fun x => 0 <= x < b) l1 -> Forall (fun x => 0 <= x < b) l2 ->
  last l1 <> Some 0 -> last l2 <> Some 0 -> val b l1 = val b l2 -> l1 = l2.
Proof.
  induction l1 as [|x l1 IH]; intros [|y l2] Hb H1 H2 Hl1 Hl2 Hv; [done| | |].
  - pose proof (val_pos b (y :: l2) Hb H2 ltac:(done) Hl2). change (val b []) with 0 in Hv. lia.
  - pose proof (val_pos b (x :: l1) Hb H1 ltac:(done) Hl1). change (val b []) with 0 in Hv. lia.
  - apply Forall_cons in H1 as [Hx H1]. apply Forall_cons in H2 as [Hy H2]. cbn [val] in Hv.
    pose proof (val_bound b l1 Hb H1). pose proof (val_bound b l2 Hb H2).
    assert (Hv' : val b l1 = val b l2) by nia. assert (x = y) as -> by nia.
    f_equal. apply IH; try done.
    + intros Hc. apply Hl1. destruct l1; [done|]. exact Hc.
    + intros Hc. apply Hl2. destruct l2; [done|]. exact Hc.
Qed.

Lemma big_val_inj b1 b2 : big_wf b1 -> big_wf b2 -> big_val b1 = big_val b2 -> b1 = b2.
Proof.
  destruct b1 as [n1 m1], b2 as [n2 m2]. intros (H1 & L1 & Z1) (H2 & L2 & Z2) Hv.
  unfold big_val in Hv. cbn [negative magnitude] in *.
  pose proof (val_bound (2 ^ 32) m1 ltac:(lia) H1). pose proof (val_bound (2 ^ 32) m2 ltac:(lia) H2).
  assert (Hm : val (2 ^ 32) m1 = val (2 ^ 32) m2 -> m1 = m2) by (apply val_inj; done || lia).
  destruct m1 as [|x1 m1], m2 as [|x2 m2].
  - by rewrite Z1, Z2.
  - pose proof (val_pos (2 ^ 32) (x2 :: m2) ltac:(lia) H2 ltac:(done) L2).
    change (val (2 ^ 32) []) with 0 in Hv. destruct n1, n2; lia.
  - pose proof (val_pos (2 ^ 32) (x1 :: m1) ltac:(lia) H1 ltac:(done) L1).
    change (val (2 ^ 32) []) with 0 in Hv. destruct n1, n2; lia.
  - pose proof (val_pos (2 ^ 32) (x2 :: m2) ltac:(lia) H2 ltac:(done) L2).
    pose proof (val_pos (2 ^ 32) (x1 :: m1) ltac:(lia) H1 ltac:(done) L1).
    assert (n1 = n2 /\ val (2 ^ 32) (x1 :: m1) = val (2 ^ 32) (x2 :: m2)) as [-> Hv'] by (destruct n1, n2; lia).
    by rewrite Hm.
Qed.

Lemma long_int n v :
  - (128 * 256 ^ Z.of_nat n) <= v < 128 * 256 ^ Z.of_nat n -> is_i64 v ->
  long_from_le (twos_enc (S n) v) = PInt v.
Proof.
  intros Hv H64. destruct (decode_correct (twos_enc (S n) v)) as [Hwf Hval]; [apply le_bytes_u8|].
  rewrite twos_val_enc in Hval by done. unfold long_from_le. rewrite narrow_correct, Hval by done.
  unfold i64_min, i64_max, is_i64 in *.
  destruct (Z.leb_spec (-9223372036854775808) v), (Z.leb_spec v 9223372036854775807); done || lia.
Qed.

Lemma long_big n b :
  big_wf b -> to_i64 b = None ->
  - (128 * 256 ^ Z.of_nat n) <= big_val b < 128 * 256 ^ Z.of_nat n ->
  long_from_le (twos_enc (S n) (big_val b)) = PBig b.
Proof.
  intros Hb Hn Hv. destruct (decode_correct (twos_enc (S n) (big_val b))) as [Hwf Hval]; [apply le_bytes_u8|].
  rewrite twos_val_enc in Hval by done. unfold long_from_le.
  by rewrite (big_val_inj _ b Hwf Hb Hval), Hn.
Qed.

(** ** The encoder *)

Definition enc_str (s : string) : list Z :=
  op_code BINUNICODE :: le_bytes 4 (zlen (bytes_of_string s)) ++ bytes_of_string s.

Definition enc_int (i : Z) : list Z :=
  if (- 2 ^ 31 <=? i) && (i <? 2 ^ 31) then op_code BININT :: twos_enc 4 i
  else op_code LONG1 :: 8 :: twos_enc 8 i.

(** Bytes enough for the limbs and a sign bit. *)
Definition big_bytes (b : BigInt) : nat := S (4 * length (magnitude b)).

Definition enc_class (c : ClassId) : list Z :=
  enc_str (module c) ++ enc_str (cname c) ++ [op_code STACK_GLOBAL].

Fixpoint enc (o : PyObj) : list Z :=
  match o with
  | PNone => [op_code NONE]
  | PBool b => [op_code (if b then NEWTRUE else NEWFALSE)]
  | PInt i => enc_int i
  | PBig b => op_code LONG1 :: Z.of_nat (big_bytes b) :: twos_enc (big_bytes b) (big_val b)
  | PFloat f => op_code BINFLOAT :: be_bytes 8 f
  | PStr s => enc_str s
  | PList l => [op_code EMPTY_LIST; op_code MARK] ++ concat (enc <$> l) ++ [op_code APPENDS]
  | PTuple l => [op_code MARK] ++ concat (enc <$> l) ++ [op_code TUPLE]
  | PSet l => [op_code EMPTY_SET; op_code MARK] ++ concat (enc <$> l) ++ [op_code ADDITEMS]
  | PDict d => [op_code EMPTY_DICT; op_code MARK] ++
               concat ((fun kv => enc kv.1 ++ enc kv.2) <$> d) ++ [op_code SETITEMS]
  | PGlobal c => enc_class c
  | PInstance c l => enc_class c ++ ([op_code MARK] ++ concat (enc <$> l) ++ [op_code TUPLE]) ++
                     [op_code NEWOBJ]
  end.

(** A whole stream. *)
Definition dumps (o : PyObj) : list Z := [op_code PROTO; 4] ++ enc o ++ [op_code STOP].

(** How many objects the machine pushes for a value. *)
Fixpoint cost (o : PyObj) : Z :=
  match o with
  | PList l | PTuple l | PSet l => 1 + foldr Z.add 0 (cost <$> l)
  | PDict d => 1 + foldr Z.add 0 ((fun kv => cost kv.1 + cost kv.2) <$> d)
  | PGlobal _ => 3
  | PInstance _ l => 5 + foldr Z.add 0 (cost <$> l)
  | _ => 1
  end.

(** The length prefixes reach. *)
Definition str_fits (s : string) : bool := zlen (bytes_of_string s) <? 2 ^ 32.
Definition class_fits (c : ClassId) : bool := str_fits (module c) && str_fits (cname c).

Fixpoint encodable (o : PyObj) : bool :=
  match o with
  | PStr s => str_fits s
  | PBig b => (length (magnitude b) <=? 63)%nat
  | PList l | PTuple l | PSet l => forallb encodable l
  | PDict d => forallb (fun kv => encodable kv.1 && encodable kv.2) d
  | PGlobal c => class_fits c && utf8_string (module c) && utf8_string (cname c)
  | PInstance c l => class_fits c && utf8_string (module c) && utf8_string (cname c) && forallb encodable l
  | _ => true
  end.

(** ** Symbolic execution *)

Definition one (s s' : Reader) : Prop :=
  exists i s1, fetch s = Ok (i, s1) /\ exec (pos s) i s1 = Ok (None, s').

Lemma fuel_mono f k s r :
  decode_loop f s = r -> r <> Err OutOfFuel -> decode_loop (f + k) s = r.
Proof.
  revert s. induction f as [|f IH]; intros s Hr Hne; [by subst|].
  cbn [decode_loop Nat.add] in *. unfold mbind, R_bind, get_ in *.
  destruct (fetch s) as [[i s1]|e]; [|done]. destruct (exec _ i s1) as [[[v|] s2]|e]; [done| |done].
  by apply IH.
Qed.

Lemma rtc_decode s s' : rtc one s s' -> forall f r,
  decode_loop f s' = r -> exists f', decode_loop f' s = r.
Proof.
  induction 1 as [|s s1 s' (i & s0 & Hf & He) _ IH]; intros f r Hr; [by exists f|].
  destruct (IH f r Hr) as [f' Hf']. exists (S f'). cbn [decode_loop].
  unfold mbind, R_bind, get_ in *. by rewrite Hf, He.
Qed.

(** A derivation to a final state gives the machine's answer. *)
Lemma rtc_result s s' v :
  inv s -> rtc one s s' -> rest s' = [op_code STOP] -> stack s' = [v] -> decode s = Ok v.
Proof.
  intros Hinv Hrtc Hrest Hst.
  assert (Hfin : exists s2, decode_loop 1 s' = Ok (v, s2)).
  { cbn [decode_loop]. unfold mbind, R_bind, get_, fetch, u8, take_, need.
    unfold mbind, R_bind, get_, put. rewrite Hrest. cbn.
    destruct s' as [p l st mk m lv rf al ob]. cbn in *. subst. by eexists. }
  destruct Hfin as [s2 Hfin]. destruct (rtc_decode _ _ Hrtc _ _ Hfin) as [f Hf].
  assert (Hrun := run_decode (S (length (rest s))) s Hinv ltac:(lia)). unfold run in Hrun. unfold decode.
  destruct (decode_loop (S (length (rest s))) s) as [[v' s3]|e] eqn:E.
  - apply (fuel_mono _ f) in E; [|done]. apply (fuel_mono _ (S (length (rest s)))) in Hf; [|done].
    rewrite Nat.add_comm in Hf. congruence.
  - destruct Hrun as [_ Hne]. apply (fuel_mono _ f) in E; [|congruence].
    apply (fuel_mono _ (S (length (rest s)))) in Hf; [|done]. rewrite Nat.add_comm in Hf. congruence.
Qed.

Lemma opcode_of_code o : opcode_of (op_code o) = Some o.
Proof. by destruct o. Qed.

Lemma take_app n l1 l2 s :
  rest s = l1 ++ l2 -> zlen l1 = n -> take_ n s = Ok (l1, set_input (pos s + n) l2 s).
Proof.
  intros Hr <-. unfold take_, need, mbind, R_bind, get_, put. rewrite Hr. unfold zlen.
  destruct (Z.ltb_spec (Z.of_nat (length (l1 ++ l2))) (Z.of_nat (length l1))) as [Hlt|_];
    [rewrite length_app in Hlt; lia|].
  unfold mret, R_ret. rewrite Hr, Nat2Z.id, take_app_length, drop_app_length. done.
Qed.

Lemma u8_cons b l s : rest s = b :: l -> u8 s = Ok (b, set_input (pos s + 1) l s).
Proof.
  intros Hr. unfold u8, mbind, R_bind. rewrite (take_app 1 [b] l s Hr ltac:(done)).
  unfold mret, R_ret. cbn [le_val]. do 3 f_equal. lia.
Qed.

Lemma fetch_op o l s :
  rest s = op_code o :: l -> fetch s = fetch_operand o (set_input (pos s + 1) l s).
Proof.
  intros Hr. unfold fetch, mbind, R_bind at 1 2, get_. rewrite (u8_cons _ _ _ Hr).
  by rewrite opcode_of_code.
Qed.

(** ** Derivations of encoded values *)

Section emits.
Variables (refs : option (gset Z)) (a : Allowlist) (m : list MemoSlot).

(** A state in which no container is tracked. *)
Definition plain (p : Z) (l : list Z) (st : list PyObj) (mk : list nat) (n : Z) : Reader :=
  mkReader p l st mk m [] refs a n.

(** Reading [bs] turns the stack [st] into [st'] and pushes [k] objects. *)
Definition emits (bs : list Z) (st st' : list PyObj) (mk mk' : list nat) (k : Z) : Prop :=
  forall l p n, n + k <= MAX_OBJECTS ->
    exists p', rtc one (plain p (bs ++ l) st mk n) (plain p' l st' mk' (n + k)).

Lemma emits_nil st mk : emits [] st st mk mk 0.
Proof. intros l p n Hn. exists p. rewrite Z.add_0_r. apply rtc_refl. Qed.

Lemma emits_app bs1 bs2 st st1 st2 mk mk1 mk2 k1 k2 :
  0 <= k2 -> emits bs1 st st1 mk mk1 k1 -> emits bs2 st1 st2 mk1 mk2 k2 ->
  emits (bs1 ++ bs2) st st2 mk mk2 (k1 + k2).
Proof.
  intros Hk H1 H2 l p n Hn. rewrite <- app_assoc.
  destruct (H1 (bs2 ++ l) p n ltac:(lia)) as [p1 Hr1].
  destruct (H2 l p1 (n + k1) ltac:(lia)) as [p2 Hr2]. exists p2.
  rewrite Z.add_assoc. by etrans.
Qed.

Lemma emits_one bs st st' mk mk' k :
  (forall l p n, n + k <= MAX_OBJECTS -> exists p', one (plain p (bs ++ l) st mk n) (plain p' l st' mk' (n + k))) ->
  emits bs st st' mk mk' k.
Proof. intros H l p n Hn. destruct (H l p n Hn) as [p' Ho]. exists p'. by apply rtc_once. Qed.

Lemma push_plain v p l st mk n :
  zlen st < MAX_DEPTH * 4096 -> n + 1 <= MAX_OBJECTS ->
  push v (plain p l st mk n) = Ok (tt, plain p l (v :: st) mk (n + 1)).
Proof.
  intros Hst Hn. unfold push, plain. cbn [stack objects].
  destruct (Z.leb_spec (MAX_DEPTH * 4096) (zlen st)); [lia|].
  by destruct (Z.ltb_spec MAX_OBJECTS (n + 1)); [lia|].
Qed.

Lemma emits_push bs st mk o :
  zlen st < MAX_DEPTH * 4096 ->
  (forall l p n, exists p', fetch (plain p (bs ++ l) st mk n) = Ok (IPush o, plain p' l st mk n)) ->
  emits bs st (o :: st) mk mk 1.
Proof.
  intros Hst Hf. apply emits_one. intros l p n Hn. destruct (Hf l p n) as [p' Hp]. exists p'.
  eexists _, _. split; [exact Hp|]. cbn [exec]. unfold mbind, R_bind. by rewrite push_plain.
Qed.

(** A fetched opcode of the machine proper. *)
Lemma emits_op o st st' mk mk' k :
  fetch_operand o = mret (IOp o) ->
  (forall at_ p l n, n + k <= MAX_OBJECTS ->
     exec at_ (IOp o) (plain p l st mk n) = Ok (None, plain p l st' mk' (n + k))) ->
  emits [op_code o] st st' mk mk' k.
Proof.
  intros Ho He. apply emits_one. intros l p n Hn. exists (p + 1). eexists _, _. split.
  - rewrite (fetch_op o l) by done. rewrite Ho. done.
  - by apply He.
Qed.

Lemma emits_const o v st mk :
  fetch_operand o = mret (IPush v) -> zlen st < MAX_DEPTH * 4096 -> emits [op_code o] st (v :: st) mk mk 1.
Proof.
  intros Ho Hst. apply emits_push; [done|]. intros l p n. exists (p + 1).
  rewrite (fetch_op o l) by done. by rewrite Ho.
Qed.

(** The top mark is below what an opcode pops. *)
Definition under (mk : list nat) (st : list PyObj) : Prop :=
  match mk with t :: _ => (t <= length st)%nat | [] => True end.

Lemma pop_plain {A} op v p l st mk n (k : PyObj -> R A) :
  under mk st -> (pop op ≫= k) (plain p l (v :: st) mk n) = k v (plain p l st mk n).
Proof.
  intros Hu. unfold pop, mbind, R_bind, get_, plain. cbn [id marks stack].
  destruct mk as [|t mk]; [done|]. cbn [under] in Hu.
  destruct (Nat.leb_spec (length (v :: st)) t) as [Hle|_]; [cbn in Hle; lia|done].
Qed.

Lemma pop_mark_plain {A} op items p l st mk n (k : list PyObj -> R A) :
  (pop_to_mark op ≫= k) (plain p l (rev items ++ st) (length st :: mk) n) =
  k items (plain p l st mk n).
Proof.
  unfold pop_to_mark, mbind, R_bind, get_, put, plain. cbn [id marks stack set_marks].
  destruct (Nat.ltb_spec (length (rev items ++ st)) (length st)) as [Hlt|_];
    [rewrite length_app in Hlt; lia|].
  cbn. rewrite length_app. replace (length (rev items) + length st - length st)%nat with (length (rev items)) by lia.
  by rewrite take_app_length, drop_app_length, rev_involutive.
Qed.

Lemma emits_mark st mk : emits [op_code MARK] st st mk (length st :: mk) 0.
Proof. apply emits_op; [done|]. intros. by rewrite Z.add_0_r. Qed.

(** The opcodes that consume a marked run of items. *)
Lemma emits_collect o items st mk v v' f :
  (o, f) = (APPENDS, extend_list items) \/ (o, f) = (ADDITEMS, extend_set items) \/
  ((o, f) = (SETITEMS, extend_dict (pairs_of items)) /\ Nat.odd (length items) = false) ->
  f v = Some v' ->
  emits [op_code o] (rev items ++ v :: st) (v' :: st) (length (v :: st) :: mk) mk 0.
Proof.
  intros Ho Hf. apply emits_op; [by destruct Ho as [[= -> ->]|[[= -> ->]|[[= -> ->] _]]]|].
  intros at_ p l n Hn. rewrite Z.add_0_r.
  destruct Ho as [[= -> ->]|[[= -> ->]|[[= -> ->] Hodd]]]; cbn [exec]; rewrite pop_mark_plain;
    rewrite ?Hodd; unfold update_top, mbind, R_bind, get_, plain; cbn [stack]; by rewrite Hf.
Qed.

Lemma emits_tuple items st mk :
  zlen st < MAX_DEPTH * 4096 ->
  emits [op_code TUPLE] (rev items ++ st) (PTuple items :: st) (length st :: mk) mk 1.
Proof.
  intros Hst. apply emits_op; [done|]. intros at_ p l n Hn. cbn [exec]. rewrite pop_mark_plain.
  unfold mbind, R_bind. by rewrite push_plain.
Qed.

(** *** Scalars *)

Lemma emits_str s st mk :
  zlen st < MAX_DEPTH * 4096 -> utf8_string s = true -> str_fits s = true ->
  emits (enc_str s) st (PStr s :: st) mk mk 1.
Proof.
  intros Hst Hu Hfit. apply emits_push; [done|]. intros l p n. unfold str_fits in Hfit. breflect.
  set (bs := bytes_of_string s) in *. eexists. unfold enc_str. fold bs.
  rewrite (fetch_op BINUNICODE (le_bytes 4 (zlen bs) ++ bs ++ l)) by (cbn [plain rest]; by rewrite app_comm_cons, app_assoc).
  cbn [fetch_operand]. unfold u32le, utf8, mbind, R_bind, get_.
  erewrite take_app; [|reflexivity|unfold zlen; by rewrite length_le_bytes]. unfold mret at 1, R_ret at 1.
  rewrite le_val_bytes by (unfold zlen in *; lia).
  erewrite take_app; [|reflexivity|done]. unfold utf8_string in Hu. fold bs in Hu. rewrite Hu.
  unfold mret, R_ret. unfold bs at 1. rewrite string_of_bytes_of. reflexivity.
Qed.

Lemma emits_int i st mk :
  zlen st < MAX_DEPTH * 4096 -> is_i64 i -> emits (enc_int i) st (PInt i :: st) mk mk 1.
Proof.
  intros Hst Hi. apply emits_push; [done|]. intros l p n. unfold enc_int.
  destruct (_ && _) eqn:Hsmall; eexists.
  - breflect. rewrite (fetch_op BININT (twos_enc 4 i ++ l)) by done.
    cbn [fetch_operand]. unfold i32le, mbind, R_bind.
    erewrite take_app; [|reflexivity|unfold zlen, twos_enc; by rewrite length_le_bytes].
    unfold mret, R_ret. unfold twos_enc. change (Z.of_nat 4) with 4. change (256 ^ 4) with (2 ^ 32).
    rewrite le_val_bytes by (apply (Z.mod_pos_bound i (2 ^ 32)); lia).
    replace (if i mod 2 ^ 32 <? 2 ^ 31 then i mod 2 ^ 32 else i mod 2 ^ 32 - 2 ^ 32) with i; [reflexivity|].
    destruct (Z.le_gt_cases 0 i).
    + rewrite Z.mod_small by lia. destruct (Z.ltb_spec i (2 ^ 31)); lia.
    + rewrite <- (Z.mod_unique_pos i (2 ^ 32) (-1) (i + 2 ^ 32)) by lia.
      destruct (Z.ltb_spec (i + 2 ^ 32) (2 ^ 31)); lia.
  - rewrite (fetch_op LONG1 (8 :: twos_enc 8 i ++ l)) by done.
    cbn [fetch_operand]. unfold mbind, R_bind. erewrite u8_cons by reflexivity.
    erewrite take_app; [|reflexivity|unfold zlen, twos_enc; by rewrite length_le_bytes].
    unfold mret, R_ret. rewrite long_int; [reflexivity|unfold is_i64 in Hi; lia|done].
Qed.

Lemma big_bytes_range b :
  big_wf b ->
  - (128 * 256 ^ Z.of_nat (4 * length (magnitude b))) <= big_val b <
    128 * 256 ^ Z.of_nat (4 * length (magnitude b)).
Proof.
  intros (Hf & _ & _). pose proof (val_bound (2 ^ 32) (magnitude b) ltac:(lia) Hf) as Hv.
  rewrite Nat2Z.inj_mul. change (Z.of_nat 4) with 4. rewrite Z.pow_mul_r by lia.
  change (256 ^ 4) with (2 ^ 32). unfold big_val. destruct (negative b); lia.
Qed.

Lemma emits_big b st mk :
  zlen st < MAX_DEPTH * 4096 -> big_wf b -> to_i64 b = None -> (length (magnitude b) <= 63)%nat ->
  emits (enc (PBig b)) st (PBig b :: st) mk mk 1.
Proof.
  intros Hst Hb Hn Hlen. apply emits_push; [done|]. intros l p n. eexists.
  rewrite (fetch_op LONG1 (Z.of_nat (big_bytes b) :: twos_enc (big_bytes b) (big_val b) ++ l)) by done.
  cbn [fetch_operand]. unfold mbind, R_bind. erewrite u8_cons by reflexivity.
  erewrite take_app; [|reflexivity|unfold zlen, twos_enc; by rewrite length_le_bytes].
  unfold mret, R_ret, big_bytes. rewrite long_big; [reflexivity|done|done|by apply big_bytes_range].
Qed.

Lemma emits_float f st mk :
  zlen st < MAX_DEPTH * 4096 -> is_u64 f -> emits (enc (PFloat f)) st (PFloat f :: st) mk mk 1.
Proof.
  intros Hst Hf. apply emits_push; [done|]. intros l p n. eexists.
  rewrite (fetch_op BINFLOAT (be_bytes 8 f ++ l)) by done. cbn [fetch_operand]. unfold mbind, R_bind.
  erewrite take_app; [|reflexivity|unfold zlen; by rewrite length_be_bytes].
  unfold mret, R_ret. rewrite be_val_bytes by (unfold is_u64 in Hf; done). reflexivity.
Qed.

(** *** Classes *)

Lemma emits_class c st mk :
  zlen st + 3 <= MAX_DEPTH * 4096 -> under mk st -> class_fits c = true ->
  utf8_string (module c) = true -> utf8_string (cname c) = true -> permits a c = true ->
  emits (enc_class c) st (PGlobal c :: st) mk mk 3.
Proof.
  intros Hst Hu Hfit Hm Hc Hp. unfold class_fits in Hfit. apply andb_true_iff in Hfit as [Hf1 Hf2].
  unfold enc_class. change 3 with (1 + (1 + 1)).
  eapply emits_app; [lia|apply (emits_str (module c)); [lia|done..]|].
  eapply emits_app; [lia|apply (emits_str (cname c)); [unfold zlen in *; cbn [length]; lia|done..]|].
  apply emits_op; [done|]. intros at_ p l n Hn. cbn [exec]. unfold stack_global.
  unfold mbind at 1, R_bind at 1.
  rewrite pop_plain by (destruct mk; cbn in *; lia). rewrite pop_plain by done.
  unfold mbind, R_bind, get_, plain. cbn [allowlist]. destruct c as [md nm]. cbn [module cname]. rewrite Hp.
  fold (plain p l st mk n). rewrite push_plain by lia. done.
Qed.

(** *** Containers *)

Definition STACK_LIMIT : Z := MAX_DEPTH * 4096.

(** The derivation of a value, wherever there is room for it. *)
Definition derives (o : PyObj) : Prop :=
  forall st mk, under mk st -> zlen st + cost o <= STACK_LIMIT -> emits (enc o) st (o :: st) mk mk (cost o).

Definition total (l : list PyObj) : Z := foldr Z.add 0 (cost <$> l).

Lemma cost_pos o : 1 <= cost o.
Proof.
  assert (Hsum : forall l, Forall (fun o => 1 <= cost o) l -> 0 <= foldr Z.add 0 (cost <$> l)).
  { induction 1; cbn; lia. }
  induction o as [| | | | | |l IH|l IH|d IH|l IH|c|c l IH] using PyObj_rect'; cbn [cost];
    try (specialize (Hsum _ IH); lia); try lia.
  assert (0 <= foldr Z.add 0 ((fun kv => cost kv.1 + cost kv.2) <$> d)); [|lia].
  clear Hsum. induction IH as [|[k v] d [Hk Hv] _ IHd]; cbn in *; lia.
Qed.

Lemma total_nonneg l : 0 <= total l.
Proof. unfold total. induction l as [|o l IH]; cbn; [lia|]. pose proof (cost_pos o). lia. Qed.

Lemma emits_items l : Forall derives l -> forall st mk,
  under mk st -> zlen st + total l <= STACK_LIMIT ->
  emits (concat (enc <$> l)) st (rev l ++ st) mk mk (total l).
Proof.
  induction 1 as [|o l Ho _ IH]; intros st mk Hu Hroom; [apply emits_nil|].
  change (total (o :: l)) with (cost o + total l) in *.
  pose proof (cost_pos o). pose proof (total_nonneg l).
  change (concat (enc <$> o :: l)) with (enc o ++ concat (enc <$> l)).
  eapply emits_app; [done|apply Ho; [done|lia]|]. cbn [rev]. rewrite <- app_assoc. cbn [app].
  apply IH; [destruct mk; cbn in *; lia|]. unfold zlen in *. cbn [length]. lia.
Qed.

(** The items between a mark and the opcode that collects them. *)
Lemma emits_marked l st mk tail st' k :
  Forall derives l -> zlen st + total l <= STACK_LIMIT -> 0 <= k ->
  emits tail (rev l ++ st) st' (length st :: mk) mk k ->
  emits ([op_code MARK] ++ concat (enc <$> l) ++ tail) st st' mk mk (total l + k).
Proof.
  intros Hl Hroom Hk Ht. pose proof (total_nonneg l).
  replace (total l + k) with (0 + (total l + k)) by lia.
  eapply emits_app; [lia|apply emits_mark|].
  eapply emits_app; [done|apply emits_items; [done|cbn; lia|done]|done].
Qed.

Lemma emits_container o0 o l st mk v v' f :
  fetch_operand o0 = mret (IPush v) ->
  (o, f) = (APPENDS, extend_list l) \/ (o, f) = (ADDITEMS, extend_set l) \/
  ((o, f) = (SETITEMS, extend_dict (pairs_of l)) /\ Nat.odd (length l) = false) ->
  f v = Some v' -> Forall derives l -> zlen st + (1 + total l) <= STACK_LIMIT ->
  emits ([op_code o0; op_code MARK] ++ concat (enc <$> l) ++ [op_code o]) st (v' :: st) mk mk (1 + total l).
Proof.
  intros Ho0 Ho Hf Hl Hroom. pose proof (total_nonneg l).
  change [op_code o0; op_code MARK] with ([op_code o0] ++ [op_code MARK]). rewrite <- app_assoc.
  eapply emits_app; [done|apply emits_const; [done|unfold STACK_LIMIT in *; lia]|].
  rewrite <- (Z.add_0_r (total l)). apply emits_marked; [done|unfold zlen in *; cbn [length]; lia|done|].
  by eapply emits_collect.
Qed.

Lemma emits_args l st mk :
  Forall derives l -> zlen st + (1 + total l) <= STACK_LIMIT ->
  emits ([op_code MARK] ++ concat (enc <$> l) ++ [op_code TUPLE]) st (PTuple l :: st) mk mk (1 + total l).
Proof.
  intros Hl Hroom. pose proof (total_nonneg l). rewrite (Z.add_comm 1).
  apply emits_marked; [done|lia|done|]. apply emits_tuple. unfold STACK_LIMIT in *. lia.
Qed.

(** A dict as the run of its keys and values. *)
Definition flat (d : list (PyObj * PyObj)) : list PyObj := concat ((fun kv => [kv.1; kv.2]) <$> d).

Lemma pairs_flat d : pairs_of (flat d) = d.
Proof. induction d as [|[k v] d IH]; [done|]. cbn. unfold flat in IH. by rewrite IH. Qed.

Lemma flat_even d : Nat.odd (length (flat d)) = false.
Proof. induction d as [|[k v] d IH]; [done|]. exact IH. Qed.

Lemma enc_flat d : concat ((fun kv => enc kv.1 ++ enc kv.2) <$> d) = concat (enc <$> flat d).
Proof. induction d as [|[k v] d IH]; [done|]. cbn. unfold flat in IH. by rewrite IH, <- app_assoc. Qed.

Lemma total_flat d : foldr Z.add 0 ((fun kv => cost kv.1 + cost kv.2) <$> d) = total (flat d).
Proof. unfold total. induction d as [|[k v] d IH]; [done|]. cbn. unfold flat in IH. rewrite IH. lia. Qed.

(** Each kind of value, given its items. *)
Lemma derives_all l :
  Forall (fun o => decoded a o -> encodable o = true -> derives o) l ->
  Forall (decoded a) l -> forallb encodable l = true -> Forall derives l.
Proof.
  induction 1 as [|o l Ho _ IH]; intros Hd He; [done|]. apply Forall_cons in Hd as [Hdo Hd].
  cbn in He. apply andb_true_iff in He as [Heo He]. constructor; auto.
Qed.

Lemma derives_instance c l :
  class_fits c && utf8_string (module c) && utf8_string (cname c) = true -> permits a c = true ->
  Forall derives l -> derives (PInstance c l).
Proof.
  intros Hc Hp Hl st mk Hu Hroom. apply andb_true_iff in Hc as [Hc Hn]. apply andb_true_iff in Hc as [Hf Hm].
  cbn [enc cost] in *. fold (total l) in *. pose proof (total_nonneg l).
  replace (5 + total l) with (3 + ((1 + total l) + 1)) by lia.
  eapply emits_app; [lia|apply emits_class; try done; unfold STACK_LIMIT in *; lia|].
  eapply emits_app; [lia|apply emits_args; [done|unfold zlen in *; cbn [length]; lia]|].
  apply emits_op; [done|]. intros at_ p tl n Hn'. cbn [exec]. unfold construct.
  unfold mbind at 1, R_bind at 1.
  rewrite pop_plain by (destruct mk; cbn in *; lia). rewrite pop_plain by done.
  rewrite push_plain by (unfold STACK_LIMIT in *; lia). done.
Qed.

Lemma enc_derives o : decoded a o -> encodable o = true -> derives o.
Proof.
  induction o as [|b|i|b|f|s|l IH|l IH|d IH|l IH|c|c l IH] using PyObj_rect'; intros Hd He st mk Hu Hroom;
    inversion Hd; subst; cbn [encodable] in He;
    assert (Hst : zlen st < MAX_DEPTH * 4096) by
      (pose proof (cost_pos PNone); unfold STACK_LIMIT in *; cbn [cost] in *;
       first [lia | fold (total l) in Hroom; pose proof (total_nonneg l); lia
             | rewrite total_flat in Hroom; pose proof (total_nonneg (flat d)); lia]).
  - by apply emits_const.
  - destruct b; by apply emits_const.
  - by apply emits_int.
  - apply Nat.leb_le in He. by apply emits_big.
  - by apply emits_float.
  - by apply emits_str.
  - eapply (emits_container EMPTY_LIST APPENDS); [done|by left|done|by apply derives_all|done].
  - apply emits_args; [by apply derives_all|done].
  - cbn [enc cost] in *. rewrite enc_flat, total_flat in *.
    eapply (emits_container EMPTY_DICT SETITEMS); [done|right; right; split; [done|apply flat_even]
      |cbn; by rewrite pairs_flat| |done].
    clear Hd Hroom. induction IH as [|[k v] d [Hk Hv] _ IHd]; [constructor|].
    cbn in He. apply andb_true_iff in He as [Hkv He]. apply andb_true_iff in Hkv as [Hek Hev].
    apply Forall_cons in H0 as [[Hdk Hdv] H0]. cbn. constructor; [by apply Hk|].
    constructor; [by apply Hv|]. by apply IHd.
  - eapply (emits_container EMPTY_SET ADDITEMS); [done|right; by left|done|by apply derives_all|done].
  - apply andb_true_iff in He as [He Hn]. apply andb_true_iff in He as [Hf Hm]. by apply emits_class.
  - apply andb_true_iff in He as [He Hl]. apply derives_instance; try done. by apply derives_all.
Qed.
End emits.

(** ** The round trip *)

Lemma op_u8 o : is_u8 (op_code o).
Proof. destruct o; unfold is_u8; cbn; lia. Qed.

Lemma enc_str_u8 s : Forall is_u8 (enc_str s).
Proof.
  constructor; [apply op_u8|]. apply Forall_app; split; [apply le_bytes_u8|apply bytes_of_string_u8].
Qed.

Lemma enc_class_u8 c : Forall is_u8 (enc_class c).
Proof.
  apply Forall_app; split; [apply enc_str_u8|]. apply Forall_app; split; [apply enc_str_u8|].
  repeat constructor; apply op_u8.
Qed.

Lemma concat_u8 (l : list (list Z)) : Forall (Forall is_u8) l -> Forall is_u8 (concat l).
Proof. induction 1; cbn; [constructor|]. by apply Forall_app. Qed.

Lemma items_u8 l :
  Forall (fun o => encodable o = true -> Forall is_u8 (enc o)) l -> forallb encodable l = true ->
  Forall is_u8 (concat (enc <$> l)).
Proof.
  intros IH He. apply concat_u8. induction IH as [|o l Ho _ IHl]; cbn in *; [constructor|].
  apply andb_true_iff in He as [Ho' He]. constructor; auto.
Qed.

Lemma be_bytes_u8 n x : Forall is_u8 (be_bytes n x).
Proof. apply Forall_rev, le_bytes_u8. Qed.

(** Bytes of an explicit concatenation, syntactically. *)
Ltac bytes :=
  repeat match goal with
  | |- Forall is_u8 [] => apply Forall_nil_2
  | |- Forall is_u8 (op_code _ :: _) => apply Forall_cons_2; [apply op_u8|]
  | |- Forall is_u8 (le_bytes _ _) => apply le_bytes_u8
  | |- Forall is_u8 (be_bytes _ _) => apply be_bytes_u8
  | |- Forall is_u8 (twos_enc _ _) => apply le_bytes_u8
  | |- Forall is_u8 (enc_str _) => apply enc_str_u8
  | |- Forall is_u8 (enc_class _) => apply enc_class_u8
  | |- Forall is_u8 (concat (enc <$> _)) => by apply items_u8
  | |- Forall is_u8 (_ ++ _) => apply Forall_app_2
  | |- Forall is_u8 (_ :: _) => apply Forall_cons_2; [unfold is_u8; lia|]
  end.

Lemma enc_u8 o : encodable o = true -> Forall is_u8 (enc o).
Proof.
  induction o as [|b|i|b|f|s|l IH|l IH|d IH|l IH|c|c l IH] using PyObj_rect'; intros He;
    cbn [enc encodable app] in *;
    try (apply andb_true_iff in He as [? ?]); try (by bytes).
  - unfold enc_int. destruct (_ && _); bytes.
  - apply Nat.leb_le in He. apply Forall_cons_2; [apply op_u8|].
    apply Forall_cons_2; [unfold is_u8, big_bytes; lia|apply le_bytes_u8].
  - bytes. apply concat_u8. induction IH as [|[k v] d [Hk Hv] _ IHd]; cbn in *; [constructor|].
    apply andb_true_iff in He as [Hkv He]. apply andb_true_iff in Hkv as [Hek Hev].
    constructor; [|by apply IHd]. apply Forall_app; auto.
Qed.

(** The machine reads back every value of the type: whatever well-formed
    value the reference encoder writes (every constructor, integers of any
    size its length byte can hold, any nesting), the machine decodes the stream
    to that very value, as long as it stays within the object budget. *)
Theorem dumps_round_trip (a : Allowlist) (o : PyObj) :
  decoded a o -> encodable o = true -> cost o <= STACK_LIMIT -> from_slice (dumps o) a = Ok o.
Proof.
  intros Hd He Hc.
  assert (Hb : Forall is_u8 (dumps o)).
  { unfold dumps. cbn [app]. bytes. by apply enc_u8. }
  set (refs := scan_memo_refs (dumps o)).
  assert (Hinv : inv (mkReader 0 (dumps o) [] [] [] [] refs a 0)) by by apply new_inv.
  destruct (enc_derives refs a [] o Hd He [] [] I Hc [op_code STOP] 2 0) as [p Hrtc].
  { unfold STACK_LIMIT, MAX_DEPTH, MAX_OBJECTS in *. lia. }
  apply (rtc_result _ (plain refs a [] p [op_code STOP] [o] [] (0 + cost o)) o Hinv); [|done..].
  eapply rtc_l; [|exact Hrtc]. exists (IProto 4). eexists. split.
  - rewrite (fetch_op PROTO (4 :: enc o ++ [op_code STOP])) by done.
    cbn [fetch_operand]. unfold mbind, R_bind. by erewrite u8_cons.
  - reflexivity.
Qed.

(** A dict with a class instance and a 65-bit integer. *)
Definition demo_value : PyObj :=
  PDict [(PStr "seed", PBig (mkBigInt false [0; 0; 1]));
         (PInt (-5), PList [PInstance (mkClassId "NetUtils" "Hint") [PInt 3000000000; PBool true]; PNone])]%string.

Lemma demo_decoded : decoded archipelago demo_value.
Proof.
  repeat constructor; try (vm_compute; reflexivity); cbn; unfold is_i64, is_u32; try lia; done.
Qed.

Lemma dumps_round_trip_witness :
  encodable demo_value = true /\ cost demo_value = 13 /\ length (dumps demo_value) = 76%nat /\
  from_slice (dumps demo_value) archipelago = Ok demo_value.
Proof.
  split; [vm_compute; reflexivity|]. split; [vm_compute; reflexivity|]. split; [vm_compute; reflexivity|].
  apply dumps_round_trip; [apply demo_decoded|vm_compute; reflexivity|vm_compute; congruence].
Defined.

(** * How far the limits of the pickle machine reach

    [MAX_OBJECTS] counts pushes and [MAX_DEPTH] bounds the stack.  A fetch from
    the memo pushes once and copies a whole value, and one-element tuples nest
    without the stack growing; so neither bounds the value that is built. *)

(** The objects of a value. *)
Fixpoint nodes (o : PyObj) : Z :=
  match o with
  | PList l | PTuple l | PSet l | PInstance _ l => 1 + foldr Z.add 0 (nodes <$> l)
  | PDict d => 1 + foldr Z.add 0 ((fun kv => nodes kv.1 + nodes kv.2) <$> d)
  | _ => 1
  end.

(** How deep a value nests. *)
Fixpoint depth (o : PyObj) : Z :=
  match o with
  | PList l | PTuple l | PSet l | PInstance _ l => 1 + foldr Z.max 0 (depth <$> l)
  | PDict d => 1 + foldr Z.max 0 ((fun kv => Z.max (depth kv.1) (depth kv.2)) <$> d)
  | _ => 1
  end.

(** ** Doubling *)

Fixpoint doubled (n : nat) : PyObj :=
  match n with O => PTuple [] | S n => PTuple [doubled n; doubled n] end.

(** Fetch the last value, pair it with itself, remember the pair. *)
Definition level (k : nat) : list Z :=
  [op_code BINGET; Z.of_nat k; op_code TUPLE2; op_code MEMOIZE].

Definition bomb (n : nat) : list Z :=
  [op_code EMPTY_TUPLE; op_code MEMOIZE] ++ concat (level <$> seq 0 n) ++ [op_code STOP].

(** ** Nesting *)

Fixpoint nested (n : nat) : PyObj :=
  match n with O => PTuple [] | S n => PTuple [nested n] end.

Definition tower (n : nat) : list Z :=
  [op_code EMPTY_TUPLE] ++ replicate n (op_code TUPLE1) ++ [op_code STOP].

Section limits.
Variable a : Allowlist.

(** The memo of [bomb]: every tuple built so far. *)
Definition tuples (k : nat) : list MemoSlot := (Value ∘ doubled) <$> seq 0 k.

Lemma tuples_S k : tuples (S k) = tuples k ++ [Value (doubled k)].
Proof. unfold tuples. by rewrite seq_S, fmap_app. Qed.

Lemma zlen_tuples k : zlen (tuples k) = Z.of_nat k.
Proof. unfold zlen, tuples. by rewrite length_fmap, length_seq. Qed.

Lemma emits_get k v st mk m :
  Z.of_nat k < 256 -> m !! k = Some (Value v) -> zlen st < MAX_DEPTH * 4096 ->
  emits None a m [op_code BINGET; Z.of_nat k] st (v :: st) mk mk 1.
Proof.
  intros Hk Hm Hst. apply emits_one. intros l p n Hn. eexists. exists (IGet (Z.of_nat k)). eexists. split.
  - rewrite (fetch_op BINGET (Z.of_nat k :: l)) by done. cbn [fetch_operand]. unfold mbind, R_bind.
    by erewrite u8_cons.
  - cbn [exec]. unfold mbind, R_bind, memo_get. cbn [set_input plain memo pos].
    assert (k < length m)%nat by (by eapply lookup_lt_Some). unfold zlen.
    destruct (Z.leb_spec (Z.of_nat (length m)) (Z.of_nat k)); [lia|]. rewrite Nat2Z.id, Hm.
    apply (f_equal (fun r => match r with Ok (x, s) => Ok (None, s) | Err e => Err e end)
      (push_plain None a m v _ l st mk n Hst Hn)).
Qed.

Lemma emits_pair x y st m :
  zlen st < MAX_DEPTH * 4096 ->
  emits None a m [op_code TUPLE2] (y :: x :: st) (PTuple [x; y] :: st) [] [] 1.
Proof.
  intros Hst. apply emits_op; [done|]. intros at_ p l n Hn. cbn [exec].
  rewrite !pop_plain by done. unfold mbind, R_bind. by rewrite push_plain.
Qed.

Lemma memoize_tuple p l items st n m :
  one (plain None a m p (op_code MEMOIZE :: l) (PTuple items :: st) [] n)
      (plain None a (m ++ [Value (PTuple items)]) (p + 1) l (PTuple items :: st) [] n).
Proof.
  exists (IOp MEMOIZE), (plain None a m (p + 1) l (PTuple items :: st) [] n). split; [|reflexivity].
  by rewrite (fetch_op MEMOIZE l).
Qed.

Lemma one_rtc_app s s1 s2 : one s s1 -> rtc one s1 s2 -> rtc one s s2.
Proof. intros. by eapply rtc_l. Qed.

Lemma bomb_levels k : forall l p,
  Z.of_nat k < 256 ->
  exists p', rtc one (plain None a [] p ([op_code EMPTY_TUPLE; op_code MEMOIZE] ++ concat (level <$> seq 0 k) ++ l) [] [] 0)
                     (plain None a (tuples (S k)) p' l [doubled k] [] (1 + 2 * Z.of_nat k)).
Proof.
  induction k as [|k IH]; intros l p Hk.
  - destruct (emits_const None a [] EMPTY_TUPLE (PTuple []) [] [] eq_refl ltac:(done)
               (op_code MEMOIZE :: l) p 0 ltac:(done)) as [p1 H1].
    exists (p1 + 1). etrans; [exact H1|]. apply rtc_once. apply (memoize_tuple p1 l [] [] 1 []).
  - rewrite seq_S, fmap_app, List.concat_app, <- app_assoc. cbn [fmap list_fmap concat app].
    destruct (IH (level (0 + k) ++ l) p ltac:(lia)) as [p1 H1].
    assert (Hm : tuples (S k) !! k = Some (Value (doubled k))).
    { rewrite tuples_S, lookup_app_r; unfold tuples; rewrite length_fmap, length_seq; [|lia].
      by rewrite Nat.sub_diag. }
    assert (Hpair := emits_app None a (tuples (S k)) _ _ _ _ _ _ _ _ 1 1 ltac:(done)
      (emits_get k _ [doubled k] [] _ ltac:(lia) Hm ltac:(done))
      (emits_pair (doubled k) (doubled k) [] _ ltac:(done))).
    destruct (Hpair (op_code MEMOIZE :: l) p1 (1 + 2 * Z.of_nat k)) as [p2 H2].
    { unfold MAX_OBJECTS. lia. }
    exists (p2 + 1). etrans; [exact H1|]. etrans; [exact H2|]. apply rtc_once.
    rewrite (tuples_S (S k)). replace (1 + 2 * Z.of_nat (S k)) with (1 + 2 * Z.of_nat k + (1 + 1)) by lia.
    apply memoize_tuple.
Qed.

Lemma tower_levels k : forall l p n,
  n + Z.of_nat k <= MAX_OBJECTS ->
  forall j, exists p', rtc one (plain None a [] p (replicate k (op_code TUPLE1) ++ l) [nested j] [] n)
                     (plain None a [] p' l [nested (k + j)] [] (n + Z.of_nat k)).
Proof.
  induction k as [|k IH]; intros l p n Hn j.
  - exists p. rewrite Z.add_0_r. apply rtc_refl.
  - assert (H1 : emits None a [] [op_code TUPLE1] [nested j] [nested (S j)] [] [] 1).
    { apply emits_op; [done|]. intros at_ p0 l0 n0 Hn0. cbn [exec]. rewrite pop_plain by done.
      unfold mbind, R_bind. by rewrite push_plain. }
    destruct (H1 (replicate k (op_code TUPLE1) ++ l) p n ltac:(lia)) as [p1 Hp1].
    destruct (IH l p1 (n + 1) ltac:(lia) (S j)) as [p2 Hp2]. exists p2.
    replace (n + Z.of_nat (S k)) with (n + 1 + Z.of_nat k) by lia.
    replace (S k + j)%nat with (k + S j)%nat by lia. etrans; [exact Hp1|exact Hp2].
Qed.
End limits.

Lemma bytes_replicate n o : Forall is_u8 (replicate n (op_code o)).
Proof. apply Forall_replicate, op_u8. Qed.

Lemma bomb_u8 n : (n <= 255)%nat -> Forall is_u8 (bomb n).
Proof.
  intros Hn. unfold bomb. cbn [app]. bytes. apply concat_u8. rewrite Forall_fmap, Forall_forall.
  intros k Hk. apply elem_of_seq in Hk. cbn. unfold level. bytes.
Qed.

Lemma nodes_doubled n : nodes (doubled n) = 2 ^ (Z.of_nat n + 1) - 1.
Proof.
  induction n as [|n IH]; [done|]. cbn [doubled nodes fmap list_fmap foldr]. rewrite IH.
  rewrite Nat2Z.inj_succ. replace (Z.succ (Z.of_nat n) + 1) with (Z.succ (Z.of_nat n + 1)) by lia.
  rewrite Z.pow_succ_r by lia. lia.
Qed.

Lemma depth_nested n : depth (nested n) = Z.of_nat n + 1.
Proof. induction n as [|n IH]; [done|]. cbn [nested depth fmap list_fmap foldr]. rewrite IH. lia. Qed.

Lemma length_levels n : length (concat (level <$> seq 0 n)) = (4 * n)%nat.
Proof.
  induction n as [|n IH]; [done|]. rewrite seq_S, fmap_app, List.concat_app, length_app, IH. cbn. lia.
Qed.

(** Neither limit bounds what is built. A stream of [4 n + 3] bytes, which
    the object counter charges [2 n + 1], decodes to a value of [2 ^ (n + 1) - 1]
    objects, for every [n] up to 255; and for every depth within the object
    budget there is a stream of that many bytes whose value nests that deep,
    although the machine claims to stop at 256. *)
Theorem limits_do_not_bound_the_value (a : Allowlist) :
  (forall n, (n <= 255)%nat ->
     exists v, from_slice (bomb n) a = Ok v /\ length (bomb n) = (4 * n + 3)%nat /\
       nodes v = 2 ^ (Z.of_nat n + 1) - 1) /\
  (forall n, Z.of_nat n < MAX_OBJECTS ->
     exists v, from_slice (tower n) a = Ok v /\ length (tower n) = (n + 2)%nat /\
       depth v = Z.of_nat n + 1).
Proof.
  split; intros n Hn.
  - exists (doubled n). split_and!; [|unfold bomb; rewrite !length_app, length_levels; cbn; lia|apply nodes_doubled].
    rewrite scan_changes_nothing by by apply bomb_u8.
    destruct (bomb_levels a n [op_code STOP] 0 ltac:(lia)) as [p Hrtc].
    refine (rtc_result _ _ _ _ Hrtc eq_refl eq_refl). by apply new_inv, bomb_u8.
  - exists (nested n). split_and!; [|unfold tower; rewrite !length_app, length_replicate; cbn; lia|apply depth_nested].
    assert (Hb : Forall is_u8 (tower n)).
    { unfold tower. cbn [app]. apply Forall_cons_2; [apply op_u8|]. apply Forall_app_2; [apply bytes_replicate|bytes]. }
    rewrite scan_changes_nothing by done.
    destruct (emits_const None a [] EMPTY_TUPLE (PTuple []) [] [] eq_refl ltac:(done)
      (replicate n (op_code TUPLE1) ++ [op_code STOP]) 0 0 ltac:(done)) as [p1 H1].
    destruct (tower_levels a n [op_code STOP] p1 1 ltac:(unfold MAX_OBJECTS in *; lia) 0) as [p2 H2].
    rewrite Nat.add_0_r in H2. assert (H := transitivity H1 H2).
    refine (rtc_result _ _ _ (new_inv _ a None Hb) H eq_refl eq_refl).
Qed.
