(* ===== verification/Frame.v ===== *)
(** * WebSocket framing

    [pahoa-net/src/ws/frame.rs]: the RFC 6455 header, masking, the decoder that
    takes one frame off a read buffer, and the builders of server and client
    frames.  A buffer is the list of the bytes it holds; [decode_as] returns the
    outcome together with the buffer it leaves.  Lengths read from the wire are
    [Z]; the sum of a header and a payload length is taken exactly, a
    configured limit being far below [usize::MAX]. *)

From Stdlib Require Import ZArith Lia Bool.
From stdpp Require Import base tactics list strings.
From S2P Require Import Prelude.

Inductive OpCode := Continuation | Text | Binary | Close | Ping | Pong.

#[export] Instance OpCode_eq_dec : EqDecision OpCode.
Proof. solve_decision. Defined.

Definition op_from_bits (bits : Z) : option OpCode :=
  if bits =? 0x0 then Some Continuation
  else if bits =? 0x1 then Some Text
  else if bits =? 0x2 then Some Binary
  else if bits =? 0x8 then Some Close
  else if bits =? 0x9 then Some Ping
  else if bits =? 0xA then Some Pong
  else None.

Definition op_bits (o : OpCode) : Z :=
  match o with
  | Continuation => 0x0
  | Text => 0x1
  | Binary => 0x2
  | Close => 0x8
  | Ping => 0x9
  | Pong => 0xA
  end.

Definition is_control (o : OpCode) : bool :=
  match o with Close | Ping | Pong => true | _ => false end.

Record Frame := mkFrame {
  fr_fin : bool;
  fr_rsv1 : bool;
  fr_opcode : OpCode;
  fr_payload : list Z;
}.

Inductive FrameError :=
| ReservedOpcode (bits : Z)
| ReservedBits
| Unmasked
| MaskedFromServer
| ControlTooLarge (len : Z)
| FragmentedControl
| FrameTooLarge (len limit : Z).

Notation Key := (Z * Z * Z * Z)%type.

Record Header := mkHeader {
  h_fin : bool;
  h_rsv1 : bool;
  h_opcode : OpCode;
  h_mask : option Key;
  h_payload_len : Z;
  h_len : nat;
}.

Inductive Role := Server | Client.

(** [bits & mask != 0]. *)
Definition bit_set (bits mask : Z) : bool := negb (Z.land bits mask =? 0).

(** The payload length and the number of bytes of its extended form, or [None]
    while the extended form is not all there. *)
Definition payload_length (buf : list Z) (short_len : Z) : option (Z * nat) :=
  if short_len =? 126 then
    if (length buf <? 4)%nat then None else Some (be_val (take 2 (drop 2 buf)), 2%nat)
  else if short_len =? 127 then
    if (length buf <? 10)%nat then None else Some (be_val (take 8 (drop 2 buf)), 8%nat)
  else Some (short_len, 0%nat).

(** [buf[at..at + 4].try_into()]. *)
Definition key_at (buf : list Z) (at_ : nat) : option Key :=
  match drop at_ buf with
  | a :: b :: c :: d :: _ => Some (a, b, c, d)
  | _ => None
  end.

(** The bound on the length, then the rules on control frames. *)
Definition check_length (fin : bool) (opcode : OpCode) (payload_len max_payload : Z)
    : result FrameError unit :=
  if max_payload <? payload_len then Err (FrameTooLarge payload_len max_payload)
  else if is_control opcode then
    if negb fin then Err FragmentedControl
    else if 125 <? payload_len then Err (ControlTooLarge payload_len)
    else Ok tt
  else Ok tt.

Definition check_role (role : Role) (masked : bool) : result FrameError unit :=
  match role with
  | Server => if masked then Ok tt else Err Unmasked
  | Client => if masked then Err MaskedFromServer else Ok tt
  end.

Definition parse_header (buf : list Z) (max_payload : Z) (role : Role)
    : result FrameError (option Header) :=
  match buf with
  | first :: second :: _ =>
      let fin := bit_set first 0x80 in
      let rsv1 := bit_set first 0x40 in
      if bit_set first 0x30 then Err ReservedBits
      else
        opcode ← ok_or (ReservedOpcode (Z.land first 0x0F)) (op_from_bits (Z.land first 0x0F));
        let masked := bit_set second 0x80 in
        _ ← check_role role masked;
        match payload_length buf (Z.land second 0x7F) with
        | None => Ok None
        | Some (payload_len, len_bytes) =>
            _ ← check_length fin opcode payload_len max_payload;
            let mask_offset := (2 + len_bytes)%nat in
            if masked then
              match key_at buf mask_offset with
              | None => Ok None
              | Some key =>
                  Ok (Some (mkHeader fin rsv1 opcode (Some key) payload_len (mask_offset + 4)))
              end
            else Ok (Some (mkHeader fin rsv1 opcode None payload_len mask_offset))
        end
  | _ => Ok None
  end.

(** ** Masking *)

Section Endian.
(** The byte order of the machine: [u32::from_ne_bytes] is one of the two. *)
Context (big_endian : bool).

Definition from_ne_bytes (bs : list Z) : Z :=
  if big_endian then be_val bs else le_val bs.

Definition to_ne_bytes (x : Z) : list Z :=
  if big_endian then be_bytes 4 x else le_bytes 4 x.
End Endian.

Definition key_bytes (key : Key) : list Z := let '(a, b, c, d) := key in [a; b; c; d].

Section Unmask.
Context (big_endian : bool).

Fixpoint unmask (payload : list Z) (key : Key) : list Z :=
  match payload with
  | a :: b :: c :: d :: tail =>
      to_ne_bytes big_endian
        (Z.lxor (from_ne_bytes big_endian [a; b; c; d])
                (from_ne_bytes big_endian (key_bytes key)))
      ++ unmask tail key
  | tail => zip_with Z.lxor tail (key_bytes key)
  end.

(** [None]: not all there yet, and the buffer is as it was. *)
Definition decode_as (buf : list Z) (max_payload : Z) (role : Role)
    : result FrameError (option Frame) * list Z :=
  match parse_header buf max_payload role with
  | Err e => (Err e, buf)
  | Ok None => (Ok None, buf)
  | Ok (Some header) =>
      if Z.of_nat (length buf) <? Z.of_nat (h_len header) + h_payload_len header
      then (Ok None, buf)
      else
        let buf := drop (h_len header) buf in
        let payload := take (Z.to_nat (h_payload_len header)) buf in
        let payload :=
          match h_mask header with Some key => unmask payload key | None => payload end in
        (Ok (Some (mkFrame (h_fin header) (h_rsv1 header) (h_opcode header) payload)),
         drop (Z.to_nat (h_payload_len header)) buf)
  end.

Definition decode (buf : list Z) (max_payload : Z) := decode_as buf max_payload Server.

(** [build_masked]: a client's frame. *)
Definition build_masked (opcode : OpCode) (rsv1 : bool) (payload : list Z) (key : Key)
    : list Z :=
  let first := Z.lor (op_bits opcode) 0x80 in
  let first := if rsv1 then Z.lor first 0x40 else first in
  let len := Z.of_nat (length payload) in
  [first]
  ++ (if len <? 126 then [Z.lor 0x80 (wrap8 len)]
      else if len <=? u16_max then [Z.lor 0x80 126] ++ be_bytes 2 (wrap16 len)
      else [Z.lor 0x80 127] ++ be_bytes 8 len)
  ++ key_bytes key
  ++ unmask payload key.
End Unmask.

Definition put_header (opcode : OpCode) (rsv1 fin : bool) (len : Z) : list Z :=
  let first := op_bits opcode in
  let first := if fin then Z.lor first 0x80 else first in
  let first := if rsv1 then Z.lor first 0x40 else first in
  [first]
  ++ (if len <? 126 then [wrap8 len]
      else if len <=? u16_max then [126] ++ be_bytes 2 (wrap16 len)
      else [127] ++ be_bytes 8 len).

Definition build (opcode : OpCode) (rsv1 : bool) (payload : list Z) : list Z :=
  put_header opcode rsv1 true (Z.of_nat (length payload)) ++ payload.

(** [str::is_char_boundary] on the bytes of a [str]: the end, or a byte that
    does not continue a character. *)
Definition is_char_boundary (s : list Z) (i : nat) : bool :=
  match s !! i with
  | Some b => negb (within 0x80 0xBF b)
  | None => (i =? length s)%nat
  end.

Fixpoint char_cut (s : list Z) (cut : nat) : nat :=
  match cut with
  | O => O
  | S cut' => if is_char_boundary s cut then cut else char_cut s cut'
  end.

Definition close (code : Z) (reason : string) : list Z :=
  let reason := bytes_of_string reason in
  let cut := char_cut reason (Nat.min (length reason) 123) in
  build Close false (be_bytes 2 code ++ take cut reason).

(** ** [ws/mod.rs]: an outgoing message *)

Definition MIN_COMPRESS_BYTES : nat := 128.

Record Outgoing := mkOutgoing {
  o_plain : list Z;
  o_header_len : nat;
}.

Definition outgoing_text (payload : list Z) : Outgoing :=
  let plain := build Text false payload in
  mkOutgoing plain (length plain - length payload).

Definition outgoing_payload (o : Outgoing) : list Z := drop (o_header_len o) (o_plain o).

(** [deflated], with the compressor a parameter: it is stateless, being reset
    before each message. *)
Definition deflated (compress : list Z -> list Z) (o : Outgoing) : list Z :=
  let payload := outgoing_payload o in
  if (length payload <? MIN_COMPRESS_BYTES)%nat then o_plain o
  else
    let compressed := compress payload in
    if (length payload <=? length compressed)%nat then o_plain o
    else build Text true compressed.
