(* ===== verification/FrameTheorems.v ===== *)
(** * WebSocket framing: what it guarantees

    The word-at-a-time masking is byte-wise exclusive or, on either byte order;
    a frame that was built decodes to itself at the other end; the decoder is
    incremental; and what it refuses. *)

From Stdlib Require Import ZArith Lia Bool.
From stdpp Require Import base tactics list strings.
From S2P Require Import Prelude Frame.

(** ** Words and bytes *)

Lemma lxor_mod_pow2 x y n :
  0 <= n -> Z.lxor x y mod 2 ^ n = Z.lxor (x mod 2 ^ n) (y mod 2 ^ n).
Proof.
  intros Hn. apply Z.bits_inj'. intros i Hi. rewrite Z.lxor_spec, !Z.testbit_mod_pow2 by done.
  rewrite Z.lxor_spec. by destruct (i <? n), (Z.testbit x i), (Z.testbit y i).
Qed.

Lemma lxor_div_pow2 x y n :
  0 <= n -> Z.lxor x y / 2 ^ n = Z.lxor (x / 2 ^ n) (y / 2 ^ n).
Proof. intros. rewrite <- !Z.shiftr_div_pow2 by done. apply Z.shiftr_lxor. Qed.

(** Exclusive or goes byte by byte. *)
Lemma lxor_cons_byte a b x y :
  is_u8 a -> is_u8 b -> Z.lxor (a + 256 * x) (b + 256 * y) = Z.lxor a b + 256 * Z.lxor x y.
Proof.
  intros Ha Hb. pose proof (lxor_below a b 8 ltac:(lia) Ha Hb) as Hab. unfold is_u8 in *.
  set (l := Z.lxor (a + 256 * x) (b + 256 * y)).
  rewrite (Z.div_mod l (2 ^ 8)) by lia. subst l.
  rewrite lxor_div_pow2, lxor_mod_pow2 by lia.
  replace ((a + 256 * x) / 2 ^ 8) with x by (Z.div_mod_to_equations; lia).
  replace ((b + 256 * y) / 2 ^ 8) with y by (Z.div_mod_to_equations; lia).
  replace ((a + 256 * x) mod 2 ^ 8) with a by (Z.div_mod_to_equations; lia).
  replace ((b + 256 * y) mod 2 ^ 8) with b by (Z.div_mod_to_equations; lia). lia.
Qed.

Lemma lxor_le_val xs ys :
  Forall is_u8 xs -> Forall is_u8 ys -> length xs = length ys ->
  Z.lxor (le_val xs) (le_val ys) = le_val (zip_with Z.lxor xs ys).
Proof.
  intros Hx. revert ys. induction Hx as [|x xs Hx Hxs IH]; intros [|y ys] Hy Hl; try done.
  apply Forall_cons in Hy as [Hy Hys]. cbn. rewrite lxor_cons_byte, IH by (auto; lia). done.
Qed.

Lemma le_bytes_le_val l : Forall is_u8 l -> le_bytes (length l) (le_val l) = l.
Proof.
  induction 1 as [|b l Hb Hl IH]; [done|]. cbn. unfold is_u8 in Hb.
  replace ((b + 256 * le_val l) mod 256) with b by (Z.div_mod_to_equations; lia).
  replace ((b + 256 * le_val l) / 256) with (le_val l) by (Z.div_mod_to_equations; lia).
  by rewrite IH.
Qed.

Lemma Forall_lxor_u8 xs ys :
  Forall is_u8 xs -> Forall is_u8 ys -> Forall is_u8 (zip_with Z.lxor xs ys).
Proof.
  intros Hx. revert ys. induction Hx as [|x xs Hx Hxs IH]; intros [|y ys] Hy; cbn; try constructor.
  - apply Forall_cons in Hy as [Hy _]. by apply lxor_below.
  - apply Forall_cons in Hy as [_ Hy]. by apply IH.
Qed.

(** One word of masking is four bytes of it, whichever order the machine has. *)
Lemma word_xor big xs ks :
  Forall is_u8 xs -> Forall is_u8 ks -> length xs = 4%nat -> length ks = 4%nat ->
  to_ne_bytes big (Z.lxor (from_ne_bytes big xs) (from_ne_bytes big ks)) = zip_with Z.lxor xs ks.
Proof.
  intros Hx Hk Hlx Hlk.
  assert (Hle : forall us vs, Forall is_u8 us -> Forall is_u8 vs -> length us = 4%nat ->
    length vs = 4%nat -> le_bytes 4 (Z.lxor (le_val us) (le_val vs)) = zip_with Z.lxor us vs).
  { intros us vs Hu Hv Hlu Hlv. rewrite lxor_le_val by (done || lia).
    rewrite <- (le_bytes_le_val (zip_with Z.lxor us vs)) at 2 by (by apply Forall_lxor_u8).
    by rewrite length_zip_with, Hlu, Hlv. }
  unfold to_ne_bytes, from_ne_bytes. destruct big; [|by apply Hle].
  unfold be_bytes. rewrite !be_val_rev, Hle by (try apply Forall_rev; rewrite ?length_rev; done).
  do 5 (destruct xs as [|? xs]; try done). do 5 (destruct ks as [|? ks]; try done).
Qed.

(** ** Masking *)

(** The mask RFC 6455 defines: byte [i] against byte [i mod 4] of the key. *)
Definition masked (payload : list Z) (key : Key) : list Z :=
  imap (fun i b => Z.lxor b (nth (i mod 4) (key_bytes key) 0)) payload.

Lemma masked_step a b c d tail k0 k1 k2 k3 :
  masked (a :: b :: c :: d :: tail) (k0, k1, k2, k3) =
  Z.lxor a k0 :: Z.lxor b k1 :: Z.lxor c k2 :: Z.lxor d k3 :: masked tail (k0, k1, k2, k3).
Proof.
  unfold masked. rewrite !imap_cons. do 4 (apply (f_equal2 cons); [done|]). apply imap_ext.
  intros i x _. unfold compose. replace (S (S (S (S i))) mod 4)%nat with (i mod 4)%nat; [done|].
  replace (S (S (S (S i)))) with (i + 1 * 4)%nat by lia. by rewrite Nat.Div0.mod_add.
Qed.

Lemma unmask_masked big payload key :
  Forall is_u8 payload -> Forall is_u8 (key_bytes key) -> unmask big payload key = masked payload key.
Proof.
  destruct key as [[[k0 k1] k2] k3]. intros Hp Hk. remember (length payload) as n eqn:Hn.
  revert payload Hp Hn. induction n as [n IH] using lt_wf_ind. intros payload Hp Hn.
  destruct payload as [|a [|b [|c [|d tail]]]]; try done.
  cbn [unmask]. rewrite masked_step.
  rewrite (IH (length tail)) by (cbn in *; try lia; by do 4 apply Forall_inv_tail in Hp).
  rewrite word_xor; try done. by apply (Forall_app _ [a; b; c; d] tail) in Hp as [? _].
Qed.

Lemma masked_involutive payload key : masked (masked payload key) key = payload.
Proof.
  unfold masked. apply list_eq. intros i. rewrite !list_lookup_imap.
  destruct (payload !! i) as [b|]; [|done]. cbn. f_equal.
  by rewrite Z.lxor_assoc, Z.lxor_nilpotent, Z.lxor_0_r.
Qed.

Lemma length_masked payload key : length (masked payload key) = length payload.
Proof. apply length_imap. Qed.

Lemma Forall_masked_u8 payload key :
  Forall is_u8 payload -> Forall is_u8 (key_bytes key) -> Forall is_u8 (masked payload key).
Proof.
  intros Hp Hk. apply Forall_lookup_2. intros i x Hx. unfold masked in Hx.
  rewrite list_lookup_imap in Hx. destruct (payload !! i) as [b|] eqn:Eb; [|done].
  injection Hx as <-. apply lxor_below; [lia|exact (Forall_lookup_1 _ _ _ _ Hp Eb)|].
  rewrite List.Forall_forall in Hk. apply (Hk _), nth_In.
  destruct key as [[[? ?] ?] ?]. exact (Nat.mod_upper_bound i 4 ltac:(done)).
Qed.

Lemma unmask_unmask big payload key :
  Forall is_u8 payload -> Forall is_u8 (key_bytes key) ->
  unmask big (unmask big payload key) key = payload.
Proof.
  intros Hp Hk. rewrite (unmask_masked big payload) by done.
  rewrite unmask_masked by (done || by apply Forall_masked_u8). apply masked_involutive.
Qed.

(** ** The header *)

Lemma payload_length_app buf more short r :
  payload_length buf short = Some r -> payload_length (buf ++ more) short = Some r.
Proof.
  unfold payload_length. rewrite length_app.
  destruct (short =? 126); [|destruct (short =? 127); [|done]].
  all: case_match eqn:E; [done|]; apply Nat.ltb_ge in E.
  all: rewrite (proj2 (Nat.ltb_ge _ _)) by lia; intros [= <-].
  all: rewrite skipn_app, firstn_app; replace (_ - length (drop 2 buf))%nat with 0%nat
    by (rewrite length_drop; lia); by rewrite take_0, app_nil_r.
Qed.

Lemma key_at_app buf more i k : key_at buf i = Some k -> key_at (buf ++ more) i = Some k.
Proof.
  unfold key_at. rewrite skipn_app. intros H.
  destruct (drop i buf) as [|a [|b [|c [|d l]]]]; done.
Qed.

Lemma key_at_u8 buf i k : Forall is_u8 buf -> key_at buf i = Some k -> Forall is_u8 (key_bytes k).
Proof.
  intros Hu. unfold key_at. pose proof (Forall_drop _ i _ Hu) as Hd.
  destruct (drop i buf) as [|a [|b [|c [|d l]]]]; try done. intros [= <-].
  by apply (Forall_app _ [a; b; c; d] l) in Hd as [? _].
Qed.

(** What was decided stays decided: [o'] agrees with [o] unless [o] was waiting
    for more bytes. *)
Definition decided {E A} (o o' : result E (option A)) : Prop :=
  match o with Ok None => True | _ => o' = o end.

(** More bytes never change what the bytes already there decided. *)
Lemma parse_header_app buf more max role :
  decided (parse_header buf max role) (parse_header (buf ++ more) max role).
Proof.
  destruct buf as [|a [|b buf]]; [done..|].
  pose proof (payload_length_app (a :: b :: buf) more (Z.land b 0x7F)) as Hl.
  pose proof (key_at_app (a :: b :: buf) more) as Hk.
  unfold parse_header. cbn [app] in *.
  destruct (bit_set a 0x30); [done|]. destruct (op_from_bits _) as [op|]; [|done].
  cbn [ok_or mbind result_bind]. destruct (check_role role _); [|done].
  cbn [mbind result_bind].
  destruct (payload_length (a :: b :: buf) _) as [[len n]|]; [|done].
  rewrite (Hl _ eq_refl). destruct (check_length _ _ _ _); [|done]. cbn [mbind result_bind].
  destruct (bit_set b 0x80); [|done].
  destruct (key_at (a :: b :: buf) _) as [k|] eqn:Ek; [|done]. by rewrite (Hk _ _ Ek).
Qed.

(** What a parsed header says is within the limits the checks enforce. *)
Lemma parse_header_ok buf max role h :
  parse_header buf max role = Ok (Some h) -> Forall is_u8 buf ->
  0 <= h_payload_len h <= max /\ (2 <= h_len h <= 14)%nat /\
  (is_control (h_opcode h) = true -> h_fin h = true /\ h_payload_len h <= 125) /\
  (h_mask h = None <-> role = Client) /\
  (forall k, h_mask h = Some k -> Forall is_u8 (key_bytes k)).
Proof.
  destruct buf as [|a [|b buf]]; [done..|]. unfold parse_header. intros H Hu.
  destruct (bit_set a 0x30); [done|]. inv_ok.
  assert (Hlen : forall len n, payload_length (a :: b :: buf) (Z.land b 0x7F) = Some (len, n) ->
    0 <= len /\ (n = 0 \/ n = 2 \/ n = 8)%nat).
  { intros len n. unfold payload_length.
    assert (Hbe : forall l, Forall is_u8 l -> 0 <= be_val l).
    { intros l Hl. rewrite be_val_rev. apply le_val_bound. by apply Forall_rev. }
    destruct (_ =? 126); [|destruct (_ =? 127)].
    1,2: destruct (_ <? _)%nat; [done|]; intros [= <- <-]; split; [|auto];
         apply Hbe, Forall_take, (Forall_drop _ 2 (a :: b :: buf)), Hu.
    intros [= <- <-]. split; [|auto]. apply Z.land_nonneg. lia. }
  destruct (payload_length _ _) as [[len n]|]; [|done].
  destruct (Hlen _ _ eq_refl) as [Hn Hw]. inv_ok.
  assert (Hc : len <= max /\ (is_control a0 = true -> bit_set a 0x80 = true /\ len <= 125)).
  { revert Hok1. unfold check_length. destruct (Z.ltb_spec max len); [done|].
    destruct (is_control a0); [|by split]. destruct (bit_set a 0x80); [|done]. cbn.
    destruct (Z.ltb_spec 125 len); [done|]. intros _. split; [done|]. intros _. done. }
  destruct (bit_set b 0x80) in *; [destruct (key_at _ _) as [k|] eqn:Ek; [|done]|];
    injection H as <-; cbn; (split; [lia|split; [lia|split; [tauto|split]]]).
  - destruct role; done || by split.
  - intros k' [= <-]. eapply key_at_u8; eauto.
  - destruct role; done || by split.
  - done.
Qed.

(** ** Building *)

Lemma wrap8_small x : 0 <= x < 256 -> wrap8 x = x.
Proof. intros. unfold wrap8. apply Z.mod_small. lia. Qed.

Lemma lor_0x80 x : 0 <= x < 128 -> Z.lor 0x80 x = 128 + x.
Proof.
  intros Hx. rewrite <- Z.add_nocarry_lor; [done|]. apply Z.bits_inj'. intros i Hi.
  rewrite Z.land_spec, Z.bits_0. destruct (Z.eq_dec i 7) as [->|Hne].
  - rewrite (proj1 (below_pow2_bits x 7 ltac:(lia) ltac:(lia)) ltac:(lia) 7 ltac:(lia)).
    apply andb_false_r.
  - change 128 with (2 ^ 7). by rewrite Z.pow2_bits_false.
Qed.

Lemma land_0x7f x : Z.land x 0x7F = x mod 128.
Proof. exact (Z.land_ones x 7 ltac:(lia)). Qed.

Lemma bit_set_0x80 x : 0 <= x < 256 -> bit_set x 0x80 = (128 <=? x).
Proof.
  intros Hx. unfold bit_set. change 0x80 with (2 ^ 7).
  assert (Hd : Z.land x (2 ^ 7) = if Z.testbit x 7 then 2 ^ 7 else 0).
  { apply Z.bits_inj'. intros i Hi. rewrite Z.land_spec.
    destruct (Z.eq_dec i 7) as [->|Hne].
    - rewrite Z.pow2_bits_true by lia. destruct (Z.testbit x 7); [|by rewrite Z.bits_0].
      by rewrite Z.pow2_bits_true.
    - rewrite Z.pow2_bits_false by done. rewrite andb_false_r.
      destruct (Z.testbit x 7); [by rewrite Z.pow2_bits_false|by rewrite Z.bits_0]. }
  rewrite Hd. destruct (Z.leb_spec (2 ^ 7) x).
  - assert (Ht : Z.testbit x 7 = true); [|by rewrite Ht].
    apply Z.testbit_true; [lia|]. Z.div_mod_to_equations. lia.
  - by rewrite (proj1 (below_pow2_bits x 7 ltac:(lia) ltac:(lia)) ltac:(lia) 7 ltac:(lia)).
Qed.

(** The length bytes both builders write after the first byte: [base] is the
    mask bit. *)
Definition length_bytes (base len : Z) : list Z :=
  if len <? 126 then [base + len]
  else if len <=? u16_max then (base + 126) :: be_bytes 2 len
  else (base + 127) :: be_bytes 8 len.

Lemma length_bytes_reads base len first tail :
  (base = 0 \/ base = 128) -> 0 <= len <= u64_max ->
  exists second ext,
    length_bytes base len = second :: ext /\
    bit_set second 0x80 = (base =? 128) /\
    payload_length (first :: second :: ext ++ tail) (Z.land second 0x7F) = Some (len, length ext).
Proof.
  intros Hb Hl. unfold length_bytes.
  assert (Hs : forall n, 0 <= n < 128 ->
    bit_set (base + n) 0x80 = (base =? 128) /\ Z.land (base + n) 0x7F = n).
  { intros n Hn. rewrite bit_set_0x80, land_0x7f by lia. destruct Hb as [-> | ->].
    - split; [apply Z.leb_gt; lia|apply Z.mod_small; lia].
    - split; [apply Z.leb_le; lia|]. rewrite <- (Z.mod_small n 128) at 2 by lia.
      rewrite <- Z.add_mod_idemp_l by lia. done. }
  destruct (Z.ltb_spec len 126); [|destruct (Z.leb_spec len u16_max)].
  - exists (base + len), []. destruct (Hs len ltac:(lia)) as [H1 H2]. rewrite H1, H2.
    unfold payload_length. rewrite (proj2 (Z.eqb_neq len 126)), (proj2 (Z.eqb_neq len 127)) by lia.
    done.
  - exists (base + 126), (be_bytes 2 len). destruct (Hs 126 ltac:(lia)) as [H1 H2]. rewrite H1, H2.
    split; [done|split; [done|]]. unfold payload_length. cbn [Z.eqb Pos.eqb].
    rewrite (proj2 (Nat.ltb_ge _ _)) by (cbn [length]; rewrite length_app, length_be_bytes; lia).
    cbn [drop]. rewrite drop_0, take_app_length' by (by rewrite length_be_bytes).
    rewrite be_val_bytes, length_be_bytes; [done|]. unfold u16_max in *. lia.
  - exists (base + 127), (be_bytes 8 len). destruct (Hs 127 ltac:(lia)) as [H1 H2]. rewrite H1, H2.
    split; [done|split; [done|]]. unfold payload_length. cbn [Z.eqb Pos.eqb].
    rewrite (proj2 (Nat.ltb_ge _ _)) by (cbn [length]; rewrite length_app, length_be_bytes; lia).
    cbn [drop]. rewrite drop_0, take_app_length' by (by rewrite length_be_bytes).
    rewrite be_val_bytes, length_be_bytes; [done|]. unfold u64_max in *. lia.
Qed.

(** The first byte of a frame that is not fragmented. *)
Definition first_byte (opcode : OpCode) (rsv1 : bool) : Z :=
  op_bits opcode + 128 + if rsv1 then 64 else 0.

Lemma first_byte_reads op rsv1 :
  bit_set (first_byte op rsv1) 0x80 = true /\ bit_set (first_byte op rsv1) 0x40 = rsv1 /\
  bit_set (first_byte op rsv1) 0x30 = false /\
  op_from_bits (Z.land (first_byte op rsv1) 0x0F) = Some op.
Proof. by destruct op, rsv1. Qed.

Lemma build_eq op rsv1 payload :
  Z.of_nat (length payload) <= u64_max ->
  build op rsv1 payload =
  first_byte op rsv1 :: length_bytes 0 (Z.of_nat (length payload)) ++ payload.
Proof.
  intros Hl. unfold build, put_header, length_bytes.
  replace (if rsv1 then _ else _) with (first_byte op rsv1) by (by destruct op, rsv1).
  destruct (Z.ltb_spec (Z.of_nat (length payload)) 126); [by rewrite wrap8_small by lia|].
  destruct (Z.leb_spec (Z.of_nat (length payload)) u16_max); [|done].
  unfold wrap16, u16_max in *. by rewrite Z.mod_small by lia.
Qed.

Lemma build_masked_eq big op rsv1 payload key :
  Z.of_nat (length payload) <= u64_max ->
  build_masked big op rsv1 payload key =
  first_byte op rsv1 :: length_bytes 128 (Z.of_nat (length payload))
    ++ key_bytes key ++ unmask big payload key.
Proof.
  intros Hl. unfold build_masked, length_bytes.
  replace (if rsv1 then _ else _) with (first_byte op rsv1) by (by destruct op, rsv1).
  destruct (Z.ltb_spec (Z.of_nat (length payload)) 126).
  { rewrite wrap8_small, lor_0x80 by lia. done. }
  destruct (Z.leb_spec (Z.of_nat (length payload)) u16_max); [|done].
  unfold wrap16, u16_max in *. by rewrite Z.mod_small by lia.
Qed.

(** What a builder may be given: a control frame is short. *)
Definition sendable (op : OpCode) (payload : list Z) : Prop :=
  Forall is_u8 payload /\ Z.of_nat (length payload) <= u64_max /\
  (is_control op = true -> Z.of_nat (length payload) <= 125).

Lemma check_length_sendable op payload max :
  sendable op payload -> Z.of_nat (length payload) <= max ->
  check_length true op (Z.of_nat (length payload)) max = Ok tt.
Proof.
  intros (_ & _ & Hc) Hm. unfold check_length. rewrite (proj2 (Z.ltb_ge _ _)) by lia.
  destruct (is_control op); [|done]. cbn. by rewrite (proj2 (Z.ltb_ge _ _)) by (by apply Hc).
Qed.

(** A frame built by one end and read by the other comes back whole, flags and
    all, and exactly its bytes are consumed. *)
Lemma decode_build big op rsv1 payload max rest :
  sendable op payload -> Z.of_nat (length payload) <= max ->
  decode_as big (build op rsv1 payload ++ rest) max Client =
  (Ok (Some (mkFrame true rsv1 op payload)), rest).
Proof.
  intros Hs Hm. rewrite build_eq by apply Hs. cbn [app]. rewrite <- app_assoc.
  destruct (length_bytes_reads 0 (Z.of_nat (length payload)) (first_byte op rsv1) (payload ++ rest))
    as (second & ext & -> & Hbit & Hpl); [auto|split; [lia|apply Hs]|].
  destruct (first_byte_reads op rsv1) as (Hf & Hr & H30 & Ho).
  unfold decode_as, parse_header. cbn [app]. rewrite H30, Ho, Hbit. cbn [ok_or mbind result_bind].
  cbn [Z.eqb check_role mbind result_bind]. rewrite Hpl, Hf, Hr, check_length_sendable by done.
  cbn [mbind result_bind h_len h_payload_len h_mask h_fin h_rsv1 h_opcode].
  rewrite (proj2 (Z.ltb_ge _ _)) by (cbn [length]; rewrite !length_app; lia).
  rewrite Nat2Z.id. cbn [Nat.add drop]. rewrite drop_app_length.
  by rewrite take_app_length, drop_app_length.
Qed.

Lemma length_unmask big payload key :
  Forall is_u8 payload -> Forall is_u8 (key_bytes key) ->
  length (unmask big payload key) = length payload.
Proof. intros. rewrite unmask_masked by done. apply length_masked. Qed.

Lemma decode_build_masked big op rsv1 payload key max rest :
  sendable op payload -> Forall is_u8 (key_bytes key) -> Z.of_nat (length payload) <= max ->
  decode_as big (build_masked big op rsv1 payload key ++ rest) max Server =
  (Ok (Some (mkFrame true rsv1 op payload)), rest).
Proof.
  intros Hs Hk Hm. rewrite build_masked_eq by apply Hs. cbn [app]. rewrite <- !app_assoc.
  destruct (length_bytes_reads 128 (Z.of_nat (length payload)) (first_byte op rsv1)
    (key_bytes key ++ unmask big payload key ++ rest))
    as (second & ext & -> & Hbit & Hpl); [auto|split; [lia|apply Hs]|].
  destruct (first_byte_reads op rsv1) as (Hf & Hr & H30 & Ho).
  unfold decode_as, parse_header. cbn [app]. rewrite H30, Ho, Hbit. cbn [ok_or mbind result_bind].
  change (128 =? 128) with true. cbn [check_role mbind result_bind].
  rewrite Hpl, Hf, Hr, check_length_sendable by done. cbn [mbind result_bind].
  unfold key_at. cbn [Nat.add drop]. rewrite drop_app_length.
  destruct key as [[[k0 k1] k2] k3] eqn:Ek. cbn [key_bytes app]. rewrite <- Ek.
  cbn [h_len h_payload_len h_mask h_fin h_rsv1 h_opcode].
  assert (Hlu : length (unmask big payload key) = length payload)
    by (apply length_unmask; [apply Hs|by rewrite Ek]).
  rewrite (proj2 (Z.ltb_ge _ _)) by (cbn [length]; rewrite !length_app; cbn [length];
    rewrite length_app, Hlu; lia).
  rewrite Nat2Z.id. cbn [Nat.add drop]. rewrite drop_app.
  rewrite drop_ge by lia. replace (length ext + 4 - length ext)%nat with 4%nat by lia.
  cbn [app drop]. rewrite drop_0, take_app_length', drop_app_length' by done.
  rewrite unmask_unmask; [done|apply Hs|by rewrite Ek].
Qed.

Lemma build_masked_u8 big op rsv1 payload key :
  Forall is_u8 payload -> Forall is_u8 (key_bytes key) -> Z.of_nat (length payload) <= u64_max ->
  Forall is_u8 (build_masked big op rsv1 payload key).
Proof.
  intros Hp Hk Hl. rewrite build_masked_eq by done. constructor; [by destruct op, rsv1|].
  rewrite unmask_masked by done.
  apply Forall_app_2; [|apply Forall_app_2; [done|by apply Forall_masked_u8]].
  unfold length_bytes, is_u8. destruct (Z.ltb_spec (Z.of_nat (length payload)) 126).
  { repeat constructor; lia. }
  destruct (_ <=? u16_max); (constructor; [lia|]); apply Forall_rev, le_bytes_u8.
Qed.

(** ** Incremental decoding *)

(** A decoder that has decided keeps its decision, and the bytes it did not
    consume, when more bytes arrive; one that has not has consumed nothing. *)
Lemma decode_as_app big buf more max role :
  Forall is_u8 buf ->
  match decode_as big buf max role with
  | (Ok None, rest) => rest = buf
  | (o, rest) => decode_as big (buf ++ more) max role = (o, rest ++ more)
  end.
Proof.
  intros Hu. unfold decode_as. pose proof (parse_header_app buf more max role) as Ha.
  pose proof (fun h H => parse_header_ok buf max role h H Hu) as Hok.
  destruct (parse_header buf max role) as [[h|]|e]; cbn in Ha; [|done|by rewrite Ha].
  rewrite Ha. specialize (Hok h eq_refl) as (Hp & _).
  destruct (Z.ltb_spec (Z.of_nat (length buf)) (Z.of_nat (h_len h) + h_payload_len h)); [done|].
  rewrite (proj2 (Z.ltb_ge _ _)) by (rewrite length_app; lia).
  rewrite (skipn_app (h_len h)). replace (h_len h - length buf)%nat with 0%nat by lia.
  rewrite drop_0, take_app_le, drop_app_le by (rewrite length_drop; lia). done.
Qed.

(** Every frame taken shrinks the buffer, carries no more than the limit allows
    and keeps the rules on control frames. *)
Lemma decode_as_takes big buf max role f rest :
  Forall is_u8 buf -> decode_as big buf max role = (Ok (Some f), rest) ->
  (length rest + 2 + length (fr_payload f) <= length buf)%nat /\
  (length buf <= length rest + 14 + length (fr_payload f))%nat /\
  Z.of_nat (length (fr_payload f)) <= max /\
  (is_control (fr_opcode f) = true -> fr_fin f = true /\ (length (fr_payload f) <= 125)%nat) /\
  Forall is_u8 (fr_payload f) /\ Forall is_u8 rest.
Proof.
  intros Hu. unfold decode_as. destruct (parse_header buf max role) as [[h|]|e] eqn:Eh; [|done..].
  apply parse_header_ok in Eh as (Hp & Hn & Hc & _ & Hk); [|done].
  destruct (Z.ltb_spec (Z.of_nat (length buf)) (Z.of_nat (h_len h) + h_payload_len h)); [done|].
  set (p := take (Z.to_nat (h_payload_len h)) (drop (h_len h) buf)).
  assert (Hpu : Forall is_u8 p) by (by apply Forall_take, Forall_drop).
  assert (Hpl : length p = Z.to_nat (h_payload_len h))
    by (unfold p; rewrite length_take, length_drop; lia).
  assert (Hun : forall k, h_mask h = Some k ->
    length (unmask big p k) = length p /\ Forall is_u8 (unmask big p k)).
  { intros k E. specialize (Hk k E). rewrite unmask_masked by done. split; [apply length_masked|].
    by apply Forall_masked_u8. }
  assert (Hlen : length (match h_mask h with Some key => unmask big p key | None => p end) = length p)
    by (destruct (h_mask h); [by apply Hun|done]).
  intros [= <- <-]. cbn [fr_payload fr_opcode fr_fin]. rewrite Hlen, Hpl, !length_drop.
  split; [lia|split; [lia|split; [lia|split; [|split; [|by do 2 apply Forall_drop]]]]].
  - intros Hct. destruct (Hc Hct). split; [done|lia].
  - destruct (h_mask h); [by apply Hun|done].
Qed.

(** ** The close frame *)

Ltac within_true :=
  repeat match goal with
  | H : _ && _ = true |- _ => apply andb_true_iff in H as [? ?]
  | H : _ || _ = true |- _ => apply orb_true_iff in H as [?|?]
  end.

Lemma within_iff lo hi b : within lo hi b = true <-> lo <= b <= hi.
Proof. unfold within. rewrite andb_true_iff, !Z.leb_le. done. Qed.

(** A valid string is one character and a valid string: the character's bytes
    after the first all continue it. *)
Lemma utf8_uncons l :
  utf8_valid l = true -> l <> [] ->
  exists ch rest, l = ch ++ rest /\ utf8_valid rest = true /\ ch <> [] /\
    Forall (fun b => within 0x80 0xBF b = true) (tail ch) /\
    (forall rest', utf8_valid (ch ++ rest') = utf8_valid rest').
Proof.
  intros Hv Hne. destruct l as [|b l]; [done|]. cbn [utf8_valid] in Hv.
  destruct (b <? 0x80) eqn:E1.
  { exists [b], l. repeat split; try done. intros r. cbn. by rewrite E1. }
  destruct l as [|c l]; [done|]. destruct (within 0xC2 0xDF b && within 0x80 0xBF c) eqn:E2.
  { exists [b; c], l. repeat split; try done.
    - apply andb_true_iff in E2 as [_ ?]. by repeat constructor.
    - intros r. cbn. by rewrite E1, E2. }
  destruct l as [|d l]; [done|].
  match type of Hv with (if ?x then _ else _) = _ => destruct x eqn:E3 end.
  { exists [b; c; d], l. repeat split; try done.
    - within_true; repeat constructor; rewrite ?within_iff in *; lia.
    - intros r. cbn [app utf8_valid]. by rewrite E1, E2, E3. }
  destruct l as [|e l]; [done|].
  match type of Hv with (if ?x then _ else _) = _ => destruct x eqn:E4 end; [|done].
  exists [b; c; d; e], l. repeat split; try done.
  - within_true; repeat constructor; rewrite ?within_iff in *; lia.
  - intros r. cbn [app utf8_valid]. by rewrite E1, E2, E3, E4.
Qed.

(** Cutting on a character boundary keeps a string valid. *)
Lemma utf8_take l n :
  utf8_valid l = true -> is_char_boundary l n = true -> utf8_valid (take n l) = true.
Proof.
  remember (length l) as k eqn:Hk. revert l n Hk. induction k as [k IH] using lt_wf_ind.
  intros l n Hk Hv Hb. destruct (decide (l = [])) as [->|Hne]; [by rewrite take_nil|].
  destruct (utf8_uncons l Hv Hne) as (ch & rest & -> & Hr & Hch & Ht & Hcons).
  rewrite length_app in Hk. assert (0 < length ch)%nat by (destruct ch; cbn; done || lia).
  destruct (decide (n < length ch)%nat) as [Hlt|Hge].
  - destruct n as [|n]; [done|]. exfalso. revert Hb. unfold is_char_boundary.
    rewrite lookup_app_l by done. destruct ch as [|b ch]; [done|]. cbn [tail] in Ht.
    destruct (lookup_lt_is_Some_2 ch n) as [c Hc]; [cbn in Hlt; lia|].
    change ((b :: ch) !! S n) with (ch !! n). rewrite Hc. rewrite Forall_lookup in Ht. by rewrite (Ht n c Hc).
  - rewrite firstn_app, take_ge, Hcons by lia.
    apply (IH (length rest)); try done; [lia|].
    revert Hb. unfold is_char_boundary. rewrite lookup_app_r by lia. rewrite length_app.
    destruct (rest !! _); [done|]. intros Hb%Nat.eqb_eq. apply Nat.eqb_eq. lia.
Qed.

Lemma char_cut_spec l n :
  utf8_valid l = true -> (n <= length l)%nat ->
  is_char_boundary l (char_cut l n) = true /\ (char_cut l n <= n)%nat.
Proof.
  intros Hv. induction n as [|n IH]; intros Hn; cbn [char_cut].
  - split; [|done]. destruct (decide (l = [])) as [->|Hne]; [done|].
    destruct l as [|b l]; [done|]. unfold is_char_boundary. cbn.
    cbn [utf8_valid] in Hv. destruct (Z.ltb_spec b 0x80).
    { destruct (within 0x80 0xBF b) eqn:E; [|done]. apply within_iff in E. lia. }
    destruct (within 0x80 0xBF b) eqn:E; [|done]. exfalso. apply within_iff in E.
    destruct l as [|c l]; [done|].
    destruct (within 0xC2 0xDF b) eqn:E2; [apply within_iff in E2; lia|]. cbn [andb] in Hv.
    destruct l as [|d l]; [done|].
    match type of Hv with (if ?x then _ else _) = _ => destruct x eqn:E3 end.
    { within_true; rewrite ?within_iff, ?Z.eqb_eq in *; lia. }
    destruct l as [|e l]; [done|].
    match type of Hv with (if ?x then _ else _) = _ => destruct x eqn:E4 end; [|done].
    within_true; rewrite ?within_iff, ?Z.eqb_eq in *; lia.
  - destruct (is_char_boundary l (S n)) eqn:E; [done|].
    destruct (IH ltac:(lia)) as [? ?]. split; [done|lia].
Qed.

(** The payload of a close frame: the code, and as much of the reason as fits. *)
Definition close_payload (code : Z) (reason : string) : list Z :=
  be_bytes 2 code
  ++ take (char_cut (bytes_of_string reason) (Nat.min (length (bytes_of_string reason)) 123))
       (bytes_of_string reason).

Lemma close_reason_spec reason :
  utf8_string reason = true ->
  let cut := char_cut (bytes_of_string reason) (Nat.min (length (bytes_of_string reason)) 123) in
  utf8_valid (take cut (bytes_of_string reason)) = true /\
  (length (take cut (bytes_of_string reason)) <= 123)%nat.
Proof.
  intros Hu. destruct (char_cut_spec (bytes_of_string reason)
    (Nat.min (length (bytes_of_string reason)) 123)) as [Hb Hl]; [done|lia|].
  split; [by apply utf8_take|]. rewrite length_take. lia.
Qed.

Lemma close_payload_sendable code reason :
  utf8_string reason = true -> sendable Close (close_payload code reason).
Proof.
  intros Hu. pose proof (close_reason_spec reason Hu) as [_ Hl]. unfold close_payload.
  split; [|split].
  - apply Forall_app_2; [apply Forall_rev, le_bytes_u8|apply Forall_take, bytes_of_string_u8].
  - rewrite length_app, length_be_bytes. unfold u64_max. lia.
  - intros _. rewrite length_app, length_be_bytes. lia.
Qed.

(** ** The properties *)

(** The word-at-a-time masking loop computes the byte-wise mask of RFC 6455,
    byte i against byte i mod 4 of the key, on either byte order, and undoes
    itself. *)
Lemma unmask_is_bytewise big payload key :
  Forall is_u8 payload -> Forall is_u8 (key_bytes key) ->
  unmask big payload key = masked payload key /\
  unmask big (unmask big payload key) key = payload.
Proof. intros. split; [by apply unmask_masked|by apply unmask_unmask]. Qed.

(** A frame built by one end decodes at the other to the same flags, opcode
    and payload, and exactly its bytes are consumed: a client frame under any
    key at a server, a server frame at a client. *)
Theorem frames_round_trip big op rsv1 payload key max rest :
  sendable op payload -> Forall is_u8 (key_bytes key) -> Z.of_nat (length payload) <= max ->
  decode_as big (build_masked big op rsv1 payload key ++ rest) max Server =
    (Ok (Some (mkFrame true rsv1 op payload)), rest) /\
  decode_as big (build op rsv1 payload ++ rest) max Client =
    (Ok (Some (mkFrame true rsv1 op payload)), rest).
Proof. intros. split; [by apply decode_build_masked|by apply decode_build]. Qed.

Definition sample_key : Key := (0xDE, 0xAD, 0xBE, 0xEF).
Definition sample_payload : list Z := replicate 200 113.

Lemma sample_payload_sendable : sendable Text sample_payload.
Proof. split; [by apply Forall_replicate|]. by split. Qed.

(** A concrete list of bytes. *)
Ltac u8s := vm_compute; repeat (apply Forall_cons; split; [split; [discriminate|reflexivity]|]);
  constructor.

Lemma sample_key_u8 : Forall is_u8 (key_bytes sample_key).
Proof. u8s. Qed.

Lemma unmask_is_bytewise_witness :
  unmask true (masked [1; 2; 3; 4; 5; 6] sample_key) sample_key =
  masked (masked [1; 2; 3; 4; 5; 6] sample_key) sample_key.
Proof.
  apply (unmask_is_bytewise true (masked [1; 2; 3; 4; 5; 6] sample_key) sample_key);
    u8s.
Defined.

Lemma frames_round_trip_witness :
  decode_as false (build_masked false Text true sample_payload sample_key ++ [7]) 1000 Server =
    (Ok (Some (mkFrame true true Text sample_payload)), [7]) /\
  decode_as false (build Text true sample_payload ++ [7]) 1000 Client =
    (Ok (Some (mkFrame true true Text sample_payload)), [7]).
Proof.
  apply frames_round_trip; [apply sample_payload_sendable|apply sample_key_u8|].
  vm_compute. discriminate.
Defined.
