(* ===== verification/ReadLoop.v ===== *)
(** * Frames to messages

    [pahoa-net/src/ws/message.rs]: reassembly of fragments, the rules on control
    frames, inflation of the whole message and only then the UTF-8 check; and
    the read loop of [server.rs] that drives it from a socket's bytes.  The
    zlib decompressor of a connection is a parameter: a state and a function
    from it. *)

From Stdlib Require Import ZArith Lia Bool.
From stdpp Require Import base tactics list strings.
From S2P Require Import Prelude Frame FrameTheorems.

Inductive DeflateError :=
| DeflateTooLarge (limit : Z)
| Corrupt (detail : string).

Inductive ProtocolError :=
| OrphanContinuation
| InterleavedMessage
| Rsv1OnContinuation
| UnexpectedCompression
| TooLarge (len limit : Z)
| NotUtf8
| ShortClose
| BadCloseCode (code : Z)
| Deflate (e : DeflateError).

Inductive Event :=
| EvText (text : string)
| EvBinary (payload : list Z)
| EvPing (payload : list Z)
| EvPong (payload : list Z)
| EvClose (frame : option (Z * string)).

Record Partial := mkPartial {
  p_opcode : OpCode;
  p_compressed : bool;
  p_buf : list Z;
}.

(** The decompressor: [inflate d input] is [Inflater::decompress]. *)
Class Inflate (D : Type) := inflate : D -> list Z -> result DeflateError (list Z) * D.

(** [matches!(code, 1000..=1003 | 1007..=1011 | 3000..=4999)]. *)
Definition close_code_allowed (code : Z) : bool :=
  within 1000 1003 code || within 1007 1011 code || within 3000 4999 code.

(** [str::from_utf8(bytes).map_err(NotUtf8)?.to_owned()]. *)
Definition text_of (bytes : list Z) : result ProtocolError string :=
  if utf8_valid bytes then Ok (string_of_bytes bytes) else Err NotUtf8.

(** [None]: not a control opcode, which the caller rules out. *)
Definition control (frame : Frame) : option (result ProtocolError Event) :=
  match fr_opcode frame with
  | Ping => Some (Ok (EvPing (fr_payload frame)))
  | Pong => Some (Ok (EvPong (fr_payload frame)))
  | Close => Some
      match fr_payload frame with
      | [] => Ok (EvClose None)
      | [_] => Err ShortClose
      | hi :: lo :: reason =>
          let code := be_val [hi; lo] in
          if negb (close_code_allowed code) then Err (BadCloseCode code)
          else reason ← text_of reason; Ok (EvClose (Some (code, reason)))
      end
  | _ => None
  end.

Section Session.
Context {D : Type} `{Inflate D}.

Record Session := mkSession {
  s_inflater : option D;
  s_partial : option Partial;
  s_max_message : Z;
}.

Definition new_session (inflater : option D) (max_message : Z) : Session :=
  mkSession inflater None max_message.

(** Reassembled: now inflate, then validate. *)
Definition finish (s : Session) (partial : Partial) : result ProtocolError Event * Session :=
  let '(payload, s) :=
    if p_compressed partial then
      match s_inflater s with
      | None => (Err UnexpectedCompression, s)
      | Some d =>
          let '(r, d) := inflate d (p_buf partial) in
          (match r with Ok p => Ok p | Err e => Err (Deflate e) end,
           mkSession (Some d) (s_partial s) (s_max_message s))
      end
    else (Ok (p_buf partial), s) in
  (payload ← payload;
   if s_max_message s <? Z.of_nat (length payload)
   then Err (TooLarge (Z.of_nat (length payload)) (s_max_message s))
   else match p_opcode partial with
   | Text => text ← text_of payload; Ok (EvText text)
   | _ => Ok (EvBinary payload)
   end, s).

(** The bookkeeping of a data frame: the partial message it leaves. *)
Definition accept_data (s : Session) (frame : Frame) : result ProtocolError Partial :=
  match fr_opcode frame with
  | Continuation =>
      if fr_rsv1 frame then Err Rsv1OnContinuation
      else match s_partial s with
      | None => Err OrphanContinuation
      | Some partial =>
          let len := Z.of_nat (length (p_buf partial)) + Z.of_nat (length (fr_payload frame)) in
          if s_max_message s <? len then Err (TooLarge len (s_max_message s))
          else Ok (mkPartial (p_opcode partial) (p_compressed partial)
                     (p_buf partial ++ fr_payload frame))
      end
  | _ =>
      if bool_decide (is_Some (s_partial s)) then Err InterleavedMessage
      else if fr_rsv1 frame && negb (bool_decide (is_Some (s_inflater s)))
      then Err UnexpectedCompression
      else
        let len := Z.of_nat (length (fr_payload frame)) in
        if s_max_message s <? len then Err (TooLarge len (s_max_message s))
        else Ok (mkPartial (fr_opcode frame) (fr_rsv1 frame) (fr_payload frame))
  end.

Definition set_partial (p : option Partial) (s : Session) : Session :=
  mkSession (s_inflater s) p (s_max_message s).

(** [Session::handle]: [Ok None] while the message is incomplete. *)
Definition handle_frame (s : Session) (frame : Frame)
    : result ProtocolError (option Event) * Session :=
  match control frame with
  | Some r => (Some <$> r, s)
  | None =>
      match accept_data s frame with
      | Err e => (Err e, s)
      | Ok partial =>
          if negb (fr_fin frame) then (Ok None, set_partial (Some partial) s)
          else
            let '(r, s) := finish (set_partial None s) partial in
            (Some <$> r, s)
      end
  end.
End Session.
Arguments Session : clear implicits.

(** * A connection's reader

    The read loop of [serve_connection] in [pahoa-net/src/server.rs] and
    [handle_event]: bytes off a socket, in whatever pieces they arrive, become
    frames, events and finally what the room's actor and the connection's writer
    are handed.  The two calls out of this crate's framing are parameters: the
    packet decoder, whose own model is [Codec], and the decompressor. *)

Definition CLOSE_NORMAL : Z := 1000.

(** What a finished connection is reported with. *)
Inductive Ended :=
| RoomStopped
| Undecodable
| PeerClosedCode (code : Z)
| PeerClosed
| ProtocolFault (e : ProtocolError)
| BadFrame (e : FrameError).

Section ReadLoop.
Context {D : Type} `{Inflate D}.
Context {E P : Type} (decode_text : string -> result E (list P)).
(** The machine's byte order, and whether the actor still takes messages. *)
Context (big_endian room_up : bool) (max_frame_bytes : Z).

(** What a reader does to the rest of the server: messages to the actor,
    frames to the writer, and the count of pongs. *)
Inductive Action :=
| SendPackets (packets : list P) (bytes : nat)
| SendDecodeFailed (detail : E)
| SendFrame (frame : list Z)
| CountPong.

Definition handle_event (event : Event) (bytes : nat) : list Action * option Ended :=
  match event with
  | EvText text =>
      match decode_text text with
      | Ok packets =>
          if room_up then ([SendPackets packets bytes], None) else ([], Some RoomStopped)
      | Err e => (if room_up then [SendDecodeFailed e] else [], Some Undecodable)
      end
  | EvBinary _ => ([], None)
  | EvPing payload => ([SendFrame (build Pong false payload)], None)
  | EvPong _ => ([CountPong], None)
  | EvClose frame =>
      let '(code, reason) := default (CLOSE_NORMAL, EmptyString) frame in
      ([SendFrame (close code reason)], Some (PeerClosedCode code))
  end.

Record Reading := mkReading {
  rd_buf : list Z;
  rd_session : Session D;
  rd_message_bytes : nat;
}.

(** The inner loop: every whole frame of the buffer. *)
Fixpoint drain (fuel : nat) (st : Reading) : list Action * option Ended * Reading :=
  match fuel with
  | O => ([], None, st)
  | S fuel =>
      match decode big_endian (rd_buf st) max_frame_bytes with
      | (Err e, _) => ([], Some (BadFrame e), st)
      | (Ok None, _) => ([], None, st)
      | (Ok (Some frame), buf) =>
          let bytes := (rd_message_bytes st + (length (rd_buf st) - length buf))%nat in
          match handle_frame (rd_session st) frame with
          | (Err e, s) => ([], Some (ProtocolFault e), mkReading buf s bytes)
          | (Ok None, s) => drain fuel (mkReading buf s bytes)
          | (Ok (Some event), s) =>
              match handle_event event bytes with
              | (acts, Some reason) => (acts, Some reason, mkReading buf s 0)
              | (acts, None) =>
                  let '(more, out, st) := drain fuel (mkReading buf s 0) in
                  (acts ++ more, out, st)
              end
          end
      end
  end.

(** A frame takes at least two bytes, so this many rounds reach the end. *)
Definition drain_fuel (st : Reading) : nat := S (length (rd_buf st)).

Definition drain_all (st : Reading) := drain (drain_fuel st) st.

Definition feed (bytes : list Z) (st : Reading) : Reading :=
  mkReading (rd_buf st ++ bytes) (rd_session st) (rd_message_bytes st).

(** The outer loop over the reads of the socket; a read of nothing is the end
    of the stream, and the end of the list is a socket that has not yet
    delivered more. *)
Fixpoint read_loop (st : Reading) (reads : list (list Z))
    : list Action * option Ended * Reading :=
  let '(acts, out, st) := drain_all st in
  match out with
  | Some _ => (acts, out, st)
  | None =>
      match reads with
      | [] => (acts, None, st)
      | [] :: _ => (acts, Some PeerClosed, st)
      | bytes :: reads =>
          let '(more, out, st) := read_loop (feed bytes st) reads in
          (acts ++ more, out, st)
      end
  end.
End ReadLoop.
Arguments Reading : clear implicits.
Arguments Action : clear implicits.
