(* ===== verification/ReadLoopTheorems.v ===== *)
(** * A connection's reader: what it guarantees

    How the peer's bytes are cut into reads does not matter, the inner loop
    always ends, messages survive any fragmentation with control frames between
    the pieces, and a client's frames reach the room as the packets they carry. *)

From Stdlib Require Import ZArith Lia Bool.
From stdpp Require Import base tactics list strings.
From S2P Require Import Prelude Frame FrameTheorems ReadLoop.

Section theorems.
Context {D : Type} `{Inflate D}.
Context {E P : Type} (decode_text : string -> result E (list P)).
Context (big room_up : bool) (max_frame_bytes : Z).

Notation drain := (drain decode_text big room_up max_frame_bytes).
Notation drain_all := (drain_all decode_text big room_up max_frame_bytes).
Notation read_loop := (read_loop decode_text big room_up max_frame_bytes).
Notation handle_event := (handle_event decode_text room_up).
Notation Reading := (Reading D).

(** One round of the inner loop, which either stops or takes a frame. *)
Lemma drain_enough fuel fuel' (st : Reading) :
  Forall is_u8 (rd_buf st) -> (length (rd_buf st) < fuel)%nat -> (length (rd_buf st) < fuel')%nat ->
  drain fuel st = drain fuel' st.
Proof.
  revert fuel' st. induction fuel as [|fuel IH]; intros fuel' st Hu Hf Hf'; [lia|].
  destruct fuel' as [|fuel']; [lia|]. cbn [ReadLoop.drain].
  destruct (decode big (rd_buf st) max_frame_bytes) as [[[frame|]|e] buf] eqn:Ed; try done.
  apply decode_as_takes in Ed as (Hl & _ & _ & _ & _ & Hr); [|done].
  destruct (handle_frame _ frame) as [[[ev|]|e] s]; [|by apply IH; cbn; [|lia..]|done].
  destruct (handle_event ev _) as [acts [r|]]; [done|].
  by rewrite (IH fuel') by (cbn; done || lia).
Qed.

(** The inner loop without its fuel. *)
Lemma drain_all_step (st : Reading) :
  Forall is_u8 (rd_buf st) ->
  drain_all st =
  match decode big (rd_buf st) max_frame_bytes with
  | (Err e, _) => ([], Some (BadFrame e), st)
  | (Ok None, _) => ([], None, st)
  | (Ok (Some frame), buf) =>
      let bytes := (rd_message_bytes st + (length (rd_buf st) - length buf))%nat in
      match handle_frame (rd_session st) frame with
      | (Err e, s) => ([], Some (ProtocolFault e), mkReading buf s bytes)
      | (Ok None, s) => drain_all (mkReading buf s bytes)
      | (Ok (Some event), s) =>
          match handle_event event bytes with
          | (acts, Some reason) => (acts, Some reason, mkReading buf s 0)
          | (acts, None) =>
              let '(more, out, st) := drain_all (mkReading buf s 0) in (acts ++ more, out, st)
          end
      end
  end.
Proof.
  intros Hu. unfold ReadLoop.drain_all. unfold drain_fuel at 1. cbn [ReadLoop.drain].
  destruct (decode big (rd_buf st) max_frame_bytes) as [[[frame|]|e] buf] eqn:Ed; try done.
  apply decode_as_takes in Ed as (Hl & _ & _ & _ & _ & Hr); [|done].
  destruct (handle_frame _ frame) as [[[ev|]|e] s]; [| |done].
  - destruct (handle_event ev _) as [acts [r|]]; [done|].
    rewrite (drain_enough _ (drain_fuel (mkReading buf s 0))); [done|done|unfold drain_fuel; cbn; lia..].
  - apply drain_enough; [done|unfold drain_fuel; cbn; lia..].
Qed.

(** Induction over the frames of a buffer. *)
Ltac frames st :=
  let n := fresh "n" in let Hn := fresh "Hn" in
  remember (length (rd_buf st)) as n eqn:Hn; revert st Hn;
  induction n as [n IH] using lt_wf_ind; intros st Hn.

(** The inner loop stops because it was told to, or because the buffer holds
    no whole frame: it never runs out of rounds. *)
Lemma drain_all_stops (st st' : Reading) acts :
  Forall is_u8 (rd_buf st) -> drain_all st = (acts, None, st') ->
  (exists rest, decode big (rd_buf st') max_frame_bytes = (Ok None, rest)) /\
  Forall is_u8 (rd_buf st').
Proof.
  revert acts. frames st. intros acts Hu. rewrite drain_all_step by done.
  destruct (decode big (rd_buf st) max_frame_bytes) as [[[frame|]|e] buf] eqn:Ed; [| |done].
  2:{ intros [= <- <-]. eauto. }
  apply decode_as_takes in Ed as (Hl & _ & _ & _ & _ & Hr); [|done].
  cbv zeta. destruct (handle_frame _ frame) as [[[ev|]|e] s]; [| |done].
  - destruct (handle_event ev _) as [acts' [r|]]; [done|].
    destruct (drain_all (mkReading buf s 0)) as [[more out] st2] eqn:Ed2.
    intros [= <- -> ->]. exact (IH (length buf) ltac:(lia) (mkReading buf s 0) eq_refl more Hr Ed2).
  - intros Ed2. exact (IH (length buf) ltac:(lia) (mkReading buf s _) eq_refl acts Hr Ed2).
Qed.

(** The inner loop ends: with one round for each byte it stops because the
    connection is over or because the buffer holds no whole frame, and more
    rounds would change nothing. *)
Lemma drain_terminates (st : Reading) fuel :
  Forall is_u8 (rd_buf st) -> (length (rd_buf st) < fuel)%nat ->
  drain fuel st = drain_all st /\
  (forall acts st', drain fuel st = (acts, None, st') ->
     decode big (rd_buf st') max_frame_bytes = (Ok None, rd_buf st')).
Proof.
  intros Hu Hf. assert (Hd : drain fuel st = drain_all st).
  { apply drain_enough; [done|done|]. unfold drain_fuel. lia. }
  split; [done|]. intros acts st' Hs. rewrite Hd in Hs.
  apply drain_all_stops in Hs as [[rest Hr] Hu']; [|done]. rewrite Hr.
  pose proof (decode_as_app big (rd_buf st') [] max_frame_bytes Server Hu') as Ha.
  fold (decode big (rd_buf st') max_frame_bytes) in Ha. rewrite Hr in Ha. by subst rest.
Qed.

(** Bytes that arrive later do not change what the bytes already there did. *)
Lemma drain_all_feed (st : Reading) more :
  Forall is_u8 (rd_buf st) -> Forall is_u8 more ->
  drain_all (feed more st) =
  match drain_all st with
  | (acts, Some r, st') => (acts, Some r, feed more st')
  | (acts, None, st') =>
      let '(acts', out, st'') := drain_all (feed more st') in (acts ++ acts', out, st'')
  end.
Proof.
  intros Hu Hm. revert Hu. frames st. intros Hu.
  rewrite (drain_all_step st) by done.
  pose proof (decode_as_app big (rd_buf st) more max_frame_bytes Server Hu) as Ha.
  fold (decode big (rd_buf st) max_frame_bytes) in Ha.
  fold (decode big (rd_buf st ++ more) max_frame_bytes) in Ha.
  destruct (decode big (rd_buf st) max_frame_bytes) as [[[frame|]|e] buf] eqn:Ed.
  2:{ by destruct (drain_all (feed more st)) as [[? ?] ?]. }
  - rewrite drain_all_step by (cbn; by apply Forall_app). cbn [feed rd_buf rd_session rd_message_bytes].
    rewrite Ha. apply decode_as_takes in Ed as (Hl & _ & _ & _ & _ & Hr); [|done].
    rewrite !length_app. replace (length (rd_buf st) + length more - (length buf + length more))%nat
      with (length (rd_buf st) - length buf)%nat by lia.
    cbv zeta. destruct (handle_frame _ frame) as [[[ev|]|e] s]; [| |done].
    + destruct (handle_event ev _) as [acts [r|]]; [done|].
      change (mkReading (buf ++ more) s 0) with (feed more (mkReading buf s 0)).
      rewrite (IH (length buf)) by (done || lia).
      destruct (drain_all (mkReading buf s 0)) as [[acts1 [r|]] st1]; [done|].
      destruct (drain_all (feed more st1)) as [[? ?] ?]. by rewrite app_assoc.
    + by apply (IH (length buf) ltac:(lia) (mkReading buf s _)).
  - rewrite drain_all_step by (cbn; by apply Forall_app). cbn [feed rd_buf]. by rewrite Ha.
Qed.

(** What the outside sees of a run: the actions and why it ended; the reader's
    own state counts only while it goes on. *)
Definition same_run (x y : list (Action E P) * option Ended * Reading) : Prop :=
  x.1 = y.1 /\ (x.1.2 = None -> x.2 = y.2).

Lemma read_loop_joined (st : Reading) (reads : list (list Z)) :
  Forall is_u8 (rd_buf st) -> Forall (Forall is_u8) reads -> Forall (fun r => r <> []) reads ->
  same_run (read_loop st reads)
    match drain_all st with
    | (acts, Some r, st') => (acts, Some r, st')
    | (acts, None, st') =>
        let '(acts', out, st'') := drain_all (feed (concat reads) st') in (acts ++ acts', out, st'')
    end.
Proof.
  intros Hu Hr Hne. revert st Hu.
  induction Hr as [|bytes reads Hb Hr IH]; intros st Hu; cbn [ReadLoop.read_loop concat];
    destruct (drain_all st) as [[acts [r|]] st1] eqn:Ed; try done.
  all: pose proof (drain_all_stops _ _ _ Hu Ed) as [[rest Hd] Hu1].
  - rewrite drain_all_step by (cbn; by rewrite app_nil_r). unfold feed. cbn [rd_buf].
    rewrite app_nil_r, Hd, app_nil_r. by destruct st1.
  - apply Forall_cons in Hne as [Hn Hne]. destruct bytes as [|b bytes]; [done|].
    assert (Hu2 : Forall is_u8 (rd_buf (feed (b :: bytes) st1))) by (cbn; by apply Forall_app).
    specialize (IH Hne _ Hu2).
    replace (feed ((b :: bytes) ++ concat reads) st1) with (feed (concat reads) (feed (b :: bytes) st1))
      by (unfold feed; cbn; by rewrite <- app_assoc).
    rewrite (drain_all_feed _ (concat reads)) by (try done; by apply Forall_concat).
    destruct (read_loop (feed (b :: bytes) st1) reads) as [[acts2 out2] st2].
    destruct (drain_all (feed (b :: bytes) st1)) as [[acts3 [r|]] st3].
    + destruct IH as [[= -> ->] _]. done.
    + destruct (drain_all (feed (concat reads) st3)) as [[acts4 out4] st4].
      destruct IH as [[= -> ->] H2]. split; [done|]. exact H2.
Qed.

(** How the peer's bytes are cut into reads makes no difference to what the
    server does or to why the connection ends. *)
Lemma reads_may_be_cut_anywhere (st : Reading) (reads : list (list Z)) :
  Forall is_u8 (rd_buf st) -> Forall (Forall is_u8) reads -> Forall (fun r => r <> []) reads ->
  reads <> [] -> same_run (read_loop st reads) (read_loop st [concat reads]).
Proof.
  intros Hu Hr Hne Hnn.
  assert (Hc : concat reads <> []) by (destruct Hne as [|[|b l] ? ? ?]; done).
  assert (Hcu : Forall is_u8 (concat reads)) by (by apply Forall_concat).
  destruct (read_loop_joined st reads) as [H1 H2]; [done..|].
  destruct (read_loop_joined st [concat reads]) as [H3 H4]; [done|by repeat constructor..|].
  cbn [concat] in H3, H4. rewrite app_nil_r in H3, H4.
  split; [congruence|]. intros Hn. rewrite H2, H4 by congruence. done.
Qed.

(** ** Fragments *)

(** The frames of one message: each part preceded by the control frames that
    arrive before it. *)
Fixpoint fragments (op : OpCode) (rsv1 : bool) (parts : list (list Frame * list Z)) : list Frame :=
  match parts with
  | [] => []
  | [(cs, p)] => cs ++ [mkFrame true rsv1 op p]
  | (cs, p) :: parts => cs ++ mkFrame false rsv1 op p :: fragments Continuation false parts
  end.

Lemma fragments_cons op rsv1 cs p q parts :
  fragments op rsv1 ((cs, p) :: q :: parts) =
  cs ++ mkFrame false rsv1 op p :: fragments Continuation false (q :: parts).
Proof. done. Qed.

(** Every frame in turn, up to the first error. *)
Fixpoint handle_frames (s : Session D) (frames : list Frame)
    : list Event * option ProtocolError * Session D :=
  match frames with
  | [] => ([], None, s)
  | f :: frames =>
      match handle_frame s f with
      | (Err e, s) => ([], Some e, s)
      | (Ok event, s) =>
          let '(events, e, s) := handle_frames s frames in (option_list event ++ events, e, s)
      end
  end.

Definition control_event (f : Frame) (ev : Event) : Prop := control f = Some (Ok ev).

Lemma handle_controls (s : Session D) cs evs frames :
  Forall2 control_event cs evs ->
  handle_frames s (cs ++ frames) =
  let '(events, e, s) := handle_frames s frames in (evs ++ events, e, s).
Proof.
  induction 1 as [|c ev cs evs Hc _ IH]; cbn [app handle_frames].
  { by destruct (handle_frames s frames) as [[? ?] ?]. }
  unfold handle_frame. rewrite Hc. cbn [fmap result_fmap]. rewrite IH.
  by destruct (handle_frames s frames) as [[? ?] ?].
Qed.

Definition total (parts : list (list Frame * list Z)) : Z :=
  Z.of_nat (length (concat (parts.*2))).

(** The rest of a message whose first parts are already in [acc]. *)
Lemma handle_continuations (s : Session D) op rsv1 acc parts evs :
  Forall2 (fun p es => Forall2 control_event p.1 es) parts evs -> parts <> [] ->
  Z.of_nat (length acc) + total parts <= s_max_message s ->
  handle_frames (set_partial (Some (mkPartial op rsv1 acc)) s) (fragments Continuation false parts) =
  match finish (set_partial None s) (mkPartial op rsv1 (acc ++ concat (parts.*2))) with
  | (Ok ev, s) => (concat evs ++ [ev], None, s)
  | (Err e, s) => (concat evs, Some e, s)
  end.
Proof.
  intros HF. revert acc. induction HF as [|[cs p] es parts evs Hc HF IH]; intros acc Hne Hl; [done|].
  assert (Hlen : Z.of_nat (length acc) + Z.of_nat (length p) + total parts <= s_max_message s).
  { revert Hl. unfold total. rewrite fmap_cons. cbn [concat snd]. rewrite length_app. lia. }
  assert (Hacc : forall fin, accept_data (set_partial (Some (mkPartial op rsv1 acc)) s)
    (mkFrame fin false Continuation p) = Ok (mkPartial op rsv1 (acc ++ p))).
  { intros fin. unfold accept_data. cbn. rewrite (proj2 (Z.ltb_ge _ _)); [done|].
    unfold total in Hlen. lia. }
  rewrite fmap_cons. cbn [concat snd]. rewrite app_assoc.
  destruct parts as [|q parts].
  - cbn [fragments]. rewrite (handle_controls _ _ _ _ Hc). cbn [handle_frames].
    unfold handle_frame. cbn [control fr_opcode]. rewrite Hacc. cbn [fr_fin negb].
    inversion HF; subst. cbn [fmap list_fmap concat]. rewrite !app_nil_r.
    change (set_partial None (set_partial (Some (mkPartial op rsv1 acc)) s)) with (set_partial None s).
    destruct (finish (set_partial None s) _) as [[ev|e] s']; cbn; [done|by rewrite app_nil_r].
  - rewrite fragments_cons, (handle_controls _ _ _ _ Hc). cbn [handle_frames].
    unfold handle_frame at 1. cbn [control fr_opcode]. rewrite Hacc. cbn [fr_fin negb].
    change (set_partial (Some ?x) (set_partial (Some (mkPartial op rsv1 acc)) s))
      with (set_partial (Some x) s).
    specialize (IH (acc ++ p) ltac:(done)). rewrite IH by (rewrite length_app; lia).
    destruct (finish _ _) as [[ev|e] s']; cbn; by rewrite <- ?app_assoc.
Qed.

(** A message in any number of pieces, with control frames between them: the
    control frames are answered where they stand, and the message is judged
    once, whole. *)
Lemma fragments_reassemble (s : Session D) op rsv1 parts evs :
  s_partial s = None -> op = Text \/ op = Binary ->
  (rsv1 = true -> is_Some (s_inflater s)) ->
  Forall2 (fun p es => Forall2 control_event p.1 es) parts evs -> parts <> [] ->
  total parts <= s_max_message s ->
  handle_frames s (fragments op rsv1 parts) =
  match finish s (mkPartial op rsv1 (concat (parts.*2))) with
  | (Ok ev, s) => (concat evs ++ [ev], None, s)
  | (Err e, s) => (concat evs, Some e, s)
  end.
Proof.
  intros Hp Hop Hz HF Hne Hl.
  destruct HF as [|[cs p] es parts evs Hc HF]; [done|].
  assert (Hs : set_partial None s = s) by (destruct s; cbn in Hp; by subst).
  assert (Hlen : Z.of_nat (length p) + total parts <= s_max_message s).
  { revert Hl. unfold total. rewrite fmap_cons. cbn [concat snd]. rewrite length_app. lia. }
  assert (Hacc : forall fin, accept_data s (mkFrame fin rsv1 op p) = Ok (mkPartial op rsv1 p)).
  { intros fin. unfold accept_data. cbn [fr_opcode fr_rsv1 fr_payload].
    rewrite bool_decide_false by (rewrite Hp; by intros [? ?]).
    assert (Hnz : rsv1 && negb (bool_decide (is_Some (s_inflater s))) = false).
    { destruct rsv1; [|done]. by rewrite bool_decide_true by auto. }
    rewrite Hnz, (proj2 (Z.ltb_ge _ _)) by (unfold total in Hlen; lia). by destruct Hop as [-> | ->]. }
  assert (Hctl : forall fin, control (mkFrame fin rsv1 op p) = None) by (by destruct Hop as [-> | ->]).
  rewrite fmap_cons. cbn [concat snd].
  destruct parts as [|q parts].
  - cbn [fragments]. rewrite (handle_controls _ _ _ _ Hc). cbn [handle_frames].
    unfold handle_frame. rewrite Hctl, Hacc. cbn [fr_fin negb]. rewrite Hs.
    inversion HF; subst. cbn [fmap list_fmap concat]. rewrite !app_nil_r.
    destruct (finish s _) as [[ev|e] s']; cbn; [done|by rewrite app_nil_r].
  - rewrite fragments_cons, (handle_controls _ _ _ _ Hc). cbn [handle_frames].
    unfold handle_frame at 1. rewrite Hctl, Hacc. cbn [fr_fin negb].
    rewrite (handle_continuations s op rsv1 p (q :: parts) evs) by done. rewrite Hs.
    destruct (finish _ _) as [[ev|e] s']; cbn; by rewrite <- ?app_assoc.
Qed.

(** ** Whole messages *)

(** A text message as a client frames it. *)
Definition client_message (m : string * Key) : list Z :=
  build_masked big Text false (bytes_of_string m.1) m.2.

Definition message_ok (max_message : Z) (m : string * Key) : Prop :=
  utf8_string m.1 = true /\ Forall is_u8 (key_bytes m.2) /\
  Z.of_nat (length (bytes_of_string m.1)) <= Z.min max_frame_bytes max_message /\
  Z.of_nat (length (bytes_of_string m.1)) <= u64_max.

Lemma sendable_text m max_message :
  message_ok max_message m -> sendable Text (bytes_of_string m.1).
Proof. intros (_ & _ & _ & Hl). split; [apply bytes_of_string_u8|]. by split. Qed.

Lemma finish_text (s : Session D) text :
  utf8_string text = true -> Z.of_nat (length (bytes_of_string text)) <= s_max_message s ->
  finish s (mkPartial Text false (bytes_of_string text)) = (Ok (EvText text), s).
Proof.
  intros Hu Hl. unfold finish. cbn [p_compressed p_buf p_opcode mbind result_bind].
  rewrite (proj2 (Z.ltb_ge _ _)) by done. unfold text_of. fold (utf8_string text).
  rewrite Hu. cbn. by rewrite string_of_bytes_of.
Qed.

Lemma handle_text (s : Session D) text :
  s_partial s = None -> utf8_string text = true ->
  Z.of_nat (length (bytes_of_string text)) <= s_max_message s ->
  handle_frame s (mkFrame true false Text (bytes_of_string text)) = (Ok (Some (EvText text)), s).
Proof.
  intros Hp Hu Hl. unfold handle_frame, accept_data. cbn [control fr_opcode fr_rsv1 fr_payload fr_fin].
  rewrite bool_decide_false by (rewrite Hp; by intros [? ?]). cbn [andb].
  rewrite (proj2 (Z.ltb_ge _ _)) by done. cbn [negb].
  rewrite finish_text by done. cbn. destruct s as [i p mx]. cbn in Hp. by subst p.
Qed.

Lemma client_messages_u8 max_message msgs :
  Forall (message_ok max_message) msgs -> Forall is_u8 (concat (client_message <$> msgs)).
Proof.
  intros Hl. induction Hl as [|m l (_ & Hk & _ & Hlen) Hl IH]; [constructor|].
  rewrite fmap_cons. cbn [concat]. apply Forall_app_2; [|done].
  apply build_masked_u8; [apply bytes_of_string_u8|done|done].
Qed.

Lemma drain_all_messages (packets_of : string -> list P) (s : Session D) msgs :
  s_partial s = None -> room_up = true ->
  Forall (message_ok (s_max_message s)) msgs ->
  (forall m, m ∈ msgs -> decode_text m.1 = Ok (packets_of m.1)) ->
  drain_all (mkReading (concat (client_message <$> msgs)) s 0) =
  ((fun m => SendPackets (packets_of m.1) (length (client_message m))) <$> msgs, None,
   mkReading [] s 0).
Proof.
  intros Hp Hup Hok Hd.
  induction Hok as [|m msgs Hm Hok IH]; [done|].
  rewrite drain_all_step by (by eapply client_messages_u8, Forall_cons_2).
  cbn [rd_buf rd_session rd_message_bytes]. rewrite !fmap_cons. cbn [concat].
  assert (Hm' := Hm). destruct Hm' as (Hutf & Hk & Hmin & _).
  assert (Hdec : forall rest, decode big (client_message m ++ rest) max_frame_bytes =
    (Ok (Some (mkFrame true false Text (bytes_of_string m.1))), rest)).
  { intros rest. apply decode_build_masked; [by eapply sendable_text|done|lia]. }
  assert (Hev : forall b, handle_event (EvText m.1) b = ([SendPackets (packets_of m.1) b], None)).
  { intros b. unfold ReadLoop.handle_event. by rewrite (Hd m), Hup by left. }
  rewrite Hdec. cbv zeta. rewrite handle_text by (done || lia). rewrite Hev.
  rewrite IH by (intros; apply Hd; by right).
  cbn [app]. do 4 f_equal. rewrite length_app. lia.
Qed.

(** ** What the server sends *)

(** The peer's half of a session, given the decompressor that undoes the
    server's compressor on this payload. *)
Lemma outgoing_decodes compress payload max rest :
  Forall is_u8 payload -> Forall is_u8 (compress payload) ->
  Z.of_nat (length payload) <= Z.min max u64_max ->
  exists rsv1 body,
    decode_as big (deflated compress (outgoing_text payload) ++ rest) max Client =
      (Ok (Some (mkFrame true rsv1 Text body)), rest) /\
    body = (if rsv1 then compress payload else payload) /\
    (length body <= length payload)%nat.
Proof.
  intros Hp Hc Hl. unfold deflated.
  assert (Hpay : outgoing_payload (outgoing_text payload) = payload).
  { unfold outgoing_payload, outgoing_text. cbn [o_plain o_header_len].
    unfold build. rewrite length_app, Nat.add_sub. by rewrite drop_app_length. }
  rewrite Hpay.
  assert (Hplain : forall r, decode_as big (o_plain (outgoing_text payload) ++ r) max Client =
    (Ok (Some (mkFrame true false Text payload)), r)).
  { intros r. apply decode_build; [|lia]. split; [done|]. split; [lia|done]. }
  destruct (length payload <? MIN_COMPRESS_BYTES)%nat; [by exists false, payload|].
  destruct (Nat.leb_spec (length payload) (length (compress payload))); [by exists false, payload|].
  exists true, (compress payload). split; [|split; [done|lia]].
  apply decode_build; [|lia]. split; [done|]. split; [lia|done].
Qed.

Lemma messages_delivered (packets_of : string -> list P) (s : Session D) msgs reads :
  s_partial s = None -> room_up = true ->
  Forall (message_ok (s_max_message s)) msgs ->
  (forall m, m ∈ msgs -> decode_text m.1 = Ok (packets_of m.1)) ->
  Forall (fun r => r <> []) reads -> concat reads = concat (client_message <$> msgs) ->
  read_loop (mkReading [] s 0) reads =
  ((fun m => SendPackets (packets_of m.1) (length (client_message m))) <$> msgs, None,
   mkReading [] s 0).
Proof.
  intros Hp Hup Hok Hd Hne Hc.
  assert (Hu : Forall is_u8 (concat (client_message <$> msgs))).
  { by eapply client_messages_u8. }
  assert (Hr : Forall (Forall is_u8) reads) by (rewrite <- Hc in Hu; by apply Forall_concat in Hu).
  destruct (read_loop_joined (mkReading [] s 0) reads) as [H1 H2]; [constructor|done..|].
  change (drain_all (mkReading [] s 0)) with
    (@nil (Action E P), @None Ended, mkReading [] s 0) in H1, H2.
  cbv beta iota zeta in H1, H2. unfold feed in H1, H2. cbn [rd_buf rd_session rd_message_bytes app] in H1, H2.
  rewrite Hc, (drain_all_messages packets_of) in H1, H2 by done.
  destruct (read_loop (mkReading [] s 0) reads) as [[acts out] st].
  cbn in H1, H2. injection H1 as -> ->. by rewrite H2.
Qed.

(** A text message the server sends, compressed or not, is read by a client
    as that text: the compressed form is used only when it is shorter, and the
    client that negotiated it holds a decompressor that undoes it. *)
Lemma outgoing_delivered compress text (s : Session D) d d' max rest :
  utf8_string text = true -> s_partial s = None -> s_inflater s = Some d ->
  Z.of_nat (length (bytes_of_string text)) <= Z.min (Z.min max u64_max) (s_max_message s) ->
  Forall is_u8 (compress (bytes_of_string text)) ->
  inflate d (compress (bytes_of_string text)) = (Ok (bytes_of_string text), d') ->
  exists frame s',
    decode_as big (deflated compress (outgoing_text (bytes_of_string text)) ++ rest) max Client =
      (Ok (Some frame), rest) /\
    handle_frame s frame = (Ok (Some (EvText text)), s').
Proof.
  intros Hu Hp Hi Hl Hc Hinf.
  destruct (outgoing_decodes compress (bytes_of_string text) max rest) as (rsv1 & body & Hd & Hb & Hlen);
    [apply bytes_of_string_u8|done|lia|].
  destruct rsv1; subst body.
  2:{ exists (mkFrame true false Text (bytes_of_string text)), s. split; [done|].
      apply handle_text; [done|done|lia]. }
  exists (mkFrame true true Text (compress (bytes_of_string text))),
    (mkSession (Some d') None (s_max_message s)). split; [done|].
  unfold handle_frame, accept_data. cbn [control fr_opcode fr_rsv1 fr_payload fr_fin].
  rewrite bool_decide_false by (rewrite Hp; by intros [? ?]).
  rewrite bool_decide_true by (by rewrite Hi). cbn [andb negb].
  rewrite (proj2 (Z.ltb_ge _ _)) by lia. cbn [negb].
  unfold finish. cbn [p_compressed p_buf p_opcode set_partial s_inflater s_partial s_max_message].
  rewrite Hi, Hinf. cbn [mbind result_bind].
  cbn [s_max_message]. rewrite (proj2 (Z.ltb_ge _ _)) by lia. unfold text_of. fold (utf8_string text).
  rewrite Hu. cbn. by rewrite string_of_bytes_of.
Qed.

(** A close frame the server sends is at most 125 bytes long and a client
    reads from it the code and a prefix of the reason, cut on a character
    boundary. *)
Lemma close_understood code reason (s : Session D) max rest :
  close_code_allowed code = true -> utf8_string reason = true -> 125 <= max ->
  exists frame said,
    decode_as big (close code reason ++ rest) max Client = (Ok (Some frame), rest) /\
    (length (fr_payload frame) <= 125)%nat /\
    handle_frame s frame = (Ok (Some (EvClose (Some (code, said)))), s) /\
    utf8_string said = true /\ bytes_of_string said `prefix_of` bytes_of_string reason.
Proof.
  intros Hcode Hu Hm. pose proof (close_reason_spec reason Hu) as [Hv Hl].
  pose proof (close_payload_sendable code reason Hu) as Hs.
  assert (Hcu : is_u16 code).
  { revert Hcode. unfold close_code_allowed, is_u16. rewrite !orb_true_iff, !within_iff. lia. }
  set (cut := char_cut _ _) in *. set (said := take cut (bytes_of_string reason)) in *.
  assert (Hsu : Forall is_u8 said) by (apply Forall_take, bytes_of_string_u8).
  exists (mkFrame true false Close (close_payload code reason)), (string_of_bytes said).
  destruct Hs as (Hs1 & Hs2 & Hs3). split; [|split; [|split; [|split]]].
  - apply decode_build; [done|]. specialize (Hs3 eq_refl). lia.
  - specialize (Hs3 eq_refl). cbn [fr_payload]. lia.
  - unfold handle_frame, control. cbn [fr_opcode fr_payload]. unfold close_payload. fold cut said.
    replace (be_bytes 2 code ++ said) with (code / 256 mod 256 :: code mod 256 :: said) by done.
    assert (Hbe : be_val [code / 256 mod 256; code mod 256] = code)
      by (apply (be_val_bytes 2); unfold is_u16 in Hcu; lia).
    rewrite Hbe, Hcode. cbn [negb]. unfold text_of. rewrite Hv. cbn. done.
  - unfold utf8_string. by rewrite bytes_of_string_of.
  - rewrite bytes_of_string_of by done. apply prefix_take.
Qed.
End theorems.

(** ** Witnesses: a connection without compression, a decoder that counts the
    bytes of a text *)

#[local] Instance identity_inflate : Inflate unit := fun d input => (Ok input, d).

Definition count_text (text : string) : result unit (list nat) :=
  Ok [length (bytes_of_string text)].

Definition demo_session : Session unit := new_session (Some tt) 1000.
Definition demo_messages : list (string * Key) := [("[]"%string, sample_key); ("[1]"%string, sample_key)].

(** The first message cut in two, its end arriving with the second. *)
Definition demo_reads : list (list Z) :=
  let bytes := concat (client_message false <$> demo_messages) in [take 3 bytes; drop 3 bytes].

Lemma demo_reads_u8 : Forall (Forall is_u8) demo_reads.
Proof. unfold demo_reads. constructor; [u8s|constructor; [u8s|constructor]]. Qed.

Lemma demo_reads_ne : Forall (fun r => r <> []) demo_reads.
Proof. repeat constructor; discriminate. Qed.

Lemma reads_may_be_cut_anywhere_witness :
  same_run (read_loop count_text false true 1000 (mkReading [] demo_session 0) demo_reads)
    (read_loop count_text false true 1000 (mkReading [] demo_session 0) [concat demo_reads]).
Proof.
  apply reads_may_be_cut_anywhere; [constructor|apply demo_reads_u8|apply demo_reads_ne|discriminate].
Defined.

Lemma drain_terminates_witness :
  drain count_text false true 1000 100 (mkReading (concat demo_reads) demo_session 0) =
  drain_all count_text false true 1000 (mkReading (concat demo_reads) demo_session 0).
Proof.
  apply (drain_terminates count_text false true 1000 (mkReading (concat demo_reads) demo_session 0) 100);
    [apply Forall_concat, demo_reads_u8|vm_compute; lia].
Defined.

Example demo_messages_delivered :
  read_loop count_text false true 1000 (mkReading [] demo_session 0) demo_reads =
  ([SendPackets [2%nat] 8; SendPackets [3%nat] 9], None, mkReading [] demo_session 0).
Proof.
  apply (messages_delivered count_text false true 1000 (fun t => [length (bytes_of_string t)])
    demo_session demo_messages demo_reads); try done.
  - constructor; [|constructor; [|constructor]].
    all: split; [done|split; [apply sample_key_u8|split; vm_compute; discriminate]].
  - apply demo_reads_ne.
Qed.

(** A message in two parts with a ping between them. *)
Definition demo_parts : list (list Frame * list Z) :=
  [([], [104; 105]); ([mkFrame true false Ping [1]], [33])].

Lemma fragments_reassemble_witness :
  handle_frames demo_session (fragments Text false demo_parts) =
  ([EvPing [1]; EvText "hi!"%string], None, demo_session).
Proof.
  apply (fragments_reassemble demo_session Text false demo_parts [[]; [EvPing [1]]]); try done.
  - by left.
  - repeat constructor.
Defined.

(** A compressor that knows one long text, and its inverse. *)
Definition long_text : string := string_of_bytes (replicate 200 97).

#[local] Instance knowing_inflate : Inflate bool :=
  fun d input => (Ok (bytes_of_string long_text), d).

Lemma outgoing_delivered_witness :
  exists frame s',
    decode_as false (deflated (fun _ => [1; 2]) (outgoing_text (bytes_of_string long_text)) ++ [9])
      1000 Client = (Ok (Some frame), [9]) /\
    handle_frame (new_session (Some true) 1000) frame = (Ok (Some (EvText long_text)), s').
Proof.
  apply (outgoing_delivered false (fun _ => [1; 2]) long_text (new_session (Some true) 1000) true true);
    try reflexivity; [vm_compute; discriminate|u8s].
Defined.

Lemma close_understood_witness :
  exists frame said,
    decode_as false (close 1000 "bye" ++ []) 125 Client = (Ok (Some frame), []) /\
    (length (fr_payload frame) <= 125)%nat /\
    handle_frame demo_session frame = (Ok (Some (EvClose (Some (1000, said)))), demo_session) /\
    utf8_string said = true /\ bytes_of_string said `prefix_of` bytes_of_string "bye".
Proof. apply (close_understood false 1000 "bye" demo_session 125 []); done. Defined.

(** A ping between the fragments of a message takes the bytes counted so far:
    the message is then reported with the size of its last frame. *)
Example ping_takes_the_count :
  let frame op fin (payload : list Z) : list Z :=
    [op_bits op + (if fin : bool then 128 else 0); 128 + Z.of_nat (length payload)]
    ++ key_bytes (0, 0, 0, 0) ++ payload in
  (read_loop count_text false true 1000 (mkReading [] demo_session 0)
    [frame Text false [104; 105] ++ frame Ping true [1] ++ frame Continuation true [33]]).1.1 =
  [SendFrame [0x8A; 1; 1]; SendPackets [3%nat] 7].
Proof. vm_compute. reflexivity. Qed.
