(* ===== verification/Budget.v ===== *)
(** * The outbound memory budget

    [pahoa-net/src/budget.rs].  Every counter is an atomic shared by the shard
    that queues frames and the writer task that drains them, so an operation is
    modelled as the sequence of its atomic accesses: [Pc] is where a thread
    stands inside [reserve_reported], [release] or [release_all], with the
    locals it has read, and [step] is one access.  [seq_run] runs an operation
    with nothing in between; [sys_step] interleaves any number of threads.  The
    accesses are [Relaxed], but every release follows the reserve it answers
    through the frame's channel, so an interleaving of whole accesses is what
    the counters see.  The clock is an argument of each access that reads it. *)

From Stdlib Require Import ZArith Lia Bool.
From stdpp Require Import base tactics list.
From S2P Require Import Prelude.

Definition STALL_DEADLINE_MS : Z := 120000.

Inductive Refused :=
| Share (counted size share : Z)
| RoomBudget (queued size limit : Z)
| Stalled (stalled_ms deadline_ms : Z).

Record Budget := mkBudget {
  limit : Z;
  per_connection : Z;
}.

Record ConnBudget := mkConn {
  cb_queued : Z;
  cb_oversize : Z;
  cb_last_progress : Z;
}.

(** [ConnBudget::default]: born having just made progress. *)
Definition conn_default (now : Z) : ConnBudget := mkConn 0 0 now.

(** [QUEUED], [PEAK] and the connections, by index. *)
Record Shared := mkShared {
  g_queued : Z;
  g_peak : Z;
  g_conns : list ConnBudget;
}.

Definition saturating_sub (a b : Z) : Z := Z.max 0 (a - b).

Definition get_conn (g : Shared) (c : nat) : ConnBudget := nth c (g_conns g) (mkConn 0 0 0).

Definition set_conn (c : nat) (b : ConnBudget) (g : Shared) : Shared :=
  mkShared (g_queued g) (g_peak g) (<[c := b]> (g_conns g)).

Definition add_global (n : Z) (g : Shared) : Shared :=
  mkShared (wrap64 (g_queued g + n)) (g_peak g) (g_conns g).

Definition set_queued (q : Z) (b : ConnBudget) : ConnBudget :=
  mkConn q (cb_oversize b) (cb_last_progress b).
Definition set_oversize (o : Z) (b : ConnBudget) : ConnBudget :=
  mkConn (cb_queued b) o (cb_last_progress b).
Definition made_progress (now : Z) (b : ConnBudget) : ConnBudget :=
  mkConn (cb_queued b) (cb_oversize b) now.

(** Where a thread is: the constructor names the access it makes next. *)
Inductive Pc :=
| Idle
| RvLoadQueued (c : nat) (size : Z)
| RvLoadOversize (c : nat) (size queued : Z)
| RvStalledQueued (c : nat) (size queued counted : Z)
| RvStalledProgress (c : nat) (size queued counted : Z)
| RvAddGlobal (c : nat) (size queued : Z) (oversized : bool)
| RvSubGlobal (size total : Z)
| RvPeak (c : nat) (size queued total : Z) (oversized : bool)
| RvProgress (c : nat) (size : Z) (oversized : bool)
| RvAddQueued (c : nat) (size : Z) (oversized : bool)
| RvAddOversize (c : nat) (size : Z)
| RlFree (c : nat) (size : Z)
| RlSubGlobal (c : nat) (freed left_ : Z)
| RlProgress (c : nat) (left_ : Z)
| RlClear (c : nat)
| RaSwap (c : nat)
| RaClear (c : nat) (held : Z)
| RaSubGlobal (held : Z)
| Returned (r : result Refused unit).

Section Operations.
Context (b : Budget).

(** The comparisons of [reserve_reported] once its loads are done. *)
Definition admit_share (c : nat) (size queued counted : Z) : Pc :=
  let oversized := (per_connection b <? size) && (counted <? per_connection b) in
  if negb oversized && (per_connection b <? counted + size)
  then Returned (Err (Share counted size (per_connection b)))
  else RvAddGlobal c size queued oversized.

Definition after_queued (c : nat) (size : Z) (oversized : bool) : Pc :=
  if oversized then RvAddOversize c size else Returned (Ok tt).

(** One atomic access of a thread. *)
Definition step (now : Z) (g : Shared) (pc : Pc) : Shared * Pc :=
  match pc with
  | Idle => (g, Idle)
  | Returned r => (g, Returned r)
  (* reserve_reported *)
  | RvLoadQueued c size => (g, RvLoadOversize c size (cb_queued (get_conn g c)))
  | RvLoadOversize c size queued =>
      let counted := saturating_sub queued (cb_oversize (get_conn g c)) in
      (g, RvStalledQueued c size queued counted)
  | RvStalledQueued c size queued counted =>
      if cb_queued (get_conn g c) =? 0 then (g, admit_share c size queued counted)
      else (g, RvStalledProgress c size queued counted)
  | RvStalledProgress c size queued counted =>
      let stalled := saturating_sub now (cb_last_progress (get_conn g c)) in
      if STALL_DEADLINE_MS <? stalled
      then (g, Returned (Err (Stalled stalled STALL_DEADLINE_MS)))
      else (g, admit_share c size queued counted)
  | RvAddGlobal c size queued oversized =>
      let total := wrap64 (g_queued g + size) in
      if limit b <? total then (add_global size g, RvSubGlobal size total)
      else (add_global size g, RvPeak c size queued total oversized)
  | RvSubGlobal size total =>
      (add_global (- size) g, Returned (Err (RoomBudget (total - size) size (limit b))))
  | RvPeak c size queued total oversized =>
      (mkShared (g_queued g) (Z.max (g_peak g) total) (g_conns g),
       if queued =? 0 then RvProgress c size oversized else RvAddQueued c size oversized)
  | RvProgress c size oversized =>
      (set_conn c (made_progress now (get_conn g c)) g, RvAddQueued c size oversized)
  | RvAddQueued c size oversized =>
      (set_conn c (set_queued (wrap64 (cb_queued (get_conn g c) + size)) (get_conn g c)) g,
       after_queued c size oversized)
  | RvAddOversize c size =>
      (set_conn c (set_oversize (wrap64 (cb_oversize (get_conn g c) + size)) (get_conn g c)) g,
       Returned (Ok tt))
  (* release *)
  | RlFree c size =>
      let held := cb_queued (get_conn g c) in
      let freed := Z.min held size in
      (set_conn c (set_queued (held - freed) (get_conn g c)) g, RlSubGlobal c freed (held - freed))
  | RlSubGlobal c freed left_ =>
      (add_global (- freed) g,
       if 0 <? freed then RlProgress c left_
       else if left_ =? 0 then RlClear c else Returned (Ok tt))
  | RlProgress c left_ =>
      (set_conn c (made_progress now (get_conn g c)) g,
       if left_ =? 0 then RlClear c else Returned (Ok tt))
  | RlClear c => (set_conn c (set_oversize 0 (get_conn g c)) g, Returned (Ok tt))
  (* release_all *)
  | RaSwap c =>
      (set_conn c (set_queued 0 (get_conn g c)) g, RaClear c (cb_queued (get_conn g c)))
  | RaClear c held => (set_conn c (set_oversize 0 (get_conn g c)) g, RaSubGlobal held)
  | RaSubGlobal held => (add_global (- held) g, Returned (Ok tt))
  end.

(** An operation with nothing in between; ten accesses are the longest. *)
Fixpoint seq_run (fuel : nat) (now : Z) (g : Shared) (pc : Pc) : Shared * Pc :=
  match fuel with
  | O => (g, pc)
  | S fuel =>
      match pc with
      | Idle | Returned _ => (g, pc)
      | _ => let '(g, pc) := step now g pc in seq_run fuel now g pc
      end
  end.

Definition reserve_reported (now : Z) (g : Shared) (c : nat) (size : Z) : Shared * Pc :=
  seq_run 10 now g (RvLoadQueued c size).
Definition release (now : Z) (g : Shared) (c : nat) (size : Z) : Shared * Pc :=
  seq_run 10 now g (RlFree c size).
Definition release_all (now : Z) (g : Shared) (c : nat) : Shared * Pc :=
  seq_run 10 now g (RaSwap c).

(** [reserve]. *)
Definition reserve (now : Z) (g : Shared) (c : nat) (size : Z) : bool :=
  match (reserve_reported now g c size).2 with Returned (Ok _) => true | _ => false end.

(** ** Threads *)

Inductive Call := CallReserve (c : nat) (size : Z) | CallRelease (c : nat) (size : Z) | CallReleaseAll (c : nat).

Definition entry (call : Call) : Pc :=
  match call with
  | CallReserve c size => RvLoadQueued c size
  | CallRelease c size => RlFree c size
  | CallReleaseAll c => RaSwap c
  end.

Definition call_ok (max_size : Z) (conns : nat) (call : Call) : Prop :=
  match call with
  | CallReserve c size | CallRelease c size => (c < conns)%nat /\ 0 <= size <= max_size
  | CallReleaseAll c => (c < conns)%nat
  end.

Record Sys := mkSys {
  sy_shared : Shared;
  sy_pcs : list Pc;
}.

Definition at_rest (pc : Pc) : bool :=
  match pc with Idle | Returned _ => true | _ => false end.

Inductive sys_step (max_size : Z) : Sys -> Sys -> Prop :=
| sys_call g pcs t pc call :
    pcs !! t = Some pc -> at_rest pc = true -> call_ok max_size (length (g_conns g)) call ->
    sys_step max_size (mkSys g pcs) (mkSys g (<[t := entry call]> pcs))
| sys_access g pcs t pc now g' pc' :
    pcs !! t = Some pc -> at_rest pc = false -> step now g pc = (g', pc') ->
    sys_step max_size (mkSys g pcs) (mkSys g' (<[t := pc']> pcs)).

Definition sys_init (conns threads : nat) (now : Z) : Sys :=
  mkSys (mkShared 0 0 (replicate conns (conn_default now))) (replicate threads Idle).
End Operations.
