(* ===== verification/BudgetTheorems.v ===== *)
(** * The outbound memory budget: what it guarantees

    Whatever the interleaving of shards and writers, the room's counter is what
    the connections hold plus what is in flight, so it never wraps and nothing
    leaks; what is held stays within the limit; and each operation run alone
    does what its comments say. *)

From Stdlib Require Import ZArith Lia Bool.
From stdpp Require Import base tactics list relations.
From S2P Require Import Prelude Budget.

Section theorems.
Context (b : Budget) (max_size : Z).

(** Bytes a thread has added to the room's counter and will pass on or take
    back: those of a refused reservation, and the others. *)
Definition refused_bytes (pc : Pc) : Z :=
  match pc with RvSubGlobal size _ => size | _ => 0 end.

Definition moving_bytes (pc : Pc) : Z :=
  match pc with
  | RvPeak _ size _ _ _ | RvProgress _ size _ | RvAddQueued _ size _ => size
  | RlSubGlobal _ freed _ => freed
  | RaClear _ held | RaSubGlobal held => held
  | _ => 0
  end.

Definition in_flight (pc : Pc) : Z := refused_bytes pc + moving_bytes pc.

(** The locals of a thread make sense. *)
Definition pc_ok (conns : nat) (pc : Pc) : Prop :=
  match pc with
  | Idle | Returned _ => True
  | RvLoadQueued c size | RvLoadOversize c size _ | RvStalledQueued c size _ _
  | RvStalledProgress c size _ _ | RvAddGlobal c size _ _ | RvProgress c size _
  | RvAddQueued c size _ | RvAddOversize c size | RlFree c size =>
      (c < conns)%nat /\ 0 <= size <= max_size
  | RvPeak c size _ total _ => (c < conns)%nat /\ 0 <= size <= max_size /\ total <= limit b
  | RvSubGlobal size _ => 0 <= size <= max_size
  | RlSubGlobal c freed _ => (c < conns)%nat /\ 0 <= freed
  | RlProgress c _ | RlClear c | RaSwap c => (c < conns)%nat
  | RaClear c held => (c < conns)%nat /\ 0 <= held
  | RaSubGlobal held => 0 <= held
  end.

Definition held (g : Shared) : Z := sum_of cb_queued (g_conns g).

Record budget_inv (threads : nat) (s : Sys) : Prop := {
  inv_threads : length (sy_pcs s) = threads;
  inv_pcs : Forall (pc_ok (length (g_conns (sy_shared s)))) (sy_pcs s);
  inv_conns : Forall (fun c => 0 <= cb_queued c) (g_conns (sy_shared s));
  inv_total : g_queued (sy_shared s) = held (sy_shared s) + sum_of in_flight (sy_pcs s);
  inv_limit : held (sy_shared s) + sum_of moving_bytes (sy_pcs s) <= limit b;
  inv_peak : g_peak (sy_shared s) <= limit b;
}.

Lemma pc_ok_flight conns pc : pc_ok conns pc -> 0 <= moving_bytes pc /\ 0 <= refused_bytes pc.
Proof. destruct pc; cbn; lia. Qed.

Lemma pc_ok_refused conns pc : 0 <= max_size -> pc_ok conns pc -> refused_bytes pc <= max_size.
Proof. destruct pc; cbn; lia. Qed.

Lemma get_conn_lookup g c : (c < length (g_conns g))%nat -> g_conns g !! c = Some (get_conn g c).
Proof.
  intros Hc. destruct (lookup_lt_is_Some_2 _ _ Hc) as [x Hx]. rewrite Hx. f_equal.
  unfold get_conn. symmetry. by apply nth_lookup_Some.
Qed.

Lemma held_set_conn g c x :
  (c < length (g_conns g))%nat ->
  held (set_conn c x g) = held g - cb_queued (get_conn g c) + cb_queued x.
Proof. intros Hc. apply sum_of_insert. by apply get_conn_lookup. Qed.

Lemma queued_bounds g c :
  Forall (fun c => 0 <= cb_queued c) (g_conns g) -> (c < length (g_conns g))%nat ->
  0 <= cb_queued (get_conn g c) <= held g.
Proof.
  intros Hf Hc. pose proof (get_conn_lookup g c Hc) as Hl. split.
  - by apply (Forall_lookup_1 _ _ _ _ Hf Hl).
  - exact (sum_of_elem cb_queued _ _ _ Hf Hl).
Qed.

Lemma conns_set_conn g c x :
  Forall (fun c => 0 <= cb_queued c) (g_conns g) -> 0 <= cb_queued x ->
  Forall (fun c => 0 <= cb_queued c) (g_conns (set_conn c x g)) /\
  length (g_conns (set_conn c x g)) = length (g_conns g).
Proof. intros Hf Hx. split; [by apply Forall_insert|apply length_insert]. Qed.

Lemma admit_share_flight c size queued counted :
  in_flight (admit_share b c size queued counted) = 0 /\
  moving_bytes (admit_share b c size queued counted) = 0 /\
  (forall conns, (c < conns)%nat -> 0 <= size <= max_size ->
     pc_ok conns (admit_share b c size queued counted)).
Proof. unfold admit_share. by destruct (_ && _). Qed.

Lemma wrap64_small x : 0 <= x <= u64_max -> wrap64 x = x.
Proof. intros. unfold wrap64, u64_max in *. apply Z.mod_small. lia. Qed.

(** What a step does to the sums, and the facts about the counters that let
    its arithmetic be exact. *)
Lemma step_preserves now g pc g' pc' (flying moving : Z) :
  0 <= max_size -> 0 <= moving <= flying ->
  pc_ok (length (g_conns g)) pc -> Forall (fun c => 0 <= cb_queued c) (g_conns g) ->
  g_queued g = held g + flying + in_flight pc ->
  held g + moving + moving_bytes pc <= limit b -> g_peak g <= limit b ->
  g_queued g + max_size <= u64_max ->
  step b now g pc = (g', pc') ->
  pc_ok (length (g_conns g)) pc' /\ length (g_conns g') = length (g_conns g) /\
  Forall (fun c => 0 <= cb_queued c) (g_conns g') /\
  g_queued g' = held g' + flying + in_flight pc' /\
  held g' + moving + moving_bytes pc' <= limit b /\ g_peak g' <= limit b.
Proof.
  intros Hmax Hm Hok Hc Htot Hlim Hpk Hu Hs.
  assert (Hh : 0 <= held g) by (by apply sum_of_nonneg).
  assert (Hset : forall c x, (c < length (g_conns g))%nat -> 0 <= cb_queued x ->
    length (g_conns (set_conn c x g)) = length (g_conns g) /\
    Forall (fun c => 0 <= cb_queued c) (g_conns (set_conn c x g)) /\
    held (set_conn c x g) = held g - cb_queued (get_conn g c) + cb_queued x).
  { intros c x Hlt Hx. destruct (conns_set_conn g c x Hc Hx). by rewrite held_set_conn. }
  destruct pc; cbn [step pc_ok in_flight refused_bytes moving_bytes] in *.
  all: try (destruct Hok as [Hcl Hok]).
  all: try match goal with H : (?k < length (g_conns ?h))%nat |- _ =>
         pose proof (queued_bounds h k Hc H) end.
  all: repeat match type of Hs with context [if ?x then _ else _] => destruct x eqn:? end.
  all: injection Hs as <- <-; breflect; unfold held, in_flight in *.
  all: try match goal with |- context [admit_share _ ?k ?n ?q ?u] =>
         destruct (admit_share_flight k n q u) as (Ha1 & Ha2 & Ha3);
         unfold in_flight in Ha1; rewrite ?Ha1, ?Ha2 end.
  all: unfold add_global, after_queued in *;
       cbn [g_queued g_conns g_peak refused_bytes moving_bytes pc_ok] in *.
  all: try match goal with H : context [wrap64 _] |- _ => rewrite wrap64_small in H by lia end.
  all: rewrite ?wrap64_small by lia.
  all: try match goal with |- context [set_conn ?k ?x _] =>
         destruct (Hset k x) as (Hl & Hn & Hq);
           [assumption|cbn [cb_queued set_queued set_oversize made_progress]; lia|];
         rewrite Hl, Hq; cbn [cb_queued set_queued set_oversize made_progress set_conn g_queued g_peak]
       end.
  all: try (destruct oversized; cbn [refused_bytes moving_bytes pc_ok]).
  all: repeat split; try assumption; try lia.
  all: try (apply Ha3; assumption).
Qed.

Lemma sum_in_flight l : sum_of in_flight l = sum_of refused_bytes l + sum_of moving_bytes l.
Proof. rewrite <- sum_of_plus. by apply sum_of_ext. Qed.

Lemma at_rest_flight pc : at_rest pc = true -> refused_bytes pc = 0 /\ moving_bytes pc = 0.
Proof. by destruct pc. Qed.

Lemma entry_ok conns call :
  call_ok max_size conns call ->
  pc_ok conns (entry call) /\ refused_bytes (entry call) = 0 /\ moving_bytes (entry call) = 0.
Proof. by destruct call. Qed.

(** The room's limit leaves headroom for one refused frame of each thread. *)
Definition fits (threads : nat) : Prop :=
  0 <= limit b /\ 0 <= max_size /\ limit b + (Z.of_nat threads + 1) * max_size <= u64_max.

Lemma inv_init conns threads now : fits threads -> budget_inv threads (sys_init conns threads now).
Proof.
  intros (Hl & _). constructor; cbn [sys_init sy_shared sy_pcs g_conns g_queued g_peak].
  - by rewrite length_replicate.
  - by apply Forall_replicate.
  - apply Forall_replicate. done.
  - unfold held. cbn [g_conns]. by rewrite !sum_of_replicate.
  - unfold held. cbn [g_conns]. by rewrite !sum_of_replicate.
  - done.
Qed.

(** What the other threads have in flight. *)
Lemma inv_sums threads s t pc :
  0 <= max_size -> budget_inv threads s -> sy_pcs s !! t = Some pc ->
  0 <= sum_of moving_bytes (sy_pcs s) - moving_bytes pc /\
  0 <= sum_of refused_bytes (sy_pcs s) - refused_bytes pc /\
  sum_of refused_bytes (sy_pcs s) <= Z.of_nat threads * max_size.
Proof.
  intros Hmax Hi Ht. destruct Hi as [Hth Hpcs _ _ _ _]. subst threads.
  assert (Hm : Forall (fun p => 0 <= moving_bytes p) (sy_pcs s))
    by (eapply Forall_impl; [exact Hpcs|]; intros p Hp; by apply pc_ok_flight in Hp as [? _]).
  assert (Hr : Forall (fun p => 0 <= refused_bytes p) (sy_pcs s))
    by (eapply Forall_impl; [exact Hpcs|]; intros p Hp; by apply pc_ok_flight in Hp as [_ ?]).
  pose proof (sum_of_elem moving_bytes _ _ _ Hm Ht). pose proof (sum_of_elem refused_bytes _ _ _ Hr Ht).
  repeat split; [lia|lia|]. apply sum_of_bound. eapply Forall_impl; [exact Hpcs|].
  intros p Hp. by eapply pc_ok_refused.
Qed.

Lemma inv_step threads s s' :
  fits threads -> budget_inv threads s -> sys_step b max_size s s' -> budget_inv threads s'.
Proof.
  intros (Hlim & Hmax & Hroom) Hi Hs. destruct Hs as [g pcs t pc call Ht Hrest Hcall|g pcs t pc now g' pc' Ht Hrun Hstep].
  - destruct (entry_ok _ _ Hcall) as (Hok & Hr & Hm). destruct (at_rest_flight _ Hrest) as [Hr' Hm'].
    destruct Hi as [Hth Hpcs Hc Htot Hl Hp]. constructor; cbn [sy_shared sy_pcs] in *; try done.
    + by rewrite length_insert.
    + by apply Forall_insert.
    + rewrite (sum_of_insert _ _ _ _ _ Ht). unfold in_flight in *. lia.
    + rewrite (sum_of_insert _ _ _ _ _ Ht). lia.
  - destruct (inv_sums _ _ _ _ Hmax Hi Ht) as (Hom & Hor & Hrb).
    destruct Hi as [Hth Hpcs Hc Htot Hl Hp]. cbn [sy_shared sy_pcs] in *.
    rewrite sum_in_flight in Htot.
    destruct (step_preserves now g pc g' pc'
      (sum_of in_flight pcs - in_flight pc) (sum_of moving_bytes pcs - moving_bytes pc))
      as (Hok & Hlen & Hc' & Htot' & Hl' & Hp'); try done.
    { rewrite sum_in_flight. unfold in_flight. lia. }
    { by eapply Forall_lookup_1 in Ht. }
    { rewrite sum_in_flight. lia. }
    { lia. }
    { lia. }
    constructor; cbn [sy_shared sy_pcs]; try done.
    + by rewrite length_insert.
    + rewrite Hlen. by apply Forall_insert.
    + rewrite (sum_of_insert _ _ _ _ _ Ht). lia.
    + rewrite (sum_of_insert _ _ _ _ _ Ht). lia.
Qed.

Lemma inv_reachable conns threads now s :
  fits threads -> rtc (sys_step b max_size) (sys_init conns threads now) s -> budget_inv threads s.
Proof.
  intros Hf. intros Hs. pose proof (inv_init conns threads now Hf) as Hi.
  induction Hs as [|x y z Hxy _ IH]; [done|]. apply IH. by eapply inv_step.
Qed.
End theorems.

(** C37: In every state any interleaving of shards and writers reaches, the room's
    counter is exactly what the connections hold plus what the operations in
    progress have in hand; what is held stays within the limit, and so does the
    recorded peak; and the amount any operation is about to subtract is there
    to subtract, so the counter never wraps.  When every operation has returned,
    nothing has leaked. *)
Theorem budget_accounts b max_size conns threads now s :
  fits b max_size threads -> rtc (sys_step b max_size) (sys_init conns threads now) s ->
  g_queued (sy_shared s) = held (sy_shared s) + sum_of in_flight (sy_pcs s) /\
  0 <= held (sy_shared s) <= limit b /\ g_peak (sy_shared s) <= limit b /\
  (forall pc, pc ∈ sy_pcs s -> 0 <= in_flight pc <= g_queued (sy_shared s)) /\
  g_queued (sy_shared s) <= u64_max /\
  (forallb at_rest (sy_pcs s) = true -> g_queued (sy_shared s) = held (sy_shared s)).
Proof.
  intros Hf Hs. pose proof (inv_reachable b max_size conns threads now s Hf Hs) as Hi.
  destruct Hf as (Hlim & Hmax & Hroom). pose proof Hi as [Hth Hpcs Hc Htot Hl Hp].
  assert (Hh : 0 <= held (sy_shared s)) by (by apply sum_of_nonneg).
  assert (Hm : Forall (fun p => 0 <= moving_bytes p) (sy_pcs s))
    by (eapply Forall_impl; [exact Hpcs|]; intros p Hk; by apply pc_ok_flight in Hk as [? _]).
  assert (Hfl : Forall (fun p => 0 <= in_flight p) (sy_pcs s))
    by (eapply Forall_impl; [exact Hpcs|]; intros p Hk; apply pc_ok_flight in Hk; unfold in_flight; lia).
  assert (Hrb : sum_of refused_bytes (sy_pcs s) <= Z.of_nat threads * max_size).
  { rewrite <- Hth. apply sum_of_bound. eapply Forall_impl; [exact Hpcs|].
    intros p Hk. by eapply pc_ok_refused. }
  pose proof (sum_of_nonneg _ _ Hm). pose proof (sum_in_flight (sy_pcs s)).
  split; [done|]. split; [lia|]. split; [done|]. split; [|split; [lia|]].
  - intros pc Hin. apply list_elem_of_lookup_1 in Hin as [t Ht].
    pose proof (sum_of_elem in_flight _ _ _ Hfl Ht). split; [|lia].
    exact (Forall_lookup_1 _ _ _ _ Hfl Ht).
  - intros Hrest. rewrite Htot. enough (sum_of in_flight (sy_pcs s) = 0) by lia.
    clear -Hrest. induction (sy_pcs s) as [|pc l IH]; [done|]. cbn in Hrest.
    apply andb_true_iff in Hrest as [H1 H2]. rewrite sum_of_cons, IH by done.
    apply at_rest_flight in H1 as [H1 H1']. unfold in_flight. lia.
Qed.

(** ** Operations run alone *)

Lemma get_set_conn c x g : (c < length (g_conns g))%nat -> get_conn (set_conn c x g) c = x.
Proof.
  intros Hc. unfold get_conn, set_conn. cbn [g_conns]. apply nth_lookup_Some.
  by apply list_lookup_insert_eq.
Qed.

Lemma set_set_conn c x y g : set_conn c x (set_conn c y g) = set_conn c x g.
Proof. unfold set_conn. cbn. by rewrite list_insert_insert_eq. Qed.

Lemma length_set_conn c x g : length (g_conns (set_conn c x g)) = length (g_conns g).
Proof. apply length_insert. Qed.

(** The counters are what an undisturbed room keeps them at: non-negative, with
    [size] more still representable. *)
Definition roomy (g : Shared) (c : nat) (size : Z) : Prop :=
  (c < length (g_conns g))%nat /\ 0 <= size /\
  0 <= g_queued g /\ g_queued g + size <= u64_max /\
  0 <= cb_queued (get_conn g c) /\ cb_queued (get_conn g c) + size <= u64_max /\
  0 <= cb_oversize (get_conn g c) /\ cb_oversize (get_conn g c) + size <= u64_max.

Definition counted_of (cn : ConnBudget) : Z := saturating_sub (cb_queued cn) (cb_oversize cn).

(** How long a connection has held a backlog without draining any of it. *)
Definition stalled_for (now : Z) (cn : ConnBudget) : option Z :=
  if cb_queued cn =? 0 then None else Some (saturating_sub now (cb_last_progress cn)).

Definition stalled_too_long (now : Z) (cn : ConnBudget) : option Z :=
  match stalled_for now cn with
  | Some ms => if STALL_DEADLINE_MS <? ms then Some ms else None
  | None => None
  end.

(** The two limits on memory as one transaction, and with them the judgement
    about the client: a reservation. *)
Definition charge_of (b : Budget) (now : Z) (g : Shared) (c : nat) (size : Z)
    : result Refused Shared :=
  let cn := get_conn g c in
  let oversized := (per_connection b <? size) && (counted_of cn <? per_connection b) in
  if negb oversized && (per_connection b <? counted_of cn + size)
  then Err (Share (counted_of cn) size (per_connection b))
  else if limit b <? g_queued g + size
  then Err (RoomBudget (g_queued g) size (limit b))
  else Ok (set_conn c
    (mkConn (cb_queued cn + size) (cb_oversize cn + if oversized then size else 0)
       (if cb_queued cn =? 0 then now else cb_last_progress cn))
    (mkShared (g_queued g + size) (Z.max (g_peak g) (g_queued g + size)) (g_conns g))).

Definition reserve_spec_of (b : Budget) (now : Z) (g : Shared) (c : nat) (size : Z)
    : result Refused Shared :=
  match stalled_too_long now (get_conn g c) with
  | Some ms => Err (Stalled ms STALL_DEADLINE_MS)
  | None => charge_of b now g c size
  end.

(** The end of an operation run alone. *)
Definition outcome (g : Shared) (r : result Refused Shared) : Shared * Pc :=
  match r with Err e => (g, Returned (Err e)) | Ok g' => (g', Returned (Ok tt)) end.

Lemma seq_run_step b fuel now g pc :
  at_rest pc = false ->
  seq_run b (S fuel) now g pc = let '(g, pc) := step b now g pc in seq_run b fuel now g pc.
Proof. by destruct pc. Qed.

Lemma seq_run_returned b fuel now g r : seq_run b fuel now g (Returned r) = (g, Returned r).
Proof. by destruct fuel. Qed.

(** An operation that has returned does not use the fuel it is given. *)
Lemma seq_run_more b n k now g pc :
  at_rest (seq_run b n now g pc).2 = true -> seq_run b (n + k) now g pc = seq_run b n now g pc.
Proof.
  revert g pc. induction n as [|n IH]; intros g pc Hr.
  { cbn in Hr. destruct k; [done|]. by destruct pc. }
  destruct (at_rest pc) eqn:E; [by destruct pc|]. cbn [Nat.add].
  rewrite seq_run_step in Hr by done. rewrite !seq_run_step by done.
  destruct (step b now g pc) as [g1 pc1]. by apply IH.
Qed.

Lemma add_sub_global size g :
  0 <= size -> 0 <= g_queued g -> g_queued g + size <= u64_max ->
  add_global (- size) (add_global size g) = g.
Proof.
  intros. destruct g as [q p l]. unfold add_global. cbn [g_queued g_peak g_conns] in *.
  f_equal. rewrite (wrap64_small (q + size)), wrap64_small by lia. lia.
Qed.

Lemma admit_alone b now g c size :
  roomy g c size ->
  seq_run b 6 now g (admit_share b c size (cb_queued (get_conn g c)) (counted_of (get_conn g c))) =
  outcome g (charge_of b now g c size).
Proof.
  intros (Hc & Hs & Hq & Hq' & Hcq & Hcq' & Ho & Ho'). unfold charge_of, admit_share.
  set (cn := get_conn g c) in *. set (ov := (_ <? size) && _).
  destruct (negb ov && _); [done|]. rewrite seq_run_step by done. cbn [step].
  rewrite wrap64_small by lia. destruct (limit b <? g_queued g + size).
  { rewrite seq_run_step by done. cbn [step]. rewrite add_sub_global, Z.add_simpl_r by done. done. }
  rewrite seq_run_step by done. cbn [step]. rewrite seq_run_step by (by destruct (cb_queued cn =? 0)).
  unfold add_global. cbn [g_queued g_peak g_conns]. rewrite (wrap64_small (g_queued g + size)) by lia.
  set (g1 := mkShared _ _ _).
  assert (Hc1 : (c < length (g_conns g1))%nat) by done.
  change (get_conn g1 c) with cn in *.
  assert (Hlast : forall n g2, (c < length (g_conns g2))%nat ->
    cb_queued (get_conn g2 c) = cb_queued cn -> cb_oversize (get_conn g2 c) = cb_oversize cn ->
    seq_run b (S n) now (set_conn c (set_queued (wrap64 (cb_queued (get_conn g2 c) + size)) (get_conn g2 c)) g2)
      (after_queued c size ov) =
    (set_conn c (mkConn (cb_queued cn + size) (cb_oversize cn + (if ov then size else 0))
       (cb_last_progress (get_conn g2 c))) g2, Returned (Ok tt))).
  { intros n g2 Hc2 E1 E2. rewrite E1, wrap64_small by lia. destruct ov; cbn [after_queued].
    - rewrite seq_run_step by done. cbn [step]. rewrite seq_run_returned.
      rewrite get_set_conn, set_set_conn by done. cbn. by rewrite E2, wrap64_small by lia.
    - rewrite seq_run_returned, Z.add_0_r, <- E2. done. }
  destruct (cb_queued cn =? 0).
  - cbn [step]. rewrite seq_run_step by done. cbn [step]. change (get_conn g1 c) with cn.
    rewrite Hlast by (rewrite ?length_set_conn, ?get_set_conn by done; done).
    rewrite get_set_conn, set_set_conn by done. done.
  - cbn [step]. by rewrite Hlast.
Qed.

(** A reservation that nothing interrupts refuses a connection that has drained
    nothing for two minutes, then one whose ordinary backlog fills its share,
    then one the room has no space for, changing nothing in each case; and
    otherwise charges the bytes to the room and to the connection, counting a
    payload larger than the share apart. *)
Lemma reserve_alone b now g c size :
  roomy g c size ->
  reserve_reported b now g c size = outcome g (reserve_spec_of b now g c size).
Proof.
  intros Hr. unfold reserve_reported, reserve_spec_of, stalled_too_long, stalled_for.
  do 3 (rewrite seq_run_step by done; cbn [step]).
  fold (counted_of (get_conn g c)).
  assert (Hadmit : forall n, seq_run b (6 + n) now g
    (admit_share b c size (cb_queued (get_conn g c)) (counted_of (get_conn g c))) =
    outcome g (charge_of b now g c size)).
  { intros n. rewrite seq_run_more; [by apply admit_alone|].
    rewrite admit_alone by done. by destruct (charge_of b now g c size). }
  destruct (cb_queued (get_conn g c) =? 0); [apply (Hadmit 1%nat)|].
  rewrite seq_run_step by done. cbn [step].
  destruct (STALL_DEADLINE_MS <? _); [by rewrite seq_run_returned|apply (Hadmit 0%nat)].
Qed.

Lemma release_alone b now g c size :
  (c < length (g_conns g))%nat -> 0 <= size ->
  0 <= cb_queued (get_conn g c) <= g_queued g -> g_queued g <= u64_max ->
  let cn := get_conn g c in
  let freed := Z.min (cb_queued cn) size in
  release b now g c size =
  (set_conn c
     (mkConn (cb_queued cn - freed) (if cb_queued cn - freed =? 0 then 0 else cb_oversize cn)
        (if 0 <? freed then now else cb_last_progress cn))
     (mkShared (g_queued g - freed) (g_peak g) (g_conns g)), Returned (Ok tt)).
Proof.
  intros Hc Hs Hq Hu cn freed. fold cn in Hq.
  assert (Hfr : 0 <= freed <= cb_queued cn) by (unfold freed; lia). unfold release.
  do 2 (rewrite seq_run_step by done; cbn [step]). fold cn freed.
  unfold add_global. cbn [set_conn g_queued g_peak g_conns]. rewrite wrap64_small by lia.
  change (mkShared _ _ (<[c := ?x]> (g_conns g)))
    with (set_conn c x (mkShared (g_queued g + - freed) (g_peak g) (g_conns g))).
  rewrite Z.add_opp_r. set (g0 := mkShared _ _ _).
  assert (Hc0 : (c < length (g_conns g0))%nat) by done.
  destruct (0 <? freed).
  - rewrite seq_run_step by done. cbn [step]. rewrite get_set_conn, set_set_conn by done.
    destruct (cb_queued cn - freed =? 0); [|by rewrite seq_run_returned].
    rewrite seq_run_step by done. cbn [step]. by rewrite get_set_conn, set_set_conn, seq_run_returned.
  - destruct (cb_queued cn - freed =? 0); [|by rewrite seq_run_returned].
    rewrite seq_run_step by done. cbn [step]. by rewrite get_set_conn, set_set_conn, seq_run_returned.
Qed.

Lemma release_all_alone b now g c :
  (c < length (g_conns g))%nat -> 0 <= cb_queued (get_conn g c) <= g_queued g ->
  g_queued g <= u64_max ->
  let cn := get_conn g c in
  release_all b now g c =
  (set_conn c (mkConn 0 0 (cb_last_progress cn))
     (mkShared (g_queued g - cb_queued cn) (g_peak g) (g_conns g)), Returned (Ok tt)).
Proof.
  intros Hc Hq Hu cn. fold cn in Hq. unfold release_all.
  do 3 (rewrite seq_run_step by done; cbn [step]). fold cn. rewrite get_set_conn, set_set_conn by done.
  rewrite seq_run_returned. unfold add_global, set_conn. cbn [g_queued g_peak g_conns].
  by rewrite wrap64_small by lia.
Qed.

(** A disconnecting connection reconciled by its shard and a writer still
    owing a release agree in either order: the room gets back what the
    connection held, once. *)
Lemma release_orders_agree b now now' g c size :
  (c < length (g_conns g))%nat -> 0 <= size ->
  0 <= cb_queued (get_conn g c) <= g_queued g -> g_queued g <= u64_max ->
  let first := (release_all b now' (release b now g c size).1 c).1 in
  let last := (release b now (release_all b now' g c).1 c size).1 in
  g_queued first = g_queued g - cb_queued (get_conn g c) /\
  g_queued last = g_queued g - cb_queued (get_conn g c) /\
  cb_queued (get_conn first c) = 0 /\ cb_oversize (get_conn first c) = 0 /\
  cb_queued (get_conn last c) = 0 /\ cb_oversize (get_conn last c) = 0.
Proof.
  intros Hc Hs Hq Hu first last.
  assert (Hf : first = (release_all b now' (release b now g c size).1 c).1) by done.
  assert (Hl : last = (release b now (release_all b now' g c).1 c size).1) by done.
  rewrite release_alone in Hf by done. rewrite release_all_alone in Hl by done. cbn [fst] in Hf, Hl.
  rewrite release_all_alone in Hf by (rewrite ?length_set_conn, ?get_set_conn by (exact Hc); cbn; lia).
  rewrite release_alone in Hl by (rewrite ?length_set_conn, ?get_set_conn by (exact Hc); cbn; lia).
  rewrite get_set_conn in Hf, Hl by (exact Hc). cbn [cb_queued cb_oversize cb_last_progress] in Hf, Hl.
  rewrite Z.min_l in Hl by lia. cbn [fst] in Hf, Hl. rewrite Hf, Hl.
  rewrite !get_set_conn by (cbn [set_conn g_conns]; rewrite ?length_insert; exact Hc). cbn. repeat split; lia.
Qed.

(** ** Schedules *)

Inductive Turn := Start (t : nat) (call : Call) | Access (t : nat).

Definition call_okb (max_size : Z) (conns : nat) (call : Call) : bool :=
  match call with
  | CallReserve c size | CallRelease c size =>
      (c <? conns)%nat && (0 <=? size) && (size <=? max_size)
  | CallReleaseAll c => (c <? conns)%nat
  end.

Definition turn (b : Budget) (max_size now : Z) (s : Sys) (a : Turn) : option Sys :=
  match a with
  | Start t call =>
      pc ← sy_pcs s !! t;
      if at_rest pc && call_okb max_size (length (g_conns (sy_shared s))) call
      then Some (mkSys (sy_shared s) (<[t := entry call]> (sy_pcs s))) else None
  | Access t =>
      pc ← sy_pcs s !! t;
      if at_rest pc then None
      else let '(g, pc) := step b now (sy_shared s) pc in Some (mkSys g (<[t := pc]> (sy_pcs s)))
  end.

Fixpoint schedule (b : Budget) (max_size now : Z) (s : Sys) (turns : list Turn) : option Sys :=
  match turns with
  | [] => Some s
  | a :: turns => s ← turn b max_size now s a; schedule b max_size now s turns
  end.

Lemma turn_step b max_size now s a s' :
  turn b max_size now s a = Some s' -> sys_step b max_size s s'.
Proof.
  destruct s as [g pcs]. destruct a as [t call|t]; cbn [turn sy_pcs sy_shared].
  - destruct (pcs !! t) as [pc|] eqn:Et; [|done]. cbn. destruct (at_rest pc) eqn:Er; [|done].
    destruct (call_okb _ _ call) eqn:Ec; [|done]. intros [= <-]. eapply sys_call; [done|done|].
    destruct call; unfold call_okb in Ec; rewrite ?andb_true_iff, ?Z.leb_le, ?Nat.ltb_lt in Ec;
      cbn [call_ok sy_shared]; tauto.
  - destruct (pcs !! t) as [pc|] eqn:Et; [|done]. cbn. destruct (at_rest pc) eqn:Er; [done|].
    destruct (step b now g pc) as [g' pc'] eqn:Es. intros [= <-]. by eapply sys_access.
Qed.

Lemma schedule_reaches b max_size now s turns s' :
  schedule b max_size now s turns = Some s' -> rtc (sys_step b max_size) s s'.
Proof.
  revert s. induction turns as [|a turns IH]; intros s; cbn [schedule].
  - by intros [= ->].
  - destruct (turn b max_size now s a) as [s1|] eqn:Et; [|done]. cbn. intros Hs.
    eapply rtc_l; [by eapply turn_step|by apply IH].
Qed.

Definition demo_budget : Budget := mkBudget 1048576 1024.

(** A shard and the writer of one connection: ten bytes are queued and written;
    the writer has seen the queue empty and is about to clear the allowance when
    the shard queues a payload larger than the share. *)
Definition late_clear : list Turn :=
  [Start 0 (CallReserve 0 10)] ++ replicate 7 (Access 0) ++
  [Start 1 (CallRelease 0 10)] ++ replicate 3 (Access 1) ++
  [Start 0 (CallReserve 0 4096)] ++ replicate 8 (Access 0) ++ [Access 1].

Definition late_clear_end : Sys :=
  default (sys_init 1 2 0) (schedule demo_budget 8192 0 (sys_init 1 2 0) late_clear).

Lemma demo_fits : fits demo_budget 8192 2.
Proof. repeat split; vm_compute; discriminate. Qed.

(** The allowance of a payload larger than the share can be lost: a writer that
    emptied the queue clears it after the shard has queued the payload, and from
    then on a connection with no ordinary backlog at all is refused a single
    byte, as over its share. *)
Theorem late_clear_refuses_the_healthy :
  rtc (sys_step demo_budget 8192) (sys_init 1 2 0) late_clear_end /\
  sy_pcs late_clear_end = [Returned (Ok tt); Returned (Ok tt)] /\
  get_conn (sy_shared late_clear_end) 0 = mkConn 4096 0 0 /\
  (reserve_reported demo_budget 0 (sy_shared late_clear_end) 0 1).2 =
    Returned (Err (Share 4096 1 1024)).
Proof.
  split; [|by vm_compute]. apply (schedule_reaches demo_budget 8192 0 _ late_clear).
  by vm_compute.
Qed.

(** A queue that never empties keeps the allowance of payloads long gone: with
    the large payload drained, four more kilobytes of ordinary frames fit in a
    share of one. *)
Example allowance_outlives_its_payload :
  let reserve size g := (reserve_reported demo_budget 0 g 0 size).1 in
  let release size g := (release demo_budget 0 g 0 size).1 in
  let g := sy_shared (sys_init 1 1 0) in
  let g := reserve 1000 (reserve 1000 (reserve 1000 (reserve 1000
             (release 4096 (reserve 100 (reserve 4096 g)))))) in
  get_conn g 0 = mkConn 4100 4096 0.
Proof. by vm_compute. Qed.

(** ** Witnesses *)

Lemma budget_accounts_witness :
  g_queued (sy_shared late_clear_end) = held (sy_shared late_clear_end) /\
  g_queued (sy_shared late_clear_end) = 4096.
Proof.
  split; [|by vm_compute].
  refine (proj2 (proj2 (proj2 (proj2 (proj2 (budget_accounts demo_budget 8192 1 2 0 late_clear_end
    demo_fits _))))) eq_refl).
  apply (schedule_reaches demo_budget 8192 0 _ late_clear). by vm_compute.
Defined.

Lemma reserve_alone_witness :
  reserve_reported demo_budget 5 (sy_shared late_clear_end) 0 1 =
  (sy_shared late_clear_end, Returned (Err (Share 4096 1 1024))).
Proof.
  rewrite (reserve_alone demo_budget 5 (sy_shared late_clear_end) 0 1); [by vm_compute|].
  unfold roomy. vm_compute. repeat split; try discriminate. apply le_n.
Defined.

Lemma release_orders_agree_witness :
  g_queued (release_all demo_budget 2 (release demo_budget 1 (sy_shared late_clear_end) 0 100).1 0).1 = 0.
Proof.
  apply (release_orders_agree demo_budget 1 2 (sy_shared late_clear_end) 0 100);
    vm_compute; repeat split; try discriminate; apply le_n.
Defined.
