(* ===== verification/Extract.v ===== *)
(** * [crates/pahoa-multidata/src/error.rs], [extract.rs]: path-tracking
      accessors over pickled objects

    Every accessor returns the value or an error carrying where in the
    multidata it was.  A [Path] is the list of its segments, innermost last;
    the texts of the messages are not modelled. *)

From Stdlib Require Import ZArith Lia Bool.
From stdpp Require Import base tactics list strings.
From S2P Require Import Prelude Reader PyObj Locations.

Inductive Segment : Type :=
| SKey (k : string)
| SIndex (i : Z)
| SObj (o : PyObj).

Definition Path : Type := list Segment.

Definition root : Path := [].
Definition pkey (p : Path) (k : string) : Path := p ++ [SKey k].
Definition pindex (p : Path) (i : Z) : Path := p ++ [SIndex i].
(** [path.index(format_args!("{key:?}"))]. *)
Definition pobj (p : Path) (o : PyObj) : Path := p ++ [SObj o].

(** What [Error::Locations] says, one constructor per message. *)
Inductive TableProblem : Type :=
| SlotZero
| BadTable (e : LocationsError)
| NeedsNewerServer
| NameWithoutSlot (name : string) (slot : Z)
| NameOnTeam (name : string) (team : Z)
| MemberWithoutSlot (slot member : Z).

Inductive Error : Type :=
| ErrEmpty
| ErrUnsupportedFormat (v : Z)
| ErrDecompress
| ErrPickleTooLarge (limit : Z)
| ErrTooManyPrecollectedItems (n limit : Z)
| ErrPickle (e : PickleError)
| ErrMissing (path : Path)
| ErrType (path : Path) (expected found : string)
| ErrArity (path : Path) (expected found : Z)
| ErrRange (path : Path) (value : Z)
| ErrEnum (path : Path) (name : string) (value : Z)
| ErrLocations (what : TableProblem).

Definition at_ (o : PyObj) (p : Path) (key : string) : result Error PyObj :=
  ok_or (ErrMissing (pkey p key)) (dict_get o key).

Definition opt (o : PyObj) (key : string) : option PyObj := dict_get o key.

Definition str_ (o : PyObj) (p : Path) : result Error string :=
  ok_or (ErrType p "str" (type_name o)) (as_str o).

Definition int (o : PyObj) (p : Path) : result Error Z :=
  ok_or (ErrType p "int" (type_name o)) (as_int o).

Definition bool_ (o : PyObj) (p : Path) : result Error bool :=
  match o with
  | PBool b => Ok b
  | PInt 0 => Ok false
  | PInt 1 => Ok true
  | other => Err (ErrType p "bool" (type_name other))
  end.

Definition seq_ (o : PyObj) (p : Path) : result Error (list PyObj) :=
  ok_or (ErrType p "list, tuple or set" (type_name o)) (as_seq o).

Definition dict_ (o : PyObj) (p : Path) : result Error (list (PyObj * PyObj)) :=
  ok_or (ErrType p "dict" (type_name o)) (as_dict o).

Definition tuple_n (o : PyObj) (p : Path) (n : nat) : result Error (list PyObj) :=
  items ← seq_ o p;
  if negb (Nat.eqb (length items) n)
  then Err (ErrArity p (Z.of_nat n) (Z.of_nat (length items)))
  else Ok items.

(** [u32::try_from] of an [i64]. *)
Definition u32_ (o : PyObj) (p : Path) : result Error Z :=
  v ← int o p;
  if (0 <=? v) && (v <=? u32_max) then Ok v else Err (ErrRange p v).

(** [items.iter().enumerate().map(f).collect::<Result<Vec<_>>>()]. *)
Fixpoint map_indexed {A B} (f : Z -> A -> result Error B) (i : Z) (l : list A)
    : result Error (list B) :=
  match l with
  | [] => Ok []
  | x :: l => y ← f i x; ys ← map_indexed f (i + 1) l; Ok (y :: ys)
  end.

(** ** Inverting a successful parse *)

Lemma u32_ok o p v : u32_ o p = Ok v -> is_u32 v.
Proof.
  unfold u32_. intros H. inv_ok. destruct ((0 <=? a) && (a <=? u32_max)) eqn:E; inv_ok.
  subst. apply andb_true_iff in E as [E1 E2]. breflect. unfold is_u32, u32_max in *. lia.
Qed.

