(* ===== verification/Types.v ===== *)
(** * [crates/pahoa-multidata/src/types.rs], [crates/pahoa-proto/src/types.rs]:
      the values that cross the wire

    The enums carry the source's constructors, one Module each; slots, items
    and locations are the integers they are. *)

From Stdlib Require Import ZArith Lia Bool Ascii.
From stdpp Require Import base tactics list strings pretty countable.
From S2P Require Import Prelude.

Open Scope pahoa_scope.

(** ** Strings *)

Definition to_lower (c : ascii) : ascii :=
  let n := N_of_ascii c in
  if ((65 <=? n) && (n <=? 90))%N then ascii_of_N (n + 32) else c.

(** [str::to_ascii_lowercase]. *)
Fixpoint to_ascii_lowercase (s : string) : string :=
  match s with
  | EmptyString => EmptyString
  | String c s => String (to_lower c) (to_ascii_lowercase s)
  end.

Fixpoint starts_with (p s : string) : bool :=
  match p, s with
  | EmptyString, _ => true
  | String a p, String b s => Ascii.eqb a b && starts_with p s
  | _, _ => false
  end.

(** [str::contains] with a string pattern. *)
Fixpoint contains_str (s p : string) : bool :=
  starts_with p s ||
  match s with
  | EmptyString => false
  | String _ s => contains_str s p
  end.

Definition str_concat (l : list string) : string := String.concat "" l.

Definition str_eqb (a b : string) : bool := bool_decide (a = b).

(** ** [SlotType] *)

Module SlotType.
Inductive t := Spectator | Player | Group.

#[global] Instance t_eq_dec : EqDecision t.
Proof. solve_decision. Defined.

Definition code (s : t) : Z :=
  match s with Spectator => 0 | Player => 1 | Group => 2 end.

Definition from_i64 (v : Z) : option t :=
  match v with
  | 0 => Some Spectator
  | 1 => Some Player
  | 2 => Some Group
  | _ => None
  end.

Definition always_goal (s : t) : bool := negb (bool_decide (s = Player)).
End SlotType.

(** ** [ClientStatus] *)

Module ClientStatus.
Inductive t := Unknown | Connected | Ready | Playing | Goal.

#[global] Instance t_eq_dec : EqDecision t.
Proof. solve_decision. Defined.

(** [self as i64]. *)
Definition code (s : t) : Z :=
  match s with Unknown => 0 | Connected => 5 | Ready => 10 | Playing => 20 | Goal => 30 end.

Definition as_text (s : t) : string :=
  match s with
  | Unknown => "unknown"
  | Connected => "connected"
  | Ready => "ready"
  | Playing => "playing"
  | Goal => "goal"
  end.

Definition from_text (s : string) : option t :=
  let l := to_ascii_lowercase s in
  if str_eqb l "unknown" then Some Unknown
  else if str_eqb l "connected" then Some Connected
  else if str_eqb l "ready" then Some Ready
  else if str_eqb l "playing" then Some Playing
  else if str_eqb l "goal" then Some Goal
  else None.

Definition ALL : list t := [Unknown; Connected; Ready; Playing; Goal].

Definition from_wire (v : Z) : option t :=
  match v with
  | 0 => Some Unknown
  | 5 => Some Connected
  | 10 => Some Ready
  | 20 => Some Playing
  | 30 => Some Goal
  | _ => None
  end.
End ClientStatus.

(** ** [HintStatus] *)

Module HintStatus.
Inductive t := Unspecified | NoPriority | Avoid | Priority | Found.

#[global] Instance t_eq_dec : EqDecision t.
Proof. solve_decision. Defined.

Definition code (s : t) : Z :=
  match s with
  | Unspecified => 0 | NoPriority => 10 | Avoid => 20 | Priority => 30 | Found => 40
  end.

Definition from_wire (v : Z) : option t :=
  match v with
  | 0 => Some Unspecified
  | 10 => Some NoPriority
  | 20 => Some Avoid
  | 30 => Some Priority
  | 40 => Some Found
  | _ => None
  end.

Definition label (s : t) : string :=
  match s with
  | Unspecified => "(unspecified)"
  | NoPriority => "(no priority)"
  | Avoid => "(avoid)"
  | Priority => "(priority)"
  | Found => "(found)"
  end.
End HintStatus.

(** [item_flags::is_trap]. *)
Definition is_trap (flags : Z) : bool := negb (flags ^& 4 =? 0).

(** ** [Permission] *)

Module Permission.
Inductive t := Disabled | Enabled | Goal | Auto | AutoEnabled.

#[global] Instance t_eq_dec : EqDecision t.
Proof. solve_decision. Defined.

(** [self as u8]. *)
Definition code (p : t) : Z :=
  match p with Disabled => 0 | Enabled => 1 | Goal => 2 | Auto => 6 | AutoEnabled => 7 end.

(** [From<u8>]: anything unknown is [Disabled]. *)
Definition from_u8 (v : Z) : t :=
  match v with
  | 1 => Enabled
  | 2 => Goal
  | 6 => Auto
  | 7 => AutoEnabled
  | _ => Disabled
  end.

Definition from_wire (v : Z) : option t :=
  match v with
  | 0 => Some Disabled
  | 1 => Some Enabled
  | 2 => Some Goal
  | 6 => Some Auto
  | 7 => Some AutoEnabled
  | _ => None
  end.

Definition as_text (p : t) : string :=
  match p with
  | Disabled => "disabled"
  | Enabled => "enabled"
  | Goal => "goal"
  | Auto => "auto"
  | AutoEnabled => "auto-enabled"
  end.

Definition allows_manual (p : t) : bool := negb (code p ^& code Enabled =? 0).
Definition on_goal (p : t) : bool := negb (code p ^& code Goal =? 0).
Definition is_auto (p : t) : bool := negb (code p ^& 4 =? 0).

Definition from_text (text : string) : t :=
  let t := to_ascii_lowercase text in
  let bits := 0 in
  let bits := if contains_str t "auto" then bits ^| 6 else bits in
  let bits := if contains_str t "enabled" then bits ^| 1 else bits in
  let bits := if contains_str t "goal" then bits ^| 2 else bits in
  from_u8 bits.
End Permission.

(** ** [Version] *)

Record Version : Type := mkVersion { major : Z; minor : Z; build : Z }.

#[export] Instance Version_eq_dec : EqDecision Version.
Proof. solve_decision. Defined.

(** The derived lexicographic [Ord]. *)
Definition version_ltb (a b : Version) : bool :=
  (major a <? major b) ||
  ((major a =? major b) &&
   ((minor a <? minor b) || ((minor a =? minor b) && (build a <? build b)))).

Definition version_max (a b : Version) : Version := if version_ltb b a then a else b.

Definition version_text (v : Version) : string :=
  str_concat [pretty (major v); "."; pretty (minor v); "."; pretty (build v)].

(** ** [ItemsHandling] *)

Module ItemsHandling.
Record t := mk { bits : Z }.

#[global] Instance t_eq_dec : EqDecision t.
Proof. solve_decision. Defined.

Definition REMOTE_ITEMS : Z := 1.
Definition OWN_WORLD : Z := 2.
Definition START_INVENTORY : Z := 4.

Definition new (b : Z) : option t :=
  if (b ^& REMOTE_ITEMS =? 0) && negb (b ^& 6 =? 0) then None else Some (mk b).

Definition no_items (h : t) : bool := bits h ^& REMOTE_ITEMS =? 0.
Definition remote_items (h : t) : bool := negb (bits h ^& OWN_WORLD =? 0).
Definition remote_start_inventory (h : t) : bool := negb (bits h ^& START_INVENTORY =? 0).
End ItemsHandling.

(** ** Records *)

Record NetworkPlayer : Type := mkNetworkPlayer {
  np_team : Z; np_slot : Z; np_alias : string; np_name : string }.

Record NetworkSlot : Type := mkNetworkSlot {
  ns_name : string;
  ns_game : string;
  slot_type : SlotType.t;
  group_members : list Z
}.

Record NetworkItem : Type := mkNetworkItem {
  ni_item : Z; ni_location : Z; ni_player : Z; ni_flags : Z }.

#[export] Instance NetworkItem_eq_dec : EqDecision NetworkItem.
Proof. solve_decision. Defined.

Record Hint : Type := mkHint {
  receiving_player : Z;
  finding_player : Z;
  h_location : Z;
  h_item : Z;
  found : bool;
  entrance : string;
  item_flags : Z;
  status : HintStatus.t
}.

#[export] Instance Hint_eq_dec : EqDecision Hint.
Proof. solve_decision. Defined.

Record HintIdentity : Type := mkHintIdentity {
  id_receiving : Z; id_finding : Z; id_location : Z; id_item : Z; id_entrance : string }.

#[export] Instance HintIdentity_eq_dec : EqDecision HintIdentity.
Proof. solve_decision. Defined.

Definition identity (h : Hint) : HintIdentity :=
  mkHintIdentity (receiving_player h) (finding_player h) (h_location h) (h_item h) (entrance h).

(** ** [JsonMessagePart] *)

Record JsonMessagePart : Type := mkPart {
  p_text : option string;
  p_player : option Z;
  p_flags : option Z;
  p_hint_status : option HintStatus.t;
  p_type : option string;
  p_color : option string
}.

Definition part_text (s : string) : JsonMessagePart := mkPart (Some s) None None None None None.
Definition part_typed (ty text : string) : JsonMessagePart :=
  mkPart (Some text) None None None (Some ty) None.
Definition part_player_id (slot : Z) : JsonMessagePart := part_typed "player_id" (pretty slot).
Definition part_item_id (item owner flags : Z) : JsonMessagePart :=
  mkPart (Some (pretty item)) (Some owner) (Some flags) None (Some "item_id") None.
Definition part_location_id (location owner : Z) : JsonMessagePart :=
  mkPart (Some (pretty location)) (Some owner) None None (Some "location_id") None.
Definition part_hint_status (s : HintStatus.t) : JsonMessagePart :=
  mkPart (Some (HintStatus.label s)) None None (Some s) (Some "hint_status") None.

(** ** Properties *)

(** Every wire table of the protocol's enums is the inverse of the cast to
    an integer, in both directions: each constructor is read back from its code,
    and a code is accepted only if it is the code of what it is read as; the
    textual spellings round-trip too. *)
Theorem enum_tables_round_trip :
  (forall s v, SlotType.from_i64 v = Some s <-> SlotType.code s = v) /\
  (forall s v, ClientStatus.from_wire v = Some s <-> ClientStatus.code s = v) /\
  (forall s v, HintStatus.from_wire v = Some s <-> HintStatus.code s = v) /\
  (forall p v, Permission.from_wire v = Some p <-> Permission.code p = v) /\
  (forall s, ClientStatus.from_text (ClientStatus.as_text s) = Some s) /\
  (forall p, Permission.from_text (Permission.as_text p) = p) /\
  (forall p, Permission.from_u8 (Permission.code p) = p).
Proof.
  split_and!.
  - intros s v. split; [|intros <-; by destruct s].
    unfold SlotType.from_i64. intros H. repeat (case_match; try discriminate); by simplify_eq.
  - intros s v. split; [|intros <-; by destruct s].
    unfold ClientStatus.from_wire. intros H. repeat (case_match; try discriminate); by simplify_eq.
  - intros s v. split; [|intros <-; by destruct s].
    unfold HintStatus.from_wire. intros H. repeat (case_match; try discriminate); by simplify_eq.
  - intros s v. split; [|intros <-; by destruct s].
    unfold Permission.from_wire. intros H. repeat (case_match; try discriminate); by simplify_eq.
  - by intros [].
  - by intros [].
  - by intros [].
Qed.

(** [ItemsHandling] accepts a byte exactly when remote items are enabled
    or neither dependent bit is set; so an accepted value that receives no
    items asks for nothing of its own world and no start inventory. *)
Theorem items_handling_dependent_bits (b : Z) :
  (ItemsHandling.new b = None <->
     Z.testbit b 0 = false /\ (Z.testbit b 1 = true \/ Z.testbit b 2 = true)) /\
  (forall h, ItemsHandling.new b = Some h ->
     ItemsHandling.bits h = b /\
     (ItemsHandling.no_items h = true ->
      ItemsHandling.remote_items h = false /\ ItemsHandling.remote_start_inventory h = false)).
Proof.
  assert (Hp : forall n, 0 <= n -> (b ^& 2 ^ n =? 0) = negb (Z.testbit b n)).
  { intros n Hn. destruct (Z.testbit b n) eqn:E; cbn.
    - apply Z.eqb_neq. intros H. assert (Hb : Z.testbit (b ^& 2 ^ n) n = true).
      { rewrite Z.land_spec, E, Z.pow2_bits_true by done. done. }
      rewrite H, Z.bits_0 in Hb. done.
    - apply Z.eqb_eq, Z.bits_inj'. intros i Hi. rewrite Z.land_spec, Z.bits_0.
      destruct (Z.eq_dec i n) as [->|Hne]; [by rewrite E|].
      rewrite Z.pow2_bits_false by done. apply andb_false_r. }
  pose proof (Hp 0 ltac:(lia)) as H1. change (2 ^ 0) with 1 in H1.
  pose proof (Hp 1 ltac:(lia)) as H2. pose proof (Hp 2 ltac:(lia)) as H4.
  change (2 ^ 1) with 2 in H2. change (2 ^ 2) with 4 in H4.
  assert (H6 : (b ^& 6 =? 0) = negb (Z.testbit b 1) && negb (Z.testbit b 2)).
  { rewrite <- H2, <- H4. change 6 with (2 ^| 4). rewrite Z.land_lor_distr_r.
    apply eq_true_iff_eq. rewrite andb_true_iff, !Z.eqb_eq. apply Z.lor_eq_0_iff. }
  unfold ItemsHandling.new, ItemsHandling.no_items, ItemsHandling.remote_items,
    ItemsHandling.remote_start_inventory, ItemsHandling.REMOTE_ITEMS, ItemsHandling.OWN_WORLD,
    ItemsHandling.START_INVENTORY. rewrite H1, H6.
  split.
  - destruct (Z.testbit b 0), (Z.testbit b 1), (Z.testbit b 2); cbn; naive_solver.
  - intros h. destruct (negb (Z.testbit b 0) && _) eqn:E; [done|]. intros [= <-]. cbn.
    split; [done|]. rewrite H1, H2, H4.
    destruct (Z.testbit b 0), (Z.testbit b 1), (Z.testbit b 2); cbn in *; naive_solver.
Qed.
