(* ===== verification/Datapackage.v ===== *)
(** * [crates/pahoa-multidata/src/datapackage.rs], [hint_blacklist.rs]:
      item and location names

    Parsing the package a seed embeds, and merging it into the name tables of
    a room.  Maps keyed by names are [gmap string]; where the source walks a
    [BTreeMap] in key order the sorted key list is explicit. *)

From Stdlib Require Import ZArith Lia Bool Ascii.
From stdpp Require Import base tactics list sets gmap strings pretty sorting.
From S2P Require Import Prelude PyObj Extract Types.

Record GamePackage : Type := mkGamePackage {
  item_name_to_id : gmap string Z;
  location_name_to_id : gmap string Z;
  checksum : option string;
  item_name_groups : gmap string (list string);
  location_name_groups : gmap string (list string);
  hint_blacklist : gset string
}.

Definition empty_package : GamePackage := mkGamePackage ∅ ∅ None ∅ ∅ ∅.

(** The keys of a [BTreeMap<String, _>] in order. *)
Definition sorted_keys {A} (m : gmap string A) : list string := sorted_strings (elements (dom m)).

Definition sorted_items {A} (m : gmap string A) : list (string * A) :=
  omap (fun k => pair k <$> m !! k) (sorted_keys m).

Definition build_reverse (p : GamePackage) : gmap Z string * gmap Z string :=
  let rev m := collect_map ((fun kv => (kv.2, kv.1)) <$> sorted_items m) in
  (rev (item_name_to_id p), rev (location_name_to_id p)).

Definition name_map (v : option PyObj) (path : Path) : result Error (gmap string Z) :=
  match v with
  | None => Ok ∅
  | Some v =>
      pairs ← dict_ v path;
      l ← mapM (fun kv => name ← str_ kv.1 path; id ← int kv.2 (pkey path name); Ok (name, id)) pairs;
      Ok (collect_map l)
  end.

Definition group_map (v : option PyObj) (path : Path)
    : result Error (gmap string (list string)) :=
  match v with
  | None => Ok ∅
  | Some v =>
      pairs ← dict_ v path;
      l ← mapM (fun kv =>
                  name ← str_ kv.1 path;
                  items ← seq_ kv.2 (pkey path name);
                  members ← mapM (fun m => str_ m (pkey path name)) items;
                  Ok (name, members)) pairs;
      Ok (collect_map l)
  end.

Definition package_from_py (v : PyObj) (path : Path) : result Error GamePackage :=
  items ← name_map (opt v "item_name_to_id") (pkey path "item_name_to_id");
  locs ← name_map (opt v "location_name_to_id") (pkey path "location_name_to_id");
  sum ← match opt v "checksum" with
        | Some c => s ← str_ c (pkey path "checksum"); Ok (Some s)
        | None => Ok None
        end;
  igroups ← group_map (opt v "item_name_groups") (pkey path "item_name_groups");
  lgroups ← group_map (opt v "location_name_groups") (pkey path "location_name_groups");
  Ok (mkGamePackage items locs sum igroups lgroups ∅).

Definition is_stub (p : GamePackage) : bool :=
  bool_decide (item_name_to_id p = ∅) && bool_decide (location_name_to_id p = ∅).

Record GameNames : Type := mkGameNames {
  package : GamePackage;
  item_by_id : gmap Z string;
  location_by_id : gmap Z string
}.

Definition names_new (p : GamePackage) : GameNames :=
  let '(items, locations) := build_reverse p in mkGameNames p items locations.

Definition item_name (g : GameNames) (id : Z) : string :=
  default (str_concat ["Unknown item (ID:"; pretty id; ")"]) (item_by_id g !! id).

Definition location_name (g : GameNames) (id : Z) : string :=
  default (str_concat ["Unknown location (ID:"; pretty id; ")"]) (location_by_id g !! id).

Definition item_id (g : GameNames) (name : string) : option Z := item_name_to_id (package g) !! name.

Definition location_id (g : GameNames) (name : string) : option Z :=
  location_name_to_id (package g) !! name.

Definition is_hintable (g : GameNames) (name : string) : bool :=
  negb (bool_decide (name ∈ hint_blacklist (package g))).

(** Merge of two sorted key sequences; [fuel] is their total length. *)
Fixpoint union_sorted_go (fuel : nat) (a b : list string) : list string :=
  match fuel with
  | O => []
  | S fuel =>
      match a, b with
      | [], [] => []
      | x :: a, [] => x :: union_sorted_go fuel a []
      | [], y :: b => y :: union_sorted_go fuel [] b
      | x :: a', y :: b' =>
          if bool_decide (x = y) then x :: union_sorted_go fuel a' b'
          else if string_leb x y then x :: union_sorted_go fuel a' b
          else y :: union_sorted_go fuel a b'
      end
  end.

Definition union_sorted (a b : list string) : list string :=
  union_sorted_go (length a + length b) a b.

Definition item_and_group_names (g : GameNames) : list string :=
  union_sorted (sorted_keys (item_name_to_id (package g)))
    (sorted_keys (item_name_groups (package g))).

Definition location_and_group_names (g : GameNames) : list string :=
  union_sorted (sorted_keys (location_name_to_id (package g)))
    (sorted_keys (location_name_groups (package g))).

Record DataPackage : Type := mkDataPackage { games : gmap string GameNames }.

Record MergeReport : Type := mkMergeReport {
  from_multidata : list string;
  unresolved : list string
}.

(** [hint_blacklist::HINT_BLACKLIST] and [for_game]. *)
Definition HINT_BLACKLIST : list (string * list string) :=
  [("A Link to the Past", ["Triforce"]);
   ("Castlevania - Circle of the Moon", ["Battle Arena: End reward"])]%string.

Definition for_game (game : string) : list string :=
  match List.find (fun e => str_eqb e.1 game) HINT_BLACKLIST with
  | Some (_, names) => names
  | None => []
  end.

(** The package a game contributes, and whether it came from the seed. *)
Definition resolve_game (embedded : gmap string GamePackage) (game : string)
    : GamePackage * bool :=
  match embedded !! game with
  | Some p => if is_stub p then (empty_package, false) else (p, true)
  | None => (empty_package, false)
  end.

Definition graft (p : GamePackage) (game : string) : GamePackage :=
  mkGamePackage (item_name_to_id p) (location_name_to_id p) (checksum p)
    (item_name_groups p) (location_name_groups p) (list_to_set (for_game game)).

(** One iteration of [for game in needed]. *)
Definition merge_game (embedded : gmap string GamePackage)
    (acc : gmap string GameNames * MergeReport) (game : string)
    : gmap string GameNames * MergeReport :=
  let '(games, report) := acc in
  let '(p, from_seed) := resolve_game embedded game in
  let report :=
    if from_seed then mkMergeReport (from_multidata report ++ [game]) (unresolved report)
    else mkMergeReport (from_multidata report) (unresolved report ++ [game]) in
  (<[game := names_new (graft p game)]> games, report).

(** [m.extend(other)]: the other map's entries replace. *)
Definition extend {A} (m other : gmap Z A) : gmap Z A := other ∪ m.

Definition add_archipelago (games : gmap string GameNames) : gmap string GameNames :=
  match games !! "Archipelago"%string with
  | None => games
  | Some ap =>
      map_imap (fun name g =>
        Some (if str_eqb name "Archipelago" then g
              else mkGameNames (package g) (extend (item_by_id g) (item_by_id ap))
                     (extend (location_by_id g) (location_by_id ap)))) games
  end.

(** [needed] in the order its [HashSet] is walked. *)
Definition merge (embedded : gmap string GamePackage) (needed : list string)
    : DataPackage * MergeReport :=
  let '(games, report) :=
    fold_left (merge_game embedded) needed (∅, mkMergeReport [] []) in
  (mkDataPackage (add_archipelago games),
   mkMergeReport (sorted_strings (from_multidata report)) (sorted_strings (unresolved report))).

Definition embedded_from_py (v : PyObj) (path : Path) : result Error (gmap string GamePackage) :=
  pairs ← dict_ v path;
  l ← mapM (fun kv =>
              game ← str_ kv.1 path;
              pkg ← package_from_py kv.2 (pkey path game);
              Ok (game, pkg)) pairs;
  Ok (collect_map l).

Definition checksums (d : DataPackage) : gmap string string :=
  omap (fun g => checksum (package g)) (games d).

(** [PER_ENTRY] = 12 and [PER_GAME] = 128. *)
Definition wire_size_estimate (d : DataPackage) : Z :=
  fold_left Z.add
    ((fun e : string * GameNames =>
       let '(name, g) := e in
       let names :=
         fold_left Z.add
           ((fun n => Z.of_nat (String.length n) + 12) <$>
              (sorted_keys (item_name_to_id (package g)) ++
               sorted_keys (location_name_to_id (package g)))) 0 in
       Z.of_nat (String.length name) + 128 + names) <$> sorted_items (games d)) 0.

(** ** Properties of the merge *)

Lemma union_first {A} (x y : option A) :
  x ∪ y = match x with Some n => Some n | None => y end.
Proof. by destruct x, y. Qed.

Lemma names_package p : package (names_new p) = p.
Proof. unfold names_new. by destruct (build_reverse p). Qed.

Lemma merge_fold embedded needed acc :
  let '(games, report) := fold_left (merge_game embedded) needed acc in
  (forall g, games !! g = if bool_decide (g ∈ needed)
     then Some (names_new (graft (resolve_game embedded g).1 g)) else acc.1 !! g) /\
  from_multidata report = from_multidata acc.2 ++ filter (fun g => (resolve_game embedded g).2 = true) needed /\
  unresolved report = unresolved acc.2 ++ filter (fun g => (resolve_game embedded g).2 = false) needed.
Proof.
  revert acc. induction needed as [|g0 needed IH]; intros [m r].
  { cbn. rewrite !app_nil_r. split; [|done]. intros g. by rewrite bool_decide_false by set_solver. }
  cbn [fold_left]. specialize (IH (merge_game embedded (m, r) g0)).
  destruct (fold_left _ needed _) as [games report]. destruct IH as (Hg & Hf & Hu).
  unfold merge_game in Hg, Hf, Hu.
  destruct (resolve_game embedded g0) as [p b] eqn:Hr. cbn [fst snd] in *. split_and!.
  - intros g. rewrite Hg. case_bool_decide as Hin.
    { by rewrite bool_decide_true by set_solver. }
    destruct (decide (g = g0)) as [->|Hne].
    + rewrite bool_decide_true by set_solver. by rewrite lookup_insert_eq, Hr.
    + rewrite bool_decide_false by set_solver. by rewrite lookup_insert_ne by done.
  - rewrite Hf. destruct b; cbn [from_multidata unresolved].
    + rewrite filter_cons_True by (by rewrite Hr). by rewrite <- app_assoc.
    + rewrite filter_cons_False by (by rewrite Hr). done.
  - rewrite Hu. destruct b; cbn [from_multidata unresolved].
    + rewrite filter_cons_False by (by rewrite Hr). done.
    + rewrite filter_cons_True by (by rewrite Hr). by rewrite <- app_assoc.
Qed.

Definition own_names (embedded : gmap string GamePackage) (g : string) : GameNames :=
  names_new (graft (resolve_game embedded g).1 g).

(** The merged tables hold exactly the games the seed needs; each game's
    package is the embedded one (a stripped stub counts as absent) with the
    built-in blacklist grafted on, ids resolve to the pseudo-game's names first
    and to the game's own otherwise, and the report splits the needed games
    into those two cases. *)
Theorem merge_spec embedded needed :
  let '(dp, report) := merge embedded needed in
  (forall g, is_Some (games dp !! g) <-> g ∈ needed) /\
  (forall g names, games dp !! g = Some names ->
     package names = graft (resolve_game embedded g).1 g /\
     forall id, item_by_id names !! id =
       if decide ("Archipelago"%string ∈ needed)
       then match item_by_id (own_names embedded "Archipelago") !! id with
            | Some n => Some n
            | None => item_by_id (own_names embedded g) !! id
            end
       else item_by_id (own_names embedded g) !! id) /\
  (forall g, g ∈ needed ->
     g ∈ from_multidata report <-> exists p, embedded !! g = Some p /\ is_stub p = false) /\
  (forall g, g ∈ needed -> g ∈ unresolved report <-> g ∉ from_multidata report).
Proof.
  unfold merge. pose proof (merge_fold embedded needed (∅, mkMergeReport [] [])) as H.
  destruct (fold_left _ needed _) as [m r]. destruct H as (Hg & Hf & Hu). cbn [fst snd] in *.
  assert (Hfrom : forall g, g ∈ sorted_strings (from_multidata r) <->
                    g ∈ needed /\ (resolve_game embedded g).2 = true).
  { intros g. unfold sorted_strings. rewrite merge_sort_Permutation, Hf. cbn.
    rewrite list_elem_of_filter. tauto. }
  assert (Hunr : forall g, g ∈ sorted_strings (unresolved r) <->
                    g ∈ needed /\ (resolve_game embedded g).2 = false).
  { intros g. unfold sorted_strings. rewrite merge_sort_Permutation, Hu. cbn.
    rewrite list_elem_of_filter. tauto. }
  cbn [games from_multidata unresolved]. split_and!.
  - intros g. unfold add_archipelago. destruct (m !! "Archipelago"%string) as [ap|] eqn:Hap.
    + rewrite map_lookup_imap, Hg. case_bool_decide; cbn; [|rewrite lookup_empty; cbn].
      * split; eauto.
      * split; [intros [? [=]]|done].
    + rewrite Hg. case_bool_decide; [split; eauto|]. rewrite lookup_empty.
      split; [intros [? [=]]|done].
  - intros g names. pose proof (Hg "Archipelago"%string) as Hga. unfold add_archipelago.
    destruct (m !! "Archipelago"%string) as [ap|] eqn:Hap.
    + case_bool_decide as Hin; [|by rewrite lookup_empty in Hga]. injection Hga as ->.
      rewrite map_lookup_imap, Hg. case_bool_decide; [|by rewrite lookup_empty]. cbn.
      intros [= <-]. unfold str_eqb, own_names.
      case_bool_decide as Heq; cbn [package item_by_id].
      * subst g. split; [apply names_package|]. intros id.
        rewrite decide_True by done. case_match; congruence.
      * split; [apply names_package|]. intros id.
        rewrite decide_True by done. unfold extend. rewrite lookup_union. apply union_first.
    + case_bool_decide as Hin; [done|]. rewrite Hg. case_bool_decide; [|by rewrite lookup_empty].
      intros [= <-]. split; [apply names_package|].
      intros id. by rewrite decide_False by done.
  - intros g Hn. rewrite Hfrom. unfold resolve_game. destruct (embedded !! g) as [p|]; cbn.
    + destruct (is_stub p) eqn:E; cbn; split; [intros [_ [=]]|..|done].
      * intros (p' & [= <-] & ?). congruence.
      * eauto.
    + split; [intros [_ [=]]|]. intros (p' & [=] & _).
  - intros g Hn. rewrite Hfrom, Hunr. destruct (resolve_game embedded g).2; intuition congruence.
Qed.
