(* ===== verification/Multidata.v ===== *)
(** * [crates/pahoa-multidata/src/multidata.rs], [types.rs], [locations.rs]
      ([from_py]): decoding a seed

    From the pickled object to the typed seed, in the source's order of checks,
    so that the first error reported is the source's.  [server_options] and the
    zlib container of [parse] stay outside: inflating is a parameter. *)

From Stdlib Require Import ZArith Lia Bool Ascii.
From stdpp Require Import base tactics list sets gmap strings sorting.
From S2P Require Import Prelude Reader PyObj Locations Extract Types Datapackage.

(** ** [types.rs] *)

Definition slot_from_py (v : PyObj) (path : Path) : result Error NetworkSlot :=
  args ← ok_or (ErrType path "NetUtils.NetworkSlot" (type_name v))
           (as_instance_of v "NetUtils" "NetworkSlot");
  if negb (Nat.eqb (length args) 4) then Err (ErrArity path 4 (Z.of_nat (length args)))
  else
    let arg i := nth i args PNone in
    let type_path := pkey path "type" in
    first ← ok_or (ErrType type_path "NetUtils.SlotType" (type_name (arg 2%nat)))
              (a ← as_instance_of (arg 2%nat) "NetUtils" "SlotType"; head a);
    raw_type ← int first type_path;
    let members_path := pkey path "group_members" in
    items ← seq_ (arg 3%nat) members_path;
    members ← map_indexed (fun i m => u32_ m (pindex members_path i)) 0 items;
    name ← str_ (arg 0%nat) (pkey path "name");
    game ← str_ (arg 1%nat) (pkey path "game");
    ty ← ok_or (ErrEnum type_path "SlotType" raw_type) (SlotType.from_i64 raw_type);
    Ok (mkNetworkSlot name game ty members).

Definition hint_from_py (v : PyObj) (path : Path) : result Error Hint :=
  args ← ok_or (ErrType path "NetUtils.Hint" (type_name v)) (as_instance_of v "NetUtils" "Hint");
  if negb ((7 <=? length args)%nat && (length args <=? 8)%nat)
  then Err (ErrArity path 8 (Z.of_nat (length args)))
  else
    let arg i := nth i args PNone in
    status ← match args !! 7%nat with
             | Some s =>
                 let sp := pkey path "status" in
                 raw ← match (a ← as_instance_of s "NetUtils" "HintStatus"; head a) with
                       | Some inner => int inner sp
                       | None => int s sp
                       end;
                 ok_or (ErrEnum sp "HintStatus" raw) (HintStatus.from_wire raw)
             | None => Ok HintStatus.Unspecified
             end;
    receiving ← u32_ (arg 0%nat) (pkey path "receiving_player");
    finding ← u32_ (arg 1%nat) (pkey path "finding_player");
    location ← int (arg 2%nat) (pkey path "location");
    item ← int (arg 3%nat) (pkey path "item");
    found ← bool_ (arg 4%nat) (pkey path "found");
    entrance ← str_ (arg 5%nat) (pkey path "entrance");
    flags ← u32_ (arg 6%nat) (pkey path "item_flags");
    Ok (mkHint receiving finding location item found entrance flags status).

Definition version_from_py (v : PyObj) (path : Path) : result Error Version :=
  parts ← tuple_n v path 3;
  let part i := nth i parts PNone in
  major ← u32_ (part 0%nat) (pindex path 0);
  minor ← u32_ (part 1%nat) (pindex path 1);
  build ← u32_ (part 2%nat) (pindex path 2);
  Ok (mkVersion major minor build).

(** ** [locations.rs]: [from_py] *)

Definition entry_from_py (sender : Z) (slot_path : Path) (kv : PyObj * PyObj)
    : result Error LocationEntry :=
  let loc_path := pobj slot_path kv.1 in
  location ← int kv.1 loc_path;
  t ← tuple_n kv.2 loc_path 3;
  let part i := nth i t PNone in
  item ← int (part 0%nat) (pindex loc_path 0);
  receiver ← u32_ (part 1%nat) (pindex loc_path 1);
  flags ← u32_ (part 2%nat) (pindex loc_path 2);
  Ok (mkEntry sender location item receiver flags).

(** The loop over the slots, with the running entries, highest slot and key
    count. *)
Fixpoint slots_from_py (path : Path) (per_slot : list (PyObj * PyObj))
    (entries : list LocationEntry) (max_slot slots : Z)
    : result Error (list LocationEntry * Z * Z) :=
  match per_slot with
  | [] => Ok (entries, max_slot, slots)
  | (slot_key, locs) :: rest =>
      let slots := wrap32 (slots + 1) in
      let slot_path := pobj path slot_key in
      sender ← u32_ slot_key slot_path;
      if sender =? 0 then Err (ErrLocations SlotZero)
      else
        let max_slot := Z.max max_slot sender in
        pairs ← dict_ locs slot_path;
        es ← mapM (entry_from_py sender slot_path) pairs;
        slots_from_py path rest (entries ++ es) max_slot slots
  end.

Section with_sort.
Variable sort_unstable_by_key : list LocationEntry -> list LocationEntry.

(** [None]: building the table panics. *)
Definition locations_from_py (v : PyObj) (path : Path) : result Error (option LocationStore) :=
  per_slot ← dict_ v path;
  '(es, max_slot, slots) ← slots_from_py path per_slot [] 0 0;
  Ok (store ← from_entries sort_unstable_by_key es max_slot;
      Some (mkStore (entries store) (index store) slots)).
End with_sort.

(** ** [multidata.rs] *)

Definition MAX_FORMAT_VERSION : Z := 3.
Definition SERVER_VERSION : Version := mkVersion 0 6 7.
Definition MAX_PICKLE_BYTES : Z := 64 * 1024 * 1024.
Definition MAX_PRECOLLECTED_ITEMS : Z := 100000.
Definition MIN_CLIENT_VERSION : Version := mkVersion 0 5 0.
Definition ONLY_TEAM : Z := 0.
Definition LEGACY_GENERATOR_CUTOFF : Version := mkVersion 0 6 2.
Definition LEGACY_MIN_CLIENT_VERSION : Version := mkVersion 0 1 6.

Record MultiData : Type := mkMultiData {
  seed_name : string;
  generator_version : Version;
  minimum_server_version : Version;
  minimum_client_versions : gmap Z Version;
  slot_info : gmap Z NetworkSlot;
  connect_names : gmap string (Z * Z);
  locations : LocationStore;
  precollected_items : gmap Z (list Z);
  precollected_hints : gmap Z (list Hint);
  er_hint_data : gmap Z (gmap Z string);
  spheres : list (gmap Z (gset Z));
  race_mode : bool;
  slot_data : gmap Z PyObj;
  server_options : option PyObj;
  embedded_datapackage : gmap string GamePackage
}.

(** A dict of the source read into a map, key and value in the same step. *)
Definition dict_map {K A} `{Countable K} (f : PyObj * PyObj -> result Error (K * A))
    (v : PyObj) (path : Path) : result Error (gmap K A) :=
  pairs ← dict_ v path;
  l ← mapM f pairs;
  Ok (collect_map l).

Definition opt_dict_map {K A} `{Countable K} (f : PyObj * PyObj -> result Error (K * A))
    (v : option PyObj) (path : Path) : result Error (gmap K A) :=
  match v with None => Ok ∅ | Some d => dict_map f d path end.

Definition int_list_map (v : option PyObj) (path : Path) : result Error (gmap Z (list Z)) :=
  opt_dict_map (fun kv =>
    slot ← u32_ kv.1 path;
    items ← seq_ kv.2 (pindex path slot);
    l ← mapM (fun i => int i (pindex path slot)) items;
    Ok (slot, l)) v path.

(** The client floor of a seed: its generator decides. *)
Definition client_floor (generator : Version) : Version :=
  if version_ltb generator LEGACY_GENERATOR_CUTOFF then LEGACY_MIN_CLIENT_VERSION
  else MIN_CLIENT_VERSION.

Definition clients_from_py (min_versions : PyObj) (mv_path : Path) (floor : Version)
    : result Error (gmap Z Version) :=
  let cp := pkey mv_path "clients" in
  opt_dict_map (fun kv =>
    slot ← u32_ kv.1 cp;
    v ← version_from_py kv.2 (pindex cp slot);
    Ok (slot, version_max v floor)) (opt min_versions "clients") cp.

Definition slot_info_from_py (v : PyObj) (si_path : Path) : result Error (gmap Z NetworkSlot) :=
  dict_map (fun kv =>
    slot ← u32_ kv.1 si_path;
    info ← slot_from_py kv.2 (pindex si_path slot);
    Ok (slot, info)) v si_path.

Definition connect_names_from_py (v : PyObj) (cn_path : Path)
    : result Error (gmap string (Z * Z)) :=
  dict_map (fun kv =>
    name ← str_ kv.1 cn_path;
    pair ← tuple_n kv.2 (pkey cn_path name) 2;
    team ← u32_ (nth 0%nat pair PNone) (pindex (pkey cn_path name) 0);
    slot ← u32_ (nth 1%nat pair PNone) (pindex (pkey cn_path name) 1);
    Ok (name, (team, slot))) v cn_path.

Definition hints_from_py (v : option PyObj) (ph_path : Path) : result Error (gmap Z (list Hint)) :=
  opt_dict_map (fun kv =>
    slot ← u32_ kv.1 ph_path;
    items ← seq_ kv.2 (pindex ph_path slot);
    hints ← map_indexed (fun i h => hint_from_py h (pindex (pindex ph_path slot) i)) 0 items;
    Ok (slot, hints)) v ph_path.

Definition entrances_from_py (v : option PyObj) (eh_path : Path)
    : result Error (gmap Z (gmap Z string)) :=
  opt_dict_map (fun kv =>
    slot ← u32_ kv.1 eh_path;
    let p := pindex eh_path slot in
    inner ← dict_map (fun ln =>
               name ← match ln.2 with PNone => Ok ""%string | other => str_ other p end;
               loc ← int ln.1 p;
               Ok (loc, name)) kv.2 p;
    Ok (slot, inner)) v eh_path.

Definition spheres_from_py (v : option PyObj) (sp_path : Path)
    : result Error (list (gmap Z (gset Z))) :=
  match v with
  | None => Ok []
  | Some l =>
      items ← seq_ l sp_path;
      map_indexed (fun i sphere =>
        let p := pindex sp_path i in
        dict_map (fun kv =>
          slot ← u32_ kv.1 p;
          locs ← seq_ kv.2 (pindex p slot);
          ids ← mapM (fun x => int x (pindex p slot)) locs;
          Ok (slot, list_to_set ids)) sphere p) 0 items
  end.

Definition slot_data_from_py (v : option PyObj) (sd_path : Path) : result Error (gmap Z PyObj) :=
  opt_dict_map (fun kv => slot ← u32_ kv.1 sd_path; Ok (slot, kv.2)) v sd_path.

(** [precollected_items.values().map(Vec::len).sum()]. *)
Definition granted (m : gmap Z (list Z)) : Z :=
  map_fold (fun _ l acc => Z.of_nat (length l) + acc) 0 m.

Section with_sort2.
Variable sort_unstable_by_key : list LocationEntry -> list LocationEntry.

(** The typed seed; the inner [option] is the location table's panic. *)
Definition from_py (v : PyObj) : result Error (option MultiData) :=
  _ ← dict_ v root;
  seed ← at_ v root "seed_name";
  seed_name ← str_ seed (pkey root "seed_name");
  ver ← at_ v root "version";
  generator ← version_from_py ver (pkey root "version");
  let mv_path := pkey root "minimum_versions" in
  min_versions ← at_ v root "minimum_versions";
  srv ← at_ min_versions mv_path "server";
  min_server ← version_from_py srv (pkey mv_path "server");
  clients ← clients_from_py min_versions mv_path (client_floor generator);
  si ← at_ v root "slot_info";
  slot_info ← slot_info_from_py si (pkey root "slot_info");
  cn ← at_ v root "connect_names";
  names ← connect_names_from_py cn (pkey root "connect_names");
  lo ← at_ v root "locations";
  locations ← locations_from_py sort_unstable_by_key lo (pkey root "locations");
  precollected ← int_list_map (opt v "precollected_items") (pkey root "precollected_items");
  if MAX_PRECOLLECTED_ITEMS <? granted precollected
  then Err (ErrTooManyPrecollectedItems (granted precollected) MAX_PRECOLLECTED_ITEMS)
  else
    hints ← hints_from_py (opt v "precollected_hints") (pkey root "precollected_hints");
    entrances ← entrances_from_py (opt v "er_hint_data") (pkey root "er_hint_data");
    spheres ← spheres_from_py (opt v "spheres") (pkey root "spheres");
    race ← match opt v "race_mode" with
           | Some r => i ← int r (pkey root "race_mode"); Ok (negb (i =? 0))
           | None => Ok false
           end;
    slot_data ← slot_data_from_py (opt v "slot_data") (pkey root "slot_data");
    package ← match opt v "datapackage" with
              | None => Ok ∅
              | Some d => embedded_from_py d (pkey root "datapackage")
              end;
    Ok (store ← locations;
        Some (mkMultiData seed_name generator min_server clients slot_info names store
                precollected hints entrances spheres race slot_data (opt v "server_options")
                package)).
End with_sort2.

(** [parse]: format byte, bounded inflate, pickle, typing.  [inflate] is the
    zlib stream cut off after the given number of bytes. *)
Section parse.
Variable inflate : list Z -> Z -> option (list Z).
Variable sort_unstable_by_key : list LocationEntry -> list LocationEntry.

Definition parse (raw : list Z) : result Error (option MultiData) :=
  format ← ok_or ErrEmpty (head raw);
  if MAX_FORMAT_VERSION <? format then Err (ErrUnsupportedFormat format)
  else
    pickle ← ok_or ErrDecompress (inflate (tail raw) (MAX_PICKLE_BYTES + 1));
    if MAX_PICKLE_BYTES <? Z.of_nat (length pickle) then Err (ErrPickleTooLarge MAX_PICKLE_BYTES)
    else
      match from_slice pickle archipelago with
      | Ok obj => from_py sort_unstable_by_key obj
      | Err e => Err (ErrPickle e)
      end.
End parse.

(** ** Reading *)

Definition games_of (d : MultiData) : gset string :=
  {["Archipelago"%string]} ∪ list_to_set ((fun s => ns_game s) <$> (map_to_list (slot_info d)).*2).

Definition teams (d : MultiData) : list Z := [ONLY_TEAM].

Definition player_slots (d : MultiData) : list (Z * NetworkSlot) :=
  filter (fun e => slot_type e.2 = SlotType.Player) (btree_items (slot_info d)).

Definition connectable_slots (d : MultiData) : list (Z * NetworkSlot) :=
  filter (fun e => slot_type e.2 <> SlotType.Group) (btree_items (slot_info d)).

Definition team_slots (d : MultiData) : list (Z * Z) :=
  team ← teams d; (fun e => (team, e.1)) <$> connectable_slots d.

Definition min_client_version (d : MultiData) (slot : Z) : Version :=
  default (client_floor (generator_version d)) (minimum_client_versions d !! slot).

(** ** Validation *)

Definition bad_name (d : MultiData) (e : string * (Z * Z)) : option TableProblem :=
  let '(name, (team, slot)) := e in
  match slot_info d !! slot with
  | None => Some (NameWithoutSlot name slot)
  | Some _ => if negb (team =? ONLY_TEAM) then Some (NameOnTeam name team) else None
  end.

Definition bad_members (d : MultiData) (e : Z * NetworkSlot) : option TableProblem :=
  let '(slot, info) := e in
  match List.find (fun m => bool_decide (slot_info d !! m = None)) (group_members info) with
  | Some m => Some (MemberWithoutSlot slot m)
  | None => None
  end.

(** The first problem of a list. *)
Definition first_problem {A} (f : A -> option TableProblem) (l : list A) : option TableProblem :=
  head (omap f l).

Definition multidata_validate (d : MultiData) (server_version : Version) : result Error unit :=
  if version_ltb server_version (minimum_server_version d) then Err (ErrLocations NeedsNewerServer)
  else
    match Locations.validate (locations d) with
    | Err e => Err (ErrLocations (BadTable e))
    | Ok _ =>
        match first_problem (bad_name d) (map_to_list (connect_names d)) with
        | Some p => Err (ErrLocations p)
        | None =>
            match first_problem (bad_members d) (btree_items (slot_info d)) with
            | Some p => Err (ErrLocations p)
            | None => Ok tt
            end
        end
    end.

(** ** What decoding establishes *)

(** How many locations the object lists. *)
Definition table_size (v : PyObj) : nat :=
  match (l ← dict_get v "locations"; as_dict l) with
  | Some per_slot => sum_list ((fun kv => match as_dict kv.2 with Some d => length d | None => 0%nat end) <$> per_slot)
  | None => 0%nat
  end.

Lemma entry_from_py_sender sender p kv e : entry_from_py sender p kv = Ok e -> e_sender e = sender.
Proof. unfold entry_from_py. intros H. inv_ok. by subst. Qed.

Lemma slots_from_py_ok path per_slot es0 max0 n0 es max n :
  slots_from_py path per_slot es0 max0 n0 = Ok (es, max, n) ->
  0 <= max0 < 2 ^ 32 -> Forall (fun e => 1 <= e_sender e <= max0) es0 ->
  max0 <= max < 2 ^ 32 /\ Forall (fun e => 1 <= e_sender e <= max) es /\
  length es = (length es0 + sum_list ((fun kv => match as_dict kv.2 with Some d => length d | None => 0%nat end) <$> per_slot))%nat /\
  n = wrap32 (n0 + Z.of_nat (length per_slot)) \/ per_slot = [] /\ n = n0 /\ max = max0 /\ es = es0.
Proof.
  revert es0 max0 n0. induction per_slot as [|[k locs] rest IH]; intros es0 max0 n0 H Hmax Hes.
  { cbn in H. inv_ok. subst. right. simplify_eq. done. }
  left. cbn [slots_from_py] in H. inv_ok. pose proof (u32_ok _ _ _ Hok) as Hu.
  destruct (Z.eqb_spec a 0) as [|Ha]; [discriminate|]. inv_ok.
  apply mapM_ok in Hok1. pose proof (Forall2_length _ _ _ Hok1) as Hlen.
  unfold dict_ in Hok0. apply ok_or_ok in Hok0. unfold is_u32 in Hu.
  assert (Hnew : Forall (fun e => e_sender e = a) a1).
  { clear - Hok1. induction Hok1; constructor; [by eapply entry_from_py_sender|done]. }
  assert (Hes' : Forall (fun e => 1 <= e_sender e <= Z.max max0 a) (es0 ++ a1)).
  { apply Forall_app. split; eapply Forall_impl; [exact Hes|cbn; lia|exact Hnew|cbn; lia]. }
  apply IH in H; [|lia|exact Hes']. cbn [fmap list_fmap sum_list length snd]. rewrite Hok0.
  change (id (length a0)) with (length a0).
  rewrite length_app in H.
  destruct H as [(H1 & H2 & H3 & H4)|(-> & -> & -> & ->)].
  - split_and!; [lia|lia|done|lia|]. rewrite H4. unfold wrap32.
    rewrite Zplus_mod_idemp_l. f_equal. lia.
  - cbn. split_and!; [lia|lia|done|rewrite length_app; lia|done].
Qed.

Lemma client_floor_le v floor : version_ltb (version_max v floor) floor = false.
Proof.
  unfold version_max. destruct (version_ltb floor v) eqn:E; unfold version_ltb in *.
  - apply Bool.not_true_iff_false. intros H.
    apply orb_true_iff in E, H. rewrite !andb_true_iff, !orb_true_iff, !andb_true_iff,
      !Z.ltb_lt, !Z.eqb_eq in *. lia.
  - apply Bool.not_true_iff_false. rewrite !orb_true_iff, !andb_true_iff, !orb_true_iff,
      !andb_true_iff, !Z.ltb_lt, !Z.eqb_eq. lia.
Qed.

Lemma dict_map_lookup {K A} `{Countable K} (f : PyObj * PyObj -> result Error (K * A)) v p m k x :
  dict_map f v p = Ok m -> m !! k = Some x -> exists kv, f kv = Ok (k, x).
Proof.
  unfold dict_map. intros Hm Hl. inv_ok. subst m. apply lookup_collect_map_Some in Hl.
  apply mapM_ok in Hok0. apply list_elem_of_lookup in Hl as [i Hi].
  destruct (Forall2_lookup_r _ _ _ _ _ Hok0 Hi) as (kv & _ & Hkv). eauto.
Qed.

Lemma clients_from_py_floor mv p floor m slot v :
  clients_from_py mv p floor = Ok m -> m !! slot = Some v -> version_ltb v floor = false.
Proof.
  unfold clients_from_py, opt_dict_map. destruct (opt mv "clients") as [d|]; intros Hm Hl.
  - destruct (dict_map_lookup _ _ _ _ _ _ Hm Hl) as (kv & Hkv). inv_ok.
    simplify_eq. apply client_floor_le.
  - inv_ok. subst m. by rewrite lookup_empty in Hl.
Qed.

(** What a decoded seed guarantees to the room. *)
Definition seed_wf (d : MultiData) : Prop :=
  store_wf (locations d) /\
  Forall (fun e => 1 <= e_sender e <= max_slot (locations d)) (all (locations d)) /\
  granted (precollected_items d) <= MAX_PRECOLLECTED_ITEMS /\
  (forall slot, version_ltb (min_client_version d slot) (client_floor (generator_version d)) = false).

Lemma version_ltb_irrefl v : version_ltb v v = false.
Proof. unfold version_ltb. by rewrite !Z.ltb_irrefl, !Z.eqb_refl. Qed.

Definition sorts (sort : list LocationEntry -> list LocationEntry) : Prop :=
  forall l, sort l ≡ₚ l /\ StronglySorted key_le (sort l).

Lemma locations_from_py_ok sort v p r :
  sorts sort -> locations_from_py sort v p = Ok r ->
  (forall d, as_dict v = Some d ->
     Z.of_nat (sum_list ((fun kv => match as_dict kv.2 with Some d => length d | None => 0%nat end) <$> d)) < 2 ^ 32) ->
  exists s, r = Some s /\ store_wf s /\ Forall (fun e => 1 <= e_sender e <= max_slot s) (all s).
Proof.
  intros Hsort H Hsize. unfold locations_from_py in H. inv_ok.
  destruct a0 as [[es max] n]. inv_ok. unfold dict_ in Hok. apply ok_or_ok in Hok.
  specialize (Hsize _ Hok). destruct (Hsort es) as [Hp Hs].
  assert (Hes : 0 <= max < 2 ^ 32 /\ Forall (fun e => 1 <= e_sender e <= max) es /\
                Z.of_nat (length es) < 2 ^ 32).
  { destruct (slots_from_py_ok _ _ _ _ _ _ _ _ Hok0 ltac:(lia) ltac:(constructor))
      as [(H1 & H2 & H3 & _)|(-> & -> & -> & ->)].
    - split_and!; [lia|lia|done|]. rewrite H3. cbn. lia.
    - split_and!; [lia|lia|constructor|cbn; lia]. }
  destruct Hes as (Hmax & Hf & Hlen).
  destruct (from_entries_ok sort es max Hp Hs) as (s & Hfe & Hwf & Hall & Hm & _); [|lia|done|].
  { eapply Forall_impl; [exact Hf|cbn; lia]. }
  rewrite Hfe in H. cbn in H. eexists. split; [by rewrite <- H|].
  unfold store_wf, all, max_slot in *. cbn. split; [exact Hwf|].
  rewrite Hall, Hm, Hp. exact Hf.
Qed.

(** Whenever decoding a pickled seed succeeds it yields a seed (building
    the location table never panics) whose table satisfies the lookup
    invariant with every location owned by a real slot, whose start inventory
    is within the limit, and whose per-slot client floors respect the
    generator's. *)
Theorem from_py_establishes (sort : list LocationEntry -> list LocationEntry) (v : PyObj) r :
  sorts sort -> Z.of_nat (table_size v) < 2 ^ 32 ->
  from_py sort v = Ok r -> exists d, r = Some d /\ seed_wf d.
Proof.
  intros Hsort Hsize H. unfold from_py in H. inv_ok.
  destruct (MAX_PRECOLLECTED_ITEMS <? _) eqn:Hmax; [discriminate|]. inv_ok. breflect.
  destruct (locations_from_py_ok sort a12 _ a13 Hsort Hok13) as (s & -> & Hwf & Hall).
  { intros d Hd. unfold table_size, at_ in *. apply ok_or_ok in Hok12. rewrite Hok12 in Hsize.
    cbn in Hsize. rewrite Hd in Hsize. exact Hsize. }
  cbn in H. eexists. split; [by rewrite <- H|]. unfold seed_wf, min_client_version. cbn.
  split_and!; [done|done|done|]. intros slot. destruct (a7 !! slot) as [w|] eqn:E; cbn.
  - by eapply clients_from_py_floor.
  - apply version_ltb_irrefl.
Qed.

Lemma first_problem_none {A} (f : A -> option TableProblem) l :
  first_problem f l = None <-> Forall (fun x => f x = None) l.
Proof.
  unfold first_problem. induction l as [|x l IH]; [split; [constructor|done]|].
  rewrite Forall_cons, <- IH. cbn. destruct (f x); cbn; split; [done|by intros []|done|by intros []].
Qed.

(** Loading accepts exactly the seeds whose server requirement is met,
    whose table is valid, whose every connectable name names an existing slot
    of team 0, and whose item-link members all exist, whatever order the name
    map is walked in. *)
Theorem multidata_validate_spec (d : MultiData) (v : Version) :
  multidata_validate d v = Ok tt <->
  version_ltb v (minimum_server_version d) = false /\
  Locations.validate (locations d) = Ok tt /\
  (forall name team slot, connect_names d !! name = Some (team, slot) ->
     is_Some (slot_info d !! slot) /\ team = ONLY_TEAM) /\
  (forall slot info m, slot_info d !! slot = Some info -> m ∈ group_members info ->
     is_Some (slot_info d !! m)).
Proof.
  unfold multidata_validate. destruct (version_ltb v _); [split; [done|by intros []]|].
  destruct (Locations.validate (locations d)) as [[]|e]; [|split; [done|by intros (_ & ? & _)]].
  assert (Hn : first_problem (bad_name d) (map_to_list (connect_names d)) = None <->
    forall name team slot, connect_names d !! name = Some (team, slot) ->
      is_Some (slot_info d !! slot) /\ team = ONLY_TEAM).
  { rewrite first_problem_none, Forall_forall. split.
    - intros H name team slot Hl. apply elem_of_map_to_list in Hl. specialize (H _ Hl). cbn in H.
      destruct (slot_info d !! slot); [|done]. destruct (Z.eqb_spec team ONLY_TEAM); [eauto|done].
    - intros H [name [team slot]] Hl. apply elem_of_map_to_list in Hl.
      destruct (H _ _ _ Hl) as [[x Hx] ->]. cbn. by rewrite Hx. }
  assert (Hm : first_problem (bad_members d) (btree_items (slot_info d)) = None <->
    forall slot info m, slot_info d !! slot = Some info -> m ∈ group_members info ->
      is_Some (slot_info d !! m)).
  { rewrite first_problem_none, Forall_forall. split.
    - intros H slot info m Hl Hin. apply elem_of_btree_items in Hl. specialize (H _ Hl).
      cbn in H. destruct (List.find _ _) eqn:E; [done|].
      apply list_elem_of_In in Hin. pose proof (List.find_none _ _ E m Hin) as Hf.
      cbn in Hf. apply bool_decide_eq_false in Hf. by apply not_eq_None_Some.
    - intros H [slot info] Hl. apply elem_of_btree_items in Hl. cbn.
      destruct (List.find _ _) as [m|] eqn:E; [|done]. apply List.find_some in E as [Hin Hb].
      apply bool_decide_eq_true in Hb. apply list_elem_of_In in Hin.
      destruct (H _ _ _ Hl Hin). congruence. }
  rewrite <- Hn, <- Hm.
  destruct (first_problem (bad_name d) _); [split; [done|by intros (_ & _ & ? & _)]|].
  destruct (first_problem (bad_members d) _); [split; [done|by intros (_ & _ & _ & ?)]|].
  split; [intros _; split_and!; done|done].
Qed.

(** ** Witnesses *)

Definition demo_py : PyObj :=
  let inst c l := PInstance (mkClassId "NetUtils" c) l in
  let ver a b c := PTuple [PInt a; PInt b; PInt c] in
  PDict
    [(PStr "seed_name", PStr "seed");
     (PStr "version", ver 0 6 1);
     (PStr "minimum_versions", PDict [(PStr "server", ver 0 5 0);
        (PStr "clients", PDict [(PInt 1, ver 0 0 9)])]);
     (PStr "slot_info", PDict [(PInt 1, inst "NetworkSlot"
        [PStr "Alice"; PStr "Game"; inst "SlotType" [PInt 1]; PTuple []])]);
     (PStr "connect_names", PDict [(PStr "Alice", PTuple [PInt 0; PInt 1])]);
     (PStr "locations", PDict [(PInt 1, PDict
        [(PInt 20, PTuple [PInt 7; PInt 1; PInt 0]); (PInt 10, PTuple [PInt 8; PInt 1; PInt 1])])]);
     (PStr "precollected_items", PDict [(PInt 1, PList [PInt 5; PInt 6])])]%string.

Definition demo_parsed : result Error (option MultiData) := from_py (merge_sort key_le) demo_py.

Lemma demo_parsed_ok : exists r, demo_parsed = Ok r.
Proof. assert (H : is_ok demo_parsed = true) by (vm_compute; reflexivity).
  destruct demo_parsed as [r|]; [by eexists|done]. Qed.

Lemma from_py_establishes_witness : exists d, demo_parsed = Ok (Some d) /\ seed_wf d.
Proof.
  destruct demo_parsed_ok as [r Hr].
  destruct (from_py_establishes (merge_sort key_le) demo_py r) as (d & -> & Hd).
  - exact merge_sort_ok.
  - reflexivity.
  - exact Hr.
  - exists d. split; [exact Hr|exact Hd].
Defined.
