(* ===== verification/Conn.v ===== *)
(** * [crates/pahoa-room/src/conn.rs]: per-connection state

    Tags are a list of strings; [tag_set] is the finite set of them.  Strings
    are byte strings: [python_str_repr] touches only ASCII characters, so
    walking bytes and walking [char]s give the same output. *)

From Stdlib Require Import ZArith Lia Bool Ascii.
From stdpp Require Import base tactics list sets gmap strings.
From S2P Require Import Prelude PyObj Types.

Definition ConnId : Type := Z.

Definition NON_GAME_TAGS : list string := ["HintGame"; "Tracker"; "TextOnly"]%string.

Definition has_tag (tags : list string) (t : string) : bool := existsb (str_eqb t) tags.

(** The verb table, in its own order. *)
Definition NON_GAME_VERBS : list (string * string) :=
  [("HintGame", "hinting"); ("Tracker", "tracking"); ("TextOnly", "viewing")]%string.

Definition non_game_verb (tags : list string) : option string :=
  snd <$> List.find (fun e => has_tag tags e.1) NON_GAME_VERBS.

Definition tag_set (tags : list string) : gset string := list_to_set tags.

(** ** Python's [repr] *)

Definition chr (n : nat) : ascii := ascii_of_nat n.
Definition squote : ascii := chr 39.
Definition dquote : ascii := chr 34.
Definition backslash : ascii := chr 92.

Fixpoint has_char (c : ascii) (s : string) : bool :=
  match s with
  | EmptyString => false
  | String d s => Ascii.eqb c d || has_char c s
  end.

(** What one character becomes between the quotes. *)
Definition repr_char (quote c : ascii) : string :=
  if Ascii.eqb c backslash then String backslash (String backslash "")
  else if Ascii.eqb c (chr 10) then String backslash "n"
  else if Ascii.eqb c (chr 13) then String backslash "r"
  else if Ascii.eqb c (chr 9) then String backslash "t"
  else if Ascii.eqb c quote then String backslash (String c "")
  else
    let n := Z.of_N (N_of_ascii c) in
    if (n <? 32) || (n =? 127)
    then String backslash (String "x" (hex 2 n ""))
    else String c "".

Fixpoint repr_chars (quote : ascii) (s : string) : string :=
  match s with
  | EmptyString => ""
  | String c s => String.append (repr_char quote c) (repr_chars quote s)
  end.

Definition repr_quote (s : string) : ascii :=
  if has_char squote s && negb (has_char dquote s) then dquote else squote.

Definition python_str_repr (s : string) : string :=
  let quote := repr_quote s in
  String quote (String.append (repr_chars quote s) (String quote "")).

Fixpoint repr_items (first : bool) (items : list string) : string :=
  match items with
  | [] => ""
  | item :: items =>
      String.append (if first then "" else ", ")
        (String.append (python_str_repr item) (repr_items false items))
  end.

Definition python_list_repr (items : list string) : string :=
  String.append "[" (String.append (repr_items true items) "]").

(** ** Connections *)

Inductive FeedPolicy : Type := Full | Scoped.

#[export] Instance FeedPolicy_eq_dec : EqDecision FeedPolicy.
Proof. solve_decision. Defined.

Record Client : Type := mkClient {
  c_id : ConnId;
  c_auth : bool;
  c_team : Z;
  c_slot : Z;
  c_version : Version;
  c_tags : list string;
  c_items_handling : ItemsHandling.t;
  c_send_index : nat;
  c_no_locations : bool;
  c_no_text : bool;
  c_feed : FeedPolicy
}.

Definition client_with_feed (id : ConnId) (feed : FeedPolicy) : Client :=
  mkClient id false 0 0 (mkVersion 0 0 0) [] (ItemsHandling.mk 0) 0 false false feed.

Definition client_new (id : ConnId) : Client := client_with_feed id Full.

Definition scoped (c : Client) : bool := bool_decide (c_feed c = Scoped).

Definition any_non_game (tags : list string) : bool := existsb (has_tag NON_GAME_TAGS) tags.

Definition apply_tags (c : Client) (tags : list string) : Client :=
  mkClient (c_id c) (c_auth c) (c_team c) (c_slot c) (c_version c) tags
    (c_items_handling c) (c_send_index c)
    (any_non_game tags)
    (has_tag tags "NoText" ||
     (has_tag tags "PopTracker" && version_ltb (c_version c) (mkVersion 0 5 1)))
    (c_feed c).

Definition ignores_game (game : option string) (tags : list string) : bool :=
  let no_game := match game with None => true | Some g => str_eqb g "" end in
  no_game && any_non_game tags.

(** ** [repr] can be read back *)

Definition hex_value (c : ascii) : option N :=
  let n := N_of_ascii c in
  if ((48 <=? n) && (n <=? 57))%N then Some (n - 48)%N
  else if ((97 <=? n) && (n <=? 102))%N then Some (n - 87)%N
  else None.

(** Python's reading of the escapes, up to the closing quote: the content and
    what follows it. *)
Fixpoint unrepr (fuel : nat) (quote : ascii) (s : string) : option (string * string) :=
  match fuel with
  | O => None
  | S fuel =>
      let push c s := '(t, rest) ← unrepr fuel quote s; Some (String c t, rest) in
      match s with
      | EmptyString => None
      | String c s =>
          if Ascii.eqb c quote then Some (EmptyString, s)
          else if Ascii.eqb c backslash then
            match s with
            | String e s =>
                if Ascii.eqb e "n" then push (chr 10) s
                else if Ascii.eqb e "r" then push (chr 13) s
                else if Ascii.eqb e "t" then push (chr 9) s
                else if Ascii.eqb e "x" then
                  match s with
                  | String h (String l s) =>
                      x ← hex_value h; y ← hex_value l;
                      push (ascii_of_N (16 * x + y)) s
                  | _ => None
                  end
                else push e s
            | EmptyString => None
            end
          else push c s
      end
  end.

Definition read_str (s : string) : option (string * string) :=
  match s with
  | String q s => if Ascii.eqb q squote || Ascii.eqb q dquote
                  then unrepr (S (String.length s)) q s else None
  | EmptyString => None
  end.

Lemma append_cons c a b : String.append (String c a) b = String c (String.append a b).
Proof. done. Qed.

Definition is_quote (q : ascii) : Prop := q = squote \/ q = dquote.

(** Whatever follows, one printed character is read back by one step. *)
Lemma unrepr_char fuel q c rest :
  is_quote q ->
  unrepr (S fuel) q (String.append (repr_char q c) rest)
  = ('(t, rest') ← unrepr fuel q rest; Some (String c t, rest')).
Proof.
  intros [-> | ->]; destruct c as [[] [] [] [] [] [] [] []]; reflexivity.
Qed.

Lemma unrepr_chars q s fuel rest :
  is_quote q -> (String.length s < fuel)%nat ->
  unrepr fuel q (String.append (repr_chars q s) (String q rest)) = Some (s, rest).
Proof.
  intros Hq. revert fuel. induction s as [|c s IH]; intros fuel Hf.
  - destruct fuel; [cbn in Hf; lia|].
    change (unrepr (S fuel) q (String q rest) = Some (EmptyString, rest)).
    cbn [unrepr]. by rewrite Ascii.eqb_refl.
  - destruct fuel; [cbn in Hf; lia|]. cbn [repr_chars]. rewrite <- append_assoc.
    rewrite unrepr_char by done. rewrite IH by (cbn in Hf; lia). done.
Qed.

Lemma length_append a b : String.length (String.append a b) = (String.length a + String.length b)%nat.
Proof. induction a as [|x a IH]; [done|]. exact (f_equal S IH). Qed.

Lemma repr_char_length q c : (1 <= String.length (repr_char q c))%nat.
Proof. unfold repr_char. repeat case_match; cbn; lia. Qed.

Lemma repr_chars_length q s : (String.length s <= String.length (repr_chars q s))%nat.
Proof.
  induction s as [|c s IH]; [done|]. cbn [repr_chars String.length]. rewrite length_append.
  pose proof (repr_char_length q c). lia.
Qed.

Lemma read_repr s rest : read_str (String.append (python_str_repr s) rest) = Some (s, rest).
Proof.
  unfold python_str_repr. rewrite append_cons, <- append_assoc. cbn [read_str].
  assert (Hq : is_quote (repr_quote s)) by (unfold repr_quote, is_quote; case_match; auto).
  assert (He : Ascii.eqb (repr_quote s) squote || Ascii.eqb (repr_quote s) dquote = true).
  { destruct Hq as [-> | ->]; reflexivity. }
  rewrite He, append_cons. apply unrepr_chars; [done|].
  rewrite length_append. pose proof (repr_chars_length (repr_quote s) s). cbn. lia.
Qed.

Lemma length_repr_items first items :
  (length items <= String.length (repr_items first items))%nat.
Proof.
  revert first. induction items as [|i items IH]; intros first; [done|].
  cbn [repr_items length]. rewrite !length_append. specialize (IH false).
  unfold python_str_repr. cbn [String.length]. lia.
Qed.

(** Reading a list back: items separated by a comma and a space. *)
Fixpoint read_items (fuel : nat) (s : string) : option (list string * string) :=
  match fuel with
  | O => None
  | S fuel =>
      '(item, rest) ← read_str s;
      match rest with
      | String "," (String " " rest) =>
          '(items, rest) ← read_items fuel rest; Some (item :: items, rest)
      | _ => Some ([item], rest)
      end
  end%char.

Definition read_list (s : string) : option (list string) :=
  match s with
  | String "[" (String "]" EmptyString) => Some []
  | String "[" rest =>
      '(items, rest) ← read_items (String.length rest) rest;
      if str_eqb rest "]" then Some items else None
  | _ => None
  end%char.

Lemma read_items_repr items fuel :
  items <> [] -> (length items <= fuel)%nat ->
  read_items fuel (String.append (repr_items true items) "]") = Some (items, "]"%string).
Proof.
  revert fuel. induction items as [|i items IH]; intros fuel Hne Hf; [done|].
  destruct fuel as [|fuel]; [cbn in Hf; lia|].
  change (repr_items true (i :: items)) with
    (String.append (python_str_repr i) (repr_items false items)).
  rewrite <- append_assoc. cbn [read_items]. rewrite read_repr. cbn [mbind option_bind].
  destruct items as [|j items]; [reflexivity|].
  specialize (IH fuel ltac:(done) ltac:(cbn in *; lia)).
  change (String.append (repr_items false (j :: items)) "]") with
    (String "," (String " " (String.append (repr_items true (j :: items)) "]"))).
  cbn [mbind option_bind] in *. by rewrite IH.
Qed.

(** The Python list the join and leave announcements print can be read
    back: reading the rendered text by Python's escape rules returns the tags
    themselves, so distinct tag lists never print alike. *)
Theorem python_list_repr_round_trip (tags : list string) :
  read_list (python_list_repr tags) = Some tags.
Proof.
  unfold python_list_repr. destruct tags as [|t tags]; [reflexivity|].
  change (String.append "[" ?x) with (String "[" x).
  pose proof (read_items_repr (t :: tags)
    (String.length (String.append (repr_items true (t :: tags)) "]")) ltac:(done)) as H.
  assert (Hn : exists q r, (q = squote \/ q = dquote) /\
    String.append (repr_items true (t :: tags)) "]" = String q r).
  { change (repr_items true (t :: tags)) with
      (String.append (python_str_repr t) (repr_items false tags)).
    unfold python_str_repr. rewrite !append_cons. exists (repr_quote t).
    eexists. split; [|reflexivity]. unfold repr_quote. case_match; auto. }
  destruct Hn as (q & r & Hq & Heq). rewrite Heq in *.
  assert (Hrl : read_list (String "[" (String q r)) =
    ('(items, rest) ← read_items (String.length (String q r)) (String q r);
     if str_eqb rest "]" then Some items else None)).
  { destruct Hq as [-> | ->]; reflexivity. }
  rewrite Hrl, H; [done|]. rewrite <- Heq, length_append.
  pose proof (length_repr_items true (t :: tags)). lia.
Qed.

(** What the tag-derived flags of a connection mean, after any tags are
    applied: a client is barred from checking exactly when it carries a
    non-game tag, its text is suppressed exactly for [NoText] or an old
    [PopTracker], its feed policy and identity are untouched, and skipping the
    game check requires both an absent game and a non-game tag. *)
Theorem apply_tags_flags (c : Client) (tags : list string) (game : option string) :
  let c' := apply_tags c tags in
  (c_no_locations c' = true <-> exists t, t ∈ tags /\ t ∈ NON_GAME_TAGS) /\
  (c_no_text c' = true <-> "NoText"%string ∈ tags \/
     ("PopTracker"%string ∈ tags /\ version_ltb (c_version c) (mkVersion 0 5 1) = true)) /\
  c_feed c' = c_feed c /\ c_auth c' = c_auth c /\ c_tags c' = tags /\
  (ignores_game game (c_tags c') = true <->
     (game = None \/ game = Some ""%string) /\ c_no_locations c' = true) /\
  (non_game_verb (c_tags c') = None <-> c_no_locations c' = false).
Proof.
  assert (Hh : forall ts t, has_tag ts t = true <-> t ∈ ts).
  { intros ts t. unfold has_tag. rewrite existsb_exists. unfold str_eqb.
    setoid_rewrite bool_decide_eq_true. setoid_rewrite <- list_elem_of_In. naive_solver. }
  assert (Hn : any_non_game tags = true <-> exists t, t ∈ tags /\ t ∈ NON_GAME_TAGS).
  { unfold any_non_game. rewrite existsb_exists. setoid_rewrite <- list_elem_of_In.
    setoid_rewrite Hh. naive_solver. }
  cbn [apply_tags c_no_locations c_no_text c_feed c_auth c_tags].
  split_and!; [exact Hn| |done..| |].
  - rewrite orb_true_iff, andb_true_iff, !Hh. done.
  - unfold ignores_game. rewrite andb_true_iff. destruct game as [g|]; [|naive_solver].
    unfold str_eqb. rewrite bool_decide_eq_true. naive_solver.
  - unfold non_game_verb, any_non_game, NON_GAME_VERBS in *. cbn [List.find fst].
    assert (Hv : forall v, has_tag tags v = true -> v ∈ NON_GAME_TAGS ->
                  existsb (has_tag NON_GAME_TAGS) tags = true).
    { intros v Hv Hin. apply Hn. exists v. by rewrite <- (Hh tags). }
    destruct (has_tag tags "HintGame") eqn:E1; cbn [fmap option_fmap option_map].
    { rewrite (Hv "HintGame"%string E1 ltac:(set_solver)). split; discriminate. }
    destruct (has_tag tags "Tracker") eqn:E2; cbn [fmap option_fmap option_map].
    { rewrite (Hv "Tracker"%string E2 ltac:(set_solver)). split; discriminate. }
    destruct (has_tag tags "TextOnly") eqn:E3; cbn [fmap option_fmap option_map].
    { rewrite (Hv "TextOnly"%string E3 ltac:(set_solver)). split; discriminate. }
    split; [intros _|done]. apply not_true_iff_false. intros (t & Ht & Hng)%Hn.
    apply Hh in Ht. unfold NON_GAME_TAGS in Hng.
    repeat (apply elem_of_cons in Hng as [-> | Hng]; [congruence|]).
    by apply not_elem_of_nil in Hng.
Qed.
