(* ===== verification/Hints.v ===== *)
(** * [crates/pahoa-room/src/hints.rs]: hint storage, economy and ordering

    A store is a finite map from [(team, slot)] to the slot's hints in
    insertion order.  The closure that asks whether a location is checked is an
    argument, as in the source.  Sharing through [Arc] is invisible to values
    and is left out. *)

From Stdlib Require Import ZArith Lia Bool.
From stdpp Require Import base tactics list sets gmap strings sorting.
From S2P Require Import Prelude PyRandom Locations Types Multidata.

Definition SlotKey : Type := Z * Z.

Record HintStore : Type := mkHintStore { by_slot : gmap SlotKey (list Hint) }.

Definition empty_store : HintStore := mkHintStore ∅.

(** [get], and [shared], which returns the same list. *)
Definition hints_get (s : HintStore) (key : SlotKey) : list Hint := default [] (by_slot s !! key).

Definition hints_find (s : HintStore) (key : SlotKey) (finder location : Z) : option Hint :=
  List.find (fun h => (finding_player h =? finder) && (h_location h =? location))
    (hints_get s key).

(** [*existing = hint] at the first hint of this identity. *)
Fixpoint replace_first (hint : Hint) (l : list Hint) : option (list Hint) :=
  match l with
  | [] => None
  | h :: l => if decide (identity h = identity hint) then Some (hint :: l)
              else cons h <$> replace_first hint l
  end.

Definition upsert (s : HintStore) (key : SlotKey) (hint : Hint) : HintStore * bool :=
  let list := hints_get s key in
  match replace_first hint list with
  | Some l => (mkHintStore (<[key := l]> (by_slot s)), false)
  | None => (mkHintStore (<[key := list ++ [hint]]> (by_slot s)), true)
  end.

Definition hints_contains (s : HintStore) (key : SlotKey) (i : HintIdentity) : bool :=
  existsb (fun h => bool_decide (identity h = i)) (hints_get s key).

Definition with_status (h : Hint) (f : bool) (st : HintStatus.t) : Hint :=
  mkHint (receiving_player h) (finding_player h) (h_location h) (h_item h) f (entrance h)
    (item_flags h) st.

(** The filter of [recheck]. *)
Definition touched (finder : SlotKey) (checked : SlotKey -> Z -> bool) (h : Hint) : bool :=
  (finding_player h =? finder.2) &&
  negb (found h && bool_decide (status h = HintStatus.Found)) &&
  checked (finder.1, finding_player h) (h_location h).

Definition recheck_list (finder : SlotKey) (checked : SlotKey -> Z -> bool) (l : list Hint)
    : list Hint :=
  (fun h => if touched finder checked h then with_status h true HintStatus.Found else h) <$> l.

(** The order of [(u32, u32)], for [changed.sort_unstable()]. *)
Definition slotkey_le (a b : SlotKey) : Prop := a.1 < b.1 \/ (a.1 = b.1 /\ a.2 <= b.2).

#[export] Instance slotkey_le_dec : RelDecision slotkey_le.
Proof. intros a b. unfold slotkey_le. apply _. Defined.

#[export] Instance slotkey_le_total : Total slotkey_le.
Proof.
  intros a b. unfold slotkey_le.
  destruct (Z.lt_trichotomy a.1 b.1) as [|[|]], (Z.le_ge_cases a.2 b.2); lia.
Qed.

#[export] Instance slotkey_le_trans : Transitive slotkey_le.
Proof. intros a b c. unfold slotkey_le. lia. Qed.

Definition recheck (s : HintStore) (finder : SlotKey) (checked : SlotKey -> Z -> bool)
    : HintStore * list SlotKey :=
  let moves key hints := (key.1 =? finder.1) && existsb (touched finder checked) hints in
  let changed := filter (fun e => moves e.1 e.2 = true) (map_to_list (by_slot s)) in
  (mkHintStore (map_imap (fun key hints =>
      Some (if moves key hints then recheck_list finder checked hints else hints)) (by_slot s)),
   merge_sort slotkey_le changed.*1).

Fixpoint position (p : Hint -> bool) (l : list Hint) : option nat :=
  match l with
  | [] => None
  | h :: l => if p h then Some 0%nat else S <$> position p l
  end.

Definition set_status (s : HintStore) (key : SlotKey) (finder location : Z) (st : HintStatus.t)
    : HintStore * option Hint :=
  let r :=
    list ← by_slot s !! key;
    index ← position (fun h => (finding_player h =? finder) && (h_location h =? location)) list;
    h ← list !! index;
    let st := if found h then HintStatus.Found else st in
    if decide (status h = st) then None
    else
      let hint := with_status h (found h) st in
      Some (mkHintStore (<[key := <[index := hint]> list]> (by_slot s)), hint) in
  match r with
  | Some (s, hint) => (s, Some hint)
  | None => (s, None)
  end.

Definition replace (s : HintStore) (key : SlotKey) (hints : list Hint) : HintStore :=
  mkHintStore (<[key := hints]> (by_slot s)).

(** ** Collecting *)

Definition mem (x : Z) (l : list Z) : bool := existsb (Z.eqb x) l.

Definition hintable_slots (data : MultiData) (slot : Z) : list Z :=
  let groups :=
    fst <$> filter (fun e : Z * NetworkSlot => mem slot (group_members e.2) = true)
              (btree_items (slot_info data)) in
  dedup (merge_sort Z.le (slot :: groups)).

Definition automatic_status (f : bool) (flags : Z) : HintStatus.t :=
  if f then HintStatus.Found
  else if is_trap flags then HintStatus.Avoid
  else HintStatus.Priority.

Definition build_hint (data : MultiData) (s : HintStore) (key : SlotKey) (e : LocationEntry)
    (st : option HintStatus.t) (checked : Z -> Z -> bool) : Hint :=
  match hints_find s key (e_sender e) (e_location e) with
  | Some existing => existing
  | None =>
      let f := checked (e_sender e) (e_location e) in
      let entrance :=
        default ""%string (m ← er_hint_data data !! e_sender e; m !! e_location e) in
      let st := if f then HintStatus.Found
                else default (automatic_status f (e_flags e)) st in
      mkHint (e_receiver e) (e_sender e) (e_location e) (e_item e) f entrance (e_flags e) st
  end.

Definition collect_for_item (data : MultiData) (s : HintStore) (key : SlotKey) (slot item : Z)
    (st : option HintStatus.t) (checked : Z -> Z -> bool) : list Hint :=
  let wanted := hintable_slots data slot in
  (fun e => build_hint data s key e st checked) <$>
    filter (fun e => e_item e = item /\ mem (e_receiver e) wanted = true) (all (locations data)).

Definition collect_for_location (data : MultiData) (s : HintStore) (key : SlotKey)
    (slot location : Z) (st : option HintStatus.t) (checked : Z -> Z -> bool) : list Hint :=
  match get (locations data) slot location with
  | Some e => [build_hint data s key e st checked]
  | None => []
  end.

(** ** Choosing *)

(** [u8::from(receiving != finding)]. *)
Definition nonlocal (h : Hint) : Z := if receiving_player h =? finding_player h then 0 else 1.

(** [for _ in 0..budget] popping from the back; the list is reversed so that
    its head is the back. *)
Fixpoint pop_many (budget : nat) (back : list Hint) : list Hint * list Hint :=
  match budget, back with
  | S budget, h :: back => let '(granted, rest) := pop_many budget back in (h :: granted, rest)
  | _, _ => ([], back)
  end.

Definition choose (fuel : nat) (rng : PyRandom) (candidates : list Hint)
    (sphere_of : Z -> Z -> Z) (budget : nat) : option (list Hint * list Hint * PyRandom) :=
  '(candidates, rng) ← shuffle fuel candidates rng;
  let sphere h := sphere_of (finding_player h) (h_location h) in
  let candidates := stable_sort (fun a b => nonlocal a <=? nonlocal b) candidates in
  let candidates := stable_sort (fun a b => sphere b <=? sphere a) candidates in
  let '(granted, rest) := pop_many budget (rev candidates) in
  Some (granted, rev rest, rng).

(** The products and the difference are [i64]; they wrap in a release build. *)
Definition points (checks check_points hint_cost hints_used : Z) : Z :=
  wrap_i64 (wrap_i64 (check_points * checks) - wrap_i64 (hint_cost * hints_used)).

Definition UNLIMITED : nat := 1000.

(** [/] truncates. *)
Definition budget (cost points_available : Z) (any_unfound : bool) : nat :=
  if negb any_unfound || (cost =? 0) then UNLIMITED
  else if 0 <? Z.quot points_available cost then 1
  else 0.

(** ** Storage *)

Lemma replace_first_spec hint l :
  match replace_first hint l with
  | Some l' => identity hint ∈ (identity <$> l) /\ identity <$> l' = (identity <$> l : list _) /\
               (NoDup (identity <$> l) ->
                forall h, h ∈ l' <-> h = hint \/ (h ∈ l /\ identity h <> identity hint))
  | None => identity hint ∉ (identity <$> l)
  end.
Proof.
  induction l as [|a l IH]; [cbn; set_solver|]. cbn [replace_first].
  destruct (decide (identity a = identity hint)) as [Ha|Ha].
  - split_and!.
    + rewrite fmap_cons, Ha. left.
    + by rewrite !fmap_cons, Ha.
    + rewrite fmap_cons, NoDup_cons. intros [Hn _] h. rewrite !elem_of_cons. split.
      * intros [->|Hh]; [by left|right]. split; [by right|]. intros He. apply Hn.
        rewrite Ha, <- He. by apply list_elem_of_fmap_2.
      * intros [->|[[->|Hh] Hne]]; [by left|congruence|by right].
  - destruct (replace_first hint l) as [l'|]; cbn [fmap option_fmap option_map].
    + destruct IH as (Hin & Hids & Hel). split_and!.
      * rewrite fmap_cons. by right.
      * by rewrite !fmap_cons, Hids.
      * rewrite fmap_cons, NoDup_cons. intros [_ Hn] h. rewrite !elem_of_cons, (Hel Hn).
        split; [intros [->|[->|[]]]; auto|]. intros [->|[[->|] ?]]; auto.
    + rewrite fmap_cons, not_elem_of_cons. split; [congruence|done].
Qed.

Lemma hints_get_insert m k l k' :
  hints_get (mkHintStore (<[k := l]> m)) k' = if decide (k = k') then l else hints_get (mkHintStore m) k'.
Proof.
  unfold hints_get. cbn. case_decide as H; [subst; by rewrite lookup_insert_eq|].
  by rewrite lookup_insert_ne.
Qed.

(** One hint per identity, in every slot's list. *)
Definition unique_identities (s : HintStore) : Prop :=
  forall key, NoDup (identity <$> hints_get s key).

(** A found hint has no other status. *)
Definition found_consistent (s : HintStore) : Prop :=
  forall key h, h ∈ hints_get s key -> found h = true -> status h = HintStatus.Found.

Lemma upsert_ok (s : HintStore) (key : SlotKey) (hint : Hint) :
  unique_identities s ->
  let '(s', fresh) := upsert s key hint in
  unique_identities s' /\
  (forall key', key' <> key -> hints_get s' key' = hints_get s key') /\
  (forall h, h ∈ hints_get s' key <->
     h = hint \/ (h ∈ hints_get s key /\ identity h <> identity hint)) /\
  fresh = negb (hints_contains s key (identity hint)) /\
  (fresh = true -> hints_get s' key = hints_get s key ++ [hint]) /\
  (fresh = false -> identity <$> hints_get s' key = (identity <$> hints_get s key : list _)).
Proof.
  intros Hu. unfold upsert. pose proof (replace_first_spec hint (hints_get s key)) as H.
  assert (Hc : hints_contains s key (identity hint) = true <->
    identity hint ∈ (identity <$> hints_get s key)).
  { unfold hints_contains. rewrite existsb_exists, list_elem_of_fmap.
    setoid_rewrite bool_decide_eq_true. setoid_rewrite <- list_elem_of_In. split; intros (x & ? & ?); exists x; split; done. }
  destruct (replace_first hint (hints_get s key)) as [l'|].
  - destruct H as (Hin & Hids & Hel). rewrite (hints_get_insert _ _ _ key), decide_True by done.
    split_and!.
    + intros k. rewrite hints_get_insert. case_decide as Hk; [|apply Hu].
      subst k. rewrite Hids. apply Hu.
    + intros k Hk. rewrite hints_get_insert, decide_False by congruence. by destruct s.
    + apply Hel, Hu.
    + by rewrite (proj2 Hc Hin).
    + done.
    + done.
  - rewrite (hints_get_insert _ _ _ key), decide_True by done. split_and!.
    + intros k. rewrite hints_get_insert. case_decide as Hk; [|apply Hu].
      subst k. rewrite fmap_app. apply NoDup_app. split_and!; [apply Hu| |apply NoDup_singleton].
      intros i Hi Hs. cbn in Hs. apply list_elem_of_singleton in Hs. by subst i.
    + intros k Hk. rewrite hints_get_insert, decide_False by congruence. by destruct s.
    + intros h. rewrite elem_of_app, list_elem_of_singleton. split; [|tauto].
      intros [Hh|Hh]; [right|by left]. split; [done|]. intros He. apply H. rewrite <- He.
      by apply list_elem_of_fmap_2.
    + destruct (hints_contains s key (identity hint)) eqn:E; [|done].
      exfalso. by apply H, Hc.
    + done.
    + done.
Qed.

(** Inserting a hint into a store that keeps one hint per identity keeps
    it so, leaves every other slot alone, replaces exactly the hint of that
    identity when there is one and appends otherwise, and reports which. *)
Theorem upsert_spec (s : HintStore) (key : SlotKey) (hint : Hint) :
  unique_identities s ->
  let '(s', fresh) := upsert s key hint in
  unique_identities s' /\
  (forall key', key' <> key -> hints_get s' key' = hints_get s key') /\
  (forall h, h ∈ hints_get s' key <->
     h = hint \/ (h ∈ hints_get s key /\ identity h <> identity hint)) /\
  fresh = negb (hints_contains s key (identity hint)) /\
  (fresh = true -> hints_get s' key = hints_get s key ++ [hint]) /\
  (fresh = false -> identity <$> hints_get s' key = (identity <$> hints_get s key : list _)).
Proof. exact (upsert_ok s key hint). Qed.

Lemma recheck_list_id finder checked l :
  existsb (touched finder checked) l = false -> recheck_list finder checked l = l.
Proof.
  induction l as [|h l IH]; [done|]. cbn [existsb]. intros H. apply orb_false_iff in H as [Hh Hl].
  unfold recheck_list. rewrite fmap_cons, Hh. f_equal. by apply IH.
Qed.

Lemma recheck_get s finder checked key :
  hints_get (recheck s finder checked).1 key =
  if decide (key.1 = finder.1) then recheck_list finder checked (hints_get s key)
  else hints_get s key.
Proof.
  unfold recheck, hints_get. cbn. rewrite map_lookup_imap.
  destruct (by_slot s !! key) as [l|]; cbn; [|by case_decide].
  destruct (Z.eqb_spec key.1 finder.1); cbn.
  - rewrite decide_True by done. destruct (existsb _ l) eqn:E; [done|].
    symmetry. by apply recheck_list_id.
  - by rewrite decide_False.
Qed.

Lemma found_with_status h f st : found (with_status h f st) = f.
Proof. done. Qed.

Lemma mark_spec finder checked h :
  let h' := if touched finder checked h then with_status h true HintStatus.Found else h in
  identity h' = identity h /\ (found h = true -> found h' = true) /\
  (found h' = true <-> found h = true \/
     (finding_player h = finder.2 /\ checked (finder.1, finding_player h) (h_location h) = true)).
Proof.
  cbn zeta. destruct (touched finder checked h) eqn:Ht; unfold touched in Ht.
  - apply andb_true_iff in Ht as [Ht Hc]. apply andb_true_iff in Ht as [Hf _].
    apply Z.eqb_eq in Hf. split_and!; [done|done|]. cbn. tauto.
  - split_and!; [done|done|]. split; [tauto|]. intros [|[Hf Hc]]; [done|].
    rewrite Hf, Z.eqb_refl in Ht. rewrite Hf in Hc. rewrite Hc in Ht.
    rewrite andb_true_r in Ht. cbn in Ht. apply negb_false_iff, andb_true_iff in Ht. tauto.
Qed.

Lemma recheck_ok (s : HintStore) (finder : SlotKey) (checked : SlotKey -> Z -> bool) :
  let '(s', changed) := recheck s finder checked in
  (forall key, Forall2 (fun h h' => identity h' = identity h /\
      (found h = true -> found h' = true) /\
      (found h' = true <-> found h = true \/
         (key.1 = finder.1 /\ finding_player h = finder.2 /\
          checked (finder.1, finding_player h) (h_location h) = true)))
     (hints_get s key) (hints_get s' key)) /\
  (forall key, key ∈ changed <-> hints_get s' key <> hints_get s key) /\
  StronglySorted slotkey_le changed /\
  (found_consistent s -> found_consistent s') /\
  (recheck s' finder checked).2 = [].
Proof.
  pose proof (recheck_get s finder checked) as Hget.
  destruct (recheck s finder checked) as [s' changed] eqn:Hr. cbn [fst] in Hget.
  assert (Htouch : forall l, existsb (touched finder checked) l = true <->
                     recheck_list finder checked l <> l).
  { intros l. split.
    - intros H Heq. apply existsb_exists in H as (h & Hin & Ht). apply list_elem_of_In in Hin.
      apply list_elem_of_lookup in Hin as [i Hi].
      assert (Hi' : recheck_list finder checked l !! i = Some (with_status h true HintStatus.Found)).
      { unfold recheck_list. rewrite list_lookup_fmap, Hi. cbn. by rewrite Ht. }
      rewrite Heq, Hi in Hi'. injection Hi' as Hh. rewrite Hh in Ht.
      unfold touched in Ht. cbn in Ht. by rewrite andb_false_r in Ht.
    - intros Hne. apply not_false_iff_true. intros Hf. by apply Hne, recheck_list_id. }
  assert (Hnone : forall l, existsb (touched finder checked) (recheck_list finder checked l) = false).
  { induction l as [|h l IH]; [done|]. unfold recheck_list in *. rewrite fmap_cons. cbn [existsb].
    rewrite IH, orb_false_r. destruct (touched finder checked h) eqn:E; [|exact E].
    unfold touched. cbn. apply andb_false_iff. left. apply andb_false_r. }
  split_and!.
  - intros key. rewrite Hget. case_decide as Hk.
    + unfold recheck_list. apply Forall2_fmap_r, Forall_Forall2_diag, Forall_forall. intros h _.
      destruct (mark_spec finder checked h) as (H1 & H2 & H3). unfold compose. rewrite H3.
      split; [exact H1|split; [intros Hf; apply H3; auto|tauto]].
    + apply Forall_Forall2_diag, Forall_forall. intros h _.
      split; [done|split; [done|tauto]].
  - intros key. rewrite Hget. unfold recheck in Hr. injection Hr as _ <-.
    rewrite merge_sort_Permutation, list_elem_of_fmap. split.
    + intros ([k l] & -> & Hin). apply list_elem_of_filter in Hin as [Hm Hin].
      apply elem_of_map_to_list in Hin. cbn in Hm. apply andb_true_iff in Hm as [Hk He].
      apply Z.eqb_eq in Hk. cbn. rewrite decide_True by done. unfold hints_get. rewrite Hin. cbn.
      by apply Htouch.
    + intros Hne. case_decide as Hk; [|done]. unfold hints_get in Hne.
      destruct (by_slot s !! key) as [l|] eqn:Hl; [|done]. exists (key, l). split; [done|].
      apply list_elem_of_filter. split; [|by apply elem_of_map_to_list]. cbn in *.
      apply andb_true_iff. split; [by apply Z.eqb_eq|]. by apply Htouch.
  - unfold recheck in Hr. injection Hr as _ <-. apply (StronglySorted_merge_sort slotkey_le).
  - intros Hc key h. rewrite Hget. case_decide as Hk; [|apply Hc].
    unfold recheck_list. rewrite list_elem_of_fmap. intros (h0 & -> & Hh0).
    destruct (touched finder checked h0); [done|]. by apply (Hc key).
  - unfold recheck. cbn [snd]. destruct (filter _ _) as [|[key l] rest] eqn:Hf; [reflexivity|].
    exfalso. assert (Hin : (key, l) ∈ (key, l) :: rest) by left. rewrite <- Hf in Hin.
    apply list_elem_of_filter in Hin as [Hm Hin]. apply elem_of_map_to_list in Hin.
    cbn in Hm. apply andb_true_iff in Hm as [Hk He].
    apply Z.eqb_eq in Hk. pose proof (Hget key) as Hg. rewrite decide_True in Hg by done.
    unfold hints_get in Hg. rewrite Hin in Hg. cbn in Hg. rewrite Hg, Hnone in He. done.
Qed.

(** Rechecking marks found exactly the finding slot's hints whose location
    is now checked, on the finder's team only; it never unmarks one, keeps
    every identity in place, reports exactly the slots whose list changed in
    ascending order, and a second recheck changes nothing. *)
Theorem recheck_spec (s : HintStore) (finder : SlotKey) (checked : SlotKey -> Z -> bool) :
  let '(s', changed) := recheck s finder checked in
  (forall key, Forall2 (fun h h' => identity h' = identity h /\
      (found h = true -> found h' = true) /\
      (found h' = true <-> found h = true \/
         (key.1 = finder.1 /\ finding_player h = finder.2 /\
          checked (finder.1, finding_player h) (h_location h) = true)))
     (hints_get s key) (hints_get s' key)) /\
  (forall key, key ∈ changed <-> hints_get s' key <> hints_get s key) /\
  StronglySorted slotkey_le changed /\
  (found_consistent s -> found_consistent s') /\
  (recheck s' finder checked).2 = [].
Proof. exact (recheck_ok s finder checked). Qed.

Lemma position_spec p l i :
  position p l = Some i -> exists h, l !! i = Some h /\ p h = true.
Proof.
  revert i. induction l as [|h l IH]; intros i; [done|]. cbn. destruct (p h) eqn:E.
  - intros [= <-]. eauto.
  - destruct (position p l) as [j|]; [|done]. intros [= <-]. by apply IH.
Qed.

Lemma set_status_ok (s : HintStore) (key : SlotKey) (finder location : Z) (st : HintStatus.t) :
  let '(s', r) := set_status s key finder location st in
  (r = None -> s' = s) /\
  (forall hint, r = Some hint -> exists l i h,
     by_slot s !! key = Some l /\ l !! i = Some h /\
     finding_player h = finder /\ h_location h = location /\
     hint = with_status h (found h) (if found h then HintStatus.Found else st) /\
     status hint <> status h /\
     s' = mkHintStore (<[key := <[i := hint]> l]> (by_slot s))) /\
  (found_consistent s -> found_consistent s') /\
  (unique_identities s -> unique_identities s').
Proof.
  assert (Hcore : let '(s', r) := set_status s key finder location st in
    (r = None -> s' = s) /\
    (forall hint, r = Some hint -> exists l i h,
       by_slot s !! key = Some l /\ l !! i = Some h /\
       finding_player h = finder /\ h_location h = location /\
       hint = with_status h (found h) (if found h then HintStatus.Found else st) /\
       status hint <> status h /\
       s' = mkHintStore (<[key := <[i := hint]> l]> (by_slot s)))).
  { unfold set_status. destruct (by_slot s !! key) as [l|] eqn:Hl; [|done].
    cbn [mbind option_bind]. destruct (position _ l) as [i|] eqn:Hp; [|done].
    cbn [mbind option_bind]. apply position_spec in Hp as (h & Hi & Hm). rewrite Hi.
    cbn [mbind option_bind]. apply andb_true_iff in Hm as [H1 H2]. breflect.
    case_decide as Hst; [by split|]. split; [done|]. intros hint [= <-].
    exists l, i, h. split_and!; done. }
  destruct (set_status s key finder location st) as [s' [hint|]] eqn:E.
  - destruct Hcore as [Hn Hs]. split; [done|]. split; [exact Hs|].
    destruct (Hs hint eq_refl) as (l & i & h & Hl & Hi & Hf & Hloc & -> & Hst & ->).
    assert (Hg : hints_get s key = l) by (unfold hints_get; by rewrite Hl). split.
    + intros Hc k h' Hh'. rewrite hints_get_insert in Hh'. case_decide; [|by apply (Hc k)].
      subst k. apply list_elem_of_lookup in Hh' as [j Hj].
      destruct (decide (i = j)) as [<-|Hne].
      * rewrite list_lookup_insert_eq in Hj by (by eapply lookup_lt_Some).
        injection Hj as <-. cbn. by intros ->.
      * rewrite list_lookup_insert_ne in Hj by done. apply (Hc key). rewrite Hg.
        by eapply list_elem_of_lookup_2.
    + intros Hu k. rewrite hints_get_insert. case_decide; [|apply Hu]. subst k.
      rewrite list_fmap_insert. cbn. rewrite list_insert_id; [rewrite <- Hg; apply Hu|].
      by rewrite list_lookup_fmap, Hi.
  - destruct Hcore as [Hn Hs]. split; [done|]. split; [done|]. by rewrite Hn.
Qed.

(** Changing a hint's status touches at most one hint, the one of that
    finder and location in that slot's list, changes nothing of it but the
    status, cannot give a found hint any other status, keeps the store
    consistent, and reports the new hint exactly when something changed. *)
Theorem set_status_spec (s : HintStore) (key : SlotKey) (finder location : Z) (st : HintStatus.t) :
  let '(s', r) := set_status s key finder location st in
  (r = None -> s' = s) /\
  (forall hint, r = Some hint -> exists l i h,
     by_slot s !! key = Some l /\ l !! i = Some h /\
     finding_player h = finder /\ h_location h = location /\
     hint = with_status h (found h) (if found h then HintStatus.Found else st) /\
     status hint <> status h /\
     s' = mkHintStore (<[key := <[i := hint]> l]> (by_slot s))) /\
  (found_consistent s -> found_consistent s') /\
  (unique_identities s -> unique_identities s').
Proof. exact (set_status_ok s key finder location st). Qed.

(** ** Choosing *)

Lemma pop_many_spec budget back :
  let '(granted, rest) := pop_many budget back in
  granted ++ rest = back /\ length granted = Nat.min budget (length back).
Proof.
  revert back. induction budget as [|n IH]; intros [|h back]; cbn; [done..|].
  specialize (IH back). destruct (pop_many n back) as [g r]. destruct IH as [<- Hl].
  cbn. split; [done|]. by rewrite Hl.
Qed.

Lemma StronglySorted_rev {A} (R : A -> A -> Prop) l :
  StronglySorted R l -> StronglySorted (fun a b => R b a) (rev l).
Proof.
  induction 1 as [|x l Hs IH Hf]; [constructor|]. cbn. apply StronglySorted_app.
  split_and!; [|exact IH|repeat constructor].
  intros a b Ha Hb. apply list_elem_of_singleton in Hb as ->.
  rewrite Forall_forall in Hf. apply Hf. apply list_elem_of_In, in_rev, list_elem_of_In, Ha.
Qed.

(** The order in which hints are granted. *)
Definition preferred (sphere : Hint -> Z) (a b : Hint) : Prop :=
  sphere a < sphere b \/ (sphere a = sphere b /\ nonlocal b <= nonlocal a).

(** Choosing hints splits the candidates into what is granted and what
    remains without losing or inventing any, grants as many as the budget and
    the candidates allow, grants earliest spheres first and, within a sphere,
    other worlds' placements before local ones, and never leaves behind a
    candidate preferred to a granted one. *)
Theorem choose_spec fuel rng candidates sphere_of n granted remaining rng' :
  rng_wf rng -> Z.of_nat (length candidates) < 2 ^ 64 ->
  choose fuel rng candidates sphere_of n = Some (granted, remaining, rng') ->
  let sphere h := sphere_of (finding_player h) (h_location h) in
  granted ++ remaining ≡ₚ candidates /\
  length granted = Nat.min n (length candidates) /\
  StronglySorted (preferred sphere) (granted ++ rev remaining) /\
  rng_wf rng'.
Proof.
  intros Hwf Hlen H sphere. unfold choose in H.
  destruct (shuffle fuel candidates rng) as [[c r]|] eqn:Hs; [|done].
  assert (Hsh : c ≡ₚ candidates /\ rng_wf r).
  { unfold shuffle in Hs. destruct (length candidates <? 2)%nat eqn:E.
    - by injection Hs as <- <-.
    - apply Nat.ltb_ge in E. eapply shuffle_from_perm; [done| |exact Hs]. lia. }
  destruct Hsh as [Hp Hr]. set (c1 := stable_sort (fun a b => nonlocal a <=? nonlocal b) c) in *.
  set (c2 := stable_sort (fun a b => sphere b <=? sphere a) c1) in *.
  change ((let '(g, rest) := pop_many n (rev c2) in Some (g, rev rest, r))
          = Some (granted, remaining, rng')) in H.
  assert (Hc1 : StronglySorted (fun a b => nonlocal a <= nonlocal b) c1).
  { subst c1. assert (H0 : StronglySorted (fun _ _ : Hint => True) c).
    { clear. induction c; constructor; [done|]. by apply Forall_true. }
    eapply StronglySorted_weaken; [|exact (stable_sort_sorted nonlocal _ _ H0)]. cbn. lia. }
  assert (Hc2 : StronglySorted (fun a b => preferred sphere b a) c2).
  { pose proof (stable_sort_sorted (fun h => - sphere h) _ _ Hc1) as H0.
    assert (Heq : stable_sort (fun a b => - sphere a <=? - sphere b) c1 = c2).
    { subst c2. clear. induction c1 as [|x l IH]; [done|]. cbn [stable_sort foldr].
      fold (stable_sort (fun a b => - sphere a <=? - sphere b) l).
      fold (stable_sort (fun a b => sphere b <=? sphere a) l). rewrite IH.
      generalize (stable_sort (fun a b => sphere b <=? sphere a) l) as m.
      induction m as [|y m IHm]; [done|]. cbn. rewrite IHm.
      destruct (Z.leb_spec (- sphere x) (- sphere y)), (Z.leb_spec (sphere y) (sphere x)); lia || done. }
    cbn beta in H0. rewrite Heq in H0. eapply StronglySorted_weaken; [|exact H0]. unfold preferred. lia. }
  assert (Hperm : c2 ≡ₚ candidates).
  { subst c2 c1. by rewrite !stable_sort_perm. }
  pose proof (pop_many_spec n (rev c2)) as Hpop.
  destruct (pop_many n (rev c2)) as [g rest]. injection H as -> <- <-.
  destruct Hpop as [Hsplit Hl]. split_and!; [|..|exact Hr].
  - rewrite <- Hperm. assert (Hrest : rev rest ≡ₚ rest) by (symmetry; apply Permutation_rev).
    rewrite Hrest, Hsplit. symmetry. apply Permutation_rev.
  - rewrite Hl, length_rev. by rewrite Hperm.
  - rewrite rev_involutive, Hsplit. exact (StronglySorted_rev _ _ Hc2).
Qed.

(** ** Witnesses *)

Definition demo_hint (receiving finding location : Z) : Hint :=
  mkHint receiving finding location 7 false "" 1 HintStatus.Priority.

Lemma upsert_spec_witness :
  let s := (upsert empty_store (0, 1) (demo_hint 1 2 10)).1 in
  (upsert s (0, 1) (demo_hint 1 2 10)).2 = false /\
  unique_identities (upsert s (0, 1) (demo_hint 1 2 10)).1.
Proof.
  assert (H0 : unique_identities empty_store) by (intros k; constructor).
  pose proof (upsert_spec empty_store (0, 1) (demo_hint 1 2 10) H0) as H1.
  split; [reflexivity|].
  apply (upsert_spec (upsert empty_store (0, 1) (demo_hint 1 2 10)).1 (0, 1) (demo_hint 1 2 10)).
  apply H1.
Defined.

Definition demo_candidates : list Hint := [demo_hint 1 1 10; demo_hint 1 2 11; demo_hint 1 3 12].

Definition demo_choice : option (list Hint * list Hint * PyRandom) :=
  choose 50 sample demo_candidates (fun finder _ => Z.min finder 2) 1.

Lemma demo_choice_some : bool_decide (is_Some demo_choice) = true.
Proof. vm_compute. reflexivity. Qed.

Lemma choose_spec_witness :
  exists g r rng', demo_choice = Some (g, r, rng') /\ g ++ r ≡ₚ demo_candidates /\
    length g = 1%nat.
Proof.
  pose proof demo_choice_some as Hs. apply bool_decide_eq_true in Hs as [[[g r] rng'] E].
  exists g, r, rng'. split; [exact E|].
  destruct (choose_spec 50 sample demo_candidates (fun finder _ => Z.min finder 2) 1 g r rng'
    sample_wf ltac:(reflexivity) E) as (Hp & Hl & _).
  split; [exact Hp|exact Hl].
Defined.
