(* ===== verification/Json.v ===== *)
(** * JSON values and floats

    [serde_json] is a library: its values are an abstract type seen through
    one level of structure, and the class states what the code relies on (an
    object is its entries in order, since the workspace builds the crate with
    [preserve_order]).  An [f64] is the standard library's [spec_float] at
    binary64.  [crates/pahoa-proto/src/lenient.rs] ([as_int]) and
    [crates/pahoa-proto/src/arg.rs] are modelled here. *)

From Stdlib Require Import ZArith Lia Bool Ascii SpecFloat.
From stdpp Require Import base tactics list strings pretty.
From S2P Require Import Prelude.

(** ** Floats *)

Definition f64 : Type := spec_float.
Definition f64_of_Z (z : Z) : f64 := binary_normalize 53 1024 z 0 false.
Definition f64_add : f64 -> f64 -> f64 := SFadd 53 1024.
Definition f64_mul : f64 -> f64 -> f64 := SFmul 53 1024.
Definition f64_div : f64 -> f64 -> f64 := SFdiv 53 1024.
Definition f64_ltb : f64 -> f64 -> bool := SFltb.
Definition f64_leb : f64 -> f64 -> bool := SFleb.
Definition f64_eqb : f64 -> f64 -> bool := SFeqb.

(** [f.is_finite()]. *)
Definition f64_finite (f : f64) : bool :=
  match f with S754_zero _ | S754_finite _ _ _ => true | _ => false end.

(** [f.fract() == 0.0]. *)
Definition fract_is_zero (f : f64) : bool :=
  match f with
  | S754_zero _ => true
  | S754_finite _ m e => (0 <=? e) || (Z.pos m mod 2 ^ (- e) =? 0)
  | _ => false
  end.

(** [f.trunc()] of a finite value as an integer; [as i64] saturates and sends
    NaN to zero. *)
Definition f64_trunc (f : f64) : Z :=
  match f with
  | S754_finite s m e =>
      let a := if 0 <=? e then Z.pos m * 2 ^ e else Z.pos m / 2 ^ (- e) in
      if s then - a else a
  | _ => 0
  end.

Definition f64_as_i64 (f : f64) : Z :=
  match f with
  | S754_infinity s => if s then i64_min else i64_max
  | S754_nan => 0
  | _ => Z.max i64_min (Z.min i64_max (f64_trunc f))
  end.

Definition f64_as_u64 (f : f64) : Z :=
  match f with
  | S754_infinity s => if s then 0 else u64_max
  | S754_nan => 0
  | _ => Z.max 0 (Z.min u64_max (f64_trunc f))
  end.

(** [f.to_bits()]. *)
Definition f64_to_bits (f : f64) : Z :=
  let sign (s : bool) := if s then 2 ^ 63 else 0 in
  match f with
  | S754_zero s => sign s
  | S754_infinity s => sign s + 2047 * 2 ^ 52
  | S754_nan => 0x7ff8000000000000
  | S754_finite s m e =>
      sign s + (if Z.pos m <? 2 ^ 52 then Z.pos m else (e + 1075) * 2 ^ 52 + (Z.pos m - 2 ^ 52))
  end.

(** [f64::from_bits]. *)
Definition f64_of_bits (b : Z) : f64 :=
  let s := 2 ^ 63 <=? b in
  let ex := (b / 2 ^ 52) mod 2048 in
  let m := b mod 2 ^ 52 in
  if ex =? 2047 then (if m =? 0 then S754_infinity s else S754_nan)
  else if ex =? 0 then match m with Z.pos p => S754_finite s p (-1074) | _ => S754_zero s end
  else match m + 2 ^ 52 with Z.pos p => S754_finite s p (ex - 1075) | _ => S754_nan end.

Example f64_of_bits_one : f64_of_bits 0x3ff0000000000000 = f64_of_Z 1.
Proof. reflexivity. Qed.

Example f64_to_bits_one : f64_to_bits (f64_of_Z 1) = 0x3ff0000000000000.
Proof. reflexivity. Qed.

(** ** JSON

    The laws of the class: a value is the shape it was made of, an [i64] reads
    back as itself and so does a finite [f64].  An object is built with distinct
    keys. *)

Inductive Shape (V N : Type) : Type :=
| SNull
| SBool (b : bool)
| SNumber (n : N)
| SString (s : string)
| SArray (l : list V)
| SObject (m : list (string * V)).
Arguments SNull {V N}.
Arguments SBool {V N} b.
Arguments SNumber {V N} n.
Arguments SString {V N} s.
Arguments SArray {V N} l.
Arguments SObject {V N} m.

(** How a number presents itself to a deserializer's visitor: the crate keeps a
    number's text (it is built with [arbitrary_precision]), so one that is
    neither a 64-bit integer nor a float's canonical text comes as a wider
    integer or as a map of one entry. *)
Inductive NumVisit : Type :=
| VisitU64 (u : Z)
| VisitI64 (i : Z)
| VisitF64 (f : f64)
| VisitWide
| VisitMap.

(** Every value is a finite tree: the values inside one are lower. *)
Definition inside {V N} (s : Shape V N) : list V :=
  match s with SArray l => l | SObject m => m.*2 | _ => [] end.

Class Json : Type := {
  Value : Type;
  Number : Type;
  shape : Value -> Shape Value Number;
  make : Shape Value Number -> Value;
  shape_make : forall s, shape (make s) = s;
  num_as_i64 : Number -> option Z;
  num_as_f64 : Number -> option f64;
  num_of_i64 : Z -> Number;
  num_of_f64 : f64 -> Number;
  json_text : Value -> string;
  num_as_u64 : Number -> option Z;
  num_visit : Number -> NumVisit;
  num_as_big : Number -> option Z;
  num_of_big : Z -> Number;
  height : Value -> nat;
  height_inside : forall v x, x ∈ inside (shape v) -> (height x < height v)%nat;
  num_visit_of : forall z, is_i64 z ->
    num_visit (num_of_i64 z) = if z <? 0 then VisitI64 z else VisitU64 z;
  num_as_u64_of : forall z, is_i64 z -> 0 <= z -> num_as_u64 (num_of_i64 z) = Some z;
  num_as_i64_of_big : forall z, ~ is_i64 z -> num_as_i64 (num_of_big z) = None;
  num_as_big_of : forall z, ~ is_i64 z -> num_as_big (num_of_big z) = Some z;
  num_float_not_int : forall f, num_as_i64 (num_of_f64 f) = None /\ num_as_big (num_of_f64 f) = None;
  num_as_i64_of : forall z, is_i64 z -> num_as_i64 (num_of_i64 z) = Some z;
  num_as_f64_of : forall f, f64_finite f = true -> num_as_f64 (num_of_f64 f) = Some f;
  num_as_f64_finite : forall n f, num_as_f64 n = Some f -> f64_finite f = true
}.

Section json.
Context `{Json}.

Definition JMap : Type := list (string * Value).

(** [Map::get] and [Map::insert]: a present key keeps its place. *)
Definition map_get (m : JMap) (k : string) : option Value :=
  snd <$> List.find (fun e => bool_decide (e.1 = k)) m.

Fixpoint map_insert (m : JMap) (k : string) (v : Value) : JMap :=
  match m with
  | [] => [(k, v)]
  | (k', v') :: m => if decide (k' = k) then (k', v) :: m else (k', v') :: map_insert m k v
  end.

Definition v_as_str (v : Value) : option string :=
  match shape v with SString s => Some s | _ => None end.

Definition v_as_array (v : Value) : option (list Value) :=
  match shape v with SArray l => Some l | _ => None end.

Definition v_as_object (v : Value) : option JMap :=
  match shape v with SObject m => Some m | _ => None end.

Definition v_as_f64 (v : Value) : option f64 :=
  match shape v with SNumber n => num_as_f64 n | _ => None end.

Definition v_string (s : string) : Value := make (SString s).
Definition v_int (z : Z) : Value := make (SNumber (num_of_i64 z)).
Definition v_null : Value := make SNull.

Lemma map_get_here k m (v : Value) : map_get ((k, v) :: m) k = Some v.
Proof. unfold map_get. cbn. by rewrite bool_decide_true. Qed.

Lemma map_get_skip k k' m (v : Value) : k <> k' -> map_get ((k, v) :: m) k' = map_get m k'.
Proof. intros Hne. unfold map_get. cbn. by rewrite bool_decide_false. Qed.

Lemma v_as_str_string s : v_as_str (v_string s) = Some s.
Proof. unfold v_as_str, v_string. by rewrite shape_make. Qed.

(** [lenient::as_int]. *)
Definition as_int (v : Value) : option Z :=
  match shape v with
  | SNumber n =>
      match num_as_i64 n with
      | Some i => Some i
      | None =>
          f ← num_as_f64 n;
          if fract_is_zero f && f64_leb (f64_of_Z (- 2 ^ 63)) f && f64_ltb f (f64_of_Z (2 ^ 63))
          then Some (f64_as_i64 f) else None
      end
  | _ => None
  end.
End json.

(** ** [Arg]: a field whose type the room judges *)

Inductive Arg (T : Type) : Type := Missing | Wrong | Present (t : T).
Arguments Missing {T}.
Arguments Wrong {T}.
Arguments Present {T} t.

Definition as_ok {T} (a : Arg T) : option T :=
  match a with Present t => Some t | _ => None end.

Definition is_bad {T} (a : Arg T) : bool :=
  match a with Present _ => false | _ => true end.

Definition is_wrong {T} (a : Arg T) : bool :=
  match a with Wrong => true | _ => false end.

(** ** A concrete JSON, for the witnesses *)

#[warnings="-register-all"]
Inductive JTree : Type := JNode (s : Shape JTree (Z + f64)).

Definition tree_as_i64 (n : Z + f64) : option Z :=
  match n with inl z => if (i64_min <=? z) && (z <=? i64_max) then Some z else None | inr _ => None end.

Definition tree_as_f64 (n : Z + f64) : option f64 :=
  let f := match n with inl z => f64_of_Z z | inr f => f end in
  if f64_finite f then Some f else None.

Lemma tree_as_i64_of z : is_i64 z -> tree_as_i64 (inl z) = Some z.
Proof.
  intros Hz. unfold tree_as_i64, is_i64, i64_min, i64_max in *.
  destruct (Z.leb_spec (-9223372036854775808) z), (Z.leb_spec z 9223372036854775807); lia || done.
Qed.

Lemma tree_shape_make (s : Shape JTree (Z + f64)) : (let 'JNode s' := JNode s in s') = s.
Proof. done. Qed.

Lemma tree_as_f64_of (f : f64) : f64_finite f = true -> tree_as_f64 (inr f) = Some f.
Proof. intros Hf. unfold tree_as_f64. by rewrite Hf. Qed.

Lemma tree_as_f64_finite n f : tree_as_f64 n = Some f -> f64_finite f = true.
Proof. unfold tree_as_f64. destruct (f64_finite _) eqn:E; [|done]. by intros [= <-]. Qed.

Fixpoint tree_height (t : JTree) : nat :=
  let 'JNode s := t in
  match s with
  | SArray l => S (foldr (fun x n => Nat.max (tree_height x) n) 0%nat l)
  | SObject m => S (foldr (fun kv n => Nat.max (tree_height kv.2) n) 0%nat m)
  | _ => 0%nat
  end.

Lemma tree_height_inside t x :
  x ∈ inside (let 'JNode s := t in s) -> (tree_height x < tree_height t)%nat.
Proof.
  destruct t as [s]. destruct s as [|b|n|s|l|m]; cbn [inside]; intros Hx; try (by inversion Hx).
  - cbn [tree_height]. induction Hx as [y l|y z l Hx IH]; cbn [foldr]; lia.
  - cbn [tree_height]. induction m as [|[k v] m IH]; [by inversion Hx|]. rewrite fmap_cons in Hx.
    cbn [foldr snd] in *. apply elem_of_cons in Hx as [->|Hx]; [lia|]. specialize (IH Hx). lia.
Qed.

Definition tree_as_u64 (n : Z + f64) : option Z :=
  match n with inl z => if (0 <=? z) && (z <=? u64_max) then Some z else None | inr _ => None end.

Definition tree_visit (n : Z + f64) : NumVisit :=
  match n with
  | inl z =>
      if (0 <=? z) && (z <=? u64_max) then VisitU64 z
      else if (i64_min <=? z) && (z <? 0) then VisitI64 z else VisitWide
  | inr f => VisitF64 f
  end.

Definition tree_as_big (n : Z + f64) : option Z := match n with inl z => Some z | inr _ => None end.

Lemma tree_visit_of z : is_i64 z -> tree_visit (inl z) = if z <? 0 then VisitI64 z else VisitU64 z.
Proof.
  intros Hz. unfold tree_visit, is_i64, i64_min, u64_max in *.
  destruct (Z.leb_spec 0 z), (Z.ltb_spec z 0); try lia; cbn [andb].
  - by rewrite (proj2 (Z.leb_le _ _)) by lia.
  - by rewrite (proj2 (Z.leb_le _ _)) by lia.
Qed.

Lemma tree_as_u64_of z : is_i64 z -> 0 <= z -> tree_as_u64 (inl z) = Some z.
Proof.
  intros Hz H0. unfold tree_as_u64, is_i64, u64_max in *. by rewrite !(proj2 (Z.leb_le _ _)) by lia.
Qed.

Lemma tree_as_i64_of_big z : ~ is_i64 z -> tree_as_i64 (inl z) = None.
Proof.
  intros Hz. unfold tree_as_i64, is_i64, i64_min, i64_max in *.
  destruct (Z.leb_spec (-9223372036854775808) z), (Z.leb_spec z 9223372036854775807); done || lia.
Qed.

Lemma tree_as_big_of z : ~ is_i64 z -> tree_as_big (inl z) = Some z.
Proof. done. Qed.

Lemma tree_float_not_int (f : f64) : tree_as_i64 (inr f) = None /\ tree_as_big (inr f) = None.
Proof. done. Qed.

(** Compact text; a float is written as the decimal of its bits. *)
Definition bits_text (f : f64) : string := String.append (pretty (f64_to_bits f)) (String "." EmptyString).
Definition tree_quote (s : string) : string :=
  String (ascii_of_nat 34) (String.append s (String (ascii_of_nat 34) EmptyString)).
Definition tree_num_text (n : Z + f64) : string := match n with inl z => pretty z | inr f => bits_text f end.

Fixpoint tree_json_text (t : JTree) : string :=
  let 'JNode s := t in
  match s with
  | SNull => "null"
  | SBool b => if b then "true" else "false"
  | SNumber n => tree_num_text n
  | SString s => tree_quote s
  | SArray l => String.append "[" (String.append (String.concat "," (tree_json_text <$> l)) "]")
  | SObject m =>
      String.append "{" (String.append
        (String.concat "," ((fun kv => String.append (tree_quote kv.1)
                                         (String.append ":" (tree_json_text kv.2))) <$> m)) "}")
  end.

#[local] Instance tree_json : Json := {|
  Value := JTree;
  Number := Z + f64;
  shape := fun v => let 'JNode s := v in s;
  make := JNode;
  shape_make := tree_shape_make;
  num_as_i64 := tree_as_i64;
  num_as_f64 := tree_as_f64;
  num_of_i64 := inl;
  num_of_f64 := inr;
  json_text := tree_json_text;
  num_as_u64 := tree_as_u64;
  num_visit := tree_visit;
  num_as_big := tree_as_big;
  num_of_big := inl;
  height := tree_height;
  height_inside := tree_height_inside;
  num_visit_of := tree_visit_of;
  num_as_u64_of := tree_as_u64_of;
  num_as_i64_of_big := tree_as_i64_of_big;
  num_as_big_of := tree_as_big_of;
  num_float_not_int := tree_float_not_int;
  num_as_i64_of := tree_as_i64_of;
  num_as_f64_of := tree_as_f64_of;
  num_as_f64_finite := tree_as_f64_finite
|}.
