(* ===== verification/Packets.v ===== *)
(** * [crates/pahoa-proto/src/server.rs], [client.rs]: the packets

    One record per packet with the source's fields.  [Connected.slot_data] and
    the data package are the JSON text they are held as ([RawValue]). *)

From Stdlib Require Import ZArith Lia Bool.
From stdpp Require Import base tactics list gmap strings.
From S2P Require Import Prelude PyObj Types Json.

Inductive PrintJsonType : Type :=
| ItemSend | ItemCheat | PtHint | Join | PtPart | Chat | ServerChat | Tutorial
| TagsChanged | CommandResult | AdminCommandResult | PtGoal | PtRelease | PtCollect
| PtCountdown.

#[export] Instance PrintJsonType_eq_dec : EqDecision PrintJsonType.
Proof. solve_decision. Defined.

Definition print_type_text (t : PrintJsonType) : string :=
  match t with
  | ItemSend => "ItemSend"
  | ItemCheat => "ItemCheat"
  | PtHint => "Hint"
  | Join => "Join"
  | PtPart => "Part"
  | Chat => "Chat"
  | ServerChat => "ServerChat"
  | Tutorial => "Tutorial"
  | TagsChanged => "TagsChanged"
  | CommandResult => "CommandResult"
  | AdminCommandResult => "AdminCommandResult"
  | PtGoal => "Goal"
  | PtRelease => "Release"
  | PtCollect => "Collect"
  | PtCountdown => "Countdown"
  end.

Inductive ConnectionRefusedReason : Type :=
| InvalidSlot | InvalidGame | IncompatibleVersion | InvalidPassword
| InvalidItemsHandling | SlotLocked.

#[export] Instance ConnectionRefusedReason_eq_dec : EqDecision ConnectionRefusedReason.
Proof. solve_decision. Defined.

Record RoomInfo : Type := mkRoomInfo {
  ri_version : Version;
  ri_generator_version : Version;
  ri_tags : list string;
  ri_password : bool;
  ri_permissions : list (string * Permission.t);
  ri_hint_cost : Z;
  ri_location_check_points : Z;
  ri_games : list string;
  ri_checksums : gmap string string;
  ri_seed_name : string;
  ri_time : f64
}.

Record Connected : Type := mkConnected {
  cn_team : Z;
  cn_slot : Z;
  cn_players : list NetworkPlayer;
  cn_missing_locations : list Z;
  cn_checked_locations : list Z;
  cn_slot_info : gmap Z NetworkSlot;
  cn_hint_points : Z;
  cn_slot_data : option string
}.

Record RoomUpdate : Type := mkRoomUpdate {
  ru_players : option (list NetworkPlayer);
  ru_checked_locations : option (list Z);
  ru_hint_points : option Z;
  ru_permissions : option (list (string * Permission.t));
  ru_hint_cost : option Z;
  ru_location_check_points : option Z;
  ru_password : option bool
}.

(** [..Default::default()]. *)
Definition room_update_default : RoomUpdate := mkRoomUpdate None None None None None None None.

Record PrintJson : Type := mkPrintJson {
  pj_data : list JsonMessagePart;
  pj_type : option PrintJsonType;
  pj_receiving : option Z;
  pj_item : option NetworkItem;
  pj_found : option bool;
  pj_team : option Z;
  pj_slot : option Z;
  pj_message : option string;
  pj_tags : option (list string);
  pj_countdown : option Z
}.

(** A message of one text part about a slot. *)
Definition print_text (ty : option PrintJsonType) (team slot : option Z)
    (tags : option (list string)) (countdown : option Z) (text : string) : PrintJson :=
  mkPrintJson [part_text text] ty None None None team slot None tags countdown.

Record InvalidPacket : Type := mkInvalidPacket {
  ip_problem_type : string;
  ip_original_cmd : option string;
  ip_text : string
}.

Section packets.
Context `{Json}.

Inductive ServerPacket : Type :=
| RoomInfoP (i : RoomInfo)
| ConnectionRefused (errors : list ConnectionRefusedReason)
| ConnectedP (c : Connected)
| ReceivedItems (index : nat) (items : list NetworkItem)
| LocationInfo (locations : list NetworkItem)
| RoomUpdateP (u : RoomUpdate)
| PrintJSON (p : PrintJson)
| DataPackageP (data : string)
| InvalidPacketP (p : InvalidPacket)
| Echo (m : JMap).

(** [ServerPacket::cmd]. *)
Definition packet_cmd (p : ServerPacket) : string :=
  match p with
  | RoomInfoP _ => "RoomInfo"
  | ConnectionRefused _ => "ConnectionRefused"
  | ConnectedP _ => "Connected"
  | ReceivedItems _ _ => "ReceivedItems"
  | LocationInfo _ => "LocationInfo"
  | RoomUpdateP _ => "RoomUpdate"
  | PrintJSON _ => "PrintJSON"
  | DataPackageP _ => "DataPackage"
  | InvalidPacketP _ => "InvalidPacket"
  | Echo m => default "Echo" (v ← map_get m "cmd"; v_as_str v)
  end.

(** [ServerPacket::echo]. *)
Definition echo (request : JMap) (cmd : string) (extra : list (string * Value)) : ServerPacket :=
  Echo (fold_left (fun m kv => map_insert m kv.1 kv.2) extra (map_insert request "cmd" (v_string cmd))).

Record ConnectArgs : Type := mkConnect {
  co_password : Arg (option string);
  co_game : Arg (option string);
  co_name : Arg string;
  co_uuid : Value;
  co_version : Version;
  co_items_handling : Arg Z;
  co_tags : list string;
  co_slot_data : bool
}.

Record ConnectUpdate : Type := mkConnectUpdate {
  cu_items_handling : Arg (option Z);
  cu_tags : option (list string)
}.

Record LocationScouts : Type := mkLocationScouts {
  ls_locations : list Value;
  ls_create_as_hint : Z
}.

Record CreateHints : Type := mkCreateHints {
  ch_locations : list Value;
  ch_player : option Z;
  ch_status : Arg (option Z)
}.

Record UpdateHint : Type := mkUpdateHint {
  uh_player : Arg Z;
  uh_location : Arg Z;
  uh_status : Arg (option Z)
}.

Record Bounce : Type := mkBounce {
  bo_games : Arg (list string);
  bo_slots : Arg (list Z);
  bo_tags : Arg (list string);
  bo_data : Value
}.

Record SetArgs : Type := mkSet {
  st_key : Arg string;
  st_default : option Value;
  st_want_reply : bool;
  st_operations : Arg (list Value)
}.

Inductive ClientPacket : Type :=
| CConnect (c : ConnectArgs)
| CConnectUpdate (u : ConnectUpdate)
| CSync
| CLocationChecks (locations : list Value)
| CLocationScouts (s : LocationScouts)
| CCreateHints (c : CreateHints)
| CUpdateHint (u : UpdateHint)
| CStatusUpdate (status : Z)
| CSay (text : Arg string)
| CGetDataPackage (games exclusions : option (list string))
| CBounce (b : Bounce) (raw : JMap)
| CGet (keys : Arg (list Value)) (raw : JMap)
| CSet (s : SetArgs) (raw : JMap)
| CSetNotify (keys : Arg (list Value)).

Definition allowed_before_auth (p : ClientPacket) : bool :=
  match p with CConnect _ | CGetDataPackage _ _ => true | _ => false end.

Definition client_cmd (p : ClientPacket) : string :=
  match p with
  | CConnect _ => "Connect"
  | CConnectUpdate _ => "ConnectUpdate"
  | CSync => "Sync"
  | CLocationChecks _ => "LocationChecks"
  | CLocationScouts _ => "LocationScouts"
  | CCreateHints _ => "CreateHints"
  | CUpdateHint _ => "UpdateHint"
  | CStatusUpdate _ => "StatusUpdate"
  | CSay _ => "Say"
  | CGetDataPackage _ _ => "GetDataPackage"
  | CBounce _ _ => "Bounce"
  | CGet _ _ => "Get"
  | CSet _ _ => "Set"
  | CSetNotify _ => "SetNotify"
  end.
End packets.
