(* ===== verification/Codec.v ===== *)
(** * Decoding a client's frame

    [pahoa-proto]: the nesting guard of [depth.rs], the field readers of
    [lenient.rs], [arg.rs] and the [Deserialize] of [Version] in [types.rs],
    and [codec.rs]'s [decode] and [decode_one] over the packets of [client.rs].
    [serde_json]'s parser is a parameter; what its derived readers do with a
    parsed object (unknown keys are ignored, an absent field is an error unless
    it has a default) is written out. *)

From Stdlib Require Import ZArith Lia Bool.
From stdpp Require Import base tactics list strings.
From S2P Require Import Prelude Types Json Packets.

(** ** [depth.rs] *)

Definition MAX_DEPTH : Z := 16.

Inductive DepthError := TooDeep (limit : Z) | Malformed.

Definition is_open (c : Z) : bool := (c =? 91) || (c =? 123).
Definition is_close (c : Z) : bool := (c =? 93) || (c =? 125).

(** The scan: a signed counter, the string state and the escape state. *)
Fixpoint depth_scan (limit : Z) (bytes : list Z) (depth : Z) (in_quotes escape : bool)
    : result DepthError Z :=
  match bytes with
  | [] => Ok depth
  | c :: bytes =>
      if (c =? 92) && negb escape then depth_scan limit bytes depth in_quotes true
      else if (c =? 34) && negb escape then depth_scan limit bytes depth (negb in_quotes) escape
      else if negb in_quotes && is_open c then
        if limit <? depth + 1 then Err (TooDeep limit)
        else depth_scan limit bytes (depth + 1) in_quotes false
      else if negb in_quotes && is_close c then depth_scan limit bytes (depth - 1) in_quotes false
      else depth_scan limit bytes depth in_quotes false
  end.

Definition check_depth (s : string) (limit : Z) : result DepthError unit :=
  depth ← depth_scan limit (bytes_of_string s) 1 false false;
  if negb (depth =? 1) then Err Malformed else Ok tt.

Definition depth_check (s : string) : result DepthError unit := check_depth s MAX_DEPTH.

(** ** The standard library's [str::trim] and [str::parse::<u32>] *)

(** The UTF-8 of the characters with the property White_Space. *)
Definition white_space : list (list Z) :=
  [[9]; [10]; [11]; [12]; [13]; [32]; [0xC2; 0x85]; [0xC2; 0xA0]; [0xE1; 0x9A; 0x80];
   [0xE2; 0x80; 0xA8]; [0xE2; 0x80; 0xA9]; [0xE2; 0x80; 0xAF]; [0xE2; 0x81; 0x9F];
   [0xE3; 0x80; 0x80]]
  ++ ((fun n => [0xE2; 0x80; 0x80 + Z.of_nat n]) <$> seq 0 11).

Fixpoint strip_prefix (p l : list Z) : option (list Z) :=
  match p, l with
  | [], _ => Some l
  | x :: p, y :: l => if x =? y then strip_prefix p l else None
  | _ :: _, [] => None
  end.

Fixpoint first_some {A B} (f : A -> option B) (l : list A) : option B :=
  match l with
  | [] => None
  | a :: l => match f a with Some b => Some b | None => first_some f l end
  end.

Fixpoint strip_all (fuel : nat) (tokens : list (list Z)) (l : list Z) : list Z :=
  match fuel with
  | O => l
  | S fuel =>
      match first_some (fun p => strip_prefix p l) tokens with
      | Some l => strip_all fuel tokens l
      | None => l
      end
  end.

Definition str_trim (s : list Z) : list Z :=
  let s := strip_all (length s) white_space s in
  rev (strip_all (length s) (map (@rev Z) white_space) (rev s)).

Fixpoint digits_val (l : list Z) (acc : Z) : option Z :=
  match l with
  | [] => Some acc
  | c :: l => if within 48 57 c then digits_val l (10 * acc + (c - 48)) else None
  end.

Definition parse_u32 (s : list Z) : option Z :=
  let s := match s with 43 :: s => s | _ => s end in
  match s with
  | [] => None
  | _ => n ← digits_val s 0; if n <=? u32_max then Some n else None
  end.

Section Readers.
Context `{Json}.

(** A reader of a field's value; [None] is an error. *)
Definition Reads (T : Type) : Type := Value -> option T.

Definition required {T} (r : Reads T) (m : JMap) (k : string) : option T :=
  v ← map_get m k; r v.

(** [#[serde(default)]]. *)
Definition defaulted {T} (d : T) (r : Reads T) (m : JMap) (k : string) : option T :=
  match map_get m k with None => Some d | Some v => r v end.

Definition r_value : Reads Value := Some.
Definition r_string : Reads string := v_as_str.
Definition r_vec {T} (r : Reads T) : Reads (list T) := fun v => l ← v_as_array v; mapM r l.
Definition r_option {T} (r : Reads T) : Reads (option T) := fun v =>
  match shape v with SNull => Some None | _ => Some <$> r v end.

(** serde's own [u32]. *)
Definition r_u32_strict : Reads Z := fun v =>
  match shape v with
  | SNumber n => u ← num_as_u64 n; if u <=? u32_max then Some u else None
  | _ => None
  end.

(** [Arg<T>]. *)
Definition r_arg {T} (r : Reads T) : Reads (Arg T) := fun v =>
  Some match r v with Some t => Present t | None => Wrong end.

(** *** [lenient.rs] *)

Definition float_int (f : f64) : option Z :=
  if fract_is_zero f && f64_leb (f64_of_Z (- 2 ^ 63)) f && f64_ltb f (f64_of_Z (2 ^ 63))
  then Some (f64_as_i64 f) else None.

(** [IntVisitor]. *)
Definition r_int : Reads Z := fun v =>
  match shape v with
  | SBool b => Some (Z.b2z b)
  | SNumber n =>
      match num_visit n with
      | VisitU64 u => if u <=? i64_max then Some u else None
      | VisitI64 i => Some i
      | VisitF64 f => float_int f
      | VisitWide | VisitMap => None
      end
  | _ => None
  end.

Definition narrow (lo hi : Z) (i : Z) : option Z :=
  if (lo <=? i) && (i <=? hi) then Some i else None.

Definition r_i64 : Reads Z := fun v => i ← r_int v; narrow i64_min i64_max i.
Definition r_u32 : Reads Z := fun v => i ← r_int v; narrow 0 u32_max i.
Definition r_u8 : Reads Z := fun v => i ← r_int v; narrow 0 u8_max i.
Definition opt_u32 : Reads (option Z) := r_option r_u32.

(** [TruthVisitor]: drains a sequence or map, true when it had an entry. *)
Definition r_bool : Reads bool := fun v =>
  match shape v with
  | SNull => Some false
  | SBool b => Some b
  | SString s => Some (negb (str_eqb s ""))
  | SArray l => Some (negb (Nat.eqb (length l) 0))
  | SObject m => Some (negb (Nat.eqb (length m) 0))
  | SNumber n =>
      match num_visit n with
      | VisitU64 u => Some (negb (u =? 0))
      | VisitI64 i => Some (negb (i =? 0))
      | VisitF64 f => Some (negb (f64_eqb f (f64_of_Z 0)))
      | VisitWide => None
      | VisitMap => Some true
      end
  end.

(** *** [Version] *)

Definition version_component (v : Value) : option Z :=
  match shape v with
  | SNumber n => wrap32 <$> num_as_u64 n
  | SString s => parse_u32 (str_trim (bytes_of_string s))
  | _ => None
  end.

Inductive Component := Major | Minor | Build.

Definition component_of (key : string) : option Component :=
  let k := to_ascii_lowercase key in
  if str_eqb k "major" then Some Major
  else if str_eqb k "minor" then Some Minor
  else if str_eqb k "build" then Some Build
  else None.

Definition put_component (c : Component) (x : Z) (acc : option Z * option Z * option Z)
    : option Z * option Z * option Z :=
  let '(a, b, d) := acc in
  match c with
  | Major => (Some x, b, d)
  | Minor => (a, Some x, d)
  | Build => (a, b, Some x)
  end.

(** [visit_map]: every entry in turn, a later spelling replacing an earlier. *)
Fixpoint version_entries (m : JMap) (acc : option Z * option Z * option Z)
    : option (option Z * option Z * option Z) :=
  match m with
  | [] => Some acc
  | (k, v) :: m =>
      match component_of k with
      | None => version_entries m acc
      | Some c => x ← version_component v; version_entries m (put_component c x acc)
      end
  end.

Definition r_version : Reads Version := fun v =>
  m ← v_as_object v;
  acc ← version_entries m (None, None, None);
  match acc with
  | (Some a, Some b, Some d) => Some (mkVersion a b d)
  | _ => None
  end.
End Readers.
Arguments Reads {_} T.

(** ** [codec.rs] *)

Inductive DecodeError :=
| DepthE (e : DepthError)
| JsonE
| NotAnArray (found : string)
| NotAnObject (index : nat) (found : string)
| MissingCmd (index : nat)
| CmdNotAString (index : nat)
| UnknownCmd (cmd : string)
| BadArguments (cmd : string).

Section Decode.
Context `{Json}.

Definition type_name (v : Value) : string :=
  match shape v with
  | SNull => "null"
  | SBool _ => "bool"
  | SNumber _ => "number"
  | SString _ => "string"
  | SArray _ => "array"
  | SObject _ => "object"
  end.

(** *** The packets' derived readers *)

Definition read_connect (m : JMap) : option ConnectArgs :=
  password ← defaulted Missing (r_arg (r_option r_string)) m "password";
  game ← defaulted Missing (r_arg (r_option r_string)) m "game";
  name ← required (r_arg r_string) m "name";
  uuid ← required r_value m "uuid";
  version ← required r_version m "version";
  items_handling ← required (r_arg r_u8) m "items_handling";
  tags ← defaulted [] (r_vec r_string) m "tags";
  slot_data ← defaulted true r_bool m "slot_data";
  Some (mkConnect password game name uuid version items_handling tags slot_data).

Definition read_connect_update (m : JMap) : option ConnectUpdate :=
  items_handling ← defaulted Missing (r_arg (r_option r_u8)) m "items_handling";
  tags ← defaulted None (r_option (r_vec r_string)) m "tags";
  Some (mkConnectUpdate items_handling tags).

Definition read_location_checks (m : JMap) : option (list Value) :=
  required (r_vec r_value) m "locations".

Definition read_location_scouts (m : JMap) : option LocationScouts :=
  locations ← required (r_vec r_value) m "locations";
  create_as_hint ← defaulted 0 r_i64 m "create_as_hint";
  Some (mkLocationScouts locations create_as_hint).

Definition read_create_hints (m : JMap) : option CreateHints :=
  locations ← required (r_vec r_value) m "locations";
  player ← defaulted None opt_u32 m "player";
  status ← defaulted Missing (r_arg (r_option r_i64)) m "status";
  Some (mkCreateHints locations player status).

Definition read_update_hint (m : JMap) : option UpdateHint :=
  player ← required (r_arg r_u32) m "player";
  location ← required (r_arg r_i64) m "location";
  status ← required (r_arg (r_option r_i64)) m "status";
  Some (mkUpdateHint player location status).

Definition read_status_update (m : JMap) : option Z := required r_i64 m "status".

Definition read_say (m : JMap) : option (Arg string) := defaulted Missing (r_arg r_string) m "text".

Definition read_get_data_package (m : JMap) : option (option (list string) * option (list string)) :=
  games ← defaulted None (r_option (r_vec r_string)) m "games";
  exclusions ← defaulted None (r_option (r_vec r_string)) m "exclusions";
  Some (games, exclusions).

Definition read_bounce (m : JMap) : option Bounce :=
  games ← defaulted Missing (r_arg (r_vec r_string)) m "games";
  slots ← defaulted Missing (r_arg (r_vec r_u32_strict)) m "slots";
  tags ← defaulted Missing (r_arg (r_vec r_string)) m "tags";
  data ← defaulted v_null r_value m "data";
  Some (mkBounce games slots tags data).

Definition read_keys (m : JMap) : option (Arg (list Value)) :=
  defaulted Missing (r_arg (r_vec r_value)) m "keys".

Definition read_set (m : JMap) : option SetArgs :=
  key ← defaulted Missing (r_arg r_string) m "key";
  dflt ← defaulted None (r_option r_value) m "default";
  want_reply ← defaulted false r_bool m "want_reply";
  operations ← defaulted Missing (r_arg (r_vec r_value)) m "operations";
  Some (mkSet key dflt want_reply operations).

Definition parsed {T} (cmd : string) (r : option T) : result DecodeError T := ok_or (BadArguments cmd) r.

Definition decode_one (index : nat) (m : JMap) : result DecodeError ClientPacket :=
  cmd ← ok_or (MissingCmd index) (map_get m "cmd");
  cmd ← ok_or (CmdNotAString index) (v_as_str cmd);
  if str_eqb cmd "Connect" then CConnect <$> parsed "Connect" (read_connect m)
  else if str_eqb cmd "ConnectUpdate" then CConnectUpdate <$> parsed "ConnectUpdate" (read_connect_update m)
  else if str_eqb cmd "Sync" then Ok CSync
  else if str_eqb cmd "LocationChecks" then CLocationChecks <$> parsed "LocationChecks" (read_location_checks m)
  else if str_eqb cmd "LocationScouts" then CLocationScouts <$> parsed "LocationScouts" (read_location_scouts m)
  else if str_eqb cmd "CreateHints" then CCreateHints <$> parsed "CreateHints" (read_create_hints m)
  else if str_eqb cmd "UpdateHint" then CUpdateHint <$> parsed "UpdateHint" (read_update_hint m)
  else if str_eqb cmd "StatusUpdate" then CStatusUpdate <$> parsed "StatusUpdate" (read_status_update m)
  else if str_eqb cmd "Say" then CSay <$> parsed "Say" (read_say m)
  else if str_eqb cmd "GetDataPackage" then
    (fun ge => CGetDataPackage ge.1 ge.2) <$> parsed "GetDataPackage" (read_get_data_package m)
  else if str_eqb cmd "Bounce" then (fun b => CBounce b m) <$> parsed "Bounce" (read_bounce m)
  else if str_eqb cmd "Get" then (fun k => CGet k m) <$> parsed "Get" (read_keys m)
  else if str_eqb cmd "Set" then (fun s => CSet s m) <$> parsed "Set" (read_set m)
  else if str_eqb cmd "SetNotify" then CSetNotify <$> parsed "SetNotify" (read_keys m)
  else Err (UnknownCmd cmd).

(** The loop over the commands of a frame, in order, stopping at the first that
    does not decode. *)
Fixpoint decode_items (index : nat) (items : list Value) : result DecodeError (list ClientPacket) :=
  match items with
  | [] => Ok []
  | item :: items =>
      match v_as_object item with
      | None => Err (NotAnObject index (type_name item))
      | Some m => p ← decode_one index m; rest ← decode_items (S index) items; Ok (p :: rest)
      end
  end.

Definition decode (parse_json : string -> option Value) (frame : string)
    : result DecodeError (list ClientPacket) :=
  match depth_check frame with
  | Err e => Err (DepthE e)
  | Ok _ =>
      value ← ok_or JsonE (parse_json frame);
      match v_as_array value with
      | None => Err (NotAnArray (type_name value))
      | Some items => decode_items 0 items
      end
  end.
End Decode.
