(* ===== verification/PyValue.v ===== *)
(** * [crates/pahoa-datastore/src/pyvalue.rs]: Python's values over JSON

    Numbers are Python's two: an integer of any width ([num_bigint]'s
    [BigInt], here the [Z] it denotes) and a float.  What the crate takes from
    libraries is the class [JsonText]: the JSON parser and the two renderings
    of a float, the conversion of a wide integer to a float and [powf].  The
    recursive comparisons are bounded by the height of their left operand, and
    [py_eq_unfold] and [py_cmp_unfold] say the bound is never met. *)

From Stdlib Require Import ZArith Lia Bool Ascii SpecFloat.
From stdpp Require Import base tactics list strings pretty.
From S2P Require Import Prelude Types Json.

(** ** [f64] operations of the standard library *)

Definition f64_sub : f64 -> f64 -> f64 := SFsub 53 1024.

Definition f64_sign (f : f64) : bool :=
  match f with S754_zero s | S754_infinity s | S754_finite s _ _ => s | S754_nan => false end.

(** An integral float that keeps the sign of a zero. *)
Definition integral (s : bool) (z : Z) : f64 := if z =? 0 then S754_zero s else f64_of_Z z.

(** [f.trunc()], [f.floor()], [f.ceil()]. *)
Definition f64_truncf (f : f64) : f64 :=
  match f with
  | S754_finite s m e => if 0 <=? e then f else integral s (f64_trunc f)
  | _ => f
  end.

Definition f64_floor (f : f64) : f64 :=
  match f with
  | S754_finite s m e =>
      if 0 <=? e then f else integral s ((if s then - Z.pos m else Z.pos m) / 2 ^ (- e))
  | _ => f
  end.

Definition f64_ceil (f : f64) : f64 :=
  match f with
  | S754_finite s m e =>
      if 0 <=? e then f else integral s (- ((if s then Z.pos m else - Z.pos m) / 2 ^ (- e)))
  | _ => f
  end.

(** [a % b], which is exact. *)
Definition f64_rem (a b : f64) : f64 :=
  match a, b with
  | S754_nan, _ | _, S754_nan | S754_infinity _, _ | _, S754_zero _ => S754_nan
  | _, S754_infinity _ => a
  | S754_zero s, S754_finite _ _ _ => S754_zero s
  | S754_finite s m e, S754_finite _ m' e' =>
      let low := Z.min e e' in
      let r := (Z.pos m * 2 ^ (e - low)) mod (Z.pos m' * 2 ^ (e' - low)) in
      if r =? 0 then S754_zero s
      else binary_normalize 53 1024 (if s then - r else r) low s
  end.

(** [a.copysign(b)] of a zero. *)
Definition zero_like (b : f64) : f64 := S754_zero (f64_sign b).

(** [f.abs()]. *)
Definition f64_abs (f : f64) : f64 := SFabs f.

(** The two literals of the module: [1e-4] is the double nearest to it. *)
Definition f64_zero : f64 := S754_zero false.
Definition f64_1em4 : f64 := S754_finite false 7378697629483821 (-66).

(** ** Text *)

(** Whether a number's text has a fraction or an exponent. *)
Fixpoint marked (s : string) : bool :=
  match s with
  | EmptyString => false
  | String c s => Ascii.eqb c "." || Ascii.eqb c "e" || Ascii.eqb c "E" || marked s
  end.

(** [s.split_once(c)]. *)
Fixpoint split_once (c : ascii) (s : string) : option (string * string) :=
  match s with
  | EmptyString => None
  | String d s =>
      if Ascii.eqb d c then Some (EmptyString, s)
      else '(a, b) ← split_once c s; Some (String d a, b)
  end.

(** [s.strip_prefix(c)], [s.trim_start_matches(c)]. *)
Definition strip_char (c : ascii) (s : string) : option string :=
  match s with String d s => if Ascii.eqb d c then Some s else None | EmptyString => None end.

Fixpoint trim_start (c : ascii) (s : string) : string :=
  match s with
  | String d s' => if Ascii.eqb d c then trim_start c s' else s
  | EmptyString => EmptyString
  end.

(** [format!("{digits:0>2}")]. *)
Definition pad2 (s : string) : string :=
  match String.length s with
  | 0%nat => "00"
  | 1%nat => String "0" s
  | _ => s
  end.

(** The end of [py_repr_f64]: an exponent of two digits at least. *)
Definition repr_layout (s : string) : string :=
  match split_once "e" s with
  | None => s
  | Some (mantissa, exponent) =>
      let '(sign, digits) :=
        match strip_char "-" exponent with
        | Some rest => ("-"%string, rest)
        | None => ("+"%string, trim_start "+" exponent)
        end in
      str_concat [mantissa; "e"; sign; pad2 digits]
  end.

Lemma marked_e a b : marked (String.append a (String "e" b)) = true.
Proof.
  induction a as [|c a IH]; [done|]. change (marked (String.append (String c a) (String "e" b)))
    with (Ascii.eqb c "." || Ascii.eqb c "e" || Ascii.eqb c "E" || marked (String.append a (String "e" b))).
  by rewrite IH, orb_true_r.
Qed.

Lemma repr_layout_marked s : marked s = true -> marked (repr_layout s) = true.
Proof.
  intros Hs. unfold repr_layout. destruct (split_once "e" s) as [[a b]|]; [|done].
  destruct (strip_char "-" b) as [rest|]; apply marked_e.
Qed.

Class JsonText `{Json} : Type := {
  (** [serde_json::from_str::<Value>]. *)
  parse_json : string -> option Value;
  (** [serde_json::to_string] of a string, and a number's text. *)
  string_text : string -> string;
  num_text : Number -> string;
  (** [Number::from_f64(f)?.to_string()] and [format!("{f:e}")] of a finite float. *)
  float_text : f64 -> string;
  lower_exp : f64 -> string;
  (** [BigInt::to_f64] and [f64::powf]. *)
  big_to_f64 : Z -> f64;
  powf : f64 -> f64 -> f64;
  (** [{:?}] of a character outside ASCII, which depends on Unicode's tables. *)
  debug_char : string -> string;
  (** A float is written with a fraction or an exponent, and a number so
      written is not read as an integer. *)
  float_text_marked : forall f, f64_finite f = true -> marked (float_text f) = true;
  lower_exp_marked : forall f, f64_finite f = true -> marked (lower_exp f) = true;
  marked_not_int : forall s v n,
    marked s = true -> parse_json s = Some v -> shape v = SNumber n ->
    num_as_i64 n = None /\ num_as_big n = None;
  (** The compact text of a value, as [Display] and [to_string] write it; a
      number that was read keeps its text. *)
  json_text_of : forall v, json_text v =
    match shape v with
    | SNull => "null"
    | SBool b => if b then "true" else "false"
    | SNumber n => num_text n
    | SString s => string_text s
    | SArray l => str_concat ["["; String.concat "," (json_text <$> l); "]"]
    | SObject m =>
        str_concat ["{"; String.concat "," ((fun kv => str_concat [string_text kv.1; ":"; json_text kv.2]) <$> m); "}"]
    end%string;
  num_text_of_i64 : forall z, is_i64 z -> num_text (num_of_i64 z) = pretty z;
  num_text_of_big : forall z, num_text (num_of_big z) = pretty z;
  num_text_parsed : forall s v n, parse_json s = Some v -> shape v = SNumber n -> num_text n = s
}.

(** ** [PyNum] *)

Inductive PyNum : Type := Int (i : Z) | Float (f : f64).

Section pyvalue.
Context `{JsonText}.

(** [{:?}] of a string: quotes, backslashes and control characters escaped. *)
Definition hex_digit (n : Z) : string :=
  String (ascii_of_N (Z.to_N (if n <? 10 then 48 + n else 87 + n))) EmptyString.

Definition debug_ascii (c : ascii) : string :=
  let n := Z.of_N (N_of_ascii c) in
  let bs := String (ascii_of_nat 92) EmptyString in
  if n =? 0 then String.append bs "0"
  else if n =? 9 then String.append bs "t"
  else if n =? 10 then String.append bs "n"
  else if n =? 13 then String.append bs "r"
  else if (n =? 34) || (n =? 92) then String.append bs (String c EmptyString)
  else if (n <? 32) || (n =? 127) then
    str_concat [bs; "u{"; (if n <? 16 then EmptyString else hex_digit (n / 16)); hex_digit (n mod 16); "}"]
  else String c EmptyString.

Definition debug_str (s : string) : string :=
  let quote := String (ascii_of_nat 34) EmptyString in
  let one (c : string) :=
    match c with
    | String a EmptyString => debug_ascii a
    | _ => debug_char c
    end in
  str_concat [quote; str_concat (one <$> chars s); quote].

Definition num_f64 (n : PyNum) : option f64 :=
  match n with
  | Int i => let f := big_to_f64 i in if f64_finite f then Some f else None
  | Float f => Some f
  end.

Definition py_repr_f64 (f : f64) : option string :=
  if negb (f64_finite f) then None
  else
    let s := if negb (f64_eqb f f64_zero) && f64_ltb (f64_abs f) f64_1em4
             then lower_exp f else float_text f in
    Some (repr_layout s).

(** [serde_json::from_str::<Number>]. *)
Definition parse_number (s : string) : option Number :=
  v ← parse_json s; match shape v with SNumber n => Some n | _ => None end.

(** [to_value].  [serde_json::from_str] of an integer's decimal digits is the
    number with those digits. *)
Definition num_to_value (n : PyNum) : option Value :=
  match n with
  | Int i => Some (make (SNumber (if (i64_min <=? i) && (i <=? i64_max) then num_of_i64 i else num_of_big i)))
  | Float f => s ← py_repr_f64 f; n ← parse_number s; Some (make (SNumber n))
  end.

(** [BigInt::from_f64]. *)
Definition big_from_f64 (f : f64) : option Z := if f64_finite f then Some (f64_trunc f) else None.

Definition cmp_int_f64 (a : Z) (f : f64) : option comparison :=
  match f with
  | S754_nan => None
  | S754_infinity false => Some Lt
  | S754_infinity true => Some Gt
  | _ =>
      let truncated := f64_truncf f in
      whole ← big_from_f64 truncated;
      Some (match a ?= whole with
            | Eq =>
                let fraction := f64_sub f truncated in
                if f64_ltb f64_zero fraction then Lt
                else if f64_ltb fraction f64_zero then Gt else Eq
            | other => other
            end)
  end.

Definition cmp_nums (x y : PyNum) : option comparison :=
  match x, y with
  | Int a, Int b => Some (a ?= b)
  | Float a, Float b => SFcompare a b
  | Int a, Float f => cmp_int_f64 a f
  | Float f, Int b => CompOpp <$> cmp_int_f64 b f
  end.

Definition as_floats (x y : PyNum) : option (f64 * f64) :=
  a ← num_f64 x; b ← num_f64 y; Some (a, b).

Definition as_num (v : Value) : option PyNum :=
  match shape v with
  | SBool b => Some (Int (Z.b2z b))
  | SNumber n =>
      match num_as_i64 n with
      | Some i => Some (Int i)
      | None =>
          match num_as_big n with
          | Some i => Some (Int i)
          | None => Float <$> num_as_f64 n
          end
      end
  | _ => None
  end.

Definition small_ints (a b : Value) : option (Z * Z) :=
  match shape a, shape b with
  | SNumber x, SNumber y => i ← num_as_i64 x; j ← num_as_i64 y; Some (i, j)
  | _, _ => None
  end.

(** [a % b] truncates, as Rust's does; the result follows the divisor. *)
Definition floor_mod_big (a b : Z) : option Z :=
  if b =? 0 then None
  else
    let m := Z.rem a b in
    Some (if negb (m =? 0) && negb (Bool.eqb (m <? 0) (b <? 0)) then m + b else m).

Definition floor_mod_f64 (a b : f64) : option f64 :=
  if f64_eqb b f64_zero then None
  else
    let m := f64_rem a b in
    if f64_eqb m f64_zero then Some (zero_like b)
    else Some (if negb (Bool.eqb (f64_ltb m f64_zero) (f64_ltb b f64_zero)) then f64_add m b else m).

(** ** Equality and order *)

(** One level of [py_eq], the calls inside given by [rec]. *)
Definition py_eq_body (rec : Value -> Value -> bool) (a b : Value) : bool :=
  match small_ints a b with
  | Some (x, y) => x =? y
  | None =>
      match as_num a, as_num b with
      | Some x, Some y => match cmp_nums x y with Some Eq => true | _ => false end
      | None, None =>
          match shape a, shape b with
          | SString x, SString y => str_eqb x y
          | SNull, SNull => true
          | SArray x, SArray y =>
              Nat.eqb (length x) (length y) && forallb (fun p => rec p.1 p.2) (zip x y)
          | SObject x, SObject y =>
              Nat.eqb (length x) (length y) &&
              forallb (fun kv => match map_get y kv.1 with Some w => rec kv.2 w | None => false end) x
          | _, _ => false
          end
      | _, _ => false
      end
  end.

Fixpoint py_eq_at (n : nat) (a b : Value) : bool :=
  match n with
  | O => false
  | S n => py_eq_body (py_eq_at n) a b
  end.

Definition py_eq (a b : Value) : bool := py_eq_at (S (height a)) a b.

(** The loop of [py_cmp] over the pairs, to the first that differ. *)
Fixpoint first_diff (rec : Value -> Value -> option comparison) (l : list (Value * Value))
    : option comparison :=
  match l with
  | [] => Some Eq
  | (p, q) :: l =>
      match rec p q with
      | Some Eq => first_diff rec l
      | other => other
      end
  end.

Definition py_cmp_body (rec : Value -> Value -> option comparison) (a b : Value) : option comparison :=
  match small_ints a b with
  | Some (x, y) => Some (x ?= y)
  | None =>
      match as_num a, as_num b with
      | Some x, Some y => cmp_nums x y
      | _, _ =>
          match shape a, shape b with
          | SString x, SString y => Some (String.compare x y)
          | SArray x, SArray y =>
              o ← first_diff rec (zip x y);
              Some (match o with Eq => Nat.compare (length x) (length y) | other => other end)
          | _, _ => None
          end
      end
  end.

Fixpoint py_cmp_at (n : nat) (a b : Value) : option comparison :=
  match n with
  | O => None
  | S n => py_cmp_body (py_cmp_at n) a b
  end.

Definition py_cmp (a b : Value) : option comparison := py_cmp_at (S (height a)) a b.

Definition py_contains (haystack : list Value) (needle : Value) : bool :=
  existsb (fun v => py_eq v needle) haystack.

Definition is_hashable (v : Value) : bool :=
  match shape v with SArray _ | SObject _ => false | _ => true end.

(** ** The height bounds the recursion *)

Lemma zip_first {A B} (l : list A) (k : list B) p : p ∈ zip l k -> p.1 ∈ l.
Proof. destruct p as [x y]. intros Hp. by apply elem_of_zip_l in Hp. Qed.

Lemma forallb_ext_in {A} (f g : A -> bool) l :
  (forall x, x ∈ l -> f x = g x) -> forallb f l = forallb g l.
Proof.
  induction l as [|x l IH]; intros Hfg; [done|]. cbn. rewrite Hfg by left. f_equal.
  apply IH. intros y Hy. apply Hfg. by right.
Qed.

Lemma first_diff_ext f g l :
  (forall p, p ∈ l -> f p.1 p.2 = g p.1 p.2) -> first_diff f l = first_diff g l.
Proof.
  induction l as [|[p q] l IH]; intros Hfg; [done|]. cbn.
  pose proof (Hfg (p, q) ltac:(left)) as E. cbn in E. rewrite E. destruct (g _ _) as [[]|]; try done.
  apply IH. intros y Hy. apply Hfg. by right.
Qed.

Lemma py_eq_body_ext f g a b :
  (forall x y, x ∈ inside (shape a) -> f x y = g x y) -> py_eq_body f a b = py_eq_body g a b.
Proof.
  intros Hfg. unfold py_eq_body. destruct (small_ints a b); [done|].
  destruct (as_num a), (as_num b); try done.
  destruct (shape a) eqn:Ea, (shape b); try done; cbn [inside] in Hfg; f_equal;
    apply forallb_ext_in.
  - intros p Hp. apply Hfg. by eapply zip_first.
  - intros kv Hkv. destruct (map_get _ _); [|done]. apply Hfg. by apply list_elem_of_fmap_2.
Qed.

Lemma py_cmp_body_ext f g a b :
  (forall x y, x ∈ inside (shape a) -> f x y = g x y) -> py_cmp_body f a b = py_cmp_body g a b.
Proof.
  intros Hfg. unfold py_cmp_body. destruct (small_ints a b); [done|].
  assert (Hd : forall x y, shape a = SArray x -> first_diff f (zip x y) = first_diff g (zip x y)).
  { intros x y E. apply first_diff_ext. intros p Hp. apply Hfg. rewrite E. by eapply zip_first. }
  destruct (as_num a), (as_num b); try done;
    destruct (shape a) eqn:Ea, (shape b); try done; by rewrite (Hd _ _ eq_refl).
Qed.

Lemma py_eq_at_enough n m a b :
  (height a < n)%nat -> (height a < m)%nat -> py_eq_at n a b = py_eq_at m a b.
Proof.
  revert m a b. induction n as [|n IH]; intros [|m] a b Hn Hm; try lia. cbn.
  apply py_eq_body_ext. intros x y Hx. pose proof (height_inside _ _ Hx). apply IH; lia.
Qed.

Lemma py_cmp_at_enough n m a b :
  (height a < n)%nat -> (height a < m)%nat -> py_cmp_at n a b = py_cmp_at m a b.
Proof.
  revert m a b. induction n as [|n IH]; intros [|m] a b Hn Hm; try lia. cbn.
  apply py_cmp_body_ext. intros x y Hx. pose proof (height_inside _ _ Hx). apply IH; lia.
Qed.

(** The recursive calls of [py_eq] and [py_cmp] are the functions themselves. *)
Lemma py_eq_unfold a b : py_eq a b = py_eq_body py_eq a b.
Proof.
  unfold py_eq at 1. cbn [py_eq_at]. apply py_eq_body_ext. intros x y Hx.
  pose proof (height_inside _ _ Hx). apply py_eq_at_enough; lia.
Qed.

Lemma py_cmp_unfold a b : py_cmp a b = py_cmp_body py_cmp a b.
Proof.
  unfold py_cmp at 1. cbn [py_cmp_at]. apply py_cmp_body_ext. intros x y Hx.
  pose proof (height_inside _ _ Hx). apply py_cmp_at_enough; lia.
Qed.

(** ** Numbers *)

Lemma py_repr_marked f s : py_repr_f64 f = Some s -> marked s = true.
Proof.
  unfold py_repr_f64. destruct (f64_finite f) eqn:Hf; [|done]. cbn [negb]. intros [= <-].
  apply repr_layout_marked. destruct (_ && _); [by apply lower_exp_marked|by apply float_text_marked].
Qed.

Lemma as_num_int_value i v : num_to_value (Int i) = Some v -> as_num v = Some (Int i).
Proof.
  intros [= <-]. unfold as_num. rewrite shape_make.
  destruct ((i64_min <=? i) && (i <=? i64_max)) eqn:E.
  - breflect. rewrite num_as_i64_of; [done|]. unfold is_i64, i64_min, i64_max in *. lia.
  - assert (~ is_i64 i).
    { unfold is_i64, i64_min, i64_max in *. apply andb_false_iff in E as [E|E]; breflect; lia. }
    by rewrite num_as_i64_of_big, num_as_big_of.
Qed.

Lemma as_num_float_value f v : num_to_value (Float f) = Some v -> forall i, as_num v <> Some (Int i).
Proof.
  cbn. destruct (py_repr_f64 f) as [s|] eqn:Es; [|done]. cbn. unfold parse_number.
  destruct (parse_json s) as [w|] eqn:Ew; [|done]. cbn.
  destruct (shape w) as [| |n| | |] eqn:En; try done. cbn. intros [= <-] i. unfold as_num.
  rewrite shape_make. destruct (marked_not_int s w n (py_repr_marked _ _ Es) Ew En) as [-> ->].
  by destruct (num_as_f64 n).
Qed.

Lemma as_num_float_finite v f : as_num v = Some (Float f) -> f64_finite f = true.
Proof.
  unfold as_num. destruct (shape v) as [| |n| | |]; try done.
  destruct (num_as_i64 n); [done|]. destruct (num_as_big n); [done|].
  destruct (num_as_f64 n) eqn:E; [|done]. intros [= <-]. by eapply num_as_f64_finite.
Qed.

(** Rust's remainder with the sign repaired is Python's, the [Z.modulo] that
    follows the divisor. *)
Lemma floor_mod_big_spec a b :
  floor_mod_big a b = if b =? 0 then None else Some (a mod b).
Proof.
  unfold floor_mod_big. destruct (Z.eqb_spec b 0) as [|Hb]; [done|]. f_equal.
  pose proof (Z.quot_rem a b Hb) as Hq. pose proof (Z.rem_bound_abs a b Hb) as Hr.
  pose proof (Z.div_mod a b Hb) as Hd. pose proof (Z.rem_sign_nz a b Hb) as Hsign.
  set (r := Z.rem a b) in *. set (q := a ÷ b) in *.
  destruct (Z.eqb_spec r 0) as [E|E]; cbn [negb andb].
  { rewrite E in *. symmetry. rewrite Hq, Z.add_0_r, Z.mul_comm. by apply Z.mod_mul. }
  destruct (Z.ltb_spec r 0) as [|], (Z.ltb_spec b 0) as [|]; cbn [Bool.eqb negb].
  - apply (Z.mod_unique _ _ q); [right; lia|lia].
  - apply (Z.mod_unique _ _ (q - 1)); [left; lia|lia].
  - apply (Z.mod_unique _ _ (q - 1)); [right; lia|lia].
  - apply (Z.mod_unique _ _ q); [left; lia|lia].
Qed.
End pyvalue.

(** ** A concrete text, for the witnesses: a float is written as its bits *)

Fixpoint read_bits (acc : Z) (s : string) : Z :=
  match s with
  | String c s =>
      if Ascii.eqb c "." then acc else read_bits (10 * acc + (Z.of_N (N_of_ascii c) - 48)) s
  | EmptyString => acc
  end.

(** It reads only what it writes. *)
Definition tree_parse (s : string) : option JTree :=
  let f := f64_of_bits (read_bits 0 s) in
  if str_eqb (bits_text f) s && f64_finite f then Some (JNode (SNumber (inr f))) else None.

Lemma marked_dot a b : marked (String.append a (String "." b)) = true.
Proof.
  induction a as [|c a IH]; [done|]. change (marked (String.append (String c a) (String "." b)))
    with (Ascii.eqb c "." || Ascii.eqb c "e" || Ascii.eqb c "E" || marked (String.append a (String "." b))).
  by rewrite IH, orb_true_r.
Qed.

Lemma bits_text_marked f : f64_finite f = true -> marked (bits_text f) = true.
Proof. intros _. apply marked_dot. Qed.

#[local] Existing Instance tree_json.

Lemma tree_parse_inv s v (n : Z + f64) : tree_parse s = Some v -> shape v = SNumber n ->
  exists f, n = inr f /\ bits_text f = s.
Proof.
  unfold tree_parse. destruct (_ && _) eqn:E; [|done]. apply andb_true_iff in E as [E _].
  apply bool_decide_eq_true in E. intros [= <-] [= <-]. eauto.
Qed.

Lemma tree_marked_not_int s (v : Value) n :
  marked s = true -> tree_parse s = Some v -> shape v = SNumber n ->
  num_as_i64 n = None /\ num_as_big n = None.
Proof. intros _ Hp Hs. by destruct (tree_parse_inv s v n Hp Hs) as (f & -> & _). Qed.

Lemma tree_num_text_parsed s (v : Value) n :
  tree_parse s = Some v -> shape v = SNumber n -> tree_num_text n = s.
Proof. intros Hp Hs. by destruct (tree_parse_inv s v n Hp Hs) as (f & -> & Hf). Qed.

Lemma tree_json_text_of (v : Value) : json_text v =
    match shape v with
    | SNull => "null"
    | SBool b => if b then "true" else "false"
    | SNumber n => tree_num_text n
    | SString s => tree_quote s
    | SArray l => str_concat ["["; String.concat "," (json_text <$> l); "]"]
    | SObject m =>
        str_concat ["{"; String.concat "," ((fun kv => str_concat [tree_quote kv.1; ":"; json_text kv.2]) <$> m); "}"]
    end%string.
Proof. by destruct v as [[| | | | |]]. Qed.

#[local] Instance tree_text : JsonText := {|
  parse_json := tree_parse : string -> option Value;
  string_text := tree_quote;
  num_text := tree_num_text;
  float_text := bits_text;
  lower_exp := bits_text;
  big_to_f64 := f64_of_Z;
  powf := f64_mul;
  debug_char := fun c => c;
  float_text_marked := bits_text_marked;
  lower_exp_marked := bits_text_marked;
  marked_not_int := tree_marked_not_int;
  json_text_of := tree_json_text_of;
  num_text_of_i64 := fun z _ => eq_refl;
  num_text_of_big := fun z => eq_refl;
  num_text_parsed := tree_num_text_parsed
|}.

(** Rows of the crate's own tests. *)
Example repr_exponents :
  repr_layout "1e-5" = "1e-05"%string /\ repr_layout "1.5e-7" = "1.5e-07"%string /\
  repr_layout "1e+100" = "1e+100"%string /\ repr_layout "1000000000000000.0" = "1000000000000000.0"%string.
Proof. repeat split. Qed.

Example fraction_breaks_the_tie :
  let f z := f64_div (f64_of_Z z) (f64_of_Z 2) in
  cmp_nums (Int 2) (Float (f 5)) = Some Lt /\ cmp_nums (Int (-2)) (Float (f (-5))) = Some Gt /\
  cmp_nums (Int 2) (Float (f 4)) = Some Eq /\
  cmp_nums (Int (2 ^ 71 + 1)) (Float (f64_of_Z (2 ^ 71 + 1))) = Some Gt.
Proof. by vm_compute. Qed.

Example float_modulo :
  floor_mod_f64 (f64_of_Z (-7)) (f64_of_Z 3) = Some (f64_of_Z 2) /\
  floor_mod_f64 (f64_div (f64_of_Z 15) (f64_of_Z 2)) (f64_of_Z (-3)) =
    Some (f64_div (f64_of_Z (-3)) (f64_of_Z 2)) /\
  floor_mod_f64 (f64_of_Z 2) (f64_of_Z (-1)) = Some (S754_zero true).
Proof. by vm_compute. Qed.

(** [floor] and [ceil] of a negative half. *)
Example floor_ceil_half :
  let h := f64_div (f64_of_Z (-5)) (f64_of_Z 2) in
  big_from_f64 (f64_floor h) = Some (-3) /\ big_from_f64 (f64_ceil h) = Some (-2).
Proof. by vm_compute. Qed.
