(* ===== verification/DataStore.v ===== *)
(** * [crates/pahoa-datastore/src/ops.rs]: the eighteen operations of [Set]

    One definition per operation, [apply] that dispatches on the name and
    [apply_all] that runs a sequence and keeps nothing of one that fails.  The
    process-wide counters [apply_all] updates are not modelled. *)

From Stdlib Require Import ZArith Lia Bool Ascii SpecFloat.
From stdpp Require Import base tactics list strings pretty.
From S2P Require Import Prelude Types Json PyValue.

Definition MAX_RESULT_LEN : Z := 16 * 1024 * 1024.
Definition MAX_INT_BITS : Z := 65536.

Inductive OpError : Type :=
| TypeError (op left right : string)
| ValueError (text : string)
| IndexError
| KeyError
| ZeroDivisionError
| Unhashable
| UnknownOperation (name : string)
| Overflow
| IntegerTooWide
| ResultTooLarge
| NotFinite
| StringFormatting.

(** [Display] of an error, in [crates/pahoa-datastore]'s words. *)
Definition op_error_text (debug : string -> string) (e : OpError) : string :=
  match e with
  | TypeError op l r => str_concat ["unsupported operand type(s) for "; op; ": "; l; " and "; r]
  | ValueError t => t
  | IndexError => "list index out of range"
  | KeyError => "key not found"
  | ZeroDivisionError => "division or modulo by zero"
  | Unhashable => "unhashable type in container"
  | UnknownOperation n => str_concat ["unknown data storage operation "; debug n]
  | Overflow => "integer too large to convert to a float"
  | IntegerTooWide => str_concat ["integer wider than "; pretty MAX_INT_BITS; " bits"]
  | ResultTooLarge => str_concat ["result would exceed "; pretty MAX_RESULT_LEN; " bytes"]
  | NotFinite => "result is not a finite number"
  | StringFormatting => "string formatting via `mod` is not supported (see OpError docs)"
  end%string.

(** [BigInt::bits]: the width of the magnitude. *)
Definition bits (z : Z) : Z := if z =? 0 then 0 else Z.log2 (Z.abs z) + 1.

(** [a.saturating_add(b)], [a.saturating_mul(b)] on 64 bits. *)
Definition sat_add (a b : Z) : Z := Z.min u64_max (a + b).
Definition sat_mul (a b : Z) : Z := Z.min u64_max (a * b).

(** [n.to_i64()], [n.to_u64()], [n.to_u32()]. *)
Definition to_i64 (n : Z) : option Z := if (i64_min <=? n) && (n <=? i64_max) then Some n else None.
Definition to_u64 (n : Z) : option Z := if (0 <=? n) && (n <=? u64_max) then Some n else None.
Definition to_u32 (n : Z) : option Z := if (0 <=? n) && (n <=? u32_max) then Some n else None.

Definition str_len (s : string) : Z := Z.of_nat (String.length s).

(** [s.repeat(n)], [n] copies of a list. *)
Definition str_repeat (s : string) (n : Z) : string :=
  if str_eqb s EmptyString then EmptyString
  else Nat.iter (Z.to_nat n) (String.append s) EmptyString.

Definition list_repeat {A} (l : list A) (n : Z) : list A :=
  match l with [] => [] | _ => Nat.iter (Z.to_nat n) (app l) [] end.

(** [items.remove(i)]. *)
Definition list_remove {A} (i : nat) (l : list A) : list A := take i l ++ drop (S i) l.

(** [items.iter().position(p)]. *)
Fixpoint position {A} (p : A -> bool) (l : list A) : option nat :=
  match l with
  | [] => None
  | x :: l => if p x then Some O else S <$> position p l
  end.

Section datastore.
Context `{JsonText}.

Definition type_name (v : Value) : string :=
  match shape v with
  | SNull => "None"
  | SBool _ => "bool"
  | SNumber _ => "number"
  | SString _ => "str"
  | SArray _ => "list"
  | SObject _ => "dict"
  end.

Definition type_error (op : string) (a b : Value) : OpError :=
  TypeError op (type_name a) (type_name b).

Definition OpResult : Type := result OpError Value.

Definition v_str (s : string) : Value := make (SString s).
Definition v_array (l : list Value) : Value := make (SArray l).
Definition v_object (m : JMap) : Value := make (SObject m).
Definition v_bool (b : bool) : Value := make (SBool b).

Definition iterate (v : Value) : option (list Value) :=
  match shape v with
  | SArray items => Some items
  | SString s => Some (v_str <$> chars s)
  | SObject m => Some (v_str <$> m.*1)
  | _ => None
  end.

Definition num_value (n : PyNum) : OpResult :=
  match n with
  | Float f => if negb (f64_finite f) then Err NotFinite else ok_or NotFinite (num_to_value n)
  | Int _ => ok_or NotFinite (num_to_value n)
  end.

Definition int_value (v : Z) : OpResult :=
  if MAX_INT_BITS <? bits v then Err IntegerTooWide else ok_or NotFinite (num_to_value (Int v)).

Definition float_value (x y : PyNum) (f : f64 -> f64 -> f64) : OpResult :=
  '(a, b) ← ok_or Overflow (as_floats x y);
  num_value (Float (f a b)).

Definition too_wide (n : PyNum) : bool :=
  match n with Int i => MAX_INT_BITS <? bits i | Float _ => false end.

Definition need_nums (op : string) (a b : Value) : result OpError (PyNum * PyNum) :=
  match as_num a, as_num b with
  | Some x, Some y =>
      if too_wide x || too_wide y then Err IntegerTooWide else Ok (x, y)
  | _, _ => Err (type_error op a b)
  end.

(** ** Arithmetic *)

Definition add (current arg : Value) : OpResult :=
  match shape current, shape arg with
  | SString a, SString b =>
      if MAX_RESULT_LEN <? str_len a + str_len b then Err ResultTooLarge
      else Ok (v_str (String.append a b))
  | SArray a, SArray b =>
      if MAX_RESULT_LEN <? Z.of_nat (length a) + Z.of_nat (length b) then Err ResultTooLarge
      else Ok (v_array (a ++ b))
  | _, _ =>
      '(x, y) ← need_nums "+" current arg;
      match x, y with
      | Int a, Int b => int_value (a + b)
      | _, _ => float_value x y f64_add
      end
  end.

(** The closure [repeat] of [mul]: [None] when the pair is not a sequence and
    an integer. *)
Definition repeat_seq (seq count : Value) : option OpResult :=
  match as_num count with
  | Some (Int n) =>
      match to_i64 n with
      | None => Some (Err Overflow)
      | Some n =>
          let n := Z.max n 0 in
          match shape seq with
          | SString s =>
              Some (if MAX_RESULT_LEN <? sat_mul (str_len s) n then Err ResultTooLarge
                    else Ok (v_str (str_repeat s n)))
          | SArray a =>
              let len := sat_mul (Z.of_nat (length a)) n in
              Some (if MAX_RESULT_LEN <? len then Err ResultTooLarge
                    else if len =? 0 then Ok (v_array [])
                    else Ok (v_array (list_repeat a n)))
          | _ => None
          end
      end
  | _ => None
  end.

Definition is_seq (v : Value) : bool :=
  match shape v with SString _ | SArray _ => true | _ => false end.

Definition mul_nums (current arg : Value) : OpResult :=
  '(x, y) ← need_nums "*" current arg;
  match x, y with
  | Int a, Int b =>
      if MAX_INT_BITS <? sat_add (bits a) (bits b) then Err IntegerTooWide
      else int_value (a * b)
  | _, _ => float_value x y f64_mul
  end.

Definition mul (current arg : Value) : OpResult :=
  match (if is_seq current then repeat_seq current arg else None) with
  | Some r => r
  | None =>
      match (if is_seq arg then repeat_seq arg current else None) with
      | Some r => r
      | None => mul_nums current arg
      end
  end.

Definition pow (current arg : Value) : OpResult :=
  '(x, y) ← need_nums "**" current arg;
  match x, y with
  | Int a, Int b =>
      if negb (b <? 0) then
        match to_u32 b with
        | None =>
            if bits a =? 0 then int_value 0
            else if (bits a =? 1) && (a <? 0) && Z.testbit b 0 then int_value (-1)
            else if bits a =? 1 then int_value 1
            else Err IntegerTooWide
        | Some exp =>
            let projected := if bits a <=? 1 then 1 else sat_mul (bits a) exp in
            if MAX_INT_BITS <? projected then Err IntegerTooWide else int_value (a ^ exp)
        end
      else float_value x y powf
  | _, _ => float_value x y powf
  end.

Definition modulo (current arg : Value) : OpResult :=
  match shape current with
  | SString _ => Err StringFormatting
  | _ =>
      '(x, y) ← need_nums "%" current arg;
      match x, y with
      | Int a, Int b => m ← ok_or ZeroDivisionError (floor_mod_big a b); int_value m
      | _, _ =>
          '(a, b) ← ok_or Overflow (as_floats x y);
          m ← ok_or ZeroDivisionError (floor_mod_f64 a b);
          num_value (Float m)
      end
  end.

(** [floor] and [ceil]. *)
Definition round (current : Value) (f : f64 -> f64) : OpResult :=
  match as_num current with
  | Some (Int i) => int_value i
  | Some (Float x) =>
      let r := f x in
      if negb (f64_finite r) then Err NotFinite
      else i ← ok_or NotFinite (big_from_f64 r); int_value i
  | None => Err (TypeError "floor/ceil" (type_name current) "None")
  end.

(** [max] and [min]: [worse] is the order that takes the argument. *)
Definition pick (op : string) (current arg : Value) (worse : comparison) : OpResult :=
  match py_cmp current arg with
  | Some o => if bool_decide (o = worse) then Ok arg else Ok current
  | None => Err (type_error op current arg)
  end.

(** ** Bits *)

Definition bitwise (op : string) (current arg : Value) (f : Z -> Z -> Z) : OpResult :=
  match shape current, shape arg with
  | SBool a, SBool b => Ok (v_bool (negb (f (Z.b2z a) (Z.b2z b) =? 0)))
  | _, _ =>
      '(x, y) ← need_nums op current arg;
      match x, y with
      | Int a, Int b => int_value (f a b)
      | _, _ => Err (type_error op current arg)
      end
  end.

(** [merged.insert(k, v)] for each entry. *)
Definition map_extend (m entries : JMap) : JMap :=
  fold_left (fun m kv => map_insert m kv.1 kv.2) entries m.

Definition or (current arg : Value) : OpResult :=
  match shape current, shape arg with
  | SObject a, SObject b => Ok (v_object (map_extend a b))
  | _, _ => bitwise "|" current arg Z.lor
  end.

Definition shift (current arg : Value) (left : bool) : OpResult :=
  let op := if left then "<<"%string else ">>"%string in
  '(x, y) ← need_nums op current arg;
  match x, y with
  | Int a, Int b =>
      if b <? 0 then Err (ValueError "negative shift count")
      else if left then
        count ← ok_or IntegerTooWide (to_u64 b);
        if MAX_INT_BITS <? sat_add (bits a) count then Err IntegerTooWide
        else int_value (Z.shiftl a count)
      else
        match to_u64 b with
        | None => int_value (if a <? 0 then -1 else 0)
        | Some count => int_value (Z.shiftr a count)
        end
  | _, _ => Err (type_error op current arg)
  end.

(** ** Containers *)

Definition remove (current arg : Value) : OpResult :=
  match shape current with
  | SArray items =>
      Ok (v_array (match position (fun v => py_eq v arg) items with
                   | Some i => list_remove i items
                   | None => items
                   end))
  | _ => Err (type_error "remove" current arg)
  end.

(** [map.shift_remove(k)]. *)
Definition map_remove (m : JMap) (k : string) : JMap := filter (fun e => e.1 <> k) m.

Definition pop_list (items : list Value) (i : Z) : OpResult :=
  match to_i64 i with
  | None => if i <? 0 then Err IndexError else Ok (v_array items)
  | Some i =>
      if (0 <=? i) && (Z.of_nat (length items) <=? i) then Ok (v_array items)
      else if i <? 0 then
        let from_end := Z.of_nat (length items) + i in
        if from_end <? 0 then Err IndexError
        else Ok (v_array (list_remove (Z.to_nat from_end) items))
      else Ok (v_array (list_remove (Z.to_nat i) items))
  end.

Definition pop (current arg : Value) : OpResult :=
  match shape current with
  | SArray items =>
      match as_num arg with
      | Some (Int i) => pop_list items i
      | _ => Err (TypeError "pop" "list" (type_name arg))
      end
  | SObject m =>
      match shape arg with
      | SString s => Ok (v_object (map_remove m s))
      | SNull | SBool _ | SNumber _ => Ok (v_object m)
      | SArray _ | SObject _ => Err (TypeError "pop" "dict" (type_name arg))
      end
  | _ => Err (type_error "pop" current arg)
  end.

(** The loop of [update] on a list: an entry not in the original goes last. *)
Fixpoint update_list (original items entries : list Value) : result OpError (list Value) :=
  match entries with
  | [] => Ok items
  | entry :: entries =>
      if negb (is_hashable entry) then Err Unhashable
      else if negb (py_contains original entry) then
        if MAX_RESULT_LEN <=? Z.of_nat (length items) then Err ResultTooLarge
        else update_list original (items ++ [entry]) entries
      else update_list original items entries
  end.

(** The loop of [update] on a dict given pairs, from element number [i]. *)
Fixpoint update_pairs (i : Z) (m : JMap) (elements : list Value) : result OpError JMap :=
  match elements with
  | [] => Ok m
  | element :: elements =>
      kv ← ok_or (TypeError "update" "dict" (type_name element)) (iterate element);
      match kv with
      | [k; v] =>
          match shape k with
          | SString s => update_pairs (i + 1) (map_insert m s v) elements
          | _ => Err (TypeError "update" "dict key" (type_name k))
          end
      | _ =>
          Err (ValueError (str_concat ["dictionary update sequence element #"; pretty i;
                 " has length "; pretty (Z.of_nat (length kv)); "; 2 is required"]))
      end
  end.

Definition update (current arg : Value) : OpResult :=
  match shape current, shape arg with
  | SArray items, _ =>
      entries ← ok_or (TypeError "update" "list" (type_name arg)) (iterate arg);
      if negb (forallb is_hashable items) then Err Unhashable
      else v_array <$> update_list items items entries
  | SObject m, SObject entries => Ok (v_object (map_extend m entries))
  | SObject m, _ =>
      elements ← ok_or (TypeError "update" "dict" (type_name arg)) (iterate arg);
      v_object <$> update_pairs 0 m elements
  | _, _ => Err (type_error "update" current arg)
  end.

(** ** Dispatch *)

Definition apply (op : string) (current arg : Value) : OpResult :=
  if str_eqb op "replace" then Ok arg
  else if str_eqb op "default" then Ok current
  else if str_eqb op "add" then add current arg
  else if str_eqb op "mul" then mul current arg
  else if str_eqb op "pow" then pow current arg
  else if str_eqb op "mod" then modulo current arg
  else if str_eqb op "floor" then round current f64_floor
  else if str_eqb op "ceil" then round current f64_ceil
  else if str_eqb op "max" then pick "max" current arg Lt
  else if str_eqb op "min" then pick "min" current arg Gt
  else if str_eqb op "xor" then bitwise "^" current arg Z.lxor
  else if str_eqb op "or" then or current arg
  else if str_eqb op "and" then bitwise "&" current arg Z.land
  else if str_eqb op "left_shift" then shift current arg true
  else if str_eqb op "right_shift" then shift current arg false
  else if str_eqb op "remove" then remove current arg
  else if str_eqb op "pop" then pop current arg
  else if str_eqb op "update" then update current arg
  else Err (UnknownOperation op).

(** [apply_each]: the index of the operation that failed comes with its
    error. *)
Fixpoint apply_each (index : nat) (value : Value) (operations : list (string * Value))
    : result (nat * OpError) Value :=
  match operations with
  | [] => Ok value
  | (op, arg) :: operations =>
      match apply op value arg with
      | Ok value => apply_each (S index) value operations
      | Err e => Err (index, e)
      end
  end.

Definition apply_all (value : Value) (operations : list (string * Value))
    : result (nat * OpError) Value := apply_each 0 value operations.
End datastore.
