(* ===== verification/DataStoreTheorems.v ===== *)
(** * What the data store's operations compute

    [int_ops_are_pythons]: on integers every operation is Python's, computed
    on [Z], or is refused for the width of its result.  [results_are_bounded]:
    what an operation builds is bounded.  [update_appends_the_new]: [update]
    on a list.  [first_failure]: where a sequence stops. *)

From Stdlib Require Import ZArith Lia Bool Ascii SpecFloat.
From stdpp Require Import base tactics list strings pretty.
From S2P Require Import Prelude Types Json PyValue DataStore.

Create HintDb store discriminated.

(** ** The width of an integer *)

Lemma bits_nonneg z : 0 <= bits z.
Proof. unfold bits. destruct (_ =? _); [lia|]. pose proof (Z.log2_nonneg (Z.abs z)). lia. Qed.

Lemma bits_lower z : z <> 0 -> 2 ^ (bits z - 1) <= Z.abs z.
Proof.
  intros Hz. unfold bits. rewrite (proj2 (Z.eqb_neq z 0)) by done.
  rewrite Z.add_simpl_r. apply Z.log2_spec. lia.
Qed.

(** A magnitude of at least [2^n] is wider than [n] bits. *)
Lemma bits_above n z : 0 <= n -> 2 ^ n <= Z.abs z -> n < bits z.
Proof.
  intros Hn Hz. pose proof (Z.pow_pos_nonneg 2 n). unfold bits.
  rewrite (proj2 (Z.eqb_neq z 0)) by lia. apply Z.log2_le_pow2 in Hz; lia.
Qed.

Lemma bits_pos a : a <> 0 -> 1 <= bits a.
Proof.
  intros Ha. unfold bits. rewrite (proj2 (Z.eqb_neq a 0)) by done.
  pose proof (Z.log2_nonneg (Z.abs a)). lia.
Qed.

Lemma bits_mul a b : a <> 0 -> b <> 0 -> bits a + bits b - 1 <= bits (a * b).
Proof.
  intros Ha Hb. pose proof (bits_lower a Ha). pose proof (bits_lower b Hb).
  pose proof (bits_pos a Ha). pose proof (bits_pos b Hb).
  assert (bits a - 1 + (bits b - 1) < bits (a * b)); [|lia].
  apply bits_above; [lia|]. rewrite Z.abs_mul, Z.pow_add_r by lia.
  pose proof (Z.pow_pos_nonneg 2 (bits a - 1)). pose proof (Z.pow_pos_nonneg 2 (bits b - 1)). nia.
Qed.

Lemma bits_pow a n : 2 <= bits a -> 0 <= n -> (bits a - 1) * n < bits (a ^ n).
Proof.
  intros Ha Hn. apply bits_above; [nia|]. rewrite Z.abs_pow, Z.pow_mul_r by lia.
  apply Z.pow_le_mono_l. split; [apply Z.pow_nonneg; lia|]. apply bits_lower.
  intros ->. done.
Qed.

Lemma bits_shiftl a n : a <> 0 -> 0 <= n -> bits a + n <= bits (Z.shiftl a n).
Proof.
  intros Ha Hn. pose proof (bits_pos a Ha).
  assert (bits a - 1 + n < bits (Z.shiftl a n)); [|lia]. apply bits_above; [lia|].
  rewrite Z.shiftl_mul_pow2, Z.abs_mul, (Z.abs_eq (2 ^ n)), Z.pow_add_r by
    (try apply Z.pow_nonneg; lia).
  pose proof (bits_lower a Ha). pose proof (Z.pow_pos_nonneg 2 n). nia.
Qed.

Lemma bits_small a : bits a <= 1 -> a = 0 \/ a = 1 \/ a = -1.
Proof.
  intros Ha. destruct (decide (2 <= Z.abs a)) as [Hb|]; [|lia].
  pose proof (bits_above 1 a ltac:(lia) Hb). lia.
Qed.

Section theorems.
Context `{JsonText}.

(** ** The reference: Python's integer operations *)

(** The value of [a op b] where Python gives an integer; [None] where the
    operation is not an integer one. *)
Definition python_int (op : string) (a b : Z) : option (result OpError Z) :=
  if str_eqb op "add" then Some (Ok (a + b))
  else if str_eqb op "mul" then Some (Ok (a * b))
  else if str_eqb op "pow" then (if b <? 0 then None else Some (Ok (a ^ b)))
  else if str_eqb op "mod" then
    Some (if b =? 0 then Err ZeroDivisionError else Ok (a mod b))
  else if str_eqb op "xor" then Some (Ok (Z.lxor a b))
  else if str_eqb op "or" then Some (Ok (Z.lor a b))
  else if str_eqb op "and" then Some (Ok (Z.land a b))
  else if str_eqb op "left_shift" then
    Some (if b <? 0 then Err (ValueError "negative shift count") else Ok (a * 2 ^ b))
  else if str_eqb op "right_shift" then
    Some (if b <? 0 then Err (ValueError "negative shift count") else Ok (a / 2 ^ b))
  else None.

(** How an outcome stands to the reference: the same value, the same error, or
    refused for a width over half the bound, a shifted zero apart. *)
Definition agrees (zero_shift : Prop) (spec : result OpError Z) (out : OpResult) : Prop :=
  match spec with
  | Ok z =>
      (exists r, out = Ok r /\ as_num r = Some (Int z) /\ bits z <= MAX_INT_BITS) \/
      (out = Err IntegerTooWide /\ (MAX_INT_BITS < 2 * bits z \/ zero_shift))
  | Err e => out = Err e
  end.

Lemma int_value_ok z : bits z <= MAX_INT_BITS ->
  exists r, int_value z = Ok r /\ as_num r = Some (Int z).
Proof.
  intros Hz. unfold int_value. rewrite (proj2 (Z.ltb_ge _ _)) by done.
  eexists. split; [done|]. by apply as_num_int_value.
Qed.

Lemma int_value_agrees P z : agrees P (Ok z) (int_value z).
Proof.
  cbn. destruct (Z.leb_spec (bits z) MAX_INT_BITS) as [Hz|Hz].
  - left. destruct (int_value_ok z Hz) as (r & -> & Hr). eauto.
  - right. unfold int_value. rewrite (proj2 (Z.ltb_lt _ _)) by done.
    split; [done|]. left. unfold MAX_INT_BITS in *. lia.
Qed.

Lemma need_nums_ints op v w a b :
  as_num v = Some (Int a) -> as_num w = Some (Int b) ->
  bits a <= MAX_INT_BITS -> bits b <= MAX_INT_BITS -> need_nums op v w = Ok (Int a, Int b).
Proof.
  intros Hv Hw Ha Hb. unfold need_nums. rewrite Hv, Hw. cbn [too_wide].
  by rewrite !(proj2 (Z.ltb_ge _ _)) by done.
Qed.

(** A value that is a number is no string, list or dict. *)
Lemma as_num_scalar v n : as_num v = Some n ->
  (exists b, shape v = SBool b) \/ (exists x, shape v = SNumber x).
Proof. unfold as_num. destruct (shape v); try done; eauto. Qed.

Ltac scalar Hv := destruct (as_num_scalar _ _ Hv) as [[? ?E]|[? ?E]].

Section int_ops.
Variables (v w : Value) (a b : Z).
Hypothesis Hv : as_num v = Some (Int a).
Hypothesis Hw : as_num w = Some (Int b).
Hypothesis Ha : bits a <= MAX_INT_BITS.
Hypothesis Hb : bits b <= MAX_INT_BITS.

Lemma add_ints P : agrees P (Ok (a + b)) (add v w).
Proof.
  unfold add. rewrite (need_nums_ints _ v w a b) by done.
  scalar Hv; rewrite E; apply int_value_agrees.
Qed.

Lemma mul_ints P : agrees P (Ok (a * b)) (mul v w).
Proof.
  assert (is_seq v = false) as Es by (unfold is_seq; scalar Hv; by rewrite E).
  assert (is_seq w = false) as Ew by (unfold is_seq; scalar Hw; by rewrite E).
  unfold mul, mul_nums. rewrite Es, Ew, (need_nums_ints _ v w a b) by done. cbn -[agrees bits].
  destruct (Z.ltb_spec MAX_INT_BITS (sat_add (bits a) (bits b))) as [Hs|_];
    [|apply int_value_agrees].
  right. split; [done|]. left. unfold sat_add in Hs.
  assert (a <> 0) by (intros ->; unfold MAX_INT_BITS in *; cbn in Hs; lia).
  assert (b <> 0) by (intros ->; unfold MAX_INT_BITS in *; cbn [bits Z.eqb] in Hs; lia).
  pose proof (bits_mul a b). unfold MAX_INT_BITS in *. lia.
Qed.

Lemma pow_ints P : 0 <= b -> agrees P (Ok (a ^ b)) (pow v w).
Proof.
  intros Hb0. unfold pow. rewrite (need_nums_ints _ v w a b) by done. cbn -[agrees bits Z.pow].
  rewrite (proj2 (Z.ltb_ge _ _)) by done. cbn [negb]. unfold to_u32.
  rewrite (proj2 (Z.leb_le 0 b)) by done. cbn [andb].
  destruct (Z.leb_spec b u32_max) as [Hu|Hu].
  - destruct (Z.leb_spec (bits a) 1) as [Hs|Hs]; [apply int_value_agrees|].
    destruct (Z.ltb_spec MAX_INT_BITS (sat_mul (bits a) b)) as [Hm|_]; [|apply int_value_agrees].
    right. split; [done|]. left. unfold sat_mul in Hm.
    pose proof (bits_pow a b). unfold MAX_INT_BITS in *. nia.
  - unfold u32_max in Hu. destruct (Z.leb_spec (bits a) 1) as [Hs|Hs].
    + destruct (bits_small a Hs) as [->|[->| ->]].
      * rewrite Z.pow_0_l by lia. apply int_value_agrees.
      * rewrite Z.pow_1_l by lia. apply int_value_agrees.
      * change (bits (-1)) with 1. cbn [Z.eqb Pos.eqb Z.ltb Z.compare andb].
        try rewrite Z.bit0_odd. destruct (Z.odd b) eqn:Eo.
        { rewrite (Z.pow_opp_odd 1) by (by apply Z.odd_spec).
          rewrite Z.pow_1_l by lia. apply int_value_agrees. }
        rewrite (Z.pow_opp_even 1) by (apply Z.even_spec; by rewrite <- Z.negb_odd, Eo).
        rewrite Z.pow_1_l by lia. apply int_value_agrees.
    + rewrite (proj2 (Z.eqb_neq (bits a) 0)), (proj2 (Z.eqb_neq (bits a) 1)) by lia. cbn [andb].
      right. split; [done|]. left. pose proof (bits_pow a b). unfold MAX_INT_BITS in *. nia.
Qed.

Lemma mod_ints P : agrees P (if b =? 0 then Err ZeroDivisionError else Ok (a mod b)) (modulo v w).
Proof.
  assert (modulo v w = m ← ok_or ZeroDivisionError (floor_mod_big a b); int_value m) as ->.
  { unfold modulo. scalar Hv; by rewrite E, (need_nums_ints _ v w a b). }
  rewrite floor_mod_big_spec. destruct (b =? 0); [done|apply int_value_agrees].
Qed.

Lemma bitwise_ints P op f :
  (forall x y, 0 <= f (Z.b2z x) (Z.b2z y) < 2) -> agrees P (Ok (f a b)) (bitwise op v w f).
Proof.
  intros Hf. unfold bitwise. rewrite (need_nums_ints _ v w a b) by done.
  scalar Hv; rewrite E; [|apply int_value_agrees].
  scalar Hw; rewrite E0; [|apply int_value_agrees].
  unfold as_num in Hv, Hw. rewrite E in Hv. rewrite E0 in Hw. injection Hv as <-. injection Hw as <-.
  left. specialize (Hf x x0). eexists. split; [done|]. unfold as_num, v_bool. rewrite shape_make.
  destruct (Z.eqb_spec (f (Z.b2z x) (Z.b2z x0)) 0) as [->|Hn]; [done|].
  by replace (f (Z.b2z x) (Z.b2z x0)) with 1 by lia.
Qed.

Lemma or_ints P : agrees P (Ok (Z.lor a b)) (or v w).
Proof.
  unfold or. assert (agrees P (Ok (Z.lor a b)) (bitwise "|" v w Z.lor)) as Hor.
  { apply bitwise_ints. by intros [] []. }
  scalar Hv; by rewrite E.
Qed.

Lemma shift_left_ints :
  agrees (a = 0) (if b <? 0 then Err (ValueError "negative shift count") else Ok (a * 2 ^ b))
    (shift v w true).
Proof.
  unfold shift. rewrite (need_nums_ints _ v w a b) by done. cbn -[agrees bits].
  destruct (Z.ltb_spec b 0); [done|]. unfold to_u64. rewrite (proj2 (Z.leb_le 0 b)) by done.
  rewrite <- Z.shiftl_mul_pow2 by done. cbn [andb].
  assert (Hwide : MAX_INT_BITS < bits a + b -> MAX_INT_BITS < 2 * bits (Z.shiftl a b) \/ a = 0).
  { intros Hs. destruct (decide (a = 0)) as [|Hn]; [by right|left].
    pose proof (bits_shiftl a b Hn). unfold MAX_INT_BITS in *. lia. }
  pose proof (bits_nonneg a).
  destruct (Z.leb_spec b u64_max) as [Hu|Hu]; cbn [ok_or mbind result_bind].
  - unfold sat_add. destruct (Z.ltb_spec MAX_INT_BITS (Z.min u64_max (bits a + b)));
      [|apply int_value_agrees]. right. split; [done|]. apply Hwide. lia.
  - right. split; [done|]. apply Hwide. unfold MAX_INT_BITS, u64_max in *. lia.
Qed.

Lemma shift_right_ints P :
  agrees P (if b <? 0 then Err (ValueError "negative shift count") else Ok (a / 2 ^ b))
    (shift v w false).
Proof.
  unfold shift. rewrite (need_nums_ints _ v w a b) by done. cbn -[agrees bits].
  destruct (Z.ltb_spec b 0); [done|]. unfold to_u64. rewrite (proj2 (Z.leb_le 0 b)) by done.
  rewrite <- Z.shiftr_div_pow2 by done. cbn [andb].
  destruct (Z.leb_spec b u64_max) as [Hu|Hu]; [apply int_value_agrees|].
  replace (if a <? 0 then -1 else 0) with (Z.shiftr a b); [apply int_value_agrees|].
  assert (Z.abs a < 2 ^ b) as Hab.
  { destruct (Z.lt_ge_cases (Z.abs a) (2 ^ b)) as [|Hge]; [done|].
    pose proof (bits_above b a). unfold MAX_INT_BITS, u64_max in *. lia. }
  rewrite Z.shiftr_div_pow2 by done. destruct (Z.ltb_spec a 0).
  - symmetry. apply (Z.div_unique _ _ _ (a + 2 ^ b)); lia.
  - apply Z.div_small. lia.
Qed.
End int_ops.

Lemma str_eqb_eq x y : str_eqb x y = true -> x = y.
Proof. apply bool_decide_eq_true. Qed.

(** One test of a chain of operation names. *)
Ltac op_case op :=
  match goal with
  | |- context [str_eqb op ?s] =>
      let E := fresh "E" in destruct (str_eqb op s) eqn:E;
      [apply str_eqb_eq in E; subst op|clear E]
  | H : context [str_eqb op ?s] |- _ =>
      let E := fresh "E" in destruct (str_eqb op s) eqn:E;
      [apply str_eqb_eq in E; subst op|clear E]
  end.

(** C35: On two integers no wider than the bound, every arithmetic, bitwise and
    shift operation gives the value Python gives on unbounded integers (the
    remainder follows the divisor, a right shift rounds down, a bitwise operation
    is on the infinite two's complement) or Python's error; the one other outcome
    is [IntegerTooWide], only for a result over half the bound or for a zero shifted
    left. *)
Theorem int_ops_are_pythons op v w a b spec :
  as_num v = Some (Int a) -> as_num w = Some (Int b) ->
  bits a <= MAX_INT_BITS -> bits b <= MAX_INT_BITS ->
  python_int op a b = Some spec ->
  agrees (op = "left_shift" /\ a = 0) spec (apply op v w).
Proof.
  intros Hv Hw Ha Hb. unfold python_int.
  op_case op; [intros [= <-]; by apply (add_ints v w)|].
  op_case op; [intros [= <-]; by apply (mul_ints v w)|].
  op_case op; [destruct (Z.ltb_spec b 0); [done|]; intros [= <-]; by apply (pow_ints v w)|].
  op_case op; [intros [= <-]; by apply (mod_ints v w)|].
  op_case op; [intros [= <-]; apply (bitwise_ints v w); try done; by intros [] []|].
  op_case op; [intros [= <-]; by apply (or_ints v w)|].
  op_case op; [intros [= <-]; apply (bitwise_ints v w); try done; by intros [] []|].
  op_case op; [|op_case op; [intros [= <-]; by apply (shift_right_ints v w)|done]].
  intros [= <-]. pose proof (shift_left_ints v w a b Hv Hw Ha Hb) as Hs.
  change (apply "left_shift" v w) with (shift v w true). destruct (b <? 0); [done|].
  destruct Hs as [Hs|[Hs [Hz|Hz]]]; [by left| |]; right; (split; [done|]); [by left|by right].
Qed.

(** ** What an operation builds is bounded *)

(** The number of elements of an iterable. *)
Definition alen (v : Value) : Z :=
  match iterate v with Some l => Z.of_nat (length l) | None => 0 end.

Definition bounded (v w r : Value) : Prop :=
  match shape r with
  | SString s => str_len s <= MAX_RESULT_LEN
  | SArray l => Z.of_nat (length l) <= Z.max MAX_RESULT_LEN (alen v)
  | SObject m => Z.of_nat (length m) <= alen v + alen w
  | SNumber _ => forall z, as_num r = Some (Int z) -> bits z <= MAX_INT_BITS
  | _ => True
  end.

Lemma int_value_bounded v w z r : int_value z = Ok r -> bounded v w r.
Proof.
  unfold int_value. destruct (Z.ltb_spec MAX_INT_BITS (bits z)) as [|Hz]; [done|].
  cbn [num_to_value ok_or]. intros E. assert (as_num r = Some (Int z)) as Er.
  { apply as_num_int_value. cbn. by injection E as <-. }
  injection E as <-. unfold bounded. rewrite shape_make. intros z'. rewrite Er. by intros [= <-].
Qed.

Lemma float_value_of_bounded v w f r : num_value (Float f) = Ok r -> bounded v w r.
Proof.
  unfold num_value. destruct (negb _); [done|]. intros Hr. apply ok_or_ok in Hr.
  pose proof (as_num_float_value f r Hr) as Hn. cbn in Hr.
  destruct (py_repr_f64 f); [|done]. cbn in Hr. destruct (parse_number _) as [n|]; [|done].
  cbn in Hr. injection Hr as <-. unfold bounded. rewrite shape_make. intros z Hz. by destruct (Hn z).
Qed.

Lemma float_value_bounded v w x y f r : float_value x y f = Ok r -> bounded v w r.
Proof. unfold float_value. intros Hr. inv_ok. destruct a. by eapply float_value_of_bounded. Qed.

#[local] Hint Resolve int_value_bounded float_value_of_bounded float_value_bounded : store.

Lemma length_map_insert (m : JMap) k v : (length (map_insert m k v) <= S (length m))%nat.
Proof. induction m as [|[k' v'] m IH]; cbn; [lia|]. destruct (decide _); cbn; lia. Qed.

Lemma length_map_extend m e : (length (map_extend m e) <= length m + length e)%nat.
Proof.
  unfold map_extend. revert m. induction e as [|[k v] e IH]; intros m; cbn [fold_left length]; [lia|].
  pose proof (IH (map_insert m k v)). pose proof (length_map_insert m k v). cbn [fst snd] in *. lia.
Qed.

Lemma length_update_pairs i m l m' :
  update_pairs i m l = Ok m' -> (length m' <= length m + length l)%nat.
Proof.
  revert i m. induction l as [|x l IH]; intros i m; cbn [update_pairs length].
  { intros [= ->]. lia. }
  intros Hu. inv_ok. destruct a as [|k [|v [|]]]; try done. destruct (shape k); try done.
  apply IH in Hu. pose proof (length_map_insert m s v). lia.
Qed.

Lemma length_update_list original items l r :
  update_list original items l = Ok r ->
  Z.of_nat (length r) <= Z.max MAX_RESULT_LEN (Z.of_nat (length items)).
Proof.
  revert items. induction l as [|x l IH]; intros items; cbn [update_list].
  { intros [= ->]. lia. }
  destruct (negb _); [done|]. destruct (negb _); [|apply IH].
  destruct (Z.leb_spec MAX_RESULT_LEN (Z.of_nat (length items))); [done|].
  intros Hu. apply IH in Hu. rewrite length_app in Hu. cbn [length] in Hu. lia.
Qed.

Lemma alen_array v l : shape v = SArray l -> alen v = Z.of_nat (length l).
Proof. intros Hv. unfold alen, iterate. by rewrite Hv. Qed.

Lemma alen_object v m : shape v = SObject m -> alen v = Z.of_nat (length m).
Proof. intros Hv. unfold alen, iterate. by rewrite Hv, !length_fmap. Qed.

Lemma alen_nonneg v : 0 <= alen v.
Proof. unfold alen. destruct (iterate v); lia. Qed.

Lemma array_bounded v w l :
  Z.of_nat (length l) <= Z.max MAX_RESULT_LEN (alen v) -> bounded v w (v_array l).
Proof. unfold bounded, v_array. by rewrite shape_make. Qed.

Lemma object_bounded v w m :
  Z.of_nat (length m) <= alen v + alen w -> bounded v w (v_object m).
Proof. unfold bounded, v_object. by rewrite shape_make. Qed.

Lemma string_bounded v w s : str_len s <= MAX_RESULT_LEN -> bounded v w (v_str s).
Proof. unfold bounded, v_str. by rewrite shape_make. Qed.

Lemma str_len_append a b : str_len (String.append a b) = str_len a + str_len b.
Proof.
  unfold str_len. induction a as [|c a IH]; [done|].
  change (String.append (String c a) b) with (String c (String.append a b)). cbn [String.length]. lia.
Qed.

Lemma str_len_repeat s n : 0 <= n -> str_len (str_repeat s n) = str_len s * n.
Proof.
  intros Hn. unfold str_repeat. destruct (str_eqb s EmptyString) eqn:E.
  { apply str_eqb_eq in E as ->. done. }
  rewrite <- (Z2Nat.id n) at 2 by done. induction (Z.to_nat n) as [|k IH].
  { change (0 = str_len s * 0). lia. }
  change (Nat.iter (S k) _ _) with (String.append s (Nat.iter k (String.append s) EmptyString)).
  rewrite str_len_append, IH. lia.
Qed.

Lemma length_list_repeat {A} (l : list A) n :
  0 <= n -> Z.of_nat (length (list_repeat l n)) = Z.of_nat (length l) * n.
Proof.
  intros Hn. destruct l as [|x l]; [done|]. unfold list_repeat.
  rewrite <- (Z2Nat.id n) at 2 by done. induction (Z.to_nat n) as [|k IH]; [cbn; lia|].
  change (Nat.iter (S k) _ _) with ((x :: l) ++ Nat.iter k (app (x :: l)) []).
  rewrite length_app, Nat2Z.inj_add, IH. lia.
Qed.

Lemma length_list_remove {A} i (l : list A) : (length (list_remove i l) <= length l)%nat.
Proof. unfold list_remove. rewrite length_app, length_take, length_drop. lia. Qed.

(** Close a branch that ends in a computation on two numbers. *)
Ltac by_nums :=
  let Hr := fresh "Hr" in
  intros Hr; apply bind_ok in Hr as ([[?i|?f] [?i|?f]] & _ & Hr); cbv iota beta in Hr;
  try done; eauto with store.

Lemma add_bounded v w r : add v w = Ok r -> bounded v w r.
Proof.
  unfold add. destruct (shape v) as [| | |s|l|] eqn:Ev, (shape w) as [| | |s'|l'|] eqn:Ew.
  all: try by_nums.
  - destruct (Z.ltb_spec MAX_RESULT_LEN (str_len s + str_len s')); [done|]. intros [= <-].
    apply string_bounded. rewrite str_len_append. lia.
  - destruct (Z.ltb_spec MAX_RESULT_LEN (Z.of_nat (length l) + Z.of_nat (length l'))); [done|].
    intros [= <-]. apply array_bounded. rewrite length_app. lia.
Qed.

Lemma repeat_seq_bounded v w seq count r : repeat_seq seq count = Some (Ok r) -> bounded v w r.
Proof.
  unfold repeat_seq. destruct (as_num count) as [[n|]|]; try done. destruct (to_i64 n) as [k|]; [|done].
  assert (Hsat : forall len, 0 <= len -> sat_mul len (Z.max k 0) <= MAX_RESULT_LEN ->
            len * Z.max k 0 <= MAX_RESULT_LEN).
  { intros len Hl. unfold sat_mul, MAX_RESULT_LEN, u64_max. lia. }
  destruct (shape seq) as [| | |s|l|]; try done.
  - destruct (Z.ltb_spec MAX_RESULT_LEN (sat_mul (str_len s) (Z.max k 0))); [done|].
    intros [= <-]. apply string_bounded. rewrite str_len_repeat by lia. apply Hsat; [|done].
    unfold str_len. lia.
  - destruct (Z.ltb_spec MAX_RESULT_LEN (sat_mul (Z.of_nat (length l)) (Z.max k 0))); [done|].
    destruct (_ =? 0); intros [= <-]; apply array_bounded; [cbn; unfold MAX_RESULT_LEN; lia|].
    rewrite length_list_repeat by lia. specialize (Hsat (Z.of_nat (length l))). lia.
Qed.

Lemma mul_bounded v w r : mul v w = Ok r -> bounded v w r.
Proof.
  unfold mul. destruct (if is_seq v then _ else _) as [o|] eqn:E1.
  { intros ->. destruct (is_seq v); [|done]. by eapply repeat_seq_bounded. }
  destruct (if is_seq w then _ else _) as [o|] eqn:E2.
  { intros ->. destruct (is_seq w); [|done]. by eapply repeat_seq_bounded. }
  unfold mul_nums. intros Hr. apply bind_ok in Hr as ([[i|f] [j|g]] & _ & Hr); cbv iota beta in Hr;
    [|eauto with store..].
  destruct (_ <? _); [done|]. eauto with store.
Qed.

Lemma pow_bounded v w r : pow v w = Ok r -> bounded v w r.
Proof.
  unfold pow. intros Hr. apply bind_ok in Hr as ([[i|f] [j|g]] & _ & Hr); cbv iota beta in Hr;
    [|eauto with store..].
  destruct (negb _); [|eauto with store]. destruct (to_u32 j).
  - destruct (_ <? _); [done|]. eauto with store.
  - destruct (_ =? _); [eauto with store|]. destruct (_ && _); [eauto with store|].
    destruct (_ =? _); [eauto with store|done].
Qed.

Lemma modulo_bounded v w r : modulo v w = Ok r -> bounded v w r.
Proof.
  assert (Hn : ('(x, y) ← need_nums "%" v w;
                match x, y with
                | Int a, Int b => m ← ok_or ZeroDivisionError (floor_mod_big a b); int_value m
                | _, _ =>
                    '(a, b) ← ok_or Overflow (as_floats x y);
                    m ← ok_or ZeroDivisionError (floor_mod_f64 a b);
                    num_value (Float m)
                end) = Ok r -> bounded v w r).
  { intros Hr. apply bind_ok in Hr as ([[i|f] [j|g]] & _ & Hr); cbv iota beta in Hr;
      repeat (apply bind_ok in Hr as (? & _ & Hr)); eauto with store.
    all: destruct x; apply bind_ok in Hr as (? & _ & Hr); eauto with store. }
  unfold modulo. destruct (shape v); done.
Qed.

Lemma round_bounded v w f r : round v f = Ok r -> bounded v w r.
Proof.
  unfold round. destruct (as_num v) as [[i|x]|]; [eauto with store| |done].
  destruct (negb _); [done|]. intros Hr. apply bind_ok in Hr as (? & _ & Hr). eauto with store.
Qed.

Lemma bitwise_bounded op v w f r : bitwise op v w f = Ok r -> bounded v w r.
Proof.
  unfold bitwise. destruct (shape v) eqn:Ev, (shape w) eqn:Ew; try by_nums.
  intros [= <-]. unfold bounded, v_bool. by rewrite shape_make.
Qed.

Lemma or_bounded v w r : or v w = Ok r -> bounded v w r.
Proof.
  unfold or. destruct (shape v) as [| | | | |m] eqn:Ev, (shape w) as [| | | | |e] eqn:Ew;
    try apply bitwise_bounded.
  intros [= <-]. apply object_bounded. rewrite (alen_object _ _ Ev), (alen_object _ _ Ew).
  pose proof (length_map_extend m e). lia.
Qed.

Lemma shift_bounded v w left r : shift v w left = Ok r -> bounded v w r.
Proof.
  unfold shift. intros Hr. apply bind_ok in Hr as ([[i|f] [j|g]] & _ & Hr); cbv iota beta in Hr; try done.
  destruct (_ <? _); [done|]. destruct left.
  - apply bind_ok in Hr as (? & _ & Hr). destruct (_ <? _); [done|]. eauto with store.
  - destruct (to_u64 j); eauto with store.
Qed.

Lemma remove_bounded v w r : remove v w = Ok r -> bounded v w r.
Proof.
  unfold remove. destruct (shape v) as [| | | |l|] eqn:Ev; try done. intros [= <-].
  apply array_bounded. rewrite (alen_array _ _ Ev). destruct (position _ _) as [i|]; [|lia].
  pose proof (length_list_remove i l). lia.
Qed.

Lemma pop_bounded v w r : pop v w = Ok r -> bounded v w r.
Proof.
  unfold pop. destruct (shape v) as [| | | |l|m] eqn:Ev; try done.
  - destruct (as_num w) as [[i|]|]; try done. unfold pop_list.
    assert (Hrem : forall i, bounded v w (v_array (list_remove i l))).
    { intros k. apply array_bounded. rewrite (alen_array _ _ Ev).
      pose proof (length_list_remove k l). lia. }
    assert (bounded v w (v_array l)) by (apply array_bounded; rewrite (alen_array _ _ Ev); lia).
    destruct (to_i64 i); repeat (destruct (_ : bool)); try done; by intros [= <-].
  - assert (forall m', (length m' <= length m)%nat -> bounded v w (v_object m')) as Hm.
    { intros m' Hl. apply object_bounded. rewrite (alen_object _ _ Ev). pose proof (alen_nonneg w). lia. }
    destruct (shape w); try done; intros [= <-]; apply Hm; [done..|]. apply length_filter.
Qed.

Lemma update_bounded v w r : update v w = Ok r -> bounded v w r.
Proof.
  assert (Hok : forall A (f : A -> Value) (m : result OpError A),
            (f <$> m) = Ok r -> exists x, m = Ok x /\ r = f x).
  { intros A f [x|]; [|done]. intros [= <-]. eauto. }
  assert (Hpairs : forall m, shape v = SObject m ->
            (elements ← ok_or (TypeError "update" "dict" (type_name w)) (iterate w);
             v_object <$> update_pairs 0 m elements) = Ok r -> bounded v w r).
  { intros m Ev Hr. apply bind_ok in Hr as (l & Hl & Hr). apply ok_or_ok in Hl.
    apply Hok in Hr as (m' & Hu & ->). apply object_bounded. apply length_update_pairs in Hu.
    rewrite (alen_object _ _ Ev). unfold alen. rewrite Hl. lia. }
  unfold update. destruct (shape v) as [| | | |l|m] eqn:Ev; try done.
  - intros Hr. apply bind_ok in Hr as (es & _ & Hr). destruct (negb _); [done|].
    apply Hok in Hr as (l' & Hu & ->). apply array_bounded. rewrite (alen_array _ _ Ev).
    by eapply length_update_list.
  - destruct (shape w) as [| | | | |e] eqn:Ew; try (by apply Hpairs).
    intros [= <-]. apply object_bounded. rewrite (alen_object _ _ Ev), (alen_object _ _ Ew).
    pose proof (length_map_extend m e). lia.
Qed.

(** C36: Whatever a client asks, an operation returns one of its two operands or
    builds something bounded: a string or a list of at most [MAX_RESULT_LEN] (or no
    longer than the list it was given), an integer of at most [MAX_INT_BITS], an
    object with no more entries than the operands have together. *)
Theorem results_are_bounded op v w r :
  apply op v w = Ok r -> r = v \/ r = w \/ bounded v w r.
Proof.
  assert (Hpick : forall name o, pick name v w o = Ok r -> r = v \/ r = w \/ bounded v w r).
  { intros name o. unfold pick. destruct (py_cmp v w) as [c|]; [|done].
    destruct (bool_decide _); intros [= <-]; [right; by left|by left]. }
  assert (Hb : forall P : Prop, (P -> bounded v w r) -> P -> r = v \/ r = w \/ bounded v w r) by tauto.
  unfold apply. op_case op; [intros [= <-]; by auto|]. op_case op; [intros [= <-]; by auto|].
  op_case op; [apply Hb, add_bounded|]. op_case op; [apply Hb, mul_bounded|].
  op_case op; [apply Hb, pow_bounded|]. op_case op; [apply Hb, modulo_bounded|].
  op_case op; [apply Hb, round_bounded|]. op_case op; [apply Hb, round_bounded|].
  op_case op; [apply Hpick|]. op_case op; [apply Hpick|].
  op_case op; [apply Hb, bitwise_bounded|]. op_case op; [apply Hb, or_bounded|].
  op_case op; [apply Hb, bitwise_bounded|]. op_case op; [apply Hb, shift_bounded|].
  op_case op; [apply Hb, shift_bounded|]. op_case op; [apply Hb, remove_bounded|].
  op_case op; [apply Hb, pop_bounded|]. op_case op; [apply Hb, update_bounded|]. done.
Qed.

(** ** Lists *)

(** [update] on a list keeps it and appends, in order, the entries that are
    not Python-equal to one of the elements it started with; two equal entries
    that are both new are both appended. *)
Theorem update_appends_the_new v w items entries :
  shape v = SArray items -> iterate w = Some entries ->
  forallb is_hashable items = true -> forallb is_hashable entries = true ->
  Z.of_nat (length items) + Z.of_nat (length entries) <= MAX_RESULT_LEN ->
  apply "update" v w =
    Ok (v_array (items ++ filter (fun e => py_contains items e = false) entries)).
Proof.
  intros Hv Hw Hi He Hl. change (apply "update" v w) with (update v w).
  unfold update. rewrite Hv, Hw. cbn [ok_or mbind result_bind]. rewrite Hi. cbn [negb].
  assert (Hgo : forall kept, Z.of_nat (length kept) + Z.of_nat (length entries) <= MAX_RESULT_LEN ->
            update_list items kept entries =
              Ok (kept ++ filter (fun e => py_contains items e = false) entries)).
  { clear Hw Hl. induction entries as [|e es IH]; intros kept Hk; cbn [update_list].
    { by rewrite filter_nil, app_nil_r. }
    cbn [forallb] in He. apply andb_true_iff in He as [-> He]. cbn [negb].
    rewrite filter_cons. cbn [length] in Hk. destruct (py_contains items e) eqn:E; cbn [negb].
    - rewrite decide_False by done. apply IH; [done|lia].
    - rewrite decide_True by done. rewrite (proj2 (Z.leb_gt _ _)) by lia.
      rewrite IH by (done || (rewrite length_app; cbn [length]; lia)).
      by rewrite <- (assoc_L (++)). }
  by rewrite Hgo.
Qed.

(** ** A sequence stops at its first failure *)

Lemma apply_each_shift k v ops :
  apply_each k v ops = match apply_each 0 v ops with Ok r => Ok r | Err (i, e) => Err ((k + i)%nat, e) end.
Proof.
  revert k v. induction ops as [|[op arg] ops IH]; intros k v; [done|]. cbn [apply_each].
  destruct (apply op v arg) as [u|e]; [|by rewrite Nat.add_0_r].
  rewrite (IH (S k)), (IH 1%nat). destruct (apply_each 0 u ops) as [|[i e]]; [done|].
  by rewrite Nat.add_succ_r.
Qed.

(** A sequence of operations fails at index [i] exactly when the operations
    before [i] all succeed, one after the other, and the one at [i] fails on the
    value they leave; the error is that operation's. *)
Theorem first_failure v ops i e :
  apply_all v ops = Err (i, e) <->
  exists u op arg, ops !! i = Some (op, arg) /\ apply_all v (take i ops) = Ok u /\
    apply op u arg = Err e.
Proof.
  unfold apply_all. revert v i. induction ops as [|[op arg] ops IH]; intros v i.
  { split; [done|]. by intros (u & op & arg & Hl & _). }
  cbn [apply_each]. destruct (apply op v arg) as [u|e'] eqn:E.
  - rewrite apply_each_shift. destruct i as [|i].
    + split; [by destruct (apply_each 0 u ops) as [|[]]|].
      intros (u' & op' & arg' & [= <- <-] & [= <-] & Hf). congruence.
    + trans (apply_each 0 u ops = Err (i, e)).
      { destruct (apply_each 0 u ops) as [|[j e']]; cbn; split; congruence. }
      rewrite IH. cbn [take lookup list_lookup apply_each]. rewrite E.
      split; intros (u' & op' & arg' & Hl & Ht & Hf); exists u', op', arg'.
      * rewrite apply_each_shift, Ht. done.
      * rewrite apply_each_shift in Ht. by destruct (apply_each 0 u (take i ops)) as [|[]]; simplify_eq.
  - split.
    + intros [= <- <-]. by exists v, op, arg.
    + intros (u & op' & arg' & Hl & Ht & Hf). destruct i as [|i].
      * cbn in Hl, Ht. simplify_eq. congruence.
      * cbn [take apply_each] in Ht. by rewrite E in Ht.
Qed.
End theorems.

(** ** Witnesses *)

#[local] Existing Instance tree_json.
#[local] Existing Instance tree_text.

Definition demo_bits : Value := JNode (SNumber (inl (2 ^ 71 + 1))).

Lemma int_ops_are_pythons_witness :
  python_int "mod" (-7) 3 = Some (Ok 2) /\
  agrees ("mod"%string = "left_shift"%string /\ -7 = 0) (Ok 2) (apply "mod" (v_int (-7)) (v_int 3)).
Proof.
  split; [reflexivity|].
  apply (int_ops_are_pythons "mod" (v_int (-7)) (v_int 3) (-7) 3); [reflexivity..|by vm_compute|by vm_compute|reflexivity].
Defined.

Lemma results_are_bounded_witness :
  exists r, apply "or" demo_bits (v_int 6) = Ok r /\
    (r = demo_bits \/ r = v_int 6 \/ bounded demo_bits (v_int 6) r).
Proof.
  eexists. split; [reflexivity|].
  apply (results_are_bounded "or"). reflexivity.
Defined.

Lemma update_appends_the_new_witness :
  apply "update" (v_array [v_int 1; v_bool false]) (v_array [v_bool true; v_int 2; v_int 2]) =
  Ok (v_array ([v_int 1; v_bool false] ++ [v_int 2; v_int 2])).
Proof.
  rewrite (update_appends_the_new _ _ [v_int 1; v_bool false] [v_bool true; v_int 2; v_int 2]);
    [reflexivity..|unfold MAX_RESULT_LEN; cbn; lia].
Defined.

(** A shifted zero is refused for a width it does not have, and an exact power of
    two is refused from half the bound on. *)
Example zero_shift_refused :
  apply "left_shift" (v_int 0) (v_int 65537) = Err IntegerTooWide.
Proof. reflexivity. Qed.

Example power_of_two_refused :
  apply "pow" (v_int 2) (v_int 32769) = Err IntegerTooWide /\ bits (2 ^ 32769) = 32770.
Proof. split; [reflexivity|by vm_compute]. Qed.
