(* ===== verification/SlotData.v ===== *)
(** * [crates/pahoa-room/src/slot_data.rs]: rendering [slot_data] to JSON

    The writer pushes text piece by piece; [value_of] is the JSON value it
    means, and [written_is_the_value] says the text is that value's.  The end of the
    file is what the room serves of its data packages ([datapackage.rs]). *)

From Stdlib Require Import ZArith Lia Bool Ascii.
From stdpp Require Import base tactics list strings pretty gmap sorting.
From S2P Require Import Prelude PyObj Types Datapackage Json PyValue.

Section slot_data.
Context `{JsonText}.

(** [f64::from_bits(bits)] rendered, or [null]. *)
Definition float (bits : Z) : string := default "null"%string (py_repr_f64 (f64_of_bits bits)).

Definition unrepresentable (name : string) : string := str_concat ["<unrepresentable "; name; ">"].

(** The text a key is written as, before it is escaped. *)
Definition key_text (k : PyObj) : string :=
  match k with
  | PStr s => s
  | PInt i => pretty i
  | PBig b => to_string b
  | PBool true => "true"
  | PBool false => "false"
  | PNone => "null"
  | PFloat f => float f
  | other => unrepresentable (type_name other)
  end.

Definition key (k : PyObj) : string := string_text (key_text k).

(** The loop over the items: a comma before every one but the first. *)
Definition comma_separated (l : list string) : string := String.concat "," l.

Fixpoint write (o : PyObj) : string :=
  match o with
  | PNone => "null"
  | PBool true => "true"
  | PBool false => "false"
  | PInt i => pretty i
  | PBig b => to_string b
  | PFloat f => float f
  | PStr s => string_text s
  | PList items | PTuple items | PSet items =>
      str_concat ["["; comma_separated (write <$> items); "]"]
  | PDict pairs =>
      str_concat ["{"; comma_separated ((fun kv => str_concat [key kv.1; ":"; write kv.2]) <$> pairs); "}"]
  | PInstance class _ => string_text (unrepresentable (class_text class))
  | PGlobal class => string_text (unrepresentable (class_text class))
  end.

(** [RawValue::from_string] of what was written. *)
Definition to_json (o : PyObj) : string := write o.

(** ** The value that is meant *)

Definition int_json (z : Z) : Value := make (SNumber (num_of_big z)).

Definition float_json (bits : Z) : Value :=
  default v_null (num_to_value (Float (f64_of_bits bits))).

Fixpoint value_of (o : PyObj) : Value :=
  match o with
  | PNone => v_null
  | PBool b => make (SBool b)
  | PInt i => int_json i
  | PBig b => int_json (big_val b)
  | PFloat f => float_json f
  | PStr s => v_string s
  | PList items | PTuple items | PSet items => make (SArray (value_of <$> items))
  | PDict pairs => make (SObject ((fun kv => (key_text kv.1, value_of kv.2)) <$> pairs))
  | PInstance class _ => v_string (unrepresentable (class_text class))
  | PGlobal class => v_string (unrepresentable (class_text class))
  end.

(** The wide integers of a value have the form the pickle reader gives them, and
    the text of every float is read back as a number. *)
Fixpoint renderable (o : PyObj) : Prop :=
  match o with
  | PBig b => big_wf b
  | PFloat f => forall s, py_repr_f64 (f64_of_bits f) = Some s -> is_Some (parse_number s)
  | PList items | PTuple items | PSet items => foldr (fun x P => renderable x /\ P) True items
  | PDict pairs => foldr (fun kv P => renderable kv.2 /\ P) True pairs
  | _ => True
  end.

Lemma text_string s : json_text (v_string s) = string_text s.
Proof. unfold v_string. by rewrite json_text_of, shape_make. Qed.

Lemma text_null : json_text v_null = "null"%string.
Proof. unfold v_null. by rewrite json_text_of, shape_make. Qed.

Lemma text_bool b : json_text (make (SBool b)) = (if b then "true" else "false")%string.
Proof. by rewrite json_text_of, shape_make. Qed.

Lemma text_int z : json_text (int_json z) = pretty z.
Proof. unfold int_json. by rewrite json_text_of, shape_make, num_text_of_big. Qed.

Lemma text_array l :
  json_text (make (SArray l)) = str_concat ["["; String.concat "," (json_text <$> l); "]"]%string.
Proof. by rewrite json_text_of, shape_make. Qed.

Lemma text_object m :
  json_text (make (SObject m)) =
  str_concat ["{"; String.concat "," ((fun kv => str_concat [string_text kv.1; ":"; json_text kv.2]) <$> m); "}"]%string.
Proof. by rewrite json_text_of, shape_make. Qed.

Lemma text_float f :
  (forall s, py_repr_f64 (f64_of_bits f) = Some s -> is_Some (parse_number s)) ->
  json_text (float_json f) = float f.
Proof.
  intros Hf. unfold float_json, float. cbn [num_to_value].
  destruct (py_repr_f64 (f64_of_bits f)) as [s|]; [|apply text_null]. cbn [mbind option_bind].
  destruct (Hf s eq_refl) as [n Hn]. rewrite Hn. cbn. rewrite json_text_of, shape_make.
  unfold parse_number in Hn. destruct (parse_json s) as [v|] eqn:Ep; [|done]. cbn in Hn.
  destruct (shape v) eqn:Es; try done. injection Hn as ->. by eapply num_text_parsed.
Qed.

Lemma foldr_and {A} (P : A -> Prop) l : foldr (fun x Q => P x /\ Q) True l <-> Forall P l.
Proof.
  induction l as [|x l IH]; cbn; [by split|]. rewrite IH. split.
  - intros []. by constructor.
  - by inversion 1.
Qed.

Lemma write_items l :
  Forall (fun x => renderable x -> json_text (value_of x) = write x) l ->
  foldr (fun x P => renderable x /\ P) True l ->
  json_text (make (SArray (value_of <$> l))) = str_concat ["["; comma_separated (write <$> l); "]"]%string.
Proof.
  intros Hl Hr. rewrite text_array. do 2 f_equal. unfold comma_separated. do 2 f_equal.
  apply foldr_and in Hr. rewrite <- list_fmap_compose. apply fmap_ext_in. intros x Hx.
  rewrite Forall_forall in Hl, Hr. by apply Hl, Hr.
Qed.

(** The hand-written renderer writes exactly the compact JSON text of the value
    it means: what it hands to [RawValue] is a well-formed JSON text, an integer of
    any width keeps its digits, and a dict keeps its order. *)
Theorem written_is_the_value o : renderable o -> to_json o = json_text (value_of o).
Proof.
  unfold to_json. intros Hr. symmetry. revert Hr.
  induction o as [|b|i|b|f|s|l IH|l IH|d IH|l IH|c|c l _] using PyObj_rect'; cbn [renderable value_of write]; intros Hr.
  - apply text_null.
  - rewrite text_bool. by destruct b.
  - apply text_int.
  - rewrite text_int. symmetry. by apply print_correct.
  - by apply text_float.
  - apply text_string.
  - by apply write_items.
  - by apply write_items.
  - rewrite text_object. do 2 f_equal. unfold comma_separated. do 2 f_equal.
    rewrite <- list_fmap_compose. apply fmap_ext_in. intros [k v] Hkv. cbn [compose fst snd].
    apply foldr_and in Hr. rewrite Forall_forall in IH, Hr. pose proof (proj2 (IH _ Hkv) (Hr _ Hkv)) as Ev.
    cbn [snd] in Ev. by rewrite Ev.
  - by apply write_items.
  - apply text_string.
  - apply text_string.
Qed.
End slot_data.

#[local] Existing Instance tree_json.
#[local] Existing Instance tree_text.

Definition demo_slot_data : PyObj :=
  PDict [(PStr "z", PList [PInt (-5); PNone; PBool true]); (PInt 1, PFloat 0x7ff0000000000000)].

Lemma written_is_the_value_witness :
  renderable demo_slot_data /\ to_json demo_slot_data = json_text (value_of demo_slot_data).
Proof.
  assert (renderable demo_slot_data) as Hr by (cbn; repeat split; done).
  split; [exact Hr|]. by apply (written_is_the_value demo_slot_data).
Defined.

(** * [crates/pahoa-room/src/datapackage.rs]: the [GetDataPackage] reply

    Every game's object is rendered once; a request is answered with the whole
    package or with a subset put together from the rendered pieces.
    [subset_is_rendered_alike] says both are the text the serializer gives. *)

Section served.
Context `{JsonText}.

(** [GameData], as its derived [Serialize] presents it. *)
Definition name_table (m : gmap string Z) : Value :=
  make (SObject ((fun kv => (kv.1, v_int kv.2)) <$> sorted_items m)).

Definition game_data (g : GameNames) : Value :=
  make (SObject
    ([("item_name_to_id"%string, name_table (item_name_to_id (package g)));
      ("location_name_to_id"%string, name_table (location_name_to_id (package g)))] ++
     match checksum (package g) with
     | Some c => [("checksum"%string, v_string c)]
     | None => []
     end)).

(** [DataPackageContents::render]. *)
Definition render (games : gmap string GameNames) : string :=
  json_text (make (SObject [("games"%string,
    make (SObject ((fun kv => (kv.1, game_data kv.2)) <$> sorted_items games)))])).

Record DataPackageCache : Type := mkCache { full : string; by_game : gmap string string }.

Definition build (names : DataPackage) : DataPackageCache :=
  mkCache (render (games names)) ((fun g => json_text (game_data g)) <$> games names).

Definition chosen_games (c : DataPackageCache) (wanted : list string) : list string :=
  sorted_strings (elements (list_to_set (filter (fun g => is_Some (by_game c !! g)) wanted) : gset string)).

(** The body: a comma before every entry but the first. *)
Definition assemble (c : DataPackageCache) (chosen : list string) : string :=
  let entry g := str_concat [string_text g; ":"; default EmptyString (by_game c !! g)]%string in
  str_concat ["{"; string_text "games"; ":{"; String.concat "," (entry <$> chosen); "}}"]%string.

Definition select (c : DataPackageCache) (wanted : list string) : string :=
  let chosen := chosen_games c wanted in
  if Nat.eqb (length chosen) (size (by_game c)) then full c else assemble c chosen.

(** ** A subset is rendered as the serializer would *)

Definition wanted_games (d : DataPackage) (wanted : list string) : gmap string GameNames :=
  filter (fun kv => kv.1 ∈ wanted) (games d).

Lemma elem_of_chosen d wanted g :
  g ∈ (list_to_set (filter (fun g => is_Some (by_game (build d) !! g)) wanted) : gset string) <->
  g ∈ dom (wanted_games d wanted).
Proof.
  rewrite elem_of_list_to_set, list_elem_of_filter, elem_of_dom. unfold wanted_games, build. cbn [by_game].
  rewrite lookup_fmap, fmap_is_Some. split.
  - intros [[x Hx] Hw]. exists x. by apply map_lookup_filter_Some.
  - intros [x Hx]. apply map_lookup_filter_Some in Hx as [Hx Hw]. split; [by exists x|done].
Qed.

Lemma chosen_keys d wanted : chosen_games (build d) wanted = sorted_keys (wanted_games d wanted).
Proof.
  unfold chosen_games, sorted_keys. f_equal. f_equal. apply set_eq. apply elem_of_chosen.
Qed.

Lemma length_sorted_keys {A} (m : gmap string A) : length (sorted_keys m) = size m.
Proof.
  unfold sorted_keys, sorted_strings. rewrite merge_sort_Permutation. by rewrite <- size_dom.
Qed.

Lemma sorted_items_fmap {A B} (f : string * A -> B) (m : gmap string A) :
  f <$> sorted_items m = omap (fun k => f ∘ pair k <$> m !! k) (sorted_keys m).
Proof.
  unfold sorted_items. induction (sorted_keys m) as [|k l IH]; [done|]. cbn.
  destruct (m !! k); cbn; by rewrite IH.
Qed.

Lemma assemble_text d wanted :
  assemble (build d) (sorted_keys (wanted_games d wanted)) = render (wanted_games d wanted).
Proof.
  unfold assemble, render. rewrite json_text_of, shape_make. cbn [fmap list_fmap fst snd].
  rewrite (json_text_of (make _)), shape_make, <- list_fmap_compose.
  unfold compose. cbn [fst snd]. rewrite sorted_items_fmap.
  replace (omap _ (sorted_keys (wanted_games d wanted))) with
    ((fun g => str_concat [string_text g; ":"; default EmptyString (by_game (build d) !! g)]%string) <$>
       sorted_keys (wanted_games d wanted)).
  { unfold str_concat. cbn. by rewrite <- !append_assoc. }
  assert (Hin : forall g, g ∈ sorted_keys (wanted_games d wanted) ->
            exists x, wanted_games d wanted !! g = Some x /\ games d !! g = Some x).
  { intros g. unfold sorted_keys, sorted_strings. rewrite merge_sort_Permutation, elem_of_elements, elem_of_dom.
    intros [x Hx]. exists x. split; [done|]. by apply map_lookup_filter_Some in Hx as [Hx _]. }
  induction (sorted_keys (wanted_games d wanted)) as [|g l IH]; [done|]. cbn.
  destruct (Hin g ltac:(left)) as (x & Hx & Hg). rewrite Hx. cbn. rewrite lookup_fmap, Hg. cbn.
  f_equal. apply IH. intros g' Hg'. apply Hin. by right.
Qed.

(** The [GetDataPackage] reply is, for any request, the text the serializer
    gives for the games of the package that were asked for, each once and in name
    order: putting it together from rendered pieces and sharing the rendering of the
    whole package are invisible on the wire. *)
Theorem subset_is_rendered_alike d wanted :
  select (build d) wanted = render (filter (fun kv => kv.1 ∈ wanted) (games d)).
Proof.
  change (filter _ (games d)) with (wanted_games d wanted). unfold select. rewrite chosen_keys.
  destruct (Nat.eqb_spec (length (sorted_keys (wanted_games d wanted))) (size (by_game (build d))))
    as [Hl|_]; [|apply assemble_text].
  cbn [full build]. f_equal. symmetry. unfold build in Hl. cbn [by_game] in Hl.
  rewrite length_sorted_keys, map_size_fmap in Hl.
  apply map_subseteq_size_eq; [apply map_filter_subseteq|]. by rewrite Hl.
Qed.
End served.

#[local] Existing Instance tree_json.
#[local] Existing Instance tree_text.

Example demo_subset :
  let d := mkDataPackage {[ "B"%string := names_new (mkGamePackage {[ "x"%string := 3 ]} ∅ None ∅ ∅ ∅);
                            "A"%string := names_new empty_package ]} in
  select (build d) ["C"; "B"]%string = render {[ "B"%string := names_new (mkGamePackage {[ "x"%string := 3 ]} ∅ None ∅ ∅ ∅) ]}
  /\ select (build d) ["A"; "B"; "A"]%string = full (build d).
Proof. split; by vm_compute. Qed.
