(* ===== verification/Text.v ===== *)
(** * Characters and words

    The standard library's [char] and [str] operations the command processors
    use, and [shell_split] of [crates/pahoa-room/src/room/commands.rs].  A
    character is the string of its UTF-8 bytes.  White space and control
    characters are Unicode's short lists; lower-casing and the numeric
    category need its tables, which the class [Unicode] leaves open beyond
    ASCII. *)

From Stdlib Require Import ZArith Lia Bool Ascii.
From stdpp Require Import base tactics numbers list strings pretty.
From S2P Require Import Prelude Types.

(** ** Characters *)

(** The code point of a character. *)
Definition code_point (c : string) : Z :=
  match bytes_of_string c with
  | [a] => a
  | [a; b] => (a - 0xC0) * 64 + (b - 0x80)
  | [a; b; c] => (a - 0xE0) * 4096 + (b - 0x80) * 64 + (c - 0x80)
  | [a; b; c; d] => (a - 0xF0) * 262144 + (b - 0x80) * 4096 + (c - 0x80) * 64 + (d - 0x80)
  | _ => 0
  end.

(** [char::is_whitespace]: the property [White_Space]. *)
Definition is_whitespace (c : string) : bool :=
  let n := code_point c in
  within 0x9 0xD n || (n =? 0x20) || (n =? 0x85) || (n =? 0xA0) || (n =? 0x1680) ||
  within 0x2000 0x200A n || (n =? 0x2028) || (n =? 0x2029) || (n =? 0x202F) || (n =? 0x205F) ||
  (n =? 0x3000).

(** [char::is_control]: the category [Cc]. *)
Definition is_control (c : string) : bool :=
  let n := code_point c in within 0 0x1F n || within 0x7F 0x9F n.

Definition is_space (c : string) : bool := str_eqb c " ".

Definition ascii_only (s : string) : bool :=
  forallb (fun b => b <? 0x80) (bytes_of_string s).

Class Unicode : Type := {
  (** [str::to_lowercase], [char::is_numeric]. *)
  to_lowercase : string -> string;
  is_numeric : string -> bool;
  to_lowercase_ascii : forall s, ascii_only s = true -> to_lowercase s = to_ascii_lowercase s;
  to_lowercase_prefix : forall p s, ascii_only p = true ->
    exists t, to_lowercase (String.append p s) = String.append (to_ascii_lowercase p) t;
  is_numeric_ascii : forall a, ascii_only (String a EmptyString) = true ->
    is_numeric (String a EmptyString) = within 48 57 (Z.of_N (N_of_ascii a));
  (** [strsim::damerau_levenshtein]. *)
  damerau_levenshtein : string -> string -> nat
}.

(** ** Strings *)

(** [s.strip_suffix(c)]. *)
Fixpoint strip_last (c : ascii) (s : string) : option string :=
  match s with
  | EmptyString => None
  | String d EmptyString => if Ascii.eqb d c then Some EmptyString else None
  | String d s => String d <$> strip_last c s
  end.

(** [s.trim()], on characters. *)
Fixpoint drop_while {A} (p : A -> bool) (l : list A) : list A :=
  match l with
  | [] => []
  | x :: l' => if p x then drop_while p l' else l
  end.

Definition trim (s : string) : string :=
  str_concat (rev (drop_while is_whitespace (rev (drop_while is_whitespace (chars s))))).

(** [s.split_once(char::is_whitespace)]. *)
Fixpoint after_whitespace (l : list string) : option string :=
  match l with
  | [] => None
  | c :: l => if is_whitespace c then Some (str_concat l) else after_whitespace l
  end.

(** [s.split_whitespace()]: the words, none of them empty. *)
Fixpoint words_go (current : string) (l : list string) : list string :=
  match l with
  | [] => if str_eqb current EmptyString then [] else [current]
  | c :: l =>
      if is_whitespace c
      then (if str_eqb current EmptyString then words_go EmptyString l
            else current :: words_go EmptyString l)
      else words_go (String.append current c) l
  end.

Definition split_whitespace (s : string) : list string := words_go EmptyString (chars s).

(** [s.parse::<i64>()]: an optional sign and digits, within the width. *)
Fixpoint parse_decimal (acc : Z) (s : string) : option Z :=
  match s with
  | EmptyString => Some acc
  | String c s =>
      let d := Z.of_N (N_of_ascii c) - 48 in
      if within 0 9 d then parse_decimal (10 * acc + d) s else None
  end.

Definition parse_within (lo hi : Z) (s : string) : option Z :=
  let signed (sign : Z) (digits : string) :=
    match digits with
    | EmptyString => None
    | _ => n ← parse_decimal 0 digits; if within lo hi (sign * n) then Some (sign * n) else None
    end in
  match s with
  | String c rest =>
      if Ascii.eqb c "+" then signed 1 rest
      else if Ascii.eqb c "-" && (lo <? 0) then signed (-1) rest
      else signed 1 s
  | EmptyString => None
  end.

Definition parse_i64 : string -> option Z := parse_within i64_min i64_max.
Definition parse_u32 : string -> option Z := parse_within 0 u32_max.

Lemma parse_within_range lo hi s n : parse_within lo hi s = Some n -> lo <= n <= hi.
Proof.
  unfold parse_within, within. intros Hs.
  repeat (case_match || (apply bind_Some in Hs as (? & _ & Hs))); simplify_eq;
    repeat match goal with Hb : _ && _ = true |- _ => apply andb_true_iff in Hb as [? ?] end; lia.
Qed.

Lemma parse_pretty_go x s : parse_decimal 0 (pretty_N_go x s) = parse_decimal (Z.of_N x) s.
Proof.
  revert s. induction (N.lt_wf_0 x) as [x _ IH]. intros s.
  destruct (decide (x = 0)%N) as [->|Hx]; [by rewrite pretty_N_go_0|].
  rewrite pretty_N_go_step, IH by (lia || by apply N.div_lt; lia). cbn [parse_decimal].
  assert (Hd : Z.of_N (N_of_ascii (pretty_N_char (x `mod` 10))) - 48 = Z.of_N (x `mod` 10)).
  { pose proof (N.mod_lt x 10 ltac:(done)) as Hm. revert Hm. generalize (x `mod` 10)%N. intros d Hd.
    assert (d = 0 \/ d = 1 \/ d = 2 \/ d = 3 \/ d = 4 \/ d = 5 \/ d = 6 \/ d = 7 \/ d = 8 \/ d = 9)%N as Hc by lia.
    by destruct_or! Hc; subst d. }
  assert (Hw : within 0 9 (Z.of_N (x `mod` 10)) = true).
  { pose proof (N.mod_lt x 10 ltac:(done)) as Hm. revert Hm. generalize (x `mod` 10)%N. intros d Hd'.
    apply andb_true_iff. rewrite !Z.leb_le. lia. }
  rewrite Hd, Hw.
  f_equal. rewrite N2Z.inj_div, N2Z.inj_mod. pose proof (Z.div_mod (Z.of_N x) 10). lia.
Qed.

Lemma pretty_go_head x s : (0 < x)%N ->
  exists d t, (d < 10)%N /\ pretty_N_go x s = String (pretty_N_char d) t.
Proof.
  revert s. induction (N.lt_wf_0 x) as [x _ IH]. intros s Hx. rewrite pretty_N_go_step by done.
  destruct (decide (0 < x `div` 10)%N) as [Hd|Hd].
  - apply IH; [by apply N.div_lt|done].
  - assert (x `div` 10 = 0)%N as -> by by apply N.le_0_r, N.nlt_ge. rewrite pretty_N_go_0. eexists _, s. split; [|done].
    by apply N.mod_lt.
Qed.

Lemma parse_pretty_u32 n : 0 <= n <= u32_max -> parse_u32 (pretty n) = Some n.
Proof.
  intros Hn. destruct n as [|p|p]; [done| |lia].
  change (pretty (Z.pos p)) with (pretty_N_go (N.pos p) EmptyString).
  destruct (pretty_go_head (N.pos p) EmptyString ltac:(done)) as (d & t & Hd & He).
  pose proof (parse_pretty_go (N.pos p) EmptyString) as Hp. rewrite He in *.
  change (parse_decimal (Z.of_N (N.pos p)) EmptyString) with (Some (Z.pos p)) in Hp.
  assert (Hc : Ascii.eqb (pretty_N_char d) "+" = false /\ Ascii.eqb (pretty_N_char d) "-" = false).
  { assert (d = 0 \/ d = 1 \/ d = 2 \/ d = 3 \/ d = 4 \/ d = 5 \/ d = 6 \/ d = 7 \/ d = 8 \/ d = 9)%N as Hc by lia.
    by destruct_or! Hc; subst d. }
  destruct Hc as [H1 H2]. unfold parse_u32, parse_within. rewrite H1, H2. cbn [andb].
  change ((n ← parse_decimal 0 (String (pretty_N_char d) t);
           if within 0 u32_max (1 * n) then Some (1 * n) else None) = Some (Z.pos p)).
  assert (Hw : within 0 u32_max (Z.pos p) = true) by (apply andb_true_iff; rewrite !Z.leb_le; lia).
  rewrite Hp. cbn [mbind option_bind]. by rewrite Z.mul_1_l, Hw.
Qed.

(** ** [shell_split] *)

Definition quote1 : string := String (ascii_of_nat 39) EmptyString.
Definition quote2 : string := String (ascii_of_nat 34) EmptyString.
Definition slash : string := String (ascii_of_nat 92) EmptyString.

Inductive Quoting : Type := Bare | Single | Double.

(** The scan: the word being built, whether there is one, the words so far.
    [None]: an unterminated quote. *)
Fixpoint shell_go (q : Quoting) (current : string) (has_word : bool) (words : list string)
    (l : list string) : option (list string) :=
  match q, l with
  | Bare, [] => Some (if has_word then words ++ [current] else words)
  | _, [] => None
  | Bare, c :: l =>
      if is_whitespace c then
        (if has_word then shell_go Bare EmptyString false (words ++ [current]) l
         else shell_go Bare current has_word words l)
      else if str_eqb c quote1 then shell_go Single current true words l
      else if str_eqb c quote2 then shell_go Double current true words l
      else if str_eqb c slash then
        match l with
        | [] => Some (words ++ [current])
        | next :: l => shell_go Bare (String.append current next) true words l
        end
      else shell_go Bare (String.append current c) true words l
  | Single, c :: l =>
      if str_eqb c quote1 then shell_go Bare current has_word words l
      else shell_go Single (String.append current c) has_word words l
  | Double, c :: l =>
      if str_eqb c quote2 then shell_go Bare current has_word words l
      else if str_eqb c slash then
        match l with
        | [] => None
        | e :: l =>
            if existsb (str_eqb e) [quote2; slash; "$"; "`"]%string
            then shell_go Double (String.append current e) has_word words l
            else shell_go Double (String.append current (String.append slash e)) has_word words l
        end
      else shell_go Double (String.append current c) has_word words l
  end.

Definition shell_split (raw : string) : list string :=
  match shell_go Bare EmptyString false [] (chars raw) with
  | Some words => words
  | None => split_whitespace raw
  end.

Definition is_printable (s : string) : bool :=
  forallb (fun c => negb (is_control c) && (is_space c || negb (is_whitespace c))) (chars s).

(** ** Lines without quotes *)

Definition plain (c : string) : bool :=
  negb (str_eqb c quote1) && negb (str_eqb c quote2) && negb (str_eqb c slash).

Lemma append_nil s : String.append s EmptyString = s.
Proof. induction s as [|c s IH]; [done|]. exact (f_equal (String c) IH). Qed.

Lemma str_concat_cons x l : str_concat (x :: l) = String.append x (str_concat l).
Proof. destruct l; [symmetry; apply append_nil|done]. Qed.

Lemma chars_go_spec s :
  Forall (fun c => c <> EmptyString) (chars_go s).2 /\
  String.append (chars_go s).1 (str_concat (chars_go s).2) = s.
Proof.
  induction s as [|a s [Hf Hs]]; [by split; [constructor|]|]. cbn [chars_go].
  destruct (chars_go s) as [pending l] eqn:E. cbn [fst snd] in Hf, Hs.
  destruct (is_continuation a); cbn [fst snd].
  - split; [done|]. change (String a (String.append pending (str_concat l)) = String a s). by rewrite Hs.
  - split; [by constructor|]. rewrite str_concat_cons.
    change (String a (String.append pending (str_concat l)) = String a s). by rewrite Hs.
Qed.

Lemma append_nonempty a b : b <> EmptyString -> str_eqb (String.append a b) EmptyString = false.
Proof.
  intros Hb. apply bool_decide_eq_false. destruct a; [|done]. by destruct b.
Qed.

Lemma shell_go_plain l current words :
  Forall (fun c => c <> EmptyString) l -> Forall (fun c => plain c = true) l ->
  shell_go Bare current (negb (str_eqb current EmptyString)) words l =
    Some (words ++ words_go current l).
Proof.
  intros Hne. revert current words. induction Hne as [|c l Hc _ IH]; intros current words Hp; cbn.
  { destruct (str_eqb current EmptyString); cbn; [by rewrite app_nil_r|done]. }
  apply Forall_cons in Hp as [Hp Hl]. unfold plain in Hp.
  apply andb_true_iff in Hp as [[H1%negb_true_iff H2%negb_true_iff]%andb_true_iff H3%negb_true_iff].
  rewrite H1, H2, H3. destruct (is_whitespace c).
  - destruct (str_eqb current EmptyString) eqn:E; cbn [negb].
    + apply bool_decide_eq_true in E as ->. apply (IH EmptyString words Hl).
    + etrans; [exact (IH EmptyString (words ++ [current]) Hl)|]. by rewrite <- (assoc_L (++)).
  - etrans; [|exact (IH (String.append current c) words Hl)]. by rewrite append_nonempty.
Qed.

(** A string that begins with a character. *)
Definition starts_char (s : string) : bool :=
  match s with String a _ => negb (is_continuation a) | EmptyString => true end.

Lemma chars_go_start s : starts_char s = true -> (chars_go s).1 = EmptyString.
Proof.
  destruct s as [|a s]; [done|]. cbn. intros Ha%negb_true_iff. destruct (chars_go s). by rewrite Ha.
Qed.

Lemma concat_chars s : starts_char s = true -> str_concat (chars s) = s.
Proof.
  intros Hs. pose proof (proj2 (chars_go_spec s)) as Hc. by rewrite (chars_go_start s Hs) in Hc.
Qed.

Lemma chars_cons a s :
  is_continuation a = false -> starts_char s = true ->
  chars (String a s) = String a EmptyString :: chars s.
Proof.
  intros Ha Hs. unfold chars. cbn [chars_go]. pose proof (chars_go_start s Hs) as Hp.
  destruct (chars_go s) as [pending l]. cbn in Hp. subst. by rewrite Ha.
Qed.

Fixpoint ascii_chars (p : string) : list string :=
  match p with EmptyString => [] | String a p => String a EmptyString :: ascii_chars p end.

Lemma chars_append p s :
  ascii_only p = true -> starts_char s = true -> chars (String.append p s) = ascii_chars p ++ chars s.
Proof.
  intros Hp Hs. induction p as [|a p IH]; [done|].
  assert (is_continuation a = false /\ ascii_only p = true) as [Ha Hp'].
  { apply andb_true_iff in Hp as [Ha Hp]. split; [|exact Hp]. apply Z.ltb_lt in Ha.
    unfold is_continuation. apply not_true_iff_false. unfold within. rewrite andb_true_iff, !Z.leb_le.
    cbn in Ha. lia. }
  change (String.append (String a p) s) with (String a (String.append p s)).
  rewrite chars_cons; [cbn; by rewrite IH|done|].
  destruct p as [|b p]; [done|]. cbn in Hp'. apply andb_true_iff in Hp' as [Hb _]. apply Z.ltb_lt in Hb.
  cbn. apply negb_true_iff, not_true_iff_false. unfold is_continuation, within.
  rewrite andb_true_iff, !Z.leb_le. lia.
Qed.

(** The words found so far stay. *)
Lemma shell_go_prefix n : forall q current has_word words l ws,
  (length l <= n)%nat -> shell_go q current has_word words l = Some ws -> exists t, ws = words ++ t.
Proof.
  induction n as [|n IH]; intros q current has_word words l ws Hn.
  { destruct l; [|cbn in Hn; lia]. destruct q; cbn; [|done|done]. intros [= <-].
    destruct has_word; [by eexists|]. exists []. by rewrite app_nil_r. }
  destruct l as [|c l]; [apply (IH q current has_word words []); cbn; lia|]. cbn in Hn.
  assert (Hgo : forall q current has_word l, (length l <= n)%nat ->
            shell_go q current has_word words l = Some ws -> exists t, ws = words ++ t)
    by (intros q' cu hw l' Hl; by apply (IH q' cu hw words l' ws)).
  destruct q; cbn.
  - destruct (is_whitespace c).
    + destruct has_word; [|apply Hgo; lia]. intros Hs. apply IH in Hs as [t ->]; [|lia].
      exists (current :: t). by rewrite <- (assoc_L (++)).
    + repeat case_match; try (apply Hgo; cbn in *; lia). intros [= <-]. by eexists.
  - case_match; apply Hgo; lia.
  - repeat case_match; try done; apply Hgo; cbn in *; lia.
Qed.

(** The first word of a line whose first word is plain. *)
Lemma shell_split_first first rest raw :
  chars raw = first ++ " "%string :: rest ->
  Forall (fun c => plain c = true /\ is_whitespace c = false /\ c <> EmptyString) first -> first <> [] ->
  exists ws, shell_split raw = str_concat first :: ws.
Proof.
  intros Hr Hf Hne. unfold shell_split. rewrite Hr.
  assert (Hgo : forall current has_word, current <> EmptyString \/ has_word = false ->
    shell_go Bare current has_word [] (first ++ " "%string :: rest) =
    shell_go Bare EmptyString false [String.append current (str_concat first)] rest).
  { clear Hr. induction first as [|c l IH]; [done|]. intros current hw _.
    apply Forall_cons in Hf as [(Hp & Hw & Hc) Hl]. unfold plain in Hp.
    apply andb_true_iff in Hp as [[H1%negb_true_iff H2%negb_true_iff]%andb_true_iff H3%negb_true_iff].
    cbn [app shell_go]. rewrite Hw, H1, H2, H3. rewrite str_concat_cons, append_assoc. destruct l as [|c' l]; [by rewrite append_nil|].
    apply IH; [done|done|]. left. destruct current, c; done. }
  rewrite Hgo by (by right). change (String.append EmptyString (str_concat first)) with (str_concat first).
  destruct (shell_go _ _ _ _ rest) as [ws|] eqn:E; [by apply shell_go_prefix with (n := length rest) in E as [t ->]; [eexists|]|].
  unfold split_whitespace. rewrite Hr. clear Hgo E Hr.
  assert (Hgo : forall current, String.append current (str_concat first) <> EmptyString ->
    words_go current (first ++ " "%string :: rest) =
    String.append current (str_concat first) :: words_go EmptyString rest).
  { clear Hne. induction first as [|c l IH]; intros current Hn.
    - rewrite append_nil in *. cbn. unfold str_eqb. by rewrite bool_decide_false.
    - apply Forall_cons in Hf as [(_ & Hw & _) Hl]. cbn [app words_go]. rewrite Hw.
      rewrite str_concat_cons, append_assoc in *. by apply IH. }
  rewrite Hgo; [by eexists|]. destruct first as [|c l]; [done|]. apply Forall_cons in Hf as [(_ & _ & Hc) _].
  rewrite str_concat_cons. by destruct c.
Qed.

(** On a line with no quote and no backslash the shell's words are the
    white-space words. *)
Theorem shell_split_plain raw :
  Forall (fun c => plain c = true) (chars raw) -> shell_split raw = split_whitespace raw.
Proof.
  intros Hp. unfold shell_split.
  pose proof (shell_go_plain (chars raw) EmptyString [] (proj1 (chars_go_spec raw)) Hp) as Hg.
  change (negb (str_eqb EmptyString EmptyString)) with false in Hg. by rewrite Hg.
Qed.

Lemma shell_split_plain_witness :
  shell_split "!alias  a b" = split_whitespace "!alias  a b" /\
  split_whitespace "!alias  a b" = ["!alias"; "a"; "b"]%string.
Proof. split; [apply shell_split_plain; repeat constructor|reflexivity]. Defined.

Example quoted_words :
  shell_split (str_concat ["say "; quote2; "a b"; quote2; " "; quote1; "c d"; quote1; slash; " e"]) =
  ["say"; "a b"; "c d e"]%string.
Proof. reflexivity. Qed.

Example unterminated_quote : shell_split "don't stop" = ["don't"; "stop"]%string.
Proof. reflexivity. Qed.

(** ** A concrete instance: ASCII, and a distance of 0 or 1 *)

Lemma ascii_digit_refl a : ascii_only (String a EmptyString) = true ->
  forallb (fun b => within 48 57 b) (bytes_of_string (String a EmptyString)) =
  within 48 57 (Z.of_N (N_of_ascii a)).
Proof. intros _. cbn. by rewrite andb_true_r. Qed.

Lemma lowercase_append p s :
  to_ascii_lowercase (String.append p s) = String.append (to_ascii_lowercase p) (to_ascii_lowercase s).
Proof. induction p as [|a p IH]; [done|]. exact (f_equal (String _) IH). Qed.

Lemma ascii_prefix p s : ascii_only p = true ->
  exists t, to_ascii_lowercase (String.append p s) = String.append (to_ascii_lowercase p) t.
Proof. intros _. eexists. apply lowercase_append. Qed.

#[local] Instance ascii_unicode : Unicode := {|
  to_lowercase := to_ascii_lowercase;
  is_numeric := fun c => forallb (fun b => within 48 57 b) (bytes_of_string c);
  to_lowercase_ascii := fun _ _ => eq_refl;
  to_lowercase_prefix := ascii_prefix;
  is_numeric_ascii := ascii_digit_refl;
  damerau_levenshtein := fun a b => if str_eqb a b then 0%nat else 1%nat
|}.
