(* ===== verification/Fuzzy.v ===== *)
(** * [crates/pahoa-room/src/fuzzy.rs]: what a mistyped name means

    The edit distance is [strsim]'s, a parameter; the similarity is a binary64
    number, ranked before it is truncated to a percentage. *)

From Stdlib Require Import ZArith Lia Bool SpecFloat.
From stdpp Require Import base tactics list strings pretty.
From S2P Require Import Prelude Types Json PyValue Text.

Inductive Match : Type :=
| Accepted (name reason : string)
| Rejected (closest : string) (score : Z) (message : string).

(** [Match::accepted]. *)
Definition accepted (m : Match) : option string :=
  match m with Accepted name _ => Some name | Rejected _ _ _ => None end.

Section fuzzy.
Context `{Unicode}.

(** The literal [1.01]. *)
Definition f64_1_01 : f64 := f64_div (f64_of_Z 101) (f64_of_Z 100).

Definition ratio (input candidate : string) : f64 :=
  if str_eqb input candidate then f64_1_01
  else
    let longest := Nat.max (length (chars input)) (length (chars candidate)) in
    if Nat.eqb longest 0 then f64_of_Z 0
    else
      f64_sub (f64_of_Z 1)
        (f64_div (f64_of_Z (Z.of_nat (damerau_levenshtein (to_lowercase input) (to_lowercase candidate))))
                 (f64_of_Z (Z.of_nat longest))).

(** [(ratio * 100.0) as i64]. *)
Definition percent (r : f64) : Z := f64_as_i64 (f64_mul r (f64_of_Z 100)).

Definition score (input candidate : string) : Z := percent (ratio input candidate).

(** More similar first; equal ones and NaN keep their order. *)
Definition best (input : string) (candidates : list string) (limit : nat) : list (string * Z) :=
  let scored := (fun c => (c, ratio input c)) <$> candidates in
  (fun nr => (nr.1, percent nr.2)) <$> take limit (stable_sort (fun a b => negb (f64_ltb a.2 b.2)) scored).

Definition did_you_mean (what input top : string) (top_score : Z) : string :=
  str_concat [what; " '"; input; "', did you mean '"; top; "'? ("; pretty top_score; "% sure)"].

Definition intended (input : string) (candidates : list string) : option Match :=
  match best input candidates 2 with
  | [] => None
  | (top, top_score) :: rest =>
      Some
        match rest with
        | (_, second) :: _ =>
            if top_score =? 101 then Accepted top "Perfect Match"
            else if top_score =? 100 then Accepted top "Case Insensitive Perfect Match"
            else if top_score <? 75 then
              Rejected top top_score
                (did_you_mean "Didn't find something that closely matches" input top top_score)
            else if 5 <? top_score - second then Accepted top "Close Match"
            else
              Rejected top top_score
                (did_you_mean "Too many close matches for" input top top_score)
        | [] =>
            if 90 <? top_score then Accepted top "Only Option Match"
            else
              Rejected top top_score
                (did_you_mean "Didn't find something that closely matches" input top top_score)
        end
  end.

(** ** What a match promises *)

Lemma best_candidates input candidates limit n z :
  (n, z) ∈ best input candidates limit -> n ∈ candidates /\ z = score input n.
Proof.
  unfold best. intros ([m r] & [= -> ->] & Hin)%list_elem_of_fmap.
  assert (Hs : (m, r) ∈ stable_sort (fun a b => negb (f64_ltb a.2 b.2))
                         ((fun c => (c, ratio input c)) <$> candidates)).
  { rewrite <- (take_drop limit). apply elem_of_app. by left. }
  rewrite stable_sort_perm in Hs. apply list_elem_of_fmap in Hs as (c & [= -> ->] & Hc). done.
Qed.

Lemma intended_top input candidates m : intended input candidates = Some m ->
  exists top rest, best input candidates 2 = top :: rest /\
    (forall name, accepted m = Some name -> name = top.1 /\ 75 <= top.2).
Proof.
  unfold intended. destruct (best input candidates 2) as [|[top s] rest]; [done|]. intros [= <-].
  exists (top, s), rest. split; [done|]. intros name. cbn [fst snd].
  destruct rest as [|[n2 s2] rest].
  - destruct (Z.ltb_spec 90 s); [|done]. intros [= <-]. split; [done|lia].
  - destruct (Z.eqb_spec s 101); [intros [= <-]; split; [done|lia]|].
    destruct (Z.eqb_spec s 100); [intros [= <-]; split; [done|lia]|].
    destruct (Z.ltb_spec s 75); [done|]. destruct (5 <? _); [|done]. intros [= <-]. split; [done|lia].
Qed.

(** A name that is acted on is one of the candidates, and no candidate below
    75% is. *)
Theorem accepted_is_a_candidate input candidates m name :
  intended input candidates = Some m -> accepted m = Some name ->
  name ∈ candidates /\ 75 <= score input name.
Proof.
  intros Hi Ha. destruct (intended_top _ _ _ Hi) as ([top s] & rest & Hb & Hn).
  destruct (Hn name Ha) as [-> Hs]. cbn [fst snd] in *.
  destruct (best_candidates input candidates 2 top s) as [Hin ->]; [rewrite Hb; left|done].
Qed.

Lemma accepted_in input candidates name reason :
  intended input candidates = Some (Accepted name reason) -> name ∈ candidates.
Proof.
  intros Hi. destruct (intended_top _ _ _ Hi) as ([top s] & rest & Hb & Hn).
  destruct (Hn name eq_refl) as [-> _].
  by destruct (best_candidates input candidates 2 top s) as [Hin _]; [rewrite Hb; left|].
Qed.

(** With a candidate to look at there is an answer. *)
Lemma intended_total input candidates : candidates <> [] -> is_Some (intended input candidates).
Proof.
  intros Hc. unfold intended, best.
  destruct (stable_sort _ _) as [|[n r] l] eqn:E.
  - pose proof (stable_sort_perm (fun a b => negb (f64_ltb a.2 b.2)) ((fun c => (c, ratio input c)) <$> candidates)) as Hp.
    rewrite E in Hp. apply Permutation_nil_l in Hp. by destruct candidates.
  - cbn. eauto.
Qed.
End fuzzy.

#[local] Existing Instance ascii_unicode.

Lemma accepted_is_a_candidate_witness :
  intended "lamp" ["Lamp"; "Rope"]%string = Some (Accepted "Lamp" "Case Insensitive Perfect Match") /\
  "Lamp"%string ∈ ["Lamp"; "Rope"]%string /\ 75 <= score "lamp" "Lamp".
Proof.
  assert (intended "lamp" ["Lamp"; "Rope"]%string = Some (Accepted "Lamp" "Case Insensitive Perfect Match")) as E
    by (vm_compute; reflexivity).
  split; [exact E|]. exact (accepted_is_a_candidate _ _ _ "Lamp" E eq_refl).
Defined.

Example exact_match_scores_101 : score "Lamp" "Lamp" = 101.
Proof. vm_compute. reflexivity. Qed.
