(* ===== verification/Filter.v ===== *)
(** * [crates/pahoa-room/src/filter.rs]: per-slot message filters

    The rule language and the dropping decision.  Error texts of the JSON
    reader are kept as a constructor per message; the process-wide drop
    counters are the [DropKey] a decision reports.  The generator handed to
    [drops] is threaded as a state: [roll] returns a float and the next state. *)

From Stdlib Require Import ZArith Lia Bool SpecFloat.
From stdpp Require Import base tactics list sets strings.
From S2P Require Import Prelude Types Json Packets.

Open Scope pahoa_scope.

Inductive Direction : Type := FromSlot | ToSlot.

#[export] Instance Direction_eq_dec : EqDecision Direction.
Proof. solve_decision. Defined.

Definition direction_text (d : Direction) : string :=
  match d with FromSlot => "from_slot" | ToSlot => "to_slot" end.

Definition direction_from_text (s : string) : option Direction :=
  let l := to_ascii_lowercase s in
  if str_eqb l "from_slot" then Some FromSlot
  else if str_eqb l "to_slot" then Some ToSlot
  else None.

Inductive Kind : Type := KBounce | KPrintJson | KSet | KSetReply | KRetrieved | KStatusUpdate | KSay.

#[export] Instance Kind_eq_dec : EqDecision Kind.
Proof. solve_decision. Defined.

Definition kind_text (k : Kind) : string :=
  match k with
  | KBounce => "bounce"
  | KPrintJson => "print_json"
  | KSet => "set"
  | KSetReply => "set_reply"
  | KRetrieved => "retrieved"
  | KStatusUpdate => "status_update"
  | KSay => "say"
  end.

Definition ALL : list Kind :=
  [KBounce; KPrintJson; KSet; KSetReply; KRetrieved; KStatusUpdate; KSay].

Definition kind_from_text (s : string) : option Kind :=
  List.find (fun k => str_eqb (to_ascii_lowercase s) (kind_text k)) ALL.

Definition travels (k : Kind) (d : Direction) : bool :=
  match k with
  | KBounce => true
  | KSet | KStatusUpdate | KSay => bool_decide (d = FromSlot)
  | KPrintJson | KSetReply | KRetrieved => bool_decide (d = ToSlot)
  end.

(** The names of [REFUSED]; their explanations are texts. *)
Definition REFUSED : list string :=
  ["received_items"; "connected"; "location_info"; "room_update"]%string.

Record Rule : Type := mkRule {
  direction : Direction;
  kind : Kind;
  tag : option string;
  subtype : option string;
  probability : f64
}.

Inductive RuleError : Type :=
| NotAnObject
| FieldRequired (name : string)
| UnknownDirection (s : string)
| KindRefused (s : string)
| UnknownKind (s : string)
| CannotTravel (k : Kind) (d : Direction)
| MustNotBeEmpty (name : string)
| MustBeString (name : string)
| TagOnlyBounce
| SubtypeOnlyPrintJson
| PMustBeNumber
| POutOfRange (p : f64).

Inductive FilterError : Type :=
| ExpectedList
| ExpectedRules
| TooManyRules (n : nat)
| BadRule (i : nat) (e : RuleError).

Definition one : f64 := f64_of_Z 1.
Definition zero : f64 := f64_of_Z 0.
Arguments one : simpl never.
Arguments zero : simpl never.

Section filter.
Context `{Json}.

Definition explain_kind (name : string) : RuleError :=
  if existsb (str_eqb (to_ascii_lowercase name)) REFUSED then KindRefused name
  else UnknownKind name.

Definition rule_text (o : JMap) (name : string) : result RuleError string :=
  ok_or (FieldRequired name) (v ← map_get o name; v_as_str v).

Definition optional (o : JMap) (name : string) : result RuleError (option string) :=
  match shape <$> map_get o name with
  | None | Some SNull => Ok None
  | Some (SString s) => if str_eqb s "" then Err (MustNotBeEmpty name) else Ok (Some s)
  | Some _ => Err (MustBeString name)
  end.

Definition read_probability (o : JMap) : result RuleError f64 :=
  match map_get o "p" with
  | None => Ok one
  | Some v =>
      match shape v with
      | SNull => Ok one
      | _ =>
          p ← ok_or PMustBeNumber (v_as_f64 v);
          if negb (f64_leb zero p && f64_leb p one) then Err (POutOfRange p) else Ok p
      end
  end.

Definition rule_from_json (value : Value) : result RuleError Rule :=
  o ← ok_or NotAnObject (v_as_object value);
  d ← rule_text o "direction";
  direction ← ok_or (UnknownDirection d) (direction_from_text d);
  k ← rule_text o "kind";
  kind ← match kind_from_text k with Some x => Ok x | None => Err (explain_kind k) end;
  if negb (travels kind direction) then Err (CannotTravel kind direction)
  else
    tag ← optional o "tag";
    subtype ← optional o "subtype";
    if bool_decide (tag <> None) && negb (bool_decide (kind = KBounce)) then Err TagOnlyBounce
    else if bool_decide (subtype <> None) && negb (bool_decide (kind = KPrintJson))
    then Err SubtypeOnlyPrintJson
    else
      probability ← read_probability o;
      Ok (mkRule direction kind tag subtype probability).

Definition rule_to_json (r : Rule) : Value :=
  let o := map_insert [] "direction" (v_string (direction_text (direction r))) in
  let o := map_insert o "kind" (v_string (kind_text (kind r))) in
  let o := match tag r with Some t => map_insert o "tag" (v_string t) | None => o end in
  let o := match subtype r with Some t => map_insert o "subtype" (v_string t) | None => o end in
  let o := if negb (f64_eqb (probability r) one)
           then map_insert o "p" (make (SNumber (num_of_f64 (probability r)))) else o in
  make (SObject o).

Definition specificity (r : Rule) : Z :=
  if bool_decide (tag r <> None) || bool_decide (subtype r <> None) then 1 else 0.

Definition matcher (r : Rule) : Direction * Kind * option string * option string :=
  (direction r, kind r, tag r, subtype r).

Definition eq_ignore_ascii_case (a b : string) : bool :=
  str_eqb (to_ascii_lowercase a) (to_ascii_lowercase b).

Definition rule_matches (r : Rule) (d : Direction) (k : Kind) (labels : list string) : bool :=
  if negb (bool_decide (direction r = d)) || negb (bool_decide (kind r = k)) then false
  else match tag r, subtype r with
       | Some want, _ | None, Some want => existsb (fun got => eq_ignore_ascii_case got want) labels
       | None, None => true
       end.

Definition Filter : Type := list Rule.

Definition MAX_RULES : nat := 64.

Fixpoint rules_from_json (i : nat) (l : list Value) : result FilterError (list Rule) :=
  match l with
  | [] => Ok []
  | v :: l =>
      match rule_from_json v with
      | Err e => Err (BadRule i e)
      | Ok r => rest ← rules_from_json (S i) l; Ok (r :: rest)
      end
  end.

Definition filter_from_json (value : Value) : result FilterError Filter :=
  l ← match shape value with
      | SArray l => Ok l
      | SObject o => ok_or ExpectedRules (v ← map_get o "rules"; v_as_array v)
      | _ => Err ExpectedList
      end;
  if (MAX_RULES <? length l)%nat then Err (TooManyRules (length l)) else rules_from_json 0 l.

Definition filter_to_json (f : Filter) : Value := make (SArray (rule_to_json <$> f)).

(** [max_by_key]: the last of the greatest. *)
Fixpoint max_by_key (key : Rule -> Z) (best : option Rule) (l : list Rule) : option Rule :=
  match l with
  | [] => best
  | r :: l =>
      match best with
      | None => max_by_key key (Some r) l
      | Some b => max_by_key key (if key b <=? key r then Some r else Some b) l
      end
  end.

Definition winner (f : Filter) (d : Direction) (k : Kind) (labels : list string) : option Rule :=
  max_by_key specificity None (List.filter (fun r => rule_matches r d k labels) f).

Record DropKey : Type := mkDropKey { dk_key : Z * Z; dk_direction : Direction; dk_kind : Kind }.

Section drops.
Context {G : Type} (roll : G -> f64 * G).

(** Whether to drop, and the generator afterwards. *)
Definition drops (f : Filter) (d : Direction) (k : Kind) (labels : list string) (g : G) : bool * G :=
  match winner f d k labels with
  | Some r =>
      if f64_leb one (probability r) then (true, g)
      else let '(x, g) := roll g in (f64_ltb x (probability r), g)
  | None => (false, g)
  end.

(** [record_drop]. *)
Definition dropped_record (key : Z * Z) (d : Direction) (k : Kind) (dropped : bool) : option DropKey :=
  if dropped then Some (mkDropKey key d k) else None.
End drops.

(** [*existing = rule], or push. *)
Fixpoint merge_rule (rules : list Rule) (rule : Rule) : list Rule :=
  match rules with
  | [] => [rule]
  | r :: rules => if decide (matcher r = matcher rule) then rule :: rules
                  else r :: merge_rule rules rule
  end.

(** The rules afterwards, and whether they fit: an oversized merge is reported
    after the rules were extended. *)
Definition merge_rules (f : Filter) (incoming : list Rule) : Filter * result FilterError unit :=
  let f := fold_left merge_rule incoming f in
  (f, if (MAX_RULES <? length f)%nat then Err (TooManyRules (length f)) else Ok tt).

Definition remove_rules (f : Filter) (matchers : list Rule) : Filter * nat :=
  let kept :=
    List.filter (fun r => negb (existsb (fun m => bool_decide (matcher m = matcher r)) matchers)) f in
  (kept, (length f - length kept)%nat).

(** ** Outbound frames *)

Definition one_outbound_tag (msg : ServerPacket) : option (Kind * list string) :=
  match msg with
  | PrintJSON p =>
      Some (KPrintJson, match pj_type p with Some t => [print_type_text t] | None => [] end)
  | Echo m =>
      cmd ← (v ← map_get m "cmd"; v_as_str v);
      if str_eqb cmd "Bounced" then
        Some (KBounce, match (v ← map_get m "tags"; v_as_array v) with
                       | Some tags => omap v_as_str tags
                       | None => []
                       end)
      else if str_eqb cmd "SetReply" then Some (KSetReply, [])
      else if str_eqb cmd "Retrieved" then Some (KRetrieved, [])
      else None
  | _ => None
  end.

Fixpoint outbound_tag_go (tag : option (Kind * list string)) (msgs : list ServerPacket)
    : option (Kind * list string) :=
  match msgs with
  | [] => tag
  | msg :: msgs =>
      this ← one_outbound_tag msg;
      match tag with
      | None => outbound_tag_go (Some this) msgs
      | Some first => if decide (first = this) then outbound_tag_go tag msgs else None
      end
  end.

Definition outbound_tag (msgs : list ServerPacket) : option (Kind * list string) :=
  outbound_tag_go None msgs.
End filter.

(** ** The sampler: xorshift64* *)

Definition sampler_new (seed : Z) : Z := seed ^| 1.

Definition sampler_roll (s : Z) : f64 * Z :=
  let x := s in
  let x := x ^^ (x ^>> 12) in
  let x := x ^^ wrap64 (x ^<< 25) in
  let x := x ^^ (x ^>> 27) in
  (f64_div (f64_of_Z (wrap64 (x * 0x2545F4914F6CDD1D) ^>> 11)) (f64_of_Z (2 ^ 53)), x).

(** ** The dropping decision *)

Lemma max_by_key_spec key best l :
  match max_by_key key best l with
  | None => best = None /\ l = []
  | Some w =>
      (exists l1 l2, l = l1 ++ w :: l2 /\ Forall (fun r => key r < key w) l2 /\
         Forall (fun r => key r <= key w) l1 /\
         forall b, best = Some b -> key b <= key w) \/
      (best = Some w /\ Forall (fun r => key r < key w) l)
  end.
Proof.
  revert best. induction l as [|r l IH]; intros best; cbn.
  { destruct best; [right; split; [done|constructor]|done]. }
  assert (Hr : forall b, match max_by_key key b (r :: l) with _ => True end) by done. clear Hr.
  destruct best as [b|].
  - destruct (Z.leb_spec (key b) (key r)) as [Hle|Hlt].
    + specialize (IH (Some r)). destruct (max_by_key key (Some r) l) as [w|]; [|naive_solver].
      left. destruct IH as [(l1 & l2 & -> & H2 & H1 & Hb)|[[= <-] H]].
      * exists (r :: l1), l2. specialize (Hb r eq_refl). split_and!; [done|done|by constructor|].
        intros ? [= <-]. lia.
      * exists [], l. split_and!; [done|done|constructor|]. intros ? [= <-]. lia.
    + specialize (IH (Some b)). destruct (max_by_key key (Some b) l) as [w|]; [|naive_solver].
      destruct IH as [(l1 & l2 & -> & H2 & H1 & Hb)|[[= <-] H]].
      * left. exists (r :: l1), l2. specialize (Hb b eq_refl).
        split_and!; [done|done|constructor; [lia|done]|]. intros ? [= <-]. lia.
      * right. split; [done|]. by constructor.
  - specialize (IH (Some r)). destruct (max_by_key key (Some r) l) as [w|]; [|naive_solver].
    left. destruct IH as [(l1 & l2 & -> & H2 & H1 & Hb)|[[= <-] H]].
    + exists (r :: l1), l2. specialize (Hb r eq_refl). split_and!; [done|done|by constructor|done].
    + exists [], l. split_and!; [done|done|constructor|done].
Qed.

(** A message is dropped only on the word of the most specific matching
    rule, the last written of equals; a rule of probability one decides without
    touching the generator, any other takes exactly one draw, and with no
    matching rule nothing is dropped and nothing drawn. *)
Theorem drops_spec {G} (roll : G -> f64 * G) (f : Filter) d k labels (g : G) :
  let matching := List.filter (fun r => rule_matches r d k labels) f in
  (matching = [] -> drops roll f d k labels g = (false, g)) /\
  (matching <> [] -> exists l1 w l2,
     matching = l1 ++ w :: l2 /\
     Forall (fun r => specificity r <= specificity w) l1 /\
     Forall (fun r => specificity r < specificity w) l2 /\
     (f64_leb one (probability w) = true -> drops roll f d k labels g = (true, g)) /\
     (f64_leb one (probability w) = false ->
        drops roll f d k labels g = (f64_ltb (roll g).1 (probability w), (roll g).2))).
Proof.
  cbn zeta. unfold drops, winner. set (m := List.filter _ f).
  pose proof (max_by_key_spec specificity None m) as H. split.
  - intros ->. done.
  - intros Hne. destruct (max_by_key specificity None m) as [w|]; [|naive_solver].
    destruct H as [(l1 & l2 & Hm & H2 & H1 & _)|[[=] _]].
    exists l1, w, l2. split_and!; [done|done|done|by intros ->|].
    intros ->. by destruct (roll g).
Qed.

(** ** Matchers identify rules *)

Definition unique_matchers (f : Filter) : Prop := NoDup (matcher <$> f).

Lemma elem_of_merge_rule rules rule r :
  r ∈ merge_rule rules rule -> r = rule \/ r ∈ rules.
Proof.
  induction rules as [|x l IH]; cbn [merge_rule]; [set_solver|].
  case_decide; rewrite !elem_of_cons; naive_solver.
Qed.

Lemma merge_rule_fmap rules rule :
  matcher <$> merge_rule rules rule =
  if bool_decide (matcher rule ∈ (matcher <$> rules)) then (matcher <$> rules : list _)
  else (matcher <$> rules) ++ [matcher rule].
Proof.
  induction rules as [|x l IH]; [reflexivity|]. cbn [merge_rule].
  destruct (decide (matcher x = matcher rule)) as [Hx|Hx]; rewrite !fmap_cons.
  - rewrite bool_decide_true by (rewrite Hx; left). by rewrite Hx.
  - rewrite IH. case_bool_decide as Hin.
    + by rewrite bool_decide_true by (by right).
    + rewrite bool_decide_false; [done|]. rewrite elem_of_cons. intros [|]; congruence.
Qed.

Lemma merge_rule_unique rules rule :
  unique_matchers rules -> unique_matchers (merge_rule rules rule).
Proof.
  unfold unique_matchers. intros Hu. rewrite merge_rule_fmap. case_bool_decide as Hin; [done|].
  apply NoDup_app. split_and!; [done| |apply NoDup_singleton].
  intros x Hx Hs. apply list_elem_of_singleton in Hs. congruence.
Qed.

Lemma merge_rule_in rules rule : rule ∈ merge_rule rules rule.
Proof.
  induction rules as [|x l IH]; cbn [merge_rule]; [left|]. case_decide; [left|by right].
Qed.

Lemma merge_rule_keeps rules rule r :
  r ∈ rules -> matcher r <> matcher rule -> r ∈ merge_rule rules rule.
Proof.
  induction rules as [|x l IH]; intros Hin Hne; [by apply not_elem_of_nil in Hin|]. cbn [merge_rule]. case_decide.
  - apply elem_of_cons in Hin as [->|Hin]; [congruence|by right].
  - apply elem_of_cons in Hin as [->|Hin]; [left|right; auto].
Qed.

Lemma merge_rule_same rules rule :
  unique_matchers rules -> rule ∈ rules -> merge_rule rules rule = rules.
Proof.
  induction rules as [|x l IH]; intros Hu Hin; [by apply not_elem_of_nil in Hin|].
  cbn [merge_rule].
  unfold unique_matchers in Hu. rewrite fmap_cons, NoDup_cons in Hu. destruct Hu as [Hx Hu].
  apply elem_of_cons in Hin as [->|Hin]; [by rewrite decide_True|].
  rewrite decide_False; [by rewrite IH|]. intros He. apply Hx. rewrite He.
  by apply list_elem_of_fmap_2.
Qed.

Lemma merge_all_same incoming : forall rules,
  unique_matchers rules -> (forall r, r ∈ incoming -> r ∈ rules) ->
  fold_left merge_rule incoming rules = rules.
Proof.
  induction incoming as [|i l IH]; intros rules Hu Hin; [done|]. cbn.
  rewrite merge_rule_same by (done || apply Hin; left). apply IH; [done|].
  intros r Hr. apply Hin. by right.
Qed.

Lemma merge_all_spec incoming : forall rules,
  unique_matchers rules -> NoDup (matcher <$> incoming) ->
  unique_matchers (fold_left merge_rule incoming rules) /\
  (forall r, r ∈ incoming -> r ∈ fold_left merge_rule incoming rules) /\
  (forall r, r ∈ rules -> matcher r ∉ (matcher <$> incoming) ->
     r ∈ fold_left merge_rule incoming rules) /\
  (forall r, r ∈ fold_left merge_rule incoming rules -> r ∈ incoming \/ r ∈ rules).
Proof.
  induction incoming as [|i l IH]; intros rules Hu Hi; cbn [fold_left].
  { split_and!; [done|set_solver|auto|auto]. }
  rewrite fmap_cons, NoDup_cons in Hi. destruct Hi as [Hni Hi].
  destruct (IH (merge_rule rules i) (merge_rule_unique _ _ Hu) Hi) as (H1 & H2 & H3 & H4).
  split_and!; [done| | |].
  - intros r [->|Hr]%elem_of_cons; [|auto]. apply H3; [apply merge_rule_in|done].
  - intros r Hr. rewrite fmap_cons, not_elem_of_cons. intros [Hne Hnl].
    apply H3; [by apply merge_rule_keeps|done].
  - intros r Hr. apply H4 in Hr as [Hr|Hr]; [left; by right|].
    apply elem_of_merge_rule in Hr as [->|Hr]; [left; left|by right].
Qed.

(** Merging rules keeps one rule per matcher, puts every incoming rule in
    the filter in place of the one it matches, keeps every other rule and
    invents none; merging the same rules again changes nothing; and removing
    the same matchers afterwards leaves none of them. *)
Theorem merge_rules_spec (f : Filter) (incoming : list Rule) :
  unique_matchers f -> NoDup (matcher <$> incoming) ->
  let f' := (merge_rules f incoming).1 in
  unique_matchers f' /\
  (forall r, r ∈ f' <-> r ∈ incoming \/ (r ∈ f /\ matcher r ∉ (matcher <$> incoming))) /\
  (merge_rules f' incoming).1 = f' /\
  (forall r, r ∈ (remove_rules f' incoming).1 -> r ∈ f /\ matcher r ∉ (matcher <$> incoming)).
Proof.
  intros Hu Hi f'. destruct (merge_all_spec incoming f Hu Hi) as (H1 & H2 & H3 & H4).
  change (fold_left merge_rule incoming f) with f' in *.
  assert (Hin : forall r, r ∈ f' <-> r ∈ incoming \/ (r ∈ f /\ matcher r ∉ (matcher <$> incoming))).
  { intros r. split; [|intros [|[]]; auto]. intros Hr. destruct (H4 r Hr) as [|Hf]; [by left|].
    destruct (decide (matcher r ∈ (matcher <$> incoming))) as [Hm|Hm]; [left|by right].
    apply list_elem_of_fmap in Hm as (r' & He & Hr').
    enough (r = r') as -> by done. specialize (H2 r' Hr').
    apply list_elem_of_lookup in Hr as [i Hir], H2 as [j Hjr].
    enough (i = j) as -> by congruence.
    eapply NoDup_lookup; [exact H1| |]; rewrite list_lookup_fmap.
    - by rewrite Hir.
    - rewrite Hjr. cbn. by rewrite He. }
  split_and!; [done|exact Hin| |].
  - apply merge_all_same; [done|]. intros r Hr. by apply H2.
  - intros r Hr. unfold remove_rules in Hr. cbn [fst] in Hr.
    apply list_elem_of_In, filter_In in Hr as [Hr Hn]. apply list_elem_of_In, Hin in Hr.
    apply negb_true_iff in Hn.
    assert (Hm : matcher r ∉ (matcher <$> incoming)).
    { intros (r' & He & Hr')%list_elem_of_fmap. apply not_true_iff_false in Hn. apply Hn.
      apply existsb_exists. exists r'. rewrite bool_decide_eq_true. split; [|done].
      by apply list_elem_of_In. }
    destruct Hr as [Hr|Hr]; [|done]. exfalso. apply Hm. by apply list_elem_of_fmap_2.
Qed.

(** ** Progression is never filtered *)

Section outbound.
Context `{Json}.

Lemma outbound_tag_go_spec tag msgs t :
  outbound_tag_go tag msgs = Some t ->
  (forall t0, tag = Some t0 -> t = t0) /\ Forall (fun m => one_outbound_tag m = Some t) msgs.
Proof.
  revert tag. induction msgs as [|m msgs IH]; intros tag; cbn.
  { intros ->. split; [by intros ? [= ->]|constructor]. }
  destruct (one_outbound_tag m) as [this|] eqn:Em; [|done]. cbn.
  destruct tag as [first|].
  - case_decide as He; [|done]. intros Hg. destruct (IH _ Hg) as [H1 H2].
    specialize (H1 first eq_refl). subst. split; [by intros ? [= ->]|by constructor].
  - intros Hg. destruct (IH _ Hg) as [H1 H2]. specialize (H1 this eq_refl). subst.
    split; [done|by constructor].
Qed.

(** A frame can be named by a rule only when every packet in it says the
    same thing and that thing is chat or one of the three echoed replies; so a
    frame carrying any item delivery, connection reply, scout result or room
    update is never dropped, whatever the rules. *)
Theorem outbound_tag_spec (msgs : list ServerPacket) (t : Kind * list string) :
  outbound_tag msgs = Some t ->
  Forall (fun m => one_outbound_tag m = Some t) msgs /\
  travels t.1 ToSlot = true /\
  Forall (fun m => match m with
                   | PrintJSON _ | Echo _ => True
                   | _ => False
                   end) msgs.
Proof.
  intros Ht. apply outbound_tag_go_spec in Ht as Ht'. destruct Ht' as [_ Hf].
  assert (Hone : forall m, one_outbound_tag m = Some t ->
    travels t.1 ToSlot = true /\ match m with PrintJSON _ | Echo _ => True | _ => False end).
  { intros m Hm. destruct m; cbn in Hm; try done.
    - injection Hm as <-. done.
    - destruct (map_get m "cmd") as [v|]; [|done]. cbn in Hm.
      destruct (v_as_str v) as [c|]; [|done]. cbn in Hm.
      repeat case_match; simplify_eq; done. }
  split_and!; [done| |].
  - destruct msgs as [|m msgs]; [done|]. inversion Hf; subst. by apply (Hone m).
  - eapply Forall_impl; [exact Hf|]. intros m Hm. by apply Hone.
Qed.
End outbound.

(** ** The stored form *)

(** What the reader guarantees of a rule. *)
Definition rule_valid (r : Rule) : Prop :=
  travels (kind r) (direction r) = true /\
  (forall t, tag r = Some t -> kind r = KBounce /\ t <> ""%string) /\
  (forall t, subtype r = Some t -> kind r = KPrintJson /\ t <> ""%string) /\
  f64_leb zero (probability r) = true /\ f64_leb (probability r) one = true.

Section stored.
Context `{Json}.

Lemma optional_ok o name t :
  optional o name = Ok (Some t) -> t <> ""%string.
Proof.
  unfold optional. destruct (shape <$> map_get o name) as [[]|]; try done.
  unfold str_eqb. case_bool_decide; [done|]. by intros [= <-].
Qed.

Lemma read_probability_ok o p :
  read_probability o = Ok p -> f64_leb zero p = true /\ f64_leb p one = true.
Proof.
  unfold read_probability. destruct (map_get o "p") as [w|]; [|by intros [= <-]].
  destruct (shape w) eqn:Es; intros Hp; try (by injection Hp as <-); inv_ok;
    destruct (f64_leb zero a && f64_leb a one) eqn:E; cbn [negb] in Hp; inv_ok; subst;
    by apply andb_true_iff in E.
Qed.

Lemma rule_from_json_valid v r : rule_from_json v = Ok r -> rule_valid r.
Proof.
  unfold rule_from_json. intros Hr. inv_ok.
  destruct (negb (travels a3 a1)) eqn:Ht; [done|]. apply negb_false_iff in Ht. inv_ok.
  destruct (bool_decide (a4 <> None) && negb (bool_decide (a3 = KBounce))) eqn:E1; [done|].
  destruct (bool_decide (a5 <> None) && negb (bool_decide (a3 = KPrintJson))) eqn:E2; [done|].
  inv_ok. subst r. apply read_probability_ok in Hok6. unfold rule_valid. cbn.
  split; [done|]. split; [|split; [|done]].
  - intros t ->. split; [|by eapply optional_ok].
    cbn in E1. apply negb_false_iff, bool_decide_eq_true in E1. done.
  - intros t ->. split; [|by eapply optional_ok].
    cbn in E2. apply negb_false_iff, bool_decide_eq_true in E2. done.
Qed.

Lemma optional_absent o name : map_get o name = None -> optional o name = Ok None.
Proof. intros Ho. unfold optional. by rewrite Ho. Qed.

Lemma optional_present o name t :
  map_get o name = Some (v_string t) -> t <> ""%string -> optional o name = Ok (Some t).
Proof.
  intros Ho Hne. unfold optional. rewrite Ho. cbn. unfold v_string.
  by rewrite shape_make, (bool_decide_eq_false_2 _ Hne : str_eqb t "" = false).
Qed.

(** The probability entry of a stored rule: omitted when it is the default. *)
Definition stored_probability (p : f64) : JMap :=
  if negb (f64_eqb p one) then [("p"%string, make (SNumber (num_of_f64 p)))] else [].

Lemma unit_finite p : f64_leb zero p = true -> f64_leb p one = true -> f64_finite p = true.
Proof. by destruct p as [| [] | |]. Qed.

Lemma read_probability_stored o p :
  f64_leb zero p = true -> f64_leb p one = true -> (f64_eqb p one = true -> p = one) ->
  map_get o "p" = map_get (stored_probability p) "p" -> read_probability o = Ok p.
Proof.
  intros H0 H1 Hone Hg. unfold read_probability, stored_probability in *. rewrite Hg.
  destruct (f64_eqb p one) eqn:E; cbn [negb].
  - cbn. f_equal. symmetry. by apply Hone.
  - rewrite map_get_here, shape_make. unfold v_as_f64. rewrite shape_make, num_as_f64_of by (by apply unit_finite). cbn.
    by rewrite H0, H1.
Qed.

(** The object a rule is stored as. *)
Lemma rule_to_json_object d k tg sb p :
  v_as_object (rule_to_json (mkRule d k tg sb p)) =
  Some (("direction"%string, v_string (direction_text d)) :: ("kind"%string, v_string (kind_text k)) ::
        match tg with Some t => [("tag"%string, v_string t)] | None => [] end ++
        match sb with Some t => [("subtype"%string, v_string t)] | None => [] end ++
        stored_probability p).
Proof.
  unfold rule_to_json, v_as_object, stored_probability. rewrite shape_make. cbn.
  destruct tg, sb; cbn; destruct (f64_eqb p one); reflexivity.
Qed.

(** A rule that was read from JSON (a legal direction for its kind, a
    narrowing field only on the kind it belongs to, a probability in [0, 1]) is
    read back unchanged from what is stored for it, defaults omitted; so a
    filter survives a save. *)
Theorem rule_json_round_trip (v : Value) (r : Rule) :
  rule_from_json v = Ok r ->
  (f64_eqb (probability r) one = true -> probability r = one) ->
  rule_from_json (rule_to_json r) = Ok r.
Proof.
  intros Hr Hone. apply rule_from_json_valid in Hr as (Ht & Htag & Hsub & Hp0 & Hp1).
  destruct r as [d k tg sb p]. cbn in *.
  assert (Hd : direction_from_text (direction_text d) = Some d) by (by destruct d).
  assert (Hk : kind_from_text (kind_text k) = Some k) by (by destruct k).
  assert (Hpl : map_get (stored_probability p) "tag" = None /\ map_get (stored_probability p) "subtype" = None).
  { unfold stored_probability. by destruct (negb _). }
  destruct Hpl as [Hpt Hps].
  unfold rule_from_json. rewrite rule_to_json_object. cbn [ok_or mbind result_bind].
  unfold rule_text. rewrite map_get_here. cbn [mbind option_bind].
  rewrite v_as_str_string. cbn [ok_or mbind result_bind]. rewrite Hd. cbn [ok_or mbind result_bind].
  rewrite map_get_skip, map_get_here by discriminate. cbn [mbind option_bind].
  rewrite v_as_str_string. cbn [ok_or mbind result_bind]. rewrite Hk. cbn [mbind result_bind ok_or].
  rewrite Ht. cbn [negb].
  destruct tg as [t|]; [destruct (Htag t eq_refl) as [-> Hne]|];
    (destruct sb as [s|]; [destruct (Hsub s eq_refl) as [Hks Hnes]; try discriminate Hks|]);
    cbn [app];
    rewrite ?(optional_absent _ "tag"), ?(optional_absent _ "subtype") by (by rewrite !map_get_skip by discriminate);
    try (rewrite (optional_present _ "tag" t) by first [done | by rewrite !map_get_skip, map_get_here by discriminate]);
    try (rewrite (optional_present _ "subtype" s) by first [done | by rewrite !map_get_skip, map_get_here by discriminate]);
    cbn [mbind result_bind].
  all: rewrite ?Hks, (read_probability_stored _ p) by first [done | by rewrite !map_get_skip by discriminate].
  all: done.
Qed.
End stored.

(** ** The theorems at concrete inputs *)

Definition demo_death : Rule := mkRule FromSlot KBounce (Some "DeathLink"%string) None one.
Definition demo_chat : Rule := mkRule ToSlot KPrintJson None None (f64_div one (f64_of_Z 4)).

Lemma merge_rules_spec_witness :
  unique_matchers [demo_death] /\
  unique_matchers (merge_rules [demo_death] [demo_chat]).1 /\
  (merge_rules (merge_rules [demo_death] [demo_chat]).1 [demo_chat]).1
  = (merge_rules [demo_death] [demo_chat]).1.
Proof.
  assert (Hu : forall r, NoDup (matcher <$> [r])) by (intros r; apply NoDup_singleton).
  split; [apply Hu|].
  destruct (merge_rules_spec [demo_death] [demo_chat] (Hu _) (Hu _)) as (H1 & _ & H3 & _).
  split; [exact H1|exact H3].
Defined.

Lemma outbound_tag_spec_witness :
  exists t, outbound_tag (H := tree_json) [Echo [("cmd"%string, v_string "Bounced")]] = Some t /\
  travels t.1 ToSlot = true.
Proof.
  eexists. split; [reflexivity|].
  apply (outbound_tag_spec (H := tree_json) [Echo [("cmd"%string, v_string "Bounced")]]). reflexivity.
Defined.

Lemma rule_json_round_trip_witness :
  rule_from_json (H := tree_json) (rule_to_json (H := tree_json) demo_chat) = Ok demo_chat.
Proof.
  apply (rule_json_round_trip (H := tree_json) (rule_to_json (H := tree_json) demo_chat)).
  - vm_compute. reflexivity.
  - vm_compute. discriminate.
Defined.
