(* ===== verification/Options.v ===== *)
(** * [crates/pahoa-room/src/options.rs], [secret.rs]: the room's settings

    [hint_cost_for] is the source's float product, at binary64. *)

From Stdlib Require Import ZArith Lia Bool SpecFloat.
From stdpp Require Import base tactics list gmap strings.
From S2P Require Import Prelude Types Json.

Record RoomOptions : Type := mkRoomOptions {
  password : option string;
  slot_passwords : option (gmap Z string);
  server_password : option string;
  hint_cost : Z;
  location_check_points : Z;
  release_mode : Permission.t;
  collect_mode : Permission.t;
  remaining_mode : Permission.t;
  countdown_mode : Permission.t;
  item_cheat : bool;
  compatibility : Z;
  tags : list string
}.

Definition options_default : RoomOptions :=
  mkRoomOptions None None None 10 1 Permission.Auto Permission.Auto Permission.Goal
    Permission.Enabled true 2 ["AP"%string].

(** The literal [0.01]: the binary64 number nearest to it. *)
Definition f64_0_01 : f64 := f64_div (f64_of_Z 1) (f64_of_Z 100).

Definition hint_cost_for (o : RoomOptions) (total_locations : nat) : Z :=
  if hint_cost o =? 0 then 0
  else
    let raw := f64_as_i64 (f64_mul (f64_mul (f64_of_Z (hint_cost o)) f64_0_01)
                             (f64_of_Z (Z.of_nat total_locations))) in
    Z.max raw 1.

(** ** [secret.rs] *)

Definition ct_eq (a b : list Byte.byte) : bool :=
  if negb (Nat.eqb (length a) (length b)) then false
  else
    let z x := Z.of_N (Byte.to_N x) in
    let diff := fold_left (fun diff xy => Z.lor diff (Z.lxor (z xy.1) (z xy.2))) (zip a b) 0 in
    diff =? 0.

Definition ct_eq_opt (expected supplied : option string) : bool :=
  match expected with
  | None => true
  | Some expected =>
      match supplied with
      | None => false
      | Some supplied => ct_eq (String.list_byte_of_string expected) (String.list_byte_of_string supplied)
      end
  end.

(** ** Properties *)

Lemma byte_z_inj x y : Z.of_N (Byte.to_N x) = Z.of_N (Byte.to_N y) -> x = y.
Proof.
  intros Hxy. apply N2Z.inj in Hxy. apply (f_equal Byte.of_N) in Hxy.
  rewrite !Byte.of_to_N in Hxy. congruence.
Qed.

(** The accumulator only collects bits. *)
Lemma ct_fold_zero (l : list (Byte.byte * Byte.byte)) acc :
  fold_left (fun diff xy => Z.lor diff (Z.lxor (Z.of_N (Byte.to_N xy.1)) (Z.of_N (Byte.to_N xy.2)))) l acc = 0 <->
  acc = 0 /\ Forall (fun xy => xy.1 = xy.2) l.
Proof.
  revert acc. induction l as [|[x y] l IH]; intros acc; cbn [fold_left fst snd].
  { split; [|by intros []]. intros ->. by split. }
  rewrite IH, Z.lor_eq_0_iff, Z.lxor_eq_0_iff, Forall_cons. cbn [fst snd]. split.
  - intros [[-> Hxy] Hl]. by apply byte_z_inj in Hxy.
  - by intros (-> & -> & Hl).
Qed.

Lemma ct_eq_spec a b : ct_eq a b = true <-> a = b.
Proof.
  unfold ct_eq. destruct (Nat.eqb_spec (length a) (length b)) as [Hl|Hl]; cbn [negb].
  2: { split; [done|]. by intros ->. }
  rewrite Z.eqb_eq, ct_fold_zero. split.
  - intros [_ Hf]. revert b Hl Hf. induction a as [|x a IH]; intros [|y b] Hl Hf; try done.
    cbn in Hf. apply Forall_cons in Hf as [Hxy Hf]. cbn in Hxy. subst. f_equal.
    apply IH; [by injection Hl|done].
  - intros ->. split; [done|]. clear. induction b; cbn; constructor; done.
Qed.

Lemma list_byte_inj s t : String.list_byte_of_string s = String.list_byte_of_string t -> s = t.
Proof.
  intros Hst. rewrite <- (String.string_of_list_byte_of_string s).
  by rewrite Hst, String.string_of_list_byte_of_string.
Qed.

Lemma ct_eq_opt_ok expected supplied :
  ct_eq_opt expected supplied = true <->
  expected = None \/ (exists s, expected = Some s /\ supplied = Some s).
Proof.
  destruct expected as [e|]; cbn; [|naive_solver]. destruct supplied as [s|]; [|naive_solver].
  rewrite ct_eq_spec. split.
  - intros He. apply list_byte_inj in He. right. exists e. by subst.
  - intros [?|(s' & [= ->] & [= ->])]; done.
Qed.

(** The constant-time comparison accepts exactly equal secrets, a missing
    expectation accepts anything, and an expectation is never met by nothing. *)
Theorem ct_eq_opt_spec expected supplied :
  (ct_eq_opt expected supplied = true <->
     expected = None \/ (exists s, expected = Some s /\ supplied = Some s)) /\
  (forall s, expected = Some s -> ct_eq_opt expected None = false).
Proof. split; [apply ct_eq_opt_ok|]. by intros s ->. Qed.
