(* ===== verification/Effects.v ===== *)
(** * [crates/pahoa-room/src/effect.rs], [redundant.rs]: what the room emits

    The sink is a trait the transport implements; here the effects are values,
    one constructor per method, emitted in the order of the calls.  A
    [JournalEvent] is the call that builds it, and [event_value] the JSON object
    it holds.  The process-wide counters of [redundant.rs] are an effect too. *)

From Stdlib Require Import ZArith Lia Bool.
From stdpp Require Import base tactics list gmap strings pretty.
From S2P Require Import Prelude PyObj Types Json Conn Packets Hints Filter Options.

Inductive Recipients : Type :=
| RAll
| RAllText
| RSlot (key : SlotKey)
| RSlotText (key : SlotKey)
| RAllTextAbout (key : SlotKey)
| RAllTextFull
| RSlotScopedText (key : SlotKey)
| RThese (conns : list ConnId).

Inductive CloseReason : Type := ProtocolError (text : string) | TooSlow | ServerShutdown | Kicked.

Inductive Trigger : Type := TGoal | TAdmin | TPlayer | TGroup.

Definition trigger_text (t : Trigger) : string :=
  match t with TGoal => "goal" | TAdmin => "admin" | TPlayer => "player" | TGroup => "group" end.

Record CheckRecord : Type := mkCheckRecord {
  cr_at : f64;
  cr_finder : Z;
  cr_receiver : Z;
  cr_item : Z;
  cr_location : Z;
  cr_flags : Z
}.

Inductive RedundantKind : Type := LocationCheck | RedundantHint.

Section effects.
Context `{Json}.

(** The constructor functions of [JournalEvent]. *)
Inductive JournalEvent : Type :=
| JStarted (at_ : f64) (version build_rev : string)
| JStopped (at_ : f64) (reason version build_rev : string)
| JConnected (at_ : f64) (key : SlotKey) (player game version : string) (tags : list string)
| JDisconnected (at_ : f64) (key : SlotKey) (player : string) (tags : list string)
    (slot_empty : bool) (reason : string)
| JTagsChanged (at_ : f64) (key : SlotKey) (player : string) (from to_ : list string)
| JGoal (at_ : f64) (key : SlotKey) (player game : string)
| JAdmin (at_ : f64) (command : string) (slot : option Z) (detail : Value)
| JReleaseOrCollect (at_ : f64) (kind : string) (key : SlotKey) (player : string)
    (trigger : Trigger) (items : nat)
| JOptions (at_ : f64) (options : RoomOptions)
| JOptionChanged (at_ : f64) (option_ value : string)
| JSlotPasswordChanged (at_ : f64) (slot : Z) (set : bool)
| JHints (at_ : f64) (key : SlotKey) (player : string) (granted : list string)
    (cost points_before points_after : Z)
| JCheat (at_ : f64) (key : SlotKey) (player : string) (item : Z) (item_name : string)
| JLink (at_ : f64) (kind : string) (key : SlotKey) (player : string) (source : option string)
    (recipients : nat) (extra : JMap)
| JChat (at_ : f64) (key : SlotKey) (text : string).

(** [Value::from(f64)]: a number when finite, else null. *)
Definition v_f64 (f : f64) : Value :=
  if f64_finite f then make (SNumber (num_of_f64 f)) else v_null.

Definition v_bool (b : bool) : Value := make (SBool b).
Definition v_strings (l : list string) : Value := make (SArray (v_string <$> l)).
Definition v_opt {A} (f : A -> Value) (o : option A) : Value :=
  match o with Some a => f a | None => v_null end.

(** The fields of [json!], before [type] is added. *)
Definition event_fields (e : JournalEvent) : string * JMap :=
  match e with
  | JStarted a v b => ("started", [("at", v_f64 a); ("version", v_string v); ("build_rev", v_string b)])
  | JStopped a r v b =>
      ("stopped", [("at", v_f64 a); ("reason", v_string r); ("version", v_string v);
                   ("build_rev", v_string b)])
  | JConnected a k p g v t =>
      ("connected", [("at", v_f64 a); ("team", v_int k.1); ("slot", v_int k.2);
                     ("player", v_string p); ("game", v_string g); ("version", v_string v);
                     ("tags", v_strings t)])
  | JDisconnected a k p t e r =>
      ("disconnected", [("at", v_f64 a); ("team", v_int k.1); ("slot", v_int k.2);
                        ("player", v_string p); ("tags", v_strings t); ("slot_empty", v_bool e);
                        ("reason", v_string r)])
  | JTagsChanged a k p f t =>
      ("tags_changed", [("at", v_f64 a); ("team", v_int k.1); ("slot", v_int k.2);
                        ("player", v_string p); ("from", v_strings f); ("to", v_strings t)])
  | JGoal a k p g =>
      ("goal", [("at", v_f64 a); ("team", v_int k.1); ("slot", v_int k.2); ("player", v_string p);
                ("game", v_string g)])
  | JAdmin a c s d =>
      ("admin", [("at", v_f64 a); ("command", v_string c); ("slot", v_opt v_int s); ("detail", d)])
  | JReleaseOrCollect a kd k p t n =>
      (kd, [("at", v_f64 a); ("team", v_int k.1); ("slot", v_int k.2); ("player", v_string p);
            ("trigger", v_string (trigger_text t)); ("items", v_int (Z.of_nat n))])
  | JOptions a o =>
      ("options", [("at", v_f64 a); ("hint_cost", v_int (hint_cost o));
                   ("location_check_points", v_int (location_check_points o));
                   ("release_mode", v_string (Permission.as_text (release_mode o)));
                   ("collect_mode", v_string (Permission.as_text (collect_mode o)));
                   ("remaining_mode", v_string (Permission.as_text (remaining_mode o)));
                   ("countdown_mode", v_string (Permission.as_text (countdown_mode o)));
                   ("item_cheat", v_bool (item_cheat o));
                   ("compatibility", v_int (compatibility o));
                   ("password_mode", v_string match password o, slot_passwords o with
                                              | _, Some _ => "per-slot"
                                              | Some _, None => "room"
                                              | None, None => "none"
                                              end);
                   ("server_password_set", v_bool (bool_decide (is_Some (server_password o))))])
  | JOptionChanged a o v =>
      ("option_changed", [("at", v_f64 a); ("option", v_string o); ("value", v_string v)])
  | JSlotPasswordChanged a s b =>
      ("slot_password_changed", [("at", v_f64 a); ("slot", v_int s); ("set", v_bool b)])
  | JHints a k p g c b t =>
      ("hints", [("at", v_f64 a); ("team", v_int k.1); ("slot", v_int k.2); ("player", v_string p);
                 ("granted", v_strings g); ("cost", v_int c); ("points_before", v_int b);
                 ("points_after", v_int t)])
  | JCheat a k p i n =>
      ("cheat", [("at", v_f64 a); ("team", v_int k.1); ("slot", v_int k.2); ("player", v_string p);
                 ("item", v_int i); ("item_name", v_string n)])
  | JLink a kd k p s n extra =>
      (kd, fold_left (fun m kv => map_insert m kv.1 kv.2) extra
             ([("at", v_f64 a); ("team", v_int k.1); ("slot", v_int k.2); ("player", v_string p);
               ("source", v_opt v_string s); ("recipients", v_int (Z.of_nat n))] : JMap))
  | JChat a k t => ("chat", [("at", v_f64 a); ("team", v_int k.1); ("slot", v_int k.2);
                             ("text", v_string t)])
  end%string.

(** [JournalEvent::new]. *)
Definition event_value (e : JournalEvent) : Value :=
  let '(kind, fields) := event_fields e in
  make (SObject (map_insert fields "type" (v_string kind))).

(** [JournalEvent::kind]. *)
Definition event_kind (e : JournalEvent) : string :=
  default ""%string (o ← v_as_object (event_value e); v ← map_get o "type"; v_as_str v).

(** The methods of [EffectSink], [redundant::record], and the record of a drop in
    [filter.rs]. *)
Inductive Effect : Type :=
| ESend (to_ : ConnId) (msgs : list ServerPacket)
| EBroadcast (to_ : Recipients) (msgs : list ServerPacket)
| EClose (conn : ConnId) (reason : CloseReason)
| EDirty
| EMembership (conn : ConnId) (auth no_text : bool) (slot : option SlotKey)
| EFilter (conn : ConnId) (filter : option Filter)
| EJournalCheck (record : CheckRecord)
| EJournalEvent (event : JournalEvent)
| ERedundant (key : SlotKey) (kind : RedundantKind) (count : nat)
| EDrop (record : DropKey).
End effects.
