(* ===== verification/Room.v ===== *)
(** * [crates/pahoa-room/src/room.rs], part 1: the state and the views of it

    [Room] has the source's fields, prefixed [r_]; the rendered data package is
    a cache of [r_datapackage] and is left out, and an [Arc] is its content.
    Handlers are computations in [M]: they read and replace the room, emit
    effects in order, and stop on a panic, on a recursion that outruns its fuel,
    or when the generator's rejection loop draws more than [DRAWS] times.  A hash map or set is
    iterated in an order the class [HashOrder] leaves open. *)

From Stdlib Require Import ZArith Lia Bool SpecFloat.
From stdpp Require Import base tactics list sets gmap strings pretty sorting.
From S2P Require Import Prelude PyRandom PyObj Locations Types Datapackage Multidata Conn Hints Json.
From S2P Require Import PyValue SlotData Packets Filter Options Effects.

Definition QueueKey : Type := Z * Z * bool.

Record Countdown : Type := mkCountdown { remaining : Z; next_at : f64 }.

Definition PRINT_JSON_CHUNK : nat := 140.

(** Iteration over a [HashMap] or [HashSet]: any order at all. *)
Class HashOrder : Type := {
  hash_order : forall {A : Type}, list A -> list A;
  hash_order_perm : forall {A : Type} (l : list A), hash_order l ≡ₚ l
}.

Section room.
Context `{Json}.

Record Room : Type := mkRoom {
  r_data : MultiData;
  r_datapackage : DataPackage;
  r_options : RoomOptions;
  r_clients : gmap ConnId Client;
  r_by_slot : gmap SlotKey (list ConnId);
  r_location_checks : gmap SlotKey (gset Z);
  r_received_items : gmap QueueKey (list NetworkItem);
  r_client_game_state : gmap SlotKey ClientStatus.t;
  r_name_aliases : gmap SlotKey string;
  r_activity_at : gmap SlotKey f64;
  r_connected_at : gmap SlotKey f64;
  r_hints_used : gmap SlotKey Z;
  r_hints : HintStore;
  r_rng : PyRandom;
  r_allow_releases : gset SlotKey;
  r_filters : gmap string Filter;
  r_sampler : Z;
  r_locked_slots : gset SlotKey;
  r_group_collected : gmap Z (gset Z);
  r_countdown : option Countdown;
  r_admin_conn : option ConnId;
  r_stored_data : gmap string Value;
  r_stored_data_subscriptions : gmap string (gset ConnId);
  r_stored_data_bytes : Z;
  r_start_time : f64;
  r_clock : f64
}.

(** The assignments. *)
Definition set_options (x : RoomOptions) (r : Room) : Room :=
  mkRoom (r_data r) (r_datapackage r) x (r_clients r) (r_by_slot r) (r_location_checks r)
    (r_received_items r) (r_client_game_state r) (r_name_aliases r) (r_activity_at r)
    (r_connected_at r) (r_hints_used r) (r_hints r) (r_rng r) (r_allow_releases r) (r_filters r)
    (r_sampler r) (r_locked_slots r) (r_group_collected r) (r_countdown r) (r_admin_conn r)
    (r_stored_data r) (r_stored_data_subscriptions r) (r_stored_data_bytes r) (r_start_time r)
    (r_clock r).
Definition set_clients (x : gmap ConnId Client) (r : Room) : Room :=
  mkRoom (r_data r) (r_datapackage r) (r_options r) x (r_by_slot r) (r_location_checks r)
    (r_received_items r) (r_client_game_state r) (r_name_aliases r) (r_activity_at r)
    (r_connected_at r) (r_hints_used r) (r_hints r) (r_rng r) (r_allow_releases r) (r_filters r)
    (r_sampler r) (r_locked_slots r) (r_group_collected r) (r_countdown r) (r_admin_conn r)
    (r_stored_data r) (r_stored_data_subscriptions r) (r_stored_data_bytes r) (r_start_time r)
    (r_clock r).
Definition set_by_slot (x : gmap SlotKey (list ConnId)) (r : Room) : Room :=
  mkRoom (r_data r) (r_datapackage r) (r_options r) (r_clients r) x (r_location_checks r)
    (r_received_items r) (r_client_game_state r) (r_name_aliases r) (r_activity_at r)
    (r_connected_at r) (r_hints_used r) (r_hints r) (r_rng r) (r_allow_releases r) (r_filters r)
    (r_sampler r) (r_locked_slots r) (r_group_collected r) (r_countdown r) (r_admin_conn r)
    (r_stored_data r) (r_stored_data_subscriptions r) (r_stored_data_bytes r) (r_start_time r)
    (r_clock r).
Definition set_location_checks (x : gmap SlotKey (gset Z)) (r : Room) : Room :=
  mkRoom (r_data r) (r_datapackage r) (r_options r) (r_clients r) (r_by_slot r) x
    (r_received_items r) (r_client_game_state r) (r_name_aliases r) (r_activity_at r)
    (r_connected_at r) (r_hints_used r) (r_hints r) (r_rng r) (r_allow_releases r) (r_filters r)
    (r_sampler r) (r_locked_slots r) (r_group_collected r) (r_countdown r) (r_admin_conn r)
    (r_stored_data r) (r_stored_data_subscriptions r) (r_stored_data_bytes r) (r_start_time r)
    (r_clock r).
Definition set_received_items (x : gmap QueueKey (list NetworkItem)) (r : Room) : Room :=
  mkRoom (r_data r) (r_datapackage r) (r_options r) (r_clients r) (r_by_slot r)
    (r_location_checks r) x (r_client_game_state r) (r_name_aliases r) (r_activity_at r)
    (r_connected_at r) (r_hints_used r) (r_hints r) (r_rng r) (r_allow_releases r) (r_filters r)
    (r_sampler r) (r_locked_slots r) (r_group_collected r) (r_countdown r) (r_admin_conn r)
    (r_stored_data r) (r_stored_data_subscriptions r) (r_stored_data_bytes r) (r_start_time r)
    (r_clock r).
Definition set_client_game_state (x : gmap SlotKey ClientStatus.t) (r : Room) : Room :=
  mkRoom (r_data r) (r_datapackage r) (r_options r) (r_clients r) (r_by_slot r)
    (r_location_checks r) (r_received_items r) x (r_name_aliases r) (r_activity_at r)
    (r_connected_at r) (r_hints_used r) (r_hints r) (r_rng r) (r_allow_releases r) (r_filters r)
    (r_sampler r) (r_locked_slots r) (r_group_collected r) (r_countdown r) (r_admin_conn r)
    (r_stored_data r) (r_stored_data_subscriptions r) (r_stored_data_bytes r) (r_start_time r)
    (r_clock r).
Definition set_name_aliases (x : gmap SlotKey string) (r : Room) : Room :=
  mkRoom (r_data r) (r_datapackage r) (r_options r) (r_clients r) (r_by_slot r)
    (r_location_checks r) (r_received_items r) (r_client_game_state r) x (r_activity_at r)
    (r_connected_at r) (r_hints_used r) (r_hints r) (r_rng r) (r_allow_releases r) (r_filters r)
    (r_sampler r) (r_locked_slots r) (r_group_collected r) (r_countdown r) (r_admin_conn r)
    (r_stored_data r) (r_stored_data_subscriptions r) (r_stored_data_bytes r) (r_start_time r)
    (r_clock r).
Definition set_activity_at (x : gmap SlotKey f64) (r : Room) : Room :=
  mkRoom (r_data r) (r_datapackage r) (r_options r) (r_clients r) (r_by_slot r)
    (r_location_checks r) (r_received_items r) (r_client_game_state r) (r_name_aliases r) x
    (r_connected_at r) (r_hints_used r) (r_hints r) (r_rng r) (r_allow_releases r) (r_filters r)
    (r_sampler r) (r_locked_slots r) (r_group_collected r) (r_countdown r) (r_admin_conn r)
    (r_stored_data r) (r_stored_data_subscriptions r) (r_stored_data_bytes r) (r_start_time r)
    (r_clock r).
Definition set_connected_at (x : gmap SlotKey f64) (r : Room) : Room :=
  mkRoom (r_data r) (r_datapackage r) (r_options r) (r_clients r) (r_by_slot r)
    (r_location_checks r) (r_received_items r) (r_client_game_state r) (r_name_aliases r)
    (r_activity_at r) x (r_hints_used r) (r_hints r) (r_rng r) (r_allow_releases r) (r_filters r)
    (r_sampler r) (r_locked_slots r) (r_group_collected r) (r_countdown r) (r_admin_conn r)
    (r_stored_data r) (r_stored_data_subscriptions r) (r_stored_data_bytes r) (r_start_time r)
    (r_clock r).
Definition set_hints_used (x : gmap SlotKey Z) (r : Room) : Room :=
  mkRoom (r_data r) (r_datapackage r) (r_options r) (r_clients r) (r_by_slot r)
    (r_location_checks r) (r_received_items r) (r_client_game_state r) (r_name_aliases r)
    (r_activity_at r) (r_connected_at r) x (r_hints r) (r_rng r) (r_allow_releases r)
    (r_filters r) (r_sampler r) (r_locked_slots r) (r_group_collected r) (r_countdown r)
    (r_admin_conn r) (r_stored_data r) (r_stored_data_subscriptions r) (r_stored_data_bytes r)
    (r_start_time r) (r_clock r).
Definition set_hints (x : HintStore) (r : Room) : Room :=
  mkRoom (r_data r) (r_datapackage r) (r_options r) (r_clients r) (r_by_slot r)
    (r_location_checks r) (r_received_items r) (r_client_game_state r) (r_name_aliases r)
    (r_activity_at r) (r_connected_at r) (r_hints_used r) x (r_rng r) (r_allow_releases r)
    (r_filters r) (r_sampler r) (r_locked_slots r) (r_group_collected r) (r_countdown r)
    (r_admin_conn r) (r_stored_data r) (r_stored_data_subscriptions r) (r_stored_data_bytes r)
    (r_start_time r) (r_clock r).
Definition set_rng (x : PyRandom) (r : Room) : Room :=
  mkRoom (r_data r) (r_datapackage r) (r_options r) (r_clients r) (r_by_slot r)
    (r_location_checks r) (r_received_items r) (r_client_game_state r) (r_name_aliases r)
    (r_activity_at r) (r_connected_at r) (r_hints_used r) (r_hints r) x (r_allow_releases r)
    (r_filters r) (r_sampler r) (r_locked_slots r) (r_group_collected r) (r_countdown r)
    (r_admin_conn r) (r_stored_data r) (r_stored_data_subscriptions r) (r_stored_data_bytes r)
    (r_start_time r) (r_clock r).
Definition set_allow_releases (x : gset SlotKey) (r : Room) : Room :=
  mkRoom (r_data r) (r_datapackage r) (r_options r) (r_clients r) (r_by_slot r)
    (r_location_checks r) (r_received_items r) (r_client_game_state r) (r_name_aliases r)
    (r_activity_at r) (r_connected_at r) (r_hints_used r) (r_hints r) (r_rng r) x (r_filters r)
    (r_sampler r) (r_locked_slots r) (r_group_collected r) (r_countdown r) (r_admin_conn r)
    (r_stored_data r) (r_stored_data_subscriptions r) (r_stored_data_bytes r) (r_start_time r)
    (r_clock r).
Definition set_filters (x : gmap string Filter) (r : Room) : Room :=
  mkRoom (r_data r) (r_datapackage r) (r_options r) (r_clients r) (r_by_slot r)
    (r_location_checks r) (r_received_items r) (r_client_game_state r) (r_name_aliases r)
    (r_activity_at r) (r_connected_at r) (r_hints_used r) (r_hints r) (r_rng r)
    (r_allow_releases r) x (r_sampler r) (r_locked_slots r) (r_group_collected r) (r_countdown r)
    (r_admin_conn r) (r_stored_data r) (r_stored_data_subscriptions r) (r_stored_data_bytes r)
    (r_start_time r) (r_clock r).
Definition set_sampler (x : Z) (r : Room) : Room :=
  mkRoom (r_data r) (r_datapackage r) (r_options r) (r_clients r) (r_by_slot r)
    (r_location_checks r) (r_received_items r) (r_client_game_state r) (r_name_aliases r)
    (r_activity_at r) (r_connected_at r) (r_hints_used r) (r_hints r) (r_rng r)
    (r_allow_releases r) (r_filters r) x (r_locked_slots r) (r_group_collected r) (r_countdown r)
    (r_admin_conn r) (r_stored_data r) (r_stored_data_subscriptions r) (r_stored_data_bytes r)
    (r_start_time r) (r_clock r).
Definition set_locked_slots (x : gset SlotKey) (r : Room) : Room :=
  mkRoom (r_data r) (r_datapackage r) (r_options r) (r_clients r) (r_by_slot r)
    (r_location_checks r) (r_received_items r) (r_client_game_state r) (r_name_aliases r)
    (r_activity_at r) (r_connected_at r) (r_hints_used r) (r_hints r) (r_rng r)
    (r_allow_releases r) (r_filters r) (r_sampler r) x (r_group_collected r) (r_countdown r)
    (r_admin_conn r) (r_stored_data r) (r_stored_data_subscriptions r) (r_stored_data_bytes r)
    (r_start_time r) (r_clock r).
Definition set_group_collected (x : gmap Z (gset Z)) (r : Room) : Room :=
  mkRoom (r_data r) (r_datapackage r) (r_options r) (r_clients r) (r_by_slot r)
    (r_location_checks r) (r_received_items r) (r_client_game_state r) (r_name_aliases r)
    (r_activity_at r) (r_connected_at r) (r_hints_used r) (r_hints r) (r_rng r)
    (r_allow_releases r) (r_filters r) (r_sampler r) (r_locked_slots r) x (r_countdown r)
    (r_admin_conn r) (r_stored_data r) (r_stored_data_subscriptions r) (r_stored_data_bytes r)
    (r_start_time r) (r_clock r).
Definition set_countdown (x : option Countdown) (r : Room) : Room :=
  mkRoom (r_data r) (r_datapackage r) (r_options r) (r_clients r) (r_by_slot r)
    (r_location_checks r) (r_received_items r) (r_client_game_state r) (r_name_aliases r)
    (r_activity_at r) (r_connected_at r) (r_hints_used r) (r_hints r) (r_rng r)
    (r_allow_releases r) (r_filters r) (r_sampler r) (r_locked_slots r) (r_group_collected r) x
    (r_admin_conn r) (r_stored_data r) (r_stored_data_subscriptions r) (r_stored_data_bytes r)
    (r_start_time r) (r_clock r).
Definition set_admin_conn (x : option ConnId) (r : Room) : Room :=
  mkRoom (r_data r) (r_datapackage r) (r_options r) (r_clients r) (r_by_slot r)
    (r_location_checks r) (r_received_items r) (r_client_game_state r) (r_name_aliases r)
    (r_activity_at r) (r_connected_at r) (r_hints_used r) (r_hints r) (r_rng r)
    (r_allow_releases r) (r_filters r) (r_sampler r) (r_locked_slots r) (r_group_collected r)
    (r_countdown r) x (r_stored_data r) (r_stored_data_subscriptions r) (r_stored_data_bytes r)
    (r_start_time r) (r_clock r).
Definition set_stored_data (x : gmap string Value) (r : Room) : Room :=
  mkRoom (r_data r) (r_datapackage r) (r_options r) (r_clients r) (r_by_slot r)
    (r_location_checks r) (r_received_items r) (r_client_game_state r) (r_name_aliases r)
    (r_activity_at r) (r_connected_at r) (r_hints_used r) (r_hints r) (r_rng r)
    (r_allow_releases r) (r_filters r) (r_sampler r) (r_locked_slots r) (r_group_collected r)
    (r_countdown r) (r_admin_conn r) x (r_stored_data_subscriptions r) (r_stored_data_bytes r)
    (r_start_time r) (r_clock r).
Definition set_stored_data_subscriptions (x : gmap string (gset ConnId)) (r : Room) : Room :=
  mkRoom (r_data r) (r_datapackage r) (r_options r) (r_clients r) (r_by_slot r)
    (r_location_checks r) (r_received_items r) (r_client_game_state r) (r_name_aliases r)
    (r_activity_at r) (r_connected_at r) (r_hints_used r) (r_hints r) (r_rng r)
    (r_allow_releases r) (r_filters r) (r_sampler r) (r_locked_slots r) (r_group_collected r)
    (r_countdown r) (r_admin_conn r) (r_stored_data r) x (r_stored_data_bytes r) (r_start_time r)
    (r_clock r).
Definition set_stored_data_bytes (x : Z) (r : Room) : Room :=
  mkRoom (r_data r) (r_datapackage r) (r_options r) (r_clients r) (r_by_slot r)
    (r_location_checks r) (r_received_items r) (r_client_game_state r) (r_name_aliases r)
    (r_activity_at r) (r_connected_at r) (r_hints_used r) (r_hints r) (r_rng r)
    (r_allow_releases r) (r_filters r) (r_sampler r) (r_locked_slots r) (r_group_collected r)
    (r_countdown r) (r_admin_conn r) (r_stored_data r) (r_stored_data_subscriptions r) x
    (r_start_time r) (r_clock r).
Definition set_clock (x : f64) (r : Room) : Room :=
  mkRoom (r_data r) (r_datapackage r) (r_options r) (r_clients r) (r_by_slot r)
    (r_location_checks r) (r_received_items r) (r_client_game_state r) (r_name_aliases r)
    (r_activity_at r) (r_connected_at r) (r_hints_used r) (r_hints r) (r_rng r)
    (r_allow_releases r) (r_filters r) (r_sampler r) (r_locked_slots r) (r_group_collected r)
    (r_countdown r) (r_admin_conn r) (r_stored_data r) (r_stored_data_subscriptions r)
    (r_stored_data_bytes r) (r_start_time r) x.

(** ** The monad *)

Inductive Stop : Type := Panic | OutOfFuel | Unlucky.

Definition M (A : Type) : Type := Room -> result Stop (A * Room * list Effect).

#[global] Instance M_ret : MRet M := fun A a r => Ok (a, r, []).
#[global] Instance M_bind : MBind M := fun A B k m r =>
  match m r with
  | Ok (a, r1, e1) =>
      match k a r1 with
      | Ok (b, r2, e2) => Ok (b, r2, e1 ++ e2)
      | Err s => Err s
      end
  | Err s => Err s
  end.

Definition read {A} (f : Room -> A) : M A := fun r => Ok (f r, r, []).
Definition write (f : Room -> Room) : M unit := fun r => Ok (tt, f r, []).
Definition emit (e : Effect) : M unit := fun r => Ok (tt, r, [e]).
Definition stop {A} (s : Stop) : M A := fun _ => Err s.
Definition done_ : M unit := mret tt.
Definition when (b : bool) (m : M unit) : M unit := if b then m else done_.

(** [opt.expect(..)] and indexing. *)
Definition expect {A} (o : option A) : M A :=
  match o with Some a => mret a | None => stop Panic end.

(** [let Some(a) = opt else { return }]. *)
Definition on_some {A} (o : option A) (k : A -> M unit) : M unit :=
  match o with Some a => k a | None => done_ end.

Fixpoint each {A} (l : list A) (body : A -> M unit) : M unit :=
  match l with
  | [] => done_
  | a :: l => _ ← body a; each l body
  end.

(** A loop whose body may return from the function with [inr]. *)
Fixpoint each_until {A S R} (l : list A) (s : S) (body : S -> A -> M (S + R)) : M (S + R) :=
  match l with
  | [] => mret (inl s)
  | a :: l =>
      x ← body s a;
      match x with
      | inl s => each_until l s body
      | inr x => mret (inr x)
      end
  end.

(** A use of the room's generator.  Each draw of a rejection loop fails with
    a probability below one half. *)
Definition DRAWS : nat := 256.

Definition draw {A} (f : PyRandom -> option (A * PyRandom)) : M A := fun r =>
  match f (r_rng r) with
  | Some (a, g) => Ok (a, set_rng g r, [])
  | None => Err Unlucky
  end.

Definition send (to_ : ConnId) (msgs : list ServerPacket) : M unit := emit (ESend to_ msgs).
Definition broadcast (to_ : Recipients) (msgs : list ServerPacket) : M unit :=
  emit (EBroadcast to_ msgs).
Definition journal (e : JournalEvent) : M unit := emit (EJournalEvent e).
Definition mark_dirty : M unit := emit EDirty.

(** [redundant::record]: a zero is not recorded. *)
Definition record_redundant (key : SlotKey) (kind : RedundantKind) (count : nat) : M unit :=
  if Nat.eqb count 0 then done_ else emit (ERedundant key kind count).

(** [clients.get_mut(&conn)]. *)
Definition modify_client (conn : ConnId) (f : Client -> Client) : M unit :=
  write (fun r => match r_clients r !! conn with
                  | Some c => set_clients (<[conn := f c]> (r_clients r)) r
                  | None => r
                  end).

(** ** Views *)

Definition client_state (r : Room) (key : SlotKey) : ClientStatus.t :=
  default ClientStatus.Unknown (r_client_game_state r !! key).

Definition checks_of (r : Room) (key : SlotKey) : gset Z := default ∅ (r_location_checks r !! key).

Definition is_checked (r : Room) (key : SlotKey) (loc : Z) : bool := bool_decide (loc ∈ checks_of r key).

Definition conns_of (r : Room) (key : SlotKey) : list ConnId := default [] (r_by_slot r !! key).

(** [by_slot.get(&key).is_none_or(Vec::is_empty)]. *)
Definition slot_empty (r : Room) (key : SlotKey) : bool := Nat.eqb (length (conns_of r key)) 0.

Definition permissions (r : Room) : list (string * Permission.t) :=
  [("collect", collect_mode (r_options r)); ("release", release_mode (r_options r));
   ("remaining", remaining_mode (r_options r))]%string.

Definition password_required (r : Room) : bool :=
  bool_decide (is_Some (password (r_options r))) || bool_decide (is_Some (slot_passwords (r_options r))).

Definition room_info (r : Room) : RoomInfo :=
  mkRoomInfo SERVER_VERSION (generator_version (r_data r)) (tags (r_options r))
    (password_required r) (permissions r) (hint_cost (r_options r))
    (location_check_points (r_options r))
    (sorted_strings (elements (games_of (r_data r))))
    (checksums (r_datapackage r)) (seed_name (r_data r)) (r_start_time r).

Definition slot_name (r : Room) (key : SlotKey) : string :=
  match slot_info (r_data r) !! key.2 with
  | Some i => ns_name i
  | None => str_concat ["Unknown slot "; pretty key.2]
  end.

Definition slot_alias (r : Room) (key : SlotKey) : string :=
  let name := slot_name r key in
  match r_name_aliases r !! key with
  | Some alias => str_concat [alias; " ("; name; ")"]
  | None => name
  end.

Definition slot_game (r : Room) (slot : Z) : string :=
  match slot_info (r_data r) !! slot with Some i => ns_game i | None => "Archipelago" end.

Definition players_package (r : Room) : list NetworkPlayer :=
  team ← teams (r_data r);
  (fun e : Z * NetworkSlot => mkNetworkPlayer team e.1 (slot_alias r (team, e.1)) (ns_name e.2)) <$>
    player_slots (r_data r).

Definition slot_info_package (r : Room) : gmap Z NetworkSlot := slot_info (r_data r).

Definition slot_data_json `{!JsonText} (r : Room) (slot : Z) : option string :=
  to_json <$> slot_data (r_data r) !! slot.

Definition checked_count (r : Room) (key : SlotKey) : nat := size (checks_of r key).

Definition checked_locations (r : Room) (key : SlotKey) : list Z :=
  merge_sort Z.le (elements (checks_of r key)).

Definition missing_locations (r : Room) (key : SlotKey) : list Z :=
  filter (fun loc => is_checked r key loc = false) (e_location <$> for_slot (locations (r_data r)) key.2).

Definition hints_used (r : Room) (key : SlotKey) : Z := default 0 (r_hints_used r !! key).

(** The products and the difference wrap, as [i64] does in a release build. *)
Definition slot_points (r : Room) (key : SlotKey) : Z :=
  let checks := Z.of_nat (checked_count r key) in
  let total := count_for (locations (r_data r)) key.2 in
  wrap_i64 (wrap_i64 (location_check_points (r_options r) * checks)
            - wrap_i64 (hint_cost_for (r_options r) total * hints_used r key)).

Definition group_members_of (r : Room) (slot : Z) : list Z :=
  match slot_info (r_data r) !! slot with
  | Some s => if decide (slot_type s = SlotType.Group) then group_members s else []
  | None => []
  end.

Definition slot_set (r : Room) (slot : Z) : list Z :=
  match group_members_of r slot with [] => [slot] | members => members end.

(** Start-inventory entries: location -2, player 0. *)
Definition start_item (item : Z) : NetworkItem := mkNetworkItem item (-2) 0 0.

Definition items_for (r : Room) (conn : ConnId) : list NetworkItem :=
  match r_clients r !! conn with
  | None => []
  | Some client =>
      let key := (c_team client, c_slot client, ItemsHandling.remote_items (c_items_handling client)) in
      let start :=
        if ItemsHandling.remote_start_inventory (c_items_handling client)
        then start_item <$> default [] (precollected_items (r_data r) !! c_slot client)
        else [] in
      start ++ default [] (r_received_items r !! key)
  end.

Definition has_scoped (r : Room) (key : SlotKey) : bool :=
  existsb (fun conn => match r_clients r !! conn with
                       | Some c => scoped c && negb (c_no_text c)
                       | None => false
                       end) (conns_of r key).

Definition connections_for (r : Room) (key : SlotKey) : nat := length (conns_of r key).

(** *** Who a broadcast reaches *)

Definition all_clients (r : Room) : list Client := (map_to_list (r_clients r)).*2.

Definition clients_where (r : Room) (p : Client -> bool) : list ConnId :=
  c_id <$> filter (fun c => p c = true) (all_clients r).

Definition conns_where (r : Room) (key : SlotKey) (p : Client -> bool) : list ConnId :=
  filter (fun conn => match r_clients r !! conn with Some c => p c | None => false end = true)
    (conns_of r key).

Definition resolve (r : Room) (to_ : Recipients) : list ConnId :=
  merge_sort Z.le
    match to_ with
    | RAll => clients_where r c_auth
    | RAllText => clients_where r (fun c => c_auth c && negb (c_no_text c))
    | RSlot key => conns_of r key
    | RSlotText key => conns_where r key (fun c => negb (c_no_text c))
    | RAllTextAbout key =>
        clients_where r (fun c => c_auth c && negb (c_no_text c) &&
                                  (negb (scoped c) || bool_decide ((c_team c, c_slot c) = key)))
    | RAllTextFull => clients_where r (fun c => c_auth c && negb (c_no_text c) && negb (scoped c))
    | RSlotScopedText key => conns_where r key (fun c => negb (c_no_text c) && scoped c)
    | RThese l => l
    end.

Definition all_conns (r : Room) : list ConnId := resolve r RAll.
Definition client_count (r : Room) : nat := size (r_clients r).

(** *** Filters *)

Definition ROOM_FILTER : string := "*".

Definition filter_key (key : SlotKey) : string := str_concat [pretty key.1; "_"; pretty key.2].

Definition filter_of (r : Room) (slot : option SlotKey) : option Filter :=
  r_filters r !! match slot with Some key => filter_key key | None => ROOM_FILTER end.

Definition filter_for (r : Room) (key : SlotKey) : option Filter :=
  match r_filters r !! filter_key key with
  | Some f => Some f
  | None => r_filters r !! ROOM_FILTER
  end.

Definition filters_slot (r : Room) (key : SlotKey) : bool :=
  match filter_for r key with Some (_ :: _) => true | _ => false end.

(** *** Messages *)

Definition text_message (ty : option PrintJsonType) (team slot : option Z)
    (tags : option (list string)) (countdown : option Z) (text : string) : ServerPacket :=
  PrintJSON (print_text ty team slot tags countdown text).

Definition item_send_message (receiver : Z) (item : NetworkItem) : ServerPacket :=
  let sender := ni_player item in
  let middle :=
    if sender =? receiver
    then [part_text " found their "; part_item_id (ni_item item) sender (ni_flags item)]
    else [part_text " sent "; part_item_id (ni_item item) receiver (ni_flags item);
          part_text " to "; part_player_id receiver] in
  PrintJSON (mkPrintJson
    ([part_player_id sender] ++ middle ++
     [part_text " ("; part_location_id (ni_location item) sender; part_text ")"])
    (Some ItemSend) (Some receiver) (Some item) None None None None None None).

Definition hint_message (h : Hint) : ServerPacket :=
  let place :=
    if str_eqb (entrance h) "" then [part_text "'s World"]
    else [part_text "'s World at "; part_typed "entrance_name" (entrance h)] in
  PrintJSON (mkPrintJson
    ([part_text "[Hint]: "; part_player_id (receiving_player h); part_text "'s ";
      part_item_id (h_item h) (receiving_player h) (item_flags h); part_text " is at ";
      part_location_id (h_location h) (finding_player h); part_text " in ";
      part_player_id (finding_player h)] ++ place ++
     [part_text ". "; part_hint_status (status h)])
    (Some PtHint) (Some (receiving_player h))
    (Some (mkNetworkItem (h_item h) (h_location h) (finding_player h) (item_flags h)))
    (Some (found h)) None None None None None).

(** [serde_json::to_value] of a hint. *)
Definition hint_json (h : Hint) : Value :=
  make (SObject
    [("receiving_player", v_int (receiving_player h)); ("finding_player", v_int (finding_player h));
     ("location", v_int (h_location h)); ("item", v_int (h_item h)); ("found", v_bool (found h));
     ("entrance", v_string (entrance h)); ("item_flags", v_int (item_flags h));
     ("status", v_int (HintStatus.code (status h))); ("class", v_string "Hint")]%string).

Definition hints_json (r : Room) (key : SlotKey) : Value :=
  make (SArray (hint_json <$> hints_get (r_hints r) key)).
End room.
