(* ===== verification/RoomOps.v ===== *)
(** * [crates/pahoa-room/src/room.rs], part 2: the operations

    Every handler of the room except the commands of [Say], the data store's
    [Get] and [Set] and the rendered [GetDataPackage], in the order of the
    source.  Texts are the source's. *)

From Stdlib Require Import ZArith Lia Bool SpecFloat.
From stdpp Require Import base tactics list sets gmap strings pretty sorting.
From S2P Require Import Prelude PyRandom PyObj Locations Types Datapackage Multidata Conn Hints Json PyValue.
From S2P Require Import Packets Filter Options Effects Room.

Section ops.
Context `{Json} `{HashOrder} `{HText : !JsonText}.

(** ** Construction *)

Definition initial_state (data : MultiData) : gmap SlotKey ClientStatus.t :=
  fold_left (fun m (e : Z * NetworkSlot) =>
      if SlotType.always_goal (slot_type e.2)
      then fold_left (fun m team => <[(team, e.1) := ClientStatus.Goal]> m) (teams data) m
      else m)
    (btree_items (slot_info data)) ∅.

Definition initial_hints (data : MultiData) : HintStore :=
  fold_left (fun s (e : Z * list Hint) =>
      fold_left (fun s hint =>
          fold_left (fun s team => (upsert s (team, e.1) hint).1) (teams data) s) e.2 s)
    (hash_order (map_to_list (precollected_hints data))) empty_store.

(** The bytes of a string; [sha512] is the digest of the crate [sha2]. *)
Definition bytes_of (s : string) : list Z :=
  (fun b => Z.of_N (Byte.to_N b)) <$> String.list_byte_of_string s.

Definition room_new (sha512 : list Z -> list Z) (data : MultiData) (datapackage : DataPackage) (options : RoomOptions)
    (start_time : f64) : Room :=
  mkRoom data datapackage options ∅ ∅ ∅ ∅ (initial_state data) ∅ ∅ ∅ ∅ (initial_hints data)
    (seed_str sha512 (bytes_of (seed_name data))) ∅ ∅ (sampler_new (f64_to_bits start_time)) ∅ ∅
    None None ∅ ∅ 0 start_time start_time.

(** ** Clients *)

Definition client_set_auth (auth : bool) (c : Client) : Client :=
  mkClient (c_id c) auth (c_team c) (c_slot c) (c_version c) (c_tags c) (c_items_handling c)
    (c_send_index c) (c_no_locations c) (c_no_text c) (c_feed c).

Definition client_set_send_index (n : nat) (c : Client) : Client :=
  mkClient (c_id c) (c_auth c) (c_team c) (c_slot c) (c_version c) (c_tags c) (c_items_handling c)
    n (c_no_locations c) (c_no_text c) (c_feed c).

Definition client_set_handling (h : ItemsHandling.t) (c : Client) : Client :=
  mkClient (c_id c) (c_auth c) (c_team c) (c_slot c) (c_version c) (c_tags c) h
    (c_send_index c) (c_no_locations c) (c_no_text c) (c_feed c).

(** The five assignments of a login. *)
Definition client_login (team slot : Z) (v : Version) (h : ItemsHandling.t) (tags : list string)
    (c : Client) : Client :=
  apply_tags (mkClient (c_id c) (c_auth c) team slot v (c_tags c) h (c_send_index c)
                (c_no_locations c) (c_no_text c) (c_feed c)) tags.

(** ** Lifecycle *)

Definition on_connect_with_feed (conn : ConnId) (feed : FeedPolicy) : M unit :=
  _ ← write (fun r => set_clients (<[conn := client_with_feed conn feed]> (r_clients r)) r);
  info ← read room_info;
  send conn [RoomInfoP info].

Definition on_connect (conn : ConnId) : M unit := on_connect_with_feed conn Full.

(** [conns.retain(|c| *c != conn)] in the slot's list, when it has one. *)
Definition retain_conn (key : SlotKey) (conn : ConnId) (r : Room) : Room :=
  set_by_slot (alter (filter (fun c => c <> conn)) key (r_by_slot r)) r.

Definition on_disconnect (conn : ConnId) (reason : string) : M unit :=
  _ ← write (fun r => if decide (r_admin_conn r = Some conn) then set_admin_conn None r else r);
  clients ← read r_clients;
  on_some (clients !! conn) (fun client =>
    _ ← write (fun r => set_clients (delete conn (r_clients r)) r);
    if negb (c_auth client) then done_
    else
      let key := (c_team client, c_slot client) in
      _ ← write (retain_conn key conn);
      _ ← write (fun r => set_stored_data_subscriptions
                            ((fun s => s ∖ {[conn]}) <$> r_stored_data_subscriptions r) r);
      _ ← write (fun r =>
            if slot_empty r key
            then set_client_game_state
                   (<[key := match r_client_game_state r !! key with
                             | Some ClientStatus.Goal => ClientStatus.Goal
                             | _ => ClientStatus.Unknown
                             end]> (r_client_game_state r)) r
            else r);
      r ← read id;
      let verb := match non_game_verb (c_tags client) with
                  | Some v => str_concat ["stopped "; v]
                  | None => "left"%string
                  end in
      let text := str_concat [slot_alias r key; " (Team #"; pretty (wrap32 (c_team client + 1));
                              ") has "; verb; " the game. Client("; version_text (c_version client);
                              "), "; python_list_repr (c_tags client); "."]%string in
      _ ← broadcast (RAllTextAbout key)
            [text_message (Some PtPart) (Some (c_team client)) (Some (c_slot client)) None None text];
      journal (JDisconnected (r_clock r) key (slot_alias r key) (c_tags client) (slot_empty r key)
                 reason)).

(** ** Refusals *)

Definition invalid_packet (cmd text : string) : ServerPacket :=
  InvalidPacketP (mkInvalidPacket "arguments" (Some cmd) text).

Definition bad_arguments (conn : ConnId) (cmd text : string) : M unit :=
  send conn [invalid_packet cmd text].

Definition protocol_error (conn : ConnId) (text : string) : M unit :=
  emit (EClose conn (ProtocolError text)).

(** ** Connect *)

(** [expected.is_some_and(|e| ct_eq_opt(Some(e), password))]. *)
Definition slot_password_ok (slot_passwords : gmap Z string) (slot : Z) (password : option string)
    : bool :=
  match slot_passwords !! slot with
  | Some expected => ct_eq_opt (Some expected) password
  | None => false
  end.

Definition connect_ignore_game (args : ConnectArgs) : bool :=
  match co_game args with
  | Wrong => false
  | g => ignores_game (default None (as_ok g)) (co_tags args)
  end.

(** The [items_handling] byte, [None] for the two refusals. *)
Definition connect_items_handling (args : ConnectArgs) : option ItemsHandling.t :=
  b ← as_ok (co_items_handling args); ItemsHandling.new b.

(** The refusals once the name has resolved, in the order they are pushed. *)
Definition resolved_errors (r : Room) (args : ConnectArgs) (password : option string)
    (game : option string) (team slot : Z) : list ConnectionRefusedReason :=
  let ignore_game := connect_ignore_game args in
  let minver := if ignore_game then MIN_CLIENT_VERSION else min_client_version (r_data r) slot in
  (if bool_decide ((team, slot) ∈ r_locked_slots r) then [InvalidSlot; SlotLocked] else []) ++
  (match slot_passwords (r_options r) with
   | Some passwords => if slot_password_ok passwords slot password then [] else [InvalidPassword]
   | None => []
   end) ++
  (if negb ignore_game && negb (bool_decide (game = Some (slot_game r slot)))
   then [InvalidGame] else []) ++
  (if version_ltb (co_version args) minver then [IncompatibleVersion] else []) ++
  (match connect_items_handling args with Some _ => [] | None => [InvalidItemsHandling] end).

Definition connect_errors (r : Room) (args : ConnectArgs) : list ConnectionRefusedReason :=
  let password_ := mjoin (as_ok (co_password args)) in
  let game := mjoin (as_ok (co_game args)) in
  let resolved := name ← as_ok (co_name args); connect_names (r_data r) !! name in
  (if negb (ct_eq_opt (password (r_options r)) password_) then [InvalidPassword] else []) ++
  (match resolved with
   | None => [InvalidSlot]
   | Some (team, slot) => resolved_errors r args password_ game team slot
   end) ++
  (if (compatibility (r_options r) =? 0) && negb (bool_decide (co_version args = SERVER_VERSION))
   then [IncompatibleVersion] else []).

Definition push_filter (conn : ConnId) : M unit :=
  r ← read id;
  on_some (r_clients r !! conn) (fun client =>
    emit (EFilter conn (filter_for r (c_team client, c_slot client)))).

Definition TUTORIAL : string :=
  "Now that you are connected, you can use !help to list commands to run via the server. If your client supports it, you may have additional local commands you can list with /help.".

Definition announce_join (conn : ConnId) : M unit :=
  r ← read id;
  client ← expect (r_clients r !! conn);
  let key := (c_team client, c_slot client) in
  _ ← journal (JConnected (r_clock r) key (slot_alias r key) (slot_game r (c_slot client))
                 (version_text (c_version client)) (c_tags client));
  let verb := default "playing"%string (non_game_verb (c_tags client)) in
  let text := str_concat [slot_alias r key; " (Team #"; pretty (wrap32 (c_team client + 1)); ") ";
                          verb; " "; slot_game r (c_slot client); " has joined. Client(";
                          version_text (c_version client); "), "; python_list_repr (c_tags client);
                          "."]%string in
  _ ← broadcast (RAllTextAbout key)
        [text_message (Some Join) (Some (c_team client)) (Some (c_slot client))
           (Some (c_tags client)) None text];
  send conn [text_message (Some Tutorial) None None None None TUTORIAL].

(** The tail of [handle_connect]: nothing was refused. *)
Definition connect_accepted (conn : ConnId) (args : ConnectArgs) (team slot : Z)
    (handling : ItemsHandling.t) : M unit :=
  let key := (team, slot) in
  clients ← read r_clients;
  client ← expect (clients !! conn);
  let previously := c_auth client in
  let moved := previously && (negb (c_team client =? team) || negb (c_slot client =? slot)) in
  _ ← when previously (write (retain_conn (c_team client, c_slot client) conn));
  let client := client_login team slot (co_version args) handling (co_tags args) client in
  let client := if moved then client_set_auth false client else client in
  _ ← write (fun r => set_clients (<[conn := client]> (r_clients r)) r);
  let was_authed := c_auth client in
  _ ← write (fun r => set_by_slot (<[key := conns_of r key ++ [conn]]> (r_by_slot r)) r);
  _ ← write (fun r => set_connected_at (<[key := r_clock r]> (r_connected_at r)) r);
  _ ← write (fun r => match r_client_game_state r !! key with
                      | Some _ => r
                      | None => set_client_game_state
                                  (<[key := ClientStatus.Connected]> (r_client_game_state r)) r
                      end);
  r ← read id;
  let connected :=
    ConnectedP (mkConnected team slot (players_package r) (missing_locations r key)
      (checked_locations r key) (slot_info_package r) (slot_points r key)
      (if co_slot_data args then slot_data_json r slot else None)) in
  let items := if ItemsHandling.no_items handling then [] else items_for r conn in
  let reply := connected :: match items with [] => [] | _ => [ReceivedItems 0 items] end in
  _ ← match items with
      | [] => done_
      | _ => modify_client conn (client_set_send_index (length items))
      end;
  _ ← when (negb was_authed) (
        _ ← modify_client conn (client_set_auth true);
        _ ← emit (EMembership conn true (c_no_text client) (Some (team, slot)));
        push_filter conn);
  _ ← send conn reply;
  when (negb was_authed) (announce_join conn).

Definition handle_connect (conn : ConnId) (args : ConnectArgs) : M unit :=
  if is_bad (co_password args) || match co_game args with Missing => true | _ => false end
  then bad_arguments conn "Connect" "Connect"
  else
    r ← read id;
    let resolved := name ← as_ok (co_name args); connect_names (r_data r) !! name in
    match connect_errors r args with
    | [] =>
        '(team, slot) ← expect resolved;
        connect_accepted conn args team slot
          (default (ItemsHandling.mk 0) (connect_items_handling args))
    | errors => send conn [ConnectionRefused (dedup errors)]
    end.

(** ** ConnectUpdate and Sync *)

Definition announce_tags_changed (conn : ConnId) (key : SlotKey) (from to_ : list string) : M unit :=
  r ← read id;
  client ← expect (r_clients r !! conn);
  _ ← emit (EMembership conn true (c_no_text client) (Some key));
  let text := str_concat [slot_alias r key; " (Team #"; pretty (wrap32 (key.1 + 1));
                          ") has changed tags from "; python_list_repr from; " to ";
                          python_list_repr to_; "."]%string in
  broadcast (RAllTextAbout key)
    [text_message (Some TagsChanged) (Some key.1) (Some key.2) (Some to_) None text].

Definition resend_all_items (conn : ConnId) : M unit :=
  r ← read id;
  on_some (r_clients r !! conn) (fun client =>
    if ItemsHandling.no_items (c_items_handling client) then done_
    else
      let items := items_for r conn in
      _ ← send conn [ReceivedItems 0 items];
      modify_client conn (client_set_send_index (length items))).

Definition handle_sync (conn : ConnId) : M unit := resend_all_items conn.

(** The flags asked for: nothing, a byte, or a wrong type. *)
Definition update_bits (a : Arg (option Z)) : option (option Z) :=
  match a with
  | Missing | Present None => None
  | Present (Some b) => Some (Some b)
  | Wrong => Some None
  end.

Definition handle_connect_update (conn : ConnId) (args : ConnectUpdate) : M unit :=
  clients ← read r_clients;
  on_some (clients !! conn) (fun client =>
    (* [None]: refused; otherwise whether to resend *)
    resend ← match update_bits (cu_items_handling args) with
             | None => mret (Some false)
             | Some bits =>
                 match b ← bits; ItemsHandling.new b with
                 | Some h =>
                     if decide (h = c_items_handling client) then mret (Some false)
                     else _ ← modify_client conn (client_set_handling h); mret (Some true)
                 | None => _ ← send conn [invalid_packet "ConnectUpdate"
                                            "Invalid items_handling flag combination"];
                           mret None
                 end
             end;
    on_some resend (fun resend =>
      let key := (c_team client, c_slot client) in
      _ ← on_some (cu_tags args) (fun tags => modify_client conn (fun c => apply_tags c tags));
      _ ← on_some (cu_tags args) (fun tags =>
            if decide (tag_set tags = tag_set (c_tags client)) then done_
            else
              r ← read id;
              _ ← journal (JTagsChanged (r_clock r) key (slot_alias r key) (c_tags client) tags);
              announce_tags_changed conn key (c_tags client) tags);
      when resend (resend_all_items conn))).

(** ** Subscriptions and bounces *)

Definition handle_set_notify (conn : ConnId) (keys : Arg (list Value)) : M unit :=
  match as_ok keys with
  | None => bad_arguments conn "SetNotify" "SetNotify"
  | Some keys =>
      each (omap v_as_str keys) (fun key =>
        write (fun r => set_stored_data_subscriptions
                 (<[key := default ∅ (r_stored_data_subscriptions r !! key) ∪ {[conn]}]>
                    (r_stored_data_subscriptions r)) r))
  end.

Definition LINKS : list (string * string * string) :=
  [("DeathLink", "deathlink", "cause"); ("TrapLink", "traplink", "trap_name")]%string.

Definition eq_ignore_ascii_case (a b : string) : bool :=
  str_eqb (to_ascii_lowercase a) (to_ascii_lowercase b).

(** The first malformed filter, in the reference's order. *)
Definition bounce_malformed (args : Bounce) : option string :=
  if is_wrong (bo_games args) then Some "Games"%string
  else if is_wrong (bo_tags args) then Some "Tags"%string
  else if is_wrong (bo_slots args) then Some "Slots"%string
  else None.

Definition bounce_target (r : Room) (team : Z) (games tags : list string) (slots : list Z)
    (c : Client) : bool :=
  c_auth c && (c_team c =? team) &&
  (mem (c_slot c) slots || existsb (has_tag (c_tags c)) tags || has_tag games (slot_game r (c_slot c))).

Definition handle_bounce (conn : ConnId) (args : Bounce) (raw : JMap) : M unit :=
  r ← read id;
  on_some (r_clients r !! conn) (fun sender =>
    let key := (c_team sender, c_slot sender) in
    match bounce_malformed args with
    | Some which =>
        bad_arguments conn "Bounce"
          (str_concat ["Bounce: "; which; " list provided did not have the correct format."])
    | None =>
        let games := default [] (as_ok (bo_games args)) in
        let slots := default [] (as_ok (bo_slots args)) in
        let tags := default [] (as_ok (bo_tags args)) in
        let targets := merge_sort Z.le (clients_where r (bounce_target r (c_team sender) games tags slots)) in
        match targets with
        | [] => done_
        | _ =>
            _ ← match List.find (fun l => existsb (fun t => eq_ignore_ascii_case t l.1.1) tags) LINKS with
                | None => done_
                | Some (_, kind, payload) =>
                    let data := v_as_object (bo_data args) in
                    let extra := match d ← data; map_get d payload with
                                 | Some value => [(payload, value)]
                                 | None => []
                                 end in
                    journal (JLink (r_clock r) kind key (slot_alias r key)
                               (d ← data; v ← map_get d "source"; v_as_str v)
                               (length targets) extra)
                end;
            broadcast (RThese targets) [echo raw "Bounced" []]
        end
    end).

(** ** Items *)

(** The recursion into item-link groups; a membership cycle overflows the
    stack in the source and runs out of fuel here. *)
Fixpoint send_item_to (fuel : nat) (team target : Z) (item : NetworkItem) : M unit :=
  match fuel with
  | O => stop OutOfFuel
  | S fuel =>
      r ← read id;
      match group_members_of r target with
      | [] =>
          let push key := write (fun r => set_received_items
                (<[key := default [] (r_received_items r !! key) ++ [item]]> (r_received_items r)) r) in
          _ ← when (negb (ni_player item =? target)) (push (team, target, false));
          push (team, target, true)
      | members => each members (fun member => send_item_to fuel team member item)
      end
  end.

(** Enough for every acyclic membership: a chain of groups names each slot at
    most once. *)
Definition group_fuel (r : Room) : nat := S (size (slot_info (r_data r))).

Definition send_new_items (slots : gset Z) : M unit :=
  each (hash_order (elements slots)) (fun slot =>
    r ← read id;
    each (conns_of r (0, slot)) (fun conn =>
      r ← read id;
      on_some (r_clients r !! conn) (fun client =>
        if ItemsHandling.no_items (c_items_handling client) then done_
        else
          let all := items_for r conn in
          let index := c_send_index client in
          if (length all <=? index)%nat then done_
          else
            _ ← send conn [ReceivedItems index (drop index all)];
            modify_client conn (client_set_send_index (length all))))).

(** ** Hint lists on the wire *)

Definition hints_key_name (key : SlotKey) : string :=
  str_concat ["_read_hints_"; pretty key.1; "_"; pretty key.2].

Definition on_changed_hints (key : SlotKey) : M unit :=
  r ← read id;
  let name := hints_key_name key in
  on_some (r_stored_data_subscriptions r !! name) (fun subscribers =>
    match merge_sort Z.le (elements subscribers) with
    | [] => done_
    | targets =>
        broadcast (RThese targets)
          [Echo [("cmd", v_string "SetReply"); ("key", v_string name);
                 ("value", hints_json r key)]%string]
    end).

Definition hint_points_update (points : Z) : RoomUpdate :=
  mkRoomUpdate None None (Some points) None None None None.

Definition on_new_hint (key : SlotKey) : M unit :=
  _ ← on_changed_hints key;
  r ← read id;
  broadcast (RSlot key) [RoomUpdateP (hint_points_update (slot_points r key))].

Definition recheck_hints (finder : SlotKey) : M (list SlotKey) :=
  r ← read id;
  let '(s, changed) := recheck (r_hints r) finder (is_checked r) in
  _ ← write (set_hints s);
  mret changed.

(** ** Location checks *)

(** [(receiver, item, location, flags)] and its order. *)
Definition Sendable : Type := Z * Z * Z * Z.

Definition sendable_le (a b : Sendable) : Prop :=
  let '(r1, i1, l1, f1) := a in
  let '(r2, i2, l2, f2) := b in
  r1 < r2 \/ (r1 = r2 /\ (i1 < i2 \/ (i1 = i2 /\ (l1 < l2 \/ (l1 = l2 /\ f1 <= f2))))).

#[export] Instance sendable_le_dec : RelDecision sendable_le.
Proof. intros [[[? ?] ?] ?] [[[? ?] ?] ?]. unfold sendable_le. apply _. Defined.

Definition sendable (e : LocationEntry) : Sendable :=
  (e_receiver e, e_item e, e_location e, e_flags e).

(** [slice::chunks]. *)
Fixpoint chunks {A} (fuel n : nat) (l : list A) : list (list A) :=
  match fuel, l with
  | S fuel, _ :: _ => take n l :: chunks fuel n (drop n l)
  | _, _ => []
  end.

Definition scoped_push (key : SlotKey) (m : ServerPacket) (scoped : gmap SlotKey (list ServerPacket))
    : gmap SlotKey (list ServerPacket) :=
  <[key := default [] (scoped !! key) ++ [m]]> scoped.

(** The loop over the sorted sends: the slots touched, the frame being filled,
    the scoped buffers. *)
Fixpoint distribute (key : SlotKey) (sender_scoped : bool) (l : list Sendable) (dirty : gset Z)
    (feed : list ServerPacket) (scoped : gmap SlotKey (list ServerPacket))
    : M (gset Z * list ServerPacket * gmap SlotKey (list ServerPacket)) :=
  match l with
  | [] => mret (dirty, feed, scoped)
  | (receiver, item, location, flags) :: l =>
      let '(team, slot) := key in
      r ← read id;
      _ ← emit (EJournalCheck (mkCheckRecord (r_clock r) slot receiver item location flags));
      let net := mkNetworkItem item location slot flags in
      _ ← send_item_to (group_fuel r) team receiver net;
      let dirty := dirty ∪ {[receiver]} ∪ list_to_set (group_members_of r receiver) in
      let message := item_send_message receiver net in
      let receiver_key := (team, receiver) in
      let scoped := if sender_scoped then scoped_push key message scoped else scoped in
      let scoped :=
        if negb (bool_decide (receiver_key = key)) && has_scoped r receiver_key
        then scoped_push receiver_key message scoped else scoped in
      if (PRINT_JSON_CHUNK <=? length feed)%nat
      then _ ← broadcast RAllTextFull feed; distribute key sender_scoped l dirty [message] scoped
      else distribute key sender_scoped l dirty (feed ++ [message]) scoped
  end.

(** The ids this batch newly checks, in the order given, and how many were
    already checked. *)
Definition split_locations (r : Room) (key : SlotKey) (locs : list Z) : list Z * nat :=
  let known := List.filter (contains (locations (r_data r)) key.2) locs in
  (List.filter (fun loc => negb (is_checked r key loc)) known,
   length (List.filter (is_checked r key) known)).

Definition checks_update (fresh : list Z) (points : Z) : RoomUpdate :=
  mkRoomUpdate None (Some fresh) (Some points) None None None None.

Definition register_location_checks (key : SlotKey) (locs : list Z) : M unit :=
  let '(team, slot) := key in
  _ ← write (fun r => set_location_checks (<[key := checks_of r key]> (r_location_checks r)) r);
  r ← read id;
  let '(fresh, repeats) := split_locations r key locs in
  _ ← record_redundant key LocationCheck repeats;
  match dedup (merge_sort Z.le fresh) with
  | [] => done_
  | fresh =>
      _ ← write (fun r => set_activity_at (<[key := r_clock r]> (r_activity_at r)) r);
      found_entries ← mapM (fun loc => expect (get (locations (r_data r)) slot loc)) fresh;
      let sorted := merge_sort sendable_le (sendable <$> found_entries) in
      '(dirty, feed, scoped) ← distribute key (has_scoped r key) sorted ∅ [] ∅;
      _ ← when (negb (Nat.eqb (length feed) 0)) (broadcast RAllTextFull feed);
      _ ← each (hash_order (map_to_list scoped)) (fun tm =>
            each (chunks (length tm.2) PRINT_JSON_CHUNK tm.2) (broadcast (RSlotScopedText tm.1)));
      _ ← write (fun r => set_location_checks
                   (<[key := checks_of r key ∪ list_to_set fresh]> (r_location_checks r)) r);
      _ ← send_new_items dirty;
      r ← read id;
      _ ← when (negb (slot_empty r key))
            (broadcast (RSlot key) [RoomUpdateP (checks_update fresh (slot_points r key))]);
      changed ← recheck_hints key;
      _ ← each changed on_changed_hints;
      mark_dirty
  end.

Definition handle_location_checks (conn : ConnId) (locs : list Value) : M unit :=
  r ← read id;
  on_some (r_clients r !! conn) (fun client =>
    if c_no_locations client
    then send conn [invalid_packet "LocationChecks" "Tracker and TextOnly clients cannot check locations"]
    else register_location_checks (c_team client, c_slot client) (omap as_int locs)).

Definition update_checked_locations (key : SlotKey) : M unit :=
  r ← read id;
  broadcast (RSlot key)
    [RoomUpdateP (mkRoomUpdate None (Some (checked_locations r key)) None None None None None)].
End ops.
