(* ===== verification/RoomStore.v ===== *)
(** * [crates/pahoa-room/src/room.rs], part 2b: the data store's commands

    [Get], [Set] and [GetDataPackage], with the computed [_read_] keys.  The
    rendered data package is built from the room's, which never changes, where
    the source keeps it in a field. *)

From Stdlib Require Import ZArith Lia Bool Ascii SpecFloat.
From stdpp Require Import base tactics list sets gmap strings pretty sorting.
From S2P Require Import Prelude PyObj Types Datapackage Multidata Conn Hints Json PyValue Text.
From S2P Require Import DataStore SlotData Packets Effects Room RoomOps.

(** [s.strip_prefix(p)]. *)
Fixpoint strip_str (p s : string) : option string :=
  match p, s with
  | EmptyString, _ => Some s
  | String a p, String b s => if Ascii.eqb a b then strip_str p s else None
  | _, EmptyString => None
  end.

Definition READ_PREFIX : string := "_read_".

Definition parse_team_slot (s : string) : option (Z * Z) :=
  '(team, slot) ← split_once "_" s;
  team ← parse_u32 team;
  slot ← parse_u32 slot;
  Some (team, slot).

Section store.
Context `{Json} `{HashOrder} `{HText : !JsonText}.

Definition read_key (r : Room) (s : string) : option SlotKey :=
  key ← parse_team_slot s;
  if existsb (Z.eqb key.1) (teams (r_data r)) && bool_decide (is_Some (slot_info (r_data r) !! key.2))
  then Some key else None.

Definition groups_to_json (groups : option (gmap string (list string))) : Value :=
  make (SObject ((fun kv => (kv.1, make (SArray (v_string <$> kv.2)))) <$>
                 sorted_items (default ∅ groups))).

(** The first prefix that matches decides. *)
Definition read_data (r : Room) (key : string) : option Value :=
  name ← strip_str READ_PREFIX key;
  if str_eqb name "race_mode" then Some (v_int (Z.b2z (race_mode (r_data r))))
  else match strip_str "slot_data_" name with
  | Some rest =>
      slot ← parse_u32 rest;
      Some (match slot_data_json r slot with
            | Some raw => default v_null (parse_json raw)
            | None => v_null
            end)
  | None =>
  match strip_str "client_status_" name with
  | Some rest => key ← read_key r rest; Some (v_int (ClientStatus.code (client_state r key)))
  | None =>
  match strip_str "item_name_groups_" name with
  | Some rest => Some (groups_to_json ((fun g => item_name_groups (package g)) <$> games (r_datapackage r) !! rest))
  | None =>
  match strip_str "location_name_groups_" name with
  | Some rest => Some (groups_to_json ((fun g => location_name_groups (package g)) <$> games (r_datapackage r) !! rest))
  | None =>
  match strip_str "hints_" name with
  | Some rest => key ← read_key r rest; Some (hints_json r key)
  | None => None
  end end end end end.

(** The value a [Get] reads for a key. *)
Definition get_value (r : Room) (key : string) : Value :=
  if starts_with READ_PREFIX key then default v_null (read_data r key)
  else default v_null (r_stored_data r !! key).

Definition handle_get (conn : ConnId) (keys : Arg (list Value)) (raw : JMap) : M unit :=
  match as_ok keys with
  | None => bad_arguments conn "Get" "Retrieve"
  | Some keys =>
      match mapM v_as_str keys with
      | None => protocol_error conn "Get: keys must be strings"
      | Some keys =>
          r ← read id;
          let values := fold_left (fun m key => map_insert m key (get_value r key)) keys [] in
          send conn [echo raw "Retrieved" [("keys"%string, make (SObject values))]]
      end
  end.

(** [json_len(value)] is the length of the compact text. *)
Definition entry_bytes (key : string) (value : Value) : Z := str_len key + str_len (json_text value).

(** [value.get(key)]. *)
Definition v_get (v : Value) (key : string) : option Value := m ← v_as_object v; map_get m key.

Definition parse_operation (entry : Value) : option (string * Value) :=
  op ← (v_get entry "operation" ≫= v_as_str);
  Some (op, default v_null (v_get entry "value")).

Definition conn_slot (r : Room) (conn : ConnId) : Z :=
  match r_clients r !! conn with Some c => c_slot c | None => 0 end.

Definition set_failure (slot : Z) (index : nat) (operations : list (string * Value)) (e : OpError) : string :=
  str_concat ["slot "; pretty slot; ": Set operation "; pretty (Z.of_nat index); " (";
    match operations !! index with Some (op, _) => op | None => "?" end; ") failed: ";
    op_error_text debug_str e]%string.

(** Who hears of a write: the subscribers, and the setter if it asked. *)
Definition set_targets (r : Room) (conn : ConnId) (key : string) (want_reply : bool) : list ConnId :=
  let subscribed := elements (default ∅ (r_stored_data_subscriptions r !! key)) in
  let targets := if want_reply && negb (mem conn subscribed) then subscribed ++ [conn] else subscribed in
  merge_sort Z.le targets.

(** The write itself: the running total of bytes, the value, the dirty mark and
    the replies. *)
Definition store_value (conn : ConnId) (key : string) (want_reply : bool) (raw : JMap)
    (original value : Value) : M unit :=
  _ ← write (fun r =>
        let was := match r_stored_data r !! key with Some old => entry_bytes key old | None => 0 end in
        let now := entry_bytes key value in
        set_stored_data_bytes (Z.max 0 (wrap64 (r_stored_data_bytes r + now) - was)) r);
  _ ← write (fun r => set_stored_data (<[key := value]> (r_stored_data r)) r);
  _ ← mark_dirty;
  r ← read id;
  let reply := echo raw "SetReply"
    [("original_value"%string, original); ("value"%string, value);
     ("slot"%string, v_int (conn_slot r conn))] in
  match set_targets r conn key want_reply with
  | [] => done_
  | targets => broadcast (RThese targets) [reply]
  end.

Definition handle_set (conn : ConnId) (args : SetArgs) (raw : JMap) : M unit :=
  match st_key args, as_ok (st_operations args) with
  | Missing, _ | _, None => bad_arguments conn "Set" "Set"
  | Wrong, _ => protocol_error conn "Set: key must be a string"
  | Present key, Some entries =>
      if starts_with READ_PREFIX key then
        send conn [invalid_packet "Set"
                     (str_concat ["cannot write to the read-only key "; debug_str key])]
      else
        match mapM parse_operation entries with
        | None => protocol_error conn "Set: each operation needs a string `operation`"
        | Some operations =>
            r ← read id;
            let original :=
              match r_stored_data r !! key with
              | Some v => v
              | None => default (v_int 0) (st_default args)
              end in
            match apply_all original operations with
            | Err (index, e) =>
                emit (EClose conn (ProtocolError (set_failure (conn_slot r conn) index operations e)))
            | Ok value => store_value conn key (st_want_reply args) raw original value
            end
        end
  end.

Definition handle_get_datapackage (conn : ConnId) (wanted exclusions : option (list string)) : M unit :=
  r ← read id;
  let all := sorted_keys (games (r_datapackage r)) in
  let wanted :=
    match wanted, exclusions with
    | Some games, _ => games
    | None, Some excluded => List.filter (fun g => negb (existsb (str_eqb g) excluded)) all
    | None, None => all
    end in
  send conn [DataPackageP (select (build (r_datapackage r)) wanted)].
End store.
