(* ===== verification/RoomPlay.v ===== *)
(** * [crates/pahoa-room/src/room.rs], part 3: hints, goals, the clock

    The hint commands, the status machine with its releases and collects, the
    countdown, and the administrator's switches. *)

From Stdlib Require Import ZArith Lia Bool SpecFloat.
From stdpp Require Import base tactics list sets gmap strings pretty sorting.
From S2P Require Import Prelude PyRandom PyObj Locations Types Datapackage Multidata Conn Hints Json PyValue.
From S2P Require Import Packets Filter Options Effects Room RoomOps RoomStore.

Section play.
Context `{Json} `{HashOrder} `{HText : !JsonText}.

(** ** Hints *)

(** [concerns.entry(player).or_default().push(index)]. *)
Definition concern (player : Z) (index : nat) (m : gmap Z (list nat)) : gmap Z (list nat) :=
  <[player := default [] (m !! player) ++ [index]]> m.

(** What one hint adds to who hears about it. *)
Definition concern_hint (r : Room) (index : nat) (h : Hint) (m : gmap Z (list nat)) : gmap Z (list nat) :=
  let m := fold_left (fun m player => concern player index m) (slot_set r (receiving_player h)) m in
  if negb (receiving_player h =? finding_player h) then
    if existsb (Nat.eqb index) (default [] (m !! finding_player h)) then m
    else concern (finding_player h) index m
  else m.

(** Remembering one hint: for its finder, then for each slot it is for. *)
Definition bank_hint (r : Room) (team : Z) (h : Hint) (events : gset Z) : HintStore * gset Z :=
  let finder_key := (team, finding_player h) in
  if hints_contains (r_hints r) finder_key (identity h) then (r_hints r, events)
  else
    fold_left (fun se player => ((upsert se.1 (team, player) h).1, se.2 ∪ {[player]}))
      (slot_set r (receiving_player h))
      ((upsert (r_hints r) finder_key h).1, events ∪ {[finding_player h]}).

Fixpoint bank_hints (team : Z) (persist_even_if_found : bool) (index : nat) (l : list Hint)
    (concerns : gmap Z (list nat)) (events : gset Z) : M (gmap Z (list nat) * gset Z) :=
  match l with
  | [] => mret (concerns, events)
  | h :: l =>
      r ← read id;
      let concerns := concern_hint r index h concerns in
      if negb (found h) || persist_even_if_found then
        let '(s, events) := bank_hint r team h events in
        _ ← write (set_hints s);
        bank_hints team persist_even_if_found (S index) l concerns events
      else bank_hints team persist_even_if_found (S index) l concerns events
  end.

(** [hints[i].finding_player == slot]. *)
Definition finds (hints : list Hint) (slot : Z) (i : nat) : bool :=
  match hints !! i with Some h => finding_player h =? slot | None => false end.

Definition notify_hints (team : Z) (hints : list Hint) (only_new persist_even_if_found : bool)
    (recipients : option (list Z)) : M nat :=
  let asked := length hints in
  r ← read id;
  let hints :=
    if only_new
    then List.filter (fun h => negb (hints_contains (r_hints r) (team, finding_player h) (identity h))) hints
    else hints in
  let repeats := (asked - length hints)%nat in
  match hints with
  | [] => mret repeats
  | _ =>
      let hints := stable_sort (fun a b => found a || negb (found b)) hints in
      '(concerns, events) ← bank_hints team persist_even_if_found 0 hints ∅ ∅;
      let events := merge_sort Z.le (elements events) in
      _ ← when (negb (Nat.eqb (length events) 0)) mark_dirty;
      _ ← each events (fun slot => on_new_hint (team, slot));
      _ ← each (btree_items concerns) (fun e =>
            let '(slot, indexes) := e in
            r ← read id;
            if match recipients with Some l => negb (mem slot l) | None => false end then done_
            else if slot_empty r (team, slot) then done_
            else
              let indexes := stable_sort (fun i j => finds hints slot i || negb (finds hints slot j)) indexes in
              msgs ← mapM (fun i => h ← expect (hints !! i); mret (hint_message h)) indexes;
              broadcast (RSlotText (team, slot)) msgs);
      mret repeats
  end.

Definition collect_location_hints (r : Room) (key : SlotKey) (slot location : Z)
    (st : option HintStatus.t) : list Hint :=
  collect_for_location (r_data r) (r_hints r) key slot location st
    (fun s loc => is_checked r (key.1, s) loc).

Definition handle_location_scouts (conn : ConnId) (args : LocationScouts) : M unit :=
  r ← read id;
  on_some (r_clients r !! conn) (fun client =>
    let team := c_team client in
    let slot := c_slot client in
    x ← each_until (ls_locations args) ([], []) (fun '(locs, hints) raw =>
          match as_int raw with
          | None => _ ← bad_arguments conn "LocationScouts" "Locations has to be a list of integers";
                    mret (inr tt)
          | Some location =>
              match get (locations (r_data r)) slot location with
              | None =>
                  _ ← protocol_error conn
                        (str_concat ["slot "; pretty slot; ": LocationScouts for unknown location ";
                                     pretty location]);
                  mret (inr tt)
              | Some entry =>
                  let hints :=
                    if negb (ls_create_as_hint args =? 0)
                    then hints ++ collect_location_hints r (team, slot) slot location
                                    (Some HintStatus.Unspecified)
                    else hints in
                  mret (inl (locs ++ [mkNetworkItem (e_item entry) location (e_receiver entry)
                                        (e_flags entry)], hints))
              end
          end);
    match x with
    | inr _ => done_
    | inl (locs, hints) =>
        let created_hints := negb (Nat.eqb (length locs) 0) && negb (ls_create_as_hint args =? 0) in
        _ ← send conn [LocationInfo locs];
        repeats ← notify_hints team hints (ls_create_as_hint args =? 2) true None;
        _ ← record_redundant (team, slot) RedundantHint repeats;
        when created_hints mark_dirty
    end).

(** The status of [CreateHints]: the value, or the answer to a bad one. *)
Definition create_status (a : Arg (option Z)) : HintStatus.t + string :=
  match a with
  | Missing => inl HintStatus.Unspecified
  | Present None | Wrong => inr "Unknown Status: not a valid HintStatus"%string
  | Present (Some raw) =>
      match HintStatus.from_wire raw with
      | Some s => inl s
      | None => inr (str_concat ["Unknown Status: "; pretty raw; " is not a valid HintStatus"])
      end
  end.

(** The check on one location of [CreateHints]: what it is, or the refusal. *)
Definition create_location (r : Room) (slot location_player : Z) (st : HintStatus.t) (raw : Value)
    : Z + (string + string) :=
  match (l ← as_int raw; e ← get (locations (r_data r)) location_player l; Some (l, e)) with
  | None =>
      if negb (location_player =? slot)
      then inr (inl "CreateHints: One or more of the locations do not exist for the specified off-world player. Please refrain from hinting other slot's locations that you don't know contain your items."%string)
      else inr (inr (str_concat ["slot "; pretty slot; ": CreateHints for unknown location "; json_text raw]))
  | Some (location, entry) =>
      if negb (mem slot (slot_set r (e_receiver entry))) then
        if negb (bool_decide (st = HintStatus.Unspecified))
        then inr (inl (str_concat ["CreateHints: Must use "; String dquote "unspecified";
                                   String dquote "/None status for items from other players."]))
        else if negb (slot =? location_player)
        then inr (inl "CreateHints: Can only create hints for own items or own locations."%string)
        else inl location
      else inl location
  end.

Definition handle_create_hints (conn : ConnId) (args : CreateHints) : M unit :=
  r ← read id;
  on_some (r_clients r !! conn) (fun client =>
    let team := c_team client in
    let slot := c_slot client in
    let location_player := default slot (ch_player args) in
    match ch_locations args with
    | [] => bad_arguments conn "CreateHints" "CreateHints: No locations specified."
    | _ =>
        match create_status (ch_status args) with
        | inr text => bad_arguments conn "CreateHints" text
        | inl st =>
            x ← each_until (ch_locations args) [] (fun hints raw =>
                  match create_location r slot location_player st raw with
                  | inr (inl text) => _ ← bad_arguments conn "CreateHints" text; mret (inr tt)
                  | inr (inr text) => _ ← protocol_error conn text; mret (inr tt)
                  | inl location =>
                      mret (inl (hints ++ collect_location_hints r (team, location_player)
                                            location_player location (Some st)))
                  end);
            match x with
            | inr _ => done_
            | inl hints =>
                repeats ← notify_hints team hints true true None;
                _ ← record_redundant (team, slot) RedundantHint repeats;
                mark_dirty
            end
        end
    end).

Definition handle_update_hint (conn : ConnId) (args : UpdateHint) : M unit :=
  r ← read id;
  on_some (r_clients r !! conn) (fun client =>
    let team := c_team client in
    let slot := c_slot client in
    match uh_player args, uh_location args, uh_status args with
    | Present player, Present location, Present st =>
        on_some (hints_find (r_hints r) (team, player) player location) (fun hint =>
          if negb (mem slot (slot_set r (receiving_player hint)))
          then bad_arguments conn "UpdateHint" "UpdateHint: No Permission"
          else
            on_some st (fun raw =>
              match HintStatus.from_wire raw with
              | None => bad_arguments conn "UpdateHint" "UpdateHint: Invalid Status"
              | Some st =>
                  if decide (st = HintStatus.Found)
                  then bad_arguments conn "UpdateHint"
                         (str_concat ["UpdateHint: Cannot manually update status to ";
                                      String dquote "HINT_FOUND"; String dquote ""])
                  else
                    let effective := if found hint then HintStatus.Found else st in
                    if decide (effective = status hint) then done_
                    else
                      let concerned :=
                        dedup (merge_sort Z.le (slot_set r (receiving_player hint) ++ [finding_player hint])) in
                      _ ← each concerned (fun target =>
                            write (fun r => Room.set_hints
                              (set_status (r_hints r) (team, target) (finding_player hint)
                                 (h_location hint) st).1 r));
                      _ ← mark_dirty;
                      each concerned (fun target => on_changed_hints (team, target))
              end))
    | _, _, _ => bad_arguments conn "UpdateHint" "UpdateHint"
    end).

(** ** Releases and collects *)

(** Of these locations of a slot, how many are not checked yet. *)
Definition unchecked_count (r : Room) (key : SlotKey) (locs : list Z) : nat :=
  length (List.filter (fun loc => negb (is_checked r key loc)) locs).

Definition release_player (key : SlotKey) (trigger : Trigger) : M unit :=
  r ← read id;
  let text := str_concat [slot_name r key; " (Team #"; pretty (wrap32 (key.1 + 1));
                          ") has released all remaining items from their world."] in
  _ ← broadcast RAllText [text_message (Some PtRelease) (Some key.1) (Some key.2) None None text];
  let locs := e_location <$> for_slot (locations (r_data r)) key.2 in
  _ ← journal (JReleaseOrCollect (r_clock r) "release" key (slot_alias r key) trigger
                 (unchecked_count r key locs));
  _ ← register_location_checks key locs;
  update_checked_locations key.

(** [by_source]: where the slot's items are, by world. *)
Definition by_source (r : Room) (slot : Z) : gmap Z (list Z) :=
  fold_left (fun m e => if e_receiver e =? slot
                        then <[e_sender e := default [] (m !! e_sender e) ++ [e_location e]]> m
                        else m) (all (locations (r_data r))) ∅.

Definition collect_body (key : SlotKey) (trigger : Trigger) : M unit :=
  r ← read id;
  let '(team, slot) := key in
  let text := str_concat [slot_name r key; " (Team #"; pretty (wrap32 (team + 1));
                          ") has collected their items from other worlds."] in
  _ ← broadcast RAllText [text_message (Some PtCollect) (Some team) (Some slot) None None text];
  let sources := btree_items (by_source r slot) in
  let items := sum_list ((fun e : Z * list Z => unchecked_count r (team, e.1) e.2) <$> sources) in
  _ ← journal (JReleaseOrCollect (r_clock r) "collect" key (slot_alias r key) trigger items);
  each sources (fun e =>
    _ ← register_location_checks (team, e.1) e.2;
    update_checked_locations (team, e.1)).

(** The groups a slot is a member of. *)
Definition groups_with (r : Room) (slot : Z) : list (Z * list Z) :=
  (fun e : Z * NetworkSlot => (e.1, group_members e.2)) <$>
    filter (fun e : Z * NetworkSlot => mem slot (group_members e.2) = true)
      (btree_items (slot_info (r_data r))).

(** A group collects once, without looking for groups of its own. *)
Definition collect_inner (key : SlotKey) (is_group : bool) (trigger : Trigger) : M unit :=
  _ ← collect_body key trigger;
  if is_group then done_
  else
    r ← read id;
    each (groups_with r key.2) (fun gm =>
      let '(group, members) := gm in
      _ ← write (fun r => set_group_collected
            (<[group := default ∅ (r_group_collected r !! group) ∪ {[key.2]}]> (r_group_collected r)) r);
      r ← read id;
      if forallb (fun m => bool_decide (m ∈ (default ∅ (r_group_collected r !! group) : gset Z))) members
      then collect_body (key.1, group) TGroup
      else done_).

Definition collect_player (key : SlotKey) (trigger : Trigger) : M unit :=
  collect_inner key false trigger.

(** ** Status *)

Definition on_goal_achieved (key : SlotKey) : M unit :=
  r ← read id;
  let text := str_concat [slot_alias r key; " (Team #"; pretty (wrap32 (key.1 + 1));
                          ") has completed their goal."] in
  _ ← broadcast RAllText [text_message (Some PtGoal) (Some key.1) (Some key.2) None None text];
  _ ← when (Permission.is_auto (collect_mode (r_options r))) (collect_player key TGoal);
  r ← read id;
  when (Permission.is_auto (release_mode (r_options r))) (release_player key TGoal).

Definition announce_team_completion (team : Z) : M unit :=
  r ← read id;
  let finished := forallb (fun slot => bool_decide (client_state r (team, slot) = ClientStatus.Goal))
                    (btree_keys (slot_info (r_data r))) in
  when finished
    (broadcast RAllText
       [text_message None None None None None
          (str_concat ["Team #"; pretty (wrap32 (team + 1));
                       " has completed all of their games! Congratulations!"])]).

Definition room_set_status (key : SlotKey) (st : ClientStatus.t) : M unit :=
  r ← read id;
  if decide (client_state r key = ClientStatus.Goal) then done_
  else
    _ ← write (fun r => set_client_game_state (<[key := st]> (r_client_game_state r)) r);
    _ ← mark_dirty;
    when (bool_decide (st = ClientStatus.Goal)) (
      _ ← journal (JGoal (r_clock r) key (slot_alias r key) (slot_game r key.2));
      _ ← on_goal_achieved key;
      announce_team_completion key.1).

Definition handle_status_update (conn : ConnId) (status : Z) : M unit :=
  r ← read id;
  on_some (r_clients r !! conn) (fun client =>
    if c_no_locations client && (status =? ClientStatus.code ClientStatus.Goal)
    then send conn [invalid_packet "StatusUpdate"
                      "Tracker and TextOnly clients cannot report goal completion"]
    else
      match ClientStatus.from_wire status with
      | None => send conn [invalid_packet "StatusUpdate"
                             (str_concat ["Unknown client status "; pretty status])]
      | Some st => room_set_status (c_team client, c_slot client) st
      end).

(** ** The administrator's switches *)

Definition allow_release (key : SlotKey) (allowed : bool) : M unit :=
  write (fun r => set_allow_releases
    (if allowed then r_allow_releases r ∪ {[key]} else r_allow_releases r ∖ {[key]}) r).

Definition lock_slot (key : SlotKey) (locked : bool) : M unit :=
  write (fun r => set_locked_slots
    (if locked then r_locked_slots r ∪ {[key]} else r_locked_slots r ∖ {[key]}) r).

Definition set_filter (slot : option SlotKey) (f : option Filter) : M unit :=
  let key := match slot with Some key => filter_key key | None => ROOM_FILTER end in
  _ ← write (fun r => set_filters
        (match f with Some f => <[key := f]> (r_filters r) | None => delete key (r_filters r) end) r);
  r ← read id;
  let affected :=
    match slot with
    | Some target => conns_of r target
    | None =>
        c_id <$> filter (fun c => c_auth c = true /\ r_filters r !! filter_key (c_team c, c_slot c) = None)
                   (hash_order (all_clients r))
    end in
  each affected push_filter.

Definition replace_hints (key : SlotKey) (hints : list Hint) : M unit :=
  write (fun r => Room.set_hints (replace (r_hints r) key hints) r).

(** Whether to drop what the slot sent; a draw advances the sampler. *)
Definition filters_from_slot (key : SlotKey) (k : Kind) (labels : list string) : M bool :=
  r ← read id;
  match filter_for r key with
  | None => mret false
  | Some f =>
      let '(dropped, s) := drops sampler_roll f FromSlot k labels (r_sampler r) in
      _ ← write (set_sampler s);
      _ ← when dropped (emit (EDrop (mkDropKey key FromSlot k)));
      mret dropped
  end.

(** ** The countdown *)

Definition countdown_message (text : string) (value : Z) : M unit :=
  broadcast RAllText [text_message (Some PtCountdown) None None None (Some value) text].

Definition server_says (what : string) : string := String.append "[Server]: " what.

Definition start_countdown (seconds : Z) (now : f64) : M unit :=
  _ ← countdown_message (server_says (str_concat ["Starting countdown of "; pretty seconds; "s"])) seconds;
  c ← read r_countdown;
  match c with
  | Some running => write (set_countdown (Some (mkCountdown seconds (next_at running))))
  | None =>
      if 0 <? seconds then
        _ ← countdown_message (server_says (pretty seconds)) seconds;
        write (set_countdown (Some (mkCountdown (seconds - 1) (f64_add now (f64_of_Z 1)))))
      else countdown_message (server_says "GO") 0
  end.

Definition next_tick (r : Room) : option f64 := next_at <$> r_countdown r.

Fixpoint tick_loop (fuel : nat) (now : f64) : M unit :=
  match fuel with
  | O => stop OutOfFuel
  | S fuel =>
      c ← read r_countdown;
      on_some c (fun state =>
        if f64_ltb now (next_at state) then done_
        else if 0 <? remaining state then
          _ ← countdown_message (server_says (pretty (remaining state))) (remaining state);
          _ ← write (set_countdown (Some (mkCountdown (remaining state - 1)
                                            (f64_add (next_at state) (f64_of_Z 1)))));
          tick_loop fuel now
        else
          _ ← countdown_message (server_says "GO") 0;
          _ ← write (set_countdown None);
          tick_loop fuel now)
  end.

(** One round per number left, one for GO, one to see it is over. *)
Definition tick_fuel (c : option Countdown) : nat :=
  match c with Some c => 2 + Z.to_nat (remaining c) | None => 1 end.

Definition tick (now : f64) : M unit :=
  _ ← write (set_clock now);
  c ← read r_countdown;
  tick_loop (tick_fuel c) now.

(** ** Shutdown *)

Definition broadcast_result (text : string) : M unit :=
  broadcast RAllText [text_message (Some CommandResult) None None None None text].

Definition shutdown : M unit :=
  _ ← broadcast_result "The room is closing. Your progress is saved; reconnect in a moment.";
  clients ← read r_clients;
  _ ← each (hash_order (map_to_list clients).*1) (fun conn => emit (EClose conn ServerShutdown));
  _ ← write (set_clients ∅);
  write (set_by_slot ∅).

End play.
