(* ===== verification/Commands.v ===== *)
(** * [crates/pahoa-room/src/room/commands.rs]: the [!] commands

    [the output helpers and the commands without a price.  The [tracing] log
    lines are not modelled. *)

From Stdlib Require Import ZArith Lia Bool SpecFloat.
From stdpp Require Import base tactics list sets gmap strings pretty sorting.
From S2P Require Import Prelude PyRandom PyObj Locations Types Datapackage Multidata Conn Hints Json.
From S2P Require Import PyValue DataStore Packets Text Fuzzy Options Effects Room RoomOps RoomPlay.

Inductive CheatAnnounce : Type := Typed | Plain.

Definition MAX_LIST_LINES : nat := 500.

Definition line (l : list string) : string :=
  String.concat (String (Ascii.ascii_of_nat 10) "    ") l.

Definition HELP : list (string * string * string) :=
  [("help", EmptyString, "Returns the help listing");
   ("license", EmptyString, "Returns the licensing information");
   ("options", EmptyString, "List all current options. Warning: lists password.");
   ("admin", "[command] ",
    line ["Allow remote administration of the multiworld server";
          str_concat ["Usage: "; quote2; "!admin login <password>"; quote2;
                      " in order to log in to the remote interface."]]);
   ("players", EmptyString, "Get information about connected and missing players.");
   ("status", "[tag] ",
    line ["Get status information about your team.";
          "Optionally mention a Tag name and get information on who has that Tag.";
          "For example: DeathLink or EnergyLink."]);
   ("release", EmptyString, "Sends remaining items in your world to their recipients.");
   ("collect", EmptyString, "Send your remaining items to yourself");
   ("countdown", "seconds=10 ", "Start a countdown in seconds");
   ("remaining", EmptyString, "List remaining items in your game, but not their location or recipient");
   ("missing", "[filter_text] ",
    line ["List all missing location checks from the server's perspective.";
          "Can be given text, which will be used as filter."]);
   ("checked", "[filter_text] ",
    line ["List all done location checks from the server's perspective.";
          "Can be given text, which will be used as filter."]);
   ("alias", "[alias_name] ", "Set your alias to the passed name.");
   ("getitem", "item_name ", "Cheat in an item, if it is enabled on this server");
   ("hint", "[item_name] ",
    line ["Use !hint {item_name},"; "for example !hint Lamp to get a spoiler peek for that item.";
          "If hint costs are on, this will only give you one new result,";
          "you can rerun the command to get more in that case."]);
   ("hint_location", "[location] ",
    line ["Use !hint_location {location_name},";
          "for example !hint_location atomic-bomb to get a spoiler peek for that location."])]%string.

Definition takes_raw_argument (name : string) : bool :=
  existsb (str_eqb name)
    ["admin"; "missing"; "checked"; "alias"; "getitem"; "hint"; "hint_location"]%string.

Definition newline : string := String (Ascii.ascii_of_nat 10) EmptyString.

Definition LICENSE : string :=
  String.concat newline
    ["pahoa is a reimplementation of the Archipelago MultiServer.";
     "Archipelago is available under the MIT license at";
     "https://github.com/ArchipelagoMW/Archipelago."]%string.

Definition opt_str (v : option string) : string := default "None"%string v.
Definition py_bool (v : bool) : string := if v then "True" else "False".

(** [sphere_of]: the index of the location's sphere. *)
Definition sphere_of (data : MultiData) (player location : Z) : Z :=
  match spheres data with
  | [] => 0
  | _ =>
      let inside (s : gmap Z (gset Z)) :=
        match s !! player with Some set => bool_decide (location ∈ set) | None => false end in
      Z.of_nat (default (length (spheres data)) (DataStore.position inside (spheres data)))
  end.

(** The order of [(receiver, item)] pairs. *)
Definition pair_le (a b : Z * Z) : Prop := a.1 < b.1 \/ (a.1 = b.1 /\ a.2 <= b.2).

#[export] Instance pair_le_dec : RelDecision pair_le.
Proof. intros a b. unfold pair_le. apply _. Defined.

Section commands.
Context `{Json} `{HashOrder} `{HText : !JsonText} `{HUni : Unicode}.

(** ** Output *)

Definition notify_typed (conn : ConnId) (texts : list string) (ty : PrintJsonType) : M unit :=
  r ← read id;
  on_some (r_clients r !! conn) (fun client =>
    if negb (c_auth client) || c_no_text client || Nat.eqb (length texts) 0 then done_
    else send conn ((fun text => text_message (Some ty) None None None None text) <$> texts)).

Definition notify_multiple (conn : ConnId) (texts : list string) : M unit :=
  notify_typed conn texts CommandResult.

Definition notify_admin (conn : ConnId) (texts : list string) : M unit :=
  notify_typed conn texts AdminCommandResult.

Definition notify (conn : ConnId) (text : string) : M unit := notify_multiple conn [text].

Definition chat_message (key : SlotKey) (text message : string) : ServerPacket :=
  PrintJSON (mkPrintJson [part_text text] (Some Chat) None None None (Some key.1) (Some key.2)
               (Some message) None None).

Definition broadcast_chat (key : SlotKey) (display message : string) : M unit :=
  r ← read id;
  let text := str_concat [slot_alias r key; ": "; display] in
  _ ← journal (JChat (r_clock r) key text);
  broadcast RAllText [chat_message key text message].

Definition broadcast_server_chat (text : string) : M unit :=
  broadcast RAllText
    [PrintJSON (mkPrintJson [part_text (server_says text)] (Some ServerChat) None None None None None
                  (Some text) None None)].

Definition slot_of (r : Room) (conn : ConnId) : option SlotKey :=
  (fun c => (c_team c, c_slot c)) <$> r_clients r !! conn.

(** [with_slot]: the early return of a command whose caller is gone. *)
Definition with_slot (conn : ConnId) (k : SlotKey -> M unit) : M unit :=
  r ← read id; on_some (slot_of r conn) k.

(** A draw of [4 + randbelow(13)] asterisks. *)
Definition asterisks : M string :=
  n ← draw (randbelow DRAWS 13);
  mret (str_concat (replicate (4 + Z.to_nat n) "*"%string)).

(** ** Information *)

Definition cmd_help (conn : ConnId) : M unit :=
  notify conn (str_concat
    ((fun '(command, args, doc) => str_concat ["!"; command; " "; args; newline; "    "; doc; newline]) <$> HELP)).

Definition cmd_license (conn : ConnId) : M unit := notify conn LICENSE.

Definition option_lines (o : RoomOptions) (server_password : string) : list string :=
  ["Current options:";
   str_concat ["Option hint_cost is set to "; pretty (hint_cost o)];
   str_concat ["Option location_check_points is set to "; pretty (location_check_points o)];
   str_concat ["Option server_password is set to "; server_password];
   str_concat ["Option password is set to "; opt_str (password o)];
   str_concat ["Option release_mode is set to "; Permission.as_text (release_mode o)];
   str_concat ["Option remaining_mode is set to "; Permission.as_text (remaining_mode o)];
   str_concat ["Option collect_mode is set to "; Permission.as_text (collect_mode o)];
   str_concat ["Option countdown_mode is set to "; Permission.as_text (countdown_mode o)];
   str_concat ["Option item_cheat is set to "; py_bool (item_cheat o)];
   str_concat ["Option compatibility is set to "; pretty (compatibility o)]]%string.

Definition cmd_options (conn : ConnId) : M unit :=
  masked ← asterisks;
  r ← read id;
  notify_multiple conn (option_lines (r_options r) masked).

(** The walk of [players_string]: the text, the players seen, the last team. *)
Definition players_step (r : Room) (connected : gset SlotKey) (st : string * Z * Z) (e : Z * (Z * NetworkSlot))
    : string * Z * Z :=
  let '(text, total, current) := st in
  let '(team, (slot, info)) := e in
  if negb (bool_decide (slot_type info = SlotType.Player)) then st
  else
    let key := (team, slot) in
    let text :=
      if negb (current =? team) then str_concat [text; ":: Team #"; pretty (wrap32 (team + 1)); ": "]
      else text in
    let name := slot_name r key in
    let text :=
      if bool_decide (key ∈ connected) then str_concat [text; name; " "]
      else str_concat [text; "("; name; ") "] in
    (text, total + 1, team).

Definition players_string (r : Room) : string :=
  let connected : gset SlotKey :=
    list_to_set ((fun c => (c_team c, c_slot c)) <$> List.filter c_auth (all_clients r)) in
  let walk := team ← teams (r_data r); (fun e => (team, e)) <$> btree_items (slot_info (r_data r)) in
  let '(text, total, _) := fold_left (players_step r connected) walk (EmptyString, 0, -1) in
  let trimmed := default text (strip_last (Ascii.ascii_of_nat 32) text) in
  str_concat [pretty (Z.of_nat (size connected)); " players of "; pretty total; " connected "; trimmed].

Definition cmd_players (conn : ConnId) : M unit :=
  r ← read id;
  let text := players_string r in
  if (size (slot_info (r_data r)) <? 10)%nat then broadcast_result text else notify conn text.

Definition status_line (r : Room) (team : Z) (tag : string) (slot : Z) : string :=
  let key := (team, slot) in
  let conns := omap (fun c => r_clients r !! c) (conns_of r key) in
  let connected := length conns in
  let tagged := length (List.filter (fun c => has_tag (c_tags c) tag) conns) in
  let tag_text :=
    if (0 <? connected)%nat && negb (str_eqb tag EmptyString)
    then str_concat [" "; pretty (Z.of_nat tagged); " of which are tagged "; tag] else EmptyString in
  let status_text :=
    match client_state r key with
    | ClientStatus.Goal => " and has finished."
    | ClientStatus.Ready => " and is ready."
    | _ => "."
    end%string in
  str_concat [newline; slot_alias r key; " has "; pretty (Z.of_nat connected); " connection";
              if Nat.eqb connected 1 then EmptyString else "s"%string; tag_text; status_text; " (";
              pretty (Z.of_nat (checked_count r key)); "/";
              pretty (Z.of_nat (count_for (locations (r_data r)) slot)); ")"].

Definition cmd_status (conn : ConnId) (tag : string) : M unit :=
  r ← read id;
  let team := match r_clients r !! conn with Some c => c_team c | None => ONLY_TEAM end in
  notify conn (str_concat
    (str_concat ["Player Status on team "; pretty team; ":"] ::
     (status_line r team tag <$> btree_keys (slot_info (r_data r))))).

(** The names of a game's tables. *)
Definition names_of (r : Room) (slot : Z) : option GameNames := games (r_datapackage r) !! slot_game r slot.

Definition location_text (names : option GameNames) (id : Z) : string :=
  match names with
  | Some n => location_name n id
  | None => str_concat ["Unknown location (ID:"; pretty id; ")"]
  end.

Definition item_text (names : option GameNames) (id : Z) : string :=
  match names with
  | Some n => item_name n id
  | None => str_concat ["Unknown item (ID:"; pretty id; ")"]
  end.

(** [display.retain(..)]: a group's members, or a substring. *)
Definition filter_names (names : option GameNames) (text : string) (display : list string) : list string :=
  if str_eqb text EmptyString then display
  else
    match (n ← names; location_name_groups (package n) !! text) with
    | Some members => List.filter (fun name => existsb (str_eqb name) members) display
    | None => List.filter (fun name => contains_str name text) display
    end.

Definition location_list (r : Room) (key : SlotKey) (filter_text : string) (missing : bool) : list string :=
  let '(label, noun) := if missing then ("Missing", "missing")%string else ("Checked", "done")%string in
  let locs := if missing then missing_locations r key else checked_locations r key in
  let found := pretty (Z.of_nat (length locs)) in
  match locs with
  | [] => [str_concat ["No "; noun; " location checks found."]]
  | _ =>
      let names := names_of r key.2 in
      let display := filter_names names filter_text (location_text names <$> locs) in
      let shown := length display in
      ((fun name => str_concat [label; ": "; name]) <$> take MAX_LIST_LINES display) ++
      [if str_eqb filter_text EmptyString
       then str_concat ["Found "; found; " "; noun; " location checks"]
       else str_concat ["Found "; found; " "; noun; " location checks, displaying ";
                        pretty (Z.of_nat shown); " of them."]] ++
      (if (MAX_LIST_LINES <? shown)%nat
       then [str_concat ["Output was capped at "; pretty (Z.of_nat MAX_LIST_LINES);
                         " lines; narrow it with !"; (if missing then "missing" else "checked")%string;
                         " <filter text or location group>."]]
       else [])
  end.

Definition cmd_location_list (conn : ConnId) (filter_text : string) (missing : bool) : M unit :=
  with_slot conn (fun key =>
    r ← read id; notify_multiple conn (location_list r key filter_text missing)).

(** ** Release, collect, countdown, remaining *)

Definition release_allowed (r : Room) (key : SlotKey) : bool := bool_decide (key ∈ r_allow_releases r).

Definition finished (r : Room) (key : SlotKey) : bool :=
  bool_decide (client_state r key = ClientStatus.Goal).

Definition cmd_release (conn : ConnId) : M unit :=
  with_slot conn (fun key =>
    r ← read id;
    let mode := release_mode (r_options r) in
    if release_allowed r key || Permission.allows_manual mode
    then _ ← release_player key TPlayer; mark_dirty
    else if bool_decide (mode = Permission.Disabled)
    then notify conn "Sorry, client item releasing has been disabled on this server. You can ask the server admin for a /release"
    else if finished r key
    then _ ← release_player key TPlayer; mark_dirty
    else notify conn "Sorry, client item releasing requires you to have beaten the game on this server. You can ask the server admin for a /release").

Definition cmd_collect (conn : ConnId) : M unit :=
  with_slot conn (fun key =>
    r ← read id;
    let mode := collect_mode (r_options r) in
    if Permission.allows_manual mode
    then _ ← collect_player key TPlayer; mark_dirty
    else if bool_decide (mode = Permission.Disabled)
    then notify conn "Sorry, client collecting has been disabled on this server. You can ask the server admin for a /collect"
    else if finished r key
    then _ ← collect_player key TPlayer; mark_dirty
    else notify conn "Sorry, client collecting requires you to have beaten the game on this server. You can ask the server admin for a /collect").

Definition cmd_countdown (conn : ConnId) (seconds : string) : M unit :=
  r ← read id;
  let mode := countdown_mode (r_options r) in
  if bool_decide (mode = Permission.Disabled) ||
     bool_decide (mode = Permission.Auto) && (30 <=? size (slot_info (r_data r)))%nat
  then notify conn "Sorry, client countdowns have been disabled on this server. You can ask the server admin for a /countdown"
  else
    let timer := default 10 (parse_i64 seconds) in
    if 60 * 60 <? timer
    then notify conn (str_concat [pretty timer; " is invalid. Maximum is 1 hour."])
    else start_countdown timer (r_clock r).

Definition remaining_items (r : Room) (key : SlotKey) : list (Z * Z) :=
  merge_sort pair_le
    ((fun e => (e_receiver e, e_item e)) <$>
       List.filter (fun e => negb (is_checked r key (e_location e))) (for_slot (locations (r_data r)) key.2)).

Definition report_remaining (conn : ConnId) (key : SlotKey) : M unit :=
  r ← read id;
  match remaining_items r key with
  | [] => notify conn "No remaining items found."
  | rest =>
      notify conn (str_concat ["Remaining items: ";
        String.concat ", " ((fun ri => item_text (names_of r ri.1) ri.2) <$> rest)])
  end.

Definition cmd_remaining (conn : ConnId) : M unit :=
  with_slot conn (fun key =>
    r ← read id;
    match remaining_mode (r_options r) with
    | Permission.Enabled => report_remaining conn key
    | Permission.Disabled => notify conn "Sorry, !remaining has been disabled on this server."
    | _ =>
        if finished r key then report_remaining conn key
        else notify conn "Sorry, !remaining requires you to have beaten the game on this server"
    end).

(** ** Alias *)

Definition players_update (r : Room) : ServerPacket :=
  RoomUpdateP (mkRoomUpdate (Some (players_package r)) None None None None None None).

(** The first 16 characters, stripped. *)
Definition trim_alias (name : string) : string := trim (str_concat (take 16 (chars name))).

Definition cmd_alias (conn : ConnId) (name : string) : M unit :=
  with_slot conn (fun key =>
    let trimmed := trim_alias name in
    r ← read id;
    let announce :=
      r ← read id;
      _ ← broadcast RAll [players_update r];
      mark_dirty in
    if negb (str_eqb trimmed EmptyString) then
      _ ← write (fun r => set_name_aliases (<[key := trimmed]> (r_name_aliases r)) r);
      _ ← notify conn (String.append "Hello, " trimmed);
      announce
    else if bool_decide (is_Some (r_name_aliases r !! key)) then
      _ ← write (fun r => set_name_aliases (delete key (r_name_aliases r)) r);
      _ ← notify conn "Removed Alias";
      announce
    else done_).
End commands.
