(* ===== verification/ServerCommands.v ===== *)
(** * [crates/pahoa-room/src/room/server_commands.rs]: the [/] commands

    What a logged-in administrator's [!admin] line runs.  The [tracing] log
    lines are not modelled. *)

From Stdlib Require Import ZArith Lia Bool SpecFloat.
From stdpp Require Import base tactics list sets gmap strings pretty sorting.
From S2P Require Import Prelude PyRandom PyObj Locations Types Datapackage Multidata Conn Hints Json.
From S2P Require Import PyValue Packets Text Options Effects Room RoomOps RoomStore RoomPlay Commands.

Inductive OptionKind : Type := KInt | KMode | KBool.

Definition kind_text (k : OptionKind) : string :=
  match k with KInt => "int" | KMode => "str" | KBool => "bool" end.

Definition SETTABLE : list (string * OptionKind) :=
  [("hint_cost", KInt); ("location_check_points", KInt); ("release_mode", KMode);
   ("remaining_mode", KMode); ("collect_mode", KMode); ("countdown_mode", KMode);
   ("item_cheat", KBool); ("compatibility", KInt)]%string.

Definition REFUSED : list string := ["password"; "server_password"]%string.

Inductive Push : Type := PushPermissions | PushPerSlot | PushNothing.

(** ** The fields an option names *)

Definition set_hint_cost (v : Z) (o : RoomOptions) : RoomOptions :=
  mkRoomOptions (password o) (slot_passwords o) (server_password o) v (location_check_points o)
    (release_mode o) (collect_mode o) (remaining_mode o) (countdown_mode o) (item_cheat o)
    (compatibility o) (tags o).
Definition set_check_points (v : Z) (o : RoomOptions) : RoomOptions :=
  mkRoomOptions (password o) (slot_passwords o) (server_password o) (hint_cost o) v
    (release_mode o) (collect_mode o) (remaining_mode o) (countdown_mode o) (item_cheat o)
    (compatibility o) (tags o).
Definition set_release_mode (v : Permission.t) (o : RoomOptions) : RoomOptions :=
  mkRoomOptions (password o) (slot_passwords o) (server_password o) (hint_cost o)
    (location_check_points o) v (collect_mode o) (remaining_mode o) (countdown_mode o)
    (item_cheat o) (compatibility o) (tags o).
Definition set_collect_mode (v : Permission.t) (o : RoomOptions) : RoomOptions :=
  mkRoomOptions (password o) (slot_passwords o) (server_password o) (hint_cost o)
    (location_check_points o) (release_mode o) v (remaining_mode o) (countdown_mode o)
    (item_cheat o) (compatibility o) (tags o).
Definition set_remaining_mode (v : Permission.t) (o : RoomOptions) : RoomOptions :=
  mkRoomOptions (password o) (slot_passwords o) (server_password o) (hint_cost o)
    (location_check_points o) (release_mode o) (collect_mode o) v (countdown_mode o)
    (item_cheat o) (compatibility o) (tags o).
Definition set_countdown_mode (v : Permission.t) (o : RoomOptions) : RoomOptions :=
  mkRoomOptions (password o) (slot_passwords o) (server_password o) (hint_cost o)
    (location_check_points o) (release_mode o) (collect_mode o) (remaining_mode o) v
    (item_cheat o) (compatibility o) (tags o).
Definition set_item_cheat (v : bool) (o : RoomOptions) : RoomOptions :=
  mkRoomOptions (password o) (slot_passwords o) (server_password o) (hint_cost o)
    (location_check_points o) (release_mode o) (collect_mode o) (remaining_mode o)
    (countdown_mode o) v (compatibility o) (tags o).
Definition set_compatibility (v : Z) (o : RoomOptions) : RoomOptions :=
  mkRoomOptions (password o) (slot_passwords o) (server_password o) (hint_cost o)
    (location_check_points o) (release_mode o) (collect_mode o) (remaining_mode o)
    (countdown_mode o) (item_cheat o) v (tags o).

(** ** Reading a value *)

(** What the setters compute: the options after, and who is told.  [None]: the
    [unreachable!] arms. *)
Definition set_int_option (name value : string) (o : RoomOptions)
    : option (result string (Push * RoomOptions)) :=
  match parse_u32 value with
  | None => Some (Err (str_concat ["Could not read '"; value; "' as a whole number for "; name; "."]))
  | Some parsed =>
      if str_eqb name "hint_cost" then Some (Ok (PushPerSlot, set_hint_cost parsed o))
      else if str_eqb name "location_check_points" then Some (Ok (PushPerSlot, set_check_points parsed o))
      else if str_eqb name "compatibility" then
        Some (if parsed <=? u8_max then Ok (PushNothing, set_compatibility parsed o)
              else Err (str_concat ["compatibility is 0, 1 or 2, not "; pretty parsed; "."]))
      else None
  end.

(** [lower.replace('-', [_])]. *)
Definition normalize_mode (value : string) : string :=
  str_concat ((fun c => if str_eqb c "-" then "_"%string else c) <$> chars (to_ascii_lowercase value)).

Definition valid_modes (name : string) : list string :=
  if str_eqb name "countdown_mode" then ["enabled"; "disabled"; "auto"]
  else if str_eqb name "remaining_mode" then ["goal"; "enabled"; "disabled"]
  else ["goal"; "enabled"; "disabled"; "auto"; "auto_enabled"].

Definition set_mode_option (name value : string) (o : RoomOptions)
    : option (result string (Push * RoomOptions)) :=
  let normalized := normalize_mode value in
  let valid := valid_modes name in
  if negb (existsb (str_eqb normalized) valid)
  then Some (Err (str_concat ["Unrecognized "; name; " value '"; value; "', known: "; String.concat ", " valid]))
  else
    let permission := Permission.from_text normalized in
    if str_eqb name "release_mode" then Some (Ok (PushPermissions, set_release_mode permission o))
    else if str_eqb name "collect_mode" then Some (Ok (PushPermissions, set_collect_mode permission o))
    else if str_eqb name "remaining_mode" then Some (Ok (PushPermissions, set_remaining_mode permission o))
    else if str_eqb name "countdown_mode" then Some (Ok (PushNothing, set_countdown_mode permission o))
    else None.

(** The words that turn a switch off. *)
Definition bool_option (value : string) : bool :=
  negb (existsb (str_eqb (to_ascii_lowercase value)) ["off"; "0"; "false"; "none"; "null"; "no"]).

Definition set_option_kind (kind : OptionKind) (name value : string) (o : RoomOptions)
    : option (result string (Push * RoomOptions)) :=
  match kind with
  | KInt => set_int_option name value o
  | KMode => set_mode_option name value o
  | KBool => Some (Ok (PushNothing, set_item_cheat (bool_option value) o))
  end.

Definition option_as_text (o : RoomOptions) (name : string) : string :=
  if str_eqb name "hint_cost" then pretty (hint_cost o)
  else if str_eqb name "location_check_points" then pretty (location_check_points o)
  else if str_eqb name "compatibility" then pretty (compatibility o)
  else if str_eqb name "release_mode" then Permission.as_text (release_mode o)
  else if str_eqb name "collect_mode" then Permission.as_text (collect_mode o)
  else if str_eqb name "remaining_mode" then Permission.as_text (remaining_mode o)
  else if str_eqb name "countdown_mode" then Permission.as_text (countdown_mode o)
  else if str_eqb name "item_cheat" then py_bool (item_cheat o)
  else EmptyString.

Definition find_option (name : string) : option OptionKind :=
  snd <$> List.find (fun e => str_eqb e.1 name) SETTABLE.

Section server.
Context `{Json} `{HashOrder} `{HText : !JsonText} `{HUni : Unicode}.

(** ** Setting an option *)

Definition per_slot_update (r : Room) (name : string) (key : SlotKey) : RoomUpdate :=
  let cost := str_eqb name "hint_cost" in
  mkRoomUpdate None None (Some (slot_points r key)) None
    (if cost then Some (hint_cost (r_options r)) else None)
    (if cost then None else Some (location_check_points (r_options r))) None.

Definition push_option_update (push : Push) (name : string) : M unit :=
  r ← read id;
  match push with
  | PushNothing => done_
  | PushPermissions =>
      broadcast RAll [RoomUpdateP (mkRoomUpdate None None None (Some (permissions r)) None None None)]
  | PushPerSlot =>
      let keys := (List.filter (fun e => negb (Nat.eqb (length e.2) 0))
                     (hash_order (map_to_list (r_by_slot r)))).*1 in
      each keys (fun key => broadcast (RSlot key) [RoomUpdateP (per_slot_update r name key)])
  end.

Definition apply_option (name value : string) : M (result (list string) string) :=
  let name := to_ascii_lowercase name in
  if existsb (str_eqb name) REFUSED then
    mret (Err [str_concat ["Option "; name; " cannot be set while the room is running."];
               "Passwords are never written to the save, so a change here would revert the next time the room restarts. Set it where the room is configured instead."%string])
  else
    match find_option name with
    | None =>
        mret (Err [str_concat ["Unrecognized option '"; name; "', known: ";
                    String.concat ", " ((fun e => str_concat [e.1; ": "; kind_text e.2]) <$> SETTABLE)]])
    | Some kind =>
        r ← read id;
        x ← expect (set_option_kind kind name value (r_options r));
        match x with
        | Err m => mret (Err [m])
        | Ok (push, o) =>
            _ ← write (set_options o);
            _ ← mark_dirty;
            r ← read id;
            let text := option_as_text (r_options r) name in
            _ ← journal (JOptionChanged (r_clock r) name text);
            _ ← journal (JOptions (r_clock r) (r_options r));
            _ ← push_option_update push name;
            r ← read id;
            mret (Ok (str_concat ["Set option "; name; " to "; option_as_text (r_options r) name]))
        end
    end.

(** ** The commands *)

Definition admin_out (conn : ConnId) (text : string) : M unit := notify_admin conn [text].

Definition server_cmd_help (conn : ConnId) : M unit :=
  notify_admin conn
    ["/help"; "    Returns the help listing"; "/options"; "    List all current options";
     "/option <name> <value>"; "    Set an option for the server";
     "Anything not starting with / is announced to the room as the server. Commands that act on a player (release, collect, send, kick) are on the HTTP admin API rather than here."]%string.

Definition server_cmd_options (conn : ConnId) : M unit :=
  r ← read id;
  notify_admin conn (option_lines (r_options r) (opt_str (server_password (r_options r)))).

Definition server_cmd_option (conn : ConnId) (args : list string) : M unit :=
  match args with
  | name :: value :: _ =>
      x ← apply_option name value;
      match x with
      | Ok text => admin_out conn text
      | Err lines => notify_admin conn lines
      end
  | _ => admin_out conn "Usage: /option <name> <value>"
  end.

Definition server_command (conn : ConnId) (raw : string) : M unit :=
  match split_whitespace raw with
  | [] => done_
  | first :: args =>
      match strip_str "/" first with
      | None => broadcast_server_chat raw
      | Some name =>
          let name := to_ascii_lowercase name in
          if str_eqb name "option" then server_cmd_option conn args
          else if str_eqb name "options" then server_cmd_options conn
          else if str_eqb name "help" then server_cmd_help conn
          else admin_out conn (str_concat ["Unknown command "; name; ". Use /help for a list of commands."])
      end
  end.
End server.
