(* ===== verification/Say.v ===== *)
(** * [crates/pahoa-room/src/room/commands.rs], part 2: a line of chat

    Cheats, remote administration, hints for points, and [handle_say]: every
    line is chat first and a command second.  The end of the file is [dispatch] and
    [handle] of [room.rs], which every packet of a client goes through. *)

From Stdlib Require Import ZArith Lia Bool SpecFloat.
From stdpp Require Import base tactics list sets gmap strings pretty sorting.
From S2P Require Import Prelude PyRandom PyObj Locations Types Datapackage Multidata Conn Hints Json PyValue Packets.
From S2P Require Import Text Fuzzy Filter Options Effects Room RoomOps RoomStore RoomPlay Commands ServerCommands.

(** [i64::div_euclid]. *)
Definition div_euclid (n d : Z) : Z := if 0 <? d then n / d else - (n / - d).

Definition quoted (s : string) : string := str_concat [quote2; s; quote2].

Section say.
Context `{Json} `{HashOrder} `{HText : !JsonText} `{HUni : Unicode}.

(** ** Cheats *)

(** The item of a cheat: location -1, from the slot itself. *)
Definition cheat_item (slot id : Z) : NetworkItem := mkNetworkItem id (-1) slot 0.

Definition queue_copies (key : QueueKey) (item : NetworkItem) (count : nat) : M unit :=
  write (fun r => set_received_items
    (<[key := default [] (r_received_items r !! key) ++ replicate count item]> (r_received_items r)) r).

Definition cheat_text (count : nat) (name alias : string) : string :=
  str_concat ["Cheat console: sending ";
              (if Nat.eqb count 1 then EmptyString else str_concat [pretty (Z.of_nat count); " of "]);
              quoted name; " to "; alias].

Definition cheat_message (announce : CheatAnnounce) (key : SlotKey) (item : NetworkItem) (text : string)
    : ServerPacket :=
  PrintJSON
    match announce with
    | Typed => mkPrintJson [part_text text] (Some ItemCheat) (Some key.2) (Some item) None (Some key.1)
                 None None None None
    | Plain => mkPrintJson [part_text text] None None None None None None None None None
    end.

Definition grant_items (key : SlotKey) (wanted : string) (count : nat) (announce : CheatAnnounce)
    : M (result string string) :=
  r ← read id;
  match names_of r key.2 with
  | None => mret (Err (str_concat ["No item names are known for "; slot_game r key.2; "."]))
  | Some names =>
      match intended wanted (sorted_keys (item_name_to_id (package names))) with
      | None => mret (Err EmptyString)
      | Some (Rejected _ _ message) => mret (Err message)
      | Some (Accepted name _) =>
          id_ ← expect (item_id names name);
          let item := cheat_item key.2 id_ in
          _ ← each [false; true] (fun remote => queue_copies (key, remote) item count);
          r ← read id;
          _ ← each (replicate count tt) (fun _ =>
                journal (JCheat (r_clock r) key (slot_alias r key) id_ name));
          _ ← broadcast (RAllTextAbout key)
                [cheat_message announce key item (cheat_text count name (slot_alias r key))];
          _ ← send_new_items {[key.2]};
          mret (Ok name)
      end
  end.

Definition grant_item (key : SlotKey) (wanted : string) : M (result string string) :=
  grant_items key wanted 1 Typed.

Definition cmd_getitem (conn : ConnId) (wanted : string) : M unit :=
  r ← read id;
  if negb (item_cheat (r_options r)) then notify conn "Cheating is disabled."
  else
    with_slot conn (fun key =>
      x ← grant_item key wanted;
      match x with
      | Ok _ => mark_dirty
      | Err message => if str_eqb message EmptyString then done_ else notify conn message
      end).

(** ** Remote administration *)

(** What of an [!admin] line is shown: a password is asterisks. *)
Definition mask_admin (command : string) : M string :=
  let lower := to_lowercase command in
  if starts_with "login" lower then
    stars ← asterisks; mret (String.append "!admin login " stars)
  else if starts_with "/option server_password" lower then
    stars ← asterisks; mret (String.append "!admin /option server_password " stars)
  else mret (String.append "!admin " command).

Definition admin_login (conn : ConnId) (supplied server_password : string) : M unit :=
  if ct_eq (String.list_byte_of_string supplied) (String.list_byte_of_string server_password) then
    previous ← read r_admin_conn;
    _ ← write (set_admin_conn (Some conn));
    _ ← (match previous with
         | Some previous =>
             when (negb (previous =? conn))
               (notify previous "Another client has logged in for remote administration; your session has ended.")
         | None => done_
         end);
    notify conn "Login successful. You can now issue server side commands."
  else notify conn "Password incorrect.".

Definition cmd_admin (conn : ConnId) (command : string) : M unit :=
  with_slot conn (fun key =>
    masked ← mask_admin command;
    _ ← broadcast_chat key masked masked;
    r ← read id;
    match server_password (r_options r) with
    | None => notify conn "Sorry, Remote administration is disabled"
    | Some server_password =>
        let authenticated := bool_decide (r_admin_conn r = Some conn) in
        if str_eqb command EmptyString then
          notify_multiple conn
            (if authenticated
             then ["Usage: !admin [Server command]."; "Use !admin /help for help.";
                   "Use !admin logout to log out of the current session."]
             else ["Usage: !admin login [password]"])%string
        else
          match strip_str "login " command with
          | Some supplied => admin_login conn supplied server_password
          | None =>
              if negb authenticated then notify conn "You must first login using !admin login [password]"
              else if str_eqb command "logout" then
                _ ← write (set_admin_conn None);
                notify conn "Logout successful. You can no longer issue server side commands."
              else server_command conn command
          end
    end).

(** ** Hints for points *)

Definition collect_item_hints (r : Room) (key : SlotKey) (item : Z) : list Hint :=
  collect_for_item (r_data r) (r_hints r) key key.2 item None
    (fun s loc => is_checked r (key.1, s) loc).

Definition collect_own_location (r : Room) (key : SlotKey) (id : Z) : list Hint :=
  collect_location_hints r key key.2 id (Some HintStatus.Unspecified).

Definition collect_hints_by_id (r : Room) (key : SlotKey) (id : Z) (for_location : bool) : list Hint :=
  if for_location then collect_own_location r key id else collect_item_hints r key id.

Definition collect_hints_by_name (r : Room) (key : SlotKey) (name : string) (for_location : bool)
    : list Hint :=
  match names_of r key.2 with
  | None => []
  | Some names =>
      let by_location :=
        match location_name_groups (package names) !! name with
        | Some members => id ← omap (location_id names) members; collect_own_location r key id
        | None =>
            match location_id names name with
            | Some id => collect_own_location r key id
            | None => []
            end
        end in
      if for_location then by_location
      else
        match item_name_groups (package names) !! name with
        | Some members => id ← omap (item_id names) members; collect_item_hints r key id
        | None =>
            match item_id names name with
            | Some id => collect_item_hints r key id
            | None => by_location
            end
        end
  end.

(** The line of a hint in the journal. *)
Definition describe_hint (r : Room) (team : Z) (h : Hint) : string :=
  str_concat [slot_name r (team, receiving_player h); "'s ";
              item_text (names_of r (receiving_player h)) (h_item h); " at ";
              location_text (names_of r (finding_player h)) (h_location h); " (";
              slot_name r (team, finding_player h); ")"].

Definition more_hints (got_something : bool) (cost now : Z) : string :=
  let broke := negb (cost =? 0) && (div_euclid now cost =? 0) in
  if got_something && broke then
    str_concat ["There may be more hintables, however, you cannot afford to pay for any more.  You have ";
                pretty now; " and need at least "; pretty cost; "."]
  else if got_something then "There may be more hintables, you can rerun the command to find more."
  else str_concat ["You can't afford the hint. You have "; pretty now; " points and need at least ";
                   pretty cost; "."].

Definition notify_caller (conn : option ConnId) (text : string) : M unit :=
  on_some conn (fun conn => notify conn text).

Definition is_known (r : Room) (key : SlotKey) (h : Hint) : bool :=
  hints_contains (r_hints r) key (identity h).

(** The draw of the hints that are paid for: the granted, the rest. *)
Definition choose_hints (unfound : list Hint) (limit : nat) : M (list Hint * list Hint) :=
  r ← read id;
  draw (fun rng => choose DRAWS rng unfound (sphere_of (r_data r)) limit).

Definition pay_for_hints (conn : option ConnId) (key : SlotKey) (candidates : list Hint)
    (points_available cost : Z) : M nat :=
  r ← read id;
  let known := List.filter (is_known r key) candidates in
  let fresh := List.filter (fun h => negb (is_known r key h)) candidates in
  match fresh with
  | [] =>
      _ ← (match known with
           | [] => done_
           | _ =>
               _ ← notify_hints key.1 known false false None;
               notify_caller conn "Hint was previously used, no points deducted."
           end);
      mret 0%nat
  | _ =>
      let free := List.filter found fresh in
      let unfound := List.filter (fun h => negb (found h)) fresh in
      let limit := budget cost points_available (negb (Nat.eqb (length unfound) 0)) in
      '(granted, remaining) ← choose_hints unfound limit;
      r ← read id;
      let described := describe_hint r key.1 <$> (free ++ granted) in
      _ ← write (fun r => set_hints_used
            (<[key := wrap_i64 (hints_used r key + Z.of_nat (length granted))]> (r_hints_used r)) r);
      r ← read id;
      _ ← when (negb (Nat.eqb (length described) 0))
            (journal (JHints (r_clock r) key (slot_alias r key) described cost points_available
                        (slot_points r key)));
      let announce := free ++ known ++ granted in
      let got_something := negb (Nat.eqb (length announce) 0) in
      _ ← notify_hints key.1 announce false false None;
      r ← read id;
      _ ← when (negb (Nat.eqb (length remaining) 0))
            (notify_caller conn (more_hints got_something cost (slot_points r key)));
      _ ← mark_dirty;
      mret (length granted)
  end.

(** What a hint request means: the hints and the name, or why not. *)
Definition hint_candidates (r : Room) (key : SlotKey) (names : GameNames) (input : string)
    (for_location : bool) : (list Hint * string) + string :=
  let blocked name := str_concat ["Sorry, "; quoted name; " is marked as non-hintable."] in
  if forallb is_numeric (chars input) then
    match parse_i64 input with
    | None => inr (str_concat [input; " is not a usable id."])
    | Some id =>
        let name := if for_location then location_name names id else item_name names id in
        if negb (is_hintable names name) then inr (blocked name)
        else inl (collect_hints_by_id r key id for_location, name)
    end
  else
    let pool := if for_location then location_and_group_names names else item_and_group_names names in
    match intended input pool with
    | None => inr "Can't look up item/location for unknown game. Hint for ID instead."%string
    | Some (Rejected _ _ message) => inr message
    | Some (Accepted name _) =>
        if negb (is_hintable names name) then inr (blocked name)
        else inl (collect_hints_by_name r key name for_location, name)
    end.

Definition nothing_found (for_location : bool) (subject : string) (points_available cost : Z) : string :=
  if cost <=? points_available then
    str_concat ["Nothing found for recognized "; (if for_location then "location" else "item"); " name ";
                quoted subject; ". "; (if for_location then "Location" else "Item");
                " appears to not exist in this multiworld."]
  else
    str_concat ["You can't afford the hint. You have "; pretty points_available; " points and need at least ";
                pretty cost; "."].

Definition cmd_hint (conn : ConnId) (input : string) (for_location : bool) : M unit :=
  with_slot conn (fun key =>
    r ← read id;
    let points_available := slot_points r key in
    let cost := hint_cost_for (r_options r) (count_for (locations (r_data r)) key.2) in
    if str_eqb input EmptyString then
      _ ← notify_hints key.1 (hints_get (r_hints r) key) false false (Some [key.2]);
      notify conn (str_concat ["A hint costs "; pretty cost; " points. You have ";
                               pretty points_available; " points."])
    else
      match names_of r key.2 with
      | None => notify conn "Can't look up item/location for unknown game. Hint for ID instead."
      | Some names =>
          match hint_candidates r key names input for_location with
          | inr text => notify conn text
          | inl ([], subject) => notify conn (nothing_found for_location subject points_available cost)
          | inl (candidates, _) =>
              _ ← pay_for_hints (Some conn) key candidates points_available cost; done_
          end
      end).

(** ** Dispatch *)

Definition unknown_command (conn : ConnId) (name : string) : M unit :=
  notify conn (str_concat ["Could not find command "; name; ". Known commands: ";
    String.concat ", " ((fun e : string * string * string => e.1.1) <$> HELP)]).

Definition run_word_command (conn : ConnId) (name : string) (args : list string) : M unit :=
  let first := default EmptyString (head args) in
  if str_eqb name "help" then cmd_help conn
  else if str_eqb name "license" then cmd_license conn
  else if str_eqb name "options" then cmd_options conn
  else if str_eqb name "players" then cmd_players conn
  else if str_eqb name "status" then cmd_status conn first
  else if str_eqb name "release" then cmd_release conn
  else if str_eqb name "collect" then cmd_collect conn
  else if str_eqb name "countdown" then cmd_countdown conn first
  else if str_eqb name "remaining" then cmd_remaining conn
  else unknown_command conn name.

Definition run_raw_command (conn : ConnId) (name argument : string) : M unit :=
  if str_eqb name "admin" then cmd_admin conn argument
  else if str_eqb name "missing" then cmd_location_list conn argument true
  else if str_eqb name "checked" then cmd_location_list conn argument false
  else if str_eqb name "alias" then cmd_alias conn argument
  else if str_eqb name "getitem" then cmd_getitem conn argument
  else if str_eqb name "hint" then cmd_hint conn argument false
  else if str_eqb name "hint_location" then cmd_hint conn argument true
  else unknown_command conn name.

(** The command a line is, after its chat. *)
Definition run_command (conn : ConnId) (raw : string) : M unit :=
  match shell_split raw with
  | [] => done_
  | first :: words =>
      match strip_str "!" first with
      | None => done_
      | Some name =>
          let name := to_lowercase name in
          if takes_raw_argument name
          then run_raw_command conn name (default EmptyString (after_whitespace (chars raw)))
          else run_word_command conn name words
      end
  end.

Definition process_message (conn : ConnId) (raw : string) : M unit :=
  with_slot conn (fun key =>
    _ ← when (negb (starts_with "!admin" raw)) (broadcast_chat key raw raw);
    if str_eqb raw EmptyString then done_ else run_command conn raw).

Definition handle_say (conn : ConnId) (text : Arg string) : M unit :=
  match as_ok text with
  | Some text => if is_printable text then process_message conn text else bad_arguments conn "Say" "Say"
  | None => bad_arguments conn "Say" "Say"
  end.
End say.

(** * [crates/pahoa-room/src/room.rs], part 4: the dispatch of a packet

    What runs before a client is authenticated, what a slot's filter drops,
    and the handler of each command. *)

Section dispatch.
Context `{Json} `{HashOrder} `{HText : !JsonText} `{HUni : Unicode}.

(** ** Dispatch *)

Definition from_slot_kind (p : ClientPacket) : option (Kind * list string) :=
  match p with
  | CBounce b _ => Some (KBounce, default [] (as_ok (bo_tags b)))
  | CSet _ _ => Some (KSet, [])
  | CStatusUpdate _ => Some (KStatusUpdate, [])
  | CSay _ => Some (KSay, [])
  | _ => None
  end.

Definition dispatch (conn : ConnId) (p : ClientPacket) : M unit :=
  match p with
  | CConnect c => handle_connect conn c
  | CSync => handle_sync conn
  | CLocationChecks l => handle_location_checks conn l
  | CStatusUpdate s => handle_status_update conn s
  | CConnectUpdate u => handle_connect_update conn u
  | CSetNotify keys => handle_set_notify conn keys
  | CBounce b raw => handle_bounce conn b raw
  | CLocationScouts s => handle_location_scouts conn s
  | CCreateHints c => handle_create_hints conn c
  | CUpdateHint u => handle_update_hint conn u
  | CGetDataPackage games exclusions => handle_get_datapackage conn games exclusions
  | CGet keys raw => handle_get conn keys raw
  | CSet s raw => handle_set conn s raw
  | CSay text => handle_say conn text
  end.

Definition handle (conn : ConnId) (p : ClientPacket) : M unit :=
  r ← read id;
  let authed := match r_clients r !! conn with Some c => c_auth c | None => false end in
  if negb authed && negb (allowed_before_auth p) then done_
  else
    dropped ← (match r_clients r !! conn, from_slot_kind p with
               | Some c, Some (k, labels) =>
                   if authed then filters_from_slot (c_team c, c_slot c) k labels else mret false
               | _, _ => mret false
               end);
    match dropped with true => done_ | false => dispatch conn p end.
End dispatch.
