(* ===== verification/Admin.v ===== *)
(** * [crates/pahoa-room/src/room/admin.rs]: commands from outside a connection

    The target is supplied and the answer is a document.  [admin] records a
    command before it runs it. *)

From Stdlib Require Import ZArith Lia Bool SpecFloat.
From stdpp Require Import base tactics list sets gmap strings pretty sorting.
From S2P Require Import Prelude PyRandom PyObj Locations Types Datapackage Multidata Conn Hints Json.
From S2P Require Import PyValue Packets Text Fuzzy Options Effects Room RoomOps RoomStore RoomPlay.
From S2P Require Import Commands ServerCommands Say.

Definition SEND_MULTIPLE_LIMIT : Z := 100.

Inductive AdminCommand : Type :=
| AStatus
| ASay (text : string)
| ACountdown (seconds : Z)
| ARelease (slot : Z)
| ACollect (slot : Z)
| ASendItem (slot : Z) (item : string)
| ASendMultiple (slot : Z) (item : string) (amount : Z)
| AHint (slot : Z) (item : string) (force : bool)
| AHintLocation (slot : Z) (location : string) (force : bool)
| ASendLocation (slot : Z) (location : string)
| AAllowRelease (slot : Z) (allowed : bool)
| ALock (slot : Z) (locked : bool)
| ASetStatus (slot : Z) (st : ClientStatus.t)
| AAlias (slot : Z) (alias : string)
| AOption (name value : string)
| AKick (slot : Z) (reason : string).

Record AdminOutcome : Type := mkOutcome {
  ok : bool;
  output : list string;
  affected_slots : list Z
}.

Definition outcome_ok (text : string) (slots : list Z) : AdminOutcome := mkOutcome true [text] slots.
Definition outcome_lines (output : list string) : AdminOutcome := mkOutcome true output [].
Definition refused (text : string) : AdminOutcome := mkOutcome false [text] [].

Definition unknown_slot (slot : Z) : AdminOutcome :=
  refused (str_concat ["There is no slot "; pretty slot; " in this seed."]).

Definition is_secret_option (name : string) : bool := contains_str (to_ascii_lowercase name) "password".

(** The [s] of a plural. *)
Definition plural (n : nat) : string := if Nat.eqb n 1 then EmptyString else "s"%string.

Definition status_suffix (s : ClientStatus.t) : string :=
  match s with
  | ClientStatus.Goal => " and has finished."
  | ClientStatus.Ready => " and is ready."
  | _ => "."
  end.

Section admin.
Context `{Json} `{HashOrder} `{HText : !JsonText} `{HUni : Unicode}.

(** The verb, the slot and the arguments a command is recorded with. *)
Definition journal_shape (c : AdminCommand) : option (string * option Z * Value) :=
  let object (l : JMap) := make (SObject l) in
  match c with
  | AStatus => None
  | ASay text => Some ("say", None, object [("text", v_string text)])
  | ACountdown seconds => Some ("countdown", None, object [("seconds", v_int seconds)])
  | ARelease slot => Some ("release", Some slot, object [])
  | ACollect slot => Some ("collect", Some slot, object [])
  | ASendItem slot item => Some ("send_item", Some slot, object [("item", v_string item); ("amount", v_int 1)])
  | ASendMultiple slot item amount =>
      Some ("send_item", Some slot, object [("item", v_string item); ("amount", v_int amount)])
  | AHint slot item force =>
      Some ("hint", Some slot, object [("item", v_string item); ("forced", v_bool force)])
  | AHintLocation slot location force =>
      Some ("hint_location", Some slot, object [("location", v_string location); ("forced", v_bool force)])
  | ASendLocation slot location => Some ("send_location", Some slot, object [("location", v_string location)])
  | AAllowRelease slot allowed => Some ("allow_release", Some slot, object [("allowed", v_bool allowed)])
  | ALock slot locked => Some ("lock", Some slot, object [("locked", v_bool locked)])
  | ASetStatus slot st =>
      Some ("set_status", Some slot, object [("status", v_string (ClientStatus.as_text st))])
  | AAlias slot alias => Some ("alias", Some slot, object [("alias", v_string alias)])
  | AOption name value =>
      Some ("option", None, object [("option", v_string name);
        ("value", v_string (if is_secret_option name then "***" else value))])
  | AKick slot reason => Some ("kick", Some slot, object [("reason", v_string reason)])
  end%string.

Definition admin_key (r : Room) (slot : Z) : option SlotKey :=
  if bool_decide (is_Some (slot_info (r_data r) !! slot)) then Some (ONLY_TEAM, slot) else None.

(** The early return of a command about an unknown slot. *)
Definition with_key (slot : Z) (k : SlotKey -> M AdminOutcome) : M AdminOutcome :=
  r ← read id;
  match admin_key r slot with Some key => k key | None => mret (unknown_slot slot) end.

Definition alias_of (key : SlotKey) : M string := read (fun r => slot_alias r key).

(** ** Reading, announcing *)

Definition admin_status_line (r : Room) (key : SlotKey) : string :=
  let connected := connections_for r key in
  str_concat [slot_alias r key; " has "; pretty (Z.of_nat connected); " connection"; plural connected;
              status_suffix (client_state r key); " ("; pretty (Z.of_nat (checked_count r key)); "/";
              pretty (Z.of_nat (count_for (locations (r_data r)) key.2)); ")"].

Definition admin_status (r : Room) : list string :=
  let keys := team ← teams (r_data r); pair team <$> btree_keys (slot_info (r_data r)) in
  let connected := length (List.filter (fun key => (0 <? connections_for r key)%nat) keys) in
  str_concat [pretty (Z.of_nat connected); " of "; pretty (Z.of_nat (length keys)); " slots connected."] ::
  (admin_status_line r <$> keys).

Definition admin_say (text : string) : M AdminOutcome :=
  if negb (is_printable text)
  then mret (refused "That message contains characters clients cannot display.")
  else if str_eqb text EmptyString then mret (refused "Nothing to say.")
  else
    _ ← broadcast_server_chat text;
    mret (outcome_ok (String.append "Said to the room: " text) []).

Definition admin_countdown (seconds : Z) : M AdminOutcome :=
  if negb (within 0 (60 * 60) seconds)
  then mret (refused (str_concat [pretty seconds; " is invalid. A countdown runs between 0 and 3600 seconds."]))
  else
    now ← read r_clock;
    _ ← start_countdown seconds now;
    mret (outcome_ok (str_concat ["Started a "; pretty seconds; " second countdown."]) []).

(** ** Playing for a slot *)

Definition admin_release (slot : Z) : M AdminOutcome :=
  with_key slot (fun key =>
    before ← read (fun r => checked_count r key);
    _ ← release_player key TAdmin;
    _ ← mark_dirty;
    r ← read id;
    let released := (checked_count r key - before)%nat in
    mret (outcome_ok (str_concat ["Released "; pretty (Z.of_nat released); " locations for ";
                                  slot_alias r key; "."]) [slot])).

Definition admin_collect (slot : Z) : M AdminOutcome :=
  with_key slot (fun key =>
    _ ← collect_player key TAdmin;
    _ ← mark_dirty;
    who ← alias_of key;
    mret (outcome_ok (str_concat ["Collected for "; who; "."]) [slot])).

Definition admin_send_item (slot : Z) (item : string) (amount : Z) : M AdminOutcome :=
  with_key slot (fun key =>
    if amount <? 1
    then mret (refused (String.append (pretty amount) " is not a number of items to send."))
    else if SEND_MULTIPLE_LIMIT <? amount
    then mret (refused (str_concat [pretty amount; " is too many; the most that may be sent at once is ";
                                    pretty SEND_MULTIPLE_LIMIT; "."]))
    else
      x ← grant_items key item (Z.to_nat amount) Plain;
      match x with
      | Ok name =>
          _ ← mark_dirty;
          who ← alias_of key;
          mret (outcome_ok
            (if amount =? 1 then str_concat ["Sent "; quoted name; " to "; who; "."]
             else str_concat ["Sent "; pretty amount; " of "; quoted name; " to "; who; "."]) [slot])
      | Err message => mret (refused message)
      end).

Definition admin_hints (r : Room) (key : SlotKey) (name : string) (for_location : bool) : list Hint :=
  let hintable :=
    match names_of r key.2 with
    | Some names =>
        existsb (str_eqb name)
          (if for_location then location_and_group_names names else item_and_group_names names)
    | None => false
    end in
  match parse_i64 name with
  | Some id => collect_hints_by_id r key id for_location
  | None => if hintable then collect_hints_by_name r key name for_location else []
  end.

Definition admin_hint (slot : Z) (name : string) (for_location force : bool) : M AdminOutcome :=
  with_key slot (fun key =>
    let noun := if for_location then "location"%string else "item"%string in
    r ← read id;
    match admin_hints r key name for_location with
    | [] => mret (refused (str_concat ["Found no hintable "; noun; " matching "; quoted name; " for ";
                                       slot_alias r key; "."]))
    | hints =>
        if force then
          _ ← notify_hints key.1 hints false false None;
          _ ← mark_dirty;
          who ← alias_of key;
          mret (outcome_ok (str_concat ["Granted "; pretty (Z.of_nat (length hints)); " hint(s) to "; who; "."])
                  [slot])
        else
          let cost := hint_cost_for (r_options r) (count_for (locations (r_data r)) slot) in
          granted ← pay_for_hints None key hints (slot_points r key) cost;
          _ ← mark_dirty;
          who ← alias_of key;
          mret (outcome_ok (str_concat ["Hinted "; pretty (Z.of_nat granted); " "; noun; "(s) for "; who;
                                        ", at their own cost."]) [slot])
    end).

Definition resolve_location (r : Room) (key : SlotKey) (input : string) : option Z :=
  match parse_i64 input with
  | Some id => Some id
  | None => names ← names_of r key.2; location_id names input
  end.

Definition admin_send_location (slot : Z) (location : string) : M AdminOutcome :=
  with_key slot (fun key =>
    r ← read id;
    match resolve_location r key location with
    | None => mret (refused (str_concat ["Found no location matching "; quoted location; " for ";
                                         slot_alias r key; "."]))
    | Some loc =>
        let before := checked_count r key in
        _ ← register_location_checks key [loc];
        r ← read id;
        let checked := (checked_count r key - before)%nat in
        if Nat.eqb checked 0
        then mret (refused (str_concat [slot_alias r key; " had nothing to check at "; quoted location;
                     "; it is already checked or does not belong to that slot."]))
        else
          _ ← mark_dirty;
          mret (outcome_ok (str_concat ["Checked "; quoted location; " for "; slot_alias r key; "."]) [slot])
    end).

Definition also_done (o : RoomOptions) : list string :=
  (if Permission.is_auto (collect_mode o) then ["collected"%string] else []) ++
  (if Permission.is_auto (release_mode o) then ["released"%string] else []).

Definition admin_set_status (slot : Z) (st : ClientStatus.t) : M AdminOutcome :=
  with_key slot (fun key =>
    r ← read id;
    let who := slot_alias r key in
    if bool_decide (client_state r key = ClientStatus.Goal)
    then mret (refused (String.append who " has already completed their goal, and that cannot be undone."))
    else
      _ ← room_set_status key st;
      r ← read id;
      let text := str_concat [who; " is now "; ClientStatus.as_text st; "."] in
      let more :=
        match st with
        | ClientStatus.Goal =>
            match also_done (r_options r) with
            | [] => EmptyString
            | also => str_concat [" Their world was automatically "; String.concat " and " also;
                                  ", as it would be for any goal."]
            end
        | ClientStatus.Unknown | ClientStatus.Connected =>
            " This is a connection state, so it will be overwritten the next time they connect or disconnect."
        | _ => EmptyString
        end%string in
      mret (outcome_ok (String.append text more) [slot])).

(** ** Managing a slot *)

Definition admin_allow_release (slot : Z) (allowed : bool) : M AdminOutcome :=
  with_key slot (fun key =>
    _ ← allow_release key allowed;
    _ ← mark_dirty;
    r ← read id;
    let who := slot_alias r key in
    mret (outcome_ok
      (if allowed then String.append who " may now use !release at any time."
       else str_concat [who; " now follows the room's release_mode (";
                        Permission.as_text (release_mode (r_options r)); "), which may still allow it."])
      [slot])).

Definition admin_lock (slot : Z) (locked : bool) : M AdminOutcome :=
  with_key slot (fun key =>
    _ ← lock_slot key locked;
    _ ← mark_dirty;
    r ← read id;
    let who := slot_alias r key in
    let open := connections_for r key in
    mret (outcome_ok
      (if locked then
         String.append (String.append who " is locked and cannot connect.")
           (if (0 <? open)%nat
            then str_concat [" "; pretty (Z.of_nat open); " connection";
                   (if Nat.eqb open 1 then " is" else "s are")%string;
                   " still open; locking does not disconnect anyone. Use kick for that."]
            else EmptyString)
       else String.append who " is unlocked and may connect again.") [slot])).

Definition admin_alias (slot : Z) (alias : string) : M AdminOutcome :=
  with_key slot (fun key =>
    let trimmed := trim_alias alias in
    r ← read id;
    let name := slot_name r key in
    let announce text :=
      _ ← mark_dirty;
      r ← read id;
      _ ← broadcast RAll [players_update r];
      mret (outcome_ok text [slot]) in
    if str_eqb trimmed EmptyString then
      if bool_decide (is_Some (r_name_aliases r !! key)) then
        _ ← write (fun r => set_name_aliases (delete key (r_name_aliases r)) r);
        announce (str_concat ["Cleared the alias for "; name; "."])
      else mret (refused (String.append name " has no alias to clear."))
    else
      _ ← write (fun r => set_name_aliases (<[key := trimmed]> (r_name_aliases r)) r);
      announce (str_concat [name; " is now known as "; trimmed; "."])).

Definition admin_option (name value : string) : M AdminOutcome :=
  x ← apply_option name value;
  mret match x with
       | Ok text => outcome_ok text []
       | Err lines => mkOutcome false lines []
       end.

Definition admin_kick (slot : Z) (reason : string) : M AdminOutcome :=
  with_key slot (fun key =>
    r ← read id;
    match resolve r (RSlot key) with
    | [] => mret (refused (String.append (slot_alias r key) " is not connected."))
    | conns =>
        _ ← when (negb (str_eqb reason EmptyString) && is_printable reason)
              (broadcast (RSlotText key)
                 [text_message (Some CommandResult) None None None None
                    (String.append "You have been disconnected by an administrator: " reason)]);
        _ ← each conns (fun conn => emit (EClose conn Kicked));
        mret (outcome_ok (str_concat ["Disconnected "; pretty (Z.of_nat (length conns)); " connection";
                            plural (length conns); " for "; slot_alias r key; ". They may reconnect."]) [slot])
    end).

(** ** The command *)

Definition admin_dispatch (c : AdminCommand) : M AdminOutcome :=
  match c with
  | AStatus => r ← read id; mret (outcome_lines (admin_status r))
  | ASay text => admin_say text
  | ACountdown seconds => admin_countdown seconds
  | ARelease slot => admin_release slot
  | ACollect slot => admin_collect slot
  | ASendItem slot item => admin_send_item slot item 1
  | ASendMultiple slot item amount => admin_send_item slot item amount
  | AHint slot item force => admin_hint slot item false force
  | AHintLocation slot location force => admin_hint slot location true force
  | ASendLocation slot location => admin_send_location slot location
  | AAllowRelease slot allowed => admin_allow_release slot allowed
  | ALock slot locked => admin_lock slot locked
  | ASetStatus slot st => admin_set_status slot st
  | AAlias slot alias => admin_alias slot alias
  | AOption name value => admin_option name value
  | AKick slot reason => admin_kick slot reason
  end.

Definition admin (c : AdminCommand) : M AdminOutcome :=
  _ ← (match journal_shape c with
       | Some (verb, slot, detail) =>
           now ← read r_clock; journal (JAdmin now verb slot detail)
       | None => done_
       end);
  admin_dispatch c.
End admin.
