(* ===== verification/RoomFrame.v ===== *)
(** * What a handler leaves alone

    [keeps_in tm view m]: the computation leaves a view of the room as it is, and
    its effects are all of a kind.  For [keeps] the view is the stored data with
    their byte count and the flags of the connections, and no effect reports a
    membership: that is every handler but [handle_set]'s write and the few that
    log a connection in or out, which touch the flags of that one connection. *)

From Stdlib Require Import ZArith Lia Bool SpecFloat.
From stdpp Require Import base tactics list sets gmap strings sorting.
From S2P Require Import Prelude PyRandom PyObj Locations Types Multidata Conn Hints Json PyValue Packets Filter.
From S2P Require Import Options DataStore Effects Room RoomSpec RoomOps RoomStore RoomPlay.
From S2P Require Import Text Commands ServerCommands Say Admin.

Create HintDb frame discriminated.

Section frame.
Context `{Json} `{HashOrder} `{HText : !JsonText}.

Definition store_of (r : Room) : gmap string Value * Z := (r_stored_data r, r_stored_data_bytes r).

(** What the transport knows of a client: authenticated, no text, its slot, and
    whether it is on the scoped feed. *)
Definition Flags : Type := bool * bool * option SlotKey * bool.

Definition client_flags (c : Client) : Flags :=
  (c_auth c, c_no_text c, if c_auth c then Some (session_key c) else None, scoped c).

Definition flags (r : Room) : gmap ConnId Flags := client_flags <$> r_clients r.

Definition view_of (r : Room) := (store_of r, flags r).

Definition no_membership (e : Effect) : Prop :=
  match e with EMembership _ _ _ _ => False | _ => True end.

(** The membership of one connection only. *)
Definition only_of (conn : ConnId) (e : Effect) : Prop :=
  match e with EMembership c _ _ _ => c = conn | _ => True end.

Definition flags_but (conn : ConnId) (r : Room) : gmap ConnId Flags := delete conn (flags r).

(** The computation leaves a view of the room as it is, and its effects are of
    this kind. *)
Definition keeps_in {B} (tm : Effect -> Prop) (view : Room -> B) {A} (m : M A) : Prop :=
  forall r a r' es, m r = Ok (a, r', es) -> view r' = view r /\ Forall tm es.

Section view.
Context {B : Type} (tm : Effect -> Prop) (view : Room -> B).
#[local] Notation keeps := (keeps_in tm view).

Lemma keeps_ret {A} (a : A) : keeps (mret a).
Proof. intros r ? ? ? [= _ <- <-]. by split. Qed.

Lemma keeps_stop {A} s : keeps (stop s : M A).
Proof. by intros r ? ? ?. Qed.

Lemma keeps_bind {A C} (m : M A) (k : A -> M C) :
  keeps m -> (forall a, keeps (k a)) -> keeps (m ≫= k).
Proof.
  intros Hm Hk r c r' es. unfold mbind, M_bind.
  destruct (m r) as [[[a r1] e1]|] eqn:E1; [|done].
  destruct (k a r1) as [[[c' r2] e2]|] eqn:E2; [|done]. intros [= -> -> <-].
  destruct (Hk _ _ _ _ _ E2) as [Hv2 Ht2], (Hm _ _ _ _ E1) as [Hv1 Ht1].
  split; [by rewrite Hv2|by apply Forall_app].
Qed.

Lemma keeps_read {A} (g : Room -> A) : keeps (read g).
Proof. intros r ? ? ? [= _ <- <-]. by split. Qed.

Lemma keeps_write g : (forall r, view (g r) = view r) -> keeps (write g).
Proof. intros Hg r ? ? ? [= _ <- <-]. split; [apply Hg|done]. Qed.

Lemma keeps_emit e : tm e -> keeps (emit e).
Proof. intros He r ? ? ? [= _ <- <-]. split; [done|by apply Forall_singleton]. Qed.

Lemma keeps_draw {A} (g : PyRandom -> option (A * PyRandom)) :
  (forall rng r, view (set_rng rng r) = view r) -> keeps (draw g).
Proof.
  intros Hv r ? ? ?. unfold draw. destruct (g (r_rng r)) as [[x rng]|]; [|done]. intros [= _ <- <-].
  split; [apply Hv|done].
Qed.

Lemma keeps_when b m : keeps m -> keeps (when b m).
Proof. intros Hm. destruct b; [exact Hm|apply keeps_ret]. Qed.

Lemma keeps_on_some {A} (o : option A) k : (forall a, keeps (k a)) -> keeps (on_some o k).
Proof. intros Hk. destruct o; [apply Hk|apply keeps_ret]. Qed.

Lemma keeps_expect {A} (o : option A) : keeps (expect o).
Proof. destruct o; [apply keeps_ret|apply keeps_stop]. Qed.

Lemma keeps_each {A} (l : list A) body : (forall a, keeps (body a)) -> keeps (each l body).
Proof.
  intros Hb. induction l as [|a l IH]; [apply keeps_ret|]. apply keeps_bind; [apply Hb|]. by intros [].
Qed.

Lemma keeps_each_until {A S R} (l : list A) (s : S) (body : S -> A -> M (S + R)) :
  (forall s a, keeps (body s a)) -> keeps (each_until l s body).
Proof.
  intros Hb. revert s. induction l as [|a l IH]; intros s; [apply keeps_ret|].
  apply keeps_bind; [apply Hb|]. intros [s'|x]; [apply IH|apply keeps_ret].
Qed.

Lemma keeps_mapM {A C} (g : A -> M C) l : (forall a, keeps (g a)) -> keeps (mapM g l).
Proof.
  intros Hg. induction l as [|a l IH]; [apply keeps_ret|].
  apply keeps_bind; [apply Hg|]. intros y. apply keeps_bind; [apply IH|]. intros k. apply keeps_ret.
Qed.

Lemma keeps_modify conn g :
  (forall c r, r_clients r !! conn = Some c -> view (set_clients (<[conn := g c]> (r_clients r)) r) = view r) ->
  keeps (modify_client conn g).
Proof.
  intros Hg. apply keeps_write. intros r. destruct (r_clients r !! conn) as [c|] eqn:E; [by apply Hg|done].
Qed.
End view.

(** From one view and kind to another. *)
Lemma keeps_weaken {B C} tm tm' (view : Room -> B) (view' : Room -> C) {A} (m : M A) :
  (forall e, tm e -> tm' e) -> (forall r r', view r' = view r -> view' r' = view' r) ->
  keeps_in tm view m -> keeps_in tm' view' m.
Proof.
  intros Ht Hv Hm r a r' es E. destruct (Hm r a r' es E) as [Hr He].
  split; [by apply Hv|by eapply Forall_impl].
Qed.
End frame.

Notation keeps_of view := (keeps_in (fun _ => True) view).
Notation keeps := (keeps_in no_membership view_of).
Notation keeps_store := (keeps_of store_of).
Notation keeps_only conn := (keeps_in (only_of conn) (flags_but conn)).

#[export] Hint Resolve keeps_ret keeps_stop keeps_read keeps_expect : frame.
#[export] Hint Extern 0 (keeps_in _ _ (emit _)) => apply keeps_emit; exact I : frame.
#[export] Hint Extern 0 (keeps_in _ _ (send _ _)) => apply keeps_emit; exact I : frame.
#[export] Hint Extern 0 (keeps_in _ _ (broadcast _ _)) => apply keeps_emit; exact I : frame.
#[export] Hint Extern 0 (keeps_in _ _ (journal _)) => apply keeps_emit; exact I : frame.
#[export] Hint Extern 0 (keeps_in _ _ mark_dirty) => apply keeps_emit; exact I : frame.

(** Follow the shape of a computation. *)
Ltac keep :=
  repeat first
  [ solve [eauto 1 with frame nocore]
  | apply keeps_bind; [|intros ?]
  | apply keeps_write; intros ?; repeat case_match; done
  | apply keeps_draw; done
  | apply keeps_when
  | apply keeps_on_some; intros ?
  | apply keeps_each; intros ?
  | apply keeps_each_until; intros ? ?
  | apply keeps_mapM; intros ?
  | match goal with
    | |- keeps_in _ _ (let '(_, _) := ?x in _) => destruct x
    | |- keeps_in _ _ (match ?x with _ => _ end) => destruct x
    | |- keeps_in _ _ (match ?x with _ => _ end _) => destruct x
    end
  | progress cbv zeta ].

Section handlers.
Context `{Json} `{HashOrder} `{HText : !JsonText} `{HUni : Unicode}.

Lemma store_keeps {A} (m : M A) : keeps m -> keeps_store m.
Proof. apply keeps_weaken; [done|]. by intros r r' [= Hd Hb _]; unfold store_of; rewrite Hd, Hb. Qed.

Lemma only_keeps conn {A} (m : M A) : keeps m -> keeps_only conn m.
Proof.
  apply keeps_weaken; [by intros []|]. intros r r' [= _ _ Hf]; unfold flags_but. by rewrite Hf.
Qed.
#[local] Hint Extern 2 (keeps_store _) => apply store_keeps; solve [eauto 1 with frame nocore] : frame.
#[local] Hint Extern 2 (keeps_only _ _) => apply only_keeps; solve [eauto 1 with frame nocore] : frame.

Lemma flags_insert conn c r :
  flags (set_clients (<[conn := c]> (r_clients r)) r) = <[conn := client_flags c]> (flags r).
Proof. unfold flags. cbn [r_clients set_clients]. by rewrite fmap_insert. Qed.

Lemma keeps_modify_client conn g :
  (forall c, client_flags (g c) = client_flags c) -> keeps (modify_client conn g).
Proof.
  intros Hg. apply keeps_modify. intros c r Hc. unfold view_of. f_equal.
  rewrite flags_insert, Hg. apply insert_id. unfold flags. by rewrite lookup_fmap, Hc.
Qed.
#[local] Hint Extern 1 (keeps_in _ _ (modify_client _ _)) => apply keeps_modify_client; intros ?; done : frame.

Lemma store_modify_client conn g : keeps_store (modify_client conn g).
Proof. by apply keeps_modify. Qed.
#[local] Hint Resolve store_modify_client : frame.

Lemma flags_but_insert conn c r : flags_but conn (set_clients (<[conn := c]> (r_clients r)) r) = flags_but conn r.
Proof. unfold flags_but. rewrite flags_insert. apply delete_insert_eq. Qed.

Lemma flags_but_delete conn r : flags_but conn (set_clients (delete conn (r_clients r)) r) = flags_but conn r.
Proof. unfold flags_but, flags. cbn [r_clients set_clients]. rewrite fmap_delete. apply delete_delete_eq. Qed.
#[local] Hint Extern 1 (keeps_in _ (flags_but _) (write _)) =>
  apply keeps_write; intros ?; first [apply flags_but_insert | apply flags_but_delete] : frame.
#[local] Hint Extern 0 (keeps_in (only_of _) _ (emit _)) => apply keeps_emit; exact eq_refl : frame.

Lemma only_modify_client conn g : keeps_only conn (modify_client conn g).
Proof. apply keeps_modify. intros c r _. apply flags_but_insert. Qed.
#[local] Hint Resolve only_modify_client : frame.

Lemma keeps_record_redundant key kind count : keeps (record_redundant key kind count).
Proof. unfold record_redundant. keep. Qed.
#[local] Hint Resolve keeps_record_redundant : frame.

Lemma store_on_connect_with_feed conn feed : keeps_store (on_connect_with_feed conn feed).
Proof. unfold on_connect_with_feed. keep. Qed.
#[local] Hint Resolve store_on_connect_with_feed : frame.

Lemma only_on_connect_with_feed conn feed : keeps_only conn (on_connect_with_feed conn feed).
Proof. unfold on_connect_with_feed. keep. Qed.
#[local] Hint Resolve only_on_connect_with_feed : frame.

Lemma store_on_connect conn : keeps_store (on_connect conn).
Proof. unfold on_connect. keep. Qed.
#[local] Hint Resolve store_on_connect : frame.

Lemma only_on_connect conn : keeps_only conn (on_connect conn).
Proof. unfold on_connect. keep. Qed.
#[local] Hint Resolve only_on_connect : frame.

Lemma store_on_disconnect conn reason : keeps_store (on_disconnect conn reason).
Proof. unfold on_disconnect. keep. Qed.
#[local] Hint Resolve store_on_disconnect : frame.

Lemma only_on_disconnect conn reason : keeps_only conn (on_disconnect conn reason).
Proof. unfold on_disconnect. keep. Qed.
#[local] Hint Resolve only_on_disconnect : frame.

Lemma keeps_bad_arguments conn cmd text : keeps (bad_arguments conn cmd text).
Proof. unfold bad_arguments. keep. Qed.
#[local] Hint Resolve keeps_bad_arguments : frame.

Lemma keeps_protocol_error conn text : keeps (protocol_error conn text).
Proof. unfold protocol_error. keep. Qed.
#[local] Hint Resolve keeps_protocol_error : frame.

Lemma keeps_push_filter conn : keeps (push_filter conn).
Proof. unfold push_filter. keep. Qed.
#[local] Hint Resolve keeps_push_filter : frame.

Lemma keeps_announce_join conn : keeps (announce_join conn).
Proof. unfold announce_join. keep. Qed.
#[local] Hint Resolve keeps_announce_join : frame.

Lemma store_handle_connect conn args : keeps_store (handle_connect conn args).
Proof. unfold handle_connect, connect_accepted. keep. Qed.
#[local] Hint Resolve store_handle_connect : frame.

Lemma only_handle_connect conn args : keeps_only conn (handle_connect conn args).
Proof. unfold handle_connect, connect_accepted. keep. Qed.
#[local] Hint Resolve only_handle_connect : frame.

Lemma store_announce_tags_changed conn key from to_ : keeps_store (announce_tags_changed conn key from to_).
Proof. unfold announce_tags_changed. keep. Qed.
#[local] Hint Resolve store_announce_tags_changed : frame.

Lemma only_announce_tags_changed conn key from to_ : keeps_only conn (announce_tags_changed conn key from to_).
Proof. unfold announce_tags_changed. keep. Qed.
#[local] Hint Resolve only_announce_tags_changed : frame.

Lemma keeps_resend_all_items conn : keeps (resend_all_items conn).
Proof. unfold resend_all_items. keep. Qed.
#[local] Hint Resolve keeps_resend_all_items : frame.

Lemma keeps_handle_sync conn : keeps (handle_sync conn).
Proof. unfold handle_sync. keep. Qed.
#[local] Hint Resolve keeps_handle_sync : frame.

Lemma store_handle_connect_update conn args : keeps_store (handle_connect_update conn args).
Proof. unfold handle_connect_update. keep. Qed.
#[local] Hint Resolve store_handle_connect_update : frame.

Lemma only_handle_connect_update conn args : keeps_only conn (handle_connect_update conn args).
Proof. unfold handle_connect_update. keep. Qed.
#[local] Hint Resolve only_handle_connect_update : frame.

Lemma keeps_handle_set_notify conn keys : keeps (handle_set_notify conn keys).
Proof. unfold handle_set_notify. keep. Qed.
#[local] Hint Resolve keeps_handle_set_notify : frame.

Lemma keeps_handle_bounce conn args raw : keeps (handle_bounce conn args raw).
Proof. unfold handle_bounce. keep. Qed.
#[local] Hint Resolve keeps_handle_bounce : frame.

Lemma keeps_send_item_to fuel team target item : keeps (send_item_to fuel team target item).
Proof.
  revert target. induction fuel as [|fuel IH]; intros target; [apply keeps_stop|]. cbn [send_item_to]. keep.
Qed.
#[local] Hint Resolve keeps_send_item_to : frame.

Lemma keeps_send_new_items slots : keeps (send_new_items slots).
Proof. unfold send_new_items. keep. Qed.
#[local] Hint Resolve keeps_send_new_items : frame.

Lemma keeps_on_changed_hints key : keeps (on_changed_hints key).
Proof. unfold on_changed_hints. keep. Qed.
#[local] Hint Resolve keeps_on_changed_hints : frame.

Lemma keeps_on_new_hint key : keeps (on_new_hint key).
Proof. unfold on_new_hint. keep. Qed.
#[local] Hint Resolve keeps_on_new_hint : frame.

Lemma keeps_recheck_hints finder : keeps (recheck_hints finder).
Proof. unfold recheck_hints. keep. Qed.
#[local] Hint Resolve keeps_recheck_hints : frame.

Lemma keeps_distribute key sender_scoped l dirty feed scoped : keeps (distribute key sender_scoped l dirty feed scoped).
Proof.
  revert dirty feed scoped. induction l as [|[[[? ?] ?] ?] l IH]; intros dirty feed scoped;
    cbn [distribute]; keep.
Qed.
#[local] Hint Resolve keeps_distribute : frame.

Lemma keeps_register_location_checks key locs : keeps (register_location_checks key locs).
Proof. unfold register_location_checks. keep. Qed.
#[local] Hint Resolve keeps_register_location_checks : frame.

Lemma keeps_handle_location_checks conn locs : keeps (handle_location_checks conn locs).
Proof. unfold handle_location_checks. keep. Qed.
#[local] Hint Resolve keeps_handle_location_checks : frame.

Lemma keeps_update_checked_locations key : keeps (update_checked_locations key).
Proof. unfold update_checked_locations. keep. Qed.
#[local] Hint Resolve keeps_update_checked_locations : frame.

Lemma keeps_bank_hints team persist_even_if_found index l concerns events : keeps (bank_hints team persist_even_if_found index l concerns events).
Proof.
  revert index concerns events. induction l as [|h l IH]; intros index concerns events;
    cbn [bank_hints]; keep.
Qed.
#[local] Hint Resolve keeps_bank_hints : frame.

Lemma keeps_notify_hints team hints only_new persist_even_if_found recipients : keeps (notify_hints team hints only_new persist_even_if_found recipients).
Proof. unfold notify_hints. keep. Qed.
#[local] Hint Resolve keeps_notify_hints : frame.

Lemma keeps_handle_location_scouts conn args : keeps (handle_location_scouts conn args).
Proof. unfold handle_location_scouts. keep. Qed.
#[local] Hint Resolve keeps_handle_location_scouts : frame.

Lemma keeps_handle_create_hints conn args : keeps (handle_create_hints conn args).
Proof. unfold handle_create_hints. keep. Qed.
#[local] Hint Resolve keeps_handle_create_hints : frame.

Lemma keeps_handle_update_hint conn args : keeps (handle_update_hint conn args).
Proof. unfold handle_update_hint. keep. Qed.
#[local] Hint Resolve keeps_handle_update_hint : frame.

Lemma keeps_release_player key trigger : keeps (release_player key trigger).
Proof. unfold release_player. keep. Qed.
#[local] Hint Resolve keeps_release_player : frame.

Lemma keeps_collect_body key trigger : keeps (collect_body key trigger).
Proof. unfold collect_body. keep. Qed.
#[local] Hint Resolve keeps_collect_body : frame.

Lemma keeps_collect_inner key is_group trigger : keeps (collect_inner key is_group trigger).
Proof. unfold collect_inner. keep. Qed.
#[local] Hint Resolve keeps_collect_inner : frame.

Lemma keeps_collect_player key trigger : keeps (collect_player key trigger).
Proof. unfold collect_player. keep. Qed.
#[local] Hint Resolve keeps_collect_player : frame.

Lemma keeps_on_goal_achieved key : keeps (on_goal_achieved key).
Proof. unfold on_goal_achieved. keep. Qed.
#[local] Hint Resolve keeps_on_goal_achieved : frame.

Lemma keeps_announce_team_completion team : keeps (announce_team_completion team).
Proof. unfold announce_team_completion. keep. Qed.
#[local] Hint Resolve keeps_announce_team_completion : frame.

Lemma keeps_handle_status_update conn status : keeps (handle_status_update conn status).
Proof. unfold handle_status_update. keep. Qed.
#[local] Hint Resolve keeps_handle_status_update : frame.

Lemma keeps_allow_release key allowed : keeps (allow_release key allowed).
Proof. unfold allow_release. keep. Qed.
#[local] Hint Resolve keeps_allow_release : frame.

Lemma keeps_lock_slot key locked : keeps (lock_slot key locked).
Proof. unfold lock_slot. keep. Qed.
#[local] Hint Resolve keeps_lock_slot : frame.

Lemma keeps_set_filter slot f : keeps (set_filter slot f).
Proof. unfold set_filter. keep. Qed.
#[local] Hint Resolve keeps_set_filter : frame.

Lemma keeps_replace_hints key hints : keeps (replace_hints key hints).
Proof. unfold replace_hints. keep. Qed.
#[local] Hint Resolve keeps_replace_hints : frame.

Lemma keeps_filters_from_slot key k labels : keeps (filters_from_slot key k labels).
Proof. unfold filters_from_slot. keep. Qed.
#[local] Hint Resolve keeps_filters_from_slot : frame.

Lemma keeps_countdown_message text value : keeps (countdown_message text value).
Proof. unfold countdown_message. keep. Qed.
#[local] Hint Resolve keeps_countdown_message : frame.

Lemma keeps_start_countdown seconds now : keeps (start_countdown seconds now).
Proof. unfold start_countdown. keep. Qed.
#[local] Hint Resolve keeps_start_countdown : frame.

Lemma keeps_tick_loop fuel now : keeps (tick_loop fuel now).
Proof. induction fuel as [|fuel IH]; cbn [tick_loop]; keep. Qed.
#[local] Hint Resolve keeps_tick_loop : frame.

Lemma keeps_tick now : keeps (tick now).
Proof. unfold tick. keep. Qed.
#[local] Hint Resolve keeps_tick : frame.

Lemma keeps_broadcast_result text : keeps (broadcast_result text).
Proof. unfold broadcast_result. keep. Qed.
#[local] Hint Resolve keeps_broadcast_result : frame.

Lemma store_shutdown : keeps_store shutdown.
Proof. unfold shutdown. keep. Qed.
#[local] Hint Resolve store_shutdown : frame.

Lemma keeps_handle_get conn keys raw : keeps (handle_get conn keys raw).
Proof. unfold handle_get. keep. Qed.
#[local] Hint Resolve keeps_handle_get : frame.

Lemma keeps_handle_get_datapackage conn wanted excluded :
  keeps (handle_get_datapackage conn wanted excluded).
Proof. unfold handle_get_datapackage. keep. Qed.
#[local] Hint Resolve keeps_handle_get_datapackage : frame.

Lemma keeps_notify_typed conn texts ty : keeps (notify_typed conn texts ty).
Proof. unfold notify_typed. keep. Qed.
#[local] Hint Resolve keeps_notify_typed : frame.

Lemma keeps_notify_multiple conn texts : keeps (notify_multiple conn texts).
Proof. unfold notify_multiple. keep. Qed.
#[local] Hint Resolve keeps_notify_multiple : frame.

Lemma keeps_notify_admin conn texts : keeps (notify_admin conn texts).
Proof. unfold notify_admin. keep. Qed.
#[local] Hint Resolve keeps_notify_admin : frame.

Lemma keeps_notify conn text : keeps (notify conn text).
Proof. unfold notify. keep. Qed.
#[local] Hint Resolve keeps_notify : frame.

Lemma keeps_broadcast_chat key display message : keeps (broadcast_chat key display message).
Proof. unfold broadcast_chat. keep. Qed.
#[local] Hint Resolve keeps_broadcast_chat : frame.

Lemma keeps_broadcast_server_chat text : keeps (broadcast_server_chat text).
Proof. unfold broadcast_server_chat. keep. Qed.
#[local] Hint Resolve keeps_broadcast_server_chat : frame.

Lemma keeps_with_slot conn k : (forall key, keeps (k key)) -> keeps (with_slot conn k).
Proof. intros Hk. unfold with_slot. keep. Qed.

Lemma keeps_asterisks : keeps asterisks.
Proof. unfold asterisks. keep. Qed.
#[local] Hint Resolve keeps_asterisks : frame.

Lemma keeps_cmd_help conn : keeps (cmd_help conn).
Proof. unfold cmd_help. keep. Qed.
#[local] Hint Resolve keeps_cmd_help : frame.

Lemma keeps_cmd_license conn : keeps (cmd_license conn).
Proof. unfold cmd_license. keep. Qed.
#[local] Hint Resolve keeps_cmd_license : frame.

Lemma keeps_cmd_options conn : keeps (cmd_options conn).
Proof. unfold cmd_options. keep. Qed.
#[local] Hint Resolve keeps_cmd_options : frame.

Lemma keeps_cmd_players conn : keeps (cmd_players conn).
Proof. unfold cmd_players. keep. Qed.
#[local] Hint Resolve keeps_cmd_players : frame.

Lemma keeps_cmd_status conn tag : keeps (cmd_status conn tag).
Proof. unfold cmd_status. keep. Qed.
#[local] Hint Resolve keeps_cmd_status : frame.

Lemma keeps_cmd_location_list conn text missing : keeps (cmd_location_list conn text missing).
Proof. unfold cmd_location_list. keep. Qed.
#[local] Hint Resolve keeps_cmd_location_list : frame.

Lemma keeps_cmd_release conn : keeps (cmd_release conn).
Proof. unfold cmd_release. keep. Qed.
#[local] Hint Resolve keeps_cmd_release : frame.

Lemma keeps_cmd_collect conn : keeps (cmd_collect conn).
Proof. unfold cmd_collect. keep. Qed.
#[local] Hint Resolve keeps_cmd_collect : frame.

Lemma keeps_cmd_countdown conn seconds : keeps (cmd_countdown conn seconds).
Proof. unfold cmd_countdown. keep. Qed.
#[local] Hint Resolve keeps_cmd_countdown : frame.

Lemma keeps_report_remaining conn key : keeps (report_remaining conn key).
Proof. unfold report_remaining. keep. Qed.
#[local] Hint Resolve keeps_report_remaining : frame.

Lemma keeps_cmd_remaining conn : keeps (cmd_remaining conn).
Proof. unfold cmd_remaining. keep. Qed.
#[local] Hint Resolve keeps_cmd_remaining : frame.

Lemma keeps_cmd_alias conn name : keeps (cmd_alias conn name).
Proof. unfold cmd_alias. keep. Qed.
#[local] Hint Resolve keeps_cmd_alias : frame.

Lemma keeps_push_option_update push name : keeps (push_option_update push name).
Proof. unfold push_option_update. keep. Qed.
#[local] Hint Resolve keeps_push_option_update : frame.

Lemma keeps_apply_option name value : keeps (apply_option name value).
Proof. unfold apply_option. keep. Qed.
#[local] Hint Resolve keeps_apply_option : frame.

Lemma keeps_admin_out conn text : keeps (admin_out conn text).
Proof. unfold admin_out. keep. Qed.
#[local] Hint Resolve keeps_admin_out : frame.

Lemma keeps_server_cmd_help conn : keeps (server_cmd_help conn).
Proof. unfold server_cmd_help. keep. Qed.
#[local] Hint Resolve keeps_server_cmd_help : frame.

Lemma keeps_server_cmd_options conn : keeps (server_cmd_options conn).
Proof. unfold server_cmd_options. keep. Qed.
#[local] Hint Resolve keeps_server_cmd_options : frame.

Lemma keeps_server_cmd_option conn args : keeps (server_cmd_option conn args).
Proof. unfold server_cmd_option. keep. Qed.
#[local] Hint Resolve keeps_server_cmd_option : frame.

Lemma keeps_server_command conn raw : keeps (server_command conn raw).
Proof. unfold server_command. keep. Qed.
#[local] Hint Resolve keeps_server_command : frame.

Lemma keeps_queue_copies key item count : keeps (queue_copies key item count).
Proof. unfold queue_copies. keep. Qed.
#[local] Hint Resolve keeps_queue_copies : frame.

Lemma keeps_grant_items key wanted count announce : keeps (grant_items key wanted count announce).
Proof. unfold grant_items. keep. Qed.
#[local] Hint Resolve keeps_grant_items : frame.

Lemma keeps_grant_item key wanted : keeps (grant_item key wanted).
Proof. unfold grant_item. keep. Qed.
#[local] Hint Resolve keeps_grant_item : frame.

Lemma keeps_cmd_getitem conn wanted : keeps (cmd_getitem conn wanted).
Proof. unfold cmd_getitem. keep. Qed.
#[local] Hint Resolve keeps_cmd_getitem : frame.

Lemma keeps_mask_admin command : keeps (mask_admin command).
Proof. unfold mask_admin. keep. Qed.
#[local] Hint Resolve keeps_mask_admin : frame.

Lemma keeps_admin_login conn supplied password : keeps (admin_login conn supplied password).
Proof. unfold admin_login. keep. Qed.
#[local] Hint Resolve keeps_admin_login : frame.

Lemma keeps_cmd_admin conn command : keeps (cmd_admin conn command).
Proof. unfold cmd_admin. keep. Qed.
#[local] Hint Resolve keeps_cmd_admin : frame.

Lemma keeps_notify_caller conn text : keeps (notify_caller conn text).
Proof. unfold notify_caller. keep. Qed.
#[local] Hint Resolve keeps_notify_caller : frame.

Lemma keeps_choose_hints unfound limit : keeps (choose_hints unfound limit).
Proof. unfold choose_hints. keep. Qed.
#[local] Hint Resolve keeps_choose_hints : frame.

Lemma keeps_pay_for_hints conn key candidates points cost : keeps (pay_for_hints conn key candidates points cost).
Proof. unfold pay_for_hints. keep. Qed.
#[local] Hint Resolve keeps_pay_for_hints : frame.

Lemma keeps_cmd_hint conn input for_location : keeps (cmd_hint conn input for_location).
Proof. unfold cmd_hint. keep. Qed.
#[local] Hint Resolve keeps_cmd_hint : frame.

Lemma keeps_unknown_command conn name : keeps (unknown_command conn name).
Proof. unfold unknown_command. keep. Qed.
#[local] Hint Resolve keeps_unknown_command : frame.

Lemma keeps_run_word_command conn name args : keeps (run_word_command conn name args).
Proof. unfold run_word_command. keep. Qed.
#[local] Hint Resolve keeps_run_word_command : frame.

Lemma keeps_run_raw_command conn name argument : keeps (run_raw_command conn name argument).
Proof. unfold run_raw_command. keep. Qed.
#[local] Hint Resolve keeps_run_raw_command : frame.

Lemma keeps_run_command conn raw : keeps (run_command conn raw).
Proof. unfold run_command. keep. Qed.
#[local] Hint Resolve keeps_run_command : frame.

Lemma keeps_process_message conn raw : keeps (process_message conn raw).
Proof. unfold process_message. keep. Qed.
#[local] Hint Resolve keeps_process_message : frame.

Lemma keeps_handle_say conn text : keeps (handle_say conn text).
Proof. unfold handle_say. keep. Qed.
#[local] Hint Resolve keeps_handle_say : frame.

Lemma keeps_room_set_status key st : keeps (room_set_status key st).
Proof. unfold room_set_status. keep. Qed.
#[local] Hint Resolve keeps_room_set_status : frame.

Lemma keeps_with_key slot k : (forall key, keeps (k key)) -> keeps (with_key slot k).
Proof. intros Hk. unfold with_key. keep. Qed.

Lemma keeps_admin_say text : keeps (admin_say text).
Proof. unfold admin_say, with_key, alias_of. keep. Qed.
#[local] Hint Resolve keeps_admin_say : frame.

Lemma keeps_admin_countdown seconds : keeps (admin_countdown seconds).
Proof. unfold admin_countdown, with_key, alias_of. keep. Qed.
#[local] Hint Resolve keeps_admin_countdown : frame.

Lemma keeps_admin_release slot : keeps (admin_release slot).
Proof. unfold admin_release, with_key, alias_of. keep. Qed.
#[local] Hint Resolve keeps_admin_release : frame.

Lemma keeps_admin_collect slot : keeps (admin_collect slot).
Proof. unfold admin_collect, with_key, alias_of. keep. Qed.
#[local] Hint Resolve keeps_admin_collect : frame.

Lemma keeps_admin_send_item slot item amount : keeps (admin_send_item slot item amount).
Proof. unfold admin_send_item, with_key, alias_of. keep. Qed.
#[local] Hint Resolve keeps_admin_send_item : frame.

Lemma keeps_admin_hint slot name for_location force : keeps (admin_hint slot name for_location force).
Proof. unfold admin_hint, with_key, alias_of. keep. Qed.
#[local] Hint Resolve keeps_admin_hint : frame.

Lemma keeps_admin_send_location slot location : keeps (admin_send_location slot location).
Proof. unfold admin_send_location, with_key, alias_of. keep. Qed.
#[local] Hint Resolve keeps_admin_send_location : frame.

Lemma keeps_admin_set_status slot st : keeps (admin_set_status slot st).
Proof. unfold admin_set_status, with_key, alias_of. keep. Qed.
#[local] Hint Resolve keeps_admin_set_status : frame.

Lemma keeps_admin_allow_release slot allowed : keeps (admin_allow_release slot allowed).
Proof. unfold admin_allow_release, with_key, alias_of. keep. Qed.
#[local] Hint Resolve keeps_admin_allow_release : frame.

Lemma keeps_admin_lock slot locked : keeps (admin_lock slot locked).
Proof. unfold admin_lock, with_key, alias_of. keep. Qed.
#[local] Hint Resolve keeps_admin_lock : frame.

Lemma keeps_admin_alias slot alias : keeps (admin_alias slot alias).
Proof. unfold admin_alias, with_key, alias_of. keep. Qed.
#[local] Hint Resolve keeps_admin_alias : frame.

Lemma keeps_admin_option name value : keeps (admin_option name value).
Proof. unfold admin_option, with_key, alias_of. keep. Qed.
#[local] Hint Resolve keeps_admin_option : frame.

Lemma keeps_admin_kick slot reason : keeps (admin_kick slot reason).
Proof. unfold admin_kick, with_key, alias_of. keep. Qed.
#[local] Hint Resolve keeps_admin_kick : frame.

Lemma keeps_admin c : keeps (admin c).
Proof. unfold admin. keep; destruct c; cbn [admin_dispatch]; keep. Qed.

(** A write of the data store: one key that is not a view, and the byte count
    moved by the difference of its entries. *)
Definition stored_entry (r : Room) (key : string) : Z :=
  match r_stored_data r !! key with Some old => entry_bytes key old | None => 0 end.

Definition writes (r r' : Room) (key : string) (value : Value) : Prop :=
  starts_with READ_PREFIX key = false /\
  store_of r' = (<[key := value]> (r_stored_data r),
                 Z.max 0 (wrap64 (r_stored_data_bytes r + entry_bytes key value) - stored_entry r key)).

(** What a computation may do to the store: nothing, or one such write. *)
Definition stores {A} (m : M A) : Prop :=
  forall r a r' es, m r = Ok (a, r', es) -> store_of r' = store_of r \/ exists key value, writes r r' key value.

Lemma stores_keeps {A} (m : M A) : keeps_store m -> stores m.
Proof. intros Hm r a r' es E. left. by apply (Hm _ _ _ _ E). Qed.

Lemma stores_after {A C} (m : M A) (k : A -> M C) :
  keeps_store m -> (forall a, stores (k a)) -> stores (m ≫= k).
Proof.
  intros Hm Hk r c r' es. unfold mbind, M_bind.
  destruct (m r) as [[[a r1] e1]|] eqn:E1; [|done].
  destruct (k a r1) as [[[c' r2] e2]|] eqn:E2; [|done]. intros [= -> -> _].
  pose proof (Hm _ _ _ _ E1) as [Hs _]. unfold store_of in Hs. injection Hs as Hd Hb.
  destruct (Hk _ _ _ _ _ E2) as [Hr|(key & value & Hp & Hw)].
  - left. unfold store_of in *. by rewrite Hr, Hd, Hb.
  - right. exists key, value. split; [done|]. rewrite Hw. unfold stored_entry. by rewrite Hd, Hb.
Qed.

(** What [store_value] does: the room with the entry written, and the effects. *)
Definition write_entry (key : string) (value : Value) (r : Room) : Room :=
  set_stored_data (<[key := value]> (r_stored_data r))
    (set_stored_data_bytes
       (Z.max 0 (wrap64 (r_stored_data_bytes r + entry_bytes key value) - stored_entry r key)) r).

Definition set_reply (r : Room) (conn : ConnId) (raw : JMap) (original value : Value) : ServerPacket :=
  echo raw "SetReply"
    [("original_value"%string, original); ("value"%string, value);
     ("slot"%string, v_int (conn_slot r conn))].

Definition set_effects (r : Room) (conn : ConnId) (key : string) (want_reply : bool) (raw : JMap)
    (original value : Value) : list Effect :=
  EDirty :: match set_targets r conn key want_reply with
            | [] => []
            | targets => [EBroadcast (RThese targets) [set_reply r conn raw original value]]
            end.

Lemma store_value_run conn key want raw original value r :
  store_value conn key want raw original value r =
  Ok (tt, write_entry key value r, set_effects r conn key want raw original value).
Proof.
  unfold set_effects.
  change (set_targets r conn key want) with (set_targets (write_entry key value r) conn key want).
  cbv [store_value mbind M_bind write emit mark_dirty read id].
  change (set_stored_data _ (set_stored_data_bytes _ r)) with (write_entry key value r).
  destruct (set_targets (write_entry key value r) conn key want); reflexivity.
Qed.

Lemma stores_handle_set conn args raw : stores (handle_set conn args raw).
Proof.
  unfold handle_set. destruct (st_key args) as [| |key].
  - apply stores_keeps. unfold bad_arguments. keep.
  - apply stores_keeps. destruct (as_ok _); keep.
  - destruct (as_ok (st_operations args)) as [entries|]; [|apply stores_keeps; keep].
    destruct (starts_with READ_PREFIX key) eqn:Hp; [apply stores_keeps; keep|].
    destruct (mapM parse_operation entries) as [ops|]; [|apply stores_keeps; keep].
    apply stores_after; [apply keeps_read|]. intros r0. cbv zeta.
    destruct (apply_all _ _) as [v|[i e]]; [|apply stores_keeps; keep].
    intros r a r' es. rewrite store_value_run. intros [= _ <- _]. right. by exists key, v.
Qed.

Lemma stores_handle conn p : stores (handle conn p).
Proof.
  unfold handle. apply stores_after; [apply keeps_read|]. intros r. cbv zeta.
  match goal with |- context [if ?b then _ else _] => destruct b end; [apply stores_keeps; keep|].
  apply stores_after.
  { destruct (r_clients r !! conn) as [c|]; [|keep]. destruct (from_slot_kind p) as [[k l]|]; [|keep].
    destruct (c_auth c); keep. }
  intros []; [apply stores_keeps; keep|]. destruct p; cbn [dispatch];
    try (apply stores_keeps; solve [keep]). apply stores_handle_set.
Qed.

Lemma only_handle_set conn args raw : keeps_only conn (handle_set conn args raw).
Proof. unfold handle_set, store_value, bad_arguments. keep. Qed.
#[local] Hint Resolve only_handle_set : frame.

(** A packet changes what the transport knows of its own connection only. *)
Lemma only_handle conn p : keeps_only conn (handle conn p).
Proof. unfold handle. keep. destruct p; cbn [dispatch]; keep. Qed.
End handlers.

#[export] Hint Resolve store_modify_client only_modify_client keeps_record_redundant
  store_on_connect_with_feed only_on_connect_with_feed store_on_connect only_on_connect
  store_on_disconnect only_on_disconnect keeps_bad_arguments keeps_protocol_error
  keeps_push_filter keeps_announce_join store_handle_connect only_handle_connect
  store_announce_tags_changed only_announce_tags_changed keeps_resend_all_items
  keeps_handle_sync store_handle_connect_update only_handle_connect_update
  keeps_handle_set_notify keeps_handle_bounce keeps_send_item_to keeps_send_new_items
  keeps_on_changed_hints keeps_on_new_hint keeps_recheck_hints keeps_distribute
  keeps_register_location_checks keeps_handle_location_checks keeps_update_checked_locations
  keeps_bank_hints keeps_notify_hints keeps_handle_location_scouts keeps_handle_create_hints
  keeps_handle_update_hint keeps_release_player keeps_collect_body keeps_collect_inner
  keeps_collect_player keeps_on_goal_achieved keeps_announce_team_completion
  keeps_handle_status_update keeps_allow_release keeps_lock_slot keeps_set_filter
  keeps_replace_hints keeps_filters_from_slot keeps_countdown_message keeps_start_countdown
  keeps_tick_loop keeps_tick keeps_broadcast_result store_shutdown keeps_handle_get
  keeps_handle_get_datapackage keeps_notify_typed keeps_notify_multiple keeps_notify_admin
  keeps_notify keeps_broadcast_chat keeps_broadcast_server_chat keeps_asterisks keeps_cmd_help
  keeps_cmd_license keeps_cmd_options keeps_cmd_players keeps_cmd_status keeps_cmd_location_list
  keeps_cmd_release keeps_cmd_collect keeps_cmd_countdown keeps_report_remaining
  keeps_cmd_remaining keeps_cmd_alias keeps_push_option_update keeps_apply_option
  keeps_admin_out keeps_server_cmd_help keeps_server_cmd_options keeps_server_cmd_option
  keeps_server_command keeps_queue_copies keeps_grant_items keeps_grant_item keeps_cmd_getitem
  keeps_mask_admin keeps_admin_login keeps_cmd_admin keeps_notify_caller keeps_choose_hints
  keeps_pay_for_hints keeps_cmd_hint keeps_unknown_command keeps_run_word_command
  keeps_run_raw_command keeps_run_command keeps_process_message keeps_handle_say
  keeps_room_set_status keeps_admin_say keeps_admin_countdown keeps_admin_release
  keeps_admin_collect keeps_admin_send_item keeps_admin_hint keeps_admin_send_location
  keeps_admin_set_status keeps_admin_allow_release keeps_admin_lock keeps_admin_alias
  keeps_admin_option keeps_admin_kick only_handle_set keeps_admin : frame.
#[export] Hint Extern 2 (keeps_store _) => apply store_keeps; solve [eauto 1 with frame nocore] : frame.
#[export] Hint Extern 2 (keeps_only _ _) => apply only_keeps; solve [eauto 1 with frame nocore] : frame.
#[export] Hint Extern 1 (keeps_in _ _ (modify_client _ _)) => apply keeps_modify_client; intros ?; done : frame.
#[export] Hint Extern 1 (keeps_in _ (flags_but _) (write _)) =>
  apply keeps_write; intros ?; first [apply flags_but_insert | apply flags_but_delete] : frame.
#[export] Hint Extern 0 (keeps_in (only_of _) _ (emit _)) => apply keeps_emit; exact eq_refl : frame.
