(* ===== verification/RoomDirty.v ===== *)
(** * What a save carries is marked

    A handler that changes what a save carries tells the transport so: its
    effects hold [EDirty], or the room is, for a save, the one it was. *)

From Stdlib Require Import ZArith Lia Bool SpecFloat.
From stdpp Require Import base tactics list sets gmap strings sorting.
From S2P Require Import Prelude PyRandom PyObj Locations Types Multidata Conn Hints Json PyValue Packets Filter.
From S2P Require Import Options DataStore Effects Room RoomSpec RoomOps RoomStore RoomPlay.
From S2P Require Import Text Fuzzy Commands ServerCommands Say Admin RoomFrame.

Create HintDb saved discriminated.

Section dirty.
Context `{Json} `{HashOrder} `{HText : !JsonText} `{HUni : Unicode}.

(** ** What a save carries *)

(** The options without the secrets, which no save holds. *)
Definition public (o : RoomOptions) : RoomOptions :=
  mkRoomOptions None None None (hint_cost o) (location_check_points o) (release_mode o) (collect_mode o)
    (remaining_mode o) (countdown_mode o) (item_cheat o) (compatibility o) (tags o).

(** For a save the room is the same: an entry that holds nothing is no
    difference, nor is a status short of the goal (a slot that reconnects has it
    set again), nor are the timers and the generator. *)
Record same_save (r r' : Room) : Prop := mkSameSave {
  ss_data : r_data r' = r_data r;
  ss_options : public (r_options r') = public (r_options r);
  ss_checks : forall key, checks_of r' key = checks_of r key;
  ss_queues : forall key, queue_of r' key = queue_of r key;
  ss_hints : r_hints r' = r_hints r;
  ss_hints_used : r_hints_used r' = r_hints_used r;
  ss_aliases : r_name_aliases r' = r_name_aliases r;
  ss_goals : forall key, client_state r' key = ClientStatus.Goal <-> client_state r key = ClientStatus.Goal;
  ss_collected : r_group_collected r' = r_group_collected r;
  ss_releases : r_allow_releases r' = r_allow_releases r;
  ss_stored : r_stored_data r' = r_stored_data r;
  ss_locked : r_locked_slots r' = r_locked_slots r;
  ss_filters : r_filters r' = r_filters r
}.

#[global] Instance same_save_equivalence : Equivalence same_save.
Proof.
  split.
  - intros r. by split.
  - intros r r' []. split; intros; congruence || (symmetry; auto).
  - intros r1 r2 r3 [] []. split; intros; try congruence; etrans; eauto.
Qed.

(** ** Computations that say so *)

Definition saves {A} (m : M A) : Prop :=
  forall r a r' es, m r = Ok (a, r', es) -> EDirty ∈ es \/ same_save r r'.

Definition marks {A} (m : M A) : Prop := forall r a r' es, m r = Ok (a, r', es) -> EDirty ∈ es.

Lemma saves_marks {A} (m : M A) : marks m -> saves m.
Proof. intros Hm r a r' es E. left. by eapply Hm. Qed.

Lemma saves_ret {A} (a : A) : saves (mret a).
Proof. intros r ? ? ? [= _ <- _]. by right. Qed.

Lemma saves_stop {A} s : saves (stop s : M A).
Proof. by intros r ? ? ?. Qed.

Lemma saves_bind_good {A C} (good : A -> Prop) `{forall a, Decision (good a)} (m : M A) (k : A -> M C) :
  (forall r a r' es, m r = Ok (a, r', es) -> good a -> EDirty ∈ es \/ same_save r r') ->
  (forall a, good a -> saves (k a)) -> (forall a, ~ good a -> marks (k a)) -> saves (m ≫= k).
Proof.
  intros Hm Hk Hb r c r' es. unfold mbind, M_bind.
  destruct (m r) as [[[a r1] e1]|] eqn:E1; [|done].
  destruct (k a r1) as [[[c' r2] e2]|] eqn:E2; [|done]. intros [= -> -> <-].
  setoid_rewrite elem_of_app. destruct (decide (good a)) as [Hg|Hg]; [|left; right; by eapply Hb].
  destruct (Hm _ _ _ _ E1 Hg) as [Hd|Hs]; [by left; left|].
  destruct (Hk _ Hg _ _ _ _ E2) as [Hd|Hs']; [by left; right|]. right. by etrans.
Qed.

Lemma saves_bind {A C} (m : M A) (k : A -> M C) :
  saves m -> (forall a, saves (k a)) -> saves (m ≫= k).
Proof. intros Hm Hk. apply (saves_bind_good (fun _ => True)); [|done|done]. intros r a r' es E _. by eapply Hm. Qed.

Lemma marks_bind_l {A C} (m : M A) (k : A -> M C) : marks m -> marks (m ≫= k).
Proof.
  intros Hm r c r' es. unfold mbind, M_bind. destruct (m r) as [[[a r1] e1]|] eqn:E1; [|done].
  destruct (k a r1) as [[[c' r2] e2]|]; [|done]. intros [= _ _ <-]. apply elem_of_app. left. by eapply Hm.
Qed.

Lemma marks_bind_r {A C} (m : M A) (k : A -> M C) : (forall a, marks (k a)) -> marks (m ≫= k).
Proof.
  intros Hk r c r' es. unfold mbind, M_bind. destruct (m r) as [[[a r1] e1]|]; [|done].
  destruct (k a r1) as [[[c' r2] e2]|] eqn:E2; [|done]. intros [= _ _ <-]. apply elem_of_app. right. by eapply Hk.
Qed.

Lemma marks_dirty : marks mark_dirty.
Proof. intros r a r' es [= _ _ <-]. by left. Qed.

Lemma saves_read {A} (g : Room -> A) : saves (read g).
Proof. intros r ? ? ? [= _ <- _]. by right. Qed.

Lemma saves_write g : (forall r, same_save r (g r)) -> saves (write g).
Proof. intros Hg r ? ? ? [= _ <- _]. right. apply Hg. Qed.

Lemma saves_emit e : saves (emit e).
Proof. intros r ? ? ? [= _ <- _]. by right. Qed.

Lemma saves_draw {A} (g : PyRandom -> option (A * PyRandom)) : saves (draw g).
Proof.
  intros r ? ? ?. unfold draw. destruct (g (r_rng r)) as [[x rng]|]; [|done]. intros [= _ <- _]. by right.
Qed.

Lemma saves_when b m : saves m -> saves (when b m).
Proof. intros Hm. destruct b; [exact Hm|apply saves_ret]. Qed.

Lemma saves_on_some {A} (o : option A) k : (forall a, saves (k a)) -> saves (on_some o k).
Proof. intros Hk. destruct o; [apply Hk|apply saves_ret]. Qed.

Lemma saves_expect {A} (o : option A) : saves (expect o).
Proof. destruct o; [apply saves_ret|apply saves_stop]. Qed.

Lemma saves_each {A} (l : list A) body : (forall a, saves (body a)) -> saves (each l body).
Proof.
  intros Hb. induction l as [|a l IH]; [apply saves_ret|]. apply saves_bind; [apply Hb|]. by intros [].
Qed.

Lemma saves_each_until {A S R} (l : list A) (s : S) (body : S -> A -> M (S + R)) :
  (forall s a, saves (body s a)) -> saves (each_until l s body).
Proof.
  intros Hb. revert s. induction l as [|a l IH]; intros s; [apply saves_ret|].
  apply saves_bind; [apply Hb|]. intros [s'|x]; [apply IH|apply saves_ret].
Qed.

Lemma saves_mapM {A C} (g : A -> M C) l : (forall a, saves (g a)) -> saves (mapM g l).
Proof.
  intros Hg. induction l as [|a l IH]; [apply saves_ret|].
  apply saves_bind; [apply Hg|]. intros y. apply saves_bind; [apply IH|]. intros k. apply saves_ret.
Qed.

(** What leaves alone the parts a save carries. *)
Lemma saves_modify_client conn g : saves (modify_client conn g).
Proof. apply saves_write. intros r. by destruct (r_clients r !! conn). Qed.
End dirty.

#[export] Hint Resolve saves_ret saves_stop saves_read saves_emit saves_expect saves_draw saves_modify_client : saved.
#[export] Hint Resolve marks_dirty : saved.

(** A computation that marks on every path. *)
Ltac mark :=
  repeat first
  [ solve [eauto 1 with saved nocore]
  | apply marks_bind_l; solve [mark]
  | apply marks_bind_r; intros ?
  | match goal with
    | |- marks (let '(_, _) := ?x in _) => destruct x
    | |- marks (match ?x with _ => _ end) => destruct x
    end
  | progress cbv zeta ].

(** Follow the shape of a computation. *)
Ltac save :=
  repeat first
  [ solve [eauto 1 with saved nocore]
  | apply saves_marks; solve [mark]
  | apply saves_bind; [|intros ?]
  | apply saves_write; intros ?; repeat case_match; split; intros; reflexivity
  | apply saves_when
  | apply saves_on_some; intros ?
  | apply saves_each; intros ?
  | apply saves_each_until; intros ? ?
  | apply saves_mapM; intros ?
  | match goal with
    | |- saves (let '(_, _) := ?x in _) => destruct x
    | |- saves (match ?x with _ => _ end) => destruct x
    | |- saves (match ?x with _ => _ end _) => destruct x
    end
  | progress cbv zeta ].

Section handlers.
Context `{Json} `{HashOrder} `{HText : !JsonText} `{HUni : Unicode}.

Lemma saves_record_redundant key kind count : saves (record_redundant key kind count).
Proof. unfold record_redundant. save. Qed.
#[local] Hint Resolve saves_record_redundant : saved.

Lemma saves_on_connect_with_feed conn feed : saves (on_connect_with_feed conn feed).
Proof. unfold on_connect_with_feed. save. Qed.
#[local] Hint Resolve saves_on_connect_with_feed : saved.

Lemma saves_on_connect conn : saves (on_connect conn).
Proof. unfold on_connect. save. Qed.
#[local] Hint Resolve saves_on_connect : saved.

(** A status short of the goal: the goal stays, and nothing else becomes one. *)
Lemma same_status (f : option ClientStatus.t -> ClientStatus.t) key r :
  (f (r_client_game_state r !! key) = ClientStatus.Goal <-> client_state r key = ClientStatus.Goal) ->
  same_save r (set_client_game_state (<[key := f (r_client_game_state r !! key)]> (r_client_game_state r)) r).
Proof.
  intros Hf. split; try done. intros key'. unfold client_state in *. cbn.
  destruct (decide (key' = key)) as [-> |]; [by rewrite lookup_insert_eq|by rewrite lookup_insert_ne].
Qed.

Lemma saves_on_disconnect conn reason : saves (on_disconnect conn reason).
Proof.
  unfold on_disconnect. save. apply saves_write. intros r. case_match; [|done].
  apply (same_status (fun o => match o with Some ClientStatus.Goal => ClientStatus.Goal | _ => ClientStatus.Unknown end)).
  unfold client_state. by destruct (r_client_game_state _ !! _) as [[]|].
Qed.
#[local] Hint Resolve saves_on_disconnect : saved.
#[local] Hint Resolve saves_on_disconnect : saved.

Lemma saves_bad_arguments conn cmd text : saves (bad_arguments conn cmd text).
Proof. unfold bad_arguments. save. Qed.
#[local] Hint Resolve saves_bad_arguments : saved.

Lemma saves_protocol_error conn text : saves (protocol_error conn text).
Proof. unfold protocol_error. save. Qed.
#[local] Hint Resolve saves_protocol_error : saved.

Lemma saves_push_filter conn : saves (push_filter conn).
Proof. unfold push_filter. save. Qed.
#[local] Hint Resolve saves_push_filter : saved.

Lemma saves_announce_join conn : saves (announce_join conn).
Proof. unfold announce_join. save. Qed.
#[local] Hint Resolve saves_announce_join : saved.

Lemma saves_connect_accepted conn args team slot h : saves (connect_accepted conn args team slot h).
Proof.
  unfold connect_accepted. save. apply saves_write. intros r.
  destruct (r_client_game_state r !! _) eqn:E; [done|].
  apply (same_status (fun _ => ClientStatus.Connected)).
  enough (client_state r (team, slot) = ClientStatus.Unknown) as -> by done.
  exact (f_equal (default ClientStatus.Unknown) E).
Qed.
#[local] Hint Resolve saves_connect_accepted : saved.

Lemma saves_handle_connect conn args : saves (handle_connect conn args).
Proof. unfold handle_connect. save. Qed.
#[local] Hint Resolve saves_handle_connect : saved.
#[local] Hint Resolve saves_handle_connect : saved.

Lemma saves_announce_tags_changed conn key from to_ : saves (announce_tags_changed conn key from to_).
Proof. unfold announce_tags_changed. save. Qed.
#[local] Hint Resolve saves_announce_tags_changed : saved.

Lemma saves_resend_all_items conn : saves (resend_all_items conn).
Proof. unfold resend_all_items. save. Qed.
#[local] Hint Resolve saves_resend_all_items : saved.

Lemma saves_handle_sync conn : saves (handle_sync conn).
Proof. unfold handle_sync. save. Qed.
#[local] Hint Resolve saves_handle_sync : saved.

Lemma saves_handle_connect_update conn args : saves (handle_connect_update conn args).
Proof. unfold handle_connect_update. save. Qed.
#[local] Hint Resolve saves_handle_connect_update : saved.

Lemma saves_handle_set_notify conn keys : saves (handle_set_notify conn keys).
Proof. unfold handle_set_notify. save. Qed.
#[local] Hint Resolve saves_handle_set_notify : saved.

Lemma saves_handle_bounce conn args raw : saves (handle_bounce conn args raw).
Proof. unfold handle_bounce. save. Qed.
#[local] Hint Resolve saves_handle_bounce : saved.

Lemma saves_send_new_items slots : saves (send_new_items slots).
Proof. unfold send_new_items. save. Qed.
#[local] Hint Resolve saves_send_new_items : saved.

Lemma saves_on_changed_hints key : saves (on_changed_hints key).
Proof. unfold on_changed_hints. save. Qed.
#[local] Hint Resolve saves_on_changed_hints : saved.

Lemma saves_on_new_hint key : saves (on_new_hint key).
Proof. unfold on_new_hint. save. Qed.
#[local] Hint Resolve saves_on_new_hint : saved.

Lemma saves_register_location_checks key locs : saves (register_location_checks key locs).
Proof.
  unfold register_location_checks. save. apply saves_write. intros r. split; try done. intros key'. unfold checks_of. cbn.
  match goal with |- context [<[?k := _]> _] => destruct (decide (key' = k)) as [-> |] end;
    [by rewrite lookup_insert_eq|by rewrite lookup_insert_ne].
Qed.
#[local] Hint Resolve saves_register_location_checks : saved.
#[local] Hint Resolve saves_register_location_checks : saved.

Lemma saves_handle_location_checks conn locs : saves (handle_location_checks conn locs).
Proof. unfold handle_location_checks. save. Qed.
#[local] Hint Resolve saves_handle_location_checks : saved.

Lemma saves_update_checked_locations key : saves (update_checked_locations key).
Proof. unfold update_checked_locations. save. Qed.
#[local] Hint Resolve saves_update_checked_locations : saved.

(** No one to tell means that no hint was banked. *)
Lemma bank_hint_events r team h events s events' :
  bank_hint r team h events = (s, events') -> events ⊆ events' /\ (events' ≠ ∅ \/ s = r_hints r).
Proof.
  unfold bank_hint. destruct (hints_contains _ _ _); [intros [= <- <-]; auto|]. intros Hb.
  assert (Hg : forall l (acc : HintStore * gset Z), acc.2 ⊆
    (fold_left (fun se player => ((upsert se.1 (team, player) h).1, se.2 ∪ {[player]})) l acc).2).
  { intros l. induction l as [|p l IH]; intros acc; [done|]. cbn. etrans; [apply union_subseteq_l|apply (IH (_, _))]. }
  specialize (Hg (slot_set r (receiving_player h))
    ((upsert (r_hints r) (team, finding_player h) h).1, events ∪ {[finding_player h]})).
  rewrite Hb in Hg. cbn in Hg. split; [set_solver|]. left. intros ->. set_solver.
Qed.

Lemma bank_hints_events team persist index l concerns events r a r' es :
  bank_hints team persist index l concerns events r = Ok (a, r', es) ->
  events ⊆ a.2 /\ (a.2 ≠ ∅ \/ same_save r r').
Proof.
  revert index concerns events r a r' es. induction l as [|h l IH]; intros index concerns events r a r' es E.
  { injection E as <- <- _. split; [done|by right]. }
  cbn [bank_hints] in E. cbv [mbind M_bind read] in E. cbn [id] in E.
  destruct (negb (found h) || persist).
  - destruct (bank_hint r team h events) as [s events1] eqn:Hb. cbv [write] in E.
    destruct (bank_hints team persist (S index) l _ events1 (set_hints s r)) as [[[a1 r1] e1]|] eqn:E1; [|done].
    injection E as <- <- _. apply bank_hint_events in Hb as [Hsub Hb]. apply IH in E1 as [Hsub1 Hs].
    split; [clear -Hsub Hsub1; set_solver|].
    destruct Hb as [Hb| ->]; [left; clear -Hb Hsub1; set_solver|]. destruct Hs as [Hs|Hs]; [by left|right].
    etrans; [|exact Hs]. by split.
  - destruct (bank_hints team persist (S index) l _ events r) as [[[a1 r1] e1]|] eqn:E1; [|done].
    injection E as <- <- _. by apply IH in E1.
Qed.

Lemma saves_notify_hints team hints only_new persist_even_if_found recipients :
  saves (notify_hints team hints only_new persist_even_if_found recipients).
Proof.
  unfold notify_hints. apply saves_bind; [apply saves_read|]. intros r. cbv zeta.
  destruct (if only_new then _ else _) as [|h l]; [apply saves_ret|].
  apply (saves_bind_good (fun x => x.2 = ∅)).
  - intros r0 a r' es E He. apply bank_hints_events in E as [_ [Hn|Hs]]; [done|by right].
  - intros [concerns events] He. cbn in He. subst events. rewrite elements_empty. cbn. save.
  - intros [concerns events] He. apply marks_bind_l. cbn in He.
    destruct (merge_sort Z.le (elements events)) as [|x xs] eqn:Es; [|apply marks_dirty].
    exfalso. apply He, leibniz_equiv, elements_empty_inv.
    pose proof (merge_sort_Permutation Z.le (elements events)) as Hp. rewrite Es in Hp.
    by apply Permutation_nil in Hp.
Qed.
#[local] Hint Resolve saves_notify_hints : saved.
#[local] Hint Resolve saves_notify_hints : saved.

Lemma saves_handle_location_scouts conn args : saves (handle_location_scouts conn args).
Proof. unfold handle_location_scouts. save. Qed.
#[local] Hint Resolve saves_handle_location_scouts : saved.

Lemma saves_handle_create_hints conn args : saves (handle_create_hints conn args).
Proof. unfold handle_create_hints. save. Qed.
#[local] Hint Resolve saves_handle_create_hints : saved.

Lemma saves_handle_update_hint conn args : saves (handle_update_hint conn args).
Proof. unfold handle_update_hint. save. Qed.
#[local] Hint Resolve saves_handle_update_hint : saved.

Lemma saves_release_player key trigger : saves (release_player key trigger).
Proof. unfold release_player. save. Qed.
#[local] Hint Resolve saves_release_player : saved.

Lemma saves_collect_body key trigger : saves (collect_body key trigger).
Proof. unfold collect_body. save. Qed.
#[local] Hint Resolve saves_collect_body : saved.

Lemma saves_announce_team_completion team : saves (announce_team_completion team).
Proof. unfold announce_team_completion. save. Qed.
#[local] Hint Resolve saves_announce_team_completion : saved.

Lemma saves_handle_status_update conn status : saves (handle_status_update conn status).
Proof. unfold handle_status_update. save. Qed.
#[local] Hint Resolve saves_handle_status_update : saved.

Lemma saves_filters_from_slot key k labels : saves (filters_from_slot key k labels).
Proof. unfold filters_from_slot. save. Qed.
#[local] Hint Resolve saves_filters_from_slot : saved.

Lemma saves_countdown_message text value : saves (countdown_message text value).
Proof. unfold countdown_message. save. Qed.
#[local] Hint Resolve saves_countdown_message : saved.

Lemma saves_start_countdown seconds now : saves (start_countdown seconds now).
Proof. unfold start_countdown. save. Qed.
#[local] Hint Resolve saves_start_countdown : saved.

Lemma saves_tick_loop fuel now : saves (tick_loop fuel now).
Proof. induction fuel as [|fuel IH]; cbn [tick_loop]; save. Qed.
#[local] Hint Resolve saves_tick_loop : saved.

Lemma saves_tick now : saves (tick now).
Proof. unfold tick. save. Qed.
#[local] Hint Resolve saves_tick : saved.

Lemma saves_broadcast_result text : saves (broadcast_result text).
Proof. unfold broadcast_result. save. Qed.
#[local] Hint Resolve saves_broadcast_result : saved.

Lemma saves_shutdown : saves shutdown.
Proof. unfold shutdown. save. Qed.
#[local] Hint Resolve saves_shutdown : saved.

Lemma saves_handle_get conn keys raw : saves (handle_get conn keys raw).
Proof. unfold handle_get. save. Qed.
#[local] Hint Resolve saves_handle_get : saved.

Lemma saves_handle_get_datapackage conn wanted excluded : saves (handle_get_datapackage conn wanted excluded).
Proof. unfold handle_get_datapackage. save. Qed.
#[local] Hint Resolve saves_handle_get_datapackage : saved.

Lemma saves_notify_typed conn texts ty : saves (notify_typed conn texts ty).
Proof. unfold notify_typed. save. Qed.
#[local] Hint Resolve saves_notify_typed : saved.

Lemma saves_notify_multiple conn texts : saves (notify_multiple conn texts).
Proof. unfold notify_multiple. save. Qed.
#[local] Hint Resolve saves_notify_multiple : saved.

Lemma saves_notify_admin conn texts : saves (notify_admin conn texts).
Proof. unfold notify_admin. save. Qed.
#[local] Hint Resolve saves_notify_admin : saved.

Lemma saves_notify conn text : saves (notify conn text).
Proof. unfold notify. save. Qed.
#[local] Hint Resolve saves_notify : saved.

Lemma saves_broadcast_chat key display message : saves (broadcast_chat key display message).
Proof. unfold broadcast_chat. save. Qed.
#[local] Hint Resolve saves_broadcast_chat : saved.

Lemma saves_broadcast_server_chat text : saves (broadcast_server_chat text).
Proof. unfold broadcast_server_chat. save. Qed.
#[local] Hint Resolve saves_broadcast_server_chat : saved.

Lemma saves_with_slot conn k : (forall key, saves (k key)) -> saves (with_slot conn k).
Proof. intros Hk. unfold with_slot. save. Qed.

Lemma saves_asterisks : saves asterisks.
Proof. unfold asterisks. save. Qed.
#[local] Hint Resolve saves_asterisks : saved.

Lemma saves_cmd_help conn : saves (cmd_help conn).
Proof. unfold cmd_help. save. Qed.
#[local] Hint Resolve saves_cmd_help : saved.

Lemma saves_cmd_license conn : saves (cmd_license conn).
Proof. unfold cmd_license. save. Qed.
#[local] Hint Resolve saves_cmd_license : saved.

Lemma saves_cmd_options conn : saves (cmd_options conn).
Proof. unfold cmd_options. save. Qed.
#[local] Hint Resolve saves_cmd_options : saved.

Lemma saves_cmd_players conn : saves (cmd_players conn).
Proof. unfold cmd_players. save. Qed.
#[local] Hint Resolve saves_cmd_players : saved.

Lemma saves_cmd_status conn tag : saves (cmd_status conn tag).
Proof. unfold cmd_status. save. Qed.
#[local] Hint Resolve saves_cmd_status : saved.

Lemma saves_cmd_location_list conn text missing : saves (cmd_location_list conn text missing).
Proof. unfold cmd_location_list. save. Qed.
#[local] Hint Resolve saves_cmd_location_list : saved.

Lemma saves_cmd_release conn : saves (cmd_release conn).
Proof. unfold cmd_release. save. Qed.
#[local] Hint Resolve saves_cmd_release : saved.

Lemma saves_cmd_collect conn : saves (cmd_collect conn).
Proof. unfold cmd_collect. save. Qed.
#[local] Hint Resolve saves_cmd_collect : saved.

Lemma saves_cmd_countdown conn seconds : saves (cmd_countdown conn seconds).
Proof. unfold cmd_countdown. save. Qed.
#[local] Hint Resolve saves_cmd_countdown : saved.

Lemma saves_report_remaining conn key : saves (report_remaining conn key).
Proof. unfold report_remaining. save. Qed.
#[local] Hint Resolve saves_report_remaining : saved.

Lemma saves_cmd_remaining conn : saves (cmd_remaining conn).
Proof. unfold cmd_remaining. save. Qed.
#[local] Hint Resolve saves_cmd_remaining : saved.

Lemma saves_cmd_alias conn name : saves (cmd_alias conn name).
Proof. unfold cmd_alias. save. Qed.
#[local] Hint Resolve saves_cmd_alias : saved.

Lemma saves_push_option_update push name : saves (push_option_update push name).
Proof. unfold push_option_update. save. Qed.
#[local] Hint Resolve saves_push_option_update : saved.

Lemma saves_apply_option name value : saves (apply_option name value).
Proof. unfold apply_option. save. Qed.
#[local] Hint Resolve saves_apply_option : saved.

Lemma saves_admin_out conn text : saves (admin_out conn text).
Proof. unfold admin_out. save. Qed.
#[local] Hint Resolve saves_admin_out : saved.

Lemma saves_server_cmd_help conn : saves (server_cmd_help conn).
Proof. unfold server_cmd_help. save. Qed.
#[local] Hint Resolve saves_server_cmd_help : saved.

Lemma saves_server_cmd_options conn : saves (server_cmd_options conn).
Proof. unfold server_cmd_options. save. Qed.
#[local] Hint Resolve saves_server_cmd_options : saved.

Lemma saves_server_cmd_option conn args : saves (server_cmd_option conn args).
Proof. unfold server_cmd_option. save. Qed.
#[local] Hint Resolve saves_server_cmd_option : saved.

Lemma saves_server_command conn raw : saves (server_command conn raw).
Proof. unfold server_command. save. Qed.
#[local] Hint Resolve saves_server_command : saved.

Definition granted {A B} (x : result A B) : bool := match x with Ok _ => true | Err _ => false end.

Definition yields {A} (P : A -> Prop) (m : M A) : Prop := forall r a r' es, m r = Ok (a, r', es) -> P a.

Lemma yields_ret {A} (P : A -> Prop) a : P a -> yields P (mret a).
Proof. by intros Ha r ? ? ? [= <- _ _]. Qed.

Lemma yields_bind {A C} (P : C -> Prop) (m : M A) (k : A -> M C) : (forall a, yields P (k a)) -> yields P (m ≫= k).
Proof.
  intros Hk r c r' es. unfold mbind, M_bind. destruct (m r) as [[[a r1] e1]|]; [|done].
  destruct (k a r1) as [[[c' r2] e2]|] eqn:E; [|done]. intros [= <- _ _]. by eapply Hk.
Qed.

Lemma read_then {A C} (g : Room -> A) (k : A -> M C) r c r' es :
  (read g ≫= k) r = Ok (c, r', es) -> k (g r) r = Ok (c, r', es).
Proof. cbv [mbind M_bind read]. by destruct (k (g r) r) as [[[? ?] ?]|]. Qed.

(** What is refused changes nothing; the caller marks what is granted. *)
Lemma grant_items_refused key wanted count announce r a r' es :
  grant_items key wanted count announce r = Ok (a, r', es) -> granted a = false -> same_save r r'.
Proof.
  intros E Hg. revert E. unfold grant_items. intros E%read_then. cbn [id] in E.
  destruct (names_of r key.2) as [names|]; [|by injection E as <- <- _].
  destruct (intended _ _) as [[name ?|? ? message]|]; [|by injection E as <- <- _..].
  exfalso. enough (granted a = true) by congruence.
  revert E. apply (yields_bind (fun x => granted x = true)). intros id_. cbv zeta.
  apply yields_bind. intros _. apply yields_bind. intros r1. apply yields_bind. intros _. apply yields_bind. intros _.
  apply yields_bind. intros _. by apply yields_ret.
Qed.

Lemma saves_cmd_getitem conn wanted : saves (cmd_getitem conn wanted).
Proof.
  unfold cmd_getitem. apply saves_bind; [apply saves_read|]. intros r. destruct (negb _); [save|].
  apply saves_with_slot. intros key. apply (saves_bind_good (fun x => granted x = false)).
  - intros r0 a0 r' es E Hg. right. by eapply grant_items_refused.
  - intros [x|x] Hg; [done|]. save.
  - intros [x|x] Hg; [apply marks_dirty|by destruct Hg].
Qed.
#[local] Hint Resolve saves_cmd_getitem : saved.
#[local] Hint Resolve saves_cmd_getitem : saved.

Lemma saves_mask_admin command : saves (mask_admin command).
Proof. unfold mask_admin. save. Qed.
#[local] Hint Resolve saves_mask_admin : saved.

Lemma saves_admin_login conn supplied password : saves (admin_login conn supplied password).
Proof. unfold admin_login. save. Qed.
#[local] Hint Resolve saves_admin_login : saved.

Lemma saves_cmd_admin conn command : saves (cmd_admin conn command).
Proof. unfold cmd_admin. save. Qed.
#[local] Hint Resolve saves_cmd_admin : saved.

Lemma saves_notify_caller conn text : saves (notify_caller conn text).
Proof. unfold notify_caller. save. Qed.
#[local] Hint Resolve saves_notify_caller : saved.

Lemma saves_choose_hints unfound limit : saves (choose_hints unfound limit).
Proof. unfold choose_hints. save. Qed.
#[local] Hint Resolve saves_choose_hints : saved.

Lemma saves_pay_for_hints conn key candidates points cost : saves (pay_for_hints conn key candidates points cost).
Proof. unfold pay_for_hints. save. Qed.
#[local] Hint Resolve saves_pay_for_hints : saved.

Lemma saves_cmd_hint conn input for_location : saves (cmd_hint conn input for_location).
Proof. unfold cmd_hint. save. Qed.
#[local] Hint Resolve saves_cmd_hint : saved.

Lemma saves_unknown_command conn name : saves (unknown_command conn name).
Proof. unfold unknown_command. save. Qed.
#[local] Hint Resolve saves_unknown_command : saved.

Lemma saves_run_word_command conn name args : saves (run_word_command conn name args).
Proof. unfold run_word_command. save. Qed.
#[local] Hint Resolve saves_run_word_command : saved.

Lemma saves_run_raw_command conn name argument : saves (run_raw_command conn name argument).
Proof. unfold run_raw_command. save. Qed.
#[local] Hint Resolve saves_run_raw_command : saved.

Lemma saves_run_command conn raw : saves (run_command conn raw).
Proof. unfold run_command. save. Qed.
#[local] Hint Resolve saves_run_command : saved.

Lemma saves_process_message conn raw : saves (process_message conn raw).
Proof. unfold process_message. save. Qed.
#[local] Hint Resolve saves_process_message : saved.

Lemma saves_handle_say conn text : saves (handle_say conn text).
Proof. unfold handle_say. save. Qed.
#[local] Hint Resolve saves_handle_say : saved.

Lemma saves_room_set_status key st : saves (room_set_status key st).
Proof. unfold room_set_status. save. Qed.
#[local] Hint Resolve saves_room_set_status : saved.

Lemma saves_with_key slot k : (forall key, saves (k key)) -> saves (with_key slot k).
Proof. intros Hk. unfold with_key. save. Qed.

Lemma saves_admin_say text : saves (admin_say text).
Proof. unfold admin_say, with_key, alias_of. save. Qed.
#[local] Hint Resolve saves_admin_say : saved.

Lemma saves_admin_countdown seconds : saves (admin_countdown seconds).
Proof. unfold admin_countdown, with_key, alias_of. save. Qed.
#[local] Hint Resolve saves_admin_countdown : saved.

Lemma saves_admin_release slot : saves (admin_release slot).
Proof. unfold admin_release, with_key, alias_of. save. Qed.
#[local] Hint Resolve saves_admin_release : saved.

Lemma saves_admin_collect slot : saves (admin_collect slot).
Proof. unfold admin_collect, with_key, alias_of. save. Qed.
#[local] Hint Resolve saves_admin_collect : saved.

Lemma saves_admin_send_item slot item amount : saves (admin_send_item slot item amount).
Proof.
  unfold admin_send_item. apply saves_with_key. intros key. unfold alias_of.
  destruct (amount <? 1); [save|]. destruct (SEND_MULTIPLE_LIMIT <? amount); [save|]. apply (saves_bind_good (fun x => granted x = false)).
  - intros r0 a0 r' es E Hg. right. by eapply grant_items_refused.
  - intros [x|x] Hg; [done|]. save.
  - intros [x|x] Hg; [mark|by destruct Hg].
Qed.
#[local] Hint Resolve saves_admin_send_item : saved.
#[local] Hint Resolve saves_admin_send_item : saved.

Lemma saves_admin_hint slot name for_location force : saves (admin_hint slot name for_location force).
Proof. unfold admin_hint, with_key, alias_of. save. Qed.
#[local] Hint Resolve saves_admin_hint : saved.

Lemma saves_admin_send_location slot location : saves (admin_send_location slot location).
Proof. unfold admin_send_location, with_key, alias_of. save. Qed.
#[local] Hint Resolve saves_admin_send_location : saved.

Lemma saves_admin_set_status slot st : saves (admin_set_status slot st).
Proof. unfold admin_set_status, with_key, alias_of. save. Qed.
#[local] Hint Resolve saves_admin_set_status : saved.

Lemma saves_admin_allow_release slot allowed : saves (admin_allow_release slot allowed).
Proof. unfold admin_allow_release, with_key, alias_of. save. Qed.
#[local] Hint Resolve saves_admin_allow_release : saved.

Lemma saves_admin_lock slot locked : saves (admin_lock slot locked).
Proof. unfold admin_lock, with_key, alias_of. save. Qed.
#[local] Hint Resolve saves_admin_lock : saved.

Lemma saves_admin_alias slot alias : saves (admin_alias slot alias).
Proof. unfold admin_alias, with_key, alias_of. save. Qed.
#[local] Hint Resolve saves_admin_alias : saved.

Lemma saves_admin_option name value : saves (admin_option name value).
Proof. unfold admin_option, with_key, alias_of. save. Qed.
#[local] Hint Resolve saves_admin_option : saved.

Lemma saves_admin_kick slot reason : saves (admin_kick slot reason).
Proof. unfold admin_kick, with_key, alias_of. save. Qed.
#[local] Hint Resolve saves_admin_kick : saved.

Lemma saves_admin c : saves (admin c).
Proof. unfold admin. save; destruct c; cbn [admin_dispatch]; save. Qed.
#[local] Hint Resolve saves_admin : saved.

Lemma saves_handle_set conn args raw : saves (handle_set conn args raw).
Proof. unfold handle_set, store_value, bad_arguments. save. Qed.
#[local] Hint Resolve saves_handle_set : saved.

Lemma saves_handle conn p : saves (handle conn p).
Proof. unfold handle. save. destruct p; cbn [dispatch]; save. Qed.

Definition not_dirty (e : Effect) : Prop := match e with EDirty => False | _ => True end.

(** The clock never marks the room, and changes nothing of a save. *)
Lemma tick_same now r r' es : tick now r = Ok (tt, r', es) -> same_save r r' /\ Forall not_dirty es.
Proof.
  intros E. assert (Hn : keeps_in not_dirty (fun _ => tt) (tick now)).
  { unfold tick. keep. generalize (tick_fuel a0). intros n. induction n; cbn [tick_loop]; unfold countdown_message; keep. }
  destruct (Hn _ _ _ _ E) as [_ Hes]. split; [|exact Hes].
  destruct (saves_tick now _ _ _ _ E) as [Hd|Hs]; [|exact Hs]. rewrite Forall_forall in Hes. by apply Hes in Hd.
Qed.

Lemma shutdown_saves : saves shutdown.
Proof. unfold shutdown. save. Qed.
End handlers.
