(* ===== verification/RoomInv.v ===== *)
(** * The invariants of the room

    Each invariant of [RoomSpec] is preserved by every step, hence along every
    run; and what can never be undone: a check, a goal. *)

From Stdlib Require Import ZArith Lia Bool.
From stdpp Require Import base tactics list sets gmap strings sorting relations.
From S2P Require Import Prelude Locations Types Multidata Conn Hints Json Packets Filter Options.
From S2P Require Import Effects Room RoomSpec.

Section inv.
Context `{Json}.

(** ** The seed never changes *)

Lemma step_data r r' : step r r' -> r_data r' = r_data r.
Proof. by intros []; try done; match goal with Hi : inert _ _ |- _ => apply Hi end. Qed.

(** ** Sessions *)

Lemma lookup_without key conn m key' :
  default [] (without key conn m !! key') =
  if decide (key = key') then filter (fun c => c <> conn) (default [] (m !! key')) else default [] (m !! key').
Proof.
  unfold without. case_decide as Hk.
  - subst. rewrite lookup_alter_eq. by destruct (m !! key').
  - by rewrite lookup_alter_ne.
Qed.

Lemma sessions_kept_lookup m m' conn c :
  sessions_kept m m' -> m !! conn = Some c -> exists c', m' !! conn = Some c' /\ same_session c c'.
Proof. intros Hk Hc. specialize (Hk conn). rewrite Hc in Hk. destruct (m' !! conn); naive_solver. Qed.

Lemma sessions_kept_lookup_r m m' conn c' :
  sessions_kept m m' -> m' !! conn = Some c' -> exists c, m !! conn = Some c /\ same_session c c'.
Proof. intros Hk Hc. specialize (Hk conn). rewrite Hc in Hk. destruct (m !! conn); naive_solver. Qed.

Lemma same_session_key c c' : same_session c c' -> session_key c' = session_key c.
Proof. intros (_ & _ & Ht & Hs). unfold session_key. congruence. Qed.

(** [sessions_ok] only reads two fields. *)
Definition sessions_ok' (clients : gmap ConnId Client) (bs : gmap SlotKey (list ConnId)) : Prop :=
  (forall conn c, clients !! conn = Some c -> c_id c = conn) /\
  (forall key, NoDup (default [] (bs !! key))) /\
  (forall key conn, conn ∈ default [] (bs !! key) <->
     exists c, clients !! conn = Some c /\ c_auth c = true /\ session_key c = key).

Lemma sessions_kept_ok m m' bs : sessions_kept m m' -> sessions_ok' m bs -> sessions_ok' m' bs.
Proof.
  intros Hk (Hid & Hnd & Hin). split_and!; [| done|].
  - intros conn c' Hc'. destruct (sessions_kept_lookup_r _ _ _ _ Hk Hc') as (c & Hc & Hs).
    destruct Hs as [-> _]. by apply Hid.
  - intros key conn. rewrite Hin. split.
    + intros (c & Hc & Ha & Hkey). destruct (sessions_kept_lookup _ _ _ _ Hk Hc) as (c' & Hc' & Hs).
      exists c'. split_and!; [done| |by rewrite (same_session_key _ _ Hs)].
      destruct Hs as (_ & -> & _). done.
    + intros (c' & Hc' & Ha & Hkey). destruct (sessions_kept_lookup_r _ _ _ _ Hk Hc') as (c & Hc & Hs).
      exists c. split_and!; [done| |by rewrite <- (same_session_key _ _ Hs)].
      destruct Hs as (_ & Hs & _). congruence.
Qed.

(** The slot's list after a session is taken out of it. *)
Lemma without_in bs clients conn c key conn' :
  sessions_ok' clients bs -> clients !! conn = Some c ->
  conn' ∈ default [] ((if c_auth c then without (session_key c) conn bs else bs) !! key) <->
  conn' <> conn /\ conn' ∈ default [] (bs !! key).
Proof.
  intros (Hid & Hnd & Hin) Hc. destruct (c_auth c) eqn:Ha.
  - rewrite lookup_without. case_decide as Hk.
    + by rewrite list_elem_of_filter.
    + split; [|tauto]. intros Hc'. split; [|done]. intros ->. apply Hin in Hc' as (c' & Hc' & _ & Hk').
      congruence.
  - split; [|tauto]. intros Hc'. split; [|done]. intros ->. apply Hin in Hc' as (c' & Hc' & Ha' & _).
    congruence.
Qed.

Lemma without_NoDup bs key conn (b : bool) key' :
  NoDup (default [] (bs !! key')) ->
  NoDup (default [] ((if b then without key conn bs else bs) !! key')).
Proof.
  intros Hn. destruct b; [|done]. rewrite lookup_without. case_decide; [|done]. by apply NoDup_filter.
Qed.

Lemma login_sessions clients bs conn c c' :
  sessions_ok' clients bs -> clients !! conn = Some c -> c_id c' = conn -> c_auth c' = true ->
  let bs' := if c_auth c then without (session_key c) conn bs else bs in
  sessions_ok' (<[conn := c']> clients)
    (<[session_key c' := default [] (bs' !! session_key c') ++ [conn]]> bs').
Proof.
  intros Hok Hc Hid' Ha'. cbn zeta. pose proof (without_in bs clients conn c) as Hw.
  pose proof Hok as (Hid & Hnd & Hin).
  set (bs' := if c_auth c then _ else _) in *.
  assert (Hlook : forall key, default [] (<[session_key c' := default [] (bs' !! session_key c') ++ [conn]]> bs' !! key) =
    if decide (session_key c' = key) then default [] (bs' !! key) ++ [conn] else default [] (bs' !! key)).
  { intros key. case_decide as Hk; [by subst; rewrite lookup_insert_eq|by rewrite lookup_insert_ne]. }
  split_and!.
  - intros conn' c0. rewrite lookup_insert_Some. intros [[<- <-]|[_ Hc0]]; [done|by apply Hid].
  - intros key. rewrite Hlook. pose proof (without_NoDup bs (session_key c) conn (c_auth c) key (Hnd key)) as Hn.
    fold bs' in Hn. case_decide; [|done]. apply NoDup_app. split_and!; [done| |apply NoDup_singleton].
    intros x Hx ->%list_elem_of_singleton. apply Hw in Hx as [[] _]; done.
  - intros key conn'. rewrite Hlook.
    assert (Hmain : conn' <> conn -> conn' ∈ default [] (bs' !! key) <->
      exists c0, <[conn := c']> clients !! conn' = Some c0 /\ c_auth c0 = true /\ session_key c0 = key).
    { intros Hne. rewrite lookup_insert_ne by done. rewrite (Hw key conn' Hok Hc), Hin. tauto. }
    destruct (decide (conn' = conn)) as [->|Hne].
    + rewrite lookup_insert_eq. case_decide as Hk.
      * rewrite elem_of_app. split; [|by right; left]. intros _. by exists c'.
      * split.
        -- intros [Hx _]%(Hw key conn Hok Hc). done.
        -- intros (c0 & [= <-] & _ & Hk'). done.
    + case_decide; [|by apply Hmain]. rewrite elem_of_app, list_elem_of_singleton, Hmain by done. tauto.
Qed.

Lemma close_sessions clients bs conn c :
  sessions_ok' clients bs -> clients !! conn = Some c ->
  sessions_ok' (delete conn clients) (if c_auth c then without (session_key c) conn bs else bs).
Proof.
  intros Hok Hc. pose proof Hok as (Hid & Hnd & Hin). split_and!.
  - intros conn' c0. rewrite lookup_delete_Some. intros [_ Hc0]. by apply Hid.
  - intros key. by apply without_NoDup.
  - intros key conn'. rewrite (without_in _ _ _ _ _ _ Hok Hc), Hin. split.
    + intros (Hne & c0 & Hc0 & ?). exists c0. by rewrite lookup_delete_ne.
    + intros (c0 & [Hne Hc0]%lookup_delete_Some & ?). split; [done|]. by exists c0.
Qed.

Lemma step_sessions r r' : step r r' -> sessions_ok r -> sessions_ok r'.
Proof.
  intros Hs Hok. change (sessions_ok' (r_clients r) (r_by_slot r)) in Hok.
  change (sessions_ok' (r_clients r') (r_by_slot r')). destruct Hs; cbn; try done.
  - destruct H0 as (_ & -> & -> & _). done.
  - destruct Hok as (Hid & Hnd & Hin). split_and!; [|done|].
    + intros conn' c0. rewrite lookup_insert_Some. intros [[<- <-]|[_ Hc0]]; [done|by apply Hid].
    + intros key conn'. rewrite Hin. destruct (decide (conn' = conn)) as [->|Hne].
      * rewrite lookup_insert_eq, H0. split; [by intros (? & [=] & _)|]. intros (c0 & [= <-] & Ha & _).
        congruence.
      * by rewrite lookup_insert_ne.
  - by eapply sessions_kept_ok.
  - by eapply login_sessions.
  - by apply close_sessions.
  - split_and!; [done|intros; constructor|]. intros key conn. rewrite !lookup_empty. cbn.
    split; [by intros ?%not_elem_of_nil|]. by intros (c & [=] & _).
  - by eapply sessions_kept_ok.
Qed.

(** ** Checks *)

Lemma is_checked_insert r key s key' loc :
  is_checked (set_location_checks (<[key := s]> (r_location_checks r)) r) key' loc =
  if decide (key = key') then bool_decide (loc ∈ s) else is_checked r key' loc.
Proof.
  unfold is_checked, checks_of. cbn. case_decide as Hk.
  - subst. by rewrite lookup_insert_eq.
  - by rewrite lookup_insert_ne.
Qed.

Lemma is_checked_register r key (locs : list Z) key' loc :
  is_checked (set_location_checks (<[key := checks_of r key ∪ list_to_set locs]> (r_location_checks r)) r)
    key' loc = is_checked r key' loc || bool_decide (key = key' /\ loc ∈ locs).
Proof.
  rewrite is_checked_insert. case_decide as Hk.
  - subst key'. unfold is_checked. apply eq_true_iff_eq.
    rewrite orb_true_iff, !bool_decide_eq_true, elem_of_union, elem_of_list_to_set. tauto.
  - rewrite bool_decide_false by tauto. by rewrite orb_false_r.
Qed.

Lemma is_checked_touch r key key' loc :
  is_checked (set_location_checks (<[key := checks_of r key]> (r_location_checks r)) r) key' loc
  = is_checked r key' loc.
Proof. rewrite is_checked_insert. case_decide; [|done]. by subst. Qed.

Lemma is_checked_other r r' key loc :
  r_location_checks r' = r_location_checks r -> is_checked r' key loc = is_checked r key loc.
Proof. unfold is_checked, checks_of. by intros ->. Qed.

(** A check is never undone. *)
Lemma step_checked r r' key loc :
  step r r' -> is_checked r key loc = true -> is_checked r' key loc = true.
Proof.
  intros Hs Hc. destruct Hs; try (by rewrite <- Hc; apply is_checked_other).
  - rewrite <- Hc. apply is_checked_other. apply H0.
  - by rewrite is_checked_touch.
  - change (is_checked r1 key loc = true). unfold r1. by rewrite is_checked_register, Hc.
Qed.

Lemma step_checks_known r r' : step r r' -> checks_known r -> checks_known r'.
Proof.
  intros Hs Hk team slot loc. rewrite (step_data _ _ Hs). intros Hc. destruct Hs; cbn in Hc;
    try (by apply (Hk team); rewrite <- Hc; symmetry; apply is_checked_other).
  - apply (Hk team). rewrite <- Hc. symmetry. apply is_checked_other, H0.
  - apply (Hk team). by rewrite is_checked_touch in Hc.
  - change (is_checked r1 (team, slot) loc = true) in Hc. unfold r1 in Hc.
    rewrite is_checked_register in Hc. apply orb_true_iff in Hc as [Hc|Hc]; [by apply (Hk team)|].
    apply bool_decide_eq_true in Hc as [-> Hl]. apply list_elem_of_fmap in Hl as (e & -> & He).
    rewrite Forall_forall in H1. destruct (H1 e He) as [Hg _]. apply ready_contains. by eexists.
Qed.

(** ** Goals *)

Lemma step_goal r r' key :
  step r r' -> client_state r key = ClientStatus.Goal -> client_state r' key = ClientStatus.Goal.
Proof.
  intros Hs Hg. destruct Hs; try done.
  - unfold client_state. destruct H0 as (_ & _ & _ & _ & _ & -> & _). done.
  - unfold client_state in *. cbn. destruct (decide (key0 = key)) as [->|Hne]; [done|].
    by rewrite lookup_insert_ne.
Qed.

(** ** Hints *)

Lemma truthful_ext (f g : SlotKey -> Z -> bool) team h :
  (forall key loc, f key loc = g key loc) -> truthful f team h -> truthful g team h.
Proof. intros He [Hf Hs]. split; [by rewrite Hf, He|done]. Qed.

Lemma upsert_truthful f s key h :
  unique_identities s -> (forall k x, x ∈ hints_get s k -> truthful f k.1 x) -> truthful f key.1 h ->
  unique_identities (upsert s key h).1 /\
  forall k x, x ∈ hints_get (upsert s key h).1 k -> truthful f k.1 x.
Proof.
  intros Hu Ht Hh. pose proof (upsert_ok s key h Hu) as Hs.
  destruct (upsert s key h) as [s' fresh]. destruct Hs as (Hu' & Hother & Hin & _).
  split; [done|]. intros k x Hx. destruct (decide (k = key)) as [->|Hne].
  - apply Hin in Hx as [->|[Hx _]]; [done|by apply Ht].
  - cbn in Hx. rewrite Hother in Hx by done. by apply Ht.
Qed.

Lemma recheck_unique s finder f : unique_identities s -> unique_identities (recheck s finder f).1.
Proof.
  intros Hu key. rewrite recheck_get. case_decide; [|apply Hu].
  unfold recheck_list. rewrite <- list_fmap_compose.
  erewrite list_fmap_ext; [apply (Hu key)|]. intros i h _. cbn. by destruct (touched finder f h).
Qed.

(** After a recheck the hints tell the truth about the new checks. *)
Lemma recheck_truthful r key locs :
  (forall k h, h ∈ hints_get (r_hints r) k -> truthful (is_checked r) k.1 h) ->
  let r1 := set_location_checks
      (<[key := checks_of r key ∪ list_to_set locs]> (r_location_checks r)) r in
  forall k h, h ∈ hints_get (recheck (r_hints r) key (is_checked r1)).1 k ->
    truthful (is_checked r1) k.1 h.
Proof.
  intros Ht r1 k h. rewrite recheck_get. case_decide as Hk.
  - unfold recheck_list. rewrite list_elem_of_fmap. intros (h0 & -> & Hh0).
    destruct (Ht k h0 Hh0) as [Hf Hst]. unfold truthful.
    destruct (touched key (is_checked r1) h0) eqn:E.
    + unfold touched in E. apply andb_true_iff in E as [E Hc]. split; [|done]. by rewrite Hk, <- Hc.
    + split; [|done]. rewrite Hf. unfold r1 in *. rewrite is_checked_register.
      case_bool_decide as Hb; [|by rewrite orb_false_r]. destruct Hb as [-> Hl].
      rewrite orb_true_r. destruct (is_checked r _ _) eqn:Hc; [done|].
      unfold touched in E. rewrite Hf in E. cbn in E. rewrite Z.eqb_refl in E.
      rewrite is_checked_register, bool_decide_true in E by done.
      by rewrite orb_true_r in E.
  - intros Hh. destruct (Ht k h Hh) as [Hf Hst]. split; [|done]. rewrite Hf. unfold r1.
    rewrite is_checked_register, bool_decide_false; [by rewrite orb_false_r|].
    intros [-> _]. done.
Qed.

Lemma set_status_truthful f s key finder loc st :
  st <> HintStatus.Found ->
  unique_identities s -> (forall k x, x ∈ hints_get s k -> truthful f k.1 x) ->
  unique_identities (Hints.set_status s key finder loc st).1 /\
  forall k x, x ∈ hints_get (Hints.set_status s key finder loc st).1 k -> truthful f k.1 x.
Proof.
  intros Hst Hu Ht. pose proof (set_status_ok s key finder loc st) as Hs.
  destruct (Hints.set_status s key finder loc st) as [s' [hint|]]; cbn [fst].
  2: { destruct Hs as (Hn & _). by rewrite Hn. }
  destruct Hs as (_ & Hsome & _ & Huniq). split; [by apply Huniq|].
  destruct (Hsome hint eq_refl) as (l & i & h & Hl & Hi & _ & _ & -> & _ & ->).
  intros k x Hx. rewrite hints_get_insert in Hx. case_decide as Hk; [|by apply (Ht k)]. subst k.
  apply list_elem_of_lookup in Hx as [j Hj].
  assert (Hg : hints_get s key = l) by (unfold hints_get; by rewrite Hl).
  destruct (decide (i = j)) as [<-|Hne].
  - rewrite list_lookup_insert_eq in Hj by (by eapply lookup_lt_Some). injection Hj as <-.
    destruct (Ht key h) as [Hf Hfs]; [rewrite Hg; by eapply list_elem_of_lookup_2|].
    split; [done|]. cbn. by intros ->.
  - rewrite list_lookup_insert_ne in Hj by done. apply Ht. rewrite Hg. by eapply list_elem_of_lookup_2.
Qed.

Lemma step_hints_truthful r r' : step r r' -> hints_truthful r -> hints_truthful r'.
Proof.
  intros Hs [Hu Ht].
  assert (Hsame : r_hints r' = r_hints r -> (forall key loc, is_checked r' key loc = is_checked r key loc) ->
            hints_truthful r').
  { intros Hh Hc. split; rewrite Hh; [done|]. intros key h Hin. eapply truthful_ext; [|by apply Ht].
    intros. by rewrite Hc. }
  destruct Hs; try (by apply Hsame).
  - destruct H0 as (_ & _ & _ & Hc & _ & _ & Hh). apply Hsame; [done|]. intros. by apply is_checked_other.
  - apply Hsame; [done|]. intros. apply is_checked_touch.
  - split; [by apply recheck_unique|]. exact (recheck_truthful r key _ Ht).
  - by apply upsert_truthful.
  - by apply set_status_truthful.
Qed.

(** ** Deliveries *)

Lemma all_NoDup d : ready d -> NoDup (all (locations d)).
Proof.
  intros Hr. apply NoDup_alt. intros i j e Hi Hj.
  eapply (ready_unambiguous d Hr (e_sender e)); eauto.
Qed.

(** Checking a batch adds its entries to the checked ones, once each. *)
Lemma register_checked r key E :
  ready (r_data r) -> NoDup (e_location <$> E) ->
  Forall (fun e => get (locations (r_data r)) key.2 (e_location e) = Some e /\
                   is_checked r key (e_location e) = false) E ->
  let r1 := set_location_checks
    (<[key := checks_of r key ∪ list_to_set (e_location <$> E)]> (r_location_checks r)) r in
  filter (fun e => is_checked r1 (key.1, e_sender e) (e_location e) = true) (all (locations (r_data r)))
  ≡ₚ filter (fun e => is_checked r (key.1, e_sender e) (e_location e) = true)
       (all (locations (r_data r))) ++ E.
Proof.
  intros Hr Hnd HE r1. rewrite Forall_forall in HE.
  assert (HE' : forall e, e ∈ E -> e ∈ all (locations (r_data r)) /\ e_sender e = key.2 /\
                  is_checked r key (e_location e) = false).
  { intros e He. destruct (HE e He) as [Hg Hc]. pose proof (ready_get _ key.2 (e_location e) Hr) as H1.
    rewrite Hg in H1. tauto. }
  pose proof (all_NoDup _ Hr) as Hall. destruct key as [team slot]. cbn [fst snd] in *.
  apply NoDup_Permutation.
  - by apply NoDup_filter.
  - apply NoDup_app. split_and!; [by apply NoDup_filter| |by eapply NoDup_fmap_1].
    intros e [Hc _]%list_elem_of_filter He. destruct (HE' e He) as (_ & Hs & Hc').
    rewrite Hs in Hc. congruence.
  - intros e. rewrite elem_of_app, !list_elem_of_filter. unfold r1.
    rewrite is_checked_register, orb_true_iff, bool_decide_eq_true. split.
    + intros [[Hc|[[= Hs] Hl]] He]; [by left|right].
      apply list_elem_of_fmap in Hl as (e0 & Hl & He0). destruct (HE e0 He0) as [Hg _].
      pose proof (ready_get_in _ e Hr He) as Hg'. rewrite <- Hs, Hl in Hg'. congruence.
    + intros [[Hc He]|He]; [by auto|]. destruct (HE' e He) as (Ha & Hs & Hc). split; [|done].
      right. split; [by rewrite Hs|]. by apply list_elem_of_fmap_2.
Qed.

Lemma queue_other r r' key : r_received_items r' = r_received_items r -> queue_of r' key = queue_of r key.
Proof. unfold queue_of. by intros ->. Qed.

Lemma step_delivered r r' : step r r' -> ready (r_data r) -> delivered_once r -> delivered_once r'.
Proof.
  intros Hs Hr Hd team slot. rewrite (step_data _ _ Hs).
  destruct (Hd team slot) as (cheats & Hch & Hq).
  assert (Hsame : r_received_items r' = r_received_items r ->
            (forall key loc, is_checked r' key loc = is_checked r key loc) ->
            exists cheats, Forall (cheated slot) cheats /\ forall remote,
            queue_of r' (team, slot, remote) ≡ₚ
            (filter (fun e => is_checked r' (team, e_sender e) (e_location e) = true)
              (all (locations (r_data r))) ≫= delivered (r_data r) slot remote) ++ cheats).
  { intros Hri Hc. exists cheats. split; [done|]. intros remote.
    rewrite (queue_other _ _ _ Hri), (Hq remote).
    erewrite list_filter_iff; [done|]. intros e. cbn. by rewrite Hc. }
  destruct Hs; try (by apply Hsame).
  - destruct H0 as (_ & _ & _ & Hc & Hi & _). apply Hsame; [done|]. intros. by apply is_checked_other.
  - apply Hsame; [done|]. intros. apply is_checked_touch.
  - exists cheats. split; [done|]. intros remote.
    unfold queue_of at 1. cbn [r_received_items set_hints set_clients set_received_items].
    rewrite H2, (Hq remote). case_decide as Ht.
    + subst team. rewrite <- app_assoc, (Permutation_app_comm cheats), app_assoc.
      apply Permutation_app_tail. rewrite <- bind_app. symmetry.
      apply bind_Permutation. exact (register_checked r key E Hr H0 H1).
    + rewrite app_nil_r. erewrite list_filter_iff; [done|]. intros e. cbn.
      change (is_checked r (team, e_sender e) (e_location e) = true <->
              is_checked r1 (team, e_sender e) (e_location e) = true).
      unfold r1. rewrite is_checked_register, bool_decide_false; [by rewrite orb_false_r|].
      intros [-> _]. done.
  - exists (cheats ++ (if decide ((team, slot) = (team0, slot0)) then items else [])). split.
    { apply Forall_app. split; [done|]. case_decide as Ht; [|constructor]. by injection Ht as -> ->. }
    intros remote. unfold queue_of at 1. cbn [r_received_items set_received_items].
    rewrite H1, (Hq remote), app_assoc. done.
Qed.

(** ** Along a run *)

Lemma step_inv r r' : step r r' -> room_inv r -> room_inv r'.
Proof.
  intros Hs []. split.
  - by rewrite (step_data _ _ Hs).
  - by eapply step_sessions.
  - by eapply step_checks_known.
  - by eapply step_delivered.
  - by eapply step_hints_truthful.
Qed.

Lemma steps_inv r r' : rtc step r r' -> room_inv r -> room_inv r'.
Proof. induction 1; eauto using step_inv. Qed.

Lemma steps_data r r' : rtc step r r' -> r_data r' = r_data r.
Proof. induction 1 as [|x y z Hs _ IH]; [done|]. by rewrite IH, (step_data _ _ Hs). Qed.

Lemma steps_checked r r' key loc :
  rtc step r r' -> is_checked r key loc = true -> is_checked r' key loc = true.
Proof. induction 1; eauto using step_checked. Qed.

Lemma steps_goal r r' key :
  rtc step r r' -> client_state r key = ClientStatus.Goal -> client_state r' key = ClientStatus.Goal.
Proof. induction 1; eauto using step_goal. Qed.
End inv.
