(* ===== verification/RoomWp.v ===== *)
(** * Weakest preconditions of the room's handlers

    [wp m r Q]: run from [r], [m] does not stop, and [Q] holds of its result and
    of the room it leaves.  The item distribution of [register_location_checks]
    is characterised here. *)

From Stdlib Require Import ZArith Lia Bool.
From stdpp Require Import base tactics list sets gmap strings sorting relations.
From S2P Require Import Prelude PyRandom Locations Types Multidata Conn Hints Json PyValue Packets Filter Options.
From S2P Require Import Effects Room RoomOps RoomSpec RoomInv.

Section wp.
Context `{Json} `{HashOrder} `{HText : !JsonText}.

Definition wp {A} (m : M A) (r : Room) (Q : A -> Room -> Prop) : Prop :=
  match m r with Ok (a, r', _) => Q a r' | Err _ => False end.

Lemma wp_mono {A} (m : M A) r (P Q : A -> Room -> Prop) :
  wp m r P -> (forall a r', P a r' -> Q a r') -> wp m r Q.
Proof. unfold wp. destruct (m r) as [[[a r'] es]|]; auto. Qed.

Lemma wp_bind {A B} (m : M A) (k : A -> M B) r Q :
  wp m r (fun a r1 => wp (k a) r1 Q) -> wp (m ≫= k) r Q.
Proof.
  unfold wp, mbind, M_bind. destruct (m r) as [[[a r1] es]|]; [|done].
  destruct (k a r1) as [[[b r2] es2]|]; done.
Qed.

Lemma wp_ret {A} (a : A) r (Q : A -> Room -> Prop) : Q a r -> wp (mret a) r Q.
Proof. done. Qed.

Lemma wp_done r (Q : unit -> Room -> Prop) : Q tt r -> wp done_ r Q.
Proof. done. Qed.

Lemma wp_read {A} (f : Room -> A) r (Q : A -> Room -> Prop) : Q (f r) r -> wp (read f) r Q.
Proof. done. Qed.

Lemma wp_write f r (Q : unit -> Room -> Prop) : Q tt (f r) -> wp (write f) r Q.
Proof. done. Qed.

Lemma wp_emit e r (Q : unit -> Room -> Prop) : Q tt r -> wp (emit e) r Q.
Proof. done. Qed.

Lemma wp_send conn msgs r (Q : unit -> Room -> Prop) : Q tt r -> wp (send conn msgs) r Q.
Proof. done. Qed.

Lemma wp_broadcast to_ msgs r (Q : unit -> Room -> Prop) : Q tt r -> wp (broadcast to_ msgs) r Q.
Proof. done. Qed.

Lemma wp_journal e r (Q : unit -> Room -> Prop) : Q tt r -> wp (journal e) r Q.
Proof. done. Qed.

Lemma wp_mark_dirty r (Q : unit -> Room -> Prop) : Q tt r -> wp mark_dirty r Q.
Proof. done. Qed.

Lemma wp_bad_arguments conn cmd text r (Q : unit -> Room -> Prop) :
  Q tt r -> wp (bad_arguments conn cmd text) r Q.
Proof. done. Qed.

Lemma wp_protocol_error conn text r (Q : unit -> Room -> Prop) :
  Q tt r -> wp (protocol_error conn text) r Q.
Proof. done. Qed.

Lemma wp_record key kind n r (Q : unit -> Room -> Prop) :
  Q tt r -> wp (record_redundant key kind n) r Q.
Proof. unfold record_redundant. by destruct (Nat.eqb n 0). Qed.

Lemma wp_expect {A} (o : option A) a r (Q : A -> Room -> Prop) :
  o = Some a -> Q a r -> wp (expect o) r Q.
Proof. by intros ->. Qed.

Lemma wp_when (b : bool) m r (Q : unit -> Room -> Prop) :
  (b = true -> wp m r Q) -> (b = false -> Q tt r) -> wp (when b m) r Q.
Proof. destruct b; cbn; auto. Qed.

Lemma wp_on_some {A} (o : option A) k r (Q : unit -> Room -> Prop) :
  (forall a, o = Some a -> wp (k a) r Q) -> (o = None -> Q tt r) -> wp (on_some o k) r Q.
Proof. destruct o; cbn; auto. Qed.

Lemma wp_push_filter conn r (Q : unit -> Room -> Prop) : Q tt r -> wp (push_filter conn) r Q.
Proof.
  intros HQ. unfold push_filter. apply wp_bind, wp_read. cbn [id]. by destruct (r_clients r !! conn).
Qed.

(** A loop keeps a relation to where it started. *)
Lemma wp_each {A} (l : list A) body r (I : Room -> Prop) :
  I r -> (forall a r1, a ∈ l -> I r1 -> wp (body a) r1 (fun _ r2 => I r2)) ->
  wp (each l body) r (fun _ r' => I r').
Proof.
  revert r. induction l as [|a l IH]; intros r Hr Hb; [done|]. cbn [each].
  apply wp_bind. eapply wp_mono; [apply Hb; [left|done]|]. intros [] r1 Hr1. apply IH; [done|].
  intros b r2 Hin Hb2. apply Hb; [by right|done].
Qed.

Lemma wp_each_until {A S R} (l : list A) (s : S) (body : S -> A -> M (S + R)) r
    (P : S -> Prop) :
  P s -> (forall s a, a ∈ l -> P s -> wp (body s a) r (fun x r' => r' = r /\
            match x with inl s => P s | inr _ => True end)) ->
  wp (each_until l s body) r (fun x r' => r' = r /\ match x with inl s => P s | inr _ => True end).
Proof.
  revert s. induction l as [|a l IH]; intros s Hs Hb; [done|]. cbn [each_until].
  apply wp_bind. eapply wp_mono; [apply Hb; [left|done]|]. intros [s'|x] r1 [-> Hx]; [|done].
  apply IH; [done|]. intros s0 b Hin. apply Hb. by right.
Qed.

Lemma wp_mapM {A B} (f : A -> M B) (g : A -> B) l r :
  (forall a, a ∈ l -> wp (f a) r (fun b r' => b = g a /\ r' = r)) ->
  wp (mapM f l) r (fun bs r' => bs = (g <$> l : list _) /\ r' = r).
Proof.
  induction l as [|a l IH]; intros Hf; [done|].
  change (mapM f (a :: l)) with (y ← f a; k ← mapM f l; mret (y :: k)).
  apply wp_bind. eapply wp_mono; [apply Hf; left|]. intros b r1 [-> ->].
  apply wp_bind. eapply wp_mono; [apply IH; intros; apply Hf; by right|]. intros bs r1 [-> ->]. done.
Qed.

(** [may m r Q]: as [wp], unless the generator's rejection loop gives up. *)
Definition may {A} (m : M A) (r : Room) (Q : A -> Room -> Prop) : Prop :=
  match m r with Ok (a, r', _) => Q a r' | Err s => s = Unlucky end.

Lemma may_wp {A} (m : M A) r Q : wp m r Q -> may m r Q.
Proof. unfold wp, may. by destruct (m r) as [[[a r'] es]|]. Qed.

Lemma may_mono {A} (m : M A) r (P Q : A -> Room -> Prop) :
  may m r P -> (forall a r', P a r' -> Q a r') -> may m r Q.
Proof. unfold may. destruct (m r) as [[[a r'] es]|]; auto. Qed.

Lemma may_bind {A B} (m : M A) (k : A -> M B) r Q :
  may m r (fun a r1 => may (k a) r1 Q) -> may (m ≫= k) r Q.
Proof.
  unfold may, mbind, M_bind. destruct (m r) as [[[a r1] es]|]; [|done].
  destruct (k a r1) as [[[b r2] es2]|]; done.
Qed.

Lemma may_draw {A} (g : PyRandom -> option (A * PyRandom)) r (Q : A -> Room -> Prop) :
  (forall a rng, g (r_rng r) = Some (a, rng) -> Q a (set_rng rng r)) -> may (draw g) r Q.
Proof. unfold may, draw. destruct (g (r_rng r)) as [[a rng]|]; auto. Qed.

(** ** Clients *)

Lemma sessions_kept_refl m : sessions_kept m m.
Proof. intros conn. by destruct (m !! conn). Qed.

Lemma sessions_kept_trans m1 m2 m3 : sessions_kept m1 m2 -> sessions_kept m2 m3 -> sessions_kept m1 m3.
Proof.
  intros H1 H2 conn. specialize (H1 conn). specialize (H2 conn). unfold same_session in *.
  destruct (m1 !! conn), (m2 !! conn), (m3 !! conn); try done.
  destruct H1 as (-> & -> & -> & ->) in H2. intuition congruence.
Qed.

Lemma sessions_kept_insert m conn c c' :
  m !! conn = Some c -> same_session c c' -> sessions_kept m (<[conn := c']> m).
Proof.
  intros Hc Hs k. destruct (decide (k = conn)) as [->|Hne].
  - by rewrite Hc, lookup_insert_eq.
  - rewrite lookup_insert_ne by done. by destruct (m !! k).
Qed.

Lemma set_clients_id r : set_clients (r_clients r) r = r.
Proof. by destruct r. Qed.

(** What a client update that keeps sessions may do. *)
Definition only_clients (r r' : Room) : Prop :=
  exists m, sessions_kept (r_clients r) m /\ r' = set_clients m r.

Lemma only_clients_refl r : only_clients r r.
Proof. exists (r_clients r). split; [apply sessions_kept_refl|]. by rewrite set_clients_id. Qed.

Lemma only_clients_trans r1 r2 r3 : only_clients r1 r2 -> only_clients r2 r3 -> only_clients r1 r3.
Proof.
  intros (m1 & H1 & ->) (m2 & H2 & ->). exists m2. split; [|done]. by eapply sessions_kept_trans.
Qed.

Lemma only_clients_step r r' : only_clients r r' -> rtc step r r'.
Proof. intros (m & Hm & ->). apply rtc_once. by constructor. Qed.

Lemma wp_modify_client conn f r :
  (forall c, same_session c (f c)) ->
  wp (modify_client conn f) r (fun _ r' => only_clients r r').
Proof.
  intros Hf. unfold modify_client. apply wp_write.
  destruct (r_clients r !! conn) as [c|] eqn:Hc; [|apply only_clients_refl].
  exists (<[conn := f c]> (r_clients r)). split; [|done]. by eapply sessions_kept_insert.
Qed.

Lemma set_send_index_session n c : same_session c (client_set_send_index n c).
Proof. done. Qed.

Lemma set_handling_session h c : same_session c (client_set_handling h c).
Proof. done. Qed.

Lemma apply_tags_session tags c : same_session c (apply_tags c tags).
Proof. done. Qed.

Lemma wp_send_new_items slots r :
  wp (send_new_items slots) r (fun _ r' => only_clients r r').
Proof.
  unfold send_new_items. apply wp_each; [apply only_clients_refl|]. intros slot r1 _ H1.
  apply wp_bind, wp_read. apply (wp_each _ _ _ (only_clients r)); [done|]. intros conn r2 _ H2.
  apply wp_bind, wp_read. apply wp_on_some; [|done]. intros c Hc. cbn [id] in Hc.
  destruct (ItemsHandling.no_items _); [by apply wp_done|].
  destruct (_ <=? _)%nat; [by apply wp_done|].
  apply wp_bind, wp_send. eapply wp_mono; [by apply wp_modify_client|].
  intros [] r3 H3. by eapply only_clients_trans.
Qed.

Lemma wp_resend_all_items conn r :
  wp (resend_all_items conn) r (fun _ r' => only_clients r r').
Proof.
  unfold resend_all_items. apply wp_bind, wp_read. apply wp_on_some; [|intros; apply only_clients_refl].
  intros c Hc. destruct (ItemsHandling.no_items _); [apply wp_done, only_clients_refl|].
  apply wp_bind, wp_send. by apply wp_modify_client.
Qed.

(** ** Distribution *)

Lemma group_members_members r slot : group_members_of r slot = members (r_data r) slot.
Proof. done. Qed.

Lemma leaves_total d rank fuel target :
  (forall g m, m ∈ members d g -> (rank m < rank g)%nat) -> (rank target < fuel)%nat ->
  is_Some (leaves fuel d target).
Proof.
  intros Hrank. revert target. induction fuel as [|fuel IH]; intros target Hf; [lia|]. cbn [leaves].
  destruct (members d target) as [|m ms] eqn:Hm; [by eexists|].
  assert (Hall : forall x, x ∈ m :: ms -> is_Some (leaves fuel d x)).
  { intros x Hx. apply IH. rewrite <- Hm in Hx. specialize (Hrank _ _ Hx). lia. }
  assert (is_Some (mapM (leaves fuel d) (m :: ms))) as [l ->]; [|by eexists].
  apply mapM_is_Some. apply Forall_forall. intros x Hx. by apply Hall.
Qed.

Lemma ready_leaves d target :
  ready d -> leaves (S (size (slot_info d))) d target = Some (recipients d target).
Proof.
  intros Hr. unfold recipients. destruct (ready_groups d Hr) as (rank & H1 & H2).
  destruct (leaves_total d rank (S (size (slot_info d))) target H1) as [l Hl].
  - specialize (H2 target). lia.
  - by rewrite Hl.
Qed.

(** What an item adds to a queue when it reaches these slots. *)
Definition pushed (item : NetworkItem) (slot : Z) (remote : bool) (targets : list Z) : list NetworkItem :=
  t ← targets; if (t =? slot) && (remote || negb (ni_player item =? t)) then [item] else [].

(** [r'] is [r] with its queues extended. *)
Definition extended (r r' : Room) (added : Z -> Z -> bool -> list NetworkItem) : Prop :=
  exists q, r' = set_received_items q r /\
    forall team slot remote, default [] (q !! (team, slot, remote)) =
      queue_of r (team, slot, remote) ++ added team slot remote.

Lemma extended_refl r : extended r r (fun _ _ _ => []).
Proof.
  exists (r_received_items r). split; [by destruct r|]. intros. by rewrite app_nil_r.
Qed.

Lemma extended_trans r1 r2 r3 f g :
  extended r1 r2 f -> extended r2 r3 g -> extended r1 r3 (fun t s b => f t s b ++ g t s b).
Proof.
  intros (q1 & -> & H1) (q2 & -> & H2). exists q2. split; [done|]. intros. rewrite H2.
  unfold queue_of at 1. cbn. by rewrite H1, app_assoc.
Qed.

Lemma extended_ext r r' f g : extended r r' f -> (forall t s b, f t s b = g t s b) -> extended r r' g.
Proof. intros (q & -> & Hq) Hfg. exists q. split; [done|]. intros. by rewrite Hq, Hfg. Qed.

Lemma push_extended r key item :
  extended r (set_received_items (<[key := default [] (r_received_items r !! key) ++ [item]]>
                                    (r_received_items r)) r)
    (fun team slot remote => if decide (key = (team, slot, remote)) then [item] else []).
Proof.
  eexists. split; [done|]. intros team slot remote. unfold queue_of. case_decide as Hk.
  - subst. by rewrite lookup_insert_eq.
  - rewrite lookup_insert_ne by done. by rewrite app_nil_r.
Qed.

Definition pushed_to (team : Z) (item : NetworkItem) (targets : list Z)
    (team' slot : Z) (remote : bool) : list NetworkItem :=
  if decide (team' = team) then pushed item slot remote targets else [].

Lemma pushed_app item slot remote l1 l2 :
  pushed item slot remote (l1 ++ l2) = pushed item slot remote l1 ++ pushed item slot remote l2.
Proof. unfold pushed. apply bind_app. Qed.

Lemma wp_send_item_leaf r team target item :
  wp (let push key := write (fun r => set_received_items
              (<[key := default [] (r_received_items r !! key) ++ [item]]> (r_received_items r)) r) in
      _ ← when (negb (ni_player item =? target)) (push (team, target, false));
      push (team, target, true)) r
    (fun _ r' => extended r r' (pushed_to team item [target])).
Proof.
  cbn zeta. apply wp_bind. apply wp_when; intros Hp; [apply wp_write|]; apply wp_write.
  - eapply extended_ext; [eapply extended_trans; apply push_extended|]. intros t s b. cbn beta.
    unfold pushed_to, pushed. cbn. rewrite Hp. destruct (decide (t = team)) as [->|Ht].
    + destruct (Z.eqb_spec target s) as [->|Hs], b; cbn; repeat case_decide; simplify_eq; done.
    + repeat case_decide; simplify_eq; done.
  - eapply extended_ext; [apply push_extended|]. intros t s b. cbn beta.
    unfold pushed_to, pushed. cbn. rewrite Hp. destruct (decide (t = team)) as [->|Ht].
    + destruct (Z.eqb_spec target s) as [->|Hs], b; cbn; repeat case_decide; simplify_eq; done.
    + repeat case_decide; simplify_eq; done.
Qed.

Lemma wp_send_item_to fuel : forall team target item ls r,
  leaves fuel (r_data r) target = Some ls ->
  wp (send_item_to fuel team target item) r (fun _ r' => extended r r' (pushed_to team item ls)).
Proof.
  induction fuel as [|fuel IH]; intros team target item ls r Hl; [done|]. cbn [send_item_to].
  apply wp_bind, wp_read. cbn [id]. rewrite group_members_members. cbn [leaves] in Hl.
  destruct (members (r_data r) target) as [|m ms] eqn:Hm.
  { injection Hl as <-. apply wp_send_item_leaf. }
  destruct (mapM (leaves fuel (r_data r)) (m :: ms)) as [lss|] eqn:Hmap; [|done].
  injection Hl as <-. clear Hm. revert lss Hmap. generalize (m :: ms). clear m ms. intros l.
  revert r. induction l as [|m l IHl]; intros r lss Hmap.
  { injection Hmap as <-. apply wp_done. eapply extended_ext; [apply extended_refl|].
    intros. unfold pushed_to. by case_decide. }
  change (mapM (leaves fuel (r_data r)) (m :: l))
    with (y ← leaves fuel (r_data r) m; k ← mapM (leaves fuel (r_data r)) l; mret (y :: k)) in Hmap.
  destruct (leaves fuel (r_data r) m) as [y|] eqn:Hy; [|done].
  destruct (mapM (leaves fuel (r_data r)) l) as [k|] eqn:Hk; [|done]. injection Hmap as <-.
  cbn [each]. apply wp_bind. eapply wp_mono; [by apply IH|]. intros [] r1 H1.
  assert (Hd : r_data r1 = r_data r) by (destruct H1 as (q & -> & _); done).
  eapply wp_mono; [apply (IHl r1 k); by rewrite Hd|]. intros [] r2 H2.
  eapply extended_ext; [by eapply extended_trans|]. intros t s b. cbn beta. unfold pushed_to.
  case_decide; [|done]. change (mjoin (y :: k)) with (y ++ mjoin k). by rewrite pushed_app.
Qed.
End wp.
