(* ===== verification/RoomRefines.v ===== *)
(** * The handlers refine the abstract machine

    From a room in its invariant, every handler but [handle_say] returns, and the room
    it leaves is reached by steps of [RoomSpec]. *)

From Stdlib Require Import ZArith Lia Bool.
From stdpp Require Import base tactics list sets gmap strings sorting relations.
From S2P Require Import Prelude PyRandom PyObj Locations Types Multidata Conn Hints Json PyValue Packets Filter Options.
From S2P Require Import DataStore Effects Room RoomOps RoomStore RoomPlay RoomSpec RoomInv RoomWp.

Section refines.
Context `{Json} `{HashOrder} `{HText : !JsonText}.

(** ** Location checks *)

Definition entry_of (slot : Z) (s : Sendable) : LocationEntry :=
  let '(receiver, item, location, flags) := s in mkEntry slot location item receiver flags.

Lemma entry_of_sendable e : entry_of (e_sender e) (sendable e) = e.
Proof. by destruct e. Qed.

Lemma wp_distribute key b l : forall dirty feed scoped r,
  ready (r_data r) ->
  wp (distribute key b l dirty feed scoped) r (fun _ r' =>
    extended r r' (fun team slot remote =>
      if decide (team = key.1) then (entry_of key.2 <$> l) ≫= delivered (r_data r) slot remote else [])).
Proof.
  induction l as [|[[[receiver item] location] flags] l IH]; intros dirty feed scoped r Hr.
  { apply wp_ret. eapply extended_ext; [apply extended_refl|]. intros. by case_decide. }
  destruct key as [team slot]. cbn [distribute fst snd].
  apply wp_bind, wp_read. apply wp_bind, wp_emit. apply wp_bind. cbn [id].
  eapply wp_mono; [apply wp_send_item_to, ready_leaves; done|]. intros [] r1 H1.
  assert (Hd : r_data r1 = r_data r) by (by destruct H1 as (q & -> & _)).
  assert (Hfin : forall r2, extended r1 r2 (fun t s b =>
            if decide (t = team) then (entry_of slot <$> l) ≫= delivered (r_data r1) s b else []) ->
    extended r r2 (fun t s b => if decide (t = team)
      then (entry_of slot <$> ((receiver, item, location, flags) :: l)) ≫= delivered (r_data r) s b else [])).
  { intros r2 H2. eapply extended_ext; [by eapply extended_trans|]. intros t s b0. cbn beta.
    unfold pushed_to. rewrite Hd. by case_decide. }
  destruct (PRINT_JSON_CHUNK <=? length feed)%nat; [apply wp_bind, wp_broadcast|];
    (eapply wp_mono; [apply IH; by rewrite Hd|]); intros [[? ?] ?] r2 H2; by apply Hfin.
Qed.

Lemma split_locations_fresh r key locs loc :
  loc ∈ dedup (merge_sort Z.le (split_locations r key locs).1) <->
  loc ∈ locs /\ contains (locations (r_data r)) key.2 loc = true /\ is_checked r key loc = false.
Proof.
  unfold split_locations. cbn [fst]. rewrite elem_of_dedup, merge_sort_Permutation.
  rewrite !list_elem_of_In, !filter_In, negb_true_iff. tauto.
Qed.

(** The sorted batch, as table entries. *)
Definition batch (r : Room) (slot : Z) (fresh : list Z) : list LocationEntry :=
  entry_of slot <$> merge_sort sendable_le
    (sendable <$> ((fun loc => default inhabitant (get (locations (r_data r)) slot loc)) <$> fresh)).

Lemma batch_perm r slot fresh :
  ready (r_data r) -> (forall loc, loc ∈ fresh -> contains (locations (r_data r)) slot loc = true) ->
  batch r slot fresh ≡ₚ ((fun loc => default inhabitant (get (locations (r_data r)) slot loc)) <$> fresh).
Proof.
  intros Hr Hc. unfold batch. rewrite merge_sort_Permutation, <- !list_fmap_compose.
  apply eq_Permutation. apply fmap_ext_in. intros loc Hl. cbn.
  specialize (Hc loc Hl). apply ready_contains in Hc as [e He]. rewrite He. cbn.
  pose proof (ready_get _ slot loc Hr) as Hg. rewrite He in Hg. destruct Hg as (_ & <- & _).
  apply entry_of_sendable.
Qed.

Lemma batch_locations r slot fresh :
  ready (r_data r) -> (forall loc, loc ∈ fresh -> contains (locations (r_data r)) slot loc = true) ->
  e_location <$> batch r slot fresh ≡ₚ fresh.
Proof.
  intros Hr Hc. rewrite (batch_perm r slot fresh Hr Hc), <- list_fmap_compose.
  apply eq_Permutation. rewrite <- (list_fmap_id fresh) at 2. apply fmap_ext_in.
  intros loc Hl. cbn. specialize (Hc loc Hl). apply ready_contains in Hc as [e He]. rewrite He. cbn.
  pose proof (ready_get _ slot loc Hr) as Hg. rewrite He in Hg. tauto.
Qed.

Lemma fresh_NoDup (l : list Z) : NoDup (dedup (merge_sort Z.le l)).
Proof. apply dedup_sorted_NoDup. apply StronglySorted_merge_sort; apply _. Qed.

Lemma wp_on_changed_hints key r (Q : unit -> Room -> Prop) : Q tt r -> wp (on_changed_hints key) r Q.
Proof.
  intros HQ. unfold on_changed_hints. apply wp_bind, wp_read. cbn [id].
  destruct (r_stored_data_subscriptions r !! hints_key_name key); [|done]. cbn [on_some].
  by destruct (merge_sort Z.le (elements _)).
Qed.

Lemma wp_each_const {A} (l : list A) body r (Q : unit -> Room -> Prop) :
  (forall a (P : unit -> Room -> Prop), P tt r -> wp (body a) r P) -> Q tt r -> wp (each l body) r Q.
Proof.
  intros Hb HQ. eapply wp_mono.
  - apply (wp_each l body r (fun r' => r' = r)); [done|]. intros a r1 _ ->. by apply Hb.
  - intros [] r' ->. done.
Qed.

Lemma wp_recheck_hints key r :
  wp (recheck_hints key) r (fun _ r' => r' = set_hints (recheck (r_hints r) key (is_checked r)).1 r).
Proof.
  unfold recheck_hints. apply wp_bind, wp_read. cbn [id].
  by destruct (recheck (r_hints r) key (is_checked r)).
Qed.

(** The state of a registered batch, in the order the handler writes it. *)
Definition registered (r : Room) (key : SlotKey) (fresh : list Z) (q : gmap QueueKey (list NetworkItem))
    (m : gmap ConnId Client) : Room :=
  let r2 := set_clients m (set_location_checks
      (<[key := checks_of r key ∪ list_to_set fresh]> (r_location_checks r)) (set_received_items q r)) in
  set_hints (recheck (r_hints r) key (is_checked r2)).1 r2.

Lemma registered_step r key fresh q m :
  ready (r_data r) -> NoDup fresh ->
  (forall loc, loc ∈ fresh -> contains (locations (r_data r)) key.2 loc = true /\
                              is_checked r key loc = false) ->
  (forall team slot remote, default [] (q !! (team, slot, remote)) = queue_of r (team, slot, remote) ++
     (if decide (team = key.1) then batch r key.2 fresh ≫= delivered (r_data r) slot remote else [])) ->
  sessions_kept (r_clients r) m ->
  step r (registered r key fresh q m).
Proof.
  intros Hr Hnd Hf Hq Hm.
  assert (Hb : e_location <$> batch r key.2 fresh ≡ₚ fresh).
  { apply batch_locations; [done|]. intros loc Hl. by apply Hf. }
  assert (HE : NoDup (e_location <$> batch r key.2 fresh)) by (by rewrite Hb).
  assert (Hs : list_to_set (e_location <$> batch r key.2 fresh) = (list_to_set fresh : gset Z)).
  { apply leibniz_equiv. intros x. by rewrite !elem_of_list_to_set, Hb. }
  pose proof (StepRegister key (batch r key.2 fresh) q m r HE) as Hstep. rewrite Hs in Hstep.
  apply Hstep; [|done|done]. apply Forall_forall. intros e He.
  assert (Hl : e_location e ∈ fresh) by (rewrite <- Hb; by apply list_elem_of_fmap_2).
  split; [|by apply Hf]. rewrite (batch_perm r key.2 fresh Hr) in He by (intros; by apply Hf).
  apply list_elem_of_fmap in He as (loc & -> & Hloc).
  destruct (Hf loc Hloc) as [Hc _]. apply ready_contains in Hc as [e He]. rewrite He. cbn.
  pose proof (ready_get _ key.2 loc Hr) as Hg. rewrite He in Hg. destruct Hg as (_ & _ & ->). done.
Qed.

(** Afterwards every known location of the batch is checked. *)
Definition covers (r' : Room) (key : SlotKey) (locs : list Z) : Prop :=
  forall loc, loc ∈ locs -> contains (locations (r_data r')) key.2 loc = true ->
    is_checked r' key loc = true.

Lemma wp_register key locs r :
  ready (r_data r) ->
  wp (register_location_checks key locs) r (fun _ r' => rtc step r r' /\ covers r' key locs).
Proof.
  intros Hr. destruct key as [team slot]. unfold register_location_checks.
  apply wp_bind, wp_write. set (r0 := set_location_checks _ r).
  assert (H0s : step r r0) by apply StepTouch.
  apply wp_bind, wp_read. cbn [id]. pose proof (split_locations_fresh r0 (team, slot) locs) as Hfresh.
  destruct (split_locations r0 (team, slot) locs) as [fresh0 repeats]. cbn [fst] in Hfresh.
  pose proof (fresh_NoDup fresh0) as Hnd. apply wp_bind, wp_record.
  destruct (dedup (merge_sort Z.le fresh0)) as [|f0 fs] eqn:Hf.
  { apply wp_done. split; [by apply rtc_once|]. intros loc Hl Hc.
    destruct (is_checked r0 (team, slot) loc) eqn:E; [done|].
    exfalso. apply (not_elem_of_nil loc). by apply Hfresh. }
  set (fresh := f0 :: fs) in *. clearbody fresh. clear Hf f0 fs.
  apply wp_bind, wp_write. set (r1 := set_activity_at _ r0).
  assert (H1s : step r0 r1) by (by apply StepInert).
  assert (Hr1 : ready (r_data r1)) by exact Hr.
  assert (Hf1 : forall loc, loc ∈ fresh -> contains (locations (r_data r1)) slot loc = true /\
                  is_checked r1 (team, slot) loc = false) by (intros loc Hl; by apply Hfresh in Hl as (_ & ? & ?)).
  apply wp_bind. eapply wp_mono.
  { apply (wp_mapM _ (fun loc => default inhabitant (get (locations (r_data r1)) slot loc))).
    intros loc Hl. destruct (Hf1 loc Hl) as [Hc _]. apply ready_contains in Hc as [e He].
    change (r_data r0) with (r_data r1). rewrite He. done. }
  intros found r2 [-> ->]. apply wp_bind.
  eapply wp_mono; [by apply (wp_distribute (team, slot))|].
  intros [[dirty feed] scoped] r2 (q & -> & Hq). cbn [fst snd] in Hq.
  apply wp_bind, wp_when; intros _; [apply wp_broadcast|].
  all: apply wp_bind, wp_each_const; [intros [tgt msgs] P HP; by apply wp_each_const|].
  all: apply wp_bind, wp_write.
  all: apply wp_bind; eapply wp_mono; [apply wp_send_new_items|]; intros [] r3 (m & Hm & ->).
  all: apply wp_bind, wp_read; apply wp_bind, wp_when; intros _; [apply wp_broadcast|].
  all: apply wp_bind; eapply wp_mono; [apply wp_recheck_hints|]; intros changed r4 ->.
  all: apply wp_bind, wp_each_const; [intros k P HP; by apply wp_on_changed_hints|].
  all: apply wp_mark_dirty.
  all: split;
    [ eapply rtc_l; [exact H0s|]; eapply rtc_l; [exact H1s|]; apply rtc_once;
      exact (registered_step r1 (team, slot) fresh q m Hr1 Hnd Hf1 Hq Hm)
    | ].
  all: intros loc Hl Hc; change (is_checked (set_location_checks
         (<[(team, slot) := checks_of r1 (team, slot) ∪ list_to_set fresh]> (r_location_checks r1)) r1)
         (team, slot) loc = true); rewrite is_checked_register;
       change (is_checked r1 (team, slot) loc) with (is_checked r0 (team, slot) loc);
       destruct (is_checked r0 (team, slot) loc) eqn:E; [done|];
       apply bool_decide_eq_true; split; [done|]; by apply Hfresh.
Qed.
(** ** Runs: sequences of steps *)

Definition runs {A} (m : M A) (r : Room) : Prop := wp m r (fun _ r' => rtc step r r').

Lemma runs_seq {A B} (m : M A) (k : A -> M B) r :
  runs m r -> (forall a r1, rtc step r r1 -> runs (k a) r1) -> runs (m ≫= k) r.
Proof.
  intros Hm Hk. apply wp_bind. eapply wp_mono; [exact Hm|]. intros a r1 H1.
  eapply wp_mono; [by apply Hk|]. intros b r2 H2. eapply rtc_trans; [exact H1|exact H2].
Qed.

(** A first part that keeps the room, then the rest. *)
Lemma runs_keep {A B} (m : M A) (k : A -> M B) r (P : A -> Prop) :
  wp m r (fun a r' => r' = r /\ P a) -> (forall a, P a -> runs (k a) r) -> runs (m ≫= k) r.
Proof.
  intros Hm Hk. apply wp_bind. eapply wp_mono; [exact Hm|]. intros a r1 [-> Ha]. by apply Hk.
Qed.

Lemma runs_stay {A} (m : M A) r : wp m r (fun _ r' => r' = r) -> runs m r.
Proof. intros Hm. eapply wp_mono; [exact Hm|]. by intros a r' ->. Qed.

Lemma runs_after {A} r r1 (m : M A) :
  rtc step r r1 -> runs m r1 -> wp m r1 (fun _ r' => rtc step r r').
Proof.
  intros Hs Hm. eapply wp_mono; [exact Hm|]. intros a r2 H2. eapply rtc_trans; [exact Hs|exact H2].
Qed.

Lemma runs_done r : runs done_ r.
Proof. by apply runs_stay. Qed.

Lemma runs_each {A} (l : list A) body r :
  (forall a r1, a ∈ l -> rtc step r r1 -> runs (body a) r1) -> runs (each l body) r.
Proof.
  intros Hb. apply wp_each; [done|]. intros a r1 Ha H1. eapply wp_mono; [by apply Hb|].
  intros [] r2 H2. eapply rtc_trans; [exact H1|exact H2].
Qed.

Lemma runs_when b m r : (b = true -> runs m r) -> runs (when b m) r.
Proof. intros Hm. apply wp_when; [done|]. by intros _. Qed.

Lemma runs_on_some {A} (o : option A) k r : (forall a, o = Some a -> runs (k a) r) -> runs (on_some o k) r.
Proof. intros Hk. apply wp_on_some; [done|]. by intros _. Qed.

Lemma runs_write f r : step r (f r) -> runs (write f) r.
Proof. intros Hs. apply wp_write. by apply rtc_once. Qed.

Lemma runs_read {A B} (f : Room -> A) (k : A -> M B) r : runs (k (f r)) r -> runs (read f ≫= k) r.
Proof. intros Hk. apply wp_bind, wp_read, Hk. Qed.

(** Emitting leaves the room alone. *)
Lemma runs_emit {B} e (k : unit -> M B) r : runs (k tt) r -> runs (emit e ≫= k) r.
Proof. intros Hk. apply wp_bind, wp_emit, Hk. Qed.

Lemma runs_emit_last e r : runs (emit e) r.
Proof. by apply runs_stay. Qed.

Lemma runs_clients (m : M unit) r : wp m r (fun _ r' => only_clients r r') -> runs m r.
Proof. intros Hm. eapply wp_mono; [exact Hm|]. intros [] r' Hr. by apply only_clients_step. Qed.

Lemma steps_ready r r' : rtc step r r' -> ready (r_data r) -> ready (r_data r').
Proof. intros Hs Hr. by rewrite (steps_data _ _ Hs). Qed.

Lemma runs_register key locs r : ready (r_data r) -> runs (register_location_checks key locs) r.
Proof. intros Hr. eapply wp_mono; [by apply wp_register|]. by intros [] r' [Hs _]. Qed.

Lemma runs_update_checked key r : runs (update_checked_locations key) r.
Proof. apply runs_read, runs_emit_last. Qed.

Lemma runs_on_changed_hints key r : runs (on_changed_hints key) r.
Proof. apply runs_stay. by apply wp_on_changed_hints. Qed.

Lemma runs_on_new_hint key r : runs (on_new_hint key) r.
Proof.
  apply runs_seq; [apply runs_on_changed_hints|]. intros [] r1 _. apply runs_read, runs_emit_last.
Qed.

(** ** Sessions *)

Lemma runs_on_connect conn feed r : r_clients r !! conn = None -> runs (on_connect_with_feed conn feed) r.
Proof.
  intros Hc. apply runs_seq; [apply runs_write; by apply StepOpen|].
  intros [] r1 _. apply runs_read, runs_emit_last.
Qed.

Lemma status_reset_step r key :
  rtc step r (set_client_game_state
    (<[key := match r_client_game_state r !! key with
              | Some ClientStatus.Goal => ClientStatus.Goal
              | _ => ClientStatus.Unknown
              end]> (r_client_game_state r)) r).
Proof.
  destruct (decide (client_state r key = ClientStatus.Goal)) as [Hg|Hg].
  - unfold client_state in Hg.
    destruct (r_client_game_state r !! key) as [[]|] eqn:E; try done.
    rewrite insert_id by done. by destruct r.
  - apply rtc_once. by apply StepStatus.
Qed.

Lemma runs_on_disconnect conn reason r : runs (on_disconnect conn reason) r.
Proof.
  unfold on_disconnect. apply runs_seq.
  { apply runs_write. case_decide; by apply StepInert. }
  intros [] r1 _. apply runs_read. apply runs_on_some. intros c Hc.
  pose proof (StepClose conn c r1 Hc) as Hs.
  apply wp_bind, wp_write. destruct (c_auth c) eqn:Ha; cbn [negb].
  2: { apply wp_done. apply rtc_once. exact Hs. }
  apply wp_bind, wp_write. set (r2 := retain_conn _ _ _).
  apply (runs_after r1 r2); [by apply rtc_once|].
  apply runs_seq; [apply runs_write; by apply StepInert|]. intros [] r3 _.
  apply runs_seq; [|intros [] r4 _; by apply runs_stay].
  apply wp_write. destruct (slot_empty r3 _); [apply status_reset_step|done].
Qed.
(** ** Connect *)

Lemma wp_modify_client_eq conn f c r (Q : unit -> Room -> Prop) :
  r_clients r !! conn = Some c -> Q tt (set_clients (<[conn := f c]> (r_clients r)) r) ->
  wp (modify_client conn f) r Q.
Proof. intros Hc HQ. unfold modify_client. apply wp_write. by rewrite Hc. Qed.

(** The login step's room. *)
Definition logged_in (r : Room) (conn : ConnId) (c c' : Client) : Room :=
  let bs := if c_auth c then without (session_key c) conn (r_by_slot r) else r_by_slot r in
  set_by_slot (<[session_key c' := default [] (bs !! session_key c') ++ [conn]]> bs)
    (set_clients (<[conn := c']> (r_clients r)) r).

(** Its time stamp and first status. *)
Definition stamped (key : SlotKey) (r : Room) : Room :=
  let r := set_connected_at (<[key := r_clock r]> (r_connected_at r)) r in
  match r_client_game_state r !! key with
  | Some _ => r
  | None => set_client_game_state (<[key := ClientStatus.Connected]> (r_client_game_state r)) r
  end.

Lemma stamped_steps key r : rtc step r (stamped key r).
Proof.
  eapply rtc_l; [by apply (StepInert r (set_connected_at (<[key := r_clock r]> (r_connected_at r)) r))|].
  unfold stamped. cbn zeta. destruct (r_client_game_state _ !! key) eqn:E; [done|].
  apply rtc_once. apply StepStatus. unfold client_state. by rewrite E.
Qed.

Lemma stamped_clients key r m : set_clients m (stamped key r) = stamped key (set_clients m r).
Proof. unfold stamped. cbn. by destruct (r_client_game_state r !! key). Qed.

Lemma stamped_lookup key r : r_clients (stamped key r) = r_clients r.
Proof. unfold stamped. cbn. by destruct (r_client_game_state r !! key). Qed.

Lemma wp_announce_join conn r c (Q : unit -> Room -> Prop) :
  r_clients r !! conn = Some c -> Q tt r -> wp (announce_join conn) r Q.
Proof.
  intros Hc HQ. unfold announce_join. apply wp_bind, wp_read. cbn [id]. rewrite Hc.
  apply wp_bind. by apply (wp_expect _ c).
Qed.

Lemma client_send_index_id c : client_set_send_index (c_send_index c) c = c.
Proof. by destruct c. Qed.

Lemma client_auth_id c : c_auth c = true -> client_set_auth true c = c.
Proof. destruct c. cbn. by intros ->. Qed.

(** The item counter moves only when something was sent. *)
Lemma wp_count_items {A} conn (items : list A) client r :
  r_clients r !! conn = Some client ->
  wp match items with
     | [] => done_
     | _ => modify_client conn (client_set_send_index (length items))
     end r
    (fun _ r' => exists n, r' = set_clients (<[conn := client_set_send_index n client]> (r_clients r)) r).
Proof.
  intros Hc. destruct items as [|x items].
  - apply wp_done. exists (c_send_index client). rewrite client_send_index_id, insert_id by done.
    by rewrite set_clients_id.
  - eapply wp_modify_client_eq; [exact Hc|]. by eexists.
Qed.

Lemma wp_set_auth conn (b : bool) (m : M unit) client r :
  r_clients r !! conn = Some client -> (b = false -> c_auth client = true) ->
  (forall r', wp m r' (fun _ r2 => r2 = r')) ->
  wp (when b (_ ← modify_client conn (client_set_auth true); m)) r
    (fun _ r' => r' = set_clients (<[conn := client_set_auth true client]> (r_clients r)) r).
Proof.
  intros Hc Hb Hm. destruct b; cbn [when].
  - apply wp_bind. eapply wp_modify_client_eq; [exact Hc|]. apply Hm.
  - apply wp_done. rewrite client_auth_id, insert_id by auto. by rewrite set_clients_id.
Qed.

(** The client an accepted connection ends with: what it asked for, logged in. *)
Definition accepted_client (c c' : Client) (args : ConnectArgs) (team slot : Z) (h : ItemsHandling.t)
    : Prop :=
  exists n, c' = client_set_auth true
    (client_set_send_index n (client_login team slot (co_version args) h (co_tags args) c)).

Lemma wp_connect_accepted conn args team slot h r c :
  r_clients r !! conn = Some c ->
  wp (connect_accepted conn args team slot h) r (fun _ r' => exists c',
    accepted_client c c' args team slot h /\ r' = stamped (team, slot) (logged_in r conn c c')).
Proof.
  intros Hc. unfold connect_accepted.
  apply wp_bind, wp_read, wp_bind, (wp_expect _ c); [done|].
  set (moved := c_auth c && _).
  set (client0 := client_login team slot (co_version args) h (co_tags args) c).
  set (client := if moved then client_set_auth false client0 else client0).
  assert (Hcl : forall n, client_set_auth true (client_set_send_index n client)
                  = client_set_auth true (client_set_send_index n client0)).
  { intros n. unfold client. by destruct moved. }
  set (r1 := if c_auth c then retain_conn (c_team c, c_slot c) conn r else r).
  apply wp_bind. apply (wp_mono _ _ (fun _ r' => r' = r1)).
  { unfold r1. by destruct (c_auth c). }
  intros [] _r ->. apply wp_bind, wp_write, wp_bind, wp_write, wp_bind, wp_write, wp_bind, wp_write.
  set (r2 := set_by_slot _ _).
  change (match r_client_game_state _ !! _ with Some _ => _ | None => _ end) with (stamped (team, slot) r2).
  apply wp_bind, wp_read. cbn [id]. set (items := if ItemsHandling.no_items h then _ else _).
  assert (Hr2 : r_clients (stamped (team, slot) r2) !! conn = Some client).
  { rewrite stamped_lookup. cbn. by rewrite lookup_insert_eq. }
  apply wp_bind. eapply wp_mono; [by apply (wp_count_items conn items client)|].
  intros [] _r (n & ->). apply wp_bind. eapply wp_mono.
  { apply (wp_set_auth _ _ _ (client_set_send_index n client)).
    - cbn. by rewrite lookup_insert_eq.
    - by intros Ha%negb_false_iff.
    - intros r'. apply wp_bind, wp_emit. by apply wp_push_filter. }
  intros [] _r ->. cbn [r_clients set_clients]. rewrite insert_insert_eq, Hcl.
  set (c' := client_set_auth true (client_set_send_index n client0)).
  set (r3 := set_clients _ (set_clients _ _)).
  assert (Hfin : r3 = stamped (team, slot) (logged_in r conn c c')).
  { unfold r3. change (set_clients ?a (set_clients ?b ?x)) with (set_clients a x).
    rewrite stamped_lookup, stamped_clients. f_equal.
    unfold r2, r1, logged_in, c'. cbn. rewrite insert_insert_eq. by destruct (c_auth c). }
  assert (Hc3 : r_clients r3 !! conn = Some c') by (cbn; by rewrite lookup_insert_eq).
  apply wp_bind, wp_send. apply wp_when; intros _.
  - eapply wp_announce_join; [exact Hc3|]. exists c'. split; [by exists n|done].
  - exists c'. split; [by exists n|done].
Qed.

Lemma logged_in_step r conn c c' args team slot h :
  r_clients r !! conn = Some c -> c_id c = conn -> accepted_client c c' args team slot h ->
  step r (logged_in r conn c c').
Proof. intros Hc Hid (n & ->). by apply StepLogin. Qed.

Lemma runs_handle_connect conn args r c :
  sessions_ok r -> r_clients r !! conn = Some c -> runs (handle_connect conn args) r.
Proof.
  intros Hok Hc. unfold handle_connect. destruct (_ || _); [by apply runs_stay|].
  apply runs_read. cbn [id]. destruct (connect_errors r args) as [|e es] eqn:He; [|by apply runs_stay].
  destruct (name ← as_ok (co_name args); connect_names (r_data r) !! name) as [[team slot]|] eqn:Hn.
  - apply wp_bind, (wp_expect _ (team, slot)); [done|].
    eapply wp_mono; [by apply (wp_connect_accepted _ _ _ _ _ _ c)|].
    intros [] r' (c' & Ha & ->). eapply rtc_l; [|apply stamped_steps].
    eapply logged_in_step; [done| |done]. by apply Hok.
  - exfalso. unfold connect_errors in He. rewrite Hn in He.
    apply app_eq_nil in He as [_ He]. by apply app_eq_nil in He as [He _].
Qed.
(** ** Updates, subscriptions, bounces *)

Lemma runs_handle_connect_update conn args r : runs (handle_connect_update conn args) r.
Proof.
  unfold handle_connect_update. apply runs_read. apply runs_on_some. intros c Hc.
  apply (runs_clients). apply wp_bind. apply (wp_mono _ _ (fun _ r' => only_clients r r')).
  { destruct (update_bits _) as [bits|]; [|apply wp_ret, only_clients_refl].
    destruct (b ← bits; ItemsHandling.new b) as [h|].
    - case_decide; [apply wp_ret, only_clients_refl|]. apply wp_bind.
      eapply wp_mono; [by apply wp_modify_client|]. by intros [] r1 Hoc.
    - apply wp_bind, wp_send, wp_ret, only_clients_refl. }
  intros resend r1 H1.
  assert (Hreg : is_Some (r_clients r1 !! conn)).
  { destruct H1 as (m & Hm & ->). cbn. destruct (sessions_kept_lookup _ _ _ _ Hm Hc) as (c1 & -> & _). done. }
  apply wp_on_some; [|done]. intros b _. apply wp_bind.
  apply (wp_mono _ _ (fun _ r2 => only_clients r r2 /\ is_Some (r_clients r2 !! conn))).
  { apply wp_on_some; [|done]. intros tags _. destruct Hreg as [c1 Hc1].
    eapply wp_modify_client_eq; [exact Hc1|]. split; [|cbn; by rewrite lookup_insert_eq].
    eapply only_clients_trans; [exact H1|]. eexists. split; [|done]. by eapply sessions_kept_insert. }
  intros [] r2 [H2 [c2 Hc2]]. apply wp_bind.
  apply (wp_mono _ _ (fun _ r3 => r3 = r2)).
  { apply wp_on_some; [|done]. intros tags _. case_decide; [done|]. apply wp_bind, wp_read, wp_bind, wp_journal.
    unfold announce_tags_changed. apply wp_bind, wp_read. cbn [id]. rewrite Hc2.
    by apply wp_bind, (wp_expect _ c2). }
  intros [] r3 ->. apply wp_when; intros _; [|done].
  eapply wp_mono; [apply wp_resend_all_items|]. intros [] r3 H3. by eapply only_clients_trans.
Qed.

Lemma runs_handle_set_notify conn keys r : runs (handle_set_notify conn keys) r.
Proof.
  unfold handle_set_notify. destruct (as_ok keys) as [l|]; [|by apply runs_stay].
  apply runs_each. intros key r1 _ _. apply runs_write. by apply StepInert.
Qed.

Lemma runs_handle_bounce conn args raw r : runs (handle_bounce conn args raw) r.
Proof.
  apply runs_stay. unfold handle_bounce. apply wp_bind, wp_read. apply wp_on_some; [|done].
  intros c _. destruct (bounce_malformed args); [done|].
  destruct (merge_sort Z.le _) as [|t ts]; [done|].
  apply wp_bind. destruct (List.find _ LINKS) as [[[? ?] ?]|]; done.
Qed.

(** ** Hints *)

Lemma hints_find_in s key finder loc h : hints_find s key finder loc = Some h -> h ∈ hints_get s key.
Proof. intros Hf. apply List.find_some in Hf as [Hin _]. by apply list_elem_of_In. Qed.

(** A hint the room builds is true at the moment it is built. *)
Lemma build_hint_truthful r key e st checked :
  hints_truthful r -> (forall s loc, checked s loc = is_checked r (key.1, s) loc) ->
  truthful (is_checked r) key.1 (build_hint (r_data r) (r_hints r) key e st checked).
Proof.
  intros [_ Ht] Hc. unfold build_hint. destruct (hints_find _ _ _ _) as [h|] eqn:Hf.
  - apply Ht. by eapply hints_find_in.
  - split; cbn; rewrite Hc; [done|]. by intros ->.
Qed.

Lemma collect_truthful r key slot location st :
  hints_truthful r -> Forall (truthful (is_checked r) key.1) (collect_location_hints r key slot location st).
Proof.
  intros Ht. unfold collect_location_hints, collect_for_location.
  destruct (get _ _ _); constructor; [|constructor]. by apply build_hint_truthful.
Qed.

Definition same_checks (r r' : Room) : Prop :=
  r_location_checks r' = r_location_checks r /\ r_data r' = r_data r.

Lemma truthful_same r r' team h :
  same_checks r r' -> truthful (is_checked r) team h -> truthful (is_checked r') team h.
Proof.
  intros [Hc _]. apply truthful_ext. intros. symmetry. by apply is_checked_other.
Qed.

(** Banking one hint is a run of insertions. *)
Lemma bank_hint_steps r team h events :
  truthful (is_checked r) team h ->
  rtc step r (set_hints (bank_hint r team h events).1 r).
Proof.
  intros Ht. unfold bank_hint. destruct (hints_contains _ _ _).
  { cbn. assert (set_hints (r_hints r) r = r) as -> by (by destruct r). done. }
  assert (Hgen : forall l s ev r0, rtc step r0 (set_hints s r0) -> same_checks r r0 ->
    rtc step r0 (set_hints (fold_left (fun (se : HintStore * gset Z) player =>
        ((upsert se.1 (team, player) h).1, se.2 ∪ {[player]})) l (s, ev)).1 r0)).
  { induction l as [|p l IH]; intros s ev r0 Hs Hr0; [done|]. cbn [fold_left fst snd]. apply IH; [|done].
    eapply rtc_r; [exact Hs|].
    apply (StepUpsert (team, p) h (set_hints s r0)). cbn [fst]. by eapply truthful_same. }
  apply Hgen; [|done]. apply rtc_once. by apply (StepUpsert (team, finding_player h) h r).
Qed.

(** Every index recorded is one of the list's. *)
Definition indexes_below (n : nat) (m : gmap Z (list nat)) : Prop :=
  forall slot l, m !! slot = Some l -> Forall (fun i => (i < n)%nat) l.

Lemma concern_below n player index m :
  (index < n)%nat -> indexes_below n m -> indexes_below n (concern player index m).
Proof.
  intros Hi Hm slot k. unfold concern. rewrite lookup_insert_Some. intros [[<- <-]|[_ Hs]].
  - apply Forall_app. split; [|by repeat constructor]. destruct (m !! player) eqn:E; [by eapply Hm|constructor].
  - by eapply Hm.
Qed.

Lemma concern_hint_below n r index h m :
  (index < n)%nat -> indexes_below n m -> indexes_below n (concern_hint r index h m).
Proof.
  intros Hi Hm. unfold concern_hint.
  assert (Hf : forall l m, indexes_below n m ->
    indexes_below n (fold_left (fun m player => concern player index m) l m)).
  { induction l as [|p l IH]; intros m0 Hm0; [done|]. apply IH. by apply concern_below. }
  specialize (Hf (slot_set r (receiving_player h)) m Hm). revert Hf. generalize (fold_left
    (fun m player => concern player index m) (slot_set r (receiving_player h)) m). intros m1 Hm1.
  destruct (negb _); [|done]. destruct (existsb _ _); [done|]. by apply concern_below.
Qed.

Lemma wp_bank_hints team persist l : forall index concerns events r n,
  Forall (truthful (is_checked r) team) l ->
  (index + length l = n)%nat -> indexes_below n concerns ->
  wp (bank_hints team persist index l concerns events) r (fun x r' =>
    rtc step r r' /\ same_checks r r' /\ indexes_below n x.1).
Proof.
  induction l as [|h l IH]; intros index concerns events r n Hl Hn Hb; [done|].
  apply Forall_cons in Hl as [Hh Hl]. cbn [length] in Hn.
  cbn [bank_hints]. apply wp_bind, wp_read. cbn [id].
  assert (Hb' : indexes_below n (concern_hint r index h concerns)) by (apply concern_hint_below; [lia|done]).
  destruct (_ || _); [|apply IH; [done|lia|done]].
  pose proof (bank_hint_steps r team h events Hh) as Hs.
  destruct (bank_hint r team h events) as [s ev]. cbn [fst] in Hs.
  apply wp_bind, wp_write. eapply wp_mono.
  { apply (IH _ _ _ _ n); [|lia|done]. eapply Forall_impl; [exact Hl|]. intros x. by apply truthful_same. }
  intros [cs evs] r' (Hr' & Hc & Hi). split; [|by split]. eapply rtc_trans; [exact Hs|exact Hr'].
Qed.

Lemma Forall_filter_list {A} (P : A -> Prop) (f : A -> bool) l : Forall P l -> Forall P (List.filter f l).
Proof.
  rewrite !Forall_forall. intros Hl x Hx. apply Hl. apply list_elem_of_In in Hx.
  apply filter_In in Hx as [Hx _]. by apply list_elem_of_In.
Qed.

Lemma runs_notify_hints team hints only_new persist recips r :
  Forall (truthful (is_checked r) team) hints -> runs (notify_hints team hints only_new persist recips) r.
Proof.
  intros Ht. unfold notify_hints. apply runs_read. cbn [id].
  set (hints' := if only_new then _ else hints).
  assert (Ht' : Forall (truthful (is_checked r) team) hints').
  { unfold hints'. destruct only_new; [by apply Forall_filter_list|done]. }
  destruct hints' as [|h hs]; [by apply runs_stay|].
  set (sorted := stable_sort _ _).
  assert (Hs : Forall (truthful (is_checked r) team) sorted).
  { unfold sorted. by rewrite stable_sort_perm. }
  apply wp_bind. eapply wp_mono; [by apply (wp_bank_hints _ _ _ _ _ _ _ (length sorted))|].
  intros [concerns events] r1 (Hr1 & _ & Hb). cbn [fst] in Hb. apply (runs_after r r1); [done|].
  apply runs_seq; [apply runs_when; intros _; apply runs_emit_last|]. intros [] r2 _.
  apply runs_seq; [apply runs_each; intros; apply runs_on_new_hint|]. intros [] r3 _.
  apply runs_seq; [|intros [] r4 _; by apply runs_stay].
  apply runs_each. intros [slot indexes] r4 Hin _. apply elem_of_btree_items in Hin.
  apply runs_read. cbn [id]. destruct (match recips with Some l => _ | None => _ end); [by apply runs_stay|].
  destruct (slot_empty r4 _); [by apply runs_stay|]. apply runs_stay.
  apply wp_bind. eapply wp_mono;
    [apply (wp_mapM _ (fun i => default (hint_message h) (hint_message <$> sorted !! i)))
    |by intros msgs r5 [_ ->]].
  intros i Hi. rewrite stable_sort_perm in Hi. specialize (Hb slot indexes Hin).
  rewrite Forall_forall in Hb. specialize (Hb i Hi). apply lookup_lt_is_Some in Hb as [x Hx].
  rewrite Hx. by apply wp_bind, (wp_expect _ x).
Qed.
Lemma Forall_bind_app {A} (P : A -> Prop) l k : Forall P l -> Forall P k -> Forall P (l ++ k).
Proof. intros. by apply Forall_app. Qed.

Lemma runs_record key kind n r : runs (record_redundant key kind n) r.
Proof. apply runs_stay. by apply wp_record. Qed.

Lemma runs_handle_location_scouts conn args r :
  hints_truthful r -> runs (handle_location_scouts conn args) r.
Proof.
  intros Ht. unfold handle_location_scouts. apply runs_read. cbn [id]. apply runs_on_some. intros c _.
  set (team := c_team c). set (slot := c_slot c).
  apply wp_bind. eapply wp_mono.
  { apply (wp_each_until _ _ _ r (fun s => Forall (truthful (is_checked r) team) s.2)); [constructor|].
    intros [locs hints] raw _ Hh. cbn [snd] in Hh. destruct (as_int raw) as [location|]; [|done].
    destruct (get _ _ _) as [entry|]; [|done]. apply wp_ret. split; [done|]. cbn [snd].
    destruct (negb _); [|done]. apply Forall_bind_app; [done|]. by apply (collect_truthful r (team, slot)). }
  intros [[locs hints]|[]] r1 [-> Hh]; [|apply runs_done]. cbn [snd] in Hh.
  apply runs_emit. apply runs_seq; [by apply runs_notify_hints|]. intros repeats r1 _.
  apply runs_seq; [apply runs_record|]. intros [] r2 _. apply runs_when. intros _. apply runs_emit_last.
Qed.

Lemma runs_handle_create_hints conn args r :
  hints_truthful r -> runs (handle_create_hints conn args) r.
Proof.
  intros Ht. unfold handle_create_hints. apply runs_read. cbn [id]. apply runs_on_some. intros c _.
  set (team := c_team c). set (slot := c_slot c). set (lp := default slot (ch_player args)).
  destruct (ch_locations args) as [|raw0 raws] eqn:Hraws; [by apply runs_stay|]. rewrite <- Hraws.
  destruct (create_status (ch_status args)) as [st|text]; [|by apply runs_stay].
  apply wp_bind. eapply wp_mono.
  { apply (wp_each_until _ _ _ r (fun s => Forall (truthful (is_checked r) team) s)); [constructor|].
    intros hints raw _ Hh. destruct (create_location _ _ _ _ _) as [location|[text|text]]; [|done..].
    apply wp_ret. split; [done|]. apply Forall_bind_app; [done|]. by apply (collect_truthful r (team, lp)). }
  intros [hints|[]] r1 [-> Hh]; [|apply runs_done].
  apply runs_seq; [by apply runs_notify_hints|]. intros repeats r1 _.
  apply runs_seq; [apply runs_record|]. intros [] r2 _. apply runs_emit_last.
Qed.

Lemma runs_handle_update_hint conn args r : runs (handle_update_hint conn args) r.
Proof.
  unfold handle_update_hint. apply runs_read. cbn [id]. apply runs_on_some. intros c _.
  destruct (uh_player args) as [| |player]; [by apply runs_stay..|].
  destruct (uh_location args) as [| |location]; [by apply runs_stay..|].
  destruct (uh_status args) as [| |st]; [by apply runs_stay..|].
  apply runs_on_some. intros hint _. destruct (negb _); [by apply runs_stay|].
  apply runs_on_some. intros raw _. destruct (HintStatus.from_wire raw) as [s|]; [|by apply runs_stay].
  case_decide as Hs; [by apply runs_stay|]. case_decide; [by apply runs_stay|].
  apply runs_seq; [apply runs_each; intros; apply runs_write; by apply StepReprioritize|].
  intros [] r1 _. apply runs_emit. apply runs_each. intros. apply runs_on_changed_hints.
Qed.

(** ** Releases, collects, goals *)

Lemma runs_release key trigger r : ready (r_data r) -> runs (release_player key trigger) r.
Proof.
  intros Hr. unfold release_player. apply runs_read, runs_emit, runs_emit.
  apply runs_seq; [by apply runs_register|]. intros [] r1 _. apply runs_update_checked.
Qed.

Lemma runs_collect_body key trigger r : ready (r_data r) -> runs (collect_body key trigger) r.
Proof.
  intros Hr. unfold collect_body. apply runs_read. destruct key as [team slot]. apply runs_emit, runs_emit.
  apply runs_each. intros [source locs] r1 _ H1. apply runs_seq.
  - apply runs_register. by eapply steps_ready.
  - intros [] r2 _. apply runs_update_checked.
Qed.

(** The groups a collect completes. *)
Lemma runs_collect_groups key (is_group : bool) r :
  ready (r_data r) ->
  runs (if is_group then done_
        else
          r ← read id;
          each (groups_with r key.2) (fun gm =>
            let '(group, members) := gm in
            _ ← write (fun r => set_group_collected
                  (<[group := default ∅ (r_group_collected r !! group) ∪ {[key.2]}]> (r_group_collected r)) r);
            r ← read id;
            if forallb (fun m => bool_decide (m ∈ (default ∅ (r_group_collected r !! group) : gset Z))) members
            then collect_body (key.1, group) TGroup
            else done_)) r.
Proof.
  intros Hr. destruct is_group; [apply runs_done|]. apply runs_read. apply runs_each.
  intros [group ms] r2 _ H2. apply runs_seq; [apply runs_write; by apply StepInert|].
  intros [] r3 H3. apply runs_read. destruct (forallb _ _); [|apply runs_done].
  apply runs_collect_body. eapply steps_ready; [|exact Hr]. by eapply rtc_trans.
Qed.

Lemma runs_collect_inner key is_group trigger r :
  ready (r_data r) -> runs (collect_inner key is_group trigger) r.
Proof.
  intros Hr. unfold collect_inner. apply runs_seq; [by apply runs_collect_body|]. intros [] r1 H1.
  apply runs_collect_groups. by eapply steps_ready.
Qed.

Lemma runs_on_goal_achieved key r : ready (r_data r) -> runs (on_goal_achieved key) r.
Proof.
  intros Hr. unfold on_goal_achieved. apply runs_read, runs_emit. apply runs_seq.
  - apply runs_when. intros _. by apply runs_collect_inner.
  - intros [] r1 H1. apply runs_read. apply runs_when. intros _. apply runs_release.
    by eapply steps_ready.
Qed.

Lemma runs_room_set_status key st r : ready (r_data r) -> runs (room_set_status key st) r.
Proof.
  intros Hr. unfold room_set_status. apply runs_read. cbn [id]. case_decide as Hg; [apply runs_done|].
  apply runs_seq; [apply runs_write; by constructor|]. intros [] r1 H1. apply runs_emit.
  apply runs_when. intros _. apply runs_emit. apply runs_seq.
  - apply runs_on_goal_achieved. by eapply steps_ready.
  - intros [] r2 _. apply runs_read. apply runs_when. intros _. apply runs_emit_last.
Qed.

Lemma runs_handle_status_update conn st r : ready (r_data r) -> runs (handle_status_update conn st) r.
Proof.
  intros Hr. unfold handle_status_update. apply runs_read. apply runs_on_some. intros c _.
  destruct (_ && _); [by apply runs_stay|]. destruct (ClientStatus.from_wire st); [|by apply runs_stay].
  by apply runs_room_set_status.
Qed.

Lemma runs_handle_location_checks conn l r : ready (r_data r) -> runs (handle_location_checks conn l) r.
Proof.
  intros Hr. unfold handle_location_checks. apply runs_read. apply runs_on_some. intros c _.
  destruct (c_no_locations c); [by apply runs_stay|]. by apply runs_register.
Qed.

(** ** The rest *)

Lemma runs_filters_from_slot key k labels r : runs (filters_from_slot key k labels) r.
Proof.
  unfold filters_from_slot. apply runs_read. cbn [id]. destruct (filter_for r key) as [f|]; [|by apply runs_stay].
  destruct (drops _ _ _ _ _ _) as [dropped s]. apply runs_seq; [apply runs_write; by apply StepInert|].
  intros [] r1 _. apply runs_seq; [|intros [] r2 _; by apply runs_stay].
  apply runs_when. intros _. apply runs_emit_last.
Qed.

Lemma runs_set_filter slot f r : runs (set_filter slot f) r.
Proof.
  unfold set_filter. apply runs_seq; [apply runs_write; by apply StepInert|]. intros [] r1 _.
  apply runs_read. apply runs_each. intros conn r2 _ _. apply runs_stay. by apply wp_push_filter.
Qed.

Lemma runs_start_countdown seconds now r : runs (start_countdown seconds now) r.
Proof.
  unfold start_countdown. apply runs_emit, runs_read. destruct (r_countdown r) as [c|].
  - apply runs_write. by apply StepInert.
  - destruct (0 <? seconds); [|apply runs_emit_last]. apply runs_emit. apply runs_write. by apply StepInert.
Qed.

(** The fuel of the countdown is enough: each round lowers what is left. *)
Lemma runs_tick_loop fuel now : forall r,
  (tick_fuel (r_countdown r) <= fuel)%nat -> runs (tick_loop fuel now) r.
Proof.
  induction fuel as [|fuel IH]; intros r Hf.
  { unfold tick_fuel in Hf. destruct (r_countdown r); lia. }
  cbn [tick_loop]. apply runs_read. apply runs_on_some. intros c Hc. rewrite Hc in Hf. cbn [tick_fuel] in Hf.
  destruct (f64_ltb now (next_at c)); [apply runs_done|].
  destruct (Z.ltb_spec 0 (remaining c)); apply runs_emit; apply wp_bind, wp_write;
    (eapply runs_after; [apply rtc_once; by apply StepInert|]); apply IH; cbn; lia.
Qed.

Lemma runs_tick now r : runs (tick now) r.
Proof.
  unfold tick. apply runs_seq; [apply runs_write; by apply StepInert|]. intros [] r1 _.
  apply runs_read. by apply runs_tick_loop.
Qed.

Lemma runs_shutdown r : runs shutdown r.
Proof.
  unfold shutdown. apply runs_emit, runs_read. apply wp_bind, wp_each_const; [done|].
  apply wp_bind, wp_write, wp_write. apply rtc_once, StepCloseAll.
Qed.

(** ** The data store *)

Lemma runs_handle_get conn keys raw r : runs (handle_get conn keys raw) r.
Proof.
  unfold handle_get. destruct (as_ok keys) as [l|]; [|apply runs_emit_last].
  destruct (mapM v_as_str l) as [ks|]; [|apply runs_emit_last]. apply runs_read, runs_emit_last.
Qed.

Lemma runs_store_value conn key want raw original value r :
  runs (store_value conn key want raw original value) r.
Proof.
  unfold store_value. apply runs_seq; [apply runs_write; by apply StepInert|]. intros [] r1 _.
  apply runs_seq; [apply runs_write; by apply StepInert|]. intros [] r2 _. apply runs_emit, runs_read.
  destruct (set_targets _ _ _ _); [apply runs_done|apply runs_emit_last].
Qed.

Lemma runs_handle_set conn args raw r : runs (handle_set conn args raw) r.
Proof.
  unfold handle_set. destruct (st_key args) as [| |key].
  - apply runs_emit_last.
  - destruct (as_ok _); apply runs_emit_last.
  - destruct (as_ok (st_operations args)) as [entries|]; [|apply runs_emit_last].
    destruct (starts_with _ _); [apply runs_emit_last|].
    destruct (mapM parse_operation entries) as [ops|]; [|apply runs_emit_last]. apply runs_read.
    destruct (apply_all _ _) as [v|[i e]]; [apply runs_store_value|apply runs_emit_last].
Qed.

Lemma runs_handle_get_datapackage conn wanted excluded r :
  runs (handle_get_datapackage conn wanted excluded) r.
Proof. apply runs_read, runs_emit_last. Qed.

End refines.
