(* ===== verification/SayRefines.v ===== *)
(** * The chat commands refine the abstract machine

    Every command of [handle_say] returns, and the room it leaves is reached by
    steps of [RoomSpec]; only a command that draws from the generator can be
    unlucky.  With them, every packet. *)

From Stdlib Require Import ZArith Lia Bool.
From stdpp Require Import base tactics list sets gmap strings sorting relations.
From S2P Require Import Prelude PyRandom PyObj Locations Types Datapackage Multidata Conn Hints Json PyValue.
From S2P Require Import Packets Text Fuzzy Filter Options Effects Room RoomOps RoomStore RoomPlay Commands ServerCommands.
From S2P Require Import Say RoomSpec RoomInv RoomWp RoomRefines Admin.

Section say.
Context `{Json} `{HashOrder} `{HText : !JsonText} `{HUni : Unicode}.

(** ** Answers leave the room alone *)

Lemma wp_notify_typed conn texts ty r (Q : unit -> Room -> Prop) :
  Q tt r -> wp (notify_typed conn texts ty) r Q.
Proof.
  intros HQ. unfold notify_typed. apply wp_bind, wp_read. apply wp_on_some; [|done].
  intros c _. destruct (_ || _); [by apply wp_done|by apply wp_send].
Qed.

Lemma wp_notify conn text r (Q : unit -> Room -> Prop) : Q tt r -> wp (notify conn text) r Q.
Proof. apply wp_notify_typed. Qed.

Lemma runs_notify conn text r : runs (notify conn text) r.
Proof. by apply runs_stay, wp_notify. Qed.

Lemma runs_notify_multiple conn texts r : runs (notify_multiple conn texts) r.
Proof. by apply runs_stay, wp_notify_typed. Qed.

Lemma runs_notify_admin conn texts r : runs (notify_admin conn texts) r.
Proof. by apply runs_stay, wp_notify_typed. Qed.

Lemma runs_broadcast_chat key display message r : runs (broadcast_chat key display message) r.
Proof. apply runs_read, runs_emit, runs_emit_last. Qed.

Lemma runs_with_slot conn k r : (forall key, runs (k key) r) -> runs (with_slot conn k) r.
Proof. intros Hk. apply runs_read. apply runs_on_some. intros key _. apply Hk. Qed.

(** ** The word commands *)

Lemma runs_dirty (m : M unit) r : runs m r -> runs (_ ← m; mark_dirty) r.
Proof. intros Hm. apply runs_seq; [done|]. intros [] r1 _. apply runs_emit_last. Qed.

Lemma runs_cmd_release conn r : ready (r_data r) -> runs (cmd_release conn) r.
Proof.
  intros Hr. apply runs_with_slot. intros key. apply runs_read. cbn [id].
  destruct (_ || _); [by apply runs_dirty, runs_release|].
  case_bool_decide; [apply runs_notify|]. destruct (finished r key); [|apply runs_notify].
  by apply runs_dirty, runs_release.
Qed.

Lemma runs_cmd_collect conn r : ready (r_data r) -> runs (cmd_collect conn) r.
Proof.
  intros Hr. apply runs_with_slot. intros key. apply runs_read. cbn [id].
  destruct (Permission.allows_manual _); [by apply runs_dirty, runs_collect_inner|].
  case_bool_decide; [apply runs_notify|]. destruct (finished r key); [|apply runs_notify].
  by apply runs_dirty, runs_collect_inner.
Qed.

Lemma runs_cmd_countdown conn seconds r : runs (cmd_countdown conn seconds) r.
Proof.
  apply runs_read. cbn [id]. destruct (_ || _); [apply runs_notify|]. cbv zeta.
  destruct (_ <? _); [apply runs_notify|apply runs_start_countdown].
Qed.

Lemma runs_report_remaining conn key r : runs (report_remaining conn key) r.
Proof. apply runs_read. cbn [id]. destruct (remaining_items r key); apply runs_notify. Qed.

Lemma runs_cmd_remaining conn r : runs (cmd_remaining conn) r.
Proof.
  apply runs_with_slot. intros key. apply runs_read. cbn [id].
  destruct (remaining_mode _); try apply runs_notify; try apply runs_report_remaining;
    (destruct (finished r key); [apply runs_report_remaining|apply runs_notify]).
Qed.

Lemma runs_cmd_alias conn name r : runs (cmd_alias conn name) r.
Proof.
  apply runs_with_slot. intros key. apply runs_read. cbn [id].
  assert (Ha : forall r1, runs (r ← read id; _ ← broadcast RAll [players_update r]; mark_dirty) r1)
    by (intros; apply runs_read, runs_emit, runs_emit_last).
  destruct (negb _).
  2: destruct (bool_decide _); [|apply runs_done].
  all: apply runs_seq; [apply runs_write; by apply StepInert|]; intros [] r1 _;
    apply runs_seq; [apply runs_notify|]; intros [] r2 _; apply Ha.
Qed.

Lemma runs_cmd_players conn r : runs (cmd_players conn) r.
Proof. apply runs_read. cbn [id]. cbv zeta. destruct (_ <? _)%nat; [apply runs_emit_last|apply runs_notify]. Qed.

(** ** Options *)

Lemma runs_push_option_update push name r : runs (push_option_update push name) r.
Proof.
  apply runs_read. destruct push; [apply runs_emit_last| |apply runs_done].
  apply runs_each. intros. apply runs_emit_last.
Qed.

(** The settable options, by kind. *)
Lemma settable_cases name kind :
  find_option name = Some kind ->
  (kind = KInt /\ (name = "hint_cost" \/ name = "location_check_points" \/ name = "compatibility")) \/
  (kind = KMode /\ (name = "release_mode" \/ name = "remaining_mode" \/ name = "collect_mode" \/
                    name = "countdown_mode")) \/
  (kind = KBool /\ name = "item_cheat").
Proof.
  unfold find_option. intros Hf.
  destruct (List.find (fun e => str_eqb e.1 name) SETTABLE) as [e|] eqn:He; [|done]. injection Hf as <-.
  apply List.find_some in He as [Hin Hn]. apply bool_decide_eq_true in Hn. subst name.
  unfold SETTABLE in Hin. cbn [In] in Hin. destruct_or! Hin; subst e; cbn [fst snd]; tauto.
Qed.

(** The name of a settable option is one its kind's setter knows. *)
Lemma set_option_kind_total name value kind o :
  find_option name = Some kind -> is_Some (set_option_kind kind name value o).
Proof.
  intros Hk. apply settable_cases in Hk as [[-> Hn]|[[-> Hn]|[-> _]]]; cbn [set_option_kind]; [| |by eexists].
  - unfold set_int_option, str_eqb. destruct (parse_u32 value); [|by eexists].
    repeat case_bool_decide; try by eexists. naive_solver.
  - unfold set_mode_option. destruct (negb _); [by eexists|]. unfold str_eqb.
    repeat case_bool_decide; try by eexists. naive_solver.
Qed.

Lemma runs_apply_option name value r : runs (apply_option name value) r.
Proof.
  unfold apply_option. cbv zeta. destruct (existsb _ _); [by apply runs_stay|].
  destruct (find_option _) as [kind|] eqn:Hk; [|by apply runs_stay]. apply runs_read. cbn [id].
  destruct (set_option_kind_total _ value _ (r_options r) Hk) as [x Hx].
  apply wp_bind. apply (wp_expect _ _ _ _ Hx). destruct x as [[push o]|m]; [|by apply runs_stay].
  apply runs_seq; [apply runs_write; by apply StepInert|]. intros [] r1 _. apply runs_emit, runs_read.
  cbv zeta. apply runs_emit, runs_emit. apply runs_seq; [apply runs_push_option_update|].
  intros [] r2 _. apply runs_read. by apply runs_stay.
Qed.

Lemma runs_server_command conn raw r : runs (server_command conn raw) r.
Proof.
  unfold server_command. destruct (split_whitespace raw) as [|first args]; [apply runs_done|].
  destruct (strip_str _ first) as [name|]; [|apply runs_emit_last]. cbv zeta.
  repeat match goal with |- runs (if ?b then _ else _) r => destruct b end.
  - unfold server_cmd_option. destruct args as [|n [|v args]]; [apply runs_notify_admin..|].
    apply runs_seq; [apply runs_apply_option|]. intros [text|lines] r1 _; apply runs_notify_admin.
  - apply runs_read, runs_notify_admin.
  - apply runs_notify_admin.
  - apply runs_notify_admin.
Qed.

(** ** Cheats *)

Lemma elem_of_sorted_keys {A} (m : gmap string A) k : k ∈ sorted_keys m -> is_Some (m !! k).
Proof. unfold sorted_keys. unfold sorted_strings. rewrite merge_sort_Permutation, elem_of_elements. by apply elem_of_dom. Qed.

Lemma cheats_step r key id_ count :
  step r (set_received_items
    (<[(key, true) := queue_of r (key, true) ++ replicate count (cheat_item key.2 id_)]>
      (<[(key, false) := queue_of r (key, false) ++ replicate count (cheat_item key.2 id_)]>
        (r_received_items r))) r).
Proof.
  destruct key as [team slot]. apply (StepCheat team slot (replicate count (cheat_item slot id_))).
  { by apply Forall_replicate. }
  intros t s b. unfold queue_of. case_decide as Hk.
  - injection Hk as -> ->. destruct b; [by rewrite lookup_insert_eq|].
    by rewrite lookup_insert_ne, lookup_insert_eq.
  - rewrite !lookup_insert_ne by congruence. by rewrite app_nil_r.
Qed.

Lemma runs_queue_cheats {B} key id_ count (k : unit -> M B) r :
  (forall r1, rtc step r r1 -> runs (k tt) r1) ->
  runs (_ ← each [false; true] (fun remote => queue_copies (key, remote) (cheat_item key.2 id_) count); k tt) r.
Proof.
  intros Hk. cbn [each]. apply wp_bind. apply wp_bind, wp_write, wp_bind, wp_write, wp_done.
  eapply runs_after; [|apply Hk]; (apply rtc_once;
    pose proof (cheats_step r key id_ count) as Hs; unfold queue_of in Hs; cbn [r_received_items set_received_items];
    rewrite lookup_insert_ne by congruence; exact Hs).
Qed.

Lemma runs_grant_items key wanted count announce r : runs (grant_items key wanted count announce) r.
Proof.
  unfold grant_items. apply runs_read. cbn [id]. destruct (names_of r key.2) as [names|]; [|by apply runs_stay].
  destruct (intended _ _) as [[name reason|closest s message]|] eqn:Hi; [|by apply runs_stay..].
  apply accepted_in in Hi. apply elem_of_sorted_keys in Hi as [id_ Hid].
  apply wp_bind, (wp_expect _ id_); [done|]. cbv zeta.
  apply (runs_queue_cheats key id_ count (fun _ => _)). intros r1 _. apply runs_read.
  apply runs_seq; [apply runs_each; intros; apply runs_emit_last|]. intros [] r2 _. apply runs_emit.
  apply runs_seq; [apply runs_clients, wp_send_new_items|]. intros [] r3 _. by apply runs_stay.
Qed.

Lemma runs_cmd_getitem conn wanted r : runs (cmd_getitem conn wanted) r.
Proof.
  apply runs_read. cbn [id]. destruct (negb _); [apply runs_notify|]. apply runs_with_slot. intros key.
  apply runs_seq; [apply runs_grant_items|]. intros [name|message] r1 _; [apply runs_emit_last|].
  destruct (str_eqb _ _); [apply runs_done|apply runs_notify].
Qed.
(** ** Hints for points *)

Lemma collect_item_truthful r key item :
  hints_truthful r -> Forall (truthful (is_checked r) key.1) (collect_item_hints r key item).
Proof.
  intros Ht. unfold collect_item_hints, collect_for_item. apply Forall_fmap, Forall_forall. intros e _.
  by apply build_hint_truthful.
Qed.

Lemma Forall_bind_all {A B} (P : B -> Prop) (f : A -> list B) l : (forall a, Forall P (f a)) -> Forall P (l ≫= f).
Proof. intros Hf. induction l as [|a l IH]; [constructor|]. rewrite bind_cons. apply Forall_app. by split. Qed.

Lemma by_name_truthful r key name for_location :
  hints_truthful r ->
  Forall (truthful (is_checked r) key.1) (collect_hints_by_name r key name for_location).
Proof.
  intros Ht. unfold collect_hints_by_name. destruct (names_of r key.2) as [names|]; [|constructor].
  set (by_location := match location_name_groups (package names) !! name with Some _ => _ | None => _ end).
  assert (Hl : Forall (truthful (is_checked r) key.1) by_location).
  { unfold by_location. destruct (location_name_groups _ !! name).
    - apply Forall_bind_all. intros. by apply collect_truthful.
    - destruct (location_id names name); [by apply collect_truthful|constructor]. }
  destruct for_location; [done|]. destruct (item_name_groups _ !! name).
  - apply Forall_bind_all. intros. by apply collect_item_truthful.
  - destruct (item_id names name); [by apply collect_item_truthful|done].
Qed.

Lemma candidates_truthful r key names input for_location hints subject :
  hints_truthful r -> hint_candidates r key names input for_location = inl (hints, subject) ->
  Forall (truthful (is_checked r) key.1) hints.
Proof.
  intros Ht. unfold hint_candidates. cbv zeta. destruct (forallb _ _).
  - destruct (parse_i64 input) as [id_|]; [|done]. destruct (negb _); [done|]. intros [= <- _].
    unfold collect_hints_by_id. destruct for_location; [by apply collect_truthful|by apply collect_item_truthful].
  - destruct (intended _ _) as [[name reason|? ? ?]|]; [|done..]. destruct (negb _); [done|].
    intros [= <- _]. by apply by_name_truthful.
Qed.

(** A shuffle rearranges, whatever the generator holds. *)
Lemma shuffle_from_rearranges {A} fuel i (x y : list A) rng rng' :
  shuffle_from fuel i x rng = Some (y, rng') -> y ≡ₚ x.
Proof.
  revert x rng. induction i as [|i IH]; intros x rng; cbn [shuffle_from]; [by intros [= <- _]|].
  destruct (randbelow _ _ rng) as [[j rng1]|]; [|done]. intros Hs%IH. by rewrite Hs, swap_perm.
Qed.

Lemma choose_partitions fuel rng candidates sphere n granted rest rng' :
  choose fuel rng candidates sphere n = Some (granted, rest, rng') ->
  granted ++ rest ≡ₚ candidates /\ length granted = Nat.min n (length candidates).
Proof.
  unfold choose. destruct (shuffle fuel candidates rng) as [[c rng1]|] eqn:Hs; [|done].
  assert (Hc : c ≡ₚ candidates).
  { unfold shuffle in Hs. destruct (_ <? 2)%nat; [by injection Hs as <- _|by eapply shuffle_from_rearranges]. }
  cbn [mbind option_bind]. set (l := stable_sort _ (stable_sort _ c)).
  assert (Hl : l ≡ₚ candidates) by (unfold l; by rewrite !stable_sort_perm).
  pose proof (pop_many_spec n (rev l)) as Hp. destruct (pop_many n (rev l)) as [g back].
  intros [= -> <- _]. destruct Hp as [Hp Hn]. split.
  - rewrite <- Hl. rewrite <- (Permutation_rev back), Hp. symmetry. apply Permutation_rev.
  - rewrite Hn, length_rev. by rewrite Hl.
Qed.

Definition may_run {A} (m : M A) (r : Room) : Prop := may m r (fun _ r' => rtc step r r').

Lemma may_runs {A} (m : M A) r : runs m r -> may_run m r.
Proof. apply may_wp. Qed.

Lemma may_seq {A B} (m : M A) (k : A -> M B) r :
  may_run m r -> (forall a r1, rtc step r r1 -> may_run (k a) r1) -> may_run (m ≫= k) r.
Proof.
  intros Hm Hk. apply may_bind. eapply may_mono; [exact Hm|]. intros a r1 H1.
  eapply may_mono; [by apply Hk|]. intros b r2 H2. eapply rtc_trans; [exact H1|exact H2].
Qed.

Lemma may_read {A B} (f : Room -> A) (k : A -> M B) r : may_run (k (f r)) r -> may_run (read f ≫= k) r.
Proof. intros Hk. by apply may_bind. Qed.

Lemma may_with_slot conn k r : (forall key, may_run (k key) r) -> may_run (with_slot conn k) r.
Proof. intros Hk. apply may_read. cbn [id]. destruct (slot_of r conn); [apply Hk|]. by apply may_runs, runs_done. Qed.

Lemma may_run_draw {A} (g : PyRandom -> option (A * PyRandom)) r : may_run (draw g) r.
Proof. apply may_draw. intros a rng _. apply rtc_once. by apply StepInert. Qed.

Lemma may_asterisks r : may_run asterisks r.
Proof. apply may_seq; [apply may_run_draw|]. intros n r1 _. apply may_runs. by apply runs_stay. Qed.

Lemma may_pay_for_hints conn key candidates points cost r :
  Forall (truthful (is_checked r) key.1) candidates ->
  may_run (pay_for_hints conn key candidates points cost) r.
Proof.
  intros Ht. unfold pay_for_hints. apply may_read. cbn [id]. cbv zeta.
  pose proof (Forall_filter_list _ (is_known r key) _ Ht) as Hk.
  pose proof (Forall_filter_list _ (fun h => negb (is_known r key h)) _ Ht) as Hf.
  revert Hk Hf. generalize (List.filter (is_known r key) candidates) as known.
  generalize (List.filter (fun h => negb (is_known r key h)) candidates) as fresh. intros fresh known Hk Hf.
  assert (Hcaller : forall text r1, runs (notify_caller conn text) r1)
    by (intros; apply runs_on_some; intros; apply runs_notify).
  destruct fresh as [|f0 fs].
  { apply may_runs. apply runs_seq; [|intros [] r1 _; by apply runs_stay].
    destruct known as [|k0 ks]; [apply runs_done|]. apply runs_seq; [by apply runs_notify_hints|].
    intros _ r1 _. apply Hcaller. }
  revert Hf. generalize (f0 :: fs) as fresh. clear f0 fs. intros fresh Hf.
  apply may_bind. unfold choose_hints. apply may_bind. cbn [may read id]. apply may_draw.
  intros [granted rest] rng Hc. apply choose_partitions in Hc as [Hc _].
  set (r1 := set_rng rng r). assert (H1 : rtc step r r1) by (apply rtc_once; by apply StepInert).
  assert (Hg : Forall (truthful (is_checked r1) key.1) granted).
  { pose proof (Forall_filter_list _ (fun h => negb (found h)) _ Hf) as Hu. rewrite <- Hc in Hu.
    by apply Forall_app in Hu as [Hu _]. }
  apply may_wp. apply (runs_after r r1); [done|]. apply runs_read. cbn [id].
  apply wp_bind, wp_write. set (r2 := set_hints_used _ r1).
  assert (H2 : rtc step r1 r2) by (apply rtc_once; by apply StepInert).
  apply (runs_after r1 r2); [done|]. apply runs_read.
  apply runs_keep with (P := fun _ => True).
  { apply wp_when; [intros _|done]. by apply wp_journal. }
  intros [] _. apply runs_seq.
  { apply runs_notify_hints. change (is_checked r2) with (is_checked r1).
    apply Forall_app. split; [by apply Forall_filter_list|]. by apply Forall_app. }
  intros _ r3 _. apply runs_read. apply runs_seq; [apply runs_when; intros _; apply Hcaller|].
  intros [] r4 _. apply runs_emit. by apply runs_stay.
Qed.

Lemma may_cmd_hint conn input for_location r : hints_truthful r -> may_run (cmd_hint conn input for_location) r.
Proof.
  intros Ht. apply may_with_slot. intros key. apply may_read. cbn [id]. cbv zeta.
  destruct (str_eqb _ _).
  { apply may_runs, runs_seq; [|intros _ r1 _; apply runs_notify]. apply runs_notify_hints.
    apply Forall_forall. intros h Hh. by apply Ht. }
  destruct (names_of r key.2) as [names|]; [|apply may_runs, runs_notify].
  destruct (hint_candidates _ _ _ _ _) as [[candidates subject]|text] eqn:Hc; [|apply may_runs, runs_notify].
  destruct candidates as [|c cs] eqn:Hcs; [apply may_runs, runs_notify|]. rewrite <- Hcs in *.
  apply may_seq; [apply may_pay_for_hints; by eapply candidates_truthful|]. intros _ r1 _.
  apply may_runs, runs_done.
Qed.

(** ** Administration *)

Lemma may_mask_admin command r : may_run (mask_admin command) r.
Proof.
  unfold mask_admin. cbv zeta.
  repeat match goal with |- may_run (if ?b then _ else _) r => destruct b end;
    try (apply may_seq; [apply may_asterisks|intros stars r1 _]); apply may_runs; by apply runs_stay.
Qed.

Lemma runs_admin_login conn supplied password r : runs (admin_login conn supplied password) r.
Proof.
  unfold admin_login. destruct (ct_eq _ _); [|apply runs_notify]. apply runs_read.
  apply runs_seq; [apply runs_write; by apply StepInert|]. intros [] r1 _.
  apply runs_seq; [|intros [] r2 _; apply runs_notify].
  destruct (r_admin_conn r); [apply runs_when; intros _; apply runs_notify|apply runs_done].
Qed.

Lemma may_cmd_admin conn command r : may_run (cmd_admin conn command) r.
Proof.
  apply may_with_slot. intros key. apply may_seq; [apply may_mask_admin|]. intros masked r1 _.
  apply may_runs. apply runs_seq; [apply runs_broadcast_chat|]. intros [] r2 _. apply runs_read. cbn [id].
  destruct (server_password _) as [password|]; [|apply runs_notify]. cbv zeta.
  destruct (str_eqb _ _); [apply runs_notify_multiple|].
  destruct (strip_str _ _); [apply runs_admin_login|]. destruct (negb _); [apply runs_notify|].
  destruct (str_eqb _ _); [|apply runs_server_command].
  apply runs_seq; [apply runs_write; by apply StepInert|]. intros [] r3 _. apply runs_notify.
Qed.

(** ** Dispatch *)

Lemma may_run_command conn raw r : room_inv r -> may_run (run_command conn raw) r.
Proof.
  intros [Hr _ _ _ Hh]. unfold run_command. destruct (shell_split raw) as [|first words];
    [by apply may_runs, runs_done|].
  destruct (strip_str _ first) as [name|]; [|by apply may_runs, runs_done]. cbv zeta.
  destruct (takes_raw_argument _).
  - unfold run_raw_command.
    repeat match goal with |- may_run (if ?b then _ else _) r => destruct b end;
      try (by apply may_cmd_hint); [apply may_cmd_admin|apply may_runs..].
    1-2: apply runs_with_slot; intros key; apply runs_read, runs_notify_multiple.
    + apply runs_cmd_alias.
    + apply runs_cmd_getitem.
    + apply runs_notify.
  - unfold run_word_command. cbv zeta.
    repeat match goal with |- may_run (if ?b then _ else _) r => destruct b end;
      try (apply may_runs, runs_notify); try (by apply may_runs; first
        [apply runs_cmd_players|apply runs_read, runs_notify|apply runs_cmd_release|apply runs_cmd_collect
        |apply runs_cmd_countdown|apply runs_cmd_remaining]).
    apply may_seq; [apply may_asterisks|]. intros masked r1 _. apply may_read, may_runs, runs_notify_multiple.
Qed.

Lemma may_handle_say conn text r : room_inv r -> may_run (handle_say conn text) r.
Proof.
  intros Hi. unfold handle_say. destruct (as_ok text) as [raw|]; [|apply may_runs, runs_emit_last].
  destruct (is_printable raw); [|apply may_runs, runs_emit_last]. apply may_with_slot. intros key.
  apply may_seq; [apply may_runs, runs_when; intros _; apply runs_broadcast_chat|]. intros [] r1 H1.
  destruct (str_eqb _ _); [apply may_runs, runs_done|]. apply may_run_command. by eapply steps_inv.
Qed.

Lemma runs_dispatch conn p r c :
  room_inv r -> r_clients r !! conn = Some c -> (forall text, p <> CSay text) -> runs (dispatch conn p) r.
Proof.
  intros [Hr Hs _ _ Hh] Hc Hm. destruct p; cbn [dispatch].
  - by eapply runs_handle_connect.
  - apply runs_handle_connect_update.
  - apply runs_clients, wp_resend_all_items.
  - by apply runs_handle_location_checks.
  - by apply runs_handle_location_scouts.
  - by apply runs_handle_create_hints.
  - apply runs_handle_update_hint.
  - by apply runs_handle_status_update.
  - by destruct (Hm text).
  - apply runs_handle_get_datapackage.
  - apply runs_handle_bounce.
  - apply runs_handle_get.
  - apply runs_handle_set.
  - apply runs_handle_set_notify.
Qed.

(** What comes before the dispatch: a draw of the sampler. *)
Definition gate (r : Room) (conn : ConnId) (p : ClientPacket) : M bool :=
  match r_clients r !! conn, from_slot_kind p with
  | Some c, Some (k, labels) =>
      if c_auth c then filters_from_slot (c_team c, c_slot c) k labels else mret false
  | _, _ => mret false
  end.

Lemma wp_gate conn p r c :
  r_clients r !! conn = Some c ->
  wp (gate r conn p) r (fun _ r1 => rtc step r r1 /\ r_clients r1 = r_clients r).
Proof.
  intros Hc. unfold gate. rewrite Hc. destruct (from_slot_kind p) as [[k labels]|]; [|by apply wp_ret].
  destruct (c_auth c); [|by apply wp_ret]. unfold filters_from_slot. apply wp_bind, wp_read. cbn [id].
  destruct (filter_for r _) as [f|]; [|by apply wp_ret]. destruct (drops _ _ _ _ _ _) as [d s].
  apply wp_bind, wp_write, wp_bind, wp_when; intros _; [apply wp_emit|]; apply wp_ret;
    (split; [|done]); apply rtc_once; by apply StepInert.
Qed.

Lemma read_bind {A B} (f : Room -> A) (k : A -> M B) r : (read f ≫= k) r = k (f r) r.
Proof. unfold mbind, M_bind, read. by destruct (k (f r) r) as [[[? ?] ?]|]. Qed.

Lemma handle_gate conn p r c :
  r_clients r !! conn = Some c ->
  handle conn p r =
  (if negb (c_auth c) && negb (allowed_before_auth p) then done_
   else dropped ← gate r conn p; match dropped with true => done_ | false => dispatch conn p end) r.
Proof.
  intros Hc. unfold handle, gate. etrans; [apply read_bind|]. cbn [id]. by rewrite Hc.
Qed.

Lemma runs_handle conn p r c :
  room_inv r -> r_clients r !! conn = Some c -> (forall text, p <> CSay text) -> runs (handle conn p) r.
Proof.
  intros Hi Hc Hm. unfold runs, wp. rewrite (handle_gate _ _ _ c Hc). destruct (_ && _); [apply runs_done|].
  apply wp_bind. eapply wp_mono; [by eapply wp_gate|].
  intros dropped r1 [H1 Hc1]. apply (runs_after r r1); [done|]. destruct dropped; [apply runs_done|].
  apply (runs_dispatch conn p r1 c); [by eapply steps_inv|by rewrite Hc1|done].
Qed.

Lemma may_handle conn p r c : room_inv r -> r_clients r !! conn = Some c -> may_run (handle conn p) r.
Proof.
  intros Hi Hc. destruct (match p with CSay _ => true | _ => false end) eqn:Hp.
  2: { apply may_runs. eapply runs_handle; [done..|]. by intros text ->. }
  destruct p as [| | | | | | | |text| | | | |]; try done. clear Hp.
  unfold may_run, may. rewrite (handle_gate _ _ _ c Hc). destruct (_ && _);
    [exact (may_runs _ _ (runs_done r))|].
  apply may_bind. apply may_wp. eapply wp_mono; [by eapply wp_gate|].
  intros dropped r1 [H1 Hc1]. eapply may_mono; [|intros a r2 H2; eapply rtc_trans; [exact H1|exact H2]].
  destruct dropped; [apply may_runs, runs_done|]. apply may_handle_say. by eapply steps_inv.
Qed.
End say.

(** * The administrator's commands refine the abstract machine

    What [admin] does to the room is a sequence of steps of [RoomSpec]; only a
    hint at a slot's own cost draws from the generator. *)

Section admin.
Context `{Json} `{HashOrder} `{HText : !JsonText} `{HUni : Unicode}.

Lemma may_with_key slot k r : (forall key, may_run (k key) r) -> may_run (with_key slot k) r.
Proof.
  intros Hk. apply may_read. cbn [id]. destruct (admin_key r slot); [apply Hk|]. by apply may_runs, runs_stay.
Qed.

Lemma runs_with_key slot k r : (forall key, runs (k key) r) -> runs (with_key slot k) r.
Proof. intros Hk. apply runs_read. cbn [id]. destruct (admin_key r slot); [apply Hk|]. by apply runs_stay. Qed.

(** An action, the mark, the answer. *)
Lemma runs_marked {A B} (m : M A) (k : M B) r :
  runs m r -> (forall r1, runs k r1) -> runs (_ ← m; _ ← mark_dirty; k) r.
Proof.
  intros Hm Hk. apply runs_seq; [done|]. intros _ r1 _. apply runs_emit. apply Hk.
Qed.

Lemma runs_answer {A B} (f : Room -> A) (g : A -> B) r : runs (a ← read f; mret (g a)) r.
Proof. apply runs_read. by apply runs_stay. Qed.

Lemma runs_admin_send_item slot item amount r : runs (admin_send_item slot item amount) r.
Proof.
  apply runs_with_key. intros key. repeat (match goal with |- runs (if ?b then _ else _) _ => destruct b end;
    [by apply runs_stay|]).
  apply runs_seq; [apply runs_grant_items|]. intros [name|message] r1 _; [|by apply runs_stay].
  apply runs_emit. apply runs_answer.
Qed.

Lemma admin_hints_truthful r key name for_location :
  hints_truthful r -> Forall (truthful (is_checked r) key.1) (admin_hints r key name for_location).
Proof.
  intros Ht. unfold admin_hints. cbv zeta. destruct (parse_i64 name) as [id_|].
  - unfold collect_hints_by_id. destruct for_location; [by apply collect_truthful|by apply collect_item_truthful].
  - destruct (match names_of r key.2 with Some _ => _ | None => _ end); [by apply by_name_truthful|constructor].
Qed.

Lemma may_admin_hint slot name for_location force r :
  hints_truthful r -> may_run (admin_hint slot name for_location force) r.
Proof.
  intros Ht. apply may_with_key. intros key. cbv zeta. apply may_read. cbn [id].
  pose proof (admin_hints_truthful r key name for_location Ht) as Hh.
  destruct (admin_hints r key name for_location) as [|h hs]; [by apply may_runs, runs_stay|].
  destruct force.
  - apply may_runs, runs_marked; [by apply runs_notify_hints|]. intros. apply runs_answer.
  - apply may_seq; [by apply may_pay_for_hints|]. intros granted r1 _. apply may_runs, runs_emit, runs_answer.
Qed.

Lemma runs_admin_send_location slot location r :
  ready (r_data r) -> runs (admin_send_location slot location) r.
Proof.
  intros Hr. apply runs_with_key. intros key. apply runs_read. cbn [id].
  destruct (resolve_location _ _ _); [|by apply runs_stay]. cbv zeta.
  apply runs_seq; [by apply runs_register|]. intros [] r1 _. apply runs_read.
  destruct (Nat.eqb _ 0); [by apply runs_stay|]. apply runs_emit. by apply runs_stay.
Qed.

Lemma runs_admin_set_status slot st r : ready (r_data r) -> runs (admin_set_status slot st) r.
Proof.
  intros Hr. apply runs_with_key. intros key. apply runs_read. cbn [id]. cbv zeta.
  case_bool_decide; [by apply runs_stay|]. apply runs_seq; [by apply runs_room_set_status|].
  intros [] r1 _. apply runs_answer.
Qed.

Lemma runs_admin_alias slot alias r : runs (admin_alias slot alias) r.
Proof.
  apply runs_with_key. intros key. cbv zeta. apply runs_read. cbn [id].
  assert (Hs : forall text m, runs (_ ← write (fun r => set_name_aliases (m r) r); _ ← mark_dirty;
            r ← read id; _ ← broadcast RAll [players_update r]; mret (outcome_ok text [slot])) r).
  { intros text m. apply runs_seq; [apply runs_write; by apply StepInert|]. intros [] r1 _.
    apply runs_emit, runs_read, runs_emit. by apply runs_stay. }
  destruct (str_eqb _ _); [|apply Hs]. destruct (bool_decide _); [apply Hs|by apply runs_stay].
Qed.

Lemma runs_admin_kick slot reason r : runs (admin_kick slot reason) r.
Proof.
  apply runs_with_key. intros key. apply runs_read. cbn [id].
  destruct (resolve r (RSlot key)) as [|c cs]; [by apply runs_stay|].
  apply runs_seq; [apply runs_when; intros _; apply runs_emit_last|]. intros [] r1 _.
  apply runs_seq; [apply runs_each; intros; apply runs_emit_last|]. intros [] r2 _. by apply runs_stay.
Qed.

(** Whether a command draws from the room's generator. *)
Definition admin_draws (c : AdminCommand) : bool :=
  match c with AHint _ _ false | AHintLocation _ _ false => true | _ => false end.

Lemma runs_admin_dispatch c r :
  room_inv r -> admin_draws c = false -> runs (admin_dispatch c) r.
Proof.
  intros [Hr _ _ _ Hh] Hd. destruct c; cbn [admin_dispatch admin_draws] in *.
  - apply runs_answer.
  - unfold admin_say. destruct (negb _); [by apply runs_stay|]. destruct (str_eqb _ _); [by apply runs_stay|].
    apply runs_emit. by apply runs_stay.
  - unfold admin_countdown. destruct (negb _); [by apply runs_stay|]. apply runs_read.
    apply runs_seq; [apply runs_start_countdown|]. intros [] r1 _. by apply runs_stay.
  - apply runs_with_key. intros key. apply runs_read, runs_marked; [by apply runs_release|].
    intros. apply runs_answer.
  - apply runs_with_key. intros key. apply runs_marked; [by apply runs_collect_inner|]. intros. apply runs_answer.
  - apply runs_admin_send_item.
  - apply runs_admin_send_item.
  - destruct force; [|done]. apply runs_with_key. intros key. cbv zeta. apply runs_read. cbn [id].
    pose proof (admin_hints_truthful r key item false Hh) as Ht.
    destruct (admin_hints _ _ _ _); [by apply runs_stay|].
    apply runs_marked; [by apply runs_notify_hints|]. intros. apply runs_answer.
  - destruct force; [|done]. apply runs_with_key. intros key. cbv zeta. apply runs_read. cbn [id].
    pose proof (admin_hints_truthful r key location true Hh) as Ht.
    destruct (admin_hints _ _ _ _); [by apply runs_stay|].
    apply runs_marked; [by apply runs_notify_hints|]. intros. apply runs_answer.
  - by apply runs_admin_send_location.
  - apply runs_with_key. intros key. apply runs_marked; [apply runs_write; by apply StepInert|].
    intros. apply runs_answer.
  - apply runs_with_key. intros key. apply runs_marked; [apply runs_write; by apply StepInert|].
    intros. apply runs_answer.
  - by apply runs_admin_set_status.
  - apply runs_admin_alias.
  - apply runs_seq; [apply runs_apply_option|]. intros x r1 _. by apply runs_stay.
  - apply runs_admin_kick.
Qed.

Lemma runs_admin_journal c r (k : unit -> M AdminOutcome) :
  runs (k tt) r ->
  runs (x ← (match journal_shape c with
             | Some (verb, slot, detail) => now ← read r_clock; journal (JAdmin now verb slot detail)
             | None => done_
             end); k x) r.
Proof. intros Hk. destruct (journal_shape c) as [[[verb slot] detail]|]; exact Hk || idtac.
  all: apply runs_keep with (P := fun _ => True); [done|]; by intros [].
Qed.

Lemma runs_admin c r : room_inv r -> admin_draws c = false -> runs (admin c) r.
Proof. intros Hi Hd. unfold admin. apply (runs_admin_journal c r (fun _ => _)). by apply runs_admin_dispatch. Qed.

Lemma may_admin c r : room_inv r -> may_run (admin c) r.
Proof.
  intros Hi. destruct (admin_draws c) eqn:Hd; [|by apply may_runs, runs_admin].
  unfold admin. apply may_seq.
  { apply may_runs. destruct (journal_shape c) as [[[verb slot] detail]|]; by apply runs_stay. }
  intros [] r1 H1. pose proof (steps_inv r r1 H1 Hi) as [_ _ _ _ Hh].
  destruct c as [| | | | | | |? ? [] |? ? []| | | | | | |]; try done; by apply may_admin_hint.
Qed.
End admin.
