(* ===== verification/RoomTheorems.v ===== *)
(** * What is true of every room that runs

    The room is driven by events: connections, packets, the clock, the
    administrator.  Any sequence of events from a freshly loaded room keeps the
    invariants of [RoomSpec]. *)

From Stdlib Require Import ZArith Lia Bool.
From stdpp Require Import base tactics list sets gmap strings sorting relations.
From S2P Require Import Prelude PyRandom PyObj Locations Types Datapackage Multidata Conn Hints Json PyValue Packets.
From S2P Require Import Text Filter Options Effects Room RoomOps RoomPlay Say Admin RoomSpec RoomInv.
From S2P Require Import RoomWp RoomRefines SayRefines.

Section events.
Context `{Json} `{HashOrder} `{HText : !JsonText} `{HUni : Unicode}.

Inductive Event : Type :=
| EvConnect (conn : ConnId) (feed : FeedPolicy)
| EvDisconnect (conn : ConnId) (reason : string)
| EvPacket (conn : ConnId) (p : ClientPacket)
| EvTick (now : f64)
| EvCountdown (seconds : Z) (now : f64)
| EvRelease (key : SlotKey) (trigger : Trigger)
| EvCollect (key : SlotKey) (trigger : Trigger)
| EvAllowRelease (key : SlotKey) (allowed : bool)
| EvLock (key : SlotKey) (locked : bool)
| EvSetFilter (slot : option SlotKey) (f : option Filter)
| EvAdmin (c : AdminCommand)
| EvShutdown.

Definition run_event (ev : Event) : M unit :=
  match ev with
  | EvConnect conn feed => on_connect_with_feed conn feed
  | EvDisconnect conn reason => on_disconnect conn reason
  | EvPacket conn p => handle conn p
  | EvTick now => tick now
  | EvCountdown seconds now => start_countdown seconds now
  | EvRelease key trigger => release_player key trigger
  | EvCollect key trigger => collect_player key trigger
  | EvAllowRelease key allowed => allow_release key allowed
  | EvLock key locked => lock_slot key locked
  | EvSetFilter slot f => set_filter slot f
  | EvAdmin c => _ ← admin c; done_
  | EvShutdown => shutdown
  end.

(** What the transport guarantees: a connection id is used once at a time, and
    packets come from connections it reported. *)
Definition event_ok (r : Room) (ev : Event) : Prop :=
  match ev with
  | EvConnect conn _ => r_clients r !! conn = None
  | EvPacket conn _ => is_Some (r_clients r !! conn)
  | _ => True
  end.

(** The events that may draw from the room's generator. *)
Definition may_draw_event (ev : Event) : bool :=
  match ev with
  | EvPacket _ (CSay _) => true
  | EvAdmin c => admin_draws c
  | _ => false
  end.

Lemma may_event r ev : room_inv r -> event_ok r ev -> may_run (run_event ev) r.
Proof.
  intros Hi Hok. pose proof (inv_ready r Hi) as Hr. destruct ev; cbn [run_event].
  3: { destruct Hok as [c Hc]. by eapply may_handle. }
  10: { apply may_seq; [by apply may_admin|]. intros. apply may_runs, runs_done. }
  all: apply may_runs.
  - by apply runs_on_connect.
  - apply runs_on_disconnect.
  - apply runs_tick.
  - apply runs_start_countdown.
  - by apply runs_release.
  - by apply runs_collect_inner.
  - apply runs_write. by apply StepInert.
  - apply runs_write. by apply StepInert.
  - apply runs_set_filter.
  - apply runs_shutdown.
Qed.

Lemma runs_event r ev :
  room_inv r -> event_ok r ev -> may_draw_event ev = false -> runs (run_event ev) r.
Proof.
  intros Hi Hok Hd. pose proof (inv_ready r Hi) as Hr. destruct ev; cbn [run_event may_draw_event] in *.
  3: { destruct Hok as [c Hc]. eapply runs_handle; [done..|]. by intros text ->. }
  10: { apply runs_seq; [by apply runs_admin|]. intros. apply runs_done. }
  - by apply runs_on_connect.
  - apply runs_on_disconnect.
  - apply runs_tick.
  - apply runs_start_countdown.
  - by apply runs_release.
  - by apply runs_collect_inner.
  - apply runs_write. by apply StepInert.
  - apply runs_write. by apply StepInert.
  - apply runs_set_filter.
  - apply runs_shutdown.
Qed.

(** One event, taken. *)
Definition moves (r r' : Room) : Prop :=
  exists ev es, event_ok r ev /\ run_event ev r = Ok (tt, r', es).

Lemma moves_steps r r' : room_inv r -> moves r r' -> rtc step r r' /\ room_inv r'.
Proof.
  intros Hi (ev & es & Hok & He). pose proof (may_event r ev Hi Hok) as Hr.
  unfold may_run, may in Hr. rewrite He in Hr. split; [exact Hr|]. by eapply steps_inv.
Qed.

Lemma reachable_steps r r' : room_inv r -> rtc moves r r' -> rtc step r r' /\ room_inv r'.
Proof.
  intros Hi Hr. revert Hi. induction Hr as [|x y z Hm _ IH]; intros Hi; [done|].
  destruct (moves_steps x y Hi Hm) as [H1 H2]. destruct (IH H2) as [H3 H4].
  split; [by eapply rtc_trans|done].
Qed.

(** ** A freshly loaded room *)

(** The generator places hints for locations nobody has reached. *)
Definition seed_hints_fresh (d : MultiData) : Prop :=
  forall slot l h, precollected_hints d !! slot = Some l -> h ∈ l -> found h = false.

Lemma fold_upsert_fresh (f : SlotKey -> Z -> bool) team slot hints s :
  (forall h, h ∈ hints -> found h = false) -> (forall k loc, f k loc = false) ->
  unique_identities s -> (forall k x, x ∈ hints_get s k -> truthful f k.1 x) ->
  let s' := fold_left (fun s hint => fold_left (fun s t => (upsert s (t, slot) hint).1) [team] s) hints s in
  unique_identities s' /\ forall k x, x ∈ hints_get s' k -> truthful f k.1 x.
Proof.
  intros Hh Hf. revert s. induction hints as [|h hints IH]; intros s Hu Ht; [done|].
  cbn [fold_left]. destruct (upsert_truthful f s (team, slot) h Hu Ht) as [Hu' Ht'].
  - assert (Hn : found h = false) by (apply Hh; left). split; [by rewrite Hf|]. by rewrite Hn.
  - apply IH; [|done|done]. intros x Hx. apply Hh. by right.
Qed.

Lemma initial_hints_ok d (f : SlotKey -> Z -> bool) :
  seed_hints_fresh d -> (forall k loc, f k loc = false) ->
  unique_identities (initial_hints d) /\
  forall k x, x ∈ hints_get (initial_hints d) k -> truthful f k.1 x.
Proof.
  intros Hd Hf. unfold initial_hints.
  assert (Hl : forall e, e ∈ hash_order (map_to_list (precollected_hints d)) ->
            forall h, h ∈ e.2 -> found h = false).
  { intros [slot l] He h Hh. rewrite hash_order_perm in He. apply elem_of_map_to_list in He. by eapply Hd. }
  revert Hl. generalize (hash_order (map_to_list (precollected_hints d))). intros l.
  assert (He : unique_identities empty_store /\
    forall k x, x ∈ hints_get empty_store k -> truthful f k.1 x).
  { split; [intros k; unfold hints_get; cbn; rewrite lookup_empty; constructor|].
    intros k x. unfold hints_get. cbn. rewrite lookup_empty. by intros ?%not_elem_of_nil. }
  revert He. generalize empty_store. induction l as [|[slot hs] l IH]; intros s [Hu Ht] Hl; [done|].
  cbn [fold_left fst snd]. apply IH; [|intros e He; apply Hl; by right].
  apply fold_upsert_fresh; [|done..]. intros h Hh. apply (Hl (slot, hs)); [left|done].
Qed.

Lemma room_new_inv sha512 d pkg opts now :
  ready d -> seed_hints_fresh d -> room_inv (room_new sha512 d pkg opts now).
Proof.
  intros Hr Hh. set (r := room_new sha512 d pkg opts now).
  assert (Hc : forall key loc, is_checked r key loc = false).
  { intros key loc. apply bool_decide_eq_false. unfold checks_of. cbn. rewrite lookup_empty. set_solver. }
  split.
  - done.
  - split_and!.
    + intros conn c. cbn. by rewrite lookup_empty.
    + intros key. unfold conns_of. cbn. rewrite lookup_empty. constructor.
    + intros key conn. unfold conns_of. cbn. rewrite !lookup_empty. cbn.
      split; [by intros ?%not_elem_of_nil|]. by intros (c & [=] & _).
  - intros team slot loc. by rewrite Hc.
  - intros team slot. exists []. split; [constructor|]. intros remote. unfold queue_of. cbn.
    rewrite lookup_empty. cbn. rewrite app_nil_r, filter_none; [done|]. intros e _. change (is_checked r (team, e_sender e) (e_location e) <> true).
    by rewrite Hc.
  - exact (initial_hints_ok d (is_checked r) Hh Hc).
Qed.

(** ** The contract *)

(** C2: from any room in its invariant, every event the transport may deliver
    is handled to completion (no panic, no recursion without end), and what it
    does to the shared state is a sequence of steps of the abstract machine; so
    the invariant holds again afterwards.  The one exception is a line of chat
    or an administrator's hint whose draw is rejected 256 times in a row. *)
Theorem handlers_refine_steps (r : Room) (ev : Event) :
  room_inv r -> event_ok r ev ->
  (exists r' es, run_event ev r = Ok (tt, r', es) /\ rtc step r r' /\ room_inv r') \/
  (may_draw_event ev = true /\ run_event ev r = Err Unlucky).
Proof.
  intros Hi Hok. pose proof (may_event r ev Hi Hok) as Hm. unfold may_run, may in Hm.
  destruct (run_event ev r) as [[[[] r'] es]|e] eqn:He.
  - left. exists r', es. split; [done|]. split; [exact Hm|]. by eapply steps_inv.
  - right. subst e. split; [|done]. destruct (may_draw_event ev) eqn:Hd; [done|].
    pose proof (runs_event r ev Hi Hok Hd) as Hr. unfold runs, wp in Hr. by rewrite He in Hr.
Qed.

(** C1: in every room reached from a loaded seed, each slot's item queue holds,
    for each checked location of its team, exactly one copy of the item per way
    the item reaches the slot (item-link groups expanded); the queue of a client
    that applies its own items lacks exactly the items of its own world; and
    beyond that only cheats, which have no location and are the same in both. *)
Theorem items_delivered_exactly_once sha512 d pkg opts now (r : Room) team slot :
  ready d -> seed_hints_fresh d -> rtc moves (room_new sha512 d pkg opts now) r ->
  exists cheats,
    Forall (fun i => ni_location i = -1 /\ ni_player i = slot /\ ni_flags i = 0) cheats /\
    forall remote, queue_of r (team, slot, remote) ≡ₚ
      (e ← filter (fun e => is_checked r (team, e_sender e) (e_location e) = true) (all (locations d));
       t ← recipients d (e_receiver e);
       if (t =? slot) && (remote || negb (e_sender e =? t)) then [net_item e] else []) ++ cheats.
Proof.
  intros Hr Hh Hm. destruct (reachable_steps _ r (room_new_inv sha512 d pkg opts now Hr Hh) Hm) as [Hs Hi].
  pose proof (inv_delivered r Hi team slot) as Hd. by rewrite (steps_data _ _ Hs) in Hd.
Qed.

(** C9: checks only accumulate: a location once checked stays checked whatever
    happens, every checked location exists in the seed, and a goal once reached
    is never taken back, not even by a disconnect. *)
Theorem progress_is_permanent sha512 d pkg opts now (r r' : Room) :
  ready d -> seed_hints_fresh d -> rtc moves (room_new sha512 d pkg opts now) r -> rtc moves r r' ->
  (forall key loc, is_checked r key loc = true -> is_checked r' key loc = true) /\
  (forall team slot loc, is_checked r (team, slot) loc = true -> contains (locations d) slot loc = true) /\
  (forall key, client_state r key = ClientStatus.Goal -> client_state r' key = ClientStatus.Goal).
Proof.
  intros Hr Hh H1 H2. destruct (reachable_steps _ r (room_new_inv sha512 d pkg opts now Hr Hh) H1) as [Hs Hi].
  destruct (reachable_steps r r' Hi H2) as [Hs2 _]. split_and!.
  - intros key loc. by apply steps_checked.
  - intros team slot loc Hc. pose proof (inv_checks r Hi team slot loc Hc) as Hk.
    by rewrite (steps_data _ _ Hs) in Hk.
  - intros key. by apply steps_goal.
Qed.

(** A slot's list of connections is, at every moment between events, free
    of duplicates and exactly the sessions logged in to that slot; so what is
    sent to a slot reaches every session of it once and nobody else. *)
Theorem slot_lists_are_the_sessions sha512 d pkg opts now (r : Room) key :
  ready d -> seed_hints_fresh d -> rtc moves (room_new sha512 d pkg opts now) r ->
  NoDup (conns_of r key) /\
  forall conn, conn ∈ conns_of r key <->
    exists c, r_clients r !! conn = Some c /\ c_auth c = true /\ (c_team c, c_slot c) = key.
Proof.
  intros Hr Hh Hm. destruct (reachable_steps _ r (room_new_inv sha512 d pkg opts now Hr Hh) Hm) as [_ Hi].
  destruct (inv_sessions r Hi) as (_ & Hnd & Hin). split; [done|]. intros conn. apply Hin.
Qed.

(** C10: updating hints eagerly is enough: between events every stored hint is
    marked found exactly when its location is checked, a found hint has the
    found status, and no slot stores a hint twice. *)
Theorem hints_tell_the_truth sha512 d pkg opts now (r : Room) key h :
  ready d -> seed_hints_fresh d -> rtc moves (room_new sha512 d pkg opts now) r ->
  NoDup (identity <$> hints_get (r_hints r) key) /\
  (h ∈ hints_get (r_hints r) key ->
   (found h = true <-> is_checked r (key.1, finding_player h) (h_location h) = true) /\
   (found h = true -> status h = HintStatus.Found)).
Proof.
  intros Hr Hh Hm. destruct (reachable_steps _ r (room_new_inv sha512 d pkg opts now Hr Hh) Hm) as [_ Hi].
  destruct (inv_hints r Hi) as [Hu Ht]. split; [apply Hu|]. intros Hin.
  destruct (Ht key h Hin) as [Hf Hs]. split; [by rewrite Hf|done].
Qed.

(** ** Release and collect *)

Lemma for_slot_known d slot e :
  ready d -> e ∈ for_slot (locations d) slot -> contains (locations d) slot (e_location e) = true.
Proof.
  intros Hr He.
  assert (Hin : e ∈ all (locations d) /\ e_sender e = slot).
  { destruct (Z.le_gt_cases 0 slot) as [Hle|Hlt].
    - rewrite for_slot_eq in He by (done || apply (ready_store d Hr)).
      unfold of_sender in He. apply list_elem_of_filter in He as [? ?]. done.
    - exfalso. assert (Heq : for_slot (locations d) slot = for_slot (locations d) 0).
      { unfold for_slot, for_slot_checked. by replace (Z.to_nat slot) with (Z.to_nat 0) by lia. }
      rewrite Heq, for_slot_eq in He by (done || apply (ready_store d Hr)).
      unfold of_sender in He. apply list_elem_of_filter in He as [Hs He].
      pose proof (ready_senders d Hr) as Hall. rewrite Forall_forall in Hall. specialize (Hall e He). lia. }
  destruct Hin as [Hin <-]. apply ready_contains. rewrite (ready_get_in d e Hr Hin). by eexists.
Qed.

Lemma wp_release key trigger r :
  ready (r_data r) ->
  wp (release_player key trigger) r (fun _ r' => rtc step r r' /\ missing_locations r' key = []).
Proof.
  intros Hr. unfold release_player. apply wp_bind, wp_read, wp_bind, wp_broadcast, wp_bind, wp_journal, wp_bind.
  cbn [id]. eapply wp_mono; [by apply wp_register|]. intros [] r1 [Hs Hc].
  apply wp_bind, wp_read, wp_broadcast. split; [exact Hs|]. unfold missing_locations.
  rewrite (steps_data _ _ Hs). apply filter_none. intros loc Hl. apply not_false_iff_true. apply Hc; [done|].
  apply list_elem_of_fmap in Hl as (e & -> & He). rewrite (steps_data _ _ Hs). by apply for_slot_known.
Qed.

(** Where [by_source] puts an entry. *)
Lemma by_source_spec r slot e :
  e ∈ all (locations (r_data r)) -> e_receiver e = slot ->
  exists locs, (e_sender e, locs) ∈ btree_items (by_source r slot) /\ e_location e ∈ locs.
Proof.
  intros He Hrec. unfold by_source.
  set (f := fun (m : gmap Z (list Z)) e => _).
  assert (Hkeep : forall l m s loc, loc ∈ default [] (m !! s) -> loc ∈ default [] (fold_left f l m !! s)).
  { induction l as [|x l IH]; intros m s loc Hl; [done|]. apply IH. unfold f. cbn beta.
    destruct (e_receiver x =? slot); [|done]. destruct (decide (e_sender x = s)) as [->|Hne].
    - rewrite lookup_insert_eq. cbn. apply elem_of_app. by left.
    - by rewrite lookup_insert_ne. }
  assert (Hin : forall l m, e ∈ l -> e_location e ∈ default [] (fold_left f l m !! e_sender e)).
  { induction l as [|x l IH]; intros m Hl; [by apply not_elem_of_nil in Hl|].
    apply elem_of_cons in Hl as [<-|Hl]; [|by apply IH].
    change (fold_left f (e :: l) m) with (fold_left f l (f m e)). apply Hkeep. unfold f. cbn beta.
    rewrite Hrec, Z.eqb_refl, lookup_insert_eq. cbn. apply elem_of_app. right. left. }
  specialize (Hin _ ∅ He). destruct (fold_left f _ ∅ !! e_sender e) as [locs|] eqn:E.
  - exists locs. split; [by apply elem_of_btree_items|done].
  - by apply not_elem_of_nil in Hin.
Qed.

Lemma wp_collect_sources team l r :
  ready (r_data r) ->
  wp (each l (fun e : Z * list Z => _ ← register_location_checks (team, e.1) e.2;
                                    update_checked_locations (team, e.1))) r
    (fun _ r' => rtc step r r' /\ forall e, e ∈ l -> covers r' (team, e.1) e.2).
Proof.
  revert r. induction l as [|[source locs] l IH]; intros r Hr.
  { apply wp_done. split; [done|]. by intros e ?%not_elem_of_nil. }
  cbn [each fst snd]. apply wp_bind, wp_bind. eapply wp_mono; [by apply wp_register|].
  intros [] r1 [H1 Hc]. apply wp_bind, wp_read, wp_broadcast.
  eapply wp_mono; [apply IH; by eapply steps_ready|]. intros [] r2 [H2 Hl].
  split; [by eapply rtc_trans|]. intros e [->|He]%elem_of_cons; [|by apply Hl].
  intros loc Hloc Hk. cbn [fst snd] in *. eapply steps_checked; [exact H2|]. apply Hc; [done|].
  by rewrite <- (steps_data _ _ H2).
Qed.

Lemma wp_collect key trigger r :
  ready (r_data r) ->
  wp (collect_player key trigger) r (fun _ r' => rtc step r r' /\
    forall e, e ∈ all (locations (r_data r)) -> e_receiver e = key.2 ->
      is_checked r' (key.1, e_sender e) (e_location e) = true).
Proof.
  intros Hr. unfold collect_player, collect_inner. destruct key as [team slot].
  assert (Hbody : wp (collect_body (team, slot) trigger) r (fun _ r1 => rtc step r r1 /\
            forall e, e ∈ all (locations (r_data r)) -> e_receiver e = slot ->
              is_checked r1 (team, e_sender e) (e_location e) = true)).
  { unfold collect_body. apply wp_bind, wp_read, wp_bind, wp_broadcast, wp_bind, wp_journal. cbn [id].
    eapply wp_mono; [by apply wp_collect_sources|]. intros [] r1 [H1 Hc]. split; [exact H1|].
    intros e He Hrec. destruct (by_source_spec r slot e He Hrec) as (locs & Hin & Hl).
    apply (Hc _ Hin); [done|]. rewrite (steps_data _ _ H1). cbn [fst snd]. apply ready_contains.
    rewrite (ready_get_in _ e Hr He). by eexists. }
  apply wp_bind. eapply wp_mono; [exact Hbody|]. intros [] r1 [H1 Hc].
  eapply wp_mono; [apply (runs_collect_groups (team, slot) false); by eapply steps_ready|].
  intros [] r2 H2. split; [by eapply rtc_trans|]. intros e He Hrec. eapply steps_checked; [exact H2|].
  by apply Hc.
Qed.

(** A release checks every location of the slot's world and a collect every
    location, in any world, that holds one of the slot's items. *)
Theorem release_and_collect_complete (r : Room) (key : SlotKey) (trigger : Trigger) :
  room_inv r ->
  (exists r' es, release_player key trigger r = Ok (tt, r', es) /\ missing_locations r' key = []) /\
  (exists r' es, collect_player key trigger r = Ok (tt, r', es) /\
     forall e, e ∈ all (locations (r_data r)) -> e_receiver e = key.2 ->
       is_checked r' (key.1, e_sender e) (e_location e) = true).
Proof.
  intros Hi. pose proof (wp_release key trigger r (inv_ready r Hi)) as Hrel.
  pose proof (wp_collect key trigger r (inv_ready r Hi)) as Hcol. unfold wp in *.
  destruct (release_player key trigger r) as [[[[] r1] es1]|]; [|done].
  destruct (collect_player key trigger r) as [[[[] r2] es2]|]; [|done]. split.
  - exists r1, es1. by split; [|apply Hrel].
  - exists r2, es2. by split; [|apply Hcol].
Qed.
End events.
