(* ===== verification/RoomDemo.v ===== *)
(** * The room's theorems at a concrete room

    Two players and an item-link group of both; Alice's world holds an item for
    Bob, one of her own, and one for the group.  The room is loaded, Alice
    connects, logs in and checks her three locations. *)

From Stdlib Require Import ZArith Lia Bool.
From stdpp Require Import base tactics list sets gmap strings sorting relations.
From S2P Require Import Prelude PyRandom Text PyObj Locations Types Datapackage Multidata Conn Hints Json PyValue Packets.
From S2P Require Import Filter Options Effects Room RoomOps RoomPlay Say Admin RoomSpec RoomInv RoomWp RoomRefines.
From S2P Require Import RoomTheorems.

#[local] Existing Instance tree_json.
#[local] Existing Instance tree_text.
#[local] Existing Instance ascii_unicode.

#[local, refine] Instance demo_hash : HashOrder := {| hash_order := fun A l => l |}.
Proof. done. Defined.

Definition demo_table : list LocationEntry :=
  [mkEntry 2 30 7 1 0; mkEntry 1 20 6 2 1; mkEntry 1 10 5 1 0; mkEntry 1 40 8 3 0].

Definition demo_locations : LocationStore :=
  default (mkStore [] [] 0) (from_entries (merge_sort key_le) demo_table 2).

Definition demo_data : MultiData :=
  mkMultiData "demo" (mkVersion 0 6 3) (mkVersion 0 5 0) ∅
    {[ 1 := mkNetworkSlot "Alice" "Clique" SlotType.Player [];
       2 := mkNetworkSlot "Bob" "Clique" SlotType.Player [];
       3 := mkNetworkSlot "Both" "Clique" SlotType.Group [1; 2] ]}
    {[ "Alice"%string := (0, 1); "Bob"%string := (0, 2) ]}
    demo_locations {[ 1 := [99] ]}
    {[ 1 := [mkHint 1 2 30 7 false "" 0 HintStatus.Unspecified] ]} ∅ [] false ∅ None ∅.

Lemma demo_all : all demo_locations =
  [mkEntry 1 10 5 1 0; mkEntry 1 20 6 2 1; mkEntry 1 40 8 3 0; mkEntry 2 30 7 1 0].
Proof. reflexivity. Qed.

Lemma demo_members g : members demo_data g = if decide (g = 3) then [1; 2] else [].
Proof.
  unfold members, demo_data. cbn [slot_info]. case_decide as Hg; [by subst|].
  destruct (decide (g = 1)) as [->|H1]; [done|]. destruct (decide (g = 2)) as [->|H2]; [done|].
  rewrite !lookup_insert_ne, lookup_singleton_ne by done. done.
Qed.

Lemma demo_ready : ready demo_data.
Proof.
  split.
  - destruct (from_entries_ok (merge_sort key_le) demo_table 2) as (s & Hs & Hwf & _).
    + apply merge_sort_ok.
    + apply merge_sort_ok.
    + repeat constructor; cbn; lia.
    + lia.
    + cbn. lia.
    + cbn [locations demo_data]. unfold demo_locations. by rewrite Hs.
  - cbn [locations demo_data]. rewrite demo_all. repeat constructor; cbn; lia.
  - intros slot. cbn [locations demo_data]. rewrite demo_all. intros i j a b Hi Hj <- Hs Hl.
    destruct i as [|[|[|[|i]]]], j as [|[|[|[|j]]]]; try done; cbn in *; simplify_eq/=.
  - exists (fun g => if decide (g = 3) then 1%nat else 0%nat). split.
    + intros g m. rewrite demo_members. destruct (decide (g = 3)) as [->|]; [|by intros ?%not_elem_of_nil].
      intros [->|[->|?%not_elem_of_nil]%elem_of_cons]%elem_of_cons; done || (vm_compute; lia).
    + intros g. case_decide; vm_compute; lia.
Qed.

Lemma demo_hints_fresh : seed_hints_fresh demo_data.
Proof.
  intros slot l h. cbn [precollected_hints demo_data]. intros [<- <-]%lookup_singleton_Some.
  by intros ->%list_elem_of_singleton.
Qed.

Definition demo_package : DataPackage :=
  mkDataPackage {["Clique"%string :=
    names_new (mkGamePackage {["Lamp"%string := 50; "Rope"%string := 7]} {["Cave"%string := 30]}
                 None ∅ ∅ ∅)]}.

Definition demo_options : RoomOptions := options_default.

Definition demo_room : Room :=
  room_new (fun _ => []) demo_data demo_package demo_options (f64_of_Z 1000).

(** The room after an event. *)
Definition after (ev : Event) (r : Room) : Room :=
  match run_event ev r with Ok (_, r', _) => r' | Err _ => r end.

Definition emitted (ev : Event) (r : Room) : list Effect :=
  match run_event ev r with Ok (_, _, es) => es | Err _ => [] end.

Lemma run_event_ok ev r :
  is_ok (run_event ev r) = true -> run_event ev r = Ok (tt, after ev r, emitted ev r).
Proof. unfold after, emitted. destruct (run_event ev r) as [[[[] r'] es]|]; done. Qed.

Lemma after_moves ev r : event_ok r ev -> is_ok (run_event ev r) = true -> moves r (after ev r).
Proof. intros Hok Hr. exists ev, (emitted ev r). split; [done|by apply run_event_ok]. Qed.

Definition demo_connect_args : ConnectArgs :=
  mkConnect (Present None) (Present (Some "Clique"%string)) (Present "Alice"%string) v_null
    (mkVersion 0 6 7) (Present 7) [] false.

Definition open_event : Event := EvConnect 11 Scoped.
Definition login_event : Event := EvPacket 11 (CConnect demo_connect_args).
Definition check_event : Event := EvPacket 11 (CLocationChecks (v_int <$> [40; 10; 20; 10; 77])).

Definition demo_opened : Room := after open_event demo_room.
Definition demo_logged : Room := after login_event demo_opened.
Definition demo_checked : Room := after check_event demo_logged.

Lemma is_some_true {A} (o : option A) : (if o then true else false) = true -> is_Some o.
Proof. destruct o; [by eexists|done]. Qed.

Lemma demo_opened_moves : moves demo_room demo_opened.
Proof. apply after_moves; vm_compute; reflexivity. Qed.

Lemma demo_logged_moves : moves demo_opened demo_logged.
Proof. apply after_moves; [apply is_some_true; vm_compute; reflexivity|vm_compute; reflexivity]. Qed.

Lemma demo_checked_moves : moves demo_logged demo_checked.
Proof. apply after_moves; [apply is_some_true; vm_compute; reflexivity|vm_compute; reflexivity]. Qed.

Lemma demo_logged_reachable : rtc moves demo_room demo_logged.
Proof. eapply rtc_l; [apply demo_opened_moves|]. apply rtc_once, demo_logged_moves. Qed.

Lemma demo_checked_reachable : rtc moves demo_room demo_checked.
Proof. eapply rtc_r; [apply demo_logged_reachable|apply demo_checked_moves]. Qed.

Lemma demo_inv : room_inv demo_room.
Proof. apply room_new_inv; [apply demo_ready|apply demo_hints_fresh]. Qed.

Lemma demo_queues :
  queue_of demo_checked (0, 1, true) = [mkNetworkItem 5 10 1 0; mkNetworkItem 8 40 1 0] /\
  queue_of demo_checked (0, 1, false) = [] /\
  queue_of demo_checked (0, 2, true) = [mkNetworkItem 6 20 1 1; mkNetworkItem 8 40 1 0].
Proof. vm_compute. split; [reflexivity|split; reflexivity]. Qed.

(** ** Witnesses *)

Lemma handlers_refine_steps_witness :
  exists r' es, run_event (EvRelease (0, 1) TPlayer) demo_room = Ok (tt, r', es) /\
    rtc step demo_room r' /\ room_inv r'.
Proof. by destruct (handlers_refine_steps demo_room (EvRelease (0, 1) TPlayer) demo_inv I) as [?|[? _]]. Defined.

(** Bob is sent a lamp after Alice's checks. *)
Definition send_event : Event := EvAdmin (ASendItem 2 "Lamp").
Definition demo_cheated : Room := after send_event demo_checked.

Lemma demo_cheated_reachable : rtc moves demo_room demo_cheated.
Proof.
  eapply rtc_r; [apply demo_checked_reachable|]. apply after_moves; [done|vm_compute; reflexivity].
Qed.

Lemma items_delivered_exactly_once_witness :
  queue_of demo_cheated (0, 2, true) =
    [mkNetworkItem 6 20 1 1; mkNetworkItem 8 40 1 0; mkNetworkItem 50 (-1) 2 0] /\
  exists cheats,
    Forall (fun i => ni_location i = -1 /\ ni_player i = 2 /\ ni_flags i = 0) cheats /\
    forall remote, queue_of demo_cheated (0, 2, remote) ≡ₚ
      (e ← filter (fun e => is_checked demo_cheated (0, e_sender e) (e_location e) = true)
             (all (locations demo_data));
       t ← recipients demo_data (e_receiver e);
       if (t =? 2) && (remote || negb (e_sender e =? t)) then [net_item e] else []) ++ cheats.
Proof.
  split; [vm_compute; reflexivity|].
  exact (items_delivered_exactly_once (fun _ => []) demo_data demo_package demo_options
           (f64_of_Z 1000) demo_cheated 0 2 demo_ready demo_hints_fresh demo_cheated_reachable).
Defined.

Lemma progress_is_permanent_witness :
  (forall key loc, is_checked demo_logged key loc = true -> is_checked demo_checked key loc = true) /\
  (forall key, client_state demo_logged key = ClientStatus.Goal ->
     client_state demo_checked key = ClientStatus.Goal).
Proof.
  destruct (progress_is_permanent (fun _ => []) demo_data demo_package demo_options (f64_of_Z 1000)
    demo_logged demo_checked demo_ready demo_hints_fresh demo_logged_reachable
    (rtc_once _ _ demo_checked_moves)) as (H1 & _ & H3).
  split; [exact H1|exact H3].
Defined.

Lemma slot_lists_are_the_sessions_witness :
  NoDup (conns_of demo_logged (0, 1)) /\
  (11 ∈ conns_of demo_logged (0, 1) <->
   exists c, r_clients demo_logged !! 11 = Some c /\ c_auth c = true /\ (c_team c, c_slot c) = (0, 1)).
Proof.
  destruct (slot_lists_are_the_sessions (fun _ => []) demo_data demo_package demo_options (f64_of_Z 1000)
    demo_logged (0, 1) demo_ready demo_hints_fresh demo_logged_reachable) as [H1 H2].
  split; [exact H1|apply H2].
Defined.

Lemma hints_tell_the_truth_witness :
  NoDup (identity <$> hints_get (r_hints demo_checked) (0, 1)).
Proof.
  apply (hints_tell_the_truth (fun _ => []) demo_data demo_package demo_options (f64_of_Z 1000)
    demo_checked (0, 1) (mkHint 1 2 30 7 false "" 0 HintStatus.Unspecified)
    demo_ready demo_hints_fresh demo_checked_reachable).
Defined.

Lemma release_and_collect_complete_witness :
  (exists r' es, release_player (0, 1) TPlayer demo_room = Ok (tt, r', es) /\ missing_locations r' (0, 1) = []) /\
  (exists r' es, collect_player (0, 1) TPlayer demo_room = Ok (tt, r', es) /\
     forall e, e ∈ all (locations (r_data demo_room)) -> e_receiver e = 1 ->
       is_checked r' (0, e_sender e) (e_location e) = true).
Proof. exact (release_and_collect_complete demo_room (0, 1) TPlayer demo_inv). Defined.
