(* ===== verification/RoomAuth.v ===== *)
(** * Who gets in, and whom a message reaches

    [handle_connect] against the conditions of admission, the gate in front of
    the dispatch, and the audiences of the broadcasts. *)

From Stdlib Require Import ZArith Lia Bool.
From stdpp Require Import base tactics list sets gmap strings sorting relations.
From S2P Require Import Prelude PyRandom Text PyObj Locations Types Datapackage Multidata Conn Hints Json PyValue Packets.
From S2P Require Import Filter Options Effects Room RoomOps RoomPlay Say Admin RoomSpec RoomInv RoomWp RoomRefines.
From S2P Require Import RoomTheorems RoomDemo.

Section auth.
Context `{Json} `{HashOrder} `{HText : !JsonText} `{HUni : Unicode}.

(** ** Admission *)

(** What a [Connect] must satisfy, one field per reason to refuse. *)
Record admitted (r : Room) (args : ConnectArgs) (team slot : Z) (h : ItemsHandling.t) : Prop := {
  adm_name : exists name, co_name args = Present name /\ connect_names (r_data r) !! name = Some (team, slot);
  adm_password : forall pw, password (r_options r) = Some pw -> co_password args = Present (Some pw);
  adm_slot_password : forall pws, slot_passwords (r_options r) = Some pws ->
    exists pw, pws !! slot = Some pw /\ co_password args = Present (Some pw);
  adm_unlocked : (team, slot) ∉ r_locked_slots r;
  adm_game : connect_ignore_game args = true \/ co_game args = Present (Some (slot_game r slot));
  adm_floor : version_ltb (co_version args)
    (if connect_ignore_game args then MIN_CLIENT_VERSION else min_client_version (r_data r) slot) = false;
  adm_exact : compatibility (r_options r) = 0 -> co_version args = SERVER_VERSION;
  adm_handling : connect_items_handling args = Some h
}.

Lemma mjoin_present {A} (a : Arg (option A)) x : mjoin (as_ok a) = Some x <-> a = Present (Some x).
Proof. destruct a as [| |[y|]]; cbn; split; congruence. Qed.

Lemma dedup_not_nil `{EqDecision A} (x : A) l : dedup (x :: l) <> [].
Proof. intros Hd. apply (not_elem_of_nil x). rewrite <- Hd. apply elem_of_dedup. left. Qed.

Lemma cond_nil {A} (b : bool) (x : A) : (if b then [x] else []) = [] <-> b = false.
Proof. by destruct b. Qed.

Lemma password_clause (expected : option string) (a : Arg (option string)) :
  ct_eq_opt expected (mjoin (as_ok a)) = true <-> forall pw, expected = Some pw -> a = Present (Some pw).
Proof.
  rewrite ct_eq_opt_ok. setoid_rewrite mjoin_present. destruct expected as [e|]; [|naive_solver].
  split; [intros [?|(s & [= <-] & ->)]; [done|by intros ? [= <-]]|]. intros Hp. right. exists e. auto.
Qed.

Lemma slot_password_clause (pws : gmap Z string) slot (a : Arg (option string)) :
  slot_password_ok pws slot (mjoin (as_ok a)) = true <->
  exists pw, pws !! slot = Some pw /\ a = Present (Some pw).
Proof.
  unfold slot_password_ok. destruct (pws !! slot) as [e|]; [|naive_solver].
  rewrite ct_eq_opt_ok. setoid_rewrite mjoin_present. naive_solver.
Qed.

Lemma resolved_errors_nil r args game team slot :
  mjoin (as_ok (co_game args)) = game ->
  resolved_errors r args (mjoin (as_ok (co_password args))) game team slot = [] <->
  (team, slot) ∉ r_locked_slots r /\
  (forall pws, slot_passwords (r_options r) = Some pws ->
     exists pw, pws !! slot = Some pw /\ co_password args = Present (Some pw)) /\
  (connect_ignore_game args = true \/ co_game args = Present (Some (slot_game r slot))) /\
  version_ltb (co_version args)
    (if connect_ignore_game args then MIN_CLIENT_VERSION else min_client_version (r_data r) slot) = false /\
  is_Some (connect_items_handling args).
Proof.
  intros Hg. unfold resolved_errors. rewrite !app_nil, !cond_nil.
  assert (H1 : (if bool_decide ((team, slot) ∈ r_locked_slots r) then [InvalidSlot; SlotLocked] else []) = []
               <-> (team, slot) ∉ r_locked_slots r) by (case_bool_decide; naive_solver).
  assert (H2 : match slot_passwords (r_options r) with
               | Some passwords => if slot_password_ok passwords slot (mjoin (as_ok (co_password args)))
                                   then [] else [InvalidPassword]
               | None => []
               end = [] <-> (forall pws, slot_passwords (r_options r) = Some pws ->
                 exists pw, pws !! slot = Some pw /\ co_password args = Present (Some pw))).
  { destruct (slot_passwords (r_options r)) as [pws|]; [|naive_solver].
    setoid_rewrite <- slot_password_clause. destruct (slot_password_ok pws slot _) eqn:E; [naive_solver|].
    split; [done|]. intros Hp. specialize (Hp pws eq_refl). congruence. }
  assert (H3 : negb (connect_ignore_game args) && negb (bool_decide (game = Some (slot_game r slot))) = false
               <-> (connect_ignore_game args = true \/ co_game args = Present (Some (slot_game r slot)))).
  { rewrite andb_false_iff, !negb_false_iff, bool_decide_eq_true, <- Hg, mjoin_present. done. }
  assert (H4 : match connect_items_handling args with Some _ => [] | None => [InvalidItemsHandling] end = []
               <-> is_Some (connect_items_handling args)).
  { destruct (connect_items_handling args); [naive_solver|]. split; [done|by intros []]. }
  rewrite H1, H2, H3, H4. tauto.
Qed.

Lemma connect_errors_nil r args team slot :
  (name ← as_ok (co_name args); connect_names (r_data r) !! name) = Some (team, slot) ->
  connect_errors r args = [] <-> exists h, admitted r args team slot h.
Proof.
  intros Hn. unfold connect_errors. rewrite Hn, !app_nil, !cond_nil, negb_false_iff, password_clause.
  rewrite (resolved_errors_nil r args _ team slot eq_refl), andb_false_iff, Z.eqb_neq, negb_false_iff,
    bool_decide_eq_true.
  assert (Hname : exists name, co_name args = Present name /\ connect_names (r_data r) !! name = Some (team, slot)).
  { destruct (co_name args) as [| |name]; try done. by exists name. }
  split.
  - intros (Hp & (Hl & Hs & Hg & Hv & [h Hh]) & Hc). exists h. split; try done. intros ?. tauto.
  - intros [h []]. split_and!; try done. destruct (decide (compatibility (r_options r) = 0)); [right; auto|by left].
Qed.

(** C3: the room fails closed.  A [Connect] on an open connection either
    satisfies every condition of admission (a known name, the room's and the
    slot's password, no lock, the right game, a version above the floor, legal
    item flags), and the connection ends logged in to exactly that slot; or it
    does not, and the room is unchanged but for one reply that says why. *)
Theorem connect_fails_closed (r r' : Room) conn args c es :
  sessions_ok r -> r_clients r !! conn = Some c -> handle_connect conn args r = Ok (tt, r', es) ->
  (exists team slot h c', admitted r args team slot h /\
     r_clients r' !! conn = Some c' /\ c_auth c' = true /\ session_key c' = (team, slot) /\
     c_items_handling c' = h) \/
  ((forall team slot h, ~ admitted r args team slot h) \/ is_bad (co_password args) = true \/
     co_game args = Missing) /\
  r' = r /\
  exists m, es = [ESend conn [m]] /\
    (m = invalid_packet "Connect" "Connect" \/
     exists errors, m = ConnectionRefused errors /\ errors <> []).
Proof.
  intros Hok Hc. unfold handle_connect.
  destruct (is_bad (co_password args) || _) eqn:Hbad.
  { intros [= <- <-]. right. split; [|split; [done|]].
    - right. apply orb_true_iff in Hbad as [Hb|Hb]; [by left|right]. by destruct (co_game args).
    - eexists. split; [done|]. by left. }
  unfold read at 1, mbind at 1, M_bind at 1. cbn [id].
  destruct (name ← as_ok (co_name args); connect_names (r_data r) !! name) as [[team slot]|] eqn:Hn.
  - pose proof (connect_errors_nil r args team slot Hn) as Hiff.
    destruct (connect_errors r args) as [|e errs] eqn:He.
    + intros Hrun. left. destruct (proj1 Hiff eq_refl) as [h Hadm].
      pose proof (wp_connect_accepted conn args team slot (default (ItemsHandling.mk 0) (connect_items_handling args)) r c Hc) as Hw.
      unfold wp, mbind, M_bind, expect in *. cbn [mret M_ret] in Hrun. unfold mret, M_ret in Hrun.
      destruct (connect_accepted _ _ _ _ _ r) as [[[[] r1] es1]|]; [|done].
      injection Hrun as <- <-. destruct Hw as (c' & (n & Hc') & ->).
      exists team, slot, h, c'. split; [done|]. rewrite stamped_lookup. unfold logged_in. cbn [r_clients set_by_slot set_clients].
      rewrite lookup_insert_eq, Hc', (adm_handling _ _ _ _ _ Hadm). done.
    + intros [= <- <-]. right. split; [|split; [done|]].
      * left. intros t s h Hadm. assert (Hts : (t, s) = (team, slot)).
        { destruct (adm_name _ _ _ _ _ Hadm) as (name & Hname & Hl). rewrite Hname in Hn. cbn in Hn. congruence. }
        injection Hts as -> ->. enough (e :: errs = []) by done. apply Hiff. by exists h.
      * eexists. split; [done|]. right. eexists. split; [done|]. apply dedup_not_nil.
  - assert (Hadm : forall team slot h, ~ admitted r args team slot h).
    { intros t s h Hadm. destruct (adm_name _ _ _ _ _ Hadm) as (name & Hname & Hl). rewrite Hname in Hn.
      cbn in Hn. congruence. }
    destruct (connect_errors r args) as [|e errs] eqn:He.
    + exfalso. unfold connect_errors in He. rewrite Hn in He.
      apply app_eq_nil in He as [_ He]. by apply app_eq_nil in He as [He _].
    + intros [= <- <-]. right. split; [by left|split; [done|]].
      eexists. split; [done|]. right. eexists. split; [done|]. apply dedup_not_nil.
Qed.

(** ** The gate *)

(** C13: before a connection is logged in, everything but [Connect] and
    [GetDataPackage] is ignored without a trace; afterwards only the four kinds
    a filter may name can be dropped, so checks, scouts, hints, syncs and logins
    always reach their handler; and a dropped packet changes nothing but the
    sampler and leaves only the record of the drop. *)
Theorem dispatch_gate (r : Room) conn c p :
  r_clients r !! conn = Some c ->
  (c_auth c = false -> allowed_before_auth p = false -> handle conn p r = Ok (tt, r, [])) /\
  (c_auth c = true -> from_slot_kind p = None -> handle conn p r = dispatch conn p r) /\
  (forall k labels, c_auth c = true -> from_slot_kind p = Some (k, labels) ->
     (exists s es, (drops sampler_roll (default [] (filter_for r (session_key c))) FromSlot k labels (r_sampler r)).1 = true /\
        handle conn p r = Ok (tt, set_sampler s r, es) /\ es = [EDrop (mkDropKey (session_key c) FromSlot k)]) \/
     (exists s, handle conn p r = dispatch conn p (set_sampler s r))).
Proof.
  intros Hc. unfold handle, read, mbind, M_bind. cbn [id]. rewrite Hc. split_and!.
  - by intros -> ->.
  - intros -> ->. cbn. destruct (dispatch conn p r) as [[[[] r'] es]|]; done.
  - intros k labels -> ->. cbn [negb andb]. unfold filters_from_slot, read, write, when, emit, mbind, M_bind, mret, M_ret.
    cbn [id]. fold (session_key c). destruct (filter_for r (session_key c)) as [f|] eqn:Hf.
    + cbn [default]. destruct (drops _ _ _ _ _ _) as [[] s]; cbn.
      * left. by exists s, [EDrop (mkDropKey (session_key c) FromSlot k)].
      * right. exists s. destruct (dispatch conn p (set_sampler s r)) as [[[[] r'] es]|]; done.
    + right. exists (r_sampler r). assert (set_sampler (r_sampler r) r = r) as -> by (by destruct r).
      cbn. destruct (dispatch conn p r) as [[[[] r'] es]|]; done.
Qed.

(** ** Audiences *)

Lemma elem_of_clients_where r p conn :
  sessions_ok r -> conn ∈ clients_where r p <-> exists c, r_clients r !! conn = Some c /\ p c = true.
Proof.
  intros (Hid & _). unfold clients_where, all_clients. rewrite list_elem_of_fmap. split.
  - intros (c & -> & Hin). apply list_elem_of_filter in Hin as [Hp Hin].
    apply list_elem_of_fmap in Hin as ([k c'] & -> & Hin). apply elem_of_map_to_list in Hin.
    cbn in *. exists c'. split; [|done]. by rewrite (Hid k c' Hin).
  - intros (c & Hc & Hp). exists c. split; [symmetry; by apply Hid|].
    apply list_elem_of_filter. split; [done|]. apply list_elem_of_fmap. exists (conn, c).
    split; [done|]. by apply elem_of_map_to_list.
Qed.

Lemma elem_of_conns_where r key p conn :
  sessions_ok r -> conn ∈ conns_where r key p <->
  exists c, r_clients r !! conn = Some c /\ c_auth c = true /\ session_key c = key /\ p c = true.
Proof.
  intros (_ & _ & Hin). unfold conns_where. rewrite list_elem_of_filter, Hin. split.
  - intros [Hp (c & Hc & Ha & Hk)]. rewrite Hc in Hp. by exists c.
  - intros (c & Hc & Ha & Hk & Hp). rewrite Hc. split; [done|]. by exists c.
Qed.

Lemma elem_of_resolve r to_ conn :
  sessions_ok r ->
  conn ∈ resolve r to_ <->
  match to_ with
  | RThese l => conn ∈ l
  | _ => exists c, r_clients r !! conn = Some c /\ c_auth c = true /\
      match to_ with
      | RAll | RThese _ => True
      | RAllText => c_no_text c = false
      | RSlot key => session_key c = key
      | RSlotText key => session_key c = key /\ c_no_text c = false
      | RAllTextAbout key => c_no_text c = false /\ (scoped c = false \/ session_key c = key)
      | RAllTextFull => c_no_text c = false /\ scoped c = false
      | RSlotScopedText key => session_key c = key /\ c_no_text c = false /\ scoped c = true
      end
  end.
Proof.
  intros Hok. unfold resolve. rewrite merge_sort_Permutation. pose proof Hok as (_ & _ & Hin).
  destruct to_; try done; rewrite ?elem_of_clients_where, ?elem_of_conns_where, ?Hin by done;
    clear Hin; (split; intros (c & Hc & Hrest); exists c; (split; [done|]));
    unfold session_key in *; destruct (c_auth c), (c_no_text c), (scoped c); cbn in Hrest |- *;
    try (apply bool_decide_eq_true in Hrest); try apply bool_decide_eq_true; intuition congruence.
Qed.

(** Every audience holds only logged-in connections; the full feed and any
    slot's scoped feed never overlap, so an item message sent to both reaches
    nobody twice; together they are exactly the audience of a message about
    that slot; and no text goes to a connection that asked for none. *)
Theorem audiences (r : Room) (key : SlotKey) :
  sessions_ok r ->
  (forall conn, conn ∈ resolve r RAllTextFull -> conn ∈ resolve r (RSlotScopedText key) -> False) /\
  (forall conn, conn ∈ resolve r (RAllTextAbout key) <->
     conn ∈ resolve r RAllTextFull \/ conn ∈ resolve r (RSlotScopedText key)) /\
  (forall key' conn, key <> key' -> conn ∈ resolve r (RSlot key) -> conn ∈ resolve r (RSlot key') -> False) /\
  (forall to_ conn c, (forall l, to_ <> RThese l) -> conn ∈ resolve r to_ -> r_clients r !! conn = Some c ->
     c_auth c = true /\
     (c_no_text c = true -> to_ = RAll \/ exists k, to_ = RSlot k)).
Proof.
  intros Hok. split_and!.
  - intros conn. rewrite !elem_of_resolve by done. intros (c & Hc & ? & ? & Hs) (c' & Hc' & ? & ? & ? & Hs').
    congruence.
  - intros conn. rewrite !elem_of_resolve by done. split.
    + intros (c & Hc & Ha & Hn & Hs). destruct (scoped c) eqn:E; [right|left]; exists c; naive_solver.
    + intros [(c & Hc & Ha & Hn & Hs)|(c & Hc & Ha & Hk & Hn & Hs)]; exists c; auto.
  - intros key' conn Hne. rewrite !elem_of_resolve by done.
    intros (c & Hc & _ & Hk) (c' & Hc' & _ & Hk'). congruence.
  - intros to_ conn c Ht Hin Hc. apply elem_of_resolve in Hin; [|done].
    destruct to_; try (by exfalso; eapply Ht); destruct Hin as (c' & Hc' & Ha & Hrest);
      assert (c' = c) as -> by congruence; (split; [done|]); intros Hn; eauto; exfalso; intuition congruence.
Qed.
End auth.

(** ** Witnesses *)

#[local] Existing Instance tree_json.
#[local] Existing Instance tree_text.
#[local] Existing Instance ascii_unicode.
#[local] Existing Instance demo_hash.

Lemma demo_opened_inv : room_inv demo_opened.
Proof. apply (moves_steps demo_room); [apply demo_inv|apply demo_opened_moves]. Qed.

Lemma demo_logged_inv : room_inv demo_logged.
Proof. apply (moves_steps demo_opened); [apply demo_opened_inv|apply demo_logged_moves]. Qed.

Definition login : M unit := handle_connect 11 demo_connect_args.

Lemma login_ok : exists r' es, login demo_opened = Ok (tt, r', es).
Proof.
  assert (Hok : is_ok (login demo_opened) = true) by (vm_compute; reflexivity).
  destruct (login demo_opened) as [[[[] r'] es]|]; [by exists r', es|done].
Qed.

Lemma connect_fails_closed_witness :
  exists r' es c, r_clients demo_opened !! 11 = Some c /\ login demo_opened = Ok (tt, r', es) /\
  ((exists team slot h c', admitted demo_opened demo_connect_args team slot h /\
     r_clients r' !! 11 = Some c' /\ c_auth c' = true /\ session_key c' = (team, slot) /\
     c_items_handling c' = h) \/ r' = demo_opened).
Proof.
  destruct login_ok as (r' & es & He). exists r', es, (client_with_feed 11 Scoped).
  split; [reflexivity|split; [exact He|]].
  destruct (connect_fails_closed demo_opened r' 11 demo_connect_args (client_with_feed 11 Scoped) es
              (inv_sessions _ demo_opened_inv) eq_refl He) as [Hl|(_ & Hr & _)]; [left; exact Hl|right; exact Hr].
Defined.

Lemma dispatch_gate_witness :
  handle 11 CSync demo_opened = Ok (tt, demo_opened, []).
Proof.
  destruct (dispatch_gate demo_opened 11 (client_with_feed 11 Scoped) CSync eq_refl) as [Hg _].
  apply Hg; reflexivity.
Defined.

Lemma audiences_witness :
  sessions_ok demo_logged /\
  (11 ∈ resolve demo_logged (RAllTextAbout (0, 1)) <->
     11 ∈ resolve demo_logged RAllTextFull \/ 11 ∈ resolve demo_logged (RSlotScopedText (0, 1))).
Proof.
  split; [exact (inv_sessions _ demo_logged_inv)|].
  apply (audiences demo_logged (0, 1) (inv_sessions _ demo_logged_inv)).
Defined.
