(* ===== verification/RoomFeed.v ===== *)
(** * What the room says: the item feed, the item streams, the countdown

    Here the effects matter: [fires m r a r' es] is one run of a handler with
    everything it emitted. *)

From Stdlib Require Import ZArith Lia Bool SpecFloat.
From stdpp Require Import base tactics list sets gmap strings sorting relations pretty.
From S2P Require Import Prelude PyRandom Text PyObj Locations Types Datapackage Multidata Conn Hints Json PyValue Packets.
From S2P Require Import Filter Options Effects Room RoomOps RoomPlay Say Admin RoomSpec RoomInv RoomWp RoomRefines.
From S2P Require Import RoomTheorems RoomDemo.

Section feed.
Context `{Json} `{HashOrder} `{HText : !JsonText} `{HUni : Unicode}.

Definition fires {A} (m : M A) (r : Room) (a : A) (r' : Room) (es : list Effect) : Prop :=
  m r = Ok (a, r', es).

Lemma fires_bind {A B} (m : M A) (k : A -> M B) r b r' es :
  fires (m ≫= k) r b r' es ->
  exists a r1 e1 e2, fires m r a r1 e1 /\ fires (k a) r1 b r' e2 /\ es = e1 ++ e2.
Proof.
  unfold fires, mbind, M_bind. destruct (m r) as [[[a r1] e1]|] eqn:Em; [|done].
  destruct (k a r1) as [[[b' r2] e2]|] eqn:Ek; [|done]. intros [= <- <- <-].
  by exists a, r1, e1, e2.
Qed.

Lemma fires_read {A B} (f : Room -> A) (k : A -> M B) r b r' es :
  fires (read f ≫= k) r b r' es -> fires (k (f r)) r b r' es.
Proof.
  intros (a & r1 & e1 & e2 & [= <- <- <-] & Hk & ->)%fires_bind. exact Hk.
Qed.

Lemma fires_write {B} f (k : unit -> M B) r b r' es :
  fires (write f ≫= k) r b r' es -> fires (k tt) (f r) b r' es.
Proof. intros (a & r1 & e1 & e2 & [= <- <- <-] & Hk & ->)%fires_bind. exact Hk. Qed.

Lemma fires_emit {B} e (k : unit -> M B) r b r' es :
  fires (emit e ≫= k) r b r' es -> exists es', es = e :: es' /\ fires (k tt) r b r' es'.
Proof.
  intros (a & r1 & e1 & e2 & [= <- <- <-] & Hk & ->)%fires_bind. by exists e2.
Qed.

Lemma omap_cons_eq {A B} (f : A -> option B) x l :
  omap f (x :: l) = match f x with Some y => y :: omap f l | None => omap f l end.
Proof. done. Qed.

(** ** Handlers that emit nothing of a kind *)

Section quiet.
Context {B : Type} (f : Effect -> option B).

Definition quiet {A} (m : M A) : Prop := forall r a r' es, fires m r a r' es -> omap f es = [].

Lemma quiet_ret {A} (a : A) : quiet (mret a).
Proof. by intros r b r' es [= <- <- <-]. Qed.

Lemma quiet_stop {A} s : quiet (stop s : M A).
Proof. by intros r b r' es Hf. Qed.

Lemma quiet_bind {A C} (m : M A) (k : A -> M C) : quiet m -> (forall a, quiet (k a)) -> quiet (m ≫= k).
Proof.
  intros Hm Hk r b r' es (a & r1 & e1 & e2 & H1 & H2 & ->)%fires_bind.
  rewrite omap_app. by rewrite (Hm _ _ _ _ H1), (Hk _ _ _ _ _ H2).
Qed.

Lemma quiet_read {A} (g : Room -> A) : quiet (read g).
Proof. by intros r b r' es [= <- <- <-]. Qed.

Lemma quiet_write g : quiet (write g).
Proof. by intros r b r' es [= <- <- <-]. Qed.

Lemma quiet_emit e : f e = None -> quiet (emit e).
Proof. intros He r b r' es [= <- <- <-]. cbn. by rewrite He. Qed.

Lemma quiet_when b m : quiet m -> quiet (when b m).
Proof. intros Hm. destruct b; [exact Hm|apply quiet_ret]. Qed.

Lemma quiet_on_some {A} (o : option A) k : (forall a, quiet (k a)) -> quiet (on_some o k).
Proof. intros Hk. destruct o; [apply Hk|apply quiet_ret]. Qed.

Lemma quiet_expect {A} (o : option A) : quiet (expect o).
Proof. destruct o; [apply quiet_ret|apply quiet_stop]. Qed.

Lemma quiet_each {A} (l : list A) body : (forall a, quiet (body a)) -> quiet (each l body).
Proof.
  intros Hb. induction l as [|a l IH]; [apply quiet_ret|]. apply quiet_bind; [apply Hb|]. by intros [].
Qed.

Lemma quiet_mapM {A C} (g : A -> M C) l : (forall a, quiet (g a)) -> quiet (mapM g l).
Proof.
  intros Hg. induction l as [|a l IH]; [apply quiet_ret|].
  apply quiet_bind; [apply Hg|]. intros y. apply quiet_bind; [apply IH|]. intros k. apply quiet_ret.
Qed.

Lemma quiet_send_item_to fuel team target item : quiet (send_item_to fuel team target item).
Proof.
  revert target. induction fuel as [|fuel IH]; intros target; [apply quiet_stop|]. cbn [send_item_to].
  apply quiet_bind; [apply quiet_read|]. intros r. destruct (group_members_of r target).
  - apply quiet_bind; [apply quiet_when, quiet_write|]. intros _. apply quiet_write.
  - by apply quiet_each.
Qed.

Lemma quiet_modify_client conn g : quiet (modify_client conn g).
Proof. apply quiet_write. Qed.
End quiet.

(** ** The feed *)

Definition full_frame (e : Effect) : option (list ServerPacket) :=
  match e with EBroadcast RAllTextFull msgs => Some msgs | _ => None end.

Definition scoped_frame (key : SlotKey) (e : Effect) : option (list ServerPacket) :=
  match e with
  | EBroadcast (RSlotScopedText key') msgs => if decide (key' = key) then Some msgs else None
  | _ => None
  end.

Definition check_of (e : Effect) : option CheckRecord :=
  match e with EJournalCheck c => Some c | _ => None end.

(** The message and the journal line of one send. *)
Definition send_message (slot : Z) (s : Sendable) : ServerPacket :=
  let '(receiver, item, location, flags) := s in
  item_send_message receiver (mkNetworkItem item location slot flags).

Definition send_record (now : f64) (slot : Z) (s : Sendable) : CheckRecord :=
  let '(receiver, item, location, flags) := s in mkCheckRecord now slot receiver item location flags.

Definition receiver_of (s : Sendable) : Z := let '(receiver, _, _, _) := s in receiver.

(** The frames of a list of messages: 140 to a frame. *)
Definition frames (msgs : list ServerPacket) : list (list ServerPacket) :=
  chunks (length msgs) PRINT_JSON_CHUNK msgs.

Lemma chunks_fuel {A} n fuel fuel' (l : list A) :
  (0 < n)%nat -> (length l <= fuel)%nat -> (length l <= fuel')%nat -> chunks fuel n l = chunks fuel' n l.
Proof.
  intros Hn. revert fuel' l. induction fuel as [|fuel IH]; intros fuel' l H1 H2.
  - destruct l; [by destruct fuel'|cbn in H1; lia].
  - destruct l as [|x l]; [by destruct fuel'|]. destruct fuel' as [|fuel']; [cbn in H2; lia|].
    cbn [chunks]. f_equal. cbn [length] in *. apply IH; rewrite length_drop; cbn [length]; lia.
Qed.

Lemma frames_full l1 l2 :
  length l1 = PRINT_JSON_CHUNK -> frames (l1 ++ l2) = l1 :: frames l2.
Proof.
  intros Hl. unfold frames. assert (Hpos : (0 < PRINT_JSON_CHUNK)%nat) by (unfold PRINT_JSON_CHUNK; lia).
  rewrite length_app. destruct l1 as [|x l1]; [cbn in Hl; unfold PRINT_JSON_CHUNK in Hl; lia|].
  cbn [length app Nat.add chunks]. f_equal.
  - rewrite <- Hl. change (x :: l1 ++ l2) with ((x :: l1) ++ l2). by rewrite take_app_length.
  - rewrite <- Hl. change (x :: l1 ++ l2) with ((x :: l1) ++ l2). rewrite drop_app_length.
    rewrite Hl. apply chunks_fuel; [done|lia|lia].
Qed.

Lemma frames_small l : (length l <= PRINT_JSON_CHUNK)%nat -> frames l = match l with [] => [] | _ => [l] end.
Proof.
  intros Hl. unfold frames. destruct l as [|x l]; [done|]. cbn [length chunks].
  rewrite take_ge by done. rewrite drop_ge by done. by destruct (length l).
Qed.

Lemma frames_spec msgs :
  mjoin (frames msgs) = msgs /\ Forall (fun f => (0 < length f <= PRINT_JSON_CHUNK)%nat) (frames msgs).
Proof.
  assert (Hpos : (0 < PRINT_JSON_CHUNK)%nat) by (unfold PRINT_JSON_CHUNK; lia).
  unfold frames. assert (Hg : forall fuel l, (length l <= fuel)%nat ->
    mjoin (chunks fuel PRINT_JSON_CHUNK l) = l /\
    Forall (fun f : list ServerPacket => (0 < length f <= PRINT_JSON_CHUNK)%nat) (chunks fuel PRINT_JSON_CHUNK l)).
  { induction fuel as [|fuel IH]; intros l Hl.
    - destruct l; [done|cbn in Hl; lia].
    - destruct l as [|x l]; [done|]. cbn [chunks].
      destruct (IH (drop PRINT_JSON_CHUNK (x :: l))) as [H1 H2].
      { rewrite length_drop. cbn [length] in *. lia. }
      split.
      + set (rest := chunks _ _ _) in *. change (mjoin (?a :: rest)) with (a ++ mjoin rest).
        rewrite H1. apply take_drop.
      + constructor; [|done]. rewrite length_take. cbn [length]. lia. }
  by apply Hg.
Qed.
Lemma fires_send_item_to fuel team target item r u r' es :
  fires (send_item_to fuel team target item) r u r' es -> exists q, r' = set_received_items q r.
Proof.
  revert target r u r' es. induction fuel as [|fuel IH]; intros target r u r' es; [done|].
  cbn [send_item_to]. intros Hf%fires_read. cbn [id] in Hf.
  destruct (group_members_of r target) as [|m ms].
  - destruct (negb (ni_player item =? target)); cbn [when] in Hf.
    + apply fires_write in Hf. injection Hf as _ <- _. by eexists.
    + apply fires_bind in Hf as (? & ? & ? & ? & [= <- <- <-] & [= <- <- <-] & _). by eexists.
  - revert r u r' es Hf. generalize (m :: ms). clear m ms. intros l.
    induction l as [|m l IHl]; intros r u r' es Hf.
    + injection Hf as _ <- _. exists (r_received_items r). by destruct r.
    + cbn [each] in Hf. apply fires_bind in Hf as (? & r1 & ? & ? & H1 & H2 & _).
      apply IH in H1 as [q ->]. apply IHl in H2 as [q' ->]. by exists q'.
Qed.

(** Which scoped buffers a send is copied to. *)
Definition hears (r : Room) (key : SlotKey) (sender_scoped : bool) (t : SlotKey) (s : Sendable) : bool :=
  if decide (t = key) then sender_scoped
  else bool_decide ((key.1, receiver_of s) = t) && has_scoped r t.

Lemma scoped_push_lookup key m scoped t :
  default [] (scoped_push key m scoped !! t) =
  default [] (scoped !! t) ++ (if decide (key = t) then [m] else []).
Proof.
  unfold scoped_push. case_decide as Hk.
  - subst. by rewrite lookup_insert_eq.
  - rewrite lookup_insert_ne by done. by rewrite app_nil_r.
Qed.

(** The buffers after one send. *)
Lemma scoped_step r key (b : bool) receiver item location flags (m : ServerPacket) scoped t :
  let receiver_key := (key.1, receiver) in
  let scoped1 := if b then scoped_push key m scoped else scoped in
  let scoped2 := if negb (bool_decide (receiver_key = key)) && has_scoped r receiver_key
                 then scoped_push receiver_key m scoped1 else scoped1 in
  default [] (scoped2 !! t) = default [] (scoped !! t) ++
    (if hears r key b t (receiver, item, location, flags) then [m] else []).
Proof.
  cbn zeta. unfold hears. cbn [receiver_of].
  assert (H1 : default [] ((if b then scoped_push key m scoped else scoped) !! t) =
          default [] (scoped !! t) ++ (if decide (t = key) then if b then [m] else [] else [])).
  { destruct b; [rewrite scoped_push_lookup|]; repeat case_decide; try congruence; by rewrite ?app_nil_r. }
  destruct (negb _ && _) eqn:E.
  - apply andb_true_iff in E as [E1 E2]. apply negb_true_iff, bool_decide_eq_false in E1.
    rewrite scoped_push_lookup, H1. destruct (decide (t = key)) as [->|Hk].
    + rewrite decide_False by done. by rewrite app_nil_r.
    + rewrite app_nil_r. case_decide as Hr.
      * subst t. by rewrite bool_decide_true, E2 by done.
      * by rewrite bool_decide_false.
  - rewrite H1. destruct (decide (t = key)) as [->|Hk]; [done|]. rewrite app_nil_r.
    destruct (decide ((key.1, receiver) = t)) as [<-|Hr].
    + rewrite bool_decide_false in E by done. cbn [negb andb] in E. rewrite bool_decide_true, E by done.
      symmetry. apply app_nil_r.
    + rewrite bool_decide_false by done. symmetry. apply app_nil_r.
Qed.

Lemma fires_distribute key b l : forall dirty feed scoped r x r' es,
  fires (distribute key b l dirty feed scoped) r x r' es ->
  (length feed <= PRINT_JSON_CHUNK)%nat ->
  (exists q, r' = set_received_items q r) /\
  omap full_frame es ++ match x.1.2 with [] => [] | _ => [x.1.2] end
    = frames (feed ++ (send_message key.2 <$> l)) /\
  omap check_of es = (send_record (r_clock r) key.2 <$> l) /\
  (forall t, omap (scoped_frame t) es = []) /\
  (forall t, default [] (x.2 !! t) =
     default [] (scoped !! t) ++ (send_message key.2 <$> List.filter (hears r key b t) l)).
Proof.
  induction l as [|[[[receiver item] location] flags] l IH]; intros dirty feed scoped r x r' es Hf Hlen.
  { injection Hf as <- <- <-. cbn [fst snd omap list_omap fmap list_fmap List.filter]. rewrite app_nil_r.
    split_and!; [exists (r_received_items r); by destruct r| |done|done|intros; by rewrite app_nil_r].
    rewrite frames_small by done. done. }
  destruct key as [team slot]. cbn [distribute fst snd] in *.
  apply fires_read in Hf. apply fires_emit in Hf as (es1 & -> & Hf).
  apply fires_bind in Hf as ([] & r1 & e1 & e2 & Hsend & Hf & ->). cbn [id] in *.
  pose proof (quiet_send_item_to full_frame _ _ _ _ _ _ _ _ Hsend) as Q1.
  pose proof (quiet_send_item_to check_of _ _ _ _ _ _ _ _ Hsend) as Q2.
  assert (Q3 : forall t, omap (scoped_frame t) e1 = [])
    by (intros t; exact (quiet_send_item_to (scoped_frame t) _ _ _ _ _ _ _ _ Hsend)).
  apply fires_send_item_to in Hsend as [q ->].
  set (message := item_send_message receiver (mkNetworkItem item location slot flags)) in *.
  set (sc := if negb _ && _ then _ else _) in *.
  assert (Hsc : forall t, default [] (sc !! t) = default [] (scoped !! t) ++
            (if hears r (team, slot) b t (receiver, item, location, flags) then [message] else [])).
  { intros t. exact (scoped_step r (team, slot) b receiver item location flags message scoped t). }
  assert (Hfin : forall d fd e, fires (distribute (team, slot) b l d fd sc) (set_received_items q r) x r' e ->
            (length fd <= PRINT_JSON_CHUNK)%nat ->
    (exists q, r' = set_received_items q r) /\
    omap full_frame e ++ match x.1.2 with [] => [] | _ => [x.1.2] end
      = frames (fd ++ (send_message slot <$> l)) /\
    omap check_of e = (send_record (r_clock r) slot <$> l) /\
    (forall t, omap (scoped_frame t) e = []) /\
    (forall t, default [] (x.2 !! t) = default [] (scoped !! t) ++
       (send_message slot <$> List.filter (hears r (team, slot) b t) ((receiver, item, location, flags) :: l)))).
  { intros d fd e He Hl. destruct (IH _ _ _ _ _ _ _ He Hl) as ([q' ->] & H1 & H2 & H3 & H4).
    split_and!; [by exists q'|exact H1|exact H2|exact H3|]. intros t. rewrite (H4 t), Hsc. cbn [List.filter snd].
    change (hears (set_received_items q r)) with (hears r).
    destruct (hears r (team, slot) b t _); cbn [fmap list_fmap]; [by rewrite <- app_assoc|by rewrite app_nil_r]. }
  set (rec := mkCheckRecord (r_clock r) slot receiver item location flags).
  assert (Hes : forall e, omap full_frame (EJournalCheck rec :: e1 ++ e) = omap full_frame e /\
    omap check_of (EJournalCheck rec :: e1 ++ e) = rec :: omap check_of e /\
    forall t, omap (scoped_frame t) (EJournalCheck rec :: e1 ++ e) = omap (scoped_frame t) e).
  { intros e. rewrite !omap_cons_eq, !omap_app, Q1, Q2. split_and!; [done|done|].
    intros t. by rewrite omap_cons_eq, omap_app, Q3. }
  destruct (Hes e2) as (E1 & E2 & E3). rewrite E1, E2. setoid_rewrite E3. clear Hes E1 E2 E3.
  destruct (Nat.leb_spec PRINT_JSON_CHUNK (length feed)) as [Hge|Hlt].
  - apply fires_emit in Hf as (es2 & -> & Hf).
    destruct (Hfin _ _ _ Hf) as (H0' & H1 & H2 & H3 & H4); [unfold PRINT_JSON_CHUNK; cbn; lia|].
    split_and!; [done| | |done|done].
    + rewrite frames_full by lia. rewrite omap_cons_eq. cbn [full_frame app]. f_equal. exact H1.
    + rewrite omap_cons_eq. cbn [check_of]. by rewrite H2.
  - destruct (Hfin _ _ _ Hf) as (H0' & H1 & H2 & H3 & H4); [rewrite length_app; cbn; lia|].
    split_and!; [done| | |done|done].
    + rewrite H1, <- app_assoc. done.
    + by rewrite H2.
Qed.
Lemma fires_mapM_expect {A C} (g : A -> option C) l r x r' es :
  fires (mapM (fun a => expect (g a)) l) r x r' es -> x = omap g l /\ r' = r /\ es = [].
Proof.
  revert x r' es. induction l as [|a l IH]; intros x r' es Hf; [by injection Hf as <- <- <-|].
  change (mapM (fun a => expect (g a)) (a :: l))
    with (y ← expect (g a); k ← mapM (fun a => expect (g a)) l; mret (y :: k)) in Hf.
  apply fires_bind in Hf as (y & r1 & e1 & e2 & H1 & Hf & ->).
  destruct (g a) as [c|] eqn:Eg; [|done]. injection H1 as <- <- <-.
  apply fires_bind in Hf as (k & r1 & e1 & e3 & H2 & Hf & ->). injection Hf as <- <- <-.
  apply IH in H2 as (-> & -> & ->). rewrite omap_cons_eq, Eg. done.
Qed.

(** The scoped buffers, each cut into frames. *)
Lemma fires_scoped l r u r' es :
  fires (each l (fun tm : SlotKey * list ServerPacket =>
           each (chunks (length tm.2) PRINT_JSON_CHUNK tm.2) (broadcast (RSlotScopedText tm.1)))) r u r' es ->
  r' = r /\ omap full_frame es = [] /\ omap check_of es = [] /\
  forall t, omap (scoped_frame t) es = (tm ← l; if decide (tm.1 = t) then frames tm.2 else []).
Proof.
  revert es. induction l as [|[t0 ms] l IH]; intros es Hf; [by injection Hf as <- <- <-|].
  cbn [each fst snd] in Hf. apply fires_bind in Hf as ([] & r1 & e1 & e2 & H1 & H2 & ->).
  assert (Hfr : forall (fs : list (list ServerPacket)) e r1, fires (each fs (broadcast (RSlotScopedText t0))) r tt r1 e ->
            r1 = r /\ e = (EBroadcast (RSlotScopedText t0) <$> fs)).
  { induction fs as [|f fs IHf]; intros e r2 Hf; [by injection Hf as <- <-|]. cbn [each] in Hf.
    apply fires_emit in Hf as (e' & -> & Hf). destruct (IHf _ _ Hf) as [-> ->]. done. }
  destruct (Hfr _ _ _ H1) as [-> ->]. destruct (IH _ H2) as (-> & Hfull & Hcheck & Hs).
  assert (Hnone : forall B (f : Effect -> option B) fs, (forall m, f (EBroadcast (RSlotScopedText t0) m) = None) ->
            omap f (EBroadcast (RSlotScopedText t0) <$> fs) = []).
  { intros B f fs Hn. induction fs as [|m fs IHf]; [done|]. cbn [fmap list_fmap]. rewrite omap_cons_eq, Hn. done. }
  rewrite !omap_app, Hfull, Hcheck, !Hnone by done. split_and!; [done..|]. intros t.
  rewrite omap_app, Hs. cbn [mbind list_bind fst snd]. f_equal. case_decide as Ht.
  - subst t. change (chunks (length ms) PRINT_JSON_CHUNK ms) with (frames ms).
    induction (frames ms) as [|m fs IHf]; [done|]. cbn [fmap list_fmap].
    rewrite omap_cons_eq. cbn [scoped_frame]. rewrite decide_True by done. f_equal. exact IHf.
  - apply Hnone. intros m. cbn. by rewrite decide_False.
Qed.

Lemma bind_unique_key (l : list (SlotKey * list ServerPacket)) t :
  NoDup l.*1 ->
  (tm ← l; if decide (tm.1 = t) then frames tm.2 else []) =
  match List.find (fun tm => bool_decide (tm.1 = t)) l with Some tm => frames tm.2 | None => [] end.
Proof.
  induction l as [|[k ms] l IH]; intros Hnd; [done|]. rewrite fmap_cons, NoDup_cons in Hnd.
  destruct Hnd as [Hn Hnd]. cbn [mbind list_bind fst snd List.find]. specialize (IH Hnd). cbn [fst] in Hn.
  destruct (decide (k = t)) as [->|Hk].
  - rewrite bool_decide_true by done. change (list_bind ?A ?B ?f ?x) with (x ≫= f). rewrite IH.
    destruct (List.find _ l) as [[k' ms']|] eqn:E; [|by rewrite app_nil_r].
    apply List.find_some in E as [Hin Hk]. apply bool_decide_eq_true in Hk. cbn in Hk. subst k'.
    exfalso. apply Hn. apply list_elem_of_fmap. exists (t, ms'). split; [done|]. by apply list_elem_of_In.
  - rewrite bool_decide_false by done. exact IH.
Qed.

Lemma scoped_lookup (m : gmap SlotKey (list ServerPacket)) t :
  (tm ← hash_order (map_to_list m); if decide (tm.1 = t) then frames tm.2 else []) =
  frames (default [] (m !! t)).
Proof.
  rewrite bind_unique_key.
  2: { rewrite hash_order_perm. apply NoDup_fst_map_to_list. }
  destruct (List.find _ _) as [[k ms]|] eqn:E.
  - apply List.find_some in E as [Hin Hk]. apply bool_decide_eq_true in Hk. cbn in Hk. subst k.
    apply list_elem_of_In in Hin. rewrite hash_order_perm in Hin. apply elem_of_map_to_list in Hin.
    by rewrite Hin.
  - destruct (m !! t) as [ms|] eqn:Em; [|done]. exfalso.
    assert (Hin : (t, ms) ∈ hash_order (map_to_list m)) by (rewrite hash_order_perm; by apply elem_of_map_to_list).
    apply list_elem_of_In in Hin. eapply List.find_none in E; [|exact Hin]. cbn in E.
    by rewrite bool_decide_true in E.
Qed.

(** The tail of a batch says nothing in the feeds. *)
Section tail.
Context {B : Type} (f : Effect -> option B).
Hypothesis Hsend : forall c m, f (ESend c m) = None.
Hypothesis Hdirty : f EDirty = None.
Hypothesis Hslot : forall key m, f (EBroadcast (RSlot key) m) = None.
Hypothesis Hthese : forall l m, f (EBroadcast (RThese l) m) = None.

Lemma quiet_send_new_items slots : quiet f (send_new_items slots).
Proof.
  apply quiet_each. intros slot. apply quiet_bind; [apply quiet_read|]. intros r. apply quiet_each. intros conn.
  apply quiet_bind; [apply quiet_read|]. intros r1. apply quiet_on_some. intros c.
  destruct (ItemsHandling.no_items _); [apply quiet_ret|]. cbn zeta.
  match goal with |- context [if ?b then _ else _] => destruct b end; [apply quiet_ret|].
  apply quiet_bind; [apply quiet_emit, Hsend|]. intros _. apply quiet_modify_client.
Qed.

Lemma quiet_on_changed_hints key : quiet f (on_changed_hints key).
Proof.
  apply quiet_bind; [apply quiet_read|]. intros r. apply quiet_on_some. intros s.
  destruct (merge_sort Z.le (elements s)); [apply quiet_ret|apply quiet_emit, Hthese].
Qed.

Lemma quiet_register_tail key dirty fresh :
  quiet f (_ ← write (fun r => set_location_checks
             (<[key := checks_of r key ∪ list_to_set fresh]> (r_location_checks r)) r);
           _ ← send_new_items dirty;
           r ← read id;
           _ ← when (negb (slot_empty r key))
                 (broadcast (RSlot key) [RoomUpdateP (checks_update fresh (slot_points r key))]);
           changed ← recheck_hints key;
           _ ← each changed on_changed_hints;
           mark_dirty).
Proof.
  apply quiet_bind; [apply quiet_write|]. intros _. apply quiet_bind; [apply quiet_send_new_items|]. intros _.
  apply quiet_bind; [apply quiet_read|]. intros r.
  apply quiet_bind; [apply quiet_when, quiet_emit, Hslot|]. intros _. apply quiet_bind.
  - apply quiet_bind; [apply quiet_read|]. intros r1. destruct (recheck _ _ _).
    apply quiet_bind; [apply quiet_write|]. intros _. apply quiet_ret.
  - intros changed. apply quiet_bind; [apply quiet_each; apply quiet_on_changed_hints|]. intros _.
    apply quiet_emit, Hdirty.
Qed.
End tail.

(** The sends of a batch, in the order clients see them. *)
Definition sends_of (r : Room) (key : SlotKey) (locs : list Z) : list Sendable :=
  merge_sort sendable_le (sendable <$>
    omap (get (locations (r_data r)) key.2) (dedup (merge_sort Z.le (split_locations r key locs).1))).

(** C11: the item feed.  Registering a batch announces each newly checked item
    once, in the order of receiver, item, location and flags, to the full feed
    in frames of 140; writes one journal line for each in the same order; and
    copies to a slot's scoped feed exactly the messages about it (those it
    sends, those it receives), in the same order and framing, when it has a
    scoped connection. *)
Theorem item_feed (r r' : Room) key locs es :
  fires (register_location_checks key locs) r tt r' es ->
  let sends := sends_of r key locs in
  omap full_frame es = frames (send_message key.2 <$> sends) /\
  omap check_of es = (send_record (r_clock r) key.2 <$> sends) /\
  (forall t, omap (scoped_frame t) es =
     frames (send_message key.2 <$> List.filter (hears r key (has_scoped r key) t) sends)) /\
  mjoin (omap full_frame es) = (send_message key.2 <$> sends) /\
  Forall (fun f => (0 < length f <= PRINT_JSON_CHUNK)%nat) (omap full_frame es).
Proof.
  intros Hf sends.
  enough (Hmain : omap full_frame es = frames (send_message key.2 <$> sends) /\
    omap check_of es = (send_record (r_clock r) key.2 <$> sends) /\
    (forall t, omap (scoped_frame t) es =
       frames (send_message key.2 <$> List.filter (hears r key (has_scoped r key) t) sends))).
  { destruct Hmain as (H1 & H2 & H3). split_and!; [done|done|done| |]; rewrite H1; apply frames_spec. }
  unfold sends, sends_of. destruct key as [team slot]. unfold register_location_checks in Hf.
  apply fires_write in Hf. set (r0 := set_location_checks _ r) in Hf.
  assert (Hsplit : split_locations r0 (team, slot) locs = split_locations r (team, slot) locs).
  { unfold split_locations. f_equal; [|f_equal]; apply filter_ext; intros loc;
      unfold r0; by rewrite is_checked_touch. }
  apply fires_read in Hf. cbn [id] in Hf. rewrite Hsplit in Hf.
  destruct (split_locations r (team, slot) locs) as [fresh0 repeats]. cbn [fst snd] in *.
  apply fires_bind in Hf as ([] & rr & e0 & e1 & Hrec & Hf & ->).
  assert (Hq0 : rr = r0 /\ omap full_frame e0 = [] /\ omap check_of e0 = [] /\ forall t, omap (scoped_frame t) e0 = []).
  { unfold record_redundant in Hrec. destruct (Nat.eqb repeats 0); injection Hrec as <- <-; done. }
  destruct Hq0 as (-> & Q1 & Q2 & Q3). rewrite !omap_app, Q1, Q2. setoid_rewrite omap_app. setoid_rewrite Q3.
  cbn [app]. clear Q1 Q2 Q3 Hrec Hsplit.
  destruct (dedup (merge_sort Z.le fresh0)) as [|f0 fs]; [by injection Hf as <- <-|].
  set (fresh := f0 :: fs) in *. clearbody fresh.
  apply fires_write in Hf. set (r1 := set_activity_at _ r0) in Hf.
  apply fires_bind in Hf as (found & rr & ee & e2 & Hm & Hf & ->).
  apply fires_mapM_expect in Hm as (-> & -> & ->). cbn [app].
  change (locations (r_data r0)) with (locations (r_data r)) in Hf.
  set (sends' := merge_sort sendable_le _) in *.
  apply fires_bind in Hf as ([[dirty feed] scoped] & r2 & e3 & e4 & Hd & Hf & ->).
  apply fires_distribute in Hd as ([q ->] & D1 & D2 & D3 & D4); [|cbn; unfold PRINT_JSON_CHUNK; lia].
  cbn [fst snd] in *. change (has_scoped r0 (team, slot)) with (has_scoped r (team, slot)) in D4.
  change (r_clock r1) with (r_clock r) in D2.
  apply fires_bind in Hf as ([] & r2 & e5 & e6 & Hlast & Hf & ->).
  assert (Hl : r2 = set_received_items q r1 /\ omap full_frame e5 = match feed with [] => [] | _ => [feed] end /\
               omap check_of e5 = [] /\ forall t, omap (scoped_frame t) e5 = []).
  { destruct feed; cbn in Hlast; injection Hlast as <- <-; done. }
  destruct Hl as (-> & L1 & L2 & L3).
  apply fires_bind in Hf as ([] & r2 & e7 & e8 & Hsc & Hf & ->).
  apply fires_scoped in Hsc as (-> & S1 & S2 & S3).
  assert (T1 : omap full_frame e8 = []) by (eapply quiet_register_tail; [..|exact Hf]; done).
  assert (T2 : omap check_of e8 = []) by (eapply quiet_register_tail; [..|exact Hf]; done).
  assert (T3 : forall t, omap (scoped_frame t) e8 = [])
    by (intros t; eapply quiet_register_tail; [..|exact Hf]; done).
  rewrite !omap_app, L1, L2, S1, S2, T1, T2, D2, !app_nil_r. split_and!; [exact D1|done|].
  intros t. rewrite !omap_app, D3, L3, S3, T3, app_nil_r, scoped_lookup. cbn [app].
  f_equal. rewrite D4. rewrite lookup_empty. done.
Qed.
(** ** The countdown *)

(** What one due tick says with [n] left. *)
Definition count_effect (n : Z) : Effect :=
  let says text value :=
    EBroadcast RAllText [text_message (Some PtCountdown) None None None (Some value) (server_says text)] in
  if 0 <? n then says (pretty n) n else says "GO"%string 0.

(** When the [i]-th tick from here is due. *)
Definition due (c : Countdown) (i : nat) : f64 := Nat.iter i (fun t => f64_add t (f64_of_Z 1)) (next_at c).

(** What is left after [k] ticks: the last one says GO. *)
Definition ticked (c : Countdown) (k : nat) : option Countdown :=
  if decide (Z.of_nat k <= remaining c) then Some (mkCountdown (remaining c - Z.of_nat k) (due c k)) else None.

Lemma due_S c k : due (mkCountdown (remaining c - 1) (f64_add (next_at c) (f64_of_Z 1))) k = due c (S k).
Proof. unfold due. cbn [next_at]. by rewrite Nat.iter_succ_r. Qed.

Lemma tick_loop_runs now : forall k fuel c r,
  r_countdown r = Some c -> 0 <= remaining c -> Z.of_nat k <= remaining c + 1 ->
  (2 + Z.to_nat (remaining c) <= fuel)%nat ->
  (forall i, (i < k)%nat -> f64_ltb now (due c i) = false) ->
  (Z.of_nat k <= remaining c -> f64_ltb now (due c k) = true) ->
  tick_loop fuel now r = Ok (tt, set_countdown (ticked c k) r,
    (fun i => count_effect (remaining c - Z.of_nat i)) <$> seq 0 k).
Proof.
  induction k as [|k IH]; intros fuel c r Hc H0' Hk Hfuel Hdue Hnext.
  - destruct fuel as [|fuel]; [lia|]. cbn [tick_loop]. unfold read, mbind, M_bind. rewrite Hc.
    cbn [on_some]. unfold due in Hnext. cbn [Nat.iter nat_rect] in Hnext. rewrite Hnext by lia.
    unfold done_, mret, M_ret. unfold ticked. rewrite decide_True by lia.
    assert (mkCountdown (remaining c - Z.of_nat 0) (due c 0) = c) as ->.
    { destruct c. unfold due. cbn. f_equal. lia. }
    rewrite <- Hc. by destruct r.
  - destruct fuel as [|fuel]; [lia|]. cbn [tick_loop]. unfold read, mbind, M_bind. rewrite Hc.
    cbn [on_some]. pose proof (Hdue 0%nat ltac:(lia)) as Hd0. unfold due in Hd0. cbn [Nat.iter nat_rect] in Hd0.
    rewrite Hd0. cbn [seq fmap list_fmap]. rewrite <- fmap_S_seq, <- list_fmap_compose. unfold compose.
    rewrite Z.sub_0_r. destruct (Z.ltb_spec 0 (remaining c)) as [Hpos|Hz].
    + set (c1 := mkCountdown (remaining c - 1) (f64_add (next_at c) (f64_of_Z 1))).
      unfold countdown_message, broadcast, emit, write. rewrite (IH fuel c1).
      * f_equal. f_equal.
        -- f_equal. unfold ticked. unfold c1 at 1. cbn [remaining]. unfold c1. rewrite due_S.
           do 2 case_decide; try lia; [|done]. cbn [remaining].
           replace (remaining c - 1 - Z.of_nat k) with (remaining c - Z.of_nat (S k)) by lia. done.
        -- cbn [app]. f_equal.
           ++ unfold count_effect. destruct (Z.ltb_spec 0 (remaining c)); [done|lia].
           ++ apply fmap_ext_in. intros i _. unfold c1. cbn [remaining].
              f_equal. lia.
      * done.
      * cbn. lia.
      * cbn. lia.
      * cbn. lia.
      * intros i Hi. unfold c1. rewrite due_S. apply Hdue. lia.
      * unfold c1. rewrite due_S. cbn. intros Hl. apply Hnext. lia.
    + assert (Hrem : remaining c = 0) by lia. assert (k = 0)%nat as -> by lia.
      destruct fuel as [|fuel]; [lia|]. cbn. unfold ticked. rewrite Hrem. cbn. done.
Qed.

(** The countdown.  However late the clock is reported, the room says every
    number that has come due, in order, down to 1, then GO, once, and stops;
    what is not yet due stays scheduled at its own time; with nothing due, and
    with no countdown, a tick only sets the clock. *)
Theorem tick_catches_up (r : Room) (now : f64) (c : Countdown) (k : nat) :
  r_countdown r = Some c -> 0 <= remaining c -> Z.of_nat k <= remaining c + 1 ->
  (forall i, (i < k)%nat -> f64_ltb now (due c i) = false) ->
  (Z.of_nat k <= remaining c -> f64_ltb now (due c k) = true) ->
  tick now r = Ok (tt, set_countdown (ticked c k) (set_clock now r),
    (fun i => count_effect (remaining c - Z.of_nat i)) <$> seq 0 k).
Proof.
  intros Hc H0' Hk Hdue Hnext. unfold tick, write, read, mbind, M_bind. cbn [r_countdown set_clock].
  rewrite Hc. cbn [tick_fuel]. rewrite (tick_loop_runs now k _ c); try done.
Qed.

(** ** The item streams *)

(** What a session is owed: everything in its stream from its counter on. *)
Definition delivery (r : Room) (conn : ConnId) : option Effect :=
  c ← r_clients r !! conn;
  let all := items_for r conn in
  if ItemsHandling.no_items (c_items_handling c) || (length all <=? c_send_index c)%nat then None
  else Some (ESend conn [ReceivedItems (c_send_index c) (drop (c_send_index c) all)]).

Definition deliver_body (conn : ConnId) : M unit :=
  r ← read id;
  on_some (r_clients r !! conn) (fun client =>
    if ItemsHandling.no_items (c_items_handling client) then done_
    else
      let all := items_for r conn in
      let index := c_send_index client in
      if (length all <=? index)%nat then done_
      else
        _ ← send conn [ReceivedItems index (drop index all)];
        modify_client conn (client_set_send_index (length all))).

(** The counters after a delivery to these sessions. *)
Definition advance (r : Room) (conn : ConnId) : Room :=
  match delivery r conn with
  | Some _ => match r_clients r !! conn with
              | Some c => set_clients (<[conn := client_set_send_index (length (items_for r conn)) c]>
                                         (r_clients r)) r
              | None => r
              end
  | None => r
  end.

Lemma deliver_body_runs conn r :
  deliver_body conn r = Ok (tt, advance r conn, match delivery r conn with Some e => [e] | None => [] end).
Proof.
  unfold deliver_body, advance, delivery, read, mbind, M_bind. cbn [id].
  destruct (r_clients r !! conn) as [c|] eqn:Hc; cbn [on_some mbind option_bind]; [|done].
  destruct (ItemsHandling.no_items _); [done|]. cbn [orb].
  destruct (length (items_for r conn) <=? c_send_index c)%nat; [done|].
  unfold send, emit, modify_client, write. by rewrite Hc.
Qed.

Lemma advance_lookup r conn conn' : conn <> conn' -> r_clients (advance r conn) !! conn' = r_clients r !! conn'.
Proof.
  intros Hne. unfold advance. destruct (delivery r conn); [|done].
  destruct (r_clients r !! conn); [|done]. cbn. by rewrite lookup_insert_ne.
Qed.

Lemma advance_fields r conn :
  r_by_slot (advance r conn) = r_by_slot r /\ r_data (advance r conn) = r_data r /\
  r_received_items (advance r conn) = r_received_items r.
Proof.
  unfold advance. destruct (delivery r conn); [|done]. by destruct (r_clients r !! conn).
Qed.

Lemma delivery_advance r conn conn' : conn <> conn' -> delivery (advance r conn) conn' = delivery r conn'.
Proof.
  intros Hne. unfold delivery, items_for. rewrite advance_lookup by done.
  destruct (advance_fields r conn) as (_ & -> & ->). done.
Qed.

(** A pass over distinct sessions. *)
Lemma deliver_all l : forall r,
  NoDup l ->
  each l deliver_body r = Ok (tt, fold_left advance l r, omap (delivery r) l).
Proof.
  induction l as [|conn l IH]; intros r Hnd; [done|]. apply NoDup_cons in Hnd as [Hn Hnd].
  cbn [each]. unfold mbind, M_bind. rewrite deliver_body_runs, (IH (advance r conn) Hnd). cbn [fold_left].
  assert (Ho : omap (delivery (advance r conn)) l = omap (delivery r) l).
  { clear IH Hnd. induction l as [|x l IHl]; [done|]. rewrite not_elem_of_cons in Hn. destruct Hn as [Hx Hn].
    rewrite !omap_cons_eq, delivery_advance by done. by rewrite IHl. }
  rewrite Ho, omap_cons_eq. by destruct (delivery r conn).
Qed.

Lemma fold_advance_fields l r : r_by_slot (fold_left advance l r) = r_by_slot r.
Proof.
  revert r. induction l as [|c l IH]; intros r; [done|]. cbn. rewrite IH. apply advance_fields.
Qed.

Lemma each_app {A} (l k : list A) body r :
  each (l ++ k) body r = (_ ← each l body; each k body) r.
Proof.
  revert r. induction l as [|a l IH]; intros r; cbn [app each].
  - unfold mbind, M_bind, done_, mret, M_ret. by destruct (each k body r) as [[[[] ?] ?]|].
  - unfold mbind, M_bind in *. destruct (body a r) as [[[u r1] e1]|]; [|done]. rewrite IH.
    destruct (each l body r1) as [[[[] r2] e2]|]; [|done].
    destruct (each k body r2) as [[[v r3] e3]|]; [|done]. by rewrite app_assoc.
Qed.

(** The nested loop is one pass, the lists being read where they are used. *)
Lemma send_new_items_flat l : forall r,
  NoDup (slot ← l; conns_of r (0, slot)) ->
  each l (fun slot => r ← read id; each (conns_of r (0, slot)) deliver_body) r =
  each (slot ← l; conns_of r (0, slot)) deliver_body r.
Proof.
  induction l as [|slot l IH]; intros r Hnd; [done|]. cbn [each mbind list_bind] in *.
  rewrite each_app. unfold mbind, M_bind in *. unfold read. cbn [id].
  apply NoDup_app in Hnd as (H1 & _ & H2). rewrite (deliver_all _ _ H1).
  set (r1 := fold_left advance _ r).
  assert (Hc : forall key, conns_of r1 key = conns_of r key).
  { intros key. unfold conns_of, r1. by rewrite fold_advance_fields. }
  assert (Hl : (list_bind Z ConnId (fun slot => conns_of r1 (0, slot)) l) =
               (list_bind Z ConnId (fun slot => conns_of r (0, slot)) l)).
  { clear -Hc. induction l as [|s l IHl]; [done|]. cbn. by rewrite Hc, IHl. }
  specialize (IH r1). unfold mbind, M_bind, read in IH. cbn [id] in IH. rewrite Hl in IH.
  rewrite (IH H2). done.
Qed.
Lemma delivery_advance_self r conn : delivery (advance r conn) conn = None.
Proof.
  unfold advance. destruct (delivery r conn) as [e|] eqn:Hd; [|done].
  destruct (r_clients r !! conn) as [c|] eqn:Hc.
  2: { unfold delivery. by rewrite Hc. }
  unfold delivery. cbn [r_clients set_clients]. rewrite lookup_insert_eq. cbn [mbind option_bind].
  assert (Hi : items_for (set_clients (<[conn := client_set_send_index (length (items_for r conn)) c]>
                 (r_clients r)) r) conn = items_for r conn).
  { unfold items_for. cbn. rewrite lookup_insert_eq, Hc. done. }
  rewrite Hi. cbn. rewrite Nat.leb_refl. by rewrite orb_true_r.
Qed.

Lemma delivery_fold l : forall r conn, (conn ∈ l \/ delivery r conn = None) ->
  delivery (fold_left advance l r) conn = None.
Proof.
  induction l as [|x l IH]; intros r conn Hc; cbn [fold_left].
  - destruct Hc as [Hc|Hc]; [by apply not_elem_of_nil in Hc|done].
  - apply IH. rewrite elem_of_cons in Hc. destruct (decide (x = conn)) as [->|Hne].
    + right. apply delivery_advance_self.
    + rewrite delivery_advance by done. destruct Hc as [[->|Hc]|Hc]; [done|by left|by right].
Qed.

Lemma visits_NoDup r team l :
  sessions_ok r -> NoDup l -> NoDup (slot ← l; conns_of r (team, slot)).
Proof.
  intros Hok. pose proof Hok as (_ & Hnd & Hin). induction l as [|slot l IH]; intros Hl; [constructor|].
  apply NoDup_cons in Hl as [Hn Hl]. cbn [mbind list_bind]. apply NoDup_app. split_and!; [apply Hnd| |by apply IH].
  intros conn Hc Hc'. apply Hin in Hc as (c & Hc & _ & Hk).
  apply list_elem_of_bind in Hc' as (slot' & Hc' & Hs'). apply Hin in Hc' as (c' & Hc' & _ & Hk').
  assert (c' = c) as -> by congruence. rewrite Hk in Hk'. injection Hk' as ->. done.
Qed.

(** The item streams have no gaps and no repeats.  Flushing the queues to
    the sessions of some slots sends each session that wants items, once, every
    item of its stream from its counter on, under that index, and nothing to a
    session that is up to date; afterwards every session visited is. *)
Theorem new_items_stream (r r' : Room) (slots : gset Z) es :
  sessions_ok r -> send_new_items slots r = Ok (tt, r', es) ->
  let visits := slot ← hash_order (elements slots); conns_of r (0, slot) in
  NoDup visits /\
  es = omap (delivery r) visits /\
  (forall conn, conn ∈ visits -> delivery r' conn = None) /\
  (forall conn, conn ∈ visits <-> exists c, r_clients r !! conn = Some c /\ c_auth c = true /\
     c_team c = 0 /\ c_slot c ∈ slots).
Proof.
  intros Hok Hs visits.
  assert (Hnd : NoDup visits).
  { apply visits_NoDup; [done|]. rewrite hash_order_perm. apply NoDup_elements. }
  change (send_new_items slots) with (each (hash_order (elements slots))
    (fun slot => r ← read id; each (conns_of r (0, slot)) deliver_body)) in Hs.
  rewrite send_new_items_flat in Hs by exact Hnd. rewrite deliver_all in Hs by exact Hnd.
  injection Hs as <- <-. split_and!; [done|done| |].
  - intros conn Hc. apply delivery_fold. by left.
  - intros conn. unfold visits. rewrite list_elem_of_bind. pose proof Hok as (_ & _ & Hin). split.
    + intros (slot & Hc & Hs). apply Hin in Hc as (c & Hc & Ha & [= <- <-]). exists c.
      rewrite hash_order_perm in Hs. by rewrite elem_of_elements in Hs.
    + intros (c & Hc & Ha & Ht & Hs). exists (c_slot c). rewrite Hin, hash_order_perm, elem_of_elements.
      split; [|done]. exists c. unfold session_key. by rewrite Ht.
Qed.
End feed.

(** ** Witnesses *)

#[local] Existing Instance tree_json.
#[local] Existing Instance tree_text.
#[local] Existing Instance ascii_unicode.
#[local] Existing Instance demo_hash.

Lemma demo_register : exists r' es, fires (register_location_checks (0, 1) [40; 10; 20]) demo_logged tt r' es.
Proof.
  assert (Hok : is_ok (register_location_checks (0, 1) [40; 10; 20] demo_logged) = true)
    by (vm_compute; reflexivity).
  unfold fires. destruct (register_location_checks _ _ _) as [[[[] r'] es]|]; [by exists r', es|done].
Qed.

Lemma item_feed_witness :
  exists r' es, fires (register_location_checks (0, 1) [40; 10; 20]) demo_logged tt r' es /\
    omap check_of es =
      [mkCheckRecord (f64_of_Z 1000) 1 1 5 10 0; mkCheckRecord (f64_of_Z 1000) 1 2 6 20 1;
       mkCheckRecord (f64_of_Z 1000) 1 3 8 40 0].
Proof.
  destruct demo_register as (r' & es & He). exists r', es. split; [exact He|].
  destruct (item_feed demo_logged r' (0, 1) [40; 10; 20] es He) as (_ & Hc & _).
  rewrite Hc. vm_compute. reflexivity.
Defined.

Definition demo_countdown : Room := set_countdown (Some (mkCountdown 2 (f64_of_Z 1001))) demo_room.

Lemma tick_catches_up_witness :
  exists r', tick (f64_of_Z 2000) demo_countdown = Ok (tt, r', count_effect <$> [2; 1; 0]) /\
    r_countdown r' = None.
Proof.
  eexists. split.
  - rewrite (tick_catches_up demo_countdown (f64_of_Z 2000) (mkCountdown 2 (f64_of_Z 1001)) 3).
    + reflexivity.
    + reflexivity.
    + vm_compute. discriminate.
    + vm_compute. discriminate.
    + intros i Hi. destruct i as [|[|[|i]]]; [reflexivity|reflexivity|reflexivity|lia].
    + intros Hk. exfalso. vm_compute in Hk. by apply Hk.
  - reflexivity.
Defined.

Lemma demo_flush : exists r' es, send_new_items {[ 1; 2 ]} demo_checked = Ok (tt, r', es).
Proof.
  assert (Hok : is_ok (send_new_items {[ 1; 2 ]} demo_checked) = true) by (vm_compute; reflexivity).
  destruct (send_new_items _ _) as [[[[] r'] es]|]; [by exists r', es|done].
Qed.

Lemma demo_checked_inv : room_inv demo_checked.
Proof. apply (moves_steps demo_logged); [|apply demo_checked_moves].
  apply (moves_steps demo_opened); [|apply demo_logged_moves].
  apply (moves_steps demo_room); [apply demo_inv|apply demo_opened_moves]. Qed.

Lemma new_items_stream_witness :
  exists r' es, send_new_items {[ 1; 2 ]} demo_checked = Ok (tt, r', es) /\ length es = 0%nat.
Proof.
  destruct demo_flush as (r' & es & He). exists r', es. split; [exact He|].
  destruct (new_items_stream demo_checked r' {[ 1; 2 ]} es (inv_sessions _ demo_checked_inv) He)
    as (_ & -> & _).
  vm_compute. reflexivity.
Defined.
