(* ===== verification/RoomStoreTheorems.v ===== *)
(** * What the data store promises

    [set_writes_one_key_or_nothing]: a [Set] is all or nothing, and who hears of
    it.  [get_reads_what_set_stored]: the value of a [Set] is what every later
    [Get] answers.  [bytes_stay_exact]: the byte gauge is the size of the store.
    [views_are_never_stored]: no event stores a [_read_] key. *)

From Stdlib Require Import ZArith Lia Bool SpecFloat.
From stdpp Require Import base tactics list sets gmap strings sorting.
From S2P Require Import Prelude PyRandom Text PyObj Locations Types Datapackage Multidata Conn Hints Json PyValue.
From S2P Require Import DataStore Packets Filter Options Effects Room RoomOps RoomStore RoomPlay Say Admin RoomFrame.
From S2P Require Import RoomSpec RoomInv RoomWp RoomRefines RoomTheorems RoomDemo.

Section store.
Context `{Json} `{HashOrder} `{HText : !JsonText} `{HUni : Unicode}.

(** ** One [Set] *)

(** The value the operations start from: an absent key has the packet's default,
    or zero. *)
Definition starting_value (r : Room) (key : string) (args : SetArgs) : Value :=
  match r_stored_data r !! key with
  | Some v => v
  | None => default (v_int 0) (st_default args)
  end.

(** A connection is among the recipients of a broadcast. *)
Definition hears (es : list Effect) (conn : ConnId) : Prop :=
  exists targets ps, EBroadcast (RThese targets) ps ∈ es /\ conn ∈ targets.

Definition subscribed (r : Room) (key : string) (conn : ConnId) : Prop :=
  conn ∈ default ∅ (r_stored_data_subscriptions r !! key).

(** A [Set] that is carried out. *)
Definition set_accepted (args : SetArgs) (r : Room) (key : string) (value : Value) : Prop :=
  exists entries ops,
    st_key args = Present key /\ st_operations args = Present entries /\
    starts_with READ_PREFIX key = false /\ mapM parse_operation entries = Some ops /\
    apply_all (starting_value r key args) ops = Ok value.

Lemma elem_of_set_targets r conn key want c :
  c ∈ set_targets r conn key want <-> subscribed r key c \/ (want = true /\ c = conn).
Proof.
  unfold set_targets, subscribed. set (subs := default ∅ _).
  rewrite merge_sort_Permutation. destruct want; cbn [andb].
  - destruct (mem conn (elements subs)) eqn:E; cbn [negb].
    + rewrite elem_of_elements. split; [by left|]. intros [|[_ ->]]; [done|].
      unfold mem in E. apply existsb_exists in E as (x & Hx & ->%Z.eqb_eq).
      apply elem_of_elements. by apply list_elem_of_In.
    + rewrite elem_of_app, list_elem_of_singleton, elem_of_elements. tauto.
  - rewrite elem_of_elements. split; [by left|]. by intros [|[? _]].
Qed.

Lemma set_targets_NoDup r conn key want : NoDup (set_targets r conn key want).
Proof.
  unfold set_targets. set (subs := default ∅ _). rewrite merge_sort_Permutation.
  destruct (want && negb (mem conn (elements subs))) eqn:E; [|apply NoDup_elements].
  apply NoDup_app. split; [apply NoDup_elements|]. split; [|apply NoDup_singleton].
  intros x Hx ->%list_elem_of_singleton. apply andb_true_iff in E as [_ E%negb_true_iff].
  assert (mem conn (elements subs) = true); [|congruence].
  apply existsb_exists. exists conn. split; [by apply list_elem_of_In|apply Z.eqb_refl].
Qed.

(** A branch of [handle_set] that answers with one effect and writes nothing. *)
Ltac refused :=
  left; eexists; split_and!; [..|reflexivity];
  solve [done | intros ? ? (? & ? & ? & ? & ? & ? & ?); simplify_eq; congruence].

Lemma handle_set_run conn args raw r :
  (exists e, e <> EDirty /\ (forall t ps, e <> EBroadcast t ps) /\
     (forall key value, ~ set_accepted args r key value) /\ handle_set conn args raw r = Ok (tt, r, [e])) \/
  (exists key value, set_accepted args r key value /\
     handle_set conn args raw r =
       Ok (tt, write_entry key value r,
           set_effects r conn key (st_want_reply args) raw (starting_value r key args) value)).
Proof.
  unfold handle_set, set_accepted. destruct (st_key args) as [| |key] eqn:Ek.
  - refused.
  - destruct (as_ok _); refused.
  - destruct (st_operations args) as [| |entries] eqn:Eo; cbn [as_ok]; [refused..|].
    destruct (starts_with READ_PREFIX key) eqn:Hp; [refused|].
    destruct (mapM parse_operation entries) as [ops|] eqn:Em; [|refused].
    cbv [mbind M_bind read]. change (id r) with r. fold (starting_value r key args).
    destruct (apply_all (starting_value r key args) ops) as [v|[i e]] eqn:Ea.
    + right. exists key, v. split; [by exists entries, ops|]. by rewrite store_value_run.
    + refused.
Qed.

(** A [Set] writes exactly one key or nothing.  When its operations all succeed,
    in order, from the stored value (or the packet's default, or zero), the room
    changes at that key, which is no [_read_] view, and in the byte gauge, and the
    reply goes to the key's subscribers and to the setter if it asked, to nobody else.
    Otherwise the room is unchanged and nobody hears of it. *)
Theorem set_writes_one_key_or_nothing conn args raw r r' es :
  handle_set conn args raw r = Ok (tt, r', es) ->
  (r' = r /\ ~ (EDirty ∈ es) /\ (forall c, ~ hears es c) /\
     (forall key value, ~ set_accepted args r key value)) \/
  (exists key value,
     set_accepted args r key value /\ r' = write_entry key value r /\ EDirty ∈ es /\
     forall c, hears es c <-> subscribed r key c \/ (st_want_reply args = true /\ c = conn)).
Proof.
  destruct (handle_set_run conn args raw r) as [(e & He & Hb & Hn & ->)|(key & value & Ha & ->)].
  - intros [= <- <-]. left. split; [done|]. split; [|split].
    + intros Hin%list_elem_of_singleton. by apply He.
    + intros c (t & ps & Hin & _). apply list_elem_of_singleton in Hin. by destruct (Hb (RThese t) ps).
    + exact Hn.
  - intros [= <- <-]. right. exists key, value. split; [done|]. split; [done|]. split; [left|].
    intros c. rewrite <- (elem_of_set_targets r conn key (st_want_reply args) c). unfold set_effects, hears.
    destruct (set_targets r conn key (st_want_reply args)) as [|x l] eqn:Et.
    + split; [|by intros Hc; inversion Hc]. intros (t & ps & Hin & _). apply list_elem_of_singleton in Hin. done.
    + split.
      * intros (t & ps & Hin & Hc). apply elem_of_cons in Hin as [|Hin]; [done|].
        apply list_elem_of_singleton in Hin. by simplify_eq.
      * intros Hc. eexists _, _. split; [right; left|done].
Qed.

(** ** Reading back *)

Lemma map_get_insert m k v k' :
  map_get (map_insert m k v : JMap) k' = if decide (k = k') then Some v else map_get m k'.
Proof.
  induction m as [|[q x] m IH]; cbn [map_insert].
  - destruct (decide (k = k')) as [->|Hk]; [apply map_get_here|]. by rewrite map_get_skip.
  - destruct (decide (q = k)) as [->|Hq].
    + destruct (decide (k = k')) as [->|Hk]; [apply map_get_here|]. by rewrite !map_get_skip.
    + destruct (decide (q = k')) as [->|Hq'].
      * rewrite !map_get_here. by rewrite decide_False.
      * by rewrite !map_get_skip, IH.
Qed.

Lemma map_get_fold (f : string -> Value) keys m key :
  key ∈ keys -> map_get (fold_left (fun m k => map_insert m k (f k)) keys m) key = Some (f key).
Proof.
  intros Hin. assert (Hlast : forall ks n, map_get n key = Some (f key) ->
    map_get (fold_left (fun m k => map_insert m k (f k)) ks n) key = Some (f key)).
  { intros ks. induction ks as [|k ks IH]; intros n Hn; [done|]. cbn. apply IH.
    rewrite map_get_insert. by destruct (decide (k = key)) as [->|]. }
  revert m. induction keys as [|k keys IH]; [by inversion Hin|]. intros m. cbn.
  apply elem_of_cons in Hin as [->|Hin]; [|by apply IH].
  apply Hlast. rewrite map_get_insert. by rewrite decide_True.
Qed.

Lemma mapM_strings keys : mapM v_as_str (v_string <$> keys) = Some keys.
Proof.
  induction keys as [|k keys IH]; [done|]. rewrite fmap_cons. cbn [mapM].
  rewrite v_as_str_string. cbn. by rewrite IH.
Qed.

(** The value a [Retrieved] packet gives for a key. *)
Definition retrieved (p : ServerPacket) (key : string) : option Value :=
  match p with Echo m => keys ← map_get m "keys"; m ← v_as_object keys; map_get m key | _ => None end.

Lemma handle_get_run conn keys raw r : exists p,
  handle_get conn (Present (v_string <$> keys)) raw r = Ok (tt, r, [ESend conn [p]]) /\
  packet_cmd p = "Retrieved"%string /\
  forall key, key ∈ keys -> retrieved p key = Some (get_value r key).
Proof.
  unfold handle_get. cbn [as_ok]. rewrite mapM_strings. eexists. split; [reflexivity|]. split.
  - unfold echo. cbn [fold_left fst snd packet_cmd]. rewrite map_get_insert, decide_False by done.
    rewrite map_get_insert, decide_True by done. cbn [mbind option_bind default from_option].
    by rewrite v_as_str_string.
  - intros key Hk. unfold echo. cbn [fold_left fst snd retrieved]. rewrite map_get_insert, decide_True by done.
    cbn. unfold v_as_object. rewrite shape_make. cbn. by apply map_get_fold.
Qed.

(** Once a [Set] has been carried out, a [Get] by any connection for any list of
    keys naming that key changes nothing and is answered, to that connection alone,
    by one [Retrieved] whose value there is the one the operations computed. *)
Theorem get_reads_what_set_stored conn args raw r key value r' es conn' keys raw' :
  set_accepted args r key value -> handle_set conn args raw r = Ok (tt, r', es) ->
  key ∈ keys ->
  exists p, handle_get conn' (Present (v_string <$> keys)) raw' r' = Ok (tt, r', [ESend conn' [p]]) /\
    packet_cmd p = "Retrieved"%string /\ retrieved p key = Some value.
Proof.
  intros Ha Hs Hk. destruct (handle_get_run conn' keys raw' r') as (p & Hg & Hc & Hr).
  exists p. split; [done|]. split; [done|]. rewrite (Hr key Hk). f_equal.
  destruct (handle_set_run conn args raw r) as [(e & _ & _ & Hn & _)|(key' & value' & Ha' & He)].
  { by destruct (Hn key value). }
  rewrite He in Hs. injection Hs as <- _.
  destruct Ha as (en & ops & Hkey & Hen & Hp & Hm & Hv), Ha' as (en' & ops' & Hkey' & Hen' & _ & Hm' & Hv').
  rewrite Hkey in Hkey'. injection Hkey' as <-. rewrite Hen in Hen'. injection Hen' as <-.
  rewrite Hm in Hm'. injection Hm' as <-. rewrite Hv in Hv'. injection Hv' as <-.
  unfold get_value. rewrite Hp.
  change (r_stored_data (write_entry key value r)) with (<[key := value]> (r_stored_data r)).
  by rewrite lookup_insert_eq.
Qed.

(** ** The byte gauge *)

Definition store_total (m : gmap string Value) : Z :=
  map_fold (fun key value n => entry_bytes key value + n) 0 m.

Lemma entry_bytes_nonneg key value : 0 <= entry_bytes key value.
Proof. unfold entry_bytes, str_len. lia. Qed.

Lemma store_total_fresh m key value :
  m !! key = None -> store_total (<[key := value]> m) = entry_bytes key value + store_total m.
Proof. intros Hm. unfold store_total. rewrite map_fold_insert_L; [done| |done]. intros. lia. Qed.

Lemma store_total_nonneg m : 0 <= store_total m.
Proof.
  induction m as [|key value m Hm IH] using map_ind; [done|]. rewrite store_total_fresh by done.
  pose proof (entry_bytes_nonneg key value). lia.
Qed.

Lemma store_total_insert m key value :
  store_total (<[key := value]> m) =
  entry_bytes key value + store_total m - match m !! key with Some old => entry_bytes key old | None => 0 end.
Proof.
  destruct (m !! key) as [old|] eqn:E; [|rewrite store_total_fresh by done; lia].
  rewrite <- insert_delete_eq, store_total_fresh by apply lookup_delete_eq.
  rewrite <- (insert_delete_id m key old E) at 2. rewrite store_total_fresh by apply lookup_delete_eq. lia.
Qed.

Definition accounted (r : Room) : Prop := r_stored_data_bytes r = store_total (r_stored_data r).

Lemma stores_event ev : stores (run_event ev).
Proof.
  destruct ev; cbn [run_event]; try (apply stores_keeps; solve [eauto with frame nocore|keep]).
  apply stores_handle.
Qed.

(** An event the room may take, the store staying below [2^63] bytes. *)
Definition moves_small (r r' : Room) : Prop := moves r r' /\ store_total (r_stored_data r') < 2 ^ 63.

(** Whatever happens to the room, the byte gauge kept as a running total is
    exactly the size of what is stored, keys included: the 64-bit sum and the
    saturating subtraction lose nothing while the store stays below [2^63] bytes. *)
Theorem bytes_stay_exact sha512 d pkg opts now (r : Room) :
  rtc moves_small (room_new sha512 d pkg opts now) r ->
  r_stored_data_bytes r = store_total (r_stored_data r).
Proof.
  intros Hr. enough (accounted r /\ store_total (r_stored_data r) < 2 ^ 63) by tauto.
  remember (room_new sha512 d pkg opts now) as r0 eqn:E0.
  assert (H0' : accounted r0 /\ store_total (r_stored_data r0) < 2 ^ 63) by (subst r0; done).
  clear E0. revert H0'. induction Hr as [x|x y z [(ev & es & _ & He) Hy] _ IH]; intros [Hacc Hsmall]; [done|].
  apply IH. split; [|done]. destruct (stores_event ev x tt y es He) as [Hs|(key & value & _ & Hs)];
    unfold store_of in Hs; injection Hs as Hd Hb; unfold accounted in *.
  - by rewrite Hb, Hd.
  - rewrite Hb, Hd, Hacc, store_total_insert. rewrite Hd, store_total_insert in Hy.
    pose proof (store_total_nonneg (<[key := value]> (r_stored_data x))) as Hn.
    rewrite store_total_insert in Hn. pose proof (store_total_nonneg (r_stored_data x)).
    pose proof (entry_bytes_nonneg key value). unfold stored_entry.
    assert (match r_stored_data x !! key with Some old => entry_bytes key old | None => 0 end <= store_total (r_stored_data x)) as Hold.
    { destruct (r_stored_data x !! key) as [old|] eqn:E; [|done].
      rewrite <- (insert_delete_id _ key old E), store_total_fresh by apply lookup_delete_eq.
      pose proof (store_total_nonneg (delete key (r_stored_data x))). lia. }
    unfold wrap64. rewrite Z.mod_small; lia.
Qed.

(** No sequence of events stores a value under a [_read_] key: those names are
    always answered from the room's own state. *)
Theorem views_are_never_stored sha512 d pkg opts now (r : Room) key :
  rtc moves (room_new sha512 d pkg opts now) r -> is_Some (r_stored_data r !! key) ->
  starts_with READ_PREFIX key = false /\
  forall k, starts_with READ_PREFIX k = true -> get_value r k = default v_null (read_data r k).
Proof.
  intros Hr Hk. split; [|intros k Hp; unfold get_value; by rewrite Hp].
  assert (Hinv : forall k, is_Some (r_stored_data (room_new sha512 d pkg opts now) !! k) ->
            starts_with READ_PREFIX k = false) by (intros k [? Hx]; done).
  revert Hk. revert key. induction Hr as [x|x y z (ev & es & _ & He) _ IH]; [exact Hinv|].
  apply IH. intros k Hk. destruct (stores_event ev x tt y es He) as [Hs|(key & value & Hp & Hs)];
    unfold store_of in Hs; injection Hs as Hd _; rewrite Hd in Hk.
  - by apply Hinv.
  - destruct (decide (key = k)) as [->|Hne]; [done|]. rewrite lookup_insert_ne in Hk by done. by apply Hinv.
Qed.
End store.

(** ** Witnesses: Alice adds five to a key nobody has written *)

#[local] Existing Instance tree_json.
#[local] Existing Instance tree_text.
#[local] Existing Instance ascii_unicode.
#[local] Existing Instance demo_hash.

Definition demo_operation : Value :=
  make (SObject [("operation"%string, v_string "add"); ("value"%string, v_int 5)]).

Definition demo_set : SetArgs := mkSet (Present "bits"%string) None true (Present [demo_operation]).

Lemma demo_set_accepted : set_accepted demo_set demo_logged "bits" (v_int 5).
Proof. exists [demo_operation], [("add"%string, v_int 5)]. repeat split. Qed.

Definition set_event : Event := EvPacket 11 (CSet demo_set []).

Lemma demo_set_runs : exists r' es, handle_set 11 demo_set [] demo_logged = Ok (tt, r', es).
Proof. destruct (handle_set_run 11 demo_set [] demo_logged) as [(e & _ & _ & _ & ->)|(k & v & _ & ->)]; eauto. Qed.

Lemma set_writes_one_key_or_nothing_witness : exists r' es,
  handle_set 11 demo_set [] demo_logged = Ok (tt, r', es) /\ hears es 11.
Proof.
  destruct demo_set_runs as (r' & es & E). exists r', es. split; [exact E|].
  destruct (set_writes_one_key_or_nothing 11 demo_set [] demo_logged r' es E)
    as [(_ & _ & _ & Hn)|(key & value & _ & _ & _ & Hh)].
  - destruct (Hn "bits"%string (v_int 5)). apply demo_set_accepted.
  - apply Hh. right. split; reflexivity.
Defined.

Lemma get_reads_what_set_stored_witness : exists r' es p,
  handle_set 11 demo_set [] demo_logged = Ok (tt, r', es) /\
  handle_get 12 (Present (v_string <$> ["a"%string; "bits"%string])) [] r' = Ok (tt, r', [ESend 12 [p]]) /\
  retrieved p "bits" = Some (v_int 5).
Proof.
  destruct demo_set_runs as (r' & es & E).
  destruct (get_reads_what_set_stored 11 demo_set [] demo_logged "bits" (v_int 5) r' es 12
              ["a"%string; "bits"%string] [] demo_set_accepted E) as (p & Hg & _ & Hr).
  - right. left.
  - exists r', es, p. split; [exact E|]. split; [exact Hg|exact Hr].
Defined.

Definition demo_stored : Room := after set_event demo_logged.

Lemma demo_stored_moves : moves demo_logged demo_stored.
Proof. apply after_moves; [apply is_some_true; vm_compute; reflexivity|vm_compute; reflexivity]. Qed.

Lemma demo_stored_small : rtc moves_small demo_room demo_stored.
Proof.
  apply (rtc_l _ _ demo_opened); [split; [apply demo_opened_moves|vm_compute; reflexivity]|].
  apply (rtc_l _ _ demo_logged); [split; [apply demo_logged_moves|vm_compute; reflexivity]|].
  apply rtc_once. split; [apply demo_stored_moves|vm_compute; reflexivity].
Qed.

Lemma bytes_stay_exact_witness :
  rtc moves_small demo_room demo_stored /\
  r_stored_data_bytes demo_stored = store_total (r_stored_data demo_stored).
Proof. split; [exact demo_stored_small|]. exact (bytes_stay_exact _ _ _ _ _ demo_stored demo_stored_small). Defined.

Example demo_stored_bytes : r_stored_data_bytes demo_stored = 5.
Proof. vm_compute. reflexivity. Qed.

Lemma demo_stored_reachable : rtc moves demo_room demo_stored.
Proof. eapply rtc_r; [apply demo_logged_reachable|apply demo_stored_moves]. Qed.

Lemma demo_stored_key : is_Some (r_stored_data demo_stored !! "bits"%string).
Proof. apply is_some_true. vm_compute. reflexivity. Qed.

Lemma views_are_never_stored_witness :
  starts_with READ_PREFIX "bits" = false /\
  get_value demo_stored "_read_race_mode" = default v_null (read_data demo_stored "_read_race_mode").
Proof.
  destruct (views_are_never_stored _ _ _ _ _ demo_stored "bits" demo_stored_reachable demo_stored_key) as [Hp Hv].
  split; [exact Hp|]. apply Hv. reflexivity.
Defined.
