(* ===== verification/SayTheorems.v ===== *)
(** * What the chat commands and the administrator's surface promise

    A login is not heard, a release is a matter of permission, a setting reads
    back as what sets it, and hints cost what they cost. *)

From Stdlib Require Import ZArith Lia Bool.
From stdpp Require Import base tactics list sets gmap strings pretty sorting relations.
From S2P Require Import Prelude PyRandom PyObj Locations Types Datapackage Multidata Conn Hints Json.
From S2P Require Import PyValue Packets Text Fuzzy Filter Options Effects Room RoomOps RoomStore RoomPlay.
From S2P Require Import Commands ServerCommands Say Admin RoomFrame RoomSpec RoomInv RoomWp.
From S2P Require Import RoomRefines SayRefines RoomTheorems RoomDemo RoomAuth RoomFeed.

Section say.
Context `{Json} `{HashOrder} `{HText : !JsonText} `{HUni : Unicode}.

(** ** A login is not heard *)

(** The answers to a login: a fixed text for the caller or for who is replaced. *)
Definition login_answers : list string :=
  ["Sorry, Remote administration is disabled"; "Password incorrect.";
   "Another client has logged in for remote administration; your session has ended.";
   "Login successful. You can now issue server side commands."]%string.

Definition login_answer (e : Effect) : Prop :=
  exists to_ text, e = ESend to_ [text_message (Some CommandResult) None None None None text] /\
    text ∈ login_answers.

Lemma fires_notify conn text r u r' es :
  fires (notify conn text) r u r' es ->
  r' = r /\ Forall (fun e => e = ESend conn [text_message (Some CommandResult) None None None None text]) es.
Proof.
  unfold notify, notify_multiple, notify_typed. intros Hf%fires_read. cbn [id] in Hf.
  destruct (r_clients r !! conn) as [c|]; cbn [on_some] in Hf; [|by injection Hf as _ <- <-].
  destruct (_ || _); [by injection Hf as _ <- <-|]. injection Hf as _ <- <-. split; [done|].
  by constructor.
Qed.

Lemma notify_answers conn text r u r' es :
  fires (notify conn text) r u r' es -> text ∈ login_answers -> r' = r /\ Forall login_answer es.
Proof.
  intros [-> Hes]%fires_notify Ht. split; [done|]. eapply Forall_impl; [exact Hes|].
  intros e ->. by exists conn, text.
Qed.

Lemma fires_admin_login conn supplied password r u r' es :
  fires (admin_login conn supplied password) r u r' es ->
  r' = (if bool_decide (supplied = password) then set_admin_conn (Some conn) r else r) /\
  Forall login_answer es.
Proof.
  unfold admin_login.
  assert (Heq : ct_eq (String.list_byte_of_string supplied) (String.list_byte_of_string password) =
                bool_decide (supplied = password)).
  { apply eq_true_iff_eq. rewrite ct_eq_spec, bool_decide_eq_true. split; [apply list_byte_inj|by intros ->]. }
  rewrite Heq. destruct (bool_decide _).
  - intros Hf%fires_read. apply fires_write in Hf.
    apply fires_bind in Hf as (v & r1 & e1 & e2 & H1 & H2 & ->).
    apply notify_answers in H2 as [-> H2]; [|repeat (by left) || right].
    assert (r1 = set_admin_conn (Some conn) r /\ Forall login_answer e1) as [-> He1].
    { destruct (r_admin_conn r) as [p|]; [|by injection H1 as _ <- <-].
      destruct (negb _); [|by injection H1 as _ <- <-]. apply notify_answers in H1; [done|].
      do 2 right. by left. }
    split; [done|]. by apply Forall_app.
  - intros [-> He]%notify_answers; [done|]. right. by left.
Qed.

Lemma run_login_line p word conn s r :
  (p = "!admin login " /\ word = "admin") \/ (p = "!ADMIN login " /\ word = "ADMIN") ->
  starts_char s = true ->
  run_command conn (String.append p s) r = cmd_admin conn (String.append "login " s) r.
Proof.
  intros Hp Hs. unfold run_command. set (line := String.append p s).
  assert (Hc : chars line = ("!" :: ascii_chars word)%string ++ " "%string ::
                              (["l"; "o"; "g"; "i"; "n"; " "]%string ++ chars s)).
  { unfold line. destruct Hp as [[-> ->]|[-> ->]]; by rewrite chars_append. }
  destruct (shell_split_first _ _ _ Hc) as [ws Hw]; [|done|].
  { destruct Hp as [[_ ->]|[_ ->]]; repeat constructor; done. }
  assert (strip_str "!" (str_concat ("!" :: ascii_chars word)%string) = Some word /\
            to_lowercase word = "admin"%string) as [Hst Hl].
  { destruct Hp as [[_ ->]|[_ ->]]; (split; [reflexivity|]); by rewrite to_lowercase_ascii. }
  rewrite Hw, Hst. cbv iota zeta. rewrite Hl. change (takes_raw_argument "admin") with true. cbv iota.
  assert (Ha : after_whitespace (chars line) = Some (String.append "login " s)).
  { rewrite Hc. transitivity (Some (str_concat (["l"; "o"; "g"; "i"; "n"; " "]%string ++ chars s))).
    - by destruct Hp as [[_ ->]|[_ ->]].
    - f_equal. cbn [app]. rewrite !str_concat_cons, concat_chars by done. done. }
  rewrite Ha. done.
Qed.

Lemma fires_broadcast_chat key display message r u r' es :
  fires (broadcast_chat key display message) r u r' es ->
  let text := str_concat [slot_alias r key; ": "; display] in
  r' = r /\ es = [EJournalEvent (JChat (r_clock r) key text);
                  EBroadcast RAllText [chat_message key text message]].
Proof.
  unfold broadcast_chat. intros Hf%fires_read. cbn [id] in Hf. cbv zeta in Hf.
  apply fires_emit in Hf as (es' & -> & Hf). by injection Hf as _ <- <-.
Qed.

Lemma starts_with_append p s : starts_with p (String.append p s) = true.
Proof.
  induction p as [|a p IH]; [by destruct s|].
  change (Ascii.eqb a a && starts_with p (String.append p s) = true). by rewrite Ascii.eqb_refl.
Qed.

Lemma strip_str_append p s : strip_str p (String.append p s) = Some s.
Proof.
  induction p as [|a p IH]; [by destruct s|].
  change ((if Ascii.eqb a a then strip_str p (String.append p s) else None) = Some s).
  by rewrite Ascii.eqb_refl.
Qed.

Lemma fires_mask_login s r masked r' es :
  fires (mask_admin (String.append "login " s)) r masked r' es ->
  exists n rng, randbelow DRAWS 13 (r_rng r) = Some (n, rng) /\ r' = set_rng rng r /\ es = [] /\
    masked = String.append "!admin login " (str_concat (replicate (4 + Z.to_nat n) "*"%string)).
Proof.
  unfold mask_admin. cbv zeta. destruct (to_lowercase_prefix "login " s eq_refl) as [t ->].
  assert (Hst : starts_with "login" (String.append (to_ascii_lowercase "login ") t) = true)
    by exact (starts_with_append "login" (String.append " " t)).
  rewrite Hst. unfold asterisks.
  intros (stars & r1 & e1 & e2 & H1 & H2 & ->)%fires_bind. injection H2 as <- <- <-.
  apply fires_bind in H1 as (n & r2 & e3 & e4 & H1 & H2 & ->). injection H2 as <- <- <-.
  unfold fires, draw in H1. destruct (randbelow _ _ _) as [[n' rng]|] eqn:E; [|done].
  injection H1 as <- <- <-. by exists n', rng.
Qed.

(** The run of a login, masked. *)
Lemma fires_login conn c s r u r' es :
  r_clients r !! conn = Some c -> fires (cmd_admin conn (String.append "login " s)) r u r' es ->
  exists n rng answers,
    randbelow DRAWS 13 (r_rng r) = Some (n, rng) /\
    let line := String.append "!admin login " (str_concat (replicate (4 + Z.to_nat n) "*"%string)) in
    let text := str_concat [slot_alias r (c_team c, c_slot c); ": "; line] in
    es = EJournalEvent (JChat (r_clock r) (c_team c, c_slot c) text) ::
         EBroadcast RAllText [chat_message (c_team c, c_slot c) text line] :: answers /\
    Forall login_answer answers /\
    r' = (if bool_decide (server_password (r_options r) = Some s)
          then set_admin_conn (Some conn) (set_rng rng r) else set_rng rng r).
Proof.
  intros Hc H2. unfold cmd_admin, with_slot in H2.
  apply fires_read in H2. cbn [id] in H2. unfold slot_of in H2. rewrite Hc in H2.
  cbn [fmap option_fmap option_map on_some] in H2.
  apply fires_bind in H2 as (masked & r1 & e2 & e3 & H1 & H2 & ->).
  apply fires_mask_login in H1 as (n & rng & Hn & -> & -> & ->).
  apply fires_bind in H2 as ([] & r2 & e4 & e5 & H1 & H2 & ->).
  apply fires_broadcast_chat in H1 as [-> ->]. apply fires_read in H2.
  cbn [id set_rng r_options] in H2. exists n, rng, e5. split; [done|]. cbv zeta. split; [done|].
  change (str_eqb (String.append "login " s) EmptyString) with false in H2.
  rewrite strip_str_append in H2. cbv zeta iota in H2.
  destruct (server_password (r_options r)) as [password|].
  - apply fires_admin_login in H2 as [-> He]. split; [done|].
    repeat case_bool_decide; try done; naive_solver.
  - rewrite bool_decide_false by done. apply notify_answers in H2 as [-> He]; [done|]. by left.
Qed.

(** A line of chat, up to its command. *)
Lemma fires_process conn c raw r u r' es :
  r_clients r !! conn = Some c -> raw <> EmptyString ->
  fires (process_message conn raw) r u r' es ->
  let key := (c_team c, c_slot c) in
  let text := str_concat [slot_alias r key; ": "; raw] in
  exists es', fires (run_command conn raw) r u r' es' /\
    es = (if starts_with "!admin" raw then []
          else [EJournalEvent (JChat (r_clock r) key text);
                EBroadcast RAllText [chat_message key text raw]]) ++ es'.
Proof.
  intros Hc Hraw. unfold process_message, with_slot. intros Hf%fires_read. cbn [id] in Hf.
  unfold slot_of in Hf. rewrite Hc in Hf. cbn [fmap option_fmap option_map on_some] in Hf.
  apply fires_bind in Hf as ([] & r0 & e0 & e1 & H1 & H2 & ->).
  unfold str_eqb in H2. rewrite bool_decide_false in H2 by done. cbv zeta.
  destruct (starts_with _ _); cbn [negb when] in H1.
  - injection H1 as <- <-. by exists e1.
  - apply fires_broadcast_chat in H1 as [-> ->]. by exists e1.
Qed.

(** C17: what the room hears of [!admin login <password>] does not depend on the
    password: the journal and the broadcast carry the masked line, the answers
    are fixed texts to single connections, and the room afterwards differs only
    in who is logged in, which happens exactly when the password is right. *)
Theorem logins_are_masked (r r' : Room) conn c s u es :
  r_clients r !! conn = Some c -> starts_char s = true ->
  process_message conn (String.append "!admin login " s) r = Ok (u, r', es) ->
  exists n rng answers,
    randbelow DRAWS 13 (r_rng r) = Some (n, rng) /\
    let line := String.append "!admin login " (str_concat (replicate (4 + Z.to_nat n) "*"%string)) in
    let text := str_concat [slot_alias r (c_team c, c_slot c); ": "; line] in
    es = EJournalEvent (JChat (r_clock r) (c_team c, c_slot c) text) ::
         EBroadcast RAllText [chat_message (c_team c, c_slot c) text line] :: answers /\
    Forall login_answer answers /\
    r' = (if bool_decide (server_password (r_options r) = Some s)
          then set_admin_conn (Some conn) (set_rng rng r) else set_rng rng r).
Proof.
  intros Hc Hs Hf. apply (fires_process _ c) in Hf as (es' & Hf & ->); [|done|done].
  assert (Hst : starts_with "!admin" (String.append "!admin login " s) = true)
    by exact (starts_with_append "!admin" (String.append " login " s)).
  rewrite Hst. unfold fires in Hf. rewrite (run_login_line _ "admin") in Hf by (done || by left).
  exact (fires_login conn c s r u r' es' Hc Hf).
Qed.

(** The mask is decided by the letters, the command by the lower-cased word:
    a login typed [!ADMIN login <password>] logs in as well, and before that the
    whole room and the journal are told the line with the password in it. *)
Theorem shouted_logins_are_heard (r r' : Room) conn c s u es :
  r_clients r !! conn = Some c -> starts_char s = true ->
  let raw := String.append "!ADMIN login " s in
  process_message conn raw r = Ok (u, r', es) ->
  let key := (c_team c, c_slot c) in
  let text := str_concat [slot_alias r key; ": "; raw] in
  (exists es', es = EJournalEvent (JChat (r_clock r) key text) ::
                    EBroadcast RAllText [chat_message key text raw] :: es') /\
  (server_password (r_options r) = Some s -> r_admin_conn r' = Some conn).
Proof.
  intros Hc Hs raw Hf. apply (fires_process _ c) in Hf as (es' & Hf & ->); [|done|done].
  assert (Hst : starts_with "!admin" raw = false) by (unfold raw; by destruct s).
  rewrite Hst. cbn [app]. split; [by exists es'|]. intros Hp.
  unfold fires in Hf. unfold raw in Hf. rewrite (run_login_line _ "ADMIN") in Hf by (done || by right).
  apply (fires_login conn c s r u r' es' Hc) in Hf as (n & rng & answers & _ & _ & _ & ->).
  by rewrite bool_decide_true.
Qed.

(** ** Releasing and collecting is a matter of permission *)

(** A refusal: nothing moves, and at most the caller hears why. *)
Definition only_told (conn : ConnId) (r r' : Room) (es : list Effect) : Prop :=
  r' = r /\ Forall (fun e => exists text,
    e = ESend conn [text_message (Some CommandResult) None None None None text]) es.

Lemma told_notify conn text r : exists es, notify conn text r = Ok (tt, r, es) /\ only_told conn r r es.
Proof.
  destruct (notify conn text r) as [[[[] r'] es]|] eqn:E.
  - apply fires_notify in E as [-> Hes]. exists es. split; [done|]. split; [done|].
    eapply Forall_impl; [exact Hes|]. intros e ->. by eexists.
  - exfalso. pose proof (wp_notify conn text r (fun _ _ => True) I) as Hw. unfold wp in Hw. by rewrite E in Hw.
Qed.

Lemma told_exists (m : M unit) conn r :
  (exists es, m r = Ok (tt, r, es) /\ only_told conn r r es) ->
  exists r' es, m r = Ok (tt, r', es) /\ only_told conn r r' es.
Proof. intros (es & E & Ht). by exists r, es. Qed.

Lemma wp_run {A} (m : M A) r Q : wp m r Q -> exists a r' es, m r = Ok (a, r', es) /\ Q a r'.
Proof. unfold wp. destruct (m r) as [[[a r'] es]|]; [|done]. intros Hq. by exists a, r', es. Qed.

Lemma wp_dirty (m : M unit) r Q : wp m r Q -> wp (_ ← m; mark_dirty) r (fun _ r' => Q tt r').
Proof. intros Hm. apply wp_bind. eapply wp_mono; [exact Hm|]. by intros [] r' Hr. Qed.

Lemma with_slot_run conn c (k : SlotKey -> M unit) r :
  r_clients r !! conn = Some c -> with_slot conn k r = k (c_team c, c_slot c) r.
Proof.
  intros Hc. unfold with_slot. etrans; [apply read_bind|]. cbn [id]. unfold slot_of. by rewrite Hc.
Qed.

(** [!release] and [!collect] do what was asked exactly when they may: when
    the administrator made an exemption (for a release), when the mode allows
    it by hand, or when it is not disabled and the player's goal is reached.
    Then the whole world is checked, or every item of the slot found; otherwise
    the room is as before and only the caller is told. *)
Theorem permission_decides (r : Room) conn c :
  room_inv r -> r_clients r !! conn = Some c ->
  let key := (c_team c, c_slot c) in
  let allows mode := Permission.allows_manual mode ||
    negb (bool_decide (mode = Permission.Disabled)) && finished r key in
  (exists r' es, cmd_release conn r = Ok (tt, r', es) /\
     if release_allowed r key || allows (release_mode (r_options r))
     then missing_locations r' key = [] else only_told conn r r' es) /\
  (exists r' es, cmd_collect conn r = Ok (tt, r', es) /\
     if allows (collect_mode (r_options r))
     then forall e, e ∈ all (locations (r_data r)) -> e_receiver e = key.2 ->
            is_checked r' (key.1, e_sender e) (e_location e) = true
     else only_told conn r r' es).
Proof.
  intros Hi Hc key allows. pose proof (inv_ready r Hi) as Hr.
  pose proof (wp_run _ _ _ (wp_dirty _ _ _ (wp_release key TPlayer r Hr))) as (u1 & r1 & es1 & E1 & _ & Q1).
  pose proof (wp_run _ _ _ (wp_dirty _ _ _ (wp_collect key TPlayer r Hr))) as (u2 & r2 & es2 & E2 & _ & Q2).
  destruct u1, u2. unfold cmd_release, cmd_collect. rewrite !(with_slot_run _ c) by done. fold key.
  rewrite !read_bind. cbn [id]. unfold allows. split.
  - destruct (release_allowed r key); cbn [orb]; [by exists r1, es1|].
    destruct (Permission.allows_manual _); cbn [orb]; [by exists r1, es1|].
    destruct (bool_decide (_ = Permission.Disabled)); cbn [negb andb]; [apply told_exists, told_notify|].
    destruct (finished r key); [by exists r1, es1|apply told_exists, told_notify].
  - destruct (Permission.allows_manual _); cbn [orb]; [by exists r2, es2|].
    destruct (bool_decide (_ = Permission.Disabled)); cbn [negb andb]; [apply told_exists, told_notify|].
    destruct (finished r key); [by exists r2, es2|apply told_exists, told_notify].
Qed.

(** ** An option reads back as what sets it *)

(** The fields of the options no setter touches. *)
Definition secrets (o : RoomOptions) : option string * option (gmap Z string) * option string * list string :=
  (password o, slot_passwords o, server_password o, tags o).

(** What a mode may be set to, and what it reads back as. *)
Lemma mode_reads_back name value o push o' :
  set_mode_option name value o = Some (Ok (push, o')) ->
  exists p, normalize_mode (Permission.as_text p) = normalize_mode value /\
    Permission.from_text (normalize_mode value) = p.
Proof.
  unfold set_mode_option. destruct (existsb _ (valid_modes name)) eqn:Hv; [|done]. intros _.
  exists (Permission.from_text (normalize_mode value)). split; [|done].
  assert (Hin : normalize_mode value ∈ ["goal"; "enabled"; "disabled"; "auto"; "auto_enabled"]%string).
  { apply existsb_exists in Hv as (m & Hm & He). apply bool_decide_eq_true in He. rewrite He.
    unfold valid_modes in Hm. repeat case_match; cbn in Hm; destruct_or! Hm; subst m;
      repeat (first [by left|right]); done. }
  revert Hin. generalize (normalize_mode value). intros m Hm.
  repeat (apply elem_of_cons in Hm as [->|Hm]; [vm_compute; reflexivity|]). by apply not_elem_of_nil in Hm.
Qed.

(** Setting an option: only that field, and the text it then has sets it again
    to the same. *)
Lemma set_option_reads_back name kind value o push o' :
  find_option name = Some kind -> set_option_kind kind name value o = Some (Ok (push, o')) ->
  secrets o' = secrets o /\
  set_option_kind kind name (option_as_text o' name) o' = Some (Ok (push, o')).
Proof.
  intros Hk Hs. apply settable_cases in Hk as [[-> Hn]|[[-> Hn]|[-> ->]]]; cbn [set_option_kind] in *.
  - unfold set_int_option in Hs. destruct (parse_u32 value) as [n|] eqn:Hp; [|done].
    apply parse_within_range in Hp. unfold set_int_option.
    destruct Hn as [->|[->| ->]]; cbn in Hs.
    + injection Hs as <- <-. split; [done|].
      change (option_as_text (set_hint_cost n o) "hint_cost") with (pretty n). by rewrite parse_pretty_u32.
    + injection Hs as <- <-. split; [done|].
      change (option_as_text (set_check_points n o) "location_check_points") with (pretty n).
      by rewrite parse_pretty_u32.
    + destruct (n <=? u8_max) eqn:Hb; [|done]. injection Hs as <- <-. split; [done|].
      change (option_as_text (set_compatibility n o) "compatibility") with (pretty n).
      rewrite parse_pretty_u32 by done.
      change (Some (if n <=? u8_max then Ok (PushNothing, set_compatibility n (set_compatibility n o))
                    else Err (str_concat ["compatibility is 0, 1 or 2, not "; pretty n; "."])) =
              Some (Ok (PushNothing, set_compatibility n o) : result string (Push * RoomOptions))).
      by rewrite Hb.
  - pose proof (mode_reads_back _ _ _ _ _ Hs) as (p & Hp & Hf). unfold set_mode_option in *.
    destruct (negb _) eqn:Hv; [done|]. rewrite Hf in Hs.
    destruct Hn as [->|[->|[->| ->]]]; cbn in Hs; injection Hs as <- <-; (split; [done|]);
      match goal with |- context [option_as_text ?o' ?n] => change (option_as_text o' n) with (Permission.as_text p) end;
      cbv zeta; rewrite Hp, Hv, Hf; reflexivity.
  - cbn in Hs. injection Hs as <- <-. split; [done|]. cbn.
    by destruct (bool_option value).
Qed.

Lemma set_option_others name kind value o push o' n :
  find_option name = Some kind -> set_option_kind kind name value o = Some (Ok (push, o')) ->
  n <> name -> option_as_text o' n = option_as_text o n.
Proof.
  intros Hk Hs Hn. assert (Hname : str_eqb n name = false) by (by apply bool_decide_eq_false).
  apply settable_cases in Hk as [[-> Hc]|[[-> Hc]|[-> ->]]]; cbn [set_option_kind] in Hs.
  - unfold set_int_option in Hs. destruct (parse_u32 value) as [m|]; [|done].
    destruct Hc as [->|[-> | ->]]; cbn in Hs; try (destruct (m <=? u8_max); [|done]); injection Hs as <- <-;
      unfold option_as_text; rewrite Hname; reflexivity.
  - unfold set_mode_option in Hs. destruct (negb _); [done|].
    destruct Hc as [->|[-> |[-> | ->]]]; cbn in Hs; injection Hs as <- <-;
      unfold option_as_text; rewrite Hname; reflexivity.
  - cbn in Hs. injection Hs as <- <-. unfold option_as_text. rewrite Hname. reflexivity.
Qed.

Lemma push_run push name r : exists es, push_option_update push name r = Ok (tt, r, es).
Proof.
  assert (Hw : wp (push_option_update push name) r (fun _ r' => r' = r)).
  { apply wp_bind, wp_read. destruct push; [by apply wp_emit| |by apply wp_done].
    apply wp_each_const; [|done]. intros key P HP. by apply wp_emit. }
  apply wp_run in Hw as ([] & r' & es & E & ->). by exists es.
Qed.

(** The run of a change that is accepted. *)
Lemma apply_option_run name value r kind push o :
  existsb (str_eqb (to_ascii_lowercase name)) REFUSED = false ->
  find_option (to_ascii_lowercase name) = Some kind ->
  set_option_kind kind (to_ascii_lowercase name) value (r_options r) = Some (Ok (push, o)) ->
  exists es, apply_option name value r =
    Ok (Ok (str_concat ["Set option "; to_ascii_lowercase name; " to ";
                        option_as_text o (to_ascii_lowercase name)]), set_options o r, es).
Proof.
  intros Hr Hk Hs. unfold apply_option. cbv zeta. rewrite Hr, Hk, read_bind. cbn [id]. rewrite Hs.
  destruct (push_run push (to_ascii_lowercase name) (set_options o r)) as [es E].
  cbv [mbind M_bind expect mret M_ret write read emit journal mark_dirty]. cbn [id]. rewrite E. by eexists.
Qed.

(** An option that is refused changes nothing and tells nobody; one that is
    accepted changes that field of the options alone, never a password, and the
    text it reads back as sets it again to the same value. *)
Theorem options_read_back (r r' : Room) name value x es :
  apply_option name value r = Ok (x, r', es) ->
  let lower := to_ascii_lowercase name in
  let shown := option_as_text (r_options r') lower in
  match x with
  | Err _ => r' = r /\ es = []
  | Ok text =>
      text = str_concat ["Set option "; lower; " to "; shown] /\
      r' = set_options (r_options r') r /\ secrets (r_options r') = secrets (r_options r) /\
      (forall n, n <> lower -> option_as_text (r_options r') n = option_as_text (r_options r) n) /\
      exists es', apply_option name shown r' = Ok (Ok text, r', es')
  end.
Proof.
  intros E lower shown. pose proof E as E0. unfold apply_option in E. cbv zeta in E.
  fold lower in E. destruct (existsb (str_eqb lower) REFUSED) eqn:Href; [by injection E as <- <- <-|].
  destruct (find_option lower) as [kind|] eqn:Hk; [|by injection E as <- <- <-].
  rewrite read_bind in E. cbn [id] in E.
  destruct (set_option_kind_total lower value kind (r_options r) Hk) as [y Hy]. rewrite Hy in E.
  destruct y as [[push o]|m]; [|by injection E as <- <- <-].
  destruct (apply_option_run name value r kind push o Href Hk Hy) as [es1 E1]. fold lower in E1.
  rewrite E1 in E0. injection E0 as <- <- <-. cbn [r_options set_options] in *.
  destruct (set_option_reads_back lower kind value (r_options r) push o Hk Hy) as [Hsec Hback].
  split; [done|]. split; [done|]. split; [done|]. split.
  { intros n Hn. exact (set_option_others lower kind value (r_options r) push o n Hk Hy Hn). }
  exact (apply_option_run name shown (set_options o r) kind push o Href Hk Hback).
Qed.

(** ** A secret is never written down *)

Lemma settable_is_no_secret name : is_secret_option name = true -> find_option (to_ascii_lowercase name) = None.
Proof.
  unfold is_secret_option. destruct (find_option (to_ascii_lowercase name)) as [kind|] eqn:Hk; [|done].
  apply settable_cases in Hk as [[_ Hn]|[[_ Hn]|[_ Hn]]]; destruct_or? Hn; by rewrite Hn.
Qed.

(** What an administrator's attempt to set a password leaves behind, in the
    journal, in the room, on the wire and in the answer, is the same whatever
    the password was. *)
Theorem passwords_leave_no_trace (r : Room) name v1 v2 :
  is_secret_option name = true -> admin (AOption name v1) r = admin (AOption name v2) r.
Proof.
  intros Hs. unfold admin, journal_shape. rewrite Hs. cbn [admin_dispatch]. unfold admin_option, apply_option.
  cbv zeta. rewrite (settable_is_no_secret name Hs). by destruct (existsb _ _).
Qed.

(** ** What a hint costs *)

(** The fields a slot's points are computed from. *)
Definition purse (r : Room) : RoomOptions * MultiData * gmap SlotKey (gset Z) * gmap SlotKey Z :=
  (r_options r, r_data r, r_location_checks r, r_hints_used r).

Lemma purse_bank_hints team persist index l concerns events :
  keeps_of purse (bank_hints team persist index l concerns events).
Proof.
  revert index concerns events. induction l as [|h l IH]; intros index concerns events; cbn [bank_hints]; keep.
Qed.
#[local] Hint Resolve purse_bank_hints : frame.

Lemma purse_on_new_hint key : keeps_of purse (on_new_hint key).
Proof. unfold on_new_hint, on_changed_hints. keep. Qed.
#[local] Hint Resolve purse_on_new_hint : frame.

Lemma purse_notify_hints team hints only_new persist recips :
  keeps_of purse (notify_hints team hints only_new persist recips).
Proof. unfold notify_hints. keep. Qed.
#[local] Hint Resolve purse_notify_hints : frame.

Lemma purse_notify_caller conn text : keeps_of purse (notify_caller conn text).
Proof. unfold notify_caller, notify, notify_multiple, notify_typed. keep. Qed.
#[local] Hint Resolve purse_notify_caller : frame.

Lemma slot_points_purse r r' key : purse r' = purse r -> slot_points r' key = slot_points r key.
Proof.
  intros [= Ho Hd Hc Hu]. unfold slot_points, checked_count, checks_of, hints_used. by rewrite Ho, Hd, Hc, Hu.
Qed.

Lemma hint_cost_nonneg o n : 0 <= hint_cost_for o n.
Proof. unfold hint_cost_for. destruct (_ =? 0); lia. Qed.

Lemma wrap_i64_range x : is_i64 (wrap_i64 x).
Proof. unfold wrap_i64, is_i64. pose proof (Z.mod_pos_bound (x + 2 ^ 63) (2 ^ 64)). lia. Qed.

Lemma wrap_i64_small x : is_i64 x -> wrap_i64 x = x.
Proof. unfold wrap_i64, is_i64. intros Hx. rewrite Z.mod_small; lia. Qed.

Lemma wrap_i64_eq x : exists k, wrap_i64 x = x + k * 2 ^ 64.
Proof. exists (- ((x + 2 ^ 63) / 2 ^ 64)). unfold wrap_i64. pose proof (Z.div_mod (x + 2 ^ 63) (2 ^ 64)). lia. Qed.

Lemma wrap_i64_cong x k : wrap_i64 (x + k * 2 ^ 64) = wrap_i64 x.
Proof. unfold wrap_i64. by replace (x + k * 2 ^ 64 + 2 ^ 63) with (x + 2 ^ 63 + k * 2 ^ 64) by lia; rewrite Z_mod_plus_full. Qed.

(** Paying for [n] hints at [cost]. *)
Lemma points_spent earned cost used n :
  let before := wrap_i64 (wrap_i64 earned - wrap_i64 (cost * used)) in
  is_i64 (before - cost * n) ->
  wrap_i64 (wrap_i64 earned - wrap_i64 (cost * wrap_i64 (used + n))) = before - cost * n.
Proof.
  intros before Hn. unfold before in *. clear before.
  destruct (wrap_i64_eq (used + n)) as [k1 ->].
  destruct (wrap_i64_eq (cost * (used + n + k1 * 2 ^ 64))) as [k2 ->].
  destruct (wrap_i64_eq (cost * used)) as [k3 E3]. rewrite E3 in *. clear E3.
  destruct (wrap_i64_eq (wrap_i64 earned - (cost * used + k3 * 2 ^ 64))) as [k4 E4]. rewrite E4 in *.
  rewrite <- (wrap_i64_small _ Hn) at 1. clear Hn E4.
  replace (wrap_i64 earned - (cost * (used + n + k1 * 2 ^ 64) + k2 * 2 ^ 64)) with
    (wrap_i64 earned - (cost * used + k3 * 2 ^ 64) + k4 * 2 ^ 64 - cost * n +
     (k3 - k4 - cost * k1 - k2) * 2 ^ 64) by ring.
  apply wrap_i64_cong.
Qed.

Lemma slot_points_other r key key' (x : Z) :
  key' <> key ->
  slot_points (set_hints_used (<[key := x]> (r_hints_used r)) r) key' = slot_points r key'.
Proof. intros Hk. unfold slot_points, hints_used. cbn. by rewrite lookup_insert_ne. Qed.

(** The budget covers what it grants. *)
Lemma budget_covers cost points any n :
  0 <= cost -> 0 <= points -> (n <= budget cost points any)%nat -> any = true \/ n = 0%nat ->
  (cost <> 0 -> (n <= 1)%nat) /\ cost * Z.of_nat n <= points.
Proof.
  unfold budget. intros Hc Hp Hn Hany. destruct (Z.eqb_spec cost 0) as [->|Hne].
  { split; [done|lia]. }
  destruct any; cbn [negb orb] in Hn.
  - destruct (Z.ltb_spec 0 (points ÷ cost)) as [Hq|Hq]; [|split; lia].
    assert (cost <= points).
    { rewrite Z.quot_div_nonneg in Hq by lia. destruct (Z.le_gt_cases cost points); [done|].
      rewrite Z.div_small in Hq by lia. lia. }
    split; [lia|]. assert (n = 0%nat \/ n = 1%nat) as [->| ->] by lia; lia.
  - assert (n = 0%nat) as -> by (destruct Hany; [done|lia]). split; lia.
Qed.

Lemma fires_choose unfound limit r x r' es :
  fires (choose_hints unfound limit) r x r' es ->
  (exists rng, r' = set_rng rng r) /\ length x.1 = Nat.min limit (length unfound).
Proof.
  unfold choose_hints. intros Hf%fires_read. unfold fires, draw in Hf.
  destruct (choose _ _ _ _ _) as [[[granted rest] rng]|] eqn:Hc; [|done]. injection Hf as <- <- _.
  apply choose_partitions in Hc as [_ Hl]. split; [by eexists|exact Hl].
Qed.

Lemma filter_filter {A} (p q : A -> bool) l :
  List.filter q (List.filter p l) = List.filter (fun x => p x && q x) l.
Proof. induction l as [|x l IH]; [done|]. cbn. destruct (p x); cbn; [|done]. destruct (q x); by rewrite IH. Qed.

End say.

(** ** Witnesses *)

#[local] Existing Instance tree_json.
#[local] Existing Instance tree_text.
#[local] Existing Instance ascii_unicode.
#[local] Existing Instance demo_hash.

Lemma ok_runs {A} (m : M A) r :
  is_ok (m r) = true -> exists a r' es, m r = Ok (a, r', es).
Proof. destruct (m r) as [[[a r'] es]|]; [|done]. intros _. by exists a, r', es. Qed.

(** Alice's room, with a password for its administration. *)
Definition demo_secret_options : RoomOptions :=
  mkRoomOptions None None (Some "hunter2"%string) 10 1 Permission.Auto Permission.Auto Permission.Goal
    Permission.Enabled true 2 ["AP"%string].

Definition demo_secret : Room := set_options demo_secret_options demo_logged.

Lemma demo_alice : exists c, r_clients demo_secret !! 11 = Some c.
Proof. apply is_some_true. vm_compute. reflexivity. Qed.

Lemma logins_are_masked_witness :
  exists r' es, process_message 11 "!admin login hunter2" demo_secret = Ok (tt, r', es) /\
    r_admin_conn r' = Some 11.
Proof.
  destruct (ok_runs (process_message 11 "!admin login hunter2") demo_secret) as ([] & r' & es & E);
    [vm_compute; reflexivity|].
  destruct demo_alice as [c Hc]. exists r', es. split; [exact E|].
  destruct (logins_are_masked demo_secret r' 11 c "hunter2" tt es Hc eq_refl E)
    as (n & rng & answers & _ & _ & _ & ->). reflexivity.
Defined.

Lemma shouted_logins_are_heard_witness :
  exists r' es, process_message 11 "!ADMIN login hunter2" demo_secret = Ok (tt, r', es) /\
    r_admin_conn r' = Some 11.
Proof.
  destruct (ok_runs (process_message 11 "!ADMIN login hunter2") demo_secret) as ([] & r' & es & E);
    [vm_compute; reflexivity|].
  destruct demo_alice as [c Hc]. exists r', es. split; [exact E|].
  apply (shouted_logins_are_heard demo_secret r' 11 c "hunter2" tt es Hc eq_refl E). reflexivity.
Defined.

Lemma demo_logged_alice : is_Some (r_clients demo_logged !! 11).
Proof. apply is_some_true. vm_compute. reflexivity. Qed.

Lemma permission_decides_witness :
  exists c r' es, r_clients demo_logged !! 11 = Some c /\ cmd_release 11 demo_logged = Ok (tt, r', es).
Proof.
  destruct demo_logged_alice as [c Hc].
  destruct (permission_decides demo_logged 11 c demo_logged_inv Hc) as [(r' & es & E & _) _].
  exists c, r', es. split; [exact Hc|exact E].
Defined.

Lemma options_read_back_witness :
  exists r' es es' text, apply_option "Hint_Cost" "+007" demo_logged = Ok (Ok text, r', es) /\
    text = "Set option hint_cost to 7"%string /\
    apply_option "Hint_Cost" "7" r' = Ok (Ok text, r', es').
Proof.
  destruct (ok_runs (apply_option "Hint_Cost" "+007") demo_logged) as (x & r' & es & E); [vm_compute; reflexivity|].
  assert (Ho : (match apply_option "Hint_Cost" "+007" demo_logged with
                | Ok (Ok text, r', _) => (text, hint_cost (r_options r'))
                | _ => (EmptyString, 0)
                end) = ("Set option hint_cost to 7"%string, 7)) by (vm_compute; reflexivity).
  rewrite E in Ho. pose proof (options_read_back demo_logged r' "Hint_Cost" "+007" x es E) as Ht.
  destruct x as [text|lines]; [|discriminate Ho]. injection Ho as Htext Hcost.
  destruct Ht as (_ & _ & _ & _ & es' & Hback). exists r', es, es', text. split; [exact E|].
  split; [exact Htext|].
  change (option_as_text (r_options r') (to_ascii_lowercase "Hint_Cost")) with (pretty (hint_cost (r_options r')))
    in Hback.
  rewrite Hcost in Hback. exact Hback.
Defined.

Lemma passwords_leave_no_trace_witness :
  admin (AOption "Server_Password" "one") demo_logged = admin (AOption "Server_Password" "two") demo_logged.
Proof. apply (passwords_leave_no_trace demo_logged "Server_Password" "one" "two"). reflexivity. Defined.

Definition demo_wish : Hint := mkHint 1 2 31 7 false EmptyString 0 HintStatus.Unspecified.

