(* ===== verification/Deflate.v ===== *)
(** * [crates/pahoa-net/src/ws/deflate.rs]: permessage-deflate

    [Deflater::compress] and [Inflater::decompress].  The zlib streams of the
    [flate2] crate are the class [Flate2]: a compressor that was reset is a new
    one, and a call of [decompress_vec] says what it took and what it made.  The
    buffer's growth is the allocator's: [grow] is any capacity that is enough. *)

From Stdlib Require Import ZArith Lia Bool.
From stdpp Require Import base tactics list strings.
From S2P Require Import Prelude ReadLoop.

Definition SYNC_TRAILER : list Z := [0x00; 0x00; 0xFF; 0xFF].
Definition WINDOW_BITS : Z := 11.

Inductive Status : Type := StatusOk | BufError | StreamEnd.

Class Flate2 : Type := {
  Compress : Type;
  compress_new : Z -> Z -> Compress;
  compress_reset : Compress -> Compress;
  (** The calls of [compress_vec] with [FlushCompress::Sync], until the input is
      consumed and a flush adds nothing. *)
  compress_sync : Compress -> list Z -> list Z * Compress;
  made_for : Z -> Z -> Compress -> Prop;
  made_new : forall level bits, made_for level bits (compress_new level bits);
  made_sync : forall level bits c input, made_for level bits c -> made_for level bits (compress_sync c input).2;
  reset_is_new : forall level bits c, made_for level bits c -> compress_reset c = compress_new level bits;
  Decompress : Type;
  decompress_new : Z -> Decompress;
  decompress_reset : Decompress -> Decompress;
  (** Input and room: the status or the error, what was consumed and what was
      written. *)
  decompress_vec : Decompress -> list Z -> nat -> result string Status * nat * list Z * Decompress;
  decompress_consumed : forall d input room, ((decompress_vec d input room).1.1.2 <= length input)%nat;
  decompress_written : forall d input room, (length (decompress_vec d input room).1.2 <= room)%nat;
  decompress_progress : forall d input room,
    (decompress_vec d input room).1.1.1 = Ok StatusOk ->
    ((decompress_vec d input room).1.1.2 + length (decompress_vec d input room).1.2 <> 0)%nat
}.

Section deflate.
Context `{Flate2}.

(** ** [Deflater] *)

Record Deflater : Type := mkDeflater { df_compress : Compress }.

Definition deflater_new (level window_bits : Z) : Deflater := mkDeflater (compress_new level window_bits).

(** [out.ends_with(&SYNC_TRAILER)], and then [out.truncate(..)]. *)
Definition ends_with (suffix l : list Z) : bool :=
  bool_decide (drop (length l - length suffix) l = suffix).

Definition strip_trailer (out : list Z) : list Z :=
  if ends_with SYNC_TRAILER out then take (length out - length SYNC_TRAILER) out else out.

Definition deflater_compress (d : Deflater) (input : list Z) : list Z * Deflater :=
  let '(out, c) := compress_sync (compress_reset (df_compress d)) input in
  (strip_trailer out, mkDeflater c).

(** A deflater of this level and window, whatever it has compressed. *)
Definition deflater_for (level bits : Z) (d : Deflater) : Prop := made_for level bits (df_compress d).

Lemma deflater_for_new level bits : deflater_for level bits (deflater_new level bits).
Proof. apply made_new. Qed.

Lemma deflater_stateless level bits d input :
  deflater_for level bits d ->
  (deflater_compress d input).1 = (deflater_compress (deflater_new level bits) input).1 /\
  deflater_for level bits (deflater_compress d input).2.
Proof.
  unfold deflater_for, deflater_compress, deflater_new. cbn [df_compress]. intros Hm.
  rewrite (reset_is_new level bits _ Hm), (reset_is_new level bits _ (made_new level bits)).
  destruct (compress_sync (compress_new level bits) input) as [out c] eqn:E. split; [done|]. cbn.
  replace c with (compress_sync (compress_new level bits) input).2 by (by rewrite E). apply made_sync, made_new.
Qed.

(** ** [Inflater] *)

Context (grow : nat -> nat -> nat -> nat).

Record Inflater : Type := mkInflater {
  in_decompress : Decompress;
  in_no_context_takeover : bool;
  in_limit : nat
}.

Definition inflater_new (window_bits : Z) (no_context_takeover : bool) (limit : nat) : Inflater :=
  mkInflater (decompress_new window_bits) no_context_takeover limit.

(** [out.reserve(n)]. *)
Definition reserve (cap len n : nat) : nat := if (len + n <=? cap)%nat then cap else grow cap len n.

(** The loop: [None] when the fuel is out. *)
Fixpoint inflate_loop (fuel limit : nat) (framed : list Z) (d : Decompress) (consumed : nat) (out : list Z)
    (cap : nat) : option (result DeflateError (list Z) * Decompress) :=
  match fuel with
  | O => None
  | S fuel =>
      if (limit <=? length out)%nat then Some (Err (DeflateTooLarge (Z.of_nat limit)), d)
      else
        let remaining := (limit - length out + 1)%nat in
        let headroom := Nat.min (Nat.max (length out * 2) 1024) remaining in
        let cap := reserve cap (length out) headroom in
        let '(status, took, made, d) := decompress_vec d (drop consumed framed) (cap - length out) in
        match status with
        | Err e => Some (Err (Corrupt e), d)
        | Ok status =>
            let consumed := (consumed + took)%nat in
            let out := out ++ made in
            if (limit <? length out)%nat then Some (Err (DeflateTooLarge (Z.of_nat limit)), d)
            else
              match status with
              | StreamEnd => Some (Ok out, d)
              | _ =>
                  if (consumed =? length framed)%nat then Some (Ok out, d)
                  else match status with
                  | BufError =>
                      if (length out <? cap)%nat then Some (Err (Corrupt "stalled"), d)
                      else inflate_loop fuel limit framed d consumed out cap
                  | _ => inflate_loop fuel limit framed d consumed out cap
                  end
              end
        end
  end.

(** Rounds enough: each takes a byte of input or makes one of output. *)
Definition inflate_fuel (limit : nat) (framed : list Z) : nat := S (length framed + limit).

Definition decompress (i : Inflater) (input : list Z) : option (result DeflateError (list Z)) * Inflater :=
  let reset d := if in_no_context_takeover i then decompress_reset d else d in
  let framed := input ++ SYNC_TRAILER in
  match inflate_loop (inflate_fuel (in_limit i) framed) (in_limit i) framed (reset (in_decompress i)) 0 []
          (length input * 4) with
  | None => (None, i)
  | Some (r, d) =>
      (Some r, mkInflater (match r with Ok _ => reset d | Err _ => d end) (in_no_context_takeover i) (in_limit i))
  end.

(** ** Properties *)

Hypothesis grow_enough : forall cap len n, (len + n <= grow cap len n)%nat.

Lemma reserve_enough cap len n : (len + n <= reserve cap len n)%nat.
Proof. unfold reserve. destruct (Nat.leb_spec (len + n) cap); [done|]. apply grow_enough. Qed.

Lemma inflate_loop_ends fuel limit framed d consumed out cap :
  (consumed <= length framed)%nat -> (length out <= limit)%nat ->
  (length framed - consumed + (limit - length out) < fuel)%nat ->
  exists r d', inflate_loop fuel limit framed d consumed out cap = Some (r, d') /\
    (forall o, r = Ok o -> (length o <= limit)%nat).
Proof.
  revert d consumed out cap. induction fuel as [|fuel IH]; intros d consumed out cap Hc Ho Hf; [lia|].
  cbn [inflate_loop]. destruct (Nat.leb_spec limit (length out)) as [Hl|Hl]; [by eexists _, _|].
  set (headroom := Nat.min _ _). set (cap' := reserve cap (length out) headroom).
  pose proof (reserve_enough cap (length out) headroom) as Hcap. fold cap' in Hcap.
  assert (1 <= headroom)%nat by lia.
  pose proof (decompress_consumed d (drop consumed framed) (cap' - length out)) as Ht.
  pose proof (decompress_written d (drop consumed framed) (cap' - length out)) as Hw.
  pose proof (decompress_progress d (drop consumed framed) (cap' - length out)) as Hp.
  destruct (decompress_vec _ _ _) as [[[status took] made] d']. cbn [fst snd] in *. rewrite length_drop in Ht.
  destruct status as [status|e]; [|by eexists _, _].
  destruct (Nat.ltb_spec limit (length (out ++ made))) as [Hg|Hg]; [by eexists _, _|].
  assert (Hdone : exists (r : result DeflateError (list Z)) d'0, Some (Ok (out ++ made), d') = Some (r, d'0) /\
            forall o, r = Ok o -> (length o <= limit)%nat).
  { eexists _, _. split; [done|]. by intros o [= <-]. }
  rewrite length_app in Hg.
  destruct status; [| |exact Hdone]; (destruct (Nat.eqb_spec (consumed + took) (length framed)); [exact Hdone|]).
  - specialize (Hp eq_refl). apply IH; rewrite ?length_app; lia.
  - destruct (Nat.ltb_spec (length (out ++ made)) cap') as [Hr|Hr]; [by eexists _, _|].
    rewrite length_app in Hr. apply IH; rewrite ?length_app; lia.
Qed.

(** C32: A message cannot blow up: inflating it comes to an end, and what comes
    out is never longer than the limit, however long the input says it is; an
    inflater keeps its own limit. *)
Theorem inflating_is_bounded (i : Inflater) (input : list Z) :
  exists r, (decompress i input).1 = Some r /\
    (forall out, r = Ok out -> (length out <= in_limit i)%nat) /\
    in_limit (decompress i input).2 = in_limit i.
Proof.
  unfold decompress. set (framed := input ++ SYNC_TRAILER).
  destruct (inflate_loop_ends (inflate_fuel (in_limit i) framed) (in_limit i) framed
              (if in_no_context_takeover i then decompress_reset (in_decompress i) else in_decompress i)
              0 [] (length input * 4)) as (r & d' & -> & Hr);
    [lia|cbn; lia|unfold inflate_fuel; cbn; lia|].
  by exists r.
Qed.
End deflate.
