(* ===== verification/Handshake.v ===== *)
(** * [crates/pahoa-net/src/ws/handshake.rs]: the opening handshake

    A parsed request, the upgrade and what it is answered, and the negotiation
    of permessage-deflate.  Parsing the head is httparse's ([HttpParse]) and the
    digest is sha1's ([Sha1]).  A header's value is the string of its bytes. *)

From Stdlib Require Import ZArith Lia Bool Ascii.
From stdpp Require Import base tactics numbers list strings pretty.
From S2P Require Import Prelude Types Text Filter Deflate.
From S2P Require PyValue.

(** ** Strings *)

(** [s.split(c)]: never empty. *)
Fixpoint split_on (c : ascii) (s : string) : list string :=
  match s with
  | EmptyString => [EmptyString]
  | String d s =>
      if Ascii.eqb d c then EmptyString :: split_on c s
      else match split_on c s with
           | [] => [String d EmptyString]
           | w :: ws => String d w :: ws
           end
  end.

(** [s.trim_matches] of the double quote. *)
Definition unquote (s : string) : string :=
  let quoted c := str_eqb c quote2 in
  str_concat (rev (drop_while quoted (rev (drop_while quoted (chars s))))).

Definition parse_u8 : string -> option Z := parse_within 0 u8_max.
Definition parse_usize : string -> option Z := parse_within 0 u64_max.

Definition crlf : string := String (ascii_of_nat 13) (String (ascii_of_nat 10) EmptyString).

(** ** The negotiation *)

Record Offer : Type := mkOffer {
  of_server_max_window_bits : option Z;
  of_client_max_window_bits : option (option Z);
  of_client_no_context_takeover : bool;
  of_server_no_context_takeover : bool
}.

Definition offer_default : Offer := mkOffer None None false false.

Record Accepted : Type := mkAccepted {
  ac_server_max_window_bits : Z;
  ac_client_max_window_bits : option Z;
  ac_client_no_context_takeover : bool
}.

Definition header_value (a : Accepted) : string :=
  String.append "permessage-deflate; server_no_context_takeover"
  (String.append (String.append "; server_max_window_bits=" (pretty (ac_server_max_window_bits a)))
  (String.append
     (match ac_client_max_window_bits a with
      | Some bits => String.append "; client_max_window_bits=" (pretty bits)
      | None => EmptyString
      end)
     (if ac_client_no_context_takeover a then "; client_no_context_takeover" else EmptyString))).

Record DeflateConfig : Type := mkDeflateConfig {
  dc_enabled : bool;
  dc_server_max_window_bits : Z;
  dc_client_max_window_bits : Z;
  dc_client_no_context_takeover : bool
}.

Definition deflate_config_default : DeflateConfig := mkDeflateConfig true WINDOW_BITS WINDOW_BITS false.

(** [bits.clamp(9, 15)]. *)
Definition clamp_bits (b : Z) : Z := if b <? 9 then 9 else if 15 <? b then 15 else b.

Definition accept_offer (config : DeflateConfig) (offer : Offer) : option Accepted :=
  if negb (dc_enabled config) then None
  else
    let server_bits := match of_server_max_window_bits offer with
                       | Some theirs => Z.min (dc_server_max_window_bits config) theirs
                       | None => dc_server_max_window_bits config
                       end in
    let client_bits := (fun theirs => match theirs with
                                      | Some limit => Z.min (dc_client_max_window_bits config) limit
                                      | None => dc_client_max_window_bits config
                                      end) <$> of_client_max_window_bits offer in
    Some (mkAccepted (clamp_bits server_bits) (clamp_bits <$> client_bits)
            (dc_client_no_context_takeover config || of_client_no_context_takeover offer)).

(** ** Reading the offers *)

Definition set_server_bits (b : Z) (o : Offer) : Offer :=
  mkOffer (Some b) (of_client_max_window_bits o) (of_client_no_context_takeover o) (of_server_no_context_takeover o).
Definition set_client_bits (b : option Z) (o : Offer) : Offer :=
  mkOffer (of_server_max_window_bits o) (Some b) (of_client_no_context_takeover o) (of_server_no_context_takeover o).
Definition set_client_reset (o : Offer) : Offer :=
  mkOffer (of_server_max_window_bits o) (of_client_max_window_bits o) true (of_server_no_context_takeover o).
Definition set_server_reset (o : Offer) : Offer :=
  mkOffer (of_server_max_window_bits o) (of_client_max_window_bits o) (of_client_no_context_takeover o) true.

(** One parameter: the offer, and whether it is still usable. *)
Definition read_param (acc : Offer * bool) (param : string) : Offer * bool :=
  let '(offer, usable) := acc in
  let '(key, val) := match PyValue.split_once "=" param with
                     | Some (k, v) => (trim k, Some (unquote (trim v)))
                     | None => (param, None)
                     end in
  let key := to_ascii_lowercase key in
  if str_eqb key "server_no_context_takeover" then (set_server_reset offer, usable)
  else if str_eqb key "client_no_context_takeover" then (set_client_reset offer, usable)
  else if str_eqb key "server_max_window_bits" then
    match val with
    | Some v => match parse_u8 v with
                | Some bits => if within 9 15 bits then (set_server_bits bits offer, usable) else (offer, false)
                | None => (offer, false)
                end
    | None => (offer, false)
    end
  else if str_eqb key "client_max_window_bits" then
    match val with
    | None => (set_client_bits None offer, usable)
    | Some v => match parse_u8 v with
                | Some bits => if within 9 15 bits then (set_client_bits (Some bits) offer, usable) else (offer, false)
                | None => (offer, false)
                end
    end
  else (offer, false).

(** One extension of the list; [None] passes on to the next. *)
Definition read_extension (extension : string) : option Offer :=
  match trim <$> split_on ";" extension with
  | [] => None
  | name :: params =>
      if negb (eq_ignore_ascii_case name "permessage-deflate") then None
      else
        let '(offer, usable) := fold_left read_param params (offer_default, true) in
        if usable then Some offer else None
  end.

Fixpoint first_usable (extensions : list string) : option Offer :=
  match extensions with
  | [] => None
  | extension :: rest =>
      match read_extension extension with Some offer => Some offer | None => first_usable rest end
  end.

Definition parse_extensions (value : string) : option Offer := first_usable (split_on "," value).

(** ** [base64] *)

Definition ALPHABET : string := "ABCDEFGHIJKLMNOPQRSTUVWXYZabcdefghijklmnopqrstuvwxyz0123456789+/".

Definition alphabet (index : Z) : ascii :=
  default Ascii.zero (String.get (Z.to_nat index) ALPHABET).

(** One chunk of up to three bytes. *)
Definition base64_chunk (chunk : list Z) : string :=
  let n := be_val [0; nth 0 chunk 0; nth 1 chunk 0; nth 2 chunk 0] in
  let indexes := [Z.land (Z.shiftr n 18) 63; Z.land (Z.shiftr n 12) 63; Z.land (Z.shiftr n 6) 63; Z.land n 63] in
  foldr String EmptyString (imap (fun i index => if (i <=? length chunk)%nat then alphabet index else "="%char) indexes).

Fixpoint base64 (input : list Z) : string :=
  match input with
  | [] => EmptyString
  | a :: b :: c :: rest => String.append (base64_chunk [a; b; c]) (base64 rest)
  | chunk => base64_chunk chunk
  end.

(** ** The request *)

Record HttpRequest : Type := mkHttpRequest {
  rq_method : string;
  rq_path : string;
  rq_headers : list (string * string);
  rq_head_len : nat
}.

Definition header (name : string) (r : HttpRequest) : option string :=
  snd <$> List.find (fun e => eq_ignore_ascii_case e.1 name) (rq_headers r).

Definition content_length (r : HttpRequest) : option Z := header "Content-Length" r ≫= parse_usize.

(** [v.split(',').any(|t| t.trim().eq_ignore_ascii_case(token))]. *)
Definition lists_token (token v : string) : bool :=
  existsb (fun t => eq_ignore_ascii_case (trim t) token) (split_on "," v).

Definition is_chunked (r : HttpRequest) : bool :=
  match header "Transfer-Encoding" r with Some v => lists_token "chunked" v | None => false end.

Definition is_upgrade (r : HttpRequest) : bool :=
  match header "Connection" r with Some v => lists_token "upgrade" v | None => false end &&
  match header "Upgrade" r with Some v => eq_ignore_ascii_case v "websocket" | None => false end.

Inductive HandshakeError : Type :=
| HeadersTooLarge (limit : nat)
| Malformed (text : string)
| NotAnUpgrade
| BadVersion (version : string)
| MissingKey.

(** httparse: what it makes of the bytes so far.  An answer other than [PartialHead]
    does not change when more arrives, and a blank line ends a head. *)
Inductive Parsed : Type :=
| Complete (head_len : nat) (method path : option string) (headers : list (string * list Z))
| PartialHead
| ParseError (text : string).

Definition is_partial (p : Parsed) : bool := match p with PartialHead => true | _ => false end.

(** The position of the first blank line: [buf.windows(4).position(..)]. *)
Fixpoint blank_line (buf : list Z) : option nat :=
  match buf with
  | [] => None
  | _ :: rest => if bool_decide (take 4 buf = [13; 10; 13; 10]) then Some 0%nat else S <$> blank_line rest
  end.

Definition headers_complete (buf : list Z) : bool := bool_decide (is_Some (blank_line buf)).

(** [c.is_ascii_uppercase()] of the first byte. *)
Definition starts_upper (buf : list Z) : bool :=
  match buf with c :: _ => within 65 90 c | [] => false end.

Class HttpParse : Type := {
  http_parse : list Z -> Parsed;
  parse_stable : forall buf rest, is_partial (http_parse buf) = false -> http_parse (buf ++ rest) = http_parse buf;
  parse_ends : forall buf, starts_upper buf = true -> headers_complete buf = true -> is_partial (http_parse buf) = false
}.

Class Sha1 : Type := {
  sha1 : list Z -> list Z;
  sha1_length : forall b, length (sha1 b) = 20%nat;
  sha1_bytes : forall b, Forall is_u8 (sha1 b)
}.

Section handshake.
Context `{HttpParse} `{Sha1}.

Definition parse_request (buf : list Z) (max_headers : nat) : result HandshakeError HttpRequest :=
  if (max_headers <? length buf)%nat then Err (HeadersTooLarge max_headers)
  else
    match http_parse buf with
    | PartialHead => Err (Malformed "incomplete")
    | ParseError text => Err (Malformed text)
    | Complete n method path headers =>
        Ok (mkHttpRequest (default EmptyString method) (default "/"%string path)
              (omap (fun h => if utf8_valid h.2 then Some (h.1, trim (string_of_bytes h.2)) else None) headers) n)
    end.

Definition GUID : string := "258EAFA5-E914-47DA-95CA-C5AB0DC85B11".

Definition accept (key : string) : string := base64 (sha1 (bytes_of_string key ++ bytes_of_string GUID)).

Record Request : Type := mkRequest {
  up_accept_key : string;
  up_deflate : option Offer;
  up_path : string
}.

Definition upgrade (r : HttpRequest) : result HandshakeError Request :=
  if negb (eq_ignore_ascii_case (rq_method r) "GET") || negb (is_upgrade r) then Err NotAnUpgrade
  else
    let version := header "Sec-WebSocket-Version" r in
    if negb (bool_decide (version = Some "13"%string)) then Err (BadVersion (default EmptyString version))
    else
      match header "Sec-WebSocket-Key" r with
      | None => Err MissingKey
      | Some key =>
          Ok (mkRequest (accept key) (header "Sec-WebSocket-Extensions" r ≫= parse_extensions) (rq_path r))
      end.

Definition parse (buf : list Z) (max_headers : nat) : result HandshakeError Request :=
  r ← parse_request buf max_headers; upgrade r.
End handshake.

(** ** The answers *)

Definition response_text (accept_key : string) (deflate : option Accepted) : string :=
  str_concat ["HTTP/1.1 101 Switching Protocols"%string; crlf;
    "Upgrade: websocket"%string; crlf; "Connection: Upgrade"%string; crlf;
    String.append "Sec-WebSocket-Accept: " (String.append accept_key crlf);
    match deflate with
    | Some accepted => String.append "Sec-WebSocket-Extensions: " (String.append (header_value accepted) crlf)
    | None => EmptyString
    end; crlf].

Definition response (accept_key : string) (deflate : option Accepted) : list Z :=
  bytes_of_string (response_text accept_key deflate).

Definition error_response (status : string) : list Z :=
  bytes_of_string (str_concat ["HTTP/1.1 "%string; status; crlf; "Connection: close"%string; crlf;
    "Content-Length: 0"%string; crlf; crlf]).

(** * The handshake's theorems

    What is negotiated stays within the offer and is read back from the answer;
    base64 is undone by a decoder. *)

(** ** The negotiation *)

Definition bits_ok (b : Z) : Prop := 9 <= b <= 15.

(** An offer as it can be read: every number it names is a window. *)
Definition offer_ok (o : Offer) : Prop :=
  (forall b, of_server_max_window_bits o = Some b -> bits_ok b) /\
  (forall b, of_client_max_window_bits o = Some (Some b) -> bits_ok b).

Lemma clamp_bits_ok b : bits_ok (clamp_bits b).
Proof. unfold clamp_bits, bits_ok. destruct (Z.ltb_spec b 9); [lia|]. destruct (Z.ltb_spec 15 b); lia. Qed.

Lemma clamp_bits_min ours theirs : bits_ok theirs -> clamp_bits (Z.min ours theirs) <= theirs.
Proof.
  unfold clamp_bits, bits_ok. intros Ht. destruct (Z.ltb_spec (Z.min ours theirs) 9); [lia|].
  destruct (Z.ltb_spec 15 (Z.min ours theirs)); lia.
Qed.

Lemma within_bits b : within 9 15 b = true -> bits_ok b.
Proof. unfold within, bits_ok. intros [?%Z.leb_le ?%Z.leb_le]%andb_true_iff. lia. Qed.

Lemma read_param_ok acc param : offer_ok acc.1 -> offer_ok (read_param acc param).1.
Proof.
  destruct acc as [o usable]. intros Ho. cbn in Ho. unfold read_param. destruct Ho as [H1 H2].
  repeat (case_match; simplify_eq/=); try (split; assumption);
    (split; cbn; [intros b Hb|intros b Hb]; simplify_eq; try (by eauto using within_bits)).
Qed.

Lemma read_params_ok params acc : offer_ok acc.1 -> offer_ok (fold_left read_param params acc).1.
Proof. revert acc. induction params as [|p l IH]; intros acc Ho; [done|]. cbn. by apply IH, read_param_ok. Qed.

Lemma read_extension_ok extension o : read_extension extension = Some o -> offer_ok o.
Proof.
  unfold read_extension. destruct (trim <$> split_on ";" extension) as [|name params]; [done|].
  destruct (negb _); [done|].
  pose proof (read_params_ok params (offer_default, true)) as Hp.
  destruct (fold_left read_param params (offer_default, true)) as [o' [|]]; [|done]. intros [= <-].
  apply Hp. by split; intros b [=].
Qed.

Lemma parse_extensions_ok value o : parse_extensions value = Some o -> offer_ok o.
Proof.
  unfold parse_extensions. induction (split_on "," value) as [|e l IH]; [done|]. cbn.
  destruct (read_extension e) as [o'|] eqn:E; [|exact IH]. intros [= ->]. by eapply read_extension_ok.
Qed.

(** What an answer says, as an offer would say it. *)
Definition as_offer (a : Accepted) : Offer :=
  mkOffer (Some (ac_server_max_window_bits a)) (Some <$> ac_client_max_window_bits a)
    (ac_client_no_context_takeover a) true.

Definition windows_list : list Z := [9; 10; 11; 12; 13; 14; 15].

Definition answers : list Accepted :=
  s ← windows_list; c ← None :: (Some <$> windows_list); r ← [true; false]; [mkAccepted s c r].

Lemma windows_all b : bits_ok b -> b ∈ windows_list.
Proof.
  unfold bits_ok, windows_list. intros Hb.
  assert (b = 9 \/ b = 10 \/ b = 11 \/ b = 12 \/ b = 13 \/ b = 14 \/ b = 15) by lia.
  destruct_or!; subst b; apply (bool_decide_unpack _); exact I.
Qed.

#[local] Instance offer_eq_dec : EqDecision Offer.
Proof. solve_decision. Defined.

Lemma answers_read_back :
  forallb (fun a => bool_decide (parse_extensions (header_value a) = Some (as_offer a))) answers = true.
Proof. vm_compute. reflexivity. Qed.

Lemma header_value_read a :
  bits_ok (ac_server_max_window_bits a) -> (forall b, ac_client_max_window_bits a = Some b -> bits_ok b) ->
  parse_extensions (header_value a) = Some (as_offer a).
Proof.
  intros Hs Hc. assert (Hin : a ∈ answers).
  { destruct a as [s c r]. cbn in Hs, Hc. unfold answers. apply list_elem_of_bind. exists s. split; [|by apply windows_all].
    apply list_elem_of_bind. exists c. split.
    - apply list_elem_of_bind. exists r. split; [by left|]. destruct r; [by left|by right; left].
    - destruct c as [c|]; [right|left]. apply list_elem_of_fmap. exists c. split; [done|]. by apply windows_all, Hc. }
  pose proof answers_read_back as Hb. rewrite forallb_forall in Hb.
  specialize (Hb a (proj1 (list_elem_of_In _ _) Hin)). by apply bool_decide_eq_true in Hb.
Qed.

(** C27: What is negotiated is sound, whatever header the client sends and however
    the server is configured.  Our window is a legal one and no larger than the
    client can take; the client's is named exactly when the client offered to
    have it named, and no larger than it asked for; a client that asked to reset
    its own compressor is told so; and the answer, read as an extension header,
    says just this and that our compressor is reset for every message. *)
Theorem negotiation_is_sound config value offer a :
  parse_extensions value = Some offer -> accept_offer config offer = Some a ->
  bits_ok (ac_server_max_window_bits a) /\
  (forall b, of_server_max_window_bits offer = Some b -> ac_server_max_window_bits a <= b) /\
  (is_Some (ac_client_max_window_bits a) <-> is_Some (of_client_max_window_bits offer)) /\
  (forall b, ac_client_max_window_bits a = Some b -> bits_ok b /\
     forall limit, of_client_max_window_bits offer = Some (Some limit) -> b <= limit) /\
  (of_client_no_context_takeover offer = true -> ac_client_no_context_takeover a = true) /\
  parse_extensions (header_value a) = Some (as_offer a).
Proof.
  intros Hp Ha. destruct (parse_extensions_ok _ _ Hp) as [Hs Hc]. unfold accept_offer in Ha.
  destruct (negb (dc_enabled config)); [done|]. injection Ha as <-. cbn -[header_value].
  assert (Hb : forall b, clamp_bits <$> ((fun theirs : option Z => match theirs with
      | Some limit => Z.min (dc_client_max_window_bits config) limit
      | None => dc_client_max_window_bits config end) <$> of_client_max_window_bits offer) = Some b -> bits_ok b).
  { intros b. destruct (of_client_max_window_bits offer) as [t|]; [|done]. intros [= <-]. apply clamp_bits_ok. }
  split_and!.
  - apply clamp_bits_ok.
  - intros b Hb'. rewrite Hb'. by apply clamp_bits_min, Hs.
  - by rewrite !fmap_is_Some.
  - intros b Hb'. split; [by apply Hb|]. intros limit Hl. rewrite Hl in Hb'. injection Hb' as <-.
    by apply clamp_bits_min, Hc.
  - intros ->. apply orb_true_r.
  - by apply header_value_read; [apply clamp_bits_ok|exact Hb].
Qed.

Lemma negotiation_is_sound_witness : exists offer a,
  parse_extensions "permessage-deflate; server_max_window_bits=10; client_max_window_bits" = Some offer /\
  accept_offer deflate_config_default offer = Some a /\ ac_server_max_window_bits a <= 10.
Proof.
  eexists _, _. split; [vm_compute; reflexivity|]. split; [vm_compute; reflexivity|].
  apply (proj1 (proj2 (negotiation_is_sound deflate_config_default
    "permessage-deflate; server_max_window_bits=10; client_max_window_bits" _ _
    ltac:(vm_compute; reflexivity) ltac:(vm_compute; reflexivity)))). reflexivity.
Defined.

(** ** Base64 *)

(** RFC 4648's decoder: the value of a character, and four characters at a time. *)
Fixpoint position (c : ascii) (s : string) : option Z :=
  match s with
  | EmptyString => None
  | String d s => if Ascii.eqb d c then Some 0 else Z.succ <$> position c s
  end.

Definition bytes_of_quad (x y z w : Z) : list Z :=
  let n := ((x * 64 + y) * 64 + z) * 64 + w in [n / 65536; n / 256 mod 256; n mod 256].

Fixpoint unbase64 (s : string) : option (list Z) :=
  match s with
  | EmptyString => Some []
  | String a (String b (String c (String d rest))) =>
      x ← position a ALPHABET; y ← position b ALPHABET;
      if Ascii.eqb c "=" then
        if Ascii.eqb d "=" && str_eqb rest EmptyString then Some (take 1 (bytes_of_quad x y 0 0)) else None
      else
        z ← position c ALPHABET;
        if Ascii.eqb d "=" then
          if str_eqb rest EmptyString then Some (take 2 (bytes_of_quad x y z 0)) else None
        else w ← position d ALPHABET; l ← unbase64 rest; Some (bytes_of_quad x y z w ++ l)
  | _ => None
  end.

Definition sextets : list Z := Z.of_nat <$> seq 0 64.

Lemma alphabet_positions :
  forallb (fun i => bool_decide (position (alphabet i) ALPHABET = Some i) && negb (Ascii.eqb (alphabet i) "=")) sextets = true.
Proof. vm_compute. reflexivity. Qed.

Lemma alphabet_position i : 0 <= i < 64 -> position (alphabet i) ALPHABET = Some i /\ Ascii.eqb (alphabet i) "=" = false.
Proof.
  intros Hi. pose proof alphabet_positions as Hb. rewrite forallb_forall in Hb.
  assert (Hin : In i sextets).
  { unfold sextets. apply list_elem_of_In, list_elem_of_fmap. exists (Z.to_nat i). split; [lia|].
    apply elem_of_seq. lia. }
  apply Hb, andb_true_iff in Hin as [Hp He]. split; [by apply bool_decide_eq_true in Hp|by apply negb_true_iff].
Qed.

(** The four sextets of three bytes. *)
Definition sextet (k n : Z) : Z := Z.land (Z.shiftr n k) 63.

Lemma sextet_eq k n : 0 <= k -> sextet k n = n / 2 ^ k mod 64.
Proof. intros Hk. unfold sextet. rewrite Z.shiftr_div_pow2 by done. by rewrite (Z.land_ones _ 6). Qed.

Lemma sextet_range k n : 0 <= k -> 0 <= sextet k n < 64.
Proof. intros Hk. rewrite sextet_eq by done. by apply Z.mod_pos_bound. Qed.

Lemma quad_of_sextets n : 0 <= n < 2 ^ 24 ->
  ((sextet 18 n * 64 + sextet 12 n) * 64 + sextet 6 n) * 64 + sextet 0 n = n.
Proof.
  intros Hn. rewrite !sextet_eq by done. change (2 ^ 24) with 16777216 in Hn.
  change (2 ^ 18) with (64 * 64 * 64). change (2 ^ 12) with (64 * 64). change (2 ^ 6) with 64. change (2 ^ 0) with 1.
  rewrite <-!Z.div_div, Z.div_1_r by lia. Z.div_mod_to_equations. lia.
Qed.

Lemma bytes_of_quad_sextets a b c : is_u8 a -> is_u8 b -> is_u8 c ->
  let n := a * 65536 + b * 256 + c in
  bytes_of_quad (sextet 18 n) (sextet 12 n) (sextet 6 n) (sextet 0 n) = [a; b; c].
Proof.
  intros Ha Hb Hc n. unfold is_u8 in *. change (2 ^ 8) with 256 in *. unfold bytes_of_quad.
  rewrite quad_of_sextets by (subst n; change (2 ^ 24) with 16777216; lia). subst n.
  f_equal; [|f_equal; [|f_equal]]; Z.div_mod_to_equations; lia.
Qed.

(** A chunk is the characters of its sextets. *)
Lemma base64_chunk_eq l : (length l <= 3)%nat ->
  let n := nth 0 l 0 * 65536 + nth 1 l 0 * 256 + nth 2 l 0 in
  base64_chunk l = String (alphabet (sextet 18 n)) (String (if (1 <=? length l)%nat then alphabet (sextet 12 n) else "="%char)
    (String (if (2 <=? length l)%nat then alphabet (sextet 6 n) else "="%char)
    (String (if (3 <=? length l)%nat then alphabet (sextet 0 n) else "="%char) EmptyString))).
Proof.
  intros Hl n. unfold base64_chunk.
  replace (be_val [0; nth 0 l 0; nth 1 l 0; nth 2 l 0]) with n; [done|]. subst n. unfold be_val. cbn [fold_left]. lia.
Qed.

Lemma low_sextet_zero k m n : 0 <= k -> n = m * 2 ^ (k + 6) -> sextet k n = 0.
Proof.
  intros Hk ->. rewrite sextet_eq by done. rewrite Z.pow_add_r by lia. rewrite Z.mul_assoc, (Z.mul_comm m), <-Z.mul_assoc.
  rewrite Z.mul_comm, Z.div_mul by lia. change (2 ^ 6) with 64. by rewrite Z.mod_mul.
Qed.

Lemma append_string a t s : String.append (String a t) s = String a (String.append t s).
Proof. done. Qed.

Lemma unbase64_chunk l s : (1 <= length l <= 3)%nat -> Forall is_u8 l -> (length l = 3%nat \/ s = EmptyString) ->
  unbase64 (String.append (base64_chunk l) s) = (if (length l =? 3)%nat then app l <$> unbase64 s else Some l).
Proof.
  intros Hl Hu Hs. rewrite base64_chunk_eq by lia. cbv zeta.
  rewrite !append_string. change (String.append EmptyString s) with s. cbn [unbase64].
  set (n := nth 0 l 0 * 65536 + nth 1 l 0 * 256 + nth 2 l 0).
  assert (Hp : forall k, 0 <= k -> position (alphabet (sextet k n)) ALPHABET = Some (sextet k n) /\
            Ascii.eqb (alphabet (sextet k n)) "=" = false).
  { intros k Hk. by apply alphabet_position, sextet_range. }
  destruct (Hp 18) as [-> _]; [done|]. destruct (Hp 12) as [H12 _]; [done|].
  destruct (Hp 6) as [H6 E6]; [done|]. destruct (Hp 0) as [H0 E0]; [done|]. clear Hp.
  assert (Hq : forall a b c, n = a * 65536 + b * 256 + c -> is_u8 a -> is_u8 b -> is_u8 c ->
    bytes_of_quad (sextet 18 n) (sextet 12 n) (sextet 6 n) (sextet 0 n) = [a; b; c]).
  { intros a b c ->. apply bytes_of_quad_sextets. }
  assert (is_u8 0) by (unfold is_u8; lia). cbn [mbind option_bind].
  destruct l as [|a [|b [|c [|? ?]]]]; cbn in Hl; try lia;
    repeat match goal with Hf : Forall _ (_ :: _) |- _ => apply Forall_cons in Hf as [? Hf] end; cbn [length Nat.leb Nat.eqb].
  - destruct Hs as [?| ->]; [done|]. rewrite H12. cbn [mbind option_bind Ascii.eqb Bool.eqb andb]. cbn -[bytes_of_quad].
    assert (sextet 6 n = 0 /\ sextet 0 n = 0) as [E6' E0'].
    { subst n. cbn. split; [apply (low_sextet_zero 6 (a * 16))|apply (low_sextet_zero 0 (a * 1024))]; cbn; lia. }
    rewrite E6', E0' in Hq. rewrite (Hq a 0 0); [done| |done..]. subst n. cbn. lia.
  - destruct Hs as [?| ->]; [done|]. rewrite H12. cbn [mbind option_bind]. rewrite E6, H6. cbn -[bytes_of_quad].
    assert (E0' : sextet 0 n = 0).
    { subst n. cbn. apply (low_sextet_zero 0 (a * 1024 + b * 4)); cbn; lia. }
    rewrite E0' in Hq. rewrite (Hq a b 0); [done| |done..]. subst n. cbn. lia.
  - rewrite H12. cbn [mbind option_bind]. rewrite E6, H6. cbn [mbind option_bind]. rewrite E0, H0. cbn [mbind option_bind].
    rewrite (Hq a b c); [|subst n; cbn; lia|done..]. by destruct (unbase64 s).
Qed.

Lemma base64_chunk_length l : (1 <= length l <= 3)%nat -> String.length (base64_chunk l) = 4%nat.
Proof. intros Hl. rewrite base64_chunk_eq by lia. done. Qed.

Lemma string_length_append a b : String.length (String.append a b) = (String.length a + String.length b)%nat.
Proof. induction a as [|c a IH]; [done|]. rewrite append_string. cbn. by rewrite IH. Qed.

Lemma base64_length l : String.length (base64 l) = (4 * ((length l + 2) / 3))%nat.
Proof.
  assert (Hn : forall n l, (length l <= n)%nat -> String.length (base64 l) = (4 * ((length l + 2) / 3))%nat).
  { clear l. induction n as [|n IH]; intros [|a [|b [|c l]]] Hl; try done; cbn in Hl; try lia.
    change (base64 (a :: b :: c :: l)) with (String.append (base64_chunk [a; b; c]) (base64 l)).
    rewrite string_length_append, base64_chunk_length by (cbn; lia). rewrite IH by lia. cbn [length].
    replace (S (S (S (length l))) + 2)%nat with (length l + 2 + 1 * 3)%nat by lia. rewrite Nat.div_add by lia. lia. }
  by apply (Hn (length l)).
Qed.

(** What is encoded is decoded: base64's characters, taken four at a time as
    RFC 4648 has it, give the bytes back, and there are four of them for each
    three bytes begun. *)
Theorem base64_decodes (l : list Z) :
  Forall is_u8 l -> unbase64 (base64 l) = Some l /\ String.length (base64 l) = (4 * ((length l + 2) / 3))%nat.
Proof.
  intros Hu. split; [|apply base64_length].
  assert (Hn : forall n l, (length l <= n)%nat -> Forall is_u8 l -> unbase64 (base64 l) = Some l).
  { clear l Hu. induction n as [|n IH]; intros [|a [|b [|c l]]] Hl Hu; try done; cbn in Hl; try lia.
    - rewrite <-(append_nil (base64 [a])). apply unbase64_chunk; [cbn; lia|done|by right].
    - rewrite <-(append_nil (base64 [a; b])). apply unbase64_chunk; [cbn; lia|done|by right].
    - change (base64 (a :: b :: c :: l)) with (String.append (base64_chunk [a; b; c]) (base64 l)).
      assert (Hu' : Forall is_u8 [a; b; c] /\ Forall is_u8 l) by (by apply Forall_app).
      rewrite unbase64_chunk; [|cbn; lia|apply Hu'|by left]. cbn [length Nat.eqb].
      by rewrite IH; [|lia|apply Hu']. }
  by apply (Hn (length l)).
Qed.

Lemma base64_decodes_witness : unbase64 (base64 [102; 111; 111; 98]) = Some [102; 111; 111; 98].
Proof.
  apply (base64_decodes [102; 111; 111; 98]). repeat constructor; unfold is_u8; lia.
Defined.
