(* ===== verification/Accept.v ===== *)
(** * [crates/pahoa-net/src/ws/accept.rs]: what a connection turns out to be

    [accept] over a socket, whose reads are a list: bytes, the end, the deadline
    or an error.  An answer of [None] is still waiting.  Whether the response can
    be written is an argument. *)

From Stdlib Require Import ZArith Lia Bool.
From stdpp Require Import base tactics list strings.
From S2P Require Import Prelude Text Deflate Handshake.

Inductive Read : Type :=
| Bytes (chunk : list Z)
| Eof
| Late
| IoFailed.

Inductive AcceptError : Type :=
| AHandshake (e : HandshakeError)
| AIo
| ATimeout
| AClosed
| ATls
| ANotHttp
| ABodyTooLarge (limit : nat)
| AChunked.

Record AcceptConfig : Type := mkAcceptConfig {
  ag_deflate : DeflateConfig;
  ag_max_headers : nat;
  ag_max_message : nat;
  ag_max_body : nat
}.

Record Exchange : Type := mkExchange { ex_request : HttpRequest; ex_body : list Z }.

(** [buf.first()] and [buf.get(1)]. *)
Definition sniff (buf : list Z) : result AcceptError unit :=
  match buf with
  | [] => Ok tt
  | c :: rest =>
      if c =? 0x16 then
        match rest with
        | [] => Ok tt
        | d :: _ => if d =? 0x03 then Err ATls else Err ANotHttp
        end
      else if within 65 90 c then Ok tt else Err ANotHttp
  end.

Definition find_header_end (buf : list Z) : option nat := (fun i => i + 4)%nat <$> blank_line buf.

Section accept.
Context `{Flate2} `{HttpParse} `{Sha1}.
Context (config : AcceptConfig) (writes : bool).

Record Upgraded : Type := mkUpgraded {
  ug_inflater : option Inflater;
  ug_deflate : option Z;
  ug_leftover : list Z;
  ug_path : string
}.

Inductive Outcome : Type :=
| WebSocket (u : Upgraded)
| Http (e : Exchange).

(** The loop over the head. *)
Fixpoint read_head (reads : list Read) (buf : list Z)
    : option (result AcceptError (HttpRequest * list Z) * list Read) :=
  if headers_complete buf then
    Some (match parse_request buf (ag_max_headers config) with
          | Ok http => Ok (http, buf)
          | Err e => Err (AHandshake e)
          end, reads)
  else if (ag_max_headers config <? length buf)%nat
  then Some (Err (AHandshake (HeadersTooLarge (ag_max_headers config))), reads)
  else
    match reads with
    | [] => None
    | Late :: rest => Some (Err ATimeout, rest)
    | IoFailed :: rest => Some (Err AIo, rest)
    | Eof :: rest | Bytes [] :: rest => Some (Err AClosed, rest)
    | Bytes chunk :: rest =>
        match sniff (buf ++ chunk) with
        | Err e => Some (Err e, rest)
        | Ok _ => read_head rest (buf ++ chunk)
        end
    end.

(** The loop of [read_body]. *)
Fixpoint read_rest (want start : nat) (reads : list Read) (buf : list Z) : option (result AcceptError (list Z)) :=
  if (length buf - start <? want)%nat then
    match reads with
    | [] => None
    | Late :: _ => Some (Err ATimeout)
    | IoFailed :: _ => Some (Err AIo)
    | Eof :: _ | Bytes [] :: _ => Some (Err AClosed)
    | Bytes chunk :: rest =>
        if (ag_max_body config <? length (buf ++ chunk) - start)%nat
        then Some (Err (ABodyTooLarge (ag_max_body config)))
        else read_rest want start rest (buf ++ chunk)
    end
  else Some (Ok (take want (drop start buf))).

Definition read_body (http : HttpRequest) (reads : list Read) (buf : list Z) : option (result AcceptError (list Z)) :=
  if is_chunked http then Some (Err AChunked)
  else
    let want := default 0 (content_length http) in
    if Z.of_nat (ag_max_body config) <? want then Some (Err (ABodyTooLarge (ag_max_body config)))
    else read_rest (Z.to_nat want) (rq_head_len http) reads buf.

Definition upgraded (request : Request) (buf : list Z) : Upgraded * list Z :=
  let accepted := up_deflate request ≫= accept_offer (ag_deflate config) in
  (mkUpgraded
     ((fun a => inflater_new (default 15 (ac_client_max_window_bits a)) (ac_client_no_context_takeover a)
                  (ag_max_message config)) <$> accepted)
     (ac_server_max_window_bits <$> accepted)
     (drop (default 0%nat (find_header_end buf)) buf)
     (up_path request),
   response (up_accept_key request) accepted).

(** What follows the loop: the outcome, what was written, and the reads left
    over. *)
Definition after_head (x : option (result AcceptError (HttpRequest * list Z) * list Read))
    : option (result AcceptError Outcome * list Z * list Read) :=
  match x with
  | None => None
  | Some (Err e, rest) => Some (Err e, [], rest)
  | Some (Ok (http, buf), rest) =>
      match upgrade http with
      | Ok request =>
          let '(u, answer) := upgraded request buf in
          Some (if writes then Ok (WebSocket u) else Err AIo, answer, rest)
      | Err NotAnUpgrade =>
          body ← read_body http rest buf;
          Some (match body with Ok body => Ok (Http (mkExchange http body)) | Err e => Err e end, [], rest)
      | Err e => Some (Err (AHandshake e), [], rest)
      end
  end.

Definition run_accept (reads : list Read) : option (result AcceptError Outcome * list Z * list Read) :=
  after_head (read_head reads []).
End accept.

Definition HANDSHAKE_FAILURE : list Z := [0x15; 0x03; 0x03; 0x00; 0x02; 0x02; 0x28].

(** [reject]: what is written, if anything. *)
Definition reject (error : AcceptError) : list Z :=
  match error with
  | ATls => HANDSHAKE_FAILURE
  | AHandshake (BadVersion _) => error_response "426 Upgrade Required"
  | AHandshake (HeadersTooLarge _) => error_response "431 Request Header Fields Too Large"
  | AHandshake _ => error_response "400 Bad Request"
  | ABodyTooLarge _ => error_response "413 Content Too Large"
  | AChunked => error_response "411 Length Required"
  | _ => []
  end.

(** * However a request arrives

    The outcome of [accept] depends on the bytes and not on the reads that
    brought them. *)

(** ** The blank line *)

Lemma blank_here b : take 4 b = [13; 10; 13; 10] -> (4 <= length b)%nat.
Proof. intros Hb. apply (f_equal length) in Hb. rewrite length_take in Hb. cbn [length] in Hb. lia. Qed.

Lemma blank_line_long b k : blank_line b = Some k -> (k + 4 <= length b)%nat.
Proof.
  revert k. induction b as [|x b IH]; intros k; [done|]. cbn [blank_line]. case_bool_decide as Hb.
  - intros [= <-]. by apply blank_here in Hb.
  - intros (j & Hj & ->)%fmap_Some. cbn. apply IH in Hj. lia.
Qed.

Lemma blank_line_app buf rest i : blank_line buf = Some i -> blank_line (buf ++ rest) = Some i.
Proof.
  revert i. induction buf as [|c buf IH]; intros i; [done|].
  change ((c :: buf) ++ rest) with (c :: (buf ++ rest)). cbn [blank_line].
  change (c :: (buf ++ rest)) with ((c :: buf) ++ rest). case_bool_decide as Hb.
  - intros [= <-]. rewrite bool_decide_true; [done|]. rewrite take_app_le; [done|by apply blank_here].
  - intros Hs. apply fmap_Some in Hs as (j & Hj & ->). rewrite bool_decide_false; [by rewrite (IH j Hj)|].
    intros Hb'. apply Hb. rewrite take_app_le in Hb'; [done|]. apply blank_line_long in Hj. cbn. lia.
Qed.

Lemma headers_complete_app buf rest : headers_complete buf = true -> headers_complete (buf ++ rest) = true.
Proof.
  unfold headers_complete. rewrite !bool_decide_eq_true. intros [i Hi]. eexists. by apply blank_line_app.
Qed.

Lemma headers_complete_long buf : headers_complete buf = true -> (2 <= length buf)%nat.
Proof. unfold headers_complete. intros [i Hi%blank_line_long]%bool_decide_eq_true. lia. Qed.

(** ** Sniffing *)

Lemma sniff_app buf rest : (2 <= length buf)%nat -> sniff (buf ++ rest) = sniff buf.
Proof. destruct buf as [|a [|b buf]]; cbn; [lia..|done]. Qed.

Lemma sniff_prefix buf rest u : sniff (buf ++ rest) = Ok u -> sniff buf = Ok tt.
Proof.
  destruct u. destruct buf as [|a [|b buf]]; [done| |by rewrite sniff_app by (cbn; lia)]. cbn.
  destruct (a =? 22); [done|]. by destruct (within 65 90 a).
Qed.

Lemma sniff_error buf rest e : sniff buf = Err e -> sniff (buf ++ rest) = Err e.
Proof.
  destruct buf as [|a [|b buf]]; [done| |by rewrite sniff_app by (cbn; lia)]. cbn.
  destruct (a =? 22); [done|]. by destruct (within 65 90 a).
Qed.

Lemma sniff_upper buf : sniff buf = Ok tt -> (2 <= length buf)%nat -> starts_upper buf = true.
Proof.
  destruct buf as [|a [|b buf]]; cbn; [lia..|]. intros Hs _. destruct (a =? 22); [by destruct (b =? 3)|].
  by destruct (within 65 90 a).
Qed.

Section arrival.
Context `{Flate2} `{HttpParse} `{Sha1}.
Context (config : AcceptConfig) (writes : bool).

Definition pieces (cs : list (list Z)) : list Read := Bytes <$> cs.

Definition nonempty (cs : list (list Z)) : Prop := Forall (fun c => c <> []) cs.

(** ** The head *)

Lemma head_step c cs buf ev :
  c <> [] -> headers_complete buf = false -> (length buf <= ag_max_headers config)%nat ->
  read_head config (pieces (c :: cs) ++ ev) buf =
  match sniff (buf ++ c) with
  | Err e => Some (Err e, pieces cs ++ ev)
  | Ok _ => read_head config (pieces cs ++ ev) (buf ++ c)
  end.
Proof.
  intros Hc Hf Hl. destruct c as [|x c]; [done|].
  change (pieces ((x :: c) :: cs) ++ ev) with (Bytes (x :: c) :: (pieces cs ++ ev)). cbn [read_head].
  by rewrite Hf, (proj2 (Nat.ltb_ge _ _) Hl).
Qed.

(** A stream that is refused on sight. *)
Lemma head_refused cs : forall buf ev e,
  sniff (buf ++ concat cs) = Err e -> sniff buf = Ok tt -> nonempty cs ->
  (length (buf ++ concat cs) <= ag_max_headers config)%nat ->
  exists rest, read_head config (pieces cs ++ ev) buf = Some (Err e, rest).
Proof.
  induction cs as [|c cs IH]; intros buf ev e Hs Hb Hn Hl.
  - cbn in Hs. rewrite app_nil_r, Hb in Hs. done.
  - apply Forall_cons in Hn as [Hc Hn].
    assert (Hf : headers_complete buf = false).
    { destruct (headers_complete buf) eqn:E; [|done]. apply headers_complete_long in E.
      rewrite sniff_app, Hb in Hs by done. done. }
    cbn [concat] in Hs, Hl. rewrite app_assoc in Hs, Hl.
    rewrite head_step; [|done..|rewrite !length_app in Hl; lia].
    destruct (sniff (buf ++ c)) as [[]|e'] eqn:Es; [by apply IH|].
    apply (sniff_error _ (concat cs)) in Es. assert (e' = e) as -> by congruence. by eexists.
Qed.

(** What the loop makes of a complete head. *)
Definition head_of (p : list Z) (rest : list Read) : option (result AcceptError (HttpRequest * list Z) * list Read) :=
  Some (match parse_request p (ag_max_headers config) with
        | Ok http => Ok (http, p)
        | Err e => Err (AHandshake e)
        end, rest).

(** One that is not: the head as soon as it is complete, or the wait for more. *)
Lemma head_arrives cs : forall buf ev,
  sniff (buf ++ concat cs) = Ok tt -> nonempty cs ->
  (length (buf ++ concat cs) <= ag_max_headers config)%nat ->
  if headers_complete (buf ++ concat cs) then
    exists p cs', p ++ concat cs' = buf ++ concat cs /\ nonempty cs' /\ headers_complete p = true /\
      read_head config (pieces cs ++ ev) buf = head_of p (pieces cs' ++ ev)
  else read_head config (pieces cs ++ ev) buf = read_head config ev (buf ++ concat cs).
Proof.
  induction cs as [|c cs IH]; intros buf ev Hs Hn Hl.
  - cbn [concat]. rewrite app_nil_r. destruct (headers_complete buf) eqn:E; [|done].
    exists buf, []. rewrite app_nil_r. split_and!; [done..|].
    cbn. destruct ev; cbn; rewrite E; done.
  - apply Forall_cons in Hn as [Hc Hn]. destruct (headers_complete buf) eqn:E.
    + rewrite headers_complete_app by done. exists buf, (c :: cs).
      split_and!; [done|by constructor|done|]. cbn. by rewrite E.
    + cbn [concat] in *. rewrite app_assoc in *.
      rewrite head_step; [|done..|rewrite !length_app in Hl; lia].
      rewrite (sniff_prefix (buf ++ c) _ _ Hs). by apply IH.
Qed.

(** ** The body *)

Lemma body_arrives want start cs : forall buf ev,
  nonempty cs -> (length (buf ++ concat cs) - start <= ag_max_body config)%nat ->
  read_rest config want start (pieces cs ++ ev) buf =
  (if (length (buf ++ concat cs) - start <? want)%nat then read_rest config want start ev (buf ++ concat cs)
   else Some (Ok (take want (drop start (buf ++ concat cs))))).
Proof.
  induction cs as [|c cs IH]; intros buf ev Hn Hl.
  - cbn [concat pieces fmap list_fmap app]. rewrite app_nil_r.
    destruct (Nat.ltb_spec (length buf - start) want) as [Hw|Hw]; [done|].
    destruct ev; cbn [read_rest]; by rewrite (proj2 (Nat.ltb_ge _ _) Hw).
  - apply Forall_cons in Hn as [Hc Hn]. cbn [concat pieces fmap list_fmap app] in *.
    destruct c as [|x c]; [done|]. cbn [read_rest].
    destruct (Nat.ltb_spec (length buf - start) want) as [Hw|Hw].
    + destruct (Nat.ltb_spec (ag_max_body config) (length (buf ++ x :: c) - start)) as [Hb|Hb].
      { rewrite !length_app in *. lia. }
      specialize (IH (buf ++ x :: c) ev Hn). rewrite <-app_assoc in IH. by apply IH.
    + rewrite (proj2 (Nat.ltb_ge _ _)) by (rewrite !length_app in *; lia). do 2 f_equal.
      destruct (decide (length buf <= start)%nat).
      { assert (want = 0%nat) as -> by lia. done. }
      rewrite drop_app_le by lia. rewrite take_app_le; [done|]. rewrite length_drop. lia.
Qed.

(** ** The outcome *)

(** The bytes of the reads that are left. *)
Definition unread (reads : list Read) : list Z :=
  r ← reads; match r with Bytes c => c | _ => [] end.

(** The outcome, with what the WebSocket stream begins with: what is left over
    and what is yet to be read. *)
Definition settled (x : option (result AcceptError Outcome * list Z * list Read))
    : option (result AcceptError Outcome * list Z) :=
  '(r, answer, rest) ← x;
  Some (match r with
        | Ok (WebSocket u) =>
            Ok (WebSocket (mkUpgraded (ug_inflater u) (ug_deflate u) (ug_leftover u ++ unread rest) (ug_path u)))
        | r => r
        end, answer).

Lemma unread_pieces cs ev : unread (pieces cs ++ ev) = concat cs ++ unread ev.
Proof.
  induction cs as [|c cs IH]; [done|].
  change (unread (pieces (c :: cs) ++ ev)) with (c ++ unread (pieces cs ++ ev)). cbn [concat]. by rewrite IH, app_assoc.
Qed.

Definition answered (p : list Z) (rest : list Read) : option (result AcceptError Outcome * list Z) :=
  settled (after_head config writes (head_of p rest)).

Lemma answered_alike p cs s ev :
  p ++ concat cs = s -> nonempty cs -> headers_complete p = true -> sniff s = Ok tt ->
  (length s <= ag_max_headers config)%nat -> (length s <= ag_max_body config)%nat ->
  answered p (pieces cs ++ ev) = answered s ev.
Proof.
  intros <- Hn Hp Hs Hh Hb. unfold answered, head_of.
  assert (Hlen : (length p <= length (p ++ concat cs))%nat) by (rewrite length_app; lia).
  assert (Hparse : parse_request (p ++ concat cs) (ag_max_headers config) = parse_request p (ag_max_headers config)).
  { unfold parse_request. rewrite !(proj2 (Nat.ltb_ge _ _)) by lia.
    rewrite parse_stable; [done|]. apply parse_ends; [|done].
    apply sniff_upper; [by eapply sniff_prefix|by apply headers_complete_long]. }
  rewrite Hparse. destruct (parse_request p (ag_max_headers config)) as [http|e]; [|done]. cbn [after_head].
  destruct (upgrade http) as [request|[]]; try done.
  - unfold upgraded. assert (find_header_end (p ++ concat cs) = find_header_end p /\
      (default 0 (find_header_end p) <= length p)%nat) as [-> He].
    { unfold headers_complete in Hp. apply bool_decide_eq_true in Hp as [i Hi]. unfold find_header_end.
      rewrite Hi, (blank_line_app _ _ _ Hi). split; [done|]. by apply blank_line_long in Hi. }
    cbn [settled mbind option_bind]. destruct writes; [|done]. cbn.
    rewrite unread_pieces, drop_app_le by done. by rewrite app_assoc.
  - unfold read_body. destruct (is_chunked http); [done|]. cbv zeta.
    destruct (_ <? _); [done|]. rewrite body_arrives by (done || lia).
    destruct (_ <? _)%nat eqn:E; [by destruct (read_rest _ _ _ ev _) as [[]|]|].
    destruct ev as [|r ev]; cbn [read_rest]; by rewrite E.
Qed.

Lemma run_cut cs ev :
  nonempty cs -> (length (concat cs) <= ag_max_headers config)%nat -> (length (concat cs) <= ag_max_body config)%nat ->
  settled (run_accept config writes (pieces cs ++ ev)) =
  match sniff (concat cs) with
  | Err e => Some (Err e, [])
  | Ok _ => if headers_complete (concat cs) then answered (concat cs) ev
            else settled (after_head config writes (read_head config ev (concat cs)))
  end.
Proof.
  intros Hn Hh Hb. unfold run_accept. destruct (sniff (concat cs)) as [[]|e] eqn:Hs.
  - pose proof (head_arrives cs [] ev Hs Hn Hh) as Ha. cbn [app] in Ha.
    destruct (headers_complete (concat cs)); [|by rewrite Ha].
    destruct Ha as (p & cs' & Hp & Hn' & Hc & ->).
    by rewrite <-(answered_alike p cs' (concat cs) ev Hp Hn' Hc Hs Hh Hb).
  - destruct (head_refused cs [] ev e Hs eq_refl Hn Hh) as [rest Hr]. by rewrite Hr.
Qed.

End arrival.
