(* ===== verification/Server.v ===== *)
(** * A connection's writer, its keepalive, and the choice of scheme

    [pahoa-net/src/server.rs]: the task that owns a socket's write half, with the
    liveness probe it runs; what the first byte of a connection decides; the
    refusal of a plaintext client by a room that serves TLS; and the sizing
    rules of [pahoa-net/src/config.rs].  The reading half of a connection is
    [ReadLoop].

    An [Instant] and a [Duration] are counts of one unit of time.  What
    [tokio::select!] picked is an event, and a run is a list of events: its
    [biased] order says which of several ready arms is taken, so a run where a
    later arm is ready too is one of the lists.

    The theorems on the keepalive: nobody is dropped who answered, a dead peer is
    dropped within an interval and a timeout, and (against the comment) with a
    timeout longer than the interval nobody is ever dropped. *)

From Stdlib Require Import ZArith Lia Bool Ascii.
From stdpp Require Import base tactics list strings.
From S2P Require Import Prelude Types Frame Deflate Handshake Accept.

(** ** The keepalive *)

Inductive Due := PingDue | Dead | Nothing.

Record Keepalive := mkKeepalive {
  ka_interval : Z;
  ka_timeout : Z;
  ka_next_ping : option Z;
  (** When to judge the outstanding ping, and the pong count when it was sent. *)
  ka_judge_at : option (Z * Z);
}.

Definition keepalive_new (interval timeout now : Z) : Keepalive :=
  mkKeepalive interval timeout (if interval =? 0 then None else Some (now + interval)) None.

(** [wait]: when something is due; [None] is a future that never resolves. *)
Definition wait (k : Keepalive) : option Z :=
  match ka_next_ping k, ka_judge_at k with
  | None, None => None
  | Some a, None => Some a
  | None, Some (b, _) => Some b
  | Some a, Some (b, _) => Some (Z.min a b)
  end.

(** The second half of [due]: the next ping. *)
Definition due_ping (now pongs : Z) (k : Keepalive) : Due * Keepalive :=
  match ka_next_ping k with
  | Some at_ =>
      if at_ <=? now then
        (PingDue, mkKeepalive (ka_interval k) (ka_timeout k) (Some (now + ka_interval k))
           (if ka_timeout k =? 0 then ka_judge_at k else Some (now + ka_timeout k, pongs)))
      else (Nothing, k)
  | None => (Nothing, k)
  end.

Definition due (now pongs : Z) (k : Keepalive) : Due * Keepalive :=
  match ka_judge_at k with
  | Some (at_, seen) =>
      if at_ <=? now then
        let k := mkKeepalive (ka_interval k) (ka_timeout k) (ka_next_ping k) None in
        if pongs =? seen then (Dead, k) else due_ping now pongs k
      else due_ping now pongs k
  | None => due_ping now pongs k
  end.

(** ** The writer *)

Inductive Outbound := OutFrame (bytes : list Z) | OutClose (reason : string).

Definition KEEPALIVE_TIMEOUT : string := "no pong within the keepalive timeout".
Definition CLOSE_GOING_AWAY : Z := 1001.

(** How the write of a frame ended: the race with the forced close included. *)
Inductive Wrote := Written | WriteFailed | ForcedMidWrite (reason : string).

(** What one turn of the loop woke up for.  [PongRead] is the reader's count of
    a pong, between two turns. *)
Inductive WEvent :=
| PongRead
| Forced (reason : string)
| Timer (now : Z) (ping_written : bool)
| FromQueue (out : option Outbound) (wrote : Wrote).

(** What a turn does: bytes it puts on the socket, and what it gives back to the
    outbound budget. *)
Inductive WAct := ToSocket (bytes : list Z) | Release (size : nat).

Record Writer := mkWriter { wr_keepalive : Keepalive; wr_pongs : Z }.

Definition with_keepalive (k : Keepalive) (w : Writer) : Writer := mkWriter k (wr_pongs w).

Definition write_frame (bytes : list Z) (wrote : Wrote) (w : Writer) : list WAct * result string Writer :=
  match wrote with
  | ForcedMidWrite reason => ([Release (length bytes)], Err reason)
  | Written => ([ToSocket bytes; Release (length bytes)], Ok w)
  | WriteFailed => ([Release (length bytes)], Err "the socket rejected a write"%string)
  end.

(** One turn; [Err] is why the writer stopped. *)
Definition turn (w : Writer) (ev : WEvent) : list WAct * result string Writer :=
  match ev with
  | PongRead => ([], Ok (mkWriter (wr_keepalive w) (wrap64 (wr_pongs w + 1))))
  | Forced reason => ([], Err reason)
  | Timer now ping_written =>
      match due now (wr_pongs w) (wr_keepalive w) with
      | (Dead, _) => ([], Err KEEPALIVE_TIMEOUT)
      | (PingDue, k) =>
          if ping_written then ([ToSocket (build Ping false [])], Ok (with_keepalive k w))
          else ([], Err "the socket rejected a keepalive ping"%string)
      | (Nothing, k) => ([], Ok (with_keepalive k w))
      end
  | FromQueue None _ => ([], Err "the room stopped sending"%string)
  | FromQueue (Some (OutFrame bytes)) wrote => write_frame bytes wrote w
  | FromQueue (Some (OutClose reason)) _ => ([ToSocket (close CLOSE_GOING_AWAY reason)], Err reason)
  end.

Fixpoint run_writer (w : Writer) (evs : list WEvent) : list WAct * result string Writer :=
  match evs with
  | [] => ([], Ok w)
  | ev :: evs =>
      match turn w ev with
      | (acts, Ok w) => let '(more, r) := run_writer w evs in (acts ++ more, r)
      | (acts, Err reason) => (acts, Err reason)
      end
  end.

Definition writer_new (interval timeout now : Z) : Writer := mkWriter (keepalive_new interval timeout now) 0.

(** [run_session]: how many messages the channel to the writer holds. *)
Definition queue_depth (per_connection_budget : Z) : Z := Z.max (per_connection_budget / 64) 256.

(** ** The choice of scheme *)

Inductive Scheme := OverTls | TlsUnavailable | PlaintextRefused | Plaintext.

(** [serve_connection]'s match, on the first byte that was peeked. *)
Definition scheme (first : option Z) (tls_configured allow_plaintext : bool) : Scheme :=
  match bool_decide (first = Some 0x16), tls_configured with
  | true, true => OverTls
  | true, false => TlsUnavailable
  | false, true => if allow_plaintext then Plaintext else PlaintextRefused
  | false, false => Plaintext
  end.

Definition UPGRADE_TO_TLS : string := str_concat
  ["HTTP/1.1 426 Upgrade Required"%string; crlf; "Upgrade: TLS/1.3, HTTP/1.1"%string; crlf;
   "Connection: close"%string; crlf; "Content-Length: 0"%string; crlf; crlf].

Section refusal.
Context `{HttpParse}.

(** [read_head]: whether a plaintext client asked for an upgrade; [None] while
    its head is still coming. *)
Fixpoint asks_upgrade (max_header_bytes : nat) (reads : list Read) (buf : list Z) : option bool :=
  if headers_complete buf then
    Some (match parse_request buf max_header_bytes with Ok http => is_upgrade http | Err _ => false end)
  else if (max_header_bytes <? length buf)%nat then Some false
  else
    match reads with
    | [] => None
    | Late :: _ | IoFailed :: _ | Eof :: _ | Bytes [] :: _ => Some false
    | Bytes chunk :: rest => asks_upgrade max_header_bytes rest (buf ++ chunk)
    end.

(** [refuse_plaintext]: what the client is sent. *)
Definition refuse_plaintext (max_header_bytes : nat) (reads : list Read) : option (list Z) :=
  (fun upgrade : bool => if upgrade then [] else bytes_of_string UPGRADE_TO_TLS) <$> asks_upgrade max_header_bytes reads [].

Context `{Flate2} `{Sha1}.

Inductive Served : Type :=
| Handshaken (over_tls : bool) (x : option (result AcceptError Outcome * list Z * list Read))
| Refused (answer : option (list Z)).

(** [serve_connection]: what the peer sends over TLS, or plainly, is
    [stream true] or [stream false]. *)
Definition serve_connection (config : AcceptConfig) (writes : bool) (first : option Z)
    (tls_configured allow_plaintext : bool) (stream : bool -> list Read) : Served :=
  match scheme first tls_configured allow_plaintext with
  | OverTls => Handshaken true (run_accept config writes (stream true))
  | TlsUnavailable => Refused (Some (reject ATls))
  | PlaintextRefused => Refused (refuse_plaintext (ag_max_headers config) (stream false))
  | Plaintext => Handshaken false (run_accept config writes (stream false))
  end.
End refusal.

(** * Who the keepalive drops *)

(** The pongs of a run. *)
Definition pongs_in (evs : list WEvent) : Z :=
  Z.of_nat (length (List.filter (fun ev => match ev with PongRead => true | _ => false end) evs)).

Lemma run_writer_app w evs1 evs2 :
  run_writer w (evs1 ++ evs2) =
  match run_writer w evs1 with
  | (acts, Ok w) => let '(more, r) := run_writer w evs2 in (acts ++ more, r)
  | (acts, Err reason) => (acts, Err reason)
  end.
Proof.
  revert w. induction evs1 as [|ev evs1 IH]; intros w; cbn [app run_writer].
  - by destruct (run_writer w evs2).
  - destruct (turn w ev) as [acts [w'|reason]]; [|done]. rewrite IH.
    destruct (run_writer w' evs1) as [acts1 [w1|reason]]; [|done].
    destruct (run_writer w1 evs2). by rewrite (assoc_L app).
Qed.

Lemma run_writer_snoc_err w evs ev acts reason :
  run_writer w (evs ++ [ev]) = (acts, Err reason) ->
  (exists acts', run_writer w evs = (acts', Err reason)) \/
  (exists acts' w' acts'', run_writer w evs = (acts', Ok w') /\ turn w' ev = (acts'', Err reason)).
Proof.
  rewrite run_writer_app. destruct (run_writer w evs) as [acts' [w'|r]]; [|naive_solver].
  cbn [run_writer]. destruct (turn w' ev) as [acts'' [w2|r]] eqn:E; intros; simplify_eq/=. right. naive_solver.
Qed.

(** What is outstanding was sent in the run, and is judged on the pongs since. *)
Definition outstanding (timeout : Z) (evs : list WEvent) (w : Writer) : Prop :=
  ka_timeout (wr_keepalive w) = timeout /\
  (forall at_ seen, ka_judge_at (wr_keepalive w) = Some (at_, seen) ->
    exists evs1 t evs2, evs = evs1 ++ Timer t true :: evs2 /\ at_ = t + timeout /\
      wr_pongs w = wrap64 (seen + pongs_in evs2) /\ is_u64 seen) /\
  is_u64 (wr_pongs w).

Lemma pongs_in_length evs : 0 <= pongs_in evs <= Z.of_nat (length evs).
Proof.
  unfold pongs_in.
  pose proof (List.filter_length_le (fun ev => match ev with PongRead => true | _ => false end) evs). lia.
Qed.

Lemma pongs_in_some evs : In PongRead evs -> 0 < pongs_in evs.
Proof. unfold pongs_in. induction evs as [|ev evs IH]; [done|]. intros [->|Hin]; cbn; [lia|]. destruct ev; cbn; auto; lia. Qed.

Lemma pongs_in_snoc evs ev :
  pongs_in (evs ++ [ev]) = pongs_in evs + match ev with PongRead => 1 | _ => 0 end.
Proof. unfold pongs_in. rewrite List.filter_app, length_app. destruct ev; cbn; lia. Qed.


(** The three ways [due] can go. *)
Lemma due_cases now pongs k :
  (exists at_, due now pongs k = (Dead, mkKeepalive (ka_interval k) (ka_timeout k) (ka_next_ping k) None) /\
     ka_judge_at k = Some (at_, pongs) /\ at_ <= now) \/
  (exists j, (j = ka_judge_at k \/ j = None) /\
     (forall at_ seen, ka_judge_at k = Some (at_, seen) -> at_ <= now -> seen <> pongs /\ j = None) /\
     ((due now pongs k = (Nothing, mkKeepalive (ka_interval k) (ka_timeout k) (ka_next_ping k) j) /\
       forall at_, ka_next_ping k = Some at_ -> now < at_) \/
      (exists at_, ka_next_ping k = Some at_ /\ at_ <= now /\
       due now pongs k = (PingDue, mkKeepalive (ka_interval k) (ka_timeout k) (Some (now + ka_interval k))
         (if ka_timeout k =? 0 then j else Some (now + ka_timeout k, pongs)))))).
Proof.
  destruct k as [i t n j]. unfold due, due_ping. cbn [ka_interval ka_timeout ka_next_ping ka_judge_at].
  destruct j as [[at_ seen]|].
  - destruct (Z.leb_spec at_ now).
    + destruct (Z.eqb_spec pongs seen) as [->|Hne]; [left; eauto|].
      right. exists None. split; [by right|]. split; [naive_solver|].
      destruct n as [a|]; [destruct (Z.leb_spec a now)|]; naive_solver.
    + right. exists (Some (at_, seen)). split; [by left|]. split; [intros; simplify_eq; lia|].
      destruct n as [a|]; [destruct (Z.leb_spec a now)|]; naive_solver.
  - right. exists None. split; [by left|]. split; [naive_solver|].
    destruct n as [a|]; [destruct (Z.leb_spec a now)|]; naive_solver.
Qed.

Lemma outstanding_turn timeout evs w ev acts w' :
  outstanding timeout evs w -> turn w ev = (acts, Ok w') -> outstanding timeout (evs ++ [ev]) w'.
Proof.
  intros (Ht & Hj & Hp) E.
  assert (Hold : forall at_ seen pongs, ka_judge_at (wr_keepalive w) = Some (at_, seen) ->
    pongs = wrap64 (wr_pongs w + match ev with PongRead => 1 | _ => 0 end) ->
    exists evs1 t evs2, evs ++ [ev] = evs1 ++ Timer t true :: evs2 /\ at_ = t + timeout /\
      pongs = wrap64 (seen + pongs_in evs2) /\ is_u64 seen).
  { intros at_ seen pongs Ha ->. destruct (Hj _ _ Ha) as (evs1 & t & evs2 & -> & -> & Hw & Hs).
    exists evs1, t, (evs2 ++ [ev]). rewrite <-(assoc_L app). cbn [app].
    split; [done|]. split; [done|]. split; [|done]. rewrite Hw, wrap64_add, pongs_in_snoc. f_equal. lia. }
  destruct ev as [|reason|now ok|[[bytes|reason]|] wrote]; cbn [turn] in E; simplify_eq/=.
  - split; [done|]. cbn [wr_keepalive wr_pongs]. split; [|apply wrap64_range]. eauto.
  - destruct (due_cases now (wr_pongs w) (wr_keepalive w))
      as [(at_ & D & _)|(j & Hjj & _ & [(D & _)|(at_ & _ & _ & D)])]; rewrite D in E; [done| |].
    + simplify_eq/=. split; [done|]. split; [|done]. cbn [with_keepalive wr_keepalive ka_judge_at wr_pongs]. intros at_ seen ->.
      destruct Hjj as [Hjj|Hjj]; [|done]. eapply Hold; [by symmetry|]. by rewrite Z.add_0_r, wrap64_id.
    + destruct ok; simplify_eq/=. split; [done|]. split; [|done]. cbn [with_keepalive wr_keepalive ka_judge_at wr_pongs].
      destruct (Z.eqb_spec (ka_timeout (wr_keepalive w)) 0).
      * intros at1 seen ->. destruct Hjj as [Hjj|Hjj]; [|done].
        eapply Hold; [by symmetry|]. by rewrite Z.add_0_r, wrap64_id.
      * intros ? ? [= <- <-]. exists evs, now, []. split; [done|]. split; [done|].
        split; [|done]. by rewrite Z.add_0_r, wrap64_id.
  - unfold write_frame in E. destruct wrote; simplify_eq/=. split; [done|]. split; [|done].
    intros at_ seen Ha. eapply Hold; [done|]. by rewrite Z.add_0_r, wrap64_id.
Qed.

Lemma outstanding_run timeout evs w :
  outstanding timeout [] w -> forall acts w', run_writer w evs = (acts, Ok w') -> outstanding timeout evs w'.
Proof.
  intros H0. induction evs as [|ev evs IH] using rev_ind; intros acts w' E; [by simplify_eq/=|].
  rewrite run_writer_app in E. destruct (run_writer w evs) as [acts1 [w1|r]]; [|done].
  cbn [run_writer] in E. destruct (turn w1 ev) as [acts2 [w2|r]] eqn:E2; simplify_eq/=.
  eapply outstanding_turn; [|done]. eauto.
Qed.

Lemma outstanding_new interval timeout now : outstanding timeout [] (writer_new interval timeout now).
Proof. split; [done|]. split; [done|]. unfold is_u64. cbn. lia. Qed.

(** C29: The keepalive drops nobody who answers.  Whatever a running writer woke up
    for and in whatever order, when it stops for want of a pong it had written a
    ping at least the timeout earlier, and the reader has counted no pong since
    (in a run of fewer than 2^64 turns, the width of the counter). *)
Theorem nobody_who_answers_is_dropped interval timeout start evs w now ok acts acts' :
  Z.of_nat (length evs) < 2 ^ 64 ->
  run_writer (writer_new interval timeout start) evs = (acts, Ok w) ->
  turn w (Timer now ok) = (acts', Err KEEPALIVE_TIMEOUT) ->
  exists evs1 t evs2, evs = evs1 ++ Timer t true :: evs2 /\ timeout <= now - t /\ ~ In PongRead evs2.
Proof.
  intros Hlen E Et.
  destruct (outstanding_run _ _ _ (outstanding_new interval timeout start) _ _ E) as (Ht & Hj & Hp).
  cbn [turn] in Et. destruct (due_cases now (wr_pongs w) (wr_keepalive w))
    as [(at_ & _ & Ha & Hle)|(j & _ & _ & [(D & _)|(at_ & _ & _ & D)])];
    [|rewrite D in Et; done|rewrite D in Et; by destruct ok].
  destruct (Hj _ _ Ha) as (evs1 & t & evs2 & -> & -> & Hw & _).
  exists evs1, t, evs2. split; [done|]. split; [lia|]. intros Hin.
  assert (Hpos : 0 < pongs_in evs2 < 2 ^ 64)
    by (pose proof (pongs_in_some _ Hin); pose proof (pongs_in_length evs2);
        rewrite length_app in Hlen; cbn [length] in Hlen; lia).
  unfold is_u64 in Hp. unfold wrap64 in Hw.
  assert ((wr_pongs w + pongs_in evs2) mod 2 ^ 64 = (wr_pongs w) mod 2 ^ 64) as Hm
    by (by rewrite <-Hw, Z.mod_small).
  Z.div_mod_to_equations. lia.
Qed.

(** ** A dead peer is dropped in time *)

(** The deadlines of a running writer, [now] being the last time it looked. *)
Definition deadlines (interval timeout now : Z) (k : Keepalive) : Prop :=
  ka_interval k = interval /\ ka_timeout k = timeout /\
  exists next, ka_next_ping k = Some next /\ next <= now + interval /\
    forall at_ seen, ka_judge_at k = Some (at_, seen) -> at_ <= next.

(** The clock does not go back. *)
Fixpoint clock_runs (from : Z) (evs : list WEvent) : Prop :=
  match evs with
  | [] => True
  | Timer now _ :: evs => from <= now /\ clock_runs now evs
  | _ :: evs => clock_runs from evs
  end.

Definition last_time (from : Z) (evs : list WEvent) : Z :=
  fold_left (fun t ev => match ev with Timer now _ => now | _ => t end) evs from.

(** A peer that has fallen silent at [now], and a writer that wakes when [wait]
    says: when it gives up, within [n] turns. *)
Fixpoint gives_up (n : nat) (now pongs : Z) (k : Keepalive) : option Z :=
  match n with
  | O => None
  | S n =>
      match wait k with
      | None => None
      | Some at_ =>
          match due (Z.max now at_) pongs k with
          | (Dead, _) => Some (Z.max now at_)
          | (_, k) => gives_up n (Z.max now at_) pongs k
          end
      end
  end.

Lemma deadlines_later interval timeout now now' k :
  now <= now' -> deadlines interval timeout now k -> deadlines interval timeout now' k.
Proof. intros Hn (? & ? & next & ? & ? & ?). repeat split; try done. exists next. repeat split; [done|lia|done]. Qed.

Lemma deadlines_due interval timeout now pongs k d k' :
  0 < timeout <= interval -> deadlines interval timeout now k -> due now pongs k = (d, k') ->
  deadlines interval timeout now k'.
Proof.
  intros Hti (Hi & Ht & next & Hn & Hle & Hj) D.
  destruct (due_cases now pongs k) as [(at_ & D' & _)|(j & Hjj & _ & [(D' & _)|(at_ & _ & _ & D')])];
    rewrite D' in D; simplify_eq; (split; [done|]); (split; [done|]); cbn [ka_next_ping ka_judge_at].
  - exists next. naive_solver.
  - exists next. destruct Hjj as [->| ->]; naive_solver.
  - exists (now + ka_interval k). split; [done|]. split; [lia|]. intros at1 seen.
    destruct (Z.eqb_spec (ka_timeout k) 0); [lia|]. intros [= <- <-]. lia.
Qed.

Lemma deadlines_run interval timeout evs : 0 < timeout <= interval ->
  forall now w acts w', deadlines interval timeout now (wr_keepalive w) -> clock_runs now evs ->
  run_writer w evs = (acts, Ok w') -> deadlines interval timeout (last_time now evs) (wr_keepalive w').
Proof.
  intros Hti. induction evs as [|ev evs IH]; intros now w acts w' Hd Hc E; [by simplify_eq/=|].
  cbn [run_writer] in E. destruct (turn w ev) as [acts1 [w1|r]] eqn:Et; [|done].
  destruct (run_writer w1 evs) as [acts2 r] eqn:E2. simplify_eq/=.
  destruct ev as [|reason|t ok|[[bytes|reason]|] wrote]; cbn [turn clock_runs] in Et, Hc; simplify_eq/=.
  - by eapply IH; [|done|done].
  - destruct Hc as [Hle Hc]. apply (deadlines_later _ _ _ t) in Hd; [|done].
    destruct (due t (wr_pongs w) (wr_keepalive w)) as [d k] eqn:D.
    apply (deadlines_due _ _ _ _ _ _ _ Hti Hd) in D.
    destruct d; [destruct ok| |]; simplify_eq; (eapply IH; [|done|done]); done.
  - unfold write_frame in Et. destruct wrote; simplify_eq. by eapply IH; [|done|done].
Qed.

Lemma deadlines_new interval timeout start :
  0 < interval -> deadlines interval timeout start (keepalive_new interval timeout start).
Proof.
  intros Hi. unfold keepalive_new. destruct (Z.eqb_spec interval 0); [lia|].
  split; [done|]. split; [done|]. exists (start + interval). naive_solver lia.
Qed.

(** A ping outstanding, unanswered: the next turn is the last. *)
Lemma gives_up_judging n interval timeout now pongs at_ next :
  at_ <= next ->
  gives_up (S n) now pongs (mkKeepalive interval timeout (Some next) (Some (at_, pongs))) = Some (Z.max now at_).
Proof.
  intros Hle. cbn [gives_up wait ka_next_ping ka_judge_at]. rewrite Z.min_r by done.
  unfold due. cbn [ka_judge_at]. destruct (Z.leb_spec at_ (Z.max now at_)); [|lia]. by rewrite Z.eqb_refl.
Qed.

(** None outstanding: the next one is sent on time, and judged. *)
Lemma gives_up_pinging n interval timeout now pongs next :
  0 < timeout <= interval ->
  gives_up (S (S n)) now pongs (mkKeepalive interval timeout (Some next) None) = Some (Z.max now next + timeout).
Proof.
  intros Hti. remember (S n) as m eqn:Em. cbn [gives_up wait ka_next_ping ka_judge_at].
  unfold due, due_ping. cbn [ka_judge_at ka_next_ping ka_interval ka_timeout].
  destruct (Z.leb_spec next (Z.max now next)); [|lia]. destruct (Z.eqb_spec timeout 0); [lia|].
  subst m. rewrite gives_up_judging by lia. f_equal. lia.
Qed.

(** C28: A dead peer is dropped in time.  With a timeout no longer than the
    interval, from any state a writer can be in at the moment its peer falls
    silent, a writer that wakes when its deadlines come due gives up within three
    turns and no later than an interval and a timeout. *)
Theorem the_dead_are_dropped_in_time interval timeout start evs acts w silent :
  0 < timeout <= interval ->
  clock_runs start evs ->
  run_writer (writer_new interval timeout start) evs = (acts, Ok w) ->
  last_time start evs <= silent ->
  exists t, gives_up 3 silent (wr_pongs w) (wr_keepalive w) = Some t /\ t <= silent + interval + timeout.
Proof.
  intros Hti Hc E Hs.
  eapply deadlines_run in E; [|done|apply deadlines_new; lia|done].
  apply (deadlines_later _ _ _ silent) in E as (Hi & Ht & next & Hn & Hle & Hj); [|done].
  destruct (wr_keepalive w) as [i t n j]. cbn [ka_interval ka_timeout ka_next_ping ka_judge_at] in *. subst i t n.
  destruct j as [[at_ seen]|].
  - specialize (Hj _ _ eq_refl). destruct (Z.eq_dec (wr_pongs w) seen) as [<-|Hne].
    + rewrite gives_up_judging by done. eexists. split; [done|lia].
    + remember 2%nat as m eqn:Em. cbn [gives_up wait ka_next_ping ka_judge_at]. rewrite Z.min_r by done.
      unfold due. cbn [ka_judge_at]. destruct (Z.leb_spec at_ (Z.max silent at_)); [|lia].
      destruct (Z.eqb_spec (wr_pongs w) seen); [done|].
      unfold due_ping. cbn [ka_next_ping ka_interval ka_timeout].
      destruct (Z.leb_spec next (Z.max silent at_)); subst m.
      * destruct (Z.eqb_spec timeout 0); [lia|]. rewrite gives_up_judging by lia. eexists. split; [done|lia].
      * rewrite gives_up_pinging by done. eexists. split; [done|lia].
  - rewrite gives_up_pinging by done. eexists. split; [done|lia].
Qed.

(** ** A timeout longer than the interval *)

(** [serve_command] of [pahoa/src/main.rs]: which cadence and grace the command
    line accepts. *)
Definition ping_options (interval timeout : Z) : result string unit :=
  if negb (timeout =? 0) && negb (interval =? 0) && (interval * 4 <? timeout)
  then Err "--ping-timeout: more than four times --ping-interval leaves probes outstanding for longer than the cadence that sends them"%string
  else Ok tt.

(** Every look at the clock comes less than [slack] after its deadline. *)
Fixpoint on_time (slack : Z) (w : Writer) (evs : list WEvent) : Prop :=
  match evs with
  | [] => True
  | ev :: evs =>
      match ev with
      | Timer now _ => forall at_, wait (wr_keepalive w) = Some at_ -> now < at_ + slack
      | _ => True
      end /\
      match turn w ev with
      | (_, Ok w) => on_time slack w evs
      | (_, Err _) => True
      end
  end.

(** The outstanding ping is judged after the next one is due. *)
Definition rearmed (interval timeout : Z) (k : Keepalive) : Prop :=
  ka_interval k = interval /\ ka_timeout k = timeout /\
  exists next, ka_next_ping k = Some next /\
    forall at_ seen, ka_judge_at k = Some (at_, seen) -> at_ = next + (timeout - interval).

Lemma rearmed_due interval timeout now pongs k :
  0 < interval < timeout -> rearmed interval timeout k ->
  (forall at_, wait k = Some at_ -> now < at_ + (timeout - interval)) ->
  (due now pongs k).1 <> Dead /\ rearmed interval timeout (due now pongs k).2.
Proof.
  intros Hti (Hi & Ht & next & Hn & Hj) Hw. destruct k as [i t n j].
  cbn [ka_interval ka_timeout ka_next_ping ka_judge_at] in *. subst i t n.
  assert (Hnow : now < next + (timeout - interval)).
  { apply Hw. unfold wait. cbn [ka_next_ping ka_judge_at]. destruct j as [[at_ seen]|]; [|done].
    rewrite (Hj at_ seen) by done. f_equal. lia. }
  destruct (due_cases now pongs (mkKeepalive interval timeout (Some next) j))
    as [(at_ & _ & Ha & Hle)|(j' & Hjj & _ & [(D & _)|(at_ & _ & _ & D)])];
    cbn [ka_interval ka_timeout ka_next_ping ka_judge_at] in *.
  - apply Hj in Ha. lia.
  - rewrite D. split; [done|]. split; [done|]. split; [done|]. exists next. split; [done|].
    destruct Hjj as [->| ->]; naive_solver.
  - rewrite D. split; [done|]. split; [done|]. split; [done|]. exists (now + interval). split; [done|].
    cbn [snd ka_judge_at]. destruct (Z.eqb_spec timeout 0); [lia|]. intros ? ? [= <- <-]. lia.
Qed.

Lemma rearmed_run interval timeout evs : 0 < interval < timeout -> forall w acts w',
  rearmed interval timeout (wr_keepalive w) -> on_time (timeout - interval) w evs ->
  run_writer w evs = (acts, Ok w') -> rearmed interval timeout (wr_keepalive w').
Proof.
  intros Hti. induction evs as [|ev evs IH]; intros w acts w' Hr Ho E; [by simplify_eq/=|].
  cbn [run_writer on_time] in *. destruct Ho as [Hw Ho]. destruct (turn w ev) as [acts1 [w1|r]] eqn:Et; [|done].
  destruct (run_writer w1 evs) as [acts2 r] eqn:E2. simplify_eq/=. eapply IH; [|done|done].
  destruct ev as [|reason|t ok|[[bytes|reason]|] wrote]; cbn [turn] in Et; simplify_eq/=; try done.
  - destruct (rearmed_due _ _ t (wr_pongs w) _ Hti Hr Hw) as [_ Hr'].
    destruct (due t (wr_pongs w) (wr_keepalive w)) as [[] k]; [destruct ok| |]; by simplify_eq/=.
  - unfold write_frame in Et. by destruct wrote; simplify_eq.
Qed.

(** With a timeout longer than the interval nobody is dropped.  Such options are
    accepted (up to four times), but every ping sent puts off the judgement of the
    one before it: a writer that looks at the clock with less delay than the
    difference of the two never finds its peer dead, though no pong ever comes,
    where the comment promises a drop within an interval and a timeout. *)
Theorem a_long_timeout_drops_nobody interval timeout start evs acts w now :
  0 < interval < timeout ->
  on_time (timeout - interval) (writer_new interval timeout start) evs ->
  run_writer (writer_new interval timeout start) evs = (acts, Ok w) ->
  (forall at_, wait (wr_keepalive w) = Some at_ -> now < at_ + (timeout - interval)) ->
  (due now (wr_pongs w) (wr_keepalive w)).1 <> Dead /\
  (timeout <= 4 * interval -> ping_options interval timeout = Ok tt).
Proof.
  intros Hti Ho E Hw. split.
  - eapply rearmed_due; [exact Hti| |exact Hw]. eapply rearmed_run; [exact Hti| |exact Ho|exact E].
    cbn [writer_new wr_keepalive]. unfold keepalive_new. destruct (Z.eqb_spec interval 0); [lia|].
    split; [done|]. split; [done|]. exists (start + interval). naive_solver.
  - intros Hle. unfold ping_options.
    destruct (Z.eqb_spec timeout 0), (Z.eqb_spec interval 0), (Z.ltb_spec (interval * 4) timeout); done || lia.
Qed.

(** * The sizes of a room

    [config.rs]: what a room of a given size is given, on 64 bits with the
    saturating operations of the source. *)

Definition saturating_mul (a b : Z) : Z := Z.min (a * b) u64_max.
Definition saturating_add (a b : Z) : Z := Z.min (a + b) u64_max.
Definition div_ceil (a b : Z) : Z := a / b + (if 0 <? a mod b then 1 else 0).
Definition clamp (lo hi x : Z) : Z := if x <? lo then lo else if hi <? x then hi else x.

Definition CONNECTIONS_PER_SLOT : Z := 3.
Definition DEFAULT_SHARD_QUEUE_DEPTH : Z := 4096.
Definition MAX_SHARDS : Z := 32.
Definition MAX_SHARD_QUEUE_DEPTH : Z := 65536.

Definition outbound_budget_for (slots datapackage_bytes : Z) : Z :=
  Z.max (saturating_add (saturating_mul (saturating_mul slots CONNECTIONS_PER_SLOT) (96 * 1024))
           (saturating_mul datapackage_bytes 8)) (64 * 1024 * 1024).

Definition shards_for (slots : Z) : Z :=
  clamp 2 MAX_SHARDS (div_ceil (saturating_mul slots CONNECTIONS_PER_SLOT) 512).

Definition shard_queue_depth_for (slots shards : Z) : Z :=
  let reconnect_storm :=
    saturating_mul (div_ceil (saturating_mul slots CONNECTIONS_PER_SLOT) (Z.max shards 1)) 8 in
  let release_tail := saturating_mul slots 16 in
  clamp DEFAULT_SHARD_QUEUE_DEPTH MAX_SHARD_QUEUE_DEPTH (Z.max reconnect_storm release_tail).

Definition per_connection_budget_for (datapackage_bytes : Z) : Z :=
  Z.max (saturating_add datapackage_bytes (datapackage_bytes / 4)) (256 * 1024).

(** [worker_threads_resolved] and the two beside it; the machine's own count is
    an argument. *)
Definition detect_worker_threads (quota : option Z) (host : Z) : Z := clamp 2 32 (default host quota).
Definition worker_threads_resolved (worker_threads : option Z) (detected : Z) : Z := default detected worker_threads.
Definition shards_resolved (shards worker_threads : option Z) (detected : Z) : Z :=
  Z.max (default (worker_threads_resolved worker_threads detected) shards) 1.
Definition shard_queue_depth_resolved (depth : option Z) : Z := Z.max (default DEFAULT_SHARD_QUEUE_DEPTH depth) 1.

Lemma div_ceil_spec a b : 0 < b -> b * (div_ceil a b - 1) < a <= b * div_ceil a b.
Proof. intros. unfold div_ceil. pose proof (Z.div_mod a b). pose proof (Z.mod_pos_bound a b). destruct (Z.ltb_spec 0 (a mod b)); nia. Qed.

Lemma clamp_range lo hi x : lo <= hi -> lo <= clamp lo hi x <= hi.
Proof. intros. unfold clamp. destruct (Z.ltb_spec x lo), (Z.ltb_spec hi x); lia. Qed.

Lemma clamp_above lo hi x : x <= hi -> x <= clamp lo hi x.
Proof. intros. unfold clamp. destruct (Z.ltb_spec x lo), (Z.ltb_spec hi x); lia. Qed.

Lemma saturating_mul_exact a b : 0 <= a -> 0 <= b -> a * b <= u64_max -> saturating_mul a b = a * b.
Proof. unfold saturating_mul. lia. Qed.

Lemma fan_out_covers slots : 0 <= slots -> 3 * slots <= u64_max ->
  2 <= shards_for slots <= MAX_SHARDS /\ (slots <= 5461 -> 3 * slots <= 512 * shards_for slots).
Proof.
  intros Hs Hmax. split; [apply clamp_range; unfold MAX_SHARDS; lia|]. intros Hle.
  unfold shards_for, CONNECTIONS_PER_SLOT, MAX_SHARDS. rewrite saturating_mul_exact by lia.
  pose proof (div_ceil_spec (slots * 3) 512 ltac:(lia)).
  pose proof (clamp_above 2 32 (div_ceil (slots * 3) 512) ltac:(lia)). lia.
Qed.

Lemma queue_covers slots shards : 0 <= slots <= 4096 -> 2 <= shards -> 3 * slots <= 512 * shards ->
  16 * slots <= shard_queue_depth_for slots shards /\
  8 * div_ceil (3 * slots) shards <= shard_queue_depth_for slots shards.
Proof.
  intros Hs Hsh Hle. pose proof (div_ceil_spec (3 * slots) shards ltac:(lia)) as Hdiv.
  assert (0 <= div_ceil (3 * slots) shards <= 512) by nia.
  unfold shard_queue_depth_for, CONNECTIONS_PER_SLOT. rewrite (saturating_mul_exact slots 3) by (unfold u64_max; lia).
  rewrite (Z.mul_comm slots 3), (Z.max_l shards 1), !saturating_mul_exact by (unfold u64_max; lia).
  pose proof (clamp_above DEFAULT_SHARD_QUEUE_DEPTH MAX_SHARD_QUEUE_DEPTH
    (Z.max (div_ceil (3 * slots) shards * 8) (slots * 16)) ltac:(unfold MAX_SHARD_QUEUE_DEPTH; lia)). lia.
Qed.

(** A room's sizes cover the bursts they are for.  The fan-out is 2 to 32 shards,
    and up to 5,461 slots no shard owns more than 512 of the three connections a
    slot brings; a queue holds eight messages for each connection of its shard and
    sixteen releases of one broadcast a slot, up to 4,096 slots; a connection's
    share holds the whole data package and a quarter more; the room's budget holds
    eight such packages, and from 86 slots on it is less than all the shares
    together, so that it binds before they do. *)
Theorem sizes_cover_the_bursts slots datapackage :
  0 <= slots -> 0 <= datapackage -> CONNECTIONS_PER_SLOT * slots * 98304 + 8 * datapackage <= u64_max ->
  let shards := shards_for slots in
  let depth := shard_queue_depth_for slots shards in
  let share := per_connection_budget_for datapackage in
  let budget := outbound_budget_for slots datapackage in
  2 <= shards <= MAX_SHARDS /\
  (slots <= 5461 -> div_ceil (3 * slots) shards <= 512) /\
  DEFAULT_SHARD_QUEUE_DEPTH <= depth <= MAX_SHARD_QUEUE_DEPTH /\
  (slots <= 4096 -> 16 * slots <= depth /\ 8 * div_ceil (3 * slots) shards <= depth) /\
  5 * datapackage <= 4 * share + 3 /\ 262144 <= share /\
  8 * datapackage <= budget /\ (86 <= slots -> budget < 3 * slots * share).
Proof.
  intros Hs Hd Hmax shards depth share budget. unfold CONNECTIONS_PER_SLOT in Hmax.
  assert (H3 : 3 * slots <= u64_max) by (unfold u64_max in *; lia).
  destruct (fan_out_covers slots Hs H3) as [Hsh Hblast]. fold shards in Hsh, Hblast.
  pose proof (div_ceil_spec (3 * slots) shards ltac:(lia)) as Hdiv.
  split; [done|]. split; [nia|].
  split; [apply clamp_range; unfold DEFAULT_SHARD_QUEUE_DEPTH, MAX_SHARD_QUEUE_DEPTH; lia|].
  split; [intros Hle; apply queue_covers; lia|].
  subst share budget. unfold per_connection_budget_for, outbound_budget_for, CONNECTIONS_PER_SLOT.
  rewrite (saturating_mul_exact slots 3) by lia.
  rewrite (saturating_mul_exact (slots * 3)), (saturating_mul_exact datapackage) by lia.
  unfold saturating_add, u64_max in *.
  pose proof (Z.div_mod datapackage 4 ltac:(lia)). pose proof (Z.mod_pos_bound datapackage 4 ltac:(lia)).
  split; [lia|]. split; [lia|]. split; [lia|]. intros Hle.
  assert (Hshare : slots * (5 * datapackage) <= slots * (4 * (datapackage + datapackage / 4) + 3))
    by (apply Z.mul_le_mono_nonneg_l; lia). nia.
Qed.

(** ** The theorems at concrete inputs *)

Lemma nobody_who_answers_is_dropped_witness :
  exists evs1 t evs2, [Timer 20 true; PongRead; Timer 41 true] = evs1 ++ Timer t true :: evs2 /\
    20 <= 61 - t /\ ~ In PongRead evs2.
Proof.
  apply (nobody_who_answers_is_dropped 20 20 0 [Timer 20 true; PongRead; Timer 41 true]
    (mkWriter (mkKeepalive 20 20 (Some 61) (Some (61, 1))) 1) 61 true
    [ToSocket (build Ping false []); ToSocket (build Ping false [])] []); reflexivity.
Defined.

Lemma the_dead_are_dropped_in_time_witness :
  exists t, gives_up 3 50 1 (mkKeepalive 20 20 (Some 61) (Some (61, 1))) = Some t /\ t <= 50 + 20 + 20.
Proof.
  apply (the_dead_are_dropped_in_time 20 20 0 [Timer 20 true; PongRead; Timer 41 true]
    [ToSocket (build Ping false []); ToSocket (build Ping false [])]
    (mkWriter (mkKeepalive 20 20 (Some 61) (Some (61, 1))) 1)); [lia|cbn; lia|reflexivity|cbn; lia].
Defined.

(** A ping every ten seconds and thirty to answer: the judgement of the first ping
    would come at 40, and at 30 it is put off to 60. *)
Lemma a_long_timeout_drops_nobody_witness :
  (due 40 0 (mkKeepalive 10 30 (Some 40) (Some (60, 0)))).1 <> Dead /\ (30 <= 4 * 10 -> ping_options 10 30 = Ok tt).
Proof.
  apply (a_long_timeout_drops_nobody 10 30 0 [Timer 10 true; Timer 20 true; Timer 30 true]
    [ToSocket (build Ping false []); ToSocket (build Ping false []); ToSocket (build Ping false [])]
    (mkWriter (mkKeepalive 10 30 (Some 40) (Some (60, 0))) 0)); [lia| |reflexivity|].
  - repeat split; intros at_ E; vm_compute in E; injection E as <-; reflexivity.
  - intros at_ E. vm_compute in E. injection E as <-. reflexivity.
Defined.

Lemma sizes_cover_the_bursts_witness :
  12 = shards_for 2000 /\ outbound_budget_for 2000 6193114 < 3 * 2000 * per_connection_budget_for 6193114.
Proof.
  split; [reflexivity|].
  assert (H : CONNECTIONS_PER_SLOT * 2000 * 98304 + 8 * 6193114 <= u64_max) by (unfold u64_max, CONNECTIONS_PER_SLOT; lia).
  destruct (sizes_cover_the_bursts 2000 6193114 ltac:(lia) ltac:(lia) H) as (_ & _ & _ & _ & _ & _ & _ & Hb).
  apply Hb. lia.
Defined.
