(* ===== verification/HttpAdmin.v ===== *)
(** * [crates/pahoa-net/src/http/admin.rs] and [response.rs]

    The answers, and the gate of the admin surface: the bearer token and the
    counters of its failures.  An instant is in nanoseconds and an address is a
    number; metrics and logging are left out. *)

From Stdlib Require Import ZArith Lia Bool Ascii.
From stdpp Require Import base tactics numbers list strings gmap pretty.
From S2P Require Import Prelude Types Text Filter Handshake.
From S2P Require PyValue Options.

(** ** [Response] *)

Record Response : Type := mkResponse {
  rs_status : Z;
  rs_reason : string;
  rs_content_type : string;
  rs_extra : list (string * string);
  rs_body : list Z
}.

Definition reason_for (status : Z) : string :=
  if status =? 200 then "OK"
  else if status =? 202 then "Accepted"
  else if status =? 400 then "Bad Request"
  else if status =? 401 then "Unauthorized"
  else if status =? 404 then "Not Found"
  else if status =? 405 then "Method Not Allowed"
  else if status =? 429 then "Too Many Requests"
  else if status =? 500 then "Internal Server Error"
  else if status =? 503 then "Service Unavailable"
  else EmptyString.

Definition rs_status_of (status : Z) (reason : string) : Response :=
  mkResponse status reason "text/plain; charset=utf-8" [] [].

Definition rs_text (status : Z) (body : string) : Response :=
  mkResponse status (reason_for status) "text/plain; charset=utf-8" [] (bytes_of_string body).

Definition rs_json_bytes (status : Z) (body : list Z) : Response :=
  mkResponse status (reason_for status) "application/json" [] body.

Definition not_found : Response := rs_status_of 404 "Not Found".

Definition with_header (name value : string) (r : Response) : Response :=
  mkResponse (rs_status r) (rs_reason r) (rs_content_type r) (rs_extra r ++ [(name, value)]) (rs_body r).

Definition head_text (r : Response) : string :=
  str_concat (["HTTP/1.1 "%string; pretty (rs_status r); " "%string; rs_reason r; crlf;
    "Connection: close"%string; crlf; "Content-Type: "%string; rs_content_type r; crlf;
    "Content-Length: "%string; pretty (Z.of_nat (length (rs_body r))); crlf] ++
    (e ← rs_extra r; [e.1; ": "%string; e.2; crlf]) ++ [crlf]).

Definition render (r : Response) : list Z := bytes_of_string (head_text r) ++ rs_body r.

(** ** The gate *)

Definition IpAddr : Type := Z.

Definition FAILURE_LIMIT : Z := 10.
Definition FAILURE_WINDOW : Z := 60 * 1000000000.
Definition FLOOD_LIMIT : Z := 500.
Definition MAX_SOURCES : nat := 1024.

Record Window : Type := mkWindow { count : Z; started : Z }.

Definition window_new (now : Z) : Window := mkWindow 0 now.

(** [now.duration_since(started) >= FAILURE_WINDOW]: a difference below zero is
    zero. *)
Definition expired (now : Z) (w : Window) : bool := FAILURE_WINDOW <=? Z.max 0 (now - started w).

(** [record]: the window afterwards; its count is the answer. *)
Definition record (now : Z) (w : Window) : Window :=
  let w := if expired now w then mkWindow 0 now else w in
  mkWindow (wrap32 (count w + 1)) (started w).

Record Failures : Type := mkFailures {
  by_source : gmap IpAddr Window;
  total : Window
}.

Definition failures_new (now : Z) : Failures := mkFailures ∅ (window_new now).

(** The table is pruned for a new source when it is full. *)
Definition pruned (source : IpAddr) (now : Z) (m : gmap IpAddr Window) : gmap IpAddr Window :=
  if (MAX_SOURCES <=? size m)%nat && negb (bool_decide (is_Some (m !! source)))
  then filter (fun e => expired now e.2 = false) m
  else m.

(** [record_failure]: whether one of the limits is passed. *)
Definition record_failure (source : IpAddr) (now : Z) (f : Failures) : bool * Failures :=
  let total := record now (total f) in
  let flooding := FLOOD_LIMIT <? count total in
  let sources := pruned source now (by_source f) in
  let full := (MAX_SOURCES <=? size sources)%nat in
  let '(count_, sources) :=
    match sources !! source with
    | Some w => let w := record now w in (count w, <[source := w]> sources)
    | None => if full then (0, sources)
              else let w := record now (window_new now) in (count w, <[source := w]> sources)
    end in
  ((FAILURE_LIMIT <? count_) || flooding, mkFailures sources total).

Inductive Auth : Type :=
| AuthOk
| AuthRefused (r : Response).

Definition supplied_token (header : option string) : option string :=
  v ← header;
  '(scheme, value) ← PyValue.split_once " "%char v;
  if eq_ignore_ascii_case scheme "Bearer" then Some (trim value) else None.

Definition ct_eq_text (a b : string) : bool :=
  Options.ct_eq (String.list_byte_of_string a) (String.list_byte_of_string b).

Definition too_many : Response :=
  with_header "Retry-After" (pretty (FAILURE_WINDOW / 1000000000)) (rs_status_of 429 "Too Many Requests").

Definition unauthorized : Response := with_header "WWW-Authenticate" "Bearer" (rs_status_of 401 "Unauthorized").

(** [Admin::check]. *)
Definition check (token : string) (header : option string) (source : IpAddr) (now : Z) (f : Failures)
    : Auth * Failures :=
  let known := match supplied_token header with Some supplied => ct_eq_text supplied token | None => false end in
  if known then (AuthOk, f)
  else
    let '(limited, f) := record_failure source now f in
    (AuthRefused (if limited then too_many else unauthorized), f).

(** ** Properties *)

Lemma ct_eq_text_spec a b : ct_eq_text a b = true <-> a = b.
Proof.
  unfold ct_eq_text. rewrite Options.ct_eq_spec. split; [|by intros ->]. intros Heq.
  by rewrite <-(String.string_of_list_byte_of_string a), <-(String.string_of_list_byte_of_string b), Heq.
Qed.

(** A request at the gate: when, from where and with which header. *)
Record Knock : Type := mkKnock { kn_now : Z; kn_source : IpAddr; kn_header : option string }.

Section gate.
Context (token : string).

Definition knock (f : Failures) (k : Knock) : Failures := (check token (kn_header k) (kn_source k) (kn_now k) f).2.

(** The requests without the token, and those of one source. *)
Definition fails (k : Knock) : bool := negb (bool_decide (supplied_token (kn_header k) = Some token)).
Definition failed (l : list Knock) : Z := Z.of_nat (length (List.filter fails l)).
Definition failed_from (source : IpAddr) (l : list Knock) : Z :=
  Z.of_nat (length (List.filter (fun k => fails k && (kn_source k =? source)) l)).

Lemma check_spec header source now f :
  check token header source now f =
  if bool_decide (supplied_token header = Some token) then (AuthOk, f)
  else let '(limited, f) := record_failure source now f in
       (AuthRefused (if limited then too_many else unauthorized), f).
Proof.
  unfold check. destruct (supplied_token header) as [t|]; [|by rewrite bool_decide_false].
  destruct (ct_eq_text t token) eqn:E.
  - apply ct_eq_text_spec in E as ->. by rewrite bool_decide_true.
  - rewrite bool_decide_false; [done|]. intros [= ->].
    by rewrite (proj2 (ct_eq_text_spec token token) eq_refl) in E.
Qed.

(** No counter is ahead of the failures there were. *)
Record counted (l : list Knock) (f : Failures) : Prop := mkCounted {
  counted_total : 0 <= count (total f) <= failed l;
  counted_source : forall source w, by_source f !! source = Some w -> 0 <= count w <= failed_from source l;
  counted_size : (size (by_source f) <= MAX_SOURCES)%nat
}.

Lemma record_count now w n : 0 <= count w <= n -> 0 <= count (record now w) <= n + 1.
Proof.
  intros Hw. unfold record, wrap32. destruct (expired now w); cbn [count].
  - change (0 <= 1 <= n + 1). lia.
  - pose proof (Z.mod_le (count w + 1) (2 ^ 32)). pose proof (Z.mod_pos_bound (count w + 1) (2 ^ 32)). lia.
Qed.

Lemma failed_snoc l k : failed (l ++ [k]) = failed l + (if fails k then 1 else 0).
Proof. unfold failed. rewrite List.filter_app, length_app. cbn. destruct (fails k); cbn; lia. Qed.

Lemma failed_from_snoc source l k :
  failed_from source (l ++ [k]) = failed_from source l + (if fails k && (kn_source k =? source) then 1 else 0).
Proof. unfold failed_from. rewrite List.filter_app, length_app. cbn. destruct (_ && _); cbn; lia. Qed.

Lemma failed_from_nonneg source l : 0 <= failed_from source l.
Proof. unfold failed_from. lia. Qed.

(** The sources that are kept before the failure is counted. *)
Lemma pruned_counted l f now source :
  counted l f ->
  let sources := pruned source now (by_source f) in
  (forall s w, sources !! s = Some w -> 0 <= count w <= failed_from s l) /\ (size sources <= MAX_SOURCES)%nat.
Proof.
  intros [_ Hs Hn]. cbv zeta. unfold pruned. destruct (_ && _); [|done]. split.
  - intros s w [Hw _]%map_lookup_filter_Some. by apply Hs.
  - etrans; [|exact Hn]. apply map_subseteq_size, map_filter_subseteq.
Qed.

Lemma record_failure_counted l f k :
  counted l f -> fails k = true ->
  let '(limited, f') := record_failure (kn_source k) (kn_now k) f in
  counted (l ++ [k]) f' /\
  (limited = true -> FAILURE_LIMIT < failed_from (kn_source k) (l ++ [k]) \/ FLOOD_LIMIT < failed (l ++ [k])).
Proof.
  intros Hc Hk. destruct (pruned_counted l f (kn_now k) (kn_source k) Hc) as [Hs Hn]. unfold record_failure.
  cbv zeta in *. set (sources := pruned _ _ _) in *. clearbody sources.
  assert (Ht : 0 <= count (record (kn_now k) (total f)) <= failed (l ++ [k])).
  { rewrite failed_snoc, Hk. apply record_count, Hc. }
  assert (Hother : forall s w, sources !! s = Some w -> 0 <= count w <= failed_from s (l ++ [k])).
  { intros s w Hw. rewrite failed_from_snoc. apply Hs in Hw. destruct (_ && _); lia. }
  assert (Hown : forall w, 0 <= count w <= failed_from (kn_source k) l ->
    0 <= count (record (kn_now k) w) <= failed_from (kn_source k) (l ++ [k])).
  { intros w Hw. rewrite failed_from_snoc, Hk, Z.eqb_refl. by apply record_count. }
  assert (Hins : forall w, 0 <= count w <= failed_from (kn_source k) l ->
    (size (<[kn_source k := record (kn_now k) w]> sources) <= MAX_SOURCES)%nat ->
    counted (l ++ [k]) (mkFailures (<[kn_source k := record (kn_now k) w]> sources) (record (kn_now k) (total f))) /\
    ((FAILURE_LIMIT <? count (record (kn_now k) w)) || (FLOOD_LIMIT <? count (record (kn_now k) (total f))) = true ->
     FAILURE_LIMIT < failed_from (kn_source k) (l ++ [k]) \/ FLOOD_LIMIT < failed (l ++ [k]))).
  { intros w Hw Hsize. specialize (Hown w Hw). split.
    - split; [exact Ht| |exact Hsize]. cbn. intros s w' Hw'. destruct (decide (s = kn_source k)) as [-> |Hne].
      + rewrite lookup_insert_eq in Hw'. by injection Hw' as <-.
      + rewrite lookup_insert_ne in Hw' by done. by apply Hother.
    - intros [Hl%Z.ltb_lt|Hl%Z.ltb_lt]%orb_true_iff; [left|right]; lia. }
  destruct (sources !! kn_source k) as [w|] eqn:Hw.
  - apply Hins; [by apply Hs|]. by rewrite map_size_insert_Some.
  - destruct (Nat.leb_spec MAX_SOURCES (size sources)) as [Hfull|Hroom].
    + split; [by split|]. cbn [orb]. intros [Hl%Z.ltb_lt|Hl%Z.ltb_lt]%orb_true_iff; [done|right; lia].
    + apply Hins; [pose proof (failed_from_nonneg (kn_source k) l); cbn; lia|].
      rewrite map_size_insert_None by done. lia.
Qed.

Lemma knock_counted l f k : counted l f -> counted (l ++ [k]) (knock f k).
Proof.
  intros Hc. unfold knock. rewrite check_spec. case_bool_decide as Hh; cbn.
  - assert (Hk : fails k = false) by (unfold fails; by rewrite bool_decide_true).
    destruct Hc as [Ht Hs Hn]. split; [by rewrite failed_snoc, Hk, Z.add_0_r| |done].
    intros source w Hw. rewrite failed_from_snoc, Hk, Z.add_0_r. by apply Hs.
  - assert (Hk : fails k = true) by (unfold fails; by rewrite bool_decide_false).
    pose proof (record_failure_counted l f k Hc Hk) as Hr.
    destruct (record_failure (kn_source k) (kn_now k) f) as [limited f']. apply Hr.
Qed.

Lemma knocks_counted start l : counted l (fold_left knock l (failures_new start)).
Proof.
  induction l as [|k l IH] using rev_ind.
  { split; [done|by intros source w Hw; change ((∅ : gmap IpAddr Window) !! source = Some w) in Hw|apply Nat.le_0_l]. }
  rewrite fold_left_app. by apply knock_counted.
Qed.

(** C15: The token opens the gate and nobody else's noise closes it.  After any
    requests at all, the next one passes exactly when it carries the token, and
    then leaves no trace; it is answered that there were too many only if its own
    source has failed more than ten times or all sources more than five hundred
    times; and the table of sources never holds more than its bound. *)
Theorem the_token_opens_and_noise_does_not_close start l k :
  let f := fold_left knock l (failures_new start) in
  let '(auth, f') := check token (kn_header k) (kn_source k) (kn_now k) f in
  (auth = AuthOk <-> supplied_token (kn_header k) = Some token) /\
  (auth = AuthOk -> f' = f) /\
  (auth = AuthRefused too_many ->
     FAILURE_LIMIT < failed_from (kn_source k) (l ++ [k]) \/ FLOOD_LIMIT < failed (l ++ [k])) /\
  (size (by_source f') <= MAX_SOURCES)%nat.
Proof.
  intros f. pose proof (knocks_counted start l) as Hc. fold f in Hc.
  pose proof (counted_size _ _ (knock_counted l f k Hc)) as Hn. unfold knock in Hn. rewrite check_spec in *.
  case_bool_decide as Hh; [by split_and!|]. assert (Hk : fails k = true) by (unfold fails; by rewrite bool_decide_false).
  pose proof (record_failure_counted l f k Hc Hk) as Hr.
  destruct (record_failure (kn_source k) (kn_now k) f) as [limited f']. destruct Hr as [_ Hl].
  split_and!; [done|done| |exact Hn]. destruct limited; [by intros _; apply Hl|done].
Qed.
End gate.
