(* ===== verification/HttpCommand.v ===== *)
(** * [crates/pahoa-net/src/http/command.rs]: the body of an admin command

    The JSON of a request as a typed command, or what is wrong with it.  The text
    of serde_json's own refusal is the parameter [json_error]. *)

From Stdlib Require Import ZArith Lia Bool Ascii.
From stdpp Require Import base tactics numbers list strings gmap pretty.
From S2P Require Import Prelude PyRandom Types Multidata Text Json PyValue Admin.

Section command.
Context `{Json} `{HText : !JsonText}.
Context (json_error : list Z -> string).

(** [Value::as_i64]. *)
Definition v_as_i64 (v : Value) : option Z :=
  match shape v with SNumber n => num_as_i64 n | _ => None end.

Definition quoted (s : string) : string := String.append quote2 (String.append s quote2).

(** [serde_json::from_slice(body)], and [as_object]. *)
Definition body_object (body : list Z) : result string JMap :=
  let value := if utf8_valid body then parse_json (string_of_bytes body) else None in
  v ← ok_or (String.append "the body is not JSON: " (json_error body)) value;
  ok_or "expected a JSON object"%string (v_as_object v).

Definition text (object : JMap) (field : string) : result string string :=
  ok_or (String.append (debug_str field) " is required and must be a string") (map_get object field ≫= v_as_str).

Definition integer (object : JMap) (field : string) : result string Z :=
  ok_or (String.append (debug_str field) " is required and must be a whole number") (map_get object field ≫= v_as_i64).

Definition slot (object : JMap) : result string Z :=
  _ ← match map_get object "team" with
      | Some team =>
          team ← ok_or (String.append (quoted "team") " must be a number") (v_as_i64 team);
          if negb (team =? ONLY_TEAM)
          then Err (str_concat ["team "%string; pretty team;
                 " does not exist: this server serves one team, as the reference does"%string])
          else Ok tt
      | None => Ok tt
      end;
  raw ← integer object "slot";
  if within 0 u32_max raw then Ok raw else Err (String.append (pretty raw) " is not a slot number").

(** [object.get(field).map_or(Ok(default), |v| v.as_bool().ok_or_else(..))]. *)
Definition flag (object : JMap) (field : string) (default : bool) : result string bool :=
  match map_get object field with
  | None => Ok default
  | Some v => match shape v with
              | SBool b => Ok b
              | _ => Err (String.append (quoted field) " must be true or false")
              end
  end.

Definition force (object : JMap) : result string bool := flag object "force" false.

(** A string that may be absent or [null]. *)
Definition optional_text (object : JMap) (field : string) : result string string :=
  match shape <$> map_get object field with
  | None | Some SNull => Ok EmptyString
  | Some (SString s) => Ok s
  | Some _ => Err (String.append (quoted field) " must be a string")
  end.

Definition option_value (object : JMap) : result string string :=
  match map_get object "value" with
  | None => Err (String.append "missing " (quoted "value"))
  | Some v => match shape v with
              | SString s => Ok s
              | SNumber _ | SBool _ => Ok (json_text v)
              | _ => Err (String.append (quoted "value") " must be a string, number or boolean")
              end
  end.

Definition status_of (object : JMap) : result string ClientStatus.t :=
  name ← text object "status";
  ok_or (str_concat ["unknown status "%string; debug_str name; ", known: "%string;
           String.concat ", " (ClientStatus.as_text <$> ClientStatus.ALL)])
    (ClientStatus.from_text name).

Definition parse_command (object : JMap) (command : string) : result string AdminCommand :=
  let is_ := str_eqb command in
  if is_ "status" then Ok AStatus
  else if is_ "say" then text_ ← text object "text"; Ok (ASay text_)
  else if is_ "countdown" then seconds ← integer object "seconds"; Ok (ACountdown seconds)
  else if is_ "release" then slot ← slot object; Ok (ARelease slot)
  else if is_ "collect" then slot ← slot object; Ok (ACollect slot)
  else if is_ "send_item" then slot ← slot object; item ← text object "item"; Ok (ASendItem slot item)
  else if is_ "send_multiple" then
    slot ← slot object; item ← text object "item"; amount ← integer object "amount"; Ok (ASendMultiple slot item amount)
  else if is_ "hint" then slot ← slot object; item ← text object "item"; force ← force object; Ok (AHint slot item force)
  else if is_ "hint_location" then
    slot ← slot object; location ← text object "location"; force ← force object; Ok (AHintLocation slot location force)
  else if is_ "send_location" then slot ← slot object; location ← text object "location"; Ok (ASendLocation slot location)
  else if is_ "allow_release" then slot ← slot object; allowed ← flag object "allowed" true; Ok (AAllowRelease slot allowed)
  else if is_ "lock" then slot ← slot object; locked ← flag object "locked" true; Ok (ALock slot locked)
  else if is_ "set_status" then slot ← slot object; st ← status_of object; Ok (ASetStatus slot st)
  else if is_ "alias" then slot ← slot object; alias ← optional_text object "alias"; Ok (AAlias slot alias)
  else if is_ "option" then name ← text object "name"; value ← option_value object; Ok (AOption name value)
  else if is_ "kick" then slot ← slot object; reason ← optional_text object "reason"; Ok (AKick slot reason)
  else Err (String.append "unknown command " (debug_str command)).

Definition parse (body : list Z) : result string AdminCommand :=
  object ← body_object body;
  command ← ok_or (String.append "missing " (quoted "command")) (map_get object "command" ≫= v_as_str);
  parse_command object command.

Definition slot_password (body : list Z) : result string (option string) :=
  match body with
  | [] => Ok None
  | _ =>
      object ← body_object body;
      match shape <$> map_get object "password" with
      | None | Some SNull => Ok None
      | Some (SString password) => Ok (Some password)
      | Some _ => Err (String.append (quoted "password") " must be a string, or null to clear it")
      end
  end.

(** ** Properties *)

(** The slot a command is about. *)
Definition target (c : AdminCommand) : option Z :=
  match c with
  | AStatus | ASay _ | ACountdown _ | AOption _ _ => None
  | ARelease s | ACollect s | ASendItem s _ | ASendMultiple s _ _ | AHint s _ _ | AHintLocation s _ _
  | ASendLocation s _ | AAllowRelease s _ | ALock s _ | ASetStatus s _ | AAlias s _ | AKick s _ => Some s
  end.

Lemma slot_ok object s :
  slot object = Ok s -> is_u32 s /\ map_get object "slot" ≫= v_as_i64 = Some s /\
    forall team, map_get object "team" = Some team -> v_as_i64 team = Some ONLY_TEAM.
Proof.
  unfold slot. intros Hs.
  destruct (map_get object "team") as [team|]; [destruct (v_as_i64 team) as [n|] eqn:Et; [|done]; cbn in Hs;
    destruct (Z.eqb_spec n ONLY_TEAM) as [-> |]; [|done]|]; cbn in Hs;
    unfold integer in Hs; destruct (map_get object "slot" ≫= v_as_i64) as [raw|]; try done; cbn in Hs;
    destruct (within 0 u32_max raw) eqn:Hw; try done; injection Hs as <-;
    apply andb_true_iff in Hw as [?%Z.leb_le ?%Z.leb_le];
    (split; [unfold is_u32, u32_max in *; lia|split; [done|]]); by intros t [= <-].
Qed.

Lemma text_get object field s : map_get object field = Some (v_string s) -> text object field = Ok s.
Proof. unfold text. intros ->. cbn. by rewrite v_as_str_string. Qed.

Lemma integer_get object field z : map_get object field = Some (v_int z) -> is_i64 z -> integer object field = Ok z.
Proof. unfold integer, v_int. intros -> Hz. cbn. unfold v_as_i64. by rewrite shape_make, num_as_i64_of. Qed.

Lemma flag_get object field d b : map_get object field = Some (make (SBool b)) -> flag object field d = Ok b.
Proof. unfold flag. intros ->. by rewrite shape_make. Qed.

Lemma optional_get object field s : map_get object field = Some (v_string s) -> optional_text object field = Ok s.
Proof. unfold optional_text. intros ->. cbn. unfold v_string. by rewrite shape_make. Qed.

Lemma option_value_get object s : map_get object "value" = Some (v_string s) -> option_value object = Ok s.
Proof. unfold option_value. intros ->. unfold v_string. by rewrite shape_make. Qed.

Lemma slot_get object s :
  is_u32 s -> map_get object "team" = None -> map_get object "slot" = Some (v_int s) -> slot object = Ok s.
Proof.
  unfold is_u32. intros Hs Ht Hg. unfold slot. rewrite Ht. cbn.
  rewrite (integer_get _ _ s) by (done || unfold is_i64; lia). cbn.
  unfold within, u32_max. by rewrite (proj2 (Z.leb_le 0 s)), (proj2 (Z.leb_le s _)) by lia.
Qed.

(** A command as the documentation has a caller write it. *)
Definition fields (c : AdminCommand) : JMap :=
  let entry (name : string) (rest : JMap) : JMap := ("command"%string, v_string name) :: rest in
  let slot (s : Z) (rest : JMap) : JMap := ("slot"%string, v_int s) :: rest in
  match c with
  | AStatus => entry "status" []
  | ASay t => entry "say" [("text"%string, v_string t)]
  | ACountdown n => entry "countdown" [("seconds"%string, v_int n)]
  | ARelease s => entry "release" (slot s [])
  | ACollect s => entry "collect" (slot s [])
  | ASendItem s i => entry "send_item" (slot s [("item"%string, v_string i)])
  | ASendMultiple s i n => entry "send_multiple" (slot s [("item"%string, v_string i); ("amount"%string, v_int n)])
  | AHint s i f => entry "hint" (slot s [("item"%string, v_string i); ("force"%string, make (SBool f))])
  | AHintLocation s l f => entry "hint_location" (slot s [("location"%string, v_string l); ("force"%string, make (SBool f))])
  | ASendLocation s l => entry "send_location" (slot s [("location"%string, v_string l)])
  | AAllowRelease s b => entry "allow_release" (slot s [("allowed"%string, make (SBool b))])
  | ALock s b => entry "lock" (slot s [("locked"%string, make (SBool b))])
  | ASetStatus s st => entry "set_status" (slot s [("status"%string, v_string (ClientStatus.as_text st))])
  | AAlias s a => entry "alias" (slot s [("alias"%string, v_string a)])
  | AOption n v => entry "option" [("name"%string, v_string n); ("value"%string, v_string v)]
  | AKick s r => entry "kick" (slot s [("reason"%string, v_string r)])
  end.

Definition numbers_ok (c : AdminCommand) : Prop :=
  (forall s, target c = Some s -> is_u32 s) /\
  match c with ACountdown n | ASendMultiple _ _ n => is_i64 n | _ => True end.

Lemma status_get object st : map_get object "status" = Some (v_string (ClientStatus.as_text st)) -> status_of object = Ok st.
Proof. unfold status_of. intros Hg. rewrite (text_get _ _ _ Hg). cbn. by destruct st. Qed.

Lemma fields_command c : exists name, map_get (fields c) "command" = Some (v_string name) /\
  (numbers_ok c -> parse_command (fields c) name = Ok c).
Proof.
  destruct c; (eexists; split; [reflexivity|]); intros [Hs Hn]; unfold parse_command, force; cbv beta zeta iota;
    repeat match goal with |- context [str_eqb ?a ?b] => change (str_eqb a b) with true || change (str_eqb a b) with false end;
    cbv beta iota; try (rewrite (slot_get _ slot0) by (done || by apply Hs); cbn [mbind result_bind]);
    repeat (first [erewrite text_get by reflexivity | erewrite integer_get by (reflexivity || done)
      | erewrite flag_get by reflexivity | erewrite optional_get by reflexivity
      | erewrite option_value_get by reflexivity | erewrite status_get by reflexivity]; cbn [mbind result_bind]);
    reflexivity.
Qed.

End command.
