(* ===== verification/Shard.v ===== *)
(** * [crates/pahoa-net/src/shard.rs]: fan-out

    A shard owns the connections whose id is its index modulo the number of
    shards.  [handle_msg] is one turn of [run_shard]'s loop: it takes a message,
    the shard's state and the shared budget, and gives what it hands to the
    connections' channels.  The channels and the clock are outside: [env k conn] is
    what the queue of the connection says to the [k]-th [try_send] of the turn,
    and what the clock says then.  The compressor is [Deflate]'s; logging and
    metrics are left out. *)

From Stdlib Require Import ZArith Lia Bool SpecFloat.
From stdpp Require Import base tactics list sets gmap strings.
From S2P Require Import Prelude Json Conn Packets Deflate Hints Filter Effects Room.
From S2P Require Frame Budget.

Inductive Queueing : Type := Taken | QueueFull | QueueClosed.

Record Answer : Type := mkAnswer { an_now : Z; an_queue : Queueing }.

Record Member : Type := mkMember {
  mb_auth : bool;
  mb_no_text : bool;
  mb_slot : option SlotKey;
  mb_deflate : option Z;
  mb_budget : nat;
  mb_lagged : bool;
  mb_filter : option Filter;
  mb_scoped : bool
}.

Definition OutTag : Type := Kind * list string.

Inductive ShardMsg : Type :=
| SAdd (conn : ConnId) (deflate : option Z) (budget : nat) (scoped : bool)
| SRemove (conn : ConnId)
| SUpdate (conn : ConnId) (auth no_text : bool) (slot : option SlotKey)
| SSetFilter (conn : ConnId) (filter : option Filter)
| SSend (conn : ConnId) (msg : Frame.Outgoing) (tag : option OutTag)
| SBroadcast (to_ : Recipients) (msg : Frame.Outgoing) (tag : option OutTag)
| SClose (conn : ConnId) (reason : string)
| SDesynced (conn : option ConnId).

(** [ShardMsg::is_control]. *)
Definition is_control (m : ShardMsg) : bool :=
  match m with SSend _ _ _ | SBroadcast _ _ _ => false | _ => true end.

(** What reaches a connection: a frame or a close in its queue, or a close
    through the signal beside it. *)
Inductive Out : Type :=
| OFrame (conn : ConnId) (frame : list Z)
| OClose (conn : ConnId) (reason : string)
| OSignal (conn : ConnId) (reason : string).

Definition DESYNCED : string := "server dropped a frame".

(** The assignments to a member. *)
Definition set_lagged (m : Member) : Member :=
  mkMember (mb_auth m) (mb_no_text m) (mb_slot m) (mb_deflate m) (mb_budget m) true (mb_filter m) (mb_scoped m).
Definition set_filter (f : option Filter) (m : Member) : Member :=
  mkMember (mb_auth m) (mb_no_text m) (mb_slot m) (mb_deflate m) (mb_budget m) (mb_lagged m) f (mb_scoped m).
Definition set_membership (auth no_text : bool) (slot : option SlotKey) (m : Member) : Member :=
  mkMember auth no_text slot (mb_deflate m) (mb_budget m) (mb_lagged m) (mb_filter m) (mb_scoped m).

Definition new_member (deflate : option Z) (budget : nat) (scoped : bool) : Member :=
  mkMember false false None deflate budget false None scoped.

Section shard.
Context `{Json} `{HashOrder} `{Flate2}.
Context (budget : Budget.Budget) (level : Z) (env : nat -> ConnId -> Answer).

(** ** Closing *)

Definition force_close (conn : ConnId) (reason : string) : list Out := [OSignal conn reason].

Definition close_member (conn : ConnId) (reason : string) : list Out :=
  match an_queue (env 0%nat conn) with
  | Taken => [OClose conn reason]
  | _ => force_close conn reason
  end.

(** ** One frame *)

Inductive Delivery : Type := Sent | Behind (why : string) | Gone.

Definition refused_text (r : Budget.Refused) : string :=
  match r with
  | Budget.Share _ _ _ => "over its own share"
  | Budget.RoomBudget _ _ _ => "the room is out of outbound budget"
  | Budget.Stalled _ _ => "it has not drained anything in two minutes"
  end.

Definition deliver (asked : nat) (conn : ConnId) (m : Member) (frame : list Z) (g : Budget.Shared)
    : Delivery * Budget.Shared * list Out :=
  let size := Z.of_nat (length frame) in
  let '(g, pc) := Budget.reserve_reported budget (an_now (env asked conn)) g (mb_budget m) size in
  match pc with
  | Budget.Returned (Err refused) => (Behind (refused_text refused), g, [])
  | _ =>
      match an_queue (env asked conn) with
      | Taken => (Sent, g, [OFrame conn frame])
      | answer =>
          let g := (Budget.release budget (an_now (env asked conn)) g (mb_budget m) size).1 in
          match answer with
          | QueueFull => (Behind "its writer's queue is full", g, [])
          | _ => (Gone, g, [])
          end
      end
  end.

(** [deflaters.iter().position(..)], or a new one at the end. *)
Fixpoint with_deflater (bits : Z) (input : list Z) (l : list (Z * Deflater)) : list Z * list (Z * Deflater) :=
  match l with
  | [] => let '(out, d) := deflater_compress (deflater_new level bits) input in (out, [(bits, d)])
  | (b, d) :: l =>
      if b =? bits then let '(out, d) := deflater_compress d input in (out, (b, d) :: l)
      else let '(out, l) := with_deflater bits input l in (out, (b, d) :: l)
  end.

(** [msg.deflated(deflater)]: the compressor is used only for a payload that is
    long enough. *)
Definition deflated_with (bits : Z) (msg : Frame.Outgoing) (l : list (Z * Deflater))
    : list Z * list (Z * Deflater) :=
  let payload := Frame.outgoing_payload msg in
  if (length payload <? Frame.MIN_COMPRESS_BYTES)%nat
  then (Frame.o_plain msg, if existsb (fun e => e.1 =? bits) l then l else l ++ [(bits, deflater_new level bits)])
  else
    let '(compressed, l) := with_deflater bits payload l in
    (Frame.deflated (fun _ => compressed) msg, l).

(** The frame this connection wants, the compressors and the memo. *)
Definition variant (m : Member) (msg : Frame.Outgoing) (deflaters : list (Z * Deflater))
    (memo : list (Z * list Z)) : list Z * list (Z * Deflater) * list (Z * list Z) :=
  match mb_deflate m with
  | None => (Frame.o_plain msg, deflaters, memo)
  | Some bits =>
      match List.find (fun e => e.1 =? bits) memo with
      | Some (_, frame) => (frame, deflaters, memo)
      | None =>
          let '(frame, deflaters) := deflated_with bits msg deflaters in
          (frame, deflaters, memo ++ [(bits, frame)])
      end
  end.

Definition filtered (m : Member) (tag : option OutTag) (sampler : Z) : bool * Z :=
  match mb_filter m, tag, mb_slot m with
  | Some f, Some (kind, labels), Some _ => drops sampler_roll f ToSlot kind labels sampler
  | _, _, _ => (false, sampler)
  end.

(** ** One message *)

Record Shard : Type := mkShard {
  members : gmap ConnId Member;
  by_slot : gmap SlotKey (list ConnId);
  deflaters : list (Z * Deflater);
  sampler : Z;
  swept : bool
}.

(** What a fan-out carries from one recipient to the next. *)
Record Fan : Type := mkFan {
  fan_asked : nat;
  fan_shared : Budget.Shared;
  fan_sampler : Z;
  fan_deflaters : list (Z * Deflater);
  fan_memo : list (Z * list Z);
  fan_lagged : list (ConnId * string);
  fan_gone : list ConnId;
  fan_out : list Out
}.

Definition fan_one (msg : Frame.Outgoing) (tag : option OutTag) (s : Fan) (e : ConnId * Member) : Fan :=
  let '(conn, m) := e in
  if mb_lagged m then s
  else
    let '(dropped, sampler) := filtered m tag (fan_sampler s) in
    if dropped then
      mkFan (fan_asked s) (fan_shared s) sampler (fan_deflaters s) (fan_memo s) (fan_lagged s) (fan_gone s) (fan_out s)
    else
      let '(frame, deflaters, memo) := variant m msg (fan_deflaters s) (fan_memo s) in
      let '(delivery, g, out) := deliver (fan_asked s) conn m frame (fan_shared s) in
      mkFan (S (fan_asked s)) g sampler deflaters memo
        (match delivery with Behind why => fan_lagged s ++ [(conn, why)] | _ => fan_lagged s end)
        (match delivery with Gone => fan_gone s ++ [conn] | _ => fan_gone s end)
        (fan_out s ++ out).

Definition fan_all (l : list (ConnId * Member)) (msg : Frame.Outgoing) (tag : option OutTag)
    (s : Shard) (g : Budget.Shared) : Fan :=
  fold_left (fan_one msg tag) l (mkFan 0%nat g (sampler s) (deflaters s) [] [] [] []).

(** The members a list of connections names. *)
Definition members_of (ms : gmap ConnId Member) (l : list ConnId) : list (ConnId * Member) :=
  omap (fun conn => pair conn <$> ms !! conn) l.

Definition audience (s : Shard) (to_ : Recipients) : list (ConnId * Member) :=
  let all := hash_order (map_to_list (members s)) in
  let slot key := members_of (members s) (default [] (by_slot s !! key)) in
  match to_ with
  | RAll => List.filter (fun e => mb_auth e.2) all
  | RAllText => List.filter (fun e => mb_auth e.2 && negb (mb_no_text e.2)) all
  | RSlot key => slot key
  | RSlotText key => List.filter (fun e => negb (mb_no_text e.2)) (slot key)
  | RAllTextAbout key =>
      List.filter (fun e => mb_auth e.2 && negb (mb_no_text e.2) &&
                            (negb (mb_scoped e.2) || bool_decide (mb_slot e.2 = Some key))) all
  | RAllTextFull => List.filter (fun e => mb_auth e.2 && negb (mb_no_text e.2) && negb (mb_scoped e.2)) all
  | RSlotScopedText key => List.filter (fun e => negb (mb_no_text e.2) && mb_scoped e.2) (slot key)
  | RThese l => members_of (members s) l
  end.

Definition mark_gone (ms : gmap ConnId Member) (gone : list ConnId) : gmap ConnId Member :=
  fold_left (fun ms conn => alter set_lagged conn ms) gone ms.

Definition mark_lagged (ms : gmap ConnId Member) (lagged : list (ConnId * string))
    : gmap ConnId Member * list Out :=
  fold_left (fun acc e =>
    match acc.1 !! e.1 with
    | Some m => if mb_lagged m then acc
                else (<[e.1 := set_lagged m]> acc.1, acc.2 ++ force_close e.1 "too slow")
    | None => acc
    end) lagged (ms, []).

(** The recipients of a message, then the ones that fell behind or are gone. *)
Definition fan_out_to (l : list (ConnId * Member)) (msg : Frame.Outgoing) (tag : option OutTag)
    (s : Shard) (g : Budget.Shared) : Shard * Budget.Shared * list Out :=
  let f := fan_all l msg tag s g in
  let '(ms, closes) := mark_lagged (members s) (fan_lagged f) in
  (mkShard (mark_gone ms (fan_gone f)) (by_slot s) (fan_deflaters f) (fan_sampler f) (swept s),
   fan_shared f, fan_out f ++ closes).

Definition set_members (ms : gmap ConnId Member) (s : Shard) : Shard :=
  mkShard ms (by_slot s) (deflaters s) (sampler s) (swept s).

(** [list.retain(|c| *c != conn)]. *)
Definition leave_slot (slot : option SlotKey) (conn : ConnId) (bs : gmap SlotKey (list ConnId))
    : gmap SlotKey (list ConnId) :=
  match slot with Some key => alter (List.filter (fun c => negb (c =? conn))) key bs | None => bs end.

Definition enter_slot (slot : option SlotKey) (conn : ConnId) (bs : gmap SlotKey (list ConnId))
    : gmap SlotKey (list ConnId) :=
  match slot with Some key => <[key := default [] (bs !! key) ++ [conn]]> bs | None => bs end.

(** The sweep: everyone who is not lagged yet is closed. *)
Definition sweep (ms : gmap ConnId Member) : gmap ConnId Member * list Out :=
  (set_lagged <$> ms,
   e ← hash_order (map_to_list ms); if mb_lagged e.2 then [] else close_member e.1 DESYNCED).

Definition handle_msg (msg : ShardMsg) (s : Shard) (g : Budget.Shared) : Shard * Budget.Shared * list Out :=
  match msg with
  | SAdd conn deflate handle scoped =>
      (mkShard (<[conn := new_member deflate handle scoped]> (members s)) (by_slot s) (deflaters s)
         (sampler s) false, g, [])
  | SRemove conn =>
      match members s !! conn with
      | Some m =>
          (mkShard (delete conn (members s)) (leave_slot (mb_slot m) conn (by_slot s)) (deflaters s)
             (sampler s) (swept s),
           (Budget.release_all budget (an_now (env 0%nat conn)) g (mb_budget m)).1, [])
      | None => (s, g, [])
      end
  | SUpdate conn auth no_text slot =>
      match members s !! conn with
      | Some m =>
          let bs := if bool_decide (mb_slot m = slot) then by_slot s
                    else enter_slot slot conn (leave_slot (mb_slot m) conn (by_slot s)) in
          (mkShard (<[conn := set_membership auth no_text slot m]> (members s)) bs (deflaters s)
             (sampler s) (swept s), g, [])
      | None => (s, g, [])
      end
  | SSetFilter conn f => (set_members (alter (set_filter f) conn (members s)) s, g, [])
  | SSend conn msg tag => fan_out_to (members_of (members s) [conn]) msg tag s g
  | SBroadcast to_ msg tag => fan_out_to (audience s to_) msg tag s g
  | SClose conn reason =>
      (s, g, match members s !! conn with Some _ => close_member conn reason | None => [] end)
  | SDesynced (Some conn) =>
      match members s !! conn with
      | Some m => if mb_lagged m then (s, g, [])
                  else (set_members (<[conn := set_lagged m]> (members s)) s, g, close_member conn DESYNCED)
      | None => (s, g, [])
      end
  | SDesynced None =>
      if swept s then (s, g, [])
      else
        let '(ms, out) := sweep (members s) in
        (mkShard ms (by_slot s) (deflaters s) (sampler s) true, g, out)
  end.
End shard.

(** [Sampler::new(0x9E37_79B9_7F4A_7C15 ^ index)]. *)
Definition shard_new `{Flate2} (index : Z) : Shard :=
  mkShard ∅ ∅ [] (sampler_new (Z.lxor 0x9E3779B97F4A7C15 index)) false.

(** ** The two inboxes of a shard *)

Record Inbox : Type := mkInbox { frames : list ShardMsg; control : list ShardMsg }.

(** [Shards::tell], for the shard that owns the connection; [refused] is whether
    the bounded inbox of frames turned the message away. *)
Definition tell (conn : ConnId) (msg : ShardMsg) (refused : bool) (i : Inbox) : Inbox :=
  if is_control msg then mkInbox (frames i) (control i ++ [msg])
  else if refused then mkInbox (frames i) (control i ++ [SDesynced (Some conn)])
  else mkInbox (frames i ++ [msg]) (control i).

(** [Shards::broadcast], for one shard. *)
Definition shards_broadcast (to_ : Recipients) (msg : Frame.Outgoing) (tag : option OutTag) (refused : bool)
    (i : Inbox) : Inbox :=
  if refused then mkInbox (frames i) (control i ++ [SDesynced None])
  else mkInbox (frames i ++ [SBroadcast to_ msg tag]) (control i).

(** [tokio::select!] with [biased]: what is known first, frames after. *)
Definition next_msg (i : Inbox) : option (ShardMsg * Inbox) :=
  match control i, frames i with
  | m :: control, frames => Some (m, mkInbox frames control)
  | [], m :: frames => Some (m, mkInbox frames [])
  | [], [] => None
  end.

(** [conn.0 as usize % self.txs.len()]. *)
Definition shard_of (shards : nat) (conn : ConnId) : nat := Z.to_nat (conn mod Z.of_nat shards).
