(* ===== verification/ShardTheorems.v ===== *)
(** * What a shard promises

    Its index of the slots is exact; each recipient of a broadcast gets the
    bytes its own window asks for, however the compressions are shared; and a
    connection that missed a frame gets no other frame. *)

From Stdlib Require Import ZArith Lia Bool.
From stdpp Require Import base tactics list sets gmap strings relations.
From S2P Require Import Prelude Json Conn Packets Deflate Hints Filter Effects Room RoomSpec RoomFrame RoomAuth.
From S2P Require Import Shard.
From S2P Require Frame Budget.

Section shard.
Context `{Json} `{HashOrder} `{Flate2}.

(** ** Members *)

Definition slot_in (s : Shard) (conn : ConnId) : option SlotKey := members s !! conn ≫= mb_slot.

(** A slot's list is exactly its members, each once; and a shard that was swept
    has closed every member. *)
Definition lists (bs : gmap SlotKey (list ConnId)) (f : ConnId -> option SlotKey) : Prop :=
  (forall key, NoDup (default [] (bs !! key))) /\
  (forall key conn, conn ∈ default [] (bs !! key) <-> f conn = Some key).

Definition index_ok (s : Shard) : Prop := lists (by_slot s) (slot_in s).

Definition swept_ok (s : Shard) : Prop :=
  swept s = true -> forall conn m, members s !! conn = Some m -> mb_lagged m = true.

(** Connection ids are never used again. *)
Definition fresh_msg (s : Shard) (msg : ShardMsg) : Prop :=
  match msg with SAdd conn _ _ _ => members s !! conn = None | _ => True end.

(** Some members are marked as lagged; nothing else happened to them. *)
Definition marked (ms ms' : gmap ConnId Member) : Prop :=
  forall conn, match ms !! conn with
               | Some m => ms' !! conn = Some m \/ ms' !! conn = Some (set_lagged m)
               | None => ms' !! conn = None
               end.

Lemma marked_refl ms : marked ms ms.
Proof. intros conn. destruct (ms !! conn); auto. Qed.

Lemma set_lagged_twice m : set_lagged (set_lagged m) = set_lagged m.
Proof. done. Qed.

Lemma marked_trans ms1 ms2 ms3 : marked ms1 ms2 -> marked ms2 ms3 -> marked ms1 ms3.
Proof.
  intros H12 H23 conn. specialize (H12 conn). specialize (H23 conn).
  destruct (ms1 !! conn) as [m|]; [|by rewrite H12 in H23].
  destruct H12 as [E|E]; rewrite E in H23; [done|]. rewrite set_lagged_twice in H23. naive_solver.
Qed.

Lemma marked_insert ms conn m : ms !! conn = Some m -> marked ms (<[conn := set_lagged m]> ms).
Proof.
  intros Hm c. destruct (decide (c = conn)) as [-> |Hne].
  - rewrite Hm, lookup_insert_eq. by right.
  - rewrite lookup_insert_ne by done. destruct (ms !! c); auto.
Qed.

Lemma marked_alter ms conn : marked ms (alter set_lagged conn ms).
Proof.
  intros c. destruct (decide (c = conn)) as [-> |Hne].
  - rewrite lookup_alter_eq. destruct (ms !! conn); cbn; auto.
  - rewrite lookup_alter_ne by done. destruct (ms !! c); auto.
Qed.

Lemma marked_all ms : marked ms (set_lagged <$> ms).
Proof. intros c. rewrite lookup_fmap. destruct (ms !! c); cbn; auto. Qed.

Lemma marked_gone ms gone : marked ms (mark_gone ms gone).
Proof.
  unfold mark_gone. revert ms. induction gone as [|c gone IH]; intros ms; [apply marked_refl|].
  cbn. eapply marked_trans; [apply marked_alter|apply IH].
Qed.

Lemma marked_lagged ms lagged : marked ms (mark_lagged ms lagged).1.
Proof.
  unfold mark_lagged. generalize (@nil Out) as acc. revert ms.
  induction lagged as [|[c why] lagged IH]; intros ms acc; [apply marked_refl|]. cbn.
  destruct (ms !! c) as [m|] eqn:Hm; [|apply IH]. destruct (mb_lagged m); [apply IH|].
  eapply marked_trans; [by apply marked_insert|apply IH].
Qed.

Lemma marked_slot s ms conn : marked (members s) ms -> ms !! conn ≫= mb_slot = slot_in s conn.
Proof.
  intros Hm. specialize (Hm conn). unfold slot_in. destruct (members s !! conn) as [m|]; [|by rewrite Hm].
  by destruct Hm as [-> | ->].
Qed.

Lemma marked_stays ms ms' :
  marked ms ms' -> (forall conn m, ms !! conn = Some m -> mb_lagged m = true) ->
  forall conn m, ms' !! conn = Some m -> mb_lagged m = true.
Proof.
  intros Hm Hl conn m Hc. specialize (Hm conn). destruct (ms !! conn) as [m0|] eqn:E; [|congruence].
  destruct Hm as [E'|E']; rewrite E' in Hc; injection Hc as <-; [by eapply Hl|done].
Qed.

(** A fan-out marks members and changes nothing else about them. *)
Lemma fan_out_marked budget level env l msg tag s g :
  let s' := (fan_out_to budget level env l msg tag s g).1.1 in
  marked (members s) (members s') /\ by_slot s' = by_slot s /\ swept s' = swept s.
Proof.
  unfold fan_out_to. cbv zeta. set (f := fan_all _ _ _ _ _ _ _ _).
  pose proof (marked_lagged (members s) (fan_lagged f)) as Hl.
  destruct (mark_lagged (members s) (fan_lagged f)) as [ms closes]. cbn in *. split_and!; [|done..].
  eapply marked_trans; [exact Hl|apply marked_gone].
Qed.

(** ** The index *)

Lemma lists_ext bs f f' : (forall conn, f' conn = f conn) -> lists bs f -> lists bs f'.
Proof. intros Hf [Hn Hl]. split; [exact Hn|]. intros key conn. by rewrite Hl, Hf. Qed.

Lemma filter_every {A} (P : A -> Prop) `{forall x, Decision (P x)} (l : list A) :
  (forall x, x ∈ l -> P x) -> filter P l = l.
Proof.
  induction l as [|x l IH]; intros Hn; [done|]. rewrite filter_cons_True by (apply Hn; left).
  f_equal. apply IH. intros y Hy. apply Hn. by right.
Qed.

Lemma filter_others conn (l : list ConnId) : List.filter (fun c => negb (c =? conn)) l = filter (fun c => c <> conn) l.
Proof.
  induction l as [|c l IH]; [done|]. rewrite filter_cons. cbn [List.filter].
  destruct (Z.eqb_spec c conn); case_decide; cbn [negb]; rewrite ?IH; naive_solver.
Qed.

Lemma lists_leave bs f conn :
  lists bs f -> lists (leave_slot (f conn) conn bs) (fun c => if decide (c = conn) then None else f c).
Proof.
  intros [Hn Hl].
  assert (Hat : forall key, default [] (leave_slot (f conn) conn bs !! key) =
                  filter (fun c => c <> conn) (default [] (bs !! key))).
  { intros key. unfold leave_slot. destruct (f conn) as [own|] eqn:Hf.
    - destruct (decide (key = own)) as [-> |Hk].
      + rewrite lookup_alter_eq. destruct (bs !! own); cbn; [apply filter_others|done].
      + rewrite lookup_alter_ne by done. rewrite filter_every; [done|]. intros c Hc ->. apply Hl in Hc. congruence.
    - rewrite filter_every; [done|]. intros c Hc ->. apply Hl in Hc. congruence. }
  split; intros key; [|intros c]; rewrite Hat; [by apply NoDup_filter|].
  rewrite list_elem_of_filter, Hl. destruct (decide (c = conn)); naive_solver.
Qed.

Lemma lists_enter bs f conn slot :
  lists bs f -> f conn = None -> lists (enter_slot slot conn bs) (fun c => if decide (c = conn) then slot else f c).
Proof.
  intros [Hn Hl] Hf. unfold enter_slot. destruct slot as [own|].
  - assert (Hno : conn ∉ default [] (bs !! own)) by (rewrite Hl; congruence).
    split; intros key; [|intros c]; (destruct (decide (key = own)) as [-> |Hk];
      [rewrite lookup_insert_eq; cbn [from_option id]|rewrite lookup_insert_ne by done]); [|done|..].
    + apply NoDup_app. split_and!; [done| |apply NoDup_singleton].
      intros c Hc ->%list_elem_of_singleton. contradiction.
    + rewrite elem_of_app, list_elem_of_singleton, Hl. destruct (decide (c = conn)); naive_solver.
    + rewrite Hl. destruct (decide (c = conn)) as [-> |]; [|done]. rewrite Hf. naive_solver.
  - eapply lists_ext; [|by split]. intros c. cbn. destruct (decide (c = conn)) as [-> |]; congruence.
Qed.

Lemma index_marked s ms ds sm sw :
  index_ok s -> marked (members s) ms -> index_ok (mkShard ms (by_slot s) ds sm sw).
Proof.
  intros Hok Hm. eapply lists_ext; [|exact Hok]. intros conn. by apply marked_slot.
Qed.

Lemma index_kept budget level env msg s g :
  index_ok s -> fresh_msg s msg -> index_ok (handle_msg budget level env msg s g).1.1.
Proof.
  intros Hok Hfresh. destruct msg; cbn [handle_msg fresh_msg] in *.
  - eapply lists_ext; [|exact Hok]. intros c. unfold slot_in. cbn. destruct (decide (c = conn)) as [-> |].
    + by rewrite lookup_insert_eq, Hfresh.
    + by rewrite lookup_insert_ne.
  - destruct (members s !! conn) as [m|] eqn:Hc; [|done]. unfold index_ok. cbn.
    eapply lists_ext; [|replace (mb_slot m) with (slot_in s conn) by (by unfold slot_in; rewrite Hc);
                        by apply lists_leave].
    intros c. unfold slot_in. cbn. destruct (decide (c = conn)) as [-> |]; [by rewrite lookup_delete_eq|].
    by rewrite lookup_delete_ne.
  - destruct (members s !! conn) as [m|] eqn:Hc; [|done]. unfold index_ok. cbn.
    assert (Hs : slot_in s conn = mb_slot m) by (unfold slot_in; by rewrite Hc).
    eapply (lists_ext _ (fun c => if decide (c = conn) then slot else slot_in s c)).
    { intros c. unfold slot_in. cbn. destruct (decide (c = conn)) as [-> |]; [by rewrite lookup_insert_eq|].
      by rewrite lookup_insert_ne. }
    case_bool_decide as He.
    + eapply lists_ext; [|exact Hok]. intros c. destruct (decide (c = conn)) as [-> |]; congruence.
    + eapply lists_ext; [|apply lists_enter; [rewrite <-Hs; by apply lists_leave|cbn beta; by rewrite decide_True]].
      intros c. cbn. by destruct (decide (c = conn)).
  - eapply lists_ext; [|exact Hok]. intros c. unfold slot_in. cbn. destruct (decide (c = conn)) as [-> |].
    + rewrite lookup_alter_eq. by destruct (members s !! conn).
    + by rewrite lookup_alter_ne.
  - destruct (fan_out_marked budget level env (members_of (members s) [conn]) msg tag s g) as (Hm & Hb & _).
    unfold index_ok. rewrite Hb. eapply lists_ext; [|exact Hok]. intros c. by apply marked_slot.
  - destruct (fan_out_marked budget level env (audience s to_) msg tag s g) as (Hm & Hb & _).
    unfold index_ok. rewrite Hb. eapply lists_ext; [|exact Hok]. intros c. by apply marked_slot.
  - done.
  - destruct conn as [conn|].
    + destruct (members s !! conn) as [m|] eqn:Hc; [|done]. destruct (mb_lagged m); [done|].
      by apply index_marked, marked_insert.
    + destruct (swept s); [done|]. by apply index_marked, marked_all.
Qed.

Lemma swept_kept budget level env msg s g :
  swept_ok s -> swept_ok (handle_msg budget level env msg s g).1.1.
Proof.
  intros Hok. destruct msg; cbn [handle_msg].
  - done.
  - destruct (members s !! conn) as [m|] eqn:Hc; [|done]. intros Hs c m' Hm'. cbn in *.
    apply lookup_delete_Some in Hm' as [_ Hm']. exact (Hok Hs c m' Hm').
  - destruct (members s !! conn) as [m|] eqn:Hc; [|done]. intros Hs c m' Hm'. cbn in *.
    apply lookup_insert_Some in Hm' as [[<- <-]|[_ Hm']]; [exact (Hok Hs conn m Hc)|exact (Hok Hs c m' Hm')].
  - intros Hs c m' Hm'. cbn in *. apply lookup_alter_Some in Hm' as [(<- & m & Hm & ->)|[_ Hm']];
      [exact (Hok Hs conn m Hm)|exact (Hok Hs c m' Hm')].
  - destruct (fan_out_marked budget level env (members_of (members s) [conn]) msg tag s g) as (Hm & _ & Hs).
    intros Hs'. rewrite Hs in Hs'. eapply marked_stays; [exact Hm|by apply Hok].
  - destruct (fan_out_marked budget level env (audience s to_) msg tag s g) as (Hm & _ & Hs).
    intros Hs'. rewrite Hs in Hs'. eapply marked_stays; [exact Hm|by apply Hok].
  - done.
  - destruct conn as [conn|].
    + destruct (members s !! conn) as [m|] eqn:Hc; [|done]. destruct (mb_lagged m); [done|].
      intros Hs. eapply marked_stays; [by apply marked_insert|by apply Hok].
    + destruct (swept s) eqn:Hsw; [done|]. intros _ c m Hm. cbn in *.
      rewrite lookup_fmap in Hm. by destruct (members s !! c) as [m0|]; [injection Hm as <-|].
Qed.

(** ** The bytes *)

(** What a member that negotiated this window asks for. *)
Definition wanted (level : Z) (deflate : option Z) (msg : Frame.Outgoing) : list Z :=
  match deflate with
  | None => Frame.o_plain msg
  | Some bits => Frame.deflated (fun p => (deflater_compress (deflater_new level bits) p).1) msg
  end.

Definition deflaters_ok (level : Z) (l : list (Z * Deflater)) : Prop :=
  forall bits d, (bits, d) ∈ l -> deflater_for level bits d.

Lemma with_deflater_ok level bits input l :
  deflaters_ok level l ->
  (with_deflater level bits input l).1 = (deflater_compress (deflater_new level bits) input).1 /\
  deflaters_ok level (with_deflater level bits input l).2.
Proof.
  induction l as [|[b d] l IH]; intros Hok; cbn [with_deflater].
  - destruct (deflater_stateless level bits _ input (deflater_for_new level bits)) as [_ Hd].
    destruct (deflater_compress _ input) as [out d'] eqn:E. split; [done|].
    intros b d [= -> ->]%list_elem_of_singleton. exact Hd.
  - assert (Hd0 : deflater_for level b d) by (apply Hok; left).
    assert (Hl : deflaters_ok level l) by (intros ???; apply Hok; by right).
    destruct (Z.eqb_spec b bits) as [-> |Hne].
    + destruct (deflater_stateless level bits d input Hd0) as [He Hd].
      destruct (deflater_compress d input) as [out d'] eqn:E. cbn in *. split; [exact He|].
      intros b d1 [[= -> ->]|Hin]%elem_of_cons; [exact Hd|by apply Hl].
    + destruct (IH Hl) as [He Hd]. destruct (with_deflater level bits input l) as [out l'].
      cbn in *. split; [exact He|]. intros b1 d1 [[= -> ->]|Hin]%elem_of_cons; [exact Hd0|by apply Hd].
Qed.

Lemma deflated_with_ok level bits msg l :
  deflaters_ok level l ->
  (deflated_with level bits msg l).1 = wanted level (Some bits) msg /\
  deflaters_ok level (deflated_with level bits msg l).2.
Proof.
  intros Hok. unfold deflated_with, wanted, Frame.deflated. cbv zeta.
  destruct (length (Frame.outgoing_payload msg) <? Frame.MIN_COMPRESS_BYTES)%nat.
  - split; [done|]. cbn. destruct (existsb _ l); [done|].
    intros b d [Hin|[= -> ->]%list_elem_of_singleton]%elem_of_app; [by apply Hok|apply deflater_for_new].
  - destruct (with_deflater_ok level bits (Frame.outgoing_payload msg) l Hok) as [He Hd].
    destruct (with_deflater _ _ _ l) as [out l']. cbn in *. by rewrite He.
Qed.

(** The memo holds what was asked for, once for each window. *)
Definition memo_ok (level : Z) (msg : Frame.Outgoing) (windows : list Z) (memo : list (Z * list Z)) : Prop :=
  NoDup memo.*1 /\
  (forall bits frame, (bits, frame) ∈ memo -> frame = wanted level (Some bits) msg /\ bits ∈ windows).

Lemma variant_ok level m msg ds windows memo :
  deflaters_ok level ds -> memo_ok level msg windows memo ->
  (forall bits, mb_deflate m = Some bits -> bits ∈ windows) ->
  let '(frame, ds', memo') := variant level m msg ds memo in
  frame = wanted level (mb_deflate m) msg /\ deflaters_ok level ds' /\ memo_ok level msg windows memo'.
Proof.
  intros Hds [Hn Hm] Hw. unfold variant. destruct (mb_deflate m) as [bits|]; [|done].
  destruct (List.find _ memo) as [[b frame]|] eqn:Hf.
  - apply List.find_some in Hf as [Hin Hb]. cbn in Hb. apply Z.eqb_eq in Hb as ->.
    apply list_elem_of_In, Hm in Hin as [-> _]. done.
  - pose proof (deflated_with_ok level bits msg ds Hds) as [He Hd].
    destruct (deflated_with level bits msg ds) as [frame ds']. cbn in He, Hd. subst frame.
    split; [done|]. split; [exact Hd|]. split.
    + change (NoDup ((memo ++ [(bits, wanted level (Some bits) msg)]).*1)). rewrite fmap_app.
      apply NoDup_app. split_and!; [done| |apply NoDup_singleton].
      intros b Hin Hb. apply list_elem_of_singleton in Hb. cbn in Hb.
      apply list_elem_of_fmap in Hin as ([b' frame] & Hb' & Hin). cbn in Hb'. subst b b'.
      apply list_elem_of_In in Hin. pose proof (List.find_none _ _ Hf _ Hin) as Hne. cbn in Hne. lia.
    + intros b frame [Hin|[= -> ->]%list_elem_of_singleton]%elem_of_app; [by apply Hm|].
      split; [done|by apply Hw].
Qed.

Definition windows (l : list (ConnId * Member)) : list Z := omap (fun e => mb_deflate e.2) l.

Record fan_ok (level : Z) (msg : Frame.Outgoing) (l : list (ConnId * Member)) (f : Fan) : Prop := mkFanOk {
  fan_ok_deflaters : deflaters_ok level (fan_deflaters f);
  fan_ok_memo : memo_ok level msg (windows l) (fan_memo f);
  fan_ok_out : forall o, o ∈ fan_out f -> exists conn m, (conn, m) ∈ l /\ mb_lagged m = false /\
    o = OFrame conn (wanted level (mb_deflate m) msg)
}.

Lemma deliver_out budget env asked conn m frame g o :
  o ∈ (deliver budget env asked conn m frame g).2 -> o = OFrame conn frame.
Proof.
  unfold deliver. destruct (Budget.reserve_reported _ _ _ _ _) as [g' pc].
  repeat case_match; cbn; first [by intros ?%elem_of_nil | by intros ?%list_elem_of_singleton].
Qed.

Lemma fan_one_ok budget level env msg tag l f e :
  e ∈ l -> fan_ok level msg l f -> fan_ok level msg l (fan_one budget level env msg tag f e).
Proof.
  intros Hin [Hd Hm Ho]. destruct e as [conn m]. cbn [fan_one].
  destruct (mb_lagged m) eqn:Hl; [done|]. destruct (filtered m tag (fan_sampler f)) as [[] sm]; [done|].
  assert (Hw : forall bits, mb_deflate m = Some bits -> bits ∈ windows l).
  { intros bits Hb. apply list_elem_of_omap. by exists (conn, m). }
  pose proof (variant_ok level m msg _ _ _ Hd Hm Hw) as Hv.
  destruct (variant _ m msg _ _) as [[frame ds] memo]. destruct Hv as (-> & Hds & Hmemo).
  pose proof (deliver_out budget env (fan_asked f) conn m (wanted level (mb_deflate m) msg) (fan_shared f)) as Hout.
  destruct (deliver _ _ _ _ _ _ _) as [[delivery g'] out]. split; cbn; [done..|].
  intros o [Hin'|Hin']%elem_of_app; [by apply Ho|]. exists conn, m. by rewrite (Hout _ Hin').
Qed.

Lemma fan_all_ok budget level env l msg tag s g :
  deflaters_ok level (deflaters s) -> fan_ok level msg l (fan_all budget level env l msg tag s g).
Proof.
  intros Hd. unfold fan_all.
  assert (Hstart : fan_ok level msg l (mkFan 0 g (sampler s) (deflaters s) [] [] [] [])).
  { split; cbn; [done| |by intros ? ?%elem_of_nil]. split; [apply NoDup_nil_2|]. by intros ?? ?%elem_of_nil. }
  revert Hstart. generalize (mkFan 0 g (sampler s) (deflaters s) [] [] [] []).
  assert (Hsub : l ⊆ l) by done. revert Hsub. generalize l at 1 5 as k.
  induction k as [|e k IH]; intros Hsub f Hf; [exact Hf|]. cbn. apply IH; [set_solver|].
  apply fan_one_ok; [set_solver|exact Hf].
Qed.

Lemma mark_lagged_out ms lagged o : o ∈ (mark_lagged ms lagged).2 -> exists conn, o = OSignal conn "too slow".
Proof.
  unfold mark_lagged. assert (Hstart : forall o, o ∈ ((ms, []) : gmap ConnId Member * list Out).2 ->
    exists conn, o = OSignal conn "too slow") by (by intros ? ?%elem_of_nil).
  revert Hstart. generalize ((ms, []) : gmap ConnId Member * list Out) as acc.
  induction lagged as [|[c why] lagged IH]; intros acc Hacc; [by apply Hacc|]. cbn. apply IH.
  destruct (acc.1 !! c) as [m|]; [|done]. destruct (mb_lagged m); [done|].
  intros o' [Hin|Hin%list_elem_of_singleton]%elem_of_app; [by apply Hacc|by exists c].
Qed.

Lemma fan_out_frames budget level env l msg tag s g conn frame :
  deflaters_ok level (deflaters s) ->
  OFrame conn frame ∈ (fan_out_to budget level env l msg tag s g).2 ->
  exists m, (conn, m) ∈ l /\ mb_lagged m = false /\ frame = wanted level (mb_deflate m) msg.
Proof.
  intros Hd. unfold fan_out_to. cbv zeta.
  pose proof (fan_all_ok budget level env l msg tag s g Hd) as [_ _ Ho].
  pose proof (mark_lagged_out (members s) (fan_lagged (fan_all budget level env l msg tag s g))) as Hm.
  destruct (mark_lagged _ _) as [ms closes]. cbn in *. intros [Hin|Hin]%elem_of_app.
  - apply Ho in Hin as (c & m & Hin & Hl & [= -> ->]). by exists m.
  - by apply Hm in Hin as [c ?].
Qed.

(** ** The audience *)

Lemma elem_of_members_of ms l conn m : (conn, m) ∈ members_of ms l <-> conn ∈ l /\ ms !! conn = Some m.
Proof.
  unfold members_of. rewrite list_elem_of_omap. split.
  - intros (c & Hc & He). destruct (ms !! c) eqn:E; [|done]. injection He as -> ->. done.
  - intros [Hin Hm]. exists conn. by rewrite Hm.
Qed.

Lemma elem_of_all s conn m : (conn, m) ∈ hash_order (map_to_list (members s)) <-> members s !! conn = Some m.
Proof. rewrite hash_order_perm. apply elem_of_map_to_list. Qed.

Lemma elem_of_list_filter {A} (f : A -> bool) (l : list A) x : x ∈ List.filter f l <-> x ∈ l /\ f x = true.
Proof. by rewrite !list_elem_of_In, List.filter_In. Qed.

(** What a recipient must be, in the member's own words. *)
Definition addressed (to_ : Recipients) (conn : ConnId) (m : Member) : Prop :=
  match to_ with
  | RAll => mb_auth m = true
  | RAllText => mb_auth m = true /\ mb_no_text m = false
  | RSlot key => mb_slot m = Some key
  | RSlotText key => mb_slot m = Some key /\ mb_no_text m = false
  | RAllTextAbout key =>
      mb_auth m = true /\ mb_no_text m = false /\ (mb_scoped m = false \/ mb_slot m = Some key)
  | RAllTextFull => mb_auth m = true /\ mb_no_text m = false /\ mb_scoped m = false
  | RSlotScopedText key => mb_slot m = Some key /\ mb_no_text m = false /\ mb_scoped m = true
  | RThese l => conn ∈ l
  end.

Lemma elem_of_audience s to_ conn m :
  index_ok s -> (conn, m) ∈ audience s to_ <-> members s !! conn = Some m /\ addressed to_ conn m.
Proof.
  intros [_ Hl].
  assert (Hslot : forall key, conn ∈ default [] (by_slot s !! key) /\ members s !! conn = Some m <->
                    members s !! conn = Some m /\ mb_slot m = Some key).
  { intros key. rewrite Hl. unfold slot_in. split; intros [A B]; [rewrite B in A|rewrite A]; done. }
  unfold audience, addressed.
  destruct to_; rewrite ?elem_of_list_filter, ?elem_of_all, ?elem_of_members_of, ?Hslot; cbn [fst snd];
    rewrite ?andb_true_iff, ?orb_true_iff, ?negb_true_iff, ?bool_decide_eq_true; tauto.
Qed.

Lemma audience_members s to_ conn m : (conn, m) ∈ audience s to_ -> members s !! conn = Some m.
Proof.
  unfold audience. destruct to_; rewrite ?elem_of_list_filter, ?elem_of_all, ?elem_of_members_of; tauto.
Qed.

Lemma NoDup_members_of ms l : NoDup l -> NoDup (members_of ms l).*1.
Proof.
  induction 1 as [|conn l Hn Hl IH]; [apply NoDup_nil_2|]. unfold members_of. cbn.
  destruct (ms !! conn) as [m|]; [|exact IH]. cbn. apply NoDup_cons. split; [|exact IH].
  intros ([c m'] & Hc & Hin)%list_elem_of_fmap. cbn in Hc. subst c.
  by apply elem_of_members_of in Hin as [? _].
Qed.

Lemma NoDup_filter_fst (f : ConnId * Member -> bool) l : NoDup l.*1 -> NoDup (List.filter f l).*1.
Proof.
  induction l as [|e l IH]; [done|]. cbn. intros [Hn Hl]%NoDup_cons.
  destruct (f e); [|by apply IH]. cbn. apply NoDup_cons. split; [|by apply IH].
  intros (x & Hx & Hin)%list_elem_of_fmap. apply Hn. rewrite Hx. apply list_elem_of_fmap_2.
  by apply elem_of_list_filter in Hin as [? _].
Qed.

Lemma NoDup_audience s to_ :
  index_ok s -> (forall l, to_ = RThese l -> NoDup l) -> NoDup (audience s to_).*1.
Proof.
  intros [Hn _] Hthese.
  assert (Hall : NoDup (hash_order (map_to_list (members s))).*1).
  { rewrite hash_order_perm. apply NoDup_fst_map_to_list. }
  unfold audience. destruct to_; try apply NoDup_filter_fst; try apply NoDup_members_of; auto.
Qed.


(** ** The shards of a room *)

Definition member_flags (m : Member) : Flags := (mb_auth m, mb_no_text m, mb_slot m, mb_scoped m).

(** Each connection of the room is in its own shard, under the room's flags, and
    in no other. *)
Record in_sync (fl : gmap ConnId Flags) (shards : list Shard) : Prop := mkInSync {
  sync_index : Forall index_ok shards;
  sync_own : forall conn s, shards !! shard_of (length shards) conn = Some s ->
    member_flags <$> members s !! conn = fl !! conn;
  sync_others : forall conn i s, shards !! i = Some s -> i <> shard_of (length shards) conn ->
    members s !! conn = None
}.

Lemma shard_of_lt shards conn : (0 < shards)%nat -> (shard_of shards conn < shards)%nat.
Proof. unfold shard_of. intros. pose proof (Z.mod_pos_bound conn (Z.of_nat shards)). lia. Qed.

Lemma addressed_resolve r to_ conn c m :
  sessions_ok r -> r_clients r !! conn = Some c -> member_flags m = client_flags c ->
  addressed to_ conn m <-> conn ∈ resolve r to_.
Proof.
  intros Hok Hc Hf. rewrite elem_of_resolve by done.
  unfold member_flags, client_flags in Hf. injection Hf as Ha Hn Hs Hsc.
  unfold addressed. rewrite Ha, Hn, Hs, Hsc.
  destruct to_; try done; (split; [intros Hm; exists c; (split; [exact Hc|])|
    intros (c' & Hc' & Hrest); rewrite Hc in Hc'; injection Hc' as <-]);
    destruct (c_auth c); naive_solver.
Qed.

(** The audience of a shard, over its own connections. *)
Lemma elem_of_own_audience fl shards to_ i s conn :
  in_sync fl shards -> shards !! i = Some s -> conn ∈ (audience s to_).*1 <->
  i = shard_of (length shards) conn /\ exists m, members s !! conn = Some m /\ addressed to_ conn m.
Proof.
  intros [Hi _ Hothers] Hs. rewrite Forall_forall in Hi.
  assert (Hx : index_ok s) by (apply Hi; by eapply list_elem_of_lookup_2).
  rewrite list_elem_of_fmap. split.
  - intros ([c m] & -> & He). apply elem_of_audience in He as [Hm Ha]; [|done]. cbn. split; [|by exists m].
    destruct (decide (i = shard_of (length shards) c)) as [|Hn]; [done|].
    rewrite (Hothers c i s Hs Hn) in Hm. done.
  - intros (_ & m & Hm). exists (conn, m). split; [done|]. by apply elem_of_audience.
Qed.

Lemma sync_client r shards conn s :
  in_sync (flags r) shards -> shards !! shard_of (length shards) conn = Some s ->
  (is_Some (members s !! conn) -> is_Some (r_clients r !! conn)) /\
  (is_Some (r_clients r !! conn) -> is_Some (members s !! conn)).
Proof.
  intros Hsync Hs. pose proof (sync_own _ _ Hsync conn s Hs) as Hf. unfold flags in Hf. rewrite lookup_fmap in Hf.
  destruct (members s !! conn), (r_clients r !! conn); cbn in Hf; try discriminate;
    split; intros [x Hx]; first [discriminate | by eexists].
Qed.

End shard.

(** * A shard with its inboxes

    The room pushes into the two inboxes of a shard, the bounded one may refuse,
    and the shard takes turns.  A connection that lost a frame gets nothing
    more. *)

Section gaps.
Context `{Json} `{HashOrder} `{Flate2}.
Context (budget : Budget.Budget) (level : Z).

(** ** The system *)

Inductive Event : Type :=
| Lost (conn : option ConnId)
| Hello (conn : ConnId)
| Put (out : Out).

Record System : Type := mkSystem { inbox : Inbox; shard : Shard; shared : Budget.Shared }.

Definition system_new (index : Z) (g : Budget.Shared) : System :=
  mkSystem (mkInbox [] []) (shard_new index) g.

(** The messages the room sends to the shard of one connection. *)
Definition about (msg : ShardMsg) : option ConnId :=
  match msg with
  | SAdd conn _ _ _ | SRemove conn | SUpdate conn _ _ _ | SSetFilter conn _ | SSend conn _ _
  | SClose conn _ => Some conn
  | SBroadcast _ _ _ | SDesynced _ => None
  end.

Definition told (conn : ConnId) (msg : ShardMsg) (refused : bool) : list Event :=
  match msg with
  | SAdd c _ _ _ => [Hello c]
  | _ => if negb (Shard.is_control msg) && refused then [Lost (Some conn)] else []
  end.

Inductive sys_step : System -> list Event -> System -> Prop :=
| StepTell conn msg refused i s g :
    about msg = Some conn ->
    sys_step (mkSystem i s g) (told conn msg refused) (mkSystem (tell conn msg refused i) s g)
| StepBroadcast to_ msg tag refused i s g :
    sys_step (mkSystem i s g) (if refused : bool then [Lost None] else [])
      (mkSystem (shards_broadcast to_ msg tag refused i) s g)
| StepTurn env msg i i' s s' g g' out :
    next_msg i = Some (msg, i') -> handle_msg budget level env msg s g = (s', g', out) ->
    sys_step (mkSystem i s g) (Put <$> out) (mkSystem i' s' g').

Inductive steps : System -> list Event -> System -> Prop :=
| StepsNil y : steps y [] y
| StepsCons y es y1 es' y2 : sys_step y es y1 -> steps y1 es' y2 -> steps y (es ++ es') y2.

(** ** The fate of a connection *)

(** Nothing more is sent to it. *)
Definition gone (s : Shard) (conn : ConnId) : bool :=
  match members s !! conn with Some m => mb_lagged m | None => true end.

(** Once the messages that are known first are handled. *)
Definition fate (conn : ConnId) (d : bool) (msg : ShardMsg) : bool :=
  match msg with
  | SAdd c _ _ _ => if c =? conn then false else d
  | SRemove c | SDesynced (Some c) => d || (c =? conn)
  | SDesynced None => true
  | _ => d
  end.

Definition fated (conn : ConnId) (y : System) : bool :=
  fold_left (fate conn) (control (inbox y)) (gone (shard y) conn).

Lemma fate_mono conn l d d' :
  (d = true -> d' = true) -> fold_left (fate conn) l d = true -> fold_left (fate conn) l d' = true.
Proof.
  revert d d'. induction l as [|msg l IH]; intros d d' Hd; [exact Hd|]. cbn. apply IH.
  destruct msg as [c ? ? ?|c|c ? ? ?|c ?|c ? ?| ? ? ?|c ?|[c|]]; cbn; try exact Hd; try done;
    destruct (c =? conn); rewrite ?orb_true_r, ?orb_false_r; done.
Qed.

Lemma gone_marked ms ms' conn s :
  marked ms ms' -> members s = ms' -> match ms !! conn with Some m => mb_lagged m | None => true end = true ->
  gone s conn = true.
Proof.
  intros Hm <- Hg. specialize (Hm conn). unfold gone. destruct (ms !! conn) as [m|]; [|by rewrite Hm].
  by destruct Hm as [-> | ->].
Qed.

Lemma fate_fan env l msg tag s g conn :
  gone s conn = true -> gone (fan_out_to budget level env l msg tag s g).1.1 conn = true.
Proof.
  intros Hg. pose proof (fan_out_marked budget level env l msg tag s g) as [Hm _]. by eapply gone_marked.
Qed.

Lemma fate_step env msg s g conn :
  swept_ok s -> fate conn (gone s conn) msg = true ->
  gone (handle_msg budget level env msg s g).1.1 conn = true.
Proof.
  intros Hsw. destruct msg as [c ? ? ?|c|c ? ? ?|c ?|c ? ?|to_ ? ?|c ?|[c|]]; cbn [fate handle_msg].
  - unfold gone. cbn. destruct (Z.eqb_spec c conn); [done|]. by rewrite lookup_insert_ne.
  - intros Hg. destruct (members s !! c) as [m|] eqn:Hc; cbn.
    + unfold gone in *. cbn. destruct (Z.eqb_spec c conn) as [-> |]; [by rewrite lookup_delete_eq|].
      rewrite lookup_delete_ne by done. by rewrite orb_false_r in Hg.
    + unfold gone in *. destruct (Z.eqb_spec c conn) as [-> |]; [by rewrite Hc|]. by rewrite orb_false_r in Hg.
  - intros Hg. destruct (members s !! c) as [m|] eqn:Hc; [|exact Hg]. unfold gone in *. cbn.
    destruct (decide (c = conn)) as [-> |]; [|by rewrite lookup_insert_ne].
    rewrite lookup_insert_eq. by rewrite Hc in Hg.
  - intros Hg. unfold gone in *. cbn. destruct (decide (c = conn)) as [-> |]; [|by rewrite lookup_alter_ne].
    rewrite lookup_alter_eq. by destruct (members s !! conn).
  - apply fate_fan.
  - apply fate_fan.
  - done.
  - intros Hg. unfold gone in *. destruct (members s !! c) as [m|] eqn:Hc.
    + destruct (mb_lagged m) eqn:Hl; cbn; (destruct (Z.eqb_spec c conn) as [-> |];
        [|by rewrite ?lookup_insert_ne, orb_false_r in *]); [by rewrite Hc|by rewrite lookup_insert_eq].
    + cbn. destruct (Z.eqb_spec c conn) as [-> |]; [by rewrite Hc|]. by rewrite orb_false_r in Hg.
  - intros _. destruct (swept s) eqn:Hs; unfold gone; cbn.
    + destruct (members s !! conn) as [m|] eqn:Hc; [|done]. by eapply Hsw.
    + rewrite lookup_fmap. by destruct (members s !! conn).
Qed.

(** ** What is sent *)

Lemma close_member_out env conn reason o :
  o ∈ close_member env conn reason -> o = OClose conn reason \/ o = OSignal conn reason.
Proof.
  unfold close_member, force_close. destruct (an_queue (env 0%nat conn)); intros ?%list_elem_of_singleton; auto.
Qed.

Lemma frames_to_live env msg s g s' g' out conn frame :
  deflaters_ok level (deflaters s) -> handle_msg budget level env msg s g = (s', g', out) ->
  OFrame conn frame ∈ out -> Shard.is_control msg = false /\ gone s conn = false.
Proof.
  intros Hd E Hin. assert (Ho : OFrame conn frame ∈ (handle_msg budget level env msg s g).2) by (by rewrite E).
  clear E Hin. destruct msg as [c ? ? ?|c|c ? ? ?|c ?|c msg tag|to_ msg tag|c ?|[c|]]; cbn [handle_msg] in Ho.
  - by apply elem_of_nil in Ho.
  - destruct (members s !! c); by apply elem_of_nil in Ho.
  - destruct (members s !! c); by apply elem_of_nil in Ho.
  - by apply elem_of_nil in Ho.
  - split; [done|]. apply fan_out_frames in Ho as (m & Hm & Hl & _); [|done].
    apply elem_of_members_of in Hm as [_ Hm]. unfold gone. by rewrite Hm.
  - split; [done|]. apply fan_out_frames in Ho as (m & Hm & Hl & _); [|done].
    apply audience_members in Hm. unfold gone. by rewrite Hm.
  - cbn in Ho. destruct (members s !! c); [|by apply elem_of_nil in Ho].
    by apply close_member_out in Ho as [?|?].
  - destruct (members s !! c) as [m|]; [|by apply elem_of_nil in Ho].
    destruct (mb_lagged m); [by apply elem_of_nil in Ho|]. by apply close_member_out in Ho as [?|?].
  - destruct (swept s); [by apply elem_of_nil in Ho|]. cbn in Ho.
    apply list_elem_of_bind in Ho as ([c m] & Ho & _). cbn in Ho.
    destruct (mb_lagged m); [by apply elem_of_nil in Ho|]. by apply close_member_out in Ho as [?|?].
Qed.

Lemma deflaters_kept env msg s g :
  deflaters_ok level (deflaters s) -> deflaters_ok level (deflaters (handle_msg budget level env msg s g).1.1).
Proof.
  intros Hd.
  assert (Hfan : forall l m tag, deflaters_ok level (deflaters (fan_out_to budget level env l m tag s g).1.1)).
  { intros l m tag. pose proof (fan_all_ok budget level env l m tag s g Hd) as [Hd' _ _].
    unfold fan_out_to. cbv zeta. by destruct (mark_lagged _ _). }
  destruct msg as [c ? ? ?|c|c ? ? ?|c ?|c msg tag|to_ msg tag|c ?|[c|]]; cbn [handle_msg]; auto;
    [| |destruct (members s !! c) as [m|]; [destruct (mb_lagged m)|]|destruct (swept s)]; try done;
    by destruct (members s !! c).
Qed.

(** ** The invariants of a run *)

Record system_ok (y : System) : Prop := mkSystemOk {
  ok_swept : swept_ok (shard y);
  ok_deflaters : deflaters_ok level (deflaters (shard y));
  ok_frames : Forall (fun msg => Shard.is_control msg = false) (frames (inbox y));
  ok_control : Forall (fun msg => Shard.is_control msg = true) (control (inbox y))
}.

Lemma system_new_ok index g : system_ok (system_new index g).
Proof. split; [done|by intros ? ? ?%elem_of_nil|apply Forall_nil_2..]. Qed.

Lemma Forall_snoc_2 {A} (P : A -> Prop) l x : Forall P l -> P x -> Forall P (l ++ [x]).
Proof. intros Hl Hx. apply Forall_app. split; [exact Hl|by apply Forall_singleton]. Qed.

Lemma step_ok y es y' : sys_step y es y' -> system_ok y -> system_ok y'.
Proof.
  intros Hs [Hsw Hd Hfr Hctl].
  destruct Hs as [conn msg refused i s g Ha|to_ msg tag refused i s g|env msg i i' s s' g g' out Hn E].
  - split; [done..| |]; cbn in *; unfold tell; destruct (Shard.is_control msg) eqn:Hm; cbn;
      auto using Forall_snoc_2; destruct refused; cbn; auto using Forall_snoc_2.
  - split; [done..| |]; cbn in *; unfold shards_broadcast; destruct refused; cbn; auto using Forall_snoc_2.
  - pose proof (f_equal (fun x => x.1.1) E) as Es. cbn in Es. subst s'. split; cbn in *;
      [by apply swept_kept|by apply deflaters_kept|..]; unfold next_msg in Hn;
      (destruct (control i) eqn:Ec; [destruct (frames i) eqn:Ef; [done|]|]); injection Hn as <- <-; cbn; auto.
    + by apply Forall_cons in Hfr as [_ ?].
    + by apply Forall_cons in Hctl as [_ ?].
Qed.

Lemma steps_ok y es y' : steps y es y' -> system_ok y -> system_ok y'.
Proof. induction 1; eauto using step_ok. Qed.

(** The control messages come first, so a frame is taken only with none left. *)
Lemma fated_turn env msg i i' s s' g g' out conn :
  system_ok (mkSystem i s g) -> next_msg i = Some (msg, i') ->
  handle_msg budget level env msg s g = (s', g', out) -> fated conn (mkSystem i s g) = true ->
  fated conn (mkSystem i' s' g') = true /\ (forall frame, OFrame conn frame ∉ out).
Proof.
  intros [Hsw Hd Hfr Hc] Hn E Hf. unfold fated in *. cbn [inbox shard] in *.
  assert (Hgone : fate conn (gone s conn) msg = true -> gone s' conn = true).
  { intros Hg. replace s' with (handle_msg budget level env msg s g).1.1 by (by rewrite E). by apply fate_step. }
  assert (Hlive : forall frame, OFrame conn frame ∈ out -> Shard.is_control msg = false /\ gone s conn = false).
  { intros frame Hin. by eapply frames_to_live. }
  unfold next_msg in Hn. destruct (control i) as [|m ctl] eqn:Hctl.
  - destruct (frames i) as [|m fr]; [done|]. injection Hn as -> <-. cbn in *. split.
    + apply Hgone. apply Forall_cons in Hfr as [Hm _]. by destruct msg.
    + intros frame Hin. destruct (Hlive frame Hin) as [_ Hg]. congruence.
  - injection Hn as -> <-. cbn in *. split.
    + eapply fate_mono; [exact Hgone|exact Hf].
    + intros frame Hin. destruct (Hlive frame Hin) as [Hm _]. apply Forall_cons in Hc as [Hm' _]. congruence.
Qed.

Lemma fate_stays conn msg : (forall d b sc, msg <> SAdd conn d b sc) -> fate conn true msg = true.
Proof.
  intros Hne. destruct msg as [c ? ? ?|c|c ? ? ?|c ?|c ? ?|to_ ? ?|c ?|[c|]]; try done. cbn.
  destruct (Z.eqb_spec c conn) as [-> |]; [by destruct (Hne deflate budget0 scoped)|done].
Qed.

Lemma fated_push conn y msg i g :
  fated conn y = true -> (forall d b sc, msg <> SAdd conn d b sc) -> control i = control (inbox y) ++ [msg] ->
  fated conn (mkSystem i (shard y) g) = true.
Proof.
  unfold fated. cbn. intros Hf Hne ->. rewrite fold_left_app, Hf. by apply fate_stays.
Qed.

Lemma fated_step y es y' conn :
  system_ok y -> sys_step y es y' -> fated conn y = true -> Hello conn ∉ es ->
  fated conn y' = true /\ (forall frame, Put (OFrame conn frame) ∉ es).
Proof.
  intros Hok Hs Hf Hno. destruct Hs as [c msg refused i s g Ha|to_ msg tag refused i s g|env msg i i' s s' g g' out Hn E].
  - assert (Hne : forall d b sc, msg <> SAdd conn d b sc) by (intros d b sc ->; apply Hno; left).
    split.
    + unfold tell. destruct (Shard.is_control msg); [by eapply (fated_push conn (mkSystem i s g))|].
      destruct refused; [|done].
      eapply (fated_push conn (mkSystem i s g)); [exact Hf| |reflexivity]; by intros ???.
    + intros frame. destruct msg; cbn; try destruct refused; cbn; set_solver.
  - split.
    + unfold shards_broadcast. destruct refused; [|done].
      eapply (fated_push conn (mkSystem i s g)); [exact Hf| |reflexivity]; by intros ???.
    + intros frame. destruct refused; set_solver.
  - destruct (fated_turn env msg i i' s s' g g' out conn Hok Hn E Hf) as [Hf' Hout]. split; [exact Hf'|].
    intros frame Hin. apply list_elem_of_fmap in Hin as (o & [= <-] & Hin). by apply (Hout frame).
Qed.

Lemma fated_steps y es y' conn :
  steps y es y' -> system_ok y -> fated conn y = true -> Hello conn ∉ es ->
  fated conn y' = true /\ (forall frame, Put (OFrame conn frame) ∉ es).
Proof.
  induction 1 as [y|y es y1 es' y2 Hs _ IH]; intros Hok Hf Hno.
  - split; [done|]. by intros frame ?%elem_of_nil.
  - rewrite elem_of_app in Hno. destruct (fated_step _ _ _ _ Hok Hs Hf) as [Hf1 Hp]; [tauto|].
    destruct IH as [Hf2 Hp2]; [by eapply step_ok|done|tauto|]. split; [done|].
    intros frame. rewrite elem_of_app. intros [Hin|Hin]; [by apply (Hp frame)|by apply (Hp2 frame)].
Qed.

(** A refused frame leaves its mark behind everything the shard is told. *)
Lemma lost_fated y c y' conn :
  sys_step y [Lost c] y' -> c = None \/ c = Some conn -> fated conn y' = true.
Proof.
  intros Hs Hc. remember [Lost c] as es eqn:He.
  destruct Hs as [c' msg refused i s g Ha|to_ msg tag refused i s g|env msg i i' s s' g g' out Hn E].
  - destruct msg, refused; try discriminate He; try discriminate Ha; cbn in *. injection He as <-. injection Ha as ->.
    destruct Hc as [|[= ->]]; [done|]. unfold fated. cbn. rewrite fold_left_app. cbn.
    by rewrite Z.eqb_refl, orb_true_r.
  - destruct refused; [|done]. unfold fated. cbn. by rewrite fold_left_app.
  - by destruct out as [|o []].
Qed.

(** C6: No connection goes on after a gap.  Once a frame meant for it, or a
    broadcast, was turned away at the shard's door, a connection gets no other
    frame, whatever the room and the shard do next and however full the queues
    are, until it is added again; and as soon as the shard has caught up with what
    it was told, the connection is out. *)
Theorem no_silent_gap index g y0 es0 c y1 es y2 conn :
  steps (system_new index g) es0 y0 -> sys_step y0 [Lost c] y1 -> c = None \/ c = Some conn ->
  steps y1 es y2 -> Hello conn ∉ es ->
  (forall frame, Put (OFrame conn frame) ∉ es) /\
  (control (inbox y2) = [] -> gone (shard y2) conn = true).
Proof.
  intros H0s Hlost Hc Hs Hno.
  assert (Hok : system_ok y1) by (eapply step_ok; [exact Hlost|eapply steps_ok; [exact H0s|apply system_new_ok]]).
  pose proof (lost_fated _ _ _ conn Hlost Hc) as Hf.
  destruct (fated_steps _ _ _ _ Hs Hok Hf Hno) as [Hf2 Hp]. split; [exact Hp|].
  unfold fated in Hf2. intros Hctl. by rewrite Hctl in Hf2.
Qed.
End gaps.
