(* ===== verification/SaveBytes.v ===== *)
(** * [crates/pahoa-room/src/save.rs], part 1: the writer and the reader of a save

    A [Writer] only ever appends to [out]: each of its methods is the bytes it
    appends, and a sequence of calls is their concatenation.  A [Reader] is the
    source's buffer and offset; its methods are computations in [Rd], which
    stop at the first error. *)

From Stdlib Require Import ZArith Lia Bool.
From stdpp Require Import base tactics list strings.
From S2P Require Import Prelude Hints.

Open Scope pahoa_scope.

Inductive SaveError : Type :=
| BadMagic
| TooNew (version : Z)
| UnknownEncoding (encoding : Z)
| Truncated (at_ : nat) (wanted : Z) (left_ : nat)
| ChecksumMismatch
| Malformed (what : string)
| InflateFailed (what : string)
| WrongSeed (expected seed : string).

(** ** [Writer] *)

Module Writer.

Definition byte (b : Z) : list Z := [b].

Definition u32 (v : Z) : list Z := le_bytes 4 v.

(** The loop of [uvar]; ten rounds are enough for 64 bits. *)
Fixpoint uvar_go (rounds : nat) (v : Z) : list Z :=
  match rounds with
  | O => []
  | S rounds =>
      if 0x80 <=? v then (wrap8 v ^| 0x80) :: uvar_go rounds (v ^>> 7)
      else [wrap8 v]
  end.

Definition uvar (v : Z) : list Z := uvar_go 10 v.

(** [((v << 1) ^ (v >> 63)) as u64]. *)
Definition ivar (v : Z) : list Z := uvar (wrap64 (wrap_i64 (v ^<< 1) ^^ (v ^>> 63))).

Definition bytes (b : list Z) : list Z := uvar (Z.of_nat (length b)) ++ b.

Definition str (s : string) : list Z := bytes (bytes_of_string s).

Definition key (k : SlotKey) : list Z := uvar k.1 ++ uvar k.2.

Definition tag (v : Z) : list Z := uvar (wrap64 v).
End Writer.

(** A collection: its length, then each entry. *)
Definition each_of {A} (l : list A) (one : A -> list Z) : list Z :=
  Writer.uvar (Z.of_nat (length l)) ++ concat (one <$> l).

(** ** [Reader] *)

Record Cursor : Type := mkCursor { buf : list Z; at_ : nat }.

Definition Rd (A : Type) : Type := Cursor -> result SaveError (A * Cursor).

#[global] Instance Rd_ret : MRet Rd := fun A a c => Ok (a, c).
#[global] Instance Rd_bind : MBind Rd := fun A B k m c =>
  match m c with Ok (a, c) => k a c | Err e => Err e end.

Definition refuse {A} (e : SaveError) : Rd A := fun _ => Err e.

(** [opt.ok_or(e)?]. *)
Definition or_refuse {A} (e : SaveError) (o : option A) : Rd A :=
  match o with Some a => mret a | None => refuse e end.

(** [for _ in 0..n { out.push(body()?) }]. *)
Fixpoint times {A} (n : nat) (body : Rd A) : Rd (list A) :=
  match n with
  | O => mret []
  | S n => a ← body; l ← times n body; mret (a :: l)
  end.

Module Reader.

Definition left_of (c : Cursor) : nat := (length (buf c) - at_ c)%nat.

(** [n] is a [usize]: the comparison is made before it indexes anything. *)
Definition take (n : Z) : Rd (list Z) := fun c =>
  if Z.of_nat (left_of c) <? n then Err (Truncated (at_ c) n (left_of c))
  else
    let n := Z.to_nat n in
    Ok (firstn n (skipn (at_ c) (buf c)), mkCursor (buf c) (at_ c + n)).

Definition byte : Rd Z := b ← take 1; mret (nth 0 b 0).

Definition u32 : Rd Z := b ← take 4; mret (le_val b).

(** The loop of [uvar] over [shift] in [(0..64).step_by(7)]: a shift below 64
    never fails, and drops the bits it pushes past the 64th. *)
Fixpoint uvar_go (rounds : nat) (shift out : Z) : Rd Z :=
  match rounds with
  | O => refuse (Malformed "varint too long")
  | S rounds =>
      b ← byte;
      let out := out ^| wrap64 ((b ^& 0x7f) ^<< shift) in
      if b ^& 0x80 =? 0 then mret out else uvar_go rounds (shift + 7) out
  end.

Definition uvar : Rd Z := uvar_go 10 0 0.

Definition ivar : Rd Z := v ← uvar; mret (wrap_i64 (v ^>> 1) ^^ - (v ^& 1)).

Definition u32var : Rd Z :=
  v ← uvar; if v <=? u32_max then mret v else refuse (Malformed "value does not fit in u32").

(** The check of [count] that what is left could hold [n] entries. *)
Definition fits (n : Z) : Rd nat := fun c =>
  if Z.of_nat (left_of c) <? n then Err (Truncated (at_ c) n (left_of c)) else Ok (Z.to_nat n, c).

Definition count : Rd nat := n ← uvar; fits n.

Definition bytes : Rd (list Z) := n ← count; take (Z.of_nat n).

Definition str : Rd string :=
  raw ← bytes;
  if utf8_valid raw then mret (string_of_bytes raw) else refuse (Malformed "string is not UTF-8").

Definition key : Rd SlotKey := team ← u32var; slot ← u32var; mret (team, slot).

Definition tag : Rd Z := v ← uvar; mret (wrap_i64 v).
End Reader.

(** [for _ in 0..r.count()? { .. }]. *)
Definition each_read {A} (body : Rd A) : Rd (list A) := n ← Reader.count; times n body.

(** ** What was written is read back

    [reads w p a]: wherever the bytes [w] (fewer of them than a [u32] counts)
    stand in the buffer, reading [p] at their start gives [a] and stops at their
    end. *)

Definition reads {A} (w : list Z) (p : Rd A) (a : A) : Prop :=
  Z.of_nat (length w) < 2 ^ 32 ->
  forall pre post, p (mkCursor (pre ++ w ++ post) (length pre)) =
    Ok (a, mkCursor (pre ++ w ++ post) (length pre + length w)).

Lemma reads_ret {A} (a : A) : reads [] (mret a) a.
Proof. intros _ pre post. unfold mret, Rd_ret. by rewrite Nat.add_0_r. Qed.

Lemma reads_small {A} w (p : Rd A) a :
  (Z.of_nat (length w) < 2 ^ 32 -> reads w p a) -> reads w p a.
Proof. intros Hr Hl. by apply Hr. Qed.

Lemma reads_bind {A B} w1 w2 (p : Rd A) (k : A -> Rd B) a b :
  reads w1 p a -> reads w2 (k a) b -> reads (w1 ++ w2) (p ≫= k) b.
Proof.
  intros H1 H2 Hl pre post. rewrite length_app in Hl. unfold mbind, Rd_bind.
  rewrite <- (app_assoc w1), H1 by lia. specialize (H2 ltac:(lia) (pre ++ w1) post). rewrite <- app_assoc, !length_app in H2. rewrite H2.
  by rewrite length_app, Nat.add_assoc.
Qed.

Lemma reads_map {A B} w (p : Rd A) (f : A -> B) a :
  reads w p a -> reads w (x ← p; mret (f x)) (f a).
Proof. intros Hp. rewrite <- (app_nil_r w). by eapply reads_bind, reads_ret. Qed.

Lemma reads_bind_ret {A B} w (p : Rd A) (k : A -> Rd B) a b :
  reads w p a -> (forall c, k a c = Ok (b, c)) -> reads w (p ≫= k) b.
Proof. intros Hp Hk Hl pre post. unfold mbind, Rd_bind. by rewrite Hp, Hk. Qed.

Lemma left_of_at pre w post : Reader.left_of (mkCursor (pre ++ w ++ post) (length pre)) = (length w + length post)%nat.
Proof. unfold Reader.left_of. cbn. rewrite !length_app. lia. Qed.

Lemma reads_take w : reads w (Reader.take (Z.of_nat (length w))) w.
Proof.
  intros _ pre post. unfold Reader.take. rewrite left_of_at.
  rewrite (proj2 (Z.ltb_ge _ _)) by lia. cbn [buf at_]. rewrite Nat2Z.id, skipn_app.
  rewrite skipn_all, Nat.sub_diag, skipn_O, app_nil_l, firstn_app, firstn_all, Nat.sub_diag, firstn_O, app_nil_r.
  done.
Qed.

Lemma reads_byte b : reads (Writer.byte b) Reader.byte b.
Proof. unfold Reader.byte. exact (reads_map [b] _ (fun l => nth 0 l 0) [b] (reads_take [b])). Qed.

Lemma le_val_le_bytes n x : 0 <= x < 256 ^ Z.of_nat n -> le_val (le_bytes n x) = x.
Proof.
  revert x. induction n as [|n IH]; intros x Hx; [cbn in *; lia|].
  rewrite Nat2Z.inj_succ, Z.pow_succ_r in Hx by lia. cbn [le_bytes le_val].
  assert (0 < 256 ^ Z.of_nat n) by (apply Z.pow_pos_nonneg; lia).
  rewrite IH; [pose proof (Z.div_mod x 256); lia|].
  split; [apply Z.div_pos; lia|]. apply Z.div_lt_upper_bound; lia.
Qed.

Lemma reads_word v : is_u32 v -> reads (Writer.u32 v) Reader.u32 v.
Proof.
  intros Hv. unfold Reader.u32, Writer.u32. rewrite <- (le_val_le_bytes 4 v) at 2 by (unfold is_u32 in Hv; cbn; lia).
  apply reads_map. rewrite <- (length_le_bytes 4 v). apply reads_take.
Qed.

(** ** Varints *)

Lemma varint_byte v :
  0 <= v -> (wrap8 v ^| 0x80) ^& 0x7f = v mod 2 ^ 7 /\ ((wrap8 v ^| 0x80) ^& 0x80 =? 0) = false.
Proof.
  intros Hv. unfold wrap8. rewrite <- !Z.land_ones by lia.
  rewrite !Z.land_lor_distr_l. split.
  - change (0x80 ^& 0x7f) with 0. rewrite Z.lor_0_r, <- Z.land_assoc. done.
  - apply Z.eqb_neq. intros H0%Z.lor_eq_0_iff. destruct H0 as [_ H0]. discriminate.
Qed.

Lemma varint_last v : 0 <= v < 0x80 -> wrap8 v ^& 0x7f = v /\ (wrap8 v ^& 0x80 =? 0) = true.
Proof.
  intros Hv. unfold wrap8. rewrite Z.mod_small by lia.
  change 0x7f with (Z.ones 7). rewrite Z.land_ones, Z.mod_small by lia. split; [done|].
  apply Z.eqb_eq. apply Z.bits_inj_0. intros i. rewrite Z.land_spec. change 0x80 with (2 ^ 7).
  destruct (Z.eq_dec i 7) as [->|Hi].
  - rewrite (proj1 (below_pow2_bits v 7 ltac:(lia) ltac:(lia))); [done|lia|lia].
  - by rewrite Z.pow2_bits_false, andb_false_r by lia.
Qed.

Lemma varint_split v shift :
  0 <= v -> 0 <= shift ->
  ((v mod 2 ^ 7) ^<< shift) ^| ((v ^>> 7) ^<< (shift + 7)) = v ^<< shift.
Proof.
  intros Hv Hs. apply Z.bits_inj'. intros i Hi. rewrite Z.lor_spec, !Z.shiftl_spec by done.
  destruct (Z.lt_ge_cases i shift) as [Hlt|Hge].
  { by rewrite !Z.testbit_neg_r by lia. }
  destruct (Z.lt_ge_cases (i - shift) 7) as [Hl|Hh].
  - rewrite Z.mod_pow2_bits_low by lia. rewrite (Z.testbit_neg_r _ (i - (shift + 7))) by lia.
    apply orb_false_r.
  - rewrite Z.mod_pow2_bits_high by lia. rewrite Z.shiftr_spec by lia. cbn [orb]. f_equal. lia.
Qed.

Lemma shiftl_small v shift : 0 <= v -> 0 <= shift -> v * 2 ^ shift < 2 ^ 64 -> wrap64 (v ^<< shift) = v ^<< shift.
Proof.
  intros Hv Hs Hlt. unfold wrap64. rewrite Z.shiftl_mul_pow2 by done. apply Z.mod_small.
  assert (0 <= 2 ^ shift) by (apply Z.pow_nonneg; lia). nia.
Qed.

Lemma reads_uvar_go n v shift out :
  0 <= v < 2 ^ (7 * Z.of_nat n) -> (n <> 0)%nat -> 0 <= shift -> v * 2 ^ shift < 2 ^ 64 ->
  reads (Writer.uvar_go n v) (Reader.uvar_go n shift out) (out ^| (v ^<< shift)).
Proof.
  revert v shift out. induction n as [|n IH]; intros v shift out Hv Hn Hs Hlt; [done|].
  cbn [Writer.uvar_go Reader.uvar_go]. destruct (Z.leb_spec 0x80 v) as [Hge|Hsm].
  - destruct (varint_byte v) as [Hm Hc]; [lia|].
    change (?b :: ?l) with (Writer.byte b ++ l). eapply reads_bind; [apply reads_byte|].
    cbn beta zeta. rewrite Hc, Hm.
    assert (Hp : 0 < 2 ^ shift) by (apply Z.pow_pos_nonneg; lia).
    pose proof (Z.mod_pos_bound v (2 ^ 7)). pose proof (Z.mod_le v (2 ^ 7)).
    rewrite shiftl_small by nia.
    rewrite <- (varint_split v shift) by lia. rewrite Z.lor_assoc. apply IH; [|..].
    + rewrite Z.shiftr_div_pow2 by lia. split; [apply Z.div_pos; lia|].
      apply Z.div_lt_upper_bound; [lia|]. rewrite <- Z.pow_add_r by lia.
      replace (7 + 7 * Z.of_nat n) with (7 * Z.of_nat (S n)) by lia. lia.
    + intros ->. cbn in Hv. lia.
    + lia.
    + rewrite Z.shiftr_div_pow2 by lia. rewrite Z.pow_add_r by lia.
      pose proof (Z.mul_div_le v (2 ^ 7)). nia.
  - destruct (varint_last v) as [Hm Hc]; [lia|].
    apply (reads_bind_ret (Writer.byte (wrap8 v)) _ _ (wrap8 v)); [apply reads_byte|]. intros c.
    cbn beta zeta. rewrite Hc, Hm, shiftl_small by lia. done.
Qed.

Lemma reads_uvar v : is_u64 v -> reads (Writer.uvar v) Reader.uvar v.
Proof.
  intros Hv. unfold is_u64 in Hv. pose proof (reads_uvar_go 10 v 0 0) as Hr.
  rewrite Z.shiftl_0_r, Z.lor_0_l in Hr. apply Hr; [|done|lia|lia].
  split; [lia|]. apply (Z.lt_le_trans _ (2 ^ 64)); [lia|]. by apply Z.leb_le.
Qed.

(** The zigzag of an [i64]: non-negatives are even, negatives odd. *)
Lemma zigzag v :
  is_i64 v ->
  wrap64 (wrap_i64 (v ^<< 1) ^^ (v ^>> 63)) = if v <? 0 then - 2 * v - 1 else 2 * v.
Proof.
  unfold is_i64. intros Hv. rewrite Z.shiftl_mul_pow2, Z.shiftr_div_pow2 by lia.
  unfold wrap_i64, wrap64. change (2 ^ 1) with 2. destruct (Z.ltb_spec v 0) as [Hn|Hn].
  - assert (v / 2 ^ 63 = -1) as -> by (symmetry; apply (Z.div_unique_pos _ _ _ (v + 2 ^ 63)); lia).
    rewrite Z.lxor_m1_r. unfold Z.lnot.
    symmetry. apply (Z.mod_unique_pos _ _ ((v * 2 + 2 ^ 63) / 2 ^ 64)); [lia|].
    pose proof (Z.div_mod (v * 2 + 2 ^ 63) (2 ^ 64)). lia.
  - rewrite (Z.div_small v) by lia. rewrite Z.lxor_0_r.
    symmetry. apply (Z.mod_unique_pos _ _ (- ((v * 2 + 2 ^ 63) / 2 ^ 64))); [lia|].
    pose proof (Z.div_mod (v * 2 + 2 ^ 63) (2 ^ 64)). lia.
Qed.

Lemma reads_ivar v : is_i64 v -> reads (Writer.ivar v) Reader.ivar v.
Proof.
  intros Hv. unfold Writer.ivar. eapply reads_bind_ret; [apply reads_uvar, wrap64_range|].
  intros c. rewrite zigzag by done. unfold mret, Rd_ret. do 2 f_equal. unfold is_i64 in Hv.
  assert (forall z, z ^& 1 = z mod 2) as -> by (intros z; by apply (Z.land_ones z 1)).
  rewrite Z.shiftr_div_pow2 by lia.
  change (2 ^ 1) with 2. unfold wrap_i64. destruct (Z.ltb_spec v 0) as [Hn|Hn].
  - assert ((-2 * v - 1) / 2 = - v - 1) as -> by (symmetry; apply (Z.div_unique_pos _ _ _ 1); lia).
    assert ((-2 * v - 1) mod 2 = 1) as -> by (symmetry; apply (Z.mod_unique_pos _ _ (- v - 1)); lia).
    rewrite Z.mod_small by lia. rewrite Z.lxor_m1_r. unfold Z.lnot. lia.
  - assert (2 * v / 2 = v) as -> by (symmetry; apply (Z.div_unique_pos _ _ _ 0); lia).
    assert ((2 * v) mod 2 = 0) as -> by (symmetry; apply (Z.mod_unique_pos _ _ v); lia).
    rewrite Z.mod_small by lia. rewrite Z.lxor_0_r. lia.
Qed.

Lemma u32_is_u64 v : is_u32 v -> is_u64 v.
Proof. unfold is_u32, is_u64. lia. Qed.

Lemma reads_u32var v : is_u32 v -> reads (Writer.uvar v) Reader.u32var v.
Proof.
  intros Hv. eapply reads_bind_ret; [by apply reads_uvar, u32_is_u64|]. intros c.
  rewrite (proj2 (Z.leb_le _ _)); [done|]. unfold is_u32 in Hv. unfold u32_max. lia.
Qed.

(** A tag is an enum's discriminant, small and not negative. *)
Lemma reads_tag v : 0 <= v < 2 ^ 63 -> reads (Writer.tag v) Reader.tag v.
Proof.
  intros Hv. unfold Writer.tag. assert (wrap64 v = v) as -> by (apply Z.mod_small; lia).
  eapply reads_bind_ret; [apply reads_uvar; unfold is_u64; lia|]. intros c.
  unfold mret, Rd_ret, wrap_i64. rewrite Z.mod_small by lia. do 2 f_equal. lia.
Qed.

Lemma reads_key k : is_u32 k.1 -> is_u32 k.2 -> reads (Writer.key k) Reader.key k.
Proof.
  destruct k as [t s]. intros Ht Hs. eapply reads_bind; [by apply reads_u32var|].
  apply (reads_map _ _ (fun s => (t, s))). by apply reads_u32var.
Qed.

(** ** Lengths

    A count is checked against the bytes that are left, so it is read together
    with the bytes of what it counts. *)

Lemma reads_counted {A} n w (k : nat -> Rd A) a :
  (n <= length w)%nat -> reads w (k n) a ->
  reads (Writer.uvar (Z.of_nat n) ++ w) (Reader.count ≫= k) a.
Proof.
  intros Hw Hk Hl pre post. rewrite length_app in Hl. unfold Reader.count, mbind, Rd_bind.
  rewrite <- (app_assoc (Writer.uvar _)), reads_uvar by (try (unfold is_u64); lia). unfold Reader.fits.
  rewrite (app_assoc pre), <- length_app, left_of_at, (proj2 (Z.ltb_ge _ _)) by lia.
  rewrite Nat2Z.id, Hk by lia. by rewrite (length_app (Writer.uvar _)), !length_app, Nat.add_assoc.
Qed.

(** [refuses w p e]: reading [p] at the bytes [w] fails with [e]. *)
Definition refuses {A} (w : list Z) (p : Rd A) (e : SaveError) : Prop :=
  Z.of_nat (length w) < 2 ^ 32 ->
  forall pre post, p (mkCursor (pre ++ w ++ post) (length pre)) = Err e.

Lemma refuses_after {A B} w1 w2 (p : Rd A) (k : A -> Rd B) a e :
  reads w1 p a -> refuses w2 (k a) e -> refuses (w1 ++ w2) (p ≫= k) e.
Proof.
  intros H1 H2 Hl pre post. rewrite length_app in Hl. unfold mbind, Rd_bind.
  rewrite <- (app_assoc w1), H1 by lia. specialize (H2 ltac:(lia) (pre ++ w1) post).
  by rewrite <- app_assoc, length_app in H2.
Qed.

Lemma refuses_bind {A B} w (p : Rd A) (k : A -> Rd B) e : refuses w p e -> refuses w (p ≫= k) e.
Proof. intros Hp Hl pre post. unfold mbind, Rd_bind. by rewrite Hp. Qed.

Lemma refuses_counted {A} n w (k : nat -> Rd A) e :
  (n <= length w)%nat -> refuses w (k n) e -> refuses (Writer.uvar (Z.of_nat n) ++ w) (Reader.count ≫= k) e.
Proof.
  intros Hw Hk Hl pre post. rewrite length_app in Hl. unfold Reader.count, mbind, Rd_bind.
  rewrite <- (app_assoc (Writer.uvar _)), reads_uvar by (try (unfold is_u64); lia).
  unfold Reader.fits. rewrite (app_assoc pre), <- length_app, left_of_at, (proj2 (Z.ltb_ge _ _)) by lia.
  by rewrite Nat2Z.id, Hk by lia.
Qed.

Lemma reads_bytes b : reads (Writer.bytes b) Reader.bytes b.
Proof. apply reads_counted; [done|]. apply reads_take. Qed.

Lemma reads_str s : utf8_string s = true -> reads (Writer.str s) Reader.str s.
Proof.
  intros Hu. unfold Writer.str. eapply reads_bind_ret; [by apply reads_bytes|]. intros c.
  unfold utf8_string in Hu. by rewrite Hu, string_of_bytes_of.
Qed.

Lemma reads_times {A} (one : A -> list Z) (p : Rd A) (l : list A) :
  Forall (fun a => reads (one a) p a) l -> reads (concat (one <$> l)) (times (length l) p) l.
Proof.
  induction 1 as [|a l Ha _ IH]; [apply reads_ret|]. cbn [length times].
  eapply (reads_bind (one a)); [done|]. by apply (reads_map _ _ (cons a)).
Qed.

Lemma concat_length {A B} (f : A -> list B) l :
  Forall (fun a => f a <> []) l -> (length l <= length (concat (f <$> l)))%nat.
Proof.
  induction 1 as [|a l Ha _ IH]; [done|]. cbn. rewrite length_app.
  destruct (f a); [done|]. cbn in *. lia.
Qed.

Lemma reads_each {A} (one : A -> list Z) (p : Rd A) (l : list A) :
  Forall (fun a => one a <> []) l -> Forall (fun a => reads (one a) p a) l ->
  reads (each_of l one) (each_read p) l.
Proof. intros Hne Hr. apply reads_counted; [by apply concat_length|by apply reads_times]. Qed.

Lemma uvar_nonempty v : Writer.uvar v <> [].
Proof. unfold Writer.uvar. cbn. by destruct (0x80 <=? v). Qed.

Lemma app_nonempty {A} (l1 l2 : list A) : l1 <> [] -> l1 ++ l2 <> [].
Proof. by destruct l1. Qed.

#[global] Arguments Writer.uvar : simpl never.
#[global] Arguments Writer.byte : simpl never.
#[global] Arguments Writer.ivar : simpl never.
#[global] Arguments Writer.tag : simpl never.
#[global] Arguments Writer.str : simpl never.
#[global] Arguments Writer.key : simpl never.
#[global] Arguments each_of : simpl never.
