(* ===== verification/Persist.v ===== *)
(** * The save directory

    [pahoa-net/src/save.rs]: the lock, reading the current save and replacing it
    through a temporary file, a rename and two syncs.  The file system is modelled
    as far as the source relies on it: files with what is on the disk and what is
    only in memory, a directory whose latest changes may be lost by a power cut,
    in the order they were made, and an exclusive lock that goes with its process.
    Any call can fail; a write can fail half way.

    The theorem is a refinement: whatever fails and wherever a process dies or the
    power is cut, what is read back is one of the whole saves an abstract store
    may hold, and exactly the last one once it was acknowledged. *)

From Stdlib Require Import ZArith Lia Bool Ascii.
From stdpp Require Import base tactics list sets gmap strings pretty.
From S2P Require Import Prelude.

(** ** The file system *)

Record File := mkFile { fl_data : list Z; fl_synced : bool }.

Abbreviation Dir := (gmap string nat).

Record Disk := mkDisk {
  dk_files : gmap nat File;
  dk_dir : Dir;
  (** The states of the directory since it was last synced, latest first. *)
  dk_older : list Dir;
  (** The next free file number. *)
  dk_next : nat;
}.

Definition set_file (i : nat) (f : File) (d : Disk) : Disk :=
  mkDisk (<[i := f]> (dk_files d)) (dk_dir d) (dk_older d) (dk_next d).

Definition set_dir (dir : Dir) (d : Disk) : Disk :=
  mkDisk (dk_files d) dir (dk_dir d :: dk_older d) (dk_next d).

(** [File::create]: an existing file is truncated. *)
Definition create (name : string) (d : Disk) : nat * Disk :=
  match dk_dir d !! name with
  | Some i => (i, set_file i (mkFile [] false) d)
  | None =>
      let i := dk_next d in
      (i, mkDisk (<[i := mkFile [] false]> (dk_files d)) (<[name := i]> (dk_dir d)) (dk_dir d :: dk_older d) (S i))
  end.

Definition write (i : nat) (bytes : list Z) (d : Disk) : Disk :=
  set_file i (mkFile (default [] (fl_data <$> dk_files d !! i) ++ bytes) false) d.

(** [sync_all] on a file, and on the directory. *)
Definition sync_file (i : nat) (d : Disk) : Disk :=
  set_file i (mkFile (default [] (fl_data <$> dk_files d !! i)) true) d.

Definition sync_dir (d : Disk) : Disk := mkDisk (dk_files d) (dk_dir d) [] (dk_next d).

Definition rename (from to : string) (d : Disk) : Disk :=
  match dk_dir d !! from with
  | Some i => set_dir (<[to := i]> (delete from (dk_dir d))) d
  | None => d
  end.

Definition remove_file (name : string) (d : Disk) : Disk := set_dir (delete name (dk_dir d)) d.

(** After a power cut the directory is one of the states since its last sync, and
    a file that was not synced holds anything. *)
Definition crash (d d' : Disk) : Prop :=
  In (dk_dir d') (dk_dir d :: dk_older d) /\ dk_older d' = [] /\ dk_next d' = dk_next d /\
  forall i f, dk_files d !! i = Some f -> fl_synced f = true -> dk_files d' !! i = Some f.

(** ** [SaveStore] *)

Definition SAVE_NAME : string := "room.save".
Definition LOCK_NAME : string := "room.lock".

Definition temp_name (pid : N) : string := "." +:+ SAVE_NAME +:+ "." +:+ pretty pid +:+ ".tmp".

(** How the calls of one [store] go; a write that fails has written some bytes. *)
Record Luck := mkLuck {
  lk_create : bool;
  lk_write : option nat;
  lk_sync : bool;
  lk_rename : bool;
  lk_sync_dir : bool;
  lk_remove : bool;
}.

(** The closure [write] of [store]: the states passed through, the last one
    first, and whether every call went well. *)
Definition write_save (temp : string) (bytes : list Z) (luck : Luck) (d : Disk) : list Disk * bool :=
  if negb (lk_create luck) then ([d], false)
  else
    let '(i, d1) := create temp d in
    match lk_write luck with
    | Some n => ([write i (take n bytes) d1; d1; d], false)
    | None =>
        let d2 := write i bytes d1 in
        if negb (lk_sync luck) then ([d2; d1; d], false)
        else
          let d3 := sync_file i d2 in
          if negb (lk_rename luck) then ([d3; d2; d1; d], false)
          else
            let d4 := rename temp SAVE_NAME d3 in
            if negb (lk_sync_dir luck) then ([d4; d3; d2; d1; d], false)
            else ([sync_dir d4; d4; d3; d2; d1; d], true)
    end.

Definition store (pid : N) (bytes : list Z) (luck : Luck) (d : Disk) : list Disk * bool :=
  let '(states, ok) := write_save (temp_name pid) bytes luck d in
  if ok || negb (lk_remove luck) then (states, ok)
  else (remove_file (temp_name pid) (hd d states) :: states, ok).

Definition load (d : Disk) : option (list Z) :=
  i ← dk_dir d !! SAVE_NAME; fl_data <$> dk_files d !! i.

(** The directory and the process that holds its lock. *)
Record Volume := mkVolume { vl_disk : Disk; vl_holder : option N }.

Inductive OpenError := AddrInUse | OpenIo.

(** [SaveStore::open]: refused, not waiting, while another process holds the
    lock. *)
Definition open (pid : N) (create_ok lock_ok : bool) (v : Volume) : result OpenError unit * Volume :=
  if negb create_ok then (Err OpenIo, v)
  else
    let d := (create LOCK_NAME (vl_disk v)).2 in
    match vl_holder v with
    | Some holder => (Err AddrInUse, mkVolume d (Some holder))
    | None => if lock_ok then (Ok tt, mkVolume d (Some pid)) else (Err OpenIo, mkVolume d None)
    end.

Definition fresh_disk : Disk := mkDisk ∅ ∅ [] 0.

(** ** What a directory may hold

    The abstract store is the list of the whole saves that reading may give:
    [None] is a room that has never saved. *)
Abbreviation Saves := (list (option (list Z))).

Inductive vstep : Volume * Saves -> Volume * Saves -> Prop :=
| v_open v saves pid create_ok lock_ok :
    vstep (v, saves) ((open pid create_ok lock_ok v).2, saves)
| v_stored d pid saves bytes luck states ok :
    store pid bytes luck d = (states, ok) ->
    vstep (mkVolume d (Some pid), saves)
      (mkVolume (hd d states) (Some pid), if ok then [Some bytes] else Some bytes :: saves)
| v_killed d pid saves bytes luck d' :
    In d' (store pid bytes luck d).1 ->
    vstep (mkVolume d (Some pid), saves) (mkVolume d' None, Some bytes :: saves)
| v_died v saves : vstep (v, saves) (mkVolume (vl_disk v) None, saves)
| v_power v saves d' : crash (vl_disk v) d' -> vstep (v, saves) (mkVolume d' None, saves).

Definition v_reachable : Volume * Saves -> Prop := rtc vstep (mkVolume fresh_disk None, [None]).

(** ** The invariant *)

Definition dirs (d : Disk) : list Dir := dk_dir d :: dk_older d.

(** What the target of a state of the directory holds is whole, on the disk, and
    allowed. *)
Definition whole (files : gmap nat File) (saves : Saves) (dir : Dir) : Prop :=
  match dir !! SAVE_NAME with
  | None => In None saves
  | Some i => exists bytes, files !! i = Some (mkFile bytes true) /\ In (Some bytes) saves
  end.

Definition injective (dir : Dir) : Prop := forall a b i, dir !! a = Some i -> dir !! b = Some i -> a = b.

Record intact (d : Disk) (saves : Saves) : Prop := mkIntact {
  in_whole : Forall (whole (dk_files d) saves) (dirs d);
  in_injective : Forall injective (dirs d);
  (** No other name of the directory is, or was, the target. *)
  in_apart : forall name i, name <> SAVE_NAME -> dk_dir d !! name = Some i ->
    Forall (fun dir : Dir => dir !! SAVE_NAME <> Some i) (dirs d);
  in_fresh : Forall (fun dir : Dir => forall name i, dir !! name = Some i -> (i < dk_next d)%nat) (dirs d);
}.

Lemma intact_incl d saves saves' : incl saves saves' -> intact d saves -> intact d saves'.
Proof.
  intros Hs [Hw Hi Ha Hf]. split; try done. eapply Forall_impl; [exact Hw|]. unfold whole. intros dir.
  case_match; [|apply Hs]. intros (bytes & ? & ?). exists bytes. split; [done|by apply Hs].
Qed.

Lemma intact_more d saves save : intact d saves -> intact d (save :: saves).
Proof. apply intact_incl, incl_tl, incl_refl. Qed.

(** A file that no state of the directory has as its target may change. *)
Lemma intact_set_file i f d saves :
  Forall (fun dir : Dir => dir !! SAVE_NAME <> Some i) (dirs d) -> intact d saves -> intact (set_file i f d) saves.
Proof.
  intros Hi [Hw Hj Ha Hf]. split; try done. change (dirs (set_file i f d)) with (dirs d). cbn [dk_files set_file].
  rewrite Forall_forall in Hi, Hw |- *. intros dir Hd. specialize (Hw dir Hd). specialize (Hi dir Hd).
  unfold whole in *. case_match; [|done]. rewrite lookup_insert_ne; [done|]. congruence.
Qed.

(** A new name for a new file. *)
Definition new_entry (name : string) (d : Disk) : Disk :=
  mkDisk (<[dk_next d := mkFile [] false]> (dk_files d)) (<[name := dk_next d]> (dk_dir d))
    (dk_dir d :: dk_older d) (S (dk_next d)).

Lemma unused_file d saves dir : intact d saves -> dir ∈ dirs d -> forall name, dir !! name <> Some (dk_next d).
Proof.
  intros H Hd name Hl. pose proof (in_fresh _ _ H) as Hf. rewrite Forall_forall in Hf.
  apply (Hf _ Hd) in Hl. lia.
Qed.

Lemma intact_new_entry name d saves : name <> SAVE_NAME -> dk_dir d !! name = None -> intact d saves ->
  intact (new_entry name d) saves /\
  Forall (fun dir : Dir => dir !! SAVE_NAME <> Some (dk_next d)) (dirs (new_entry name d)).
Proof.
  intros Hn E H. pose proof (fun dir => unused_file _ _ dir H) as Hold. destruct H as [Hw Hj Ha Hf].
  split; [split|]; (constructor; cbn [new_entry dk_dir dk_older dk_files dk_next]).
  - apply Forall_inv in Hw as Hw0. unfold whole in *. rewrite lookup_insert_ne by done. case_match; [|done].
    rewrite lookup_insert_ne; [done|]. intros <-. eapply Hold; [by left|done].
  - rewrite Forall_forall in Hw |- *. intros dir Hd. specialize (Hw dir Hd). unfold whole in *.
    case_match; [|done]. rewrite lookup_insert_ne; [done|]. intros <-. by eapply Hold.
  - apply Forall_inv in Hj. intros a b i. rewrite !lookup_insert. repeat case_decide; intros; simplify_eq; try done.
    + exfalso. eapply (Hold (dk_dir d)); [by left|done].
    + exfalso. eapply (Hold (dk_dir d)); [by left|done].
    + by eapply Hj.
  - done.
  - cbn [new_entry dk_dir] in H0. rewrite lookup_insert_ne by done. rewrite lookup_insert in H0. case_decide; simplify_eq.
    + eapply Hold. by left.
    + specialize (Ha _ _ H H0). by apply Forall_inv in Ha.
  - cbn [new_entry dk_dir] in H0. rewrite lookup_insert in H0. case_decide; simplify_eq; [|by eapply Ha].
    rewrite Forall_forall. intros dir Hd. by apply Hold.
  - intros a i. rewrite lookup_insert. apply Forall_inv in Hf. case_decide; intros; simplify_eq; [lia|].
    by apply Nat.lt_lt_succ_r, (Hf a).
  - eapply Forall_impl; [exact Hf|]. intros dir Hd a i Hl. apply Hd in Hl. lia.
  - rewrite lookup_insert_ne by done. eapply Hold. by left.
  - rewrite Forall_forall. intros dir Hd. by apply Hold.
Qed.

Lemma intact_create name d saves : name <> SAVE_NAME -> intact d saves ->
  let '(i, d1) := create name d in
  intact d1 saves /\ dk_dir d1 !! name = Some i /\ Forall (fun dir : Dir => dir !! SAVE_NAME <> Some i) (dirs d1).
Proof.
  intros Hn H. unfold create. destruct (dk_dir d !! name) as [i|] eqn:E.
  - pose proof (in_apart _ _ H _ _ Hn E) as Ha. split; [by apply intact_set_file|]. done.
  - destruct (intact_new_entry name d saves Hn E H). split; [done|]. split; [by apply lookup_insert_eq|done].
Qed.

Lemma intact_remove name d saves : name <> SAVE_NAME -> intact d saves -> intact (remove_file name d) saves.
Proof.
  intros Hn [Hw Hj Ha Hf].
  assert (Hl : forall a i, delete name (dk_dir d) !! a = Some i -> dk_dir d !! a = Some i)
    by (intros a i H; by apply lookup_delete_Some in H as [_ H]).
  split.
  - constructor; [|done]. apply Forall_inv in Hw. unfold whole in *. cbn [remove_file set_dir dk_dir dk_files].
    by rewrite lookup_delete_ne.
  - constructor; [|done]. apply Forall_inv in Hj. intros a b i H1 H2. eapply Hj; by apply Hl.
  - intros a i Hne H. apply Hl in H. specialize (Ha _ _ Hne H). constructor; [|done]. apply Forall_inv in Ha.
    cbn [remove_file set_dir dk_dir]. by rewrite lookup_delete_ne.
  - constructor; [|done]. apply Forall_inv in Hf. intros a i H. eapply Hf, Hl, H.
Qed.

(** The directory after the rename. *)
Definition renamed (temp : string) (i : nat) (dir : Dir) : Dir := <[SAVE_NAME := i]> (delete temp dir).

Lemma renamed_old temp i dir a k : a <> SAVE_NAME -> renamed temp i dir !! a = Some k ->
  dir !! a = Some k /\ a <> temp.
Proof.
  intros Hne. unfold renamed. rewrite lookup_insert_ne by done. intros H.
  by apply lookup_delete_Some in H as [? ?].
Qed.

Lemma renamed_target temp i dir : renamed temp i dir !! SAVE_NAME = Some i.
Proof. apply lookup_insert_eq. Qed.

Lemma renamed_injective temp i dir : dir !! temp = Some i -> injective dir -> injective (renamed temp i dir).
Proof.
  intros Ht Hj a b k H1 H2. pose proof (renamed_target temp i dir) as Hs.
  destruct (decide (a = SAVE_NAME)) as [->|Hna], (decide (b = SAVE_NAME)) as [->|Hnb]; [done| | |].
  - rewrite Hs in H1. simplify_eq. apply renamed_old in H2 as [H2 Hbt]; [|done]. by rewrite (Hj _ _ _ H2 Ht) in Hbt.
  - rewrite Hs in H2. simplify_eq. apply renamed_old in H1 as [H1 Hat]; [|done]. by rewrite (Hj _ _ _ H1 Ht) in Hat.
  - apply renamed_old in H1 as [H1 _], H2 as [H2 _]; try done. by eapply Hj.
Qed.

Lemma intact_rename temp i bytes d saves : temp <> SAVE_NAME -> dk_dir d !! temp = Some i ->
  dk_files d !! i = Some (mkFile bytes true) -> intact d saves ->
  intact (rename temp SAVE_NAME d) (Some bytes :: saves) /\
  intact (sync_dir (rename temp SAVE_NAME d)) [Some bytes].
Proof.
  intros Hn Ht Hfile H. pose proof (intact_more _ _ (Some bytes) H) as [Hw Hj Ha Hf]. clear H.
  unfold rename. rewrite Ht. change (<[SAVE_NAME := i]> (delete temp (dk_dir d))) with (renamed temp i (dk_dir d)).
  pose proof (renamed_target temp i (dk_dir d)) as Hs.
  assert (Hj1 : injective (renamed temp i (dk_dir d))) by (apply renamed_injective; [done|by apply Forall_inv in Hj]).
  assert (Hw1 : forall saves', In (Some bytes) saves' -> whole (dk_files d) saves' (renamed temp i (dk_dir d)))
    by (intros saves' Hin; unfold whole; rewrite Hs; by exists bytes).
  assert (Hf1 : forall a k, renamed temp i (dk_dir d) !! a = Some k -> (k < dk_next d)%nat).
  { apply Forall_inv in Hf. intros a k H1. destruct (decide (a = SAVE_NAME)) as [->|Hne].
    - rewrite Hs in H1. simplify_eq. by eapply Hf.
    - apply renamed_old in H1 as [H1 _]; [|done]. by eapply Hf. }
  assert (Ha1 : forall a k, a <> SAVE_NAME -> renamed temp i (dk_dir d) !! a = Some k ->
    Forall (fun dir : Dir => dir !! SAVE_NAME <> Some k) (renamed temp i (dk_dir d) :: dirs d)).
  { intros a k Hne H1. constructor; [|apply renamed_old in H1 as [H1 _]; [by eapply Ha|done]].
    rewrite Hs. intros [= ->]. by pose proof (Hj1 _ _ _ H1 Hs). }
  split; apply mkIntact.
  - constructor; [apply Hw1; by left|done].
  - by constructor.
  - exact Ha1.
  - by constructor.
  - constructor; [apply Hw1; by left|done].
  - by constructor.
  - intros a k Hne H1. constructor; [|done]. by apply Ha1, Forall_inv in H1.
  - by constructor.
Qed.

Lemma intact_crash d d' saves : intact d saves -> crash d d' -> intact d' saves.
Proof.
  intros [Hw Hj Ha Hf] (Hin & Ho & Hn & Hfiles). rewrite Forall_forall in Hw, Hj, Hf.
  apply list_elem_of_In in Hin. fold (dirs d) in Hin.
  split; unfold dirs; rewrite Ho; rewrite ?Hn.
  - constructor; [|done]. specialize (Hw _ Hin). unfold whole in *. case_match; [|done].
    destruct Hw as (bytes & Hl & Hs). exists bytes. split; [by apply (Hfiles _ _ Hl)|done].
  - constructor; [|done]. by apply Hj.
  - intros a i Hne Hl. constructor; [|done]. intros Hs. apply Hne. by eapply (Hj _ Hin).
  - constructor; [|done]. by apply Hf.
Qed.

Lemma intact_load d saves : intact d saves -> In (load d) saves.
Proof.
  intros [Hw _ _ _]. apply Forall_inv in Hw. unfold whole, load in *. destruct (dk_dir d !! SAVE_NAME) as [i|]; [|done].
  destruct Hw as (bytes & Hl & Hs). cbn. by rewrite Hl.
Qed.

Lemma temp_is_not_save pid : temp_name pid <> SAVE_NAME.
Proof. intros H. apply (f_equal (String.get 0)) in H. vm_compute in H. discriminate. Qed.

Lemma lock_is_not_save : LOCK_NAME <> SAVE_NAME.
Proof. discriminate. Qed.

#[export] Hint Resolve temp_is_not_save lock_is_not_save : core.

Ltac all_intact := cbn [fst]; repeat (apply Forall_cons; split; [by auto|]); apply Forall_nil; exact I.

Lemma synced_file temp i bytes d d1 : create temp d = (i, d1) ->
  dk_files (sync_file i (write i bytes d1)) !! i = Some (mkFile bytes true).
Proof.
  intros Ec. unfold sync_file, write, set_file. cbn [dk_files]. rewrite !lookup_insert_eq. cbn.
  assert (Hempty : dk_files d1 !! i = Some (mkFile [] false)); [|by rewrite Hempty].
  unfold create in Ec. destruct (dk_dir d !! temp); simplify_eq; apply lookup_insert_eq.
Qed.

(** Every state a write passes through is intact, with the new save allowed; the
    last of a write that went well allows nothing else. *)
Lemma write_save_intact temp bytes luck d saves : temp <> SAVE_NAME -> intact d saves ->
  Forall (fun d' => intact d' (Some bytes :: saves)) (write_save temp bytes luck d).1 /\
  ((write_save temp bytes luck d).2 = true -> intact (hd d (write_save temp bytes luck d).1) [Some bytes]).
Proof.
  intros Hn H. pose proof (intact_more _ _ (Some bytes) H) as H0. unfold write_save.
  destruct (lk_create luck); cbn [negb]; [|split; [all_intact|done]].
  pose proof (intact_create temp d _ Hn H0) as Hc. destruct (create temp d) as [i d1] eqn:Ec.
  destruct Hc as (H1 & Hl & Hd).
  assert (H2 : forall b, intact (write i b d1) (Some bytes :: saves)) by (intros b; by apply intact_set_file).
  destruct (lk_write luck) as [n|]; [split; [all_intact|done]|].
  destruct (lk_sync luck); cbn [negb]; [|split; [all_intact|done]].
  set (d3 := sync_file i (write i bytes d1)).
  assert (H3 : intact d3 (Some bytes :: saves)) by (apply intact_set_file; [done|apply H2]).
  assert (Hfile : dk_files d3 !! i = Some (mkFile bytes true)) by (by eapply synced_file).
  destruct (lk_rename luck); cbn [negb]; [|split; [all_intact|done]].
  destruct (intact_rename temp i bytes d3 _ Hn Hl Hfile H3) as [H4 H5].
  assert (H4' : intact (rename temp SAVE_NAME d3) (Some bytes :: saves))
    by (eapply intact_incl; [|exact H4]; intros x Hx; cbn in *; tauto).
  assert (H5' : intact (sync_dir (rename temp SAVE_NAME d3)) (Some bytes :: saves))
    by (eapply intact_incl; [|exact H5]; intros x Hx; cbn in *; tauto).
  destruct (lk_sync_dir luck); cbn [negb]; (split; [all_intact|done]).
Qed.

Lemma store_intact pid bytes luck d saves : intact d saves ->
  Forall (fun d' => intact d' (Some bytes :: saves)) (store pid bytes luck d).1 /\
  ((store pid bytes luck d).2 = true -> intact (hd d (store pid bytes luck d).1) [Some bytes]).
Proof.
  intros H. destruct (write_save_intact (temp_name pid) bytes luck d saves ltac:(auto) H) as [Hs Hok].
  unfold store. destruct (write_save (temp_name pid) bytes luck d) as [states ok]. cbn [fst snd] in *.
  destruct ok; cbn [orb negb fst snd]; [done|]. destruct (lk_remove luck); cbn [negb fst snd]; [|done].
  split; [|done]. constructor; [|done]. apply intact_remove; [auto|].
  destruct states as [|d' states]; [by apply intact_more|]. by apply Forall_inv in Hs.
Qed.

Lemma intact_open pid create_ok lock_ok v saves :
  intact (vl_disk v) saves -> intact (vl_disk (open pid create_ok lock_ok v).2) saves.
Proof.
  intros H. unfold open. destruct create_ok; cbn [negb]; [|done].
  pose proof (intact_create LOCK_NAME (vl_disk v) saves ltac:(auto) H) as Hc.
  destruct (create LOCK_NAME (vl_disk v)) as [i d1]. destruct Hc as [Hc _].
  destruct (vl_holder v); [done|]. by destruct lock_ok.
Qed.

Lemma intact_step x y : vstep x y -> intact (vl_disk x.1) x.2 -> intact (vl_disk y.1) y.2.
Proof.
  intros Hstep H. destruct Hstep; cbn [fst snd vl_disk] in *.
  - by apply intact_open.
  - destruct (store_intact pid bytes luck d saves H) as [Hs Hok]. rewrite H0 in Hs, Hok. cbn [fst snd] in *.
    destruct ok; [by apply Hok|]. destruct states as [|d' states]; [by apply intact_more|]. by apply Forall_inv in Hs.
  - destruct (store_intact pid bytes luck d saves H) as [Hs _]. rewrite Forall_forall in Hs.
    by apply Hs, list_elem_of_In.
  - done.
  - by eapply intact_crash.
Qed.

Lemma intact_reachable x : v_reachable x -> intact (vl_disk x.1) x.2.
Proof.
  unfold v_reachable. intros H. remember (mkVolume fresh_disk None, [None]) as x0 eqn:E.
  assert (H0 : intact (vl_disk x0.1) x0.2).
  { subst. split; (constructor; [|done]) || idtac; cbn; try done. by left. }
  clear E. induction H as [|x y z Hxy _ IH]; [done|]. apply IH. by eapply intact_step.
Qed.

(** C7: Saves are never torn or lost.  Whatever processes do with a save directory
    (claim it, store, fail at any call, die anywhere inside a store) and wherever
    the power is cut, what is read back is one of the whole saves the abstract
    store may hold: the last acknowledged one, or one whose store came after it
    and was not acknowledged.  A further power cut does not change that, and after
    an acknowledged store it is that save and no other. *)
Theorem saves_are_never_torn v saves pid bytes luck states :
  v_reachable (v, saves) ->
  In (load (vl_disk v)) saves /\
  (forall d', crash (vl_disk v) d' -> In (load d') saves) /\
  (store pid bytes luck (vl_disk v) = (states, true) ->
   load (hd (vl_disk v) states) = Some bytes /\
   forall d', crash (hd (vl_disk v) states) d' -> load d' = Some bytes).
Proof.
  intros H. apply intact_reachable in H. cbn [fst snd] in H.
  assert (Hone : forall d, intact d [Some bytes] -> load d = Some bytes)
    by (intros d Hd; apply intact_load in Hd as [?|[]]; done).
  split; [by apply intact_load|]. split; [intros d' Hd; by eapply intact_load, intact_crash|].
  intros Hst. destruct (store_intact pid bytes luck _ saves H) as [_ Hok]. rewrite Hst in Hok. cbn [fst snd] in Hok.
  specialize (Hok eq_refl). split; [by apply Hone|]. intros d' Hd. by eapply Hone, intact_crash.
Qed.

(** A directory claimed by process 7, with one save in it. *)
Definition lucky : Luck := mkLuck true None true true true true.

(** When no call fails the store is acknowledged. *)
Lemma lucky_stores pid bytes d : store pid bytes lucky d = ((store pid bytes lucky d).1, true).
Proof. unfold store, write_save. cbn [lucky lk_create lk_write lk_sync lk_rename lk_sync_dir negb]. by destruct (create (temp_name pid) d). Qed.

Definition claimed : Disk := vl_disk (open 7 true true (mkVolume fresh_disk None)).2.
Definition saved_once : Disk := hd claimed (store 7 [1; 2; 3] lucky claimed).1.

Lemma saves_are_never_torn_witness :
  load (hd saved_once (store 7 [4; 5] lucky saved_once).1) = Some [4; 5] /\
  forall d', crash saved_once d' -> In (load d') [Some [1; 2; 3]].
Proof.
  assert (H : v_reachable (mkVolume saved_once (Some 7%N), [Some [1; 2; 3]])).
  { eapply rtc_l; [exact (v_open (mkVolume fresh_disk None) [None] 7 true true)|].
    eapply rtc_l; [|apply rtc_refl].
    exact (v_stored claimed 7 [None] [1; 2; 3] lucky _ true (lucky_stores 7 [1; 2; 3] claimed)). }
  destruct (saves_are_never_torn (mkVolume saved_once (Some 7%N)) [Some [1; 2; 3]] 7 [4; 5] lucky
    (store 7 [4; 5] lucky saved_once).1 H) as (_ & Hc & Hst).
  split; [exact (proj1 (Hst (lucky_stores 7 [4; 5] saved_once)))|exact Hc].
Defined.
