(* ===== verification/Journal.v ===== *)
(** * The room's history

    [pahoa-net/src/journal.rs]: the bounded channel between the actor and the
    writer thread, the thread's loop with its flushes and its gap records, and the
    text of a line.  Offering a record, each turn of the loop, and each access to
    the shared counter of drops are separate steps, so that the two threads
    interleave as they do; writes and flushes may fail.

    The theorems: what the file says adds up to what was offered and nothing rests
    in the buffer of a writer that waits for good; the names in a line are read
    back exactly; and (against the note in a gap record) a gap can be written
    above records that were offered before the loss. *)

From Stdlib Require Import ZArith Lia Bool Ascii SpecFloat.
From stdpp Require Import base tactics list gmap strings pretty relations.
From S2P Require Import Prelude Types PyObj Locations Datapackage Multidata Json Effects.

(** ** A line *)

Definition quote_char : ascii := ascii_of_nat 34.
Definition backslash_char : ascii := ascii_of_nat 92.

(** [escape]: every byte of a character outside ASCII is itself. *)
Definition escape_char (c : ascii) : string :=
  if bool_decide (c = quote_char) then String backslash_char (String quote_char EmptyString)
  else if bool_decide (c = backslash_char) then String backslash_char (String backslash_char EmptyString)
  else if bool_decide (c = ascii_of_nat 10) then String backslash_char "n"
  else if bool_decide (c = ascii_of_nat 13) then String backslash_char "r"
  else if bool_decide (c = ascii_of_nat 9) then String backslash_char "t"
  else if Z.of_N (N_of_ascii c) <? 0x20 then String backslash_char (String "u" (hex 4 (Z.of_N (N_of_ascii c)) EmptyString))
  else String c EmptyString.

Fixpoint escape (s : string) : string :=
  match s with
  | EmptyString => EmptyString
  | String c s => escape_char c +:+ escape s
  end.

Definition quote : string := String quote_char EmptyString.
Definition newline : string := String (ascii_of_nat 10) EmptyString.

(** A member of an object, [,"name":value]. *)
Definition member (name value : string) : string := str_concat [quote; name; quote; ":"%string; value].
Definition quoted (s : string) : string := str_concat [quote; escape s; quote].

Definition object (members : list string) : string :=
  str_concat ["{"%string; String.concat "," members; "}"%string].

Section render.
(** [format!("{:.3}")] of a float. *)
Context (fixed3 : f64 -> string) (data : MultiData) (names : DataPackage).

Definition slot_name (slot : Z) : string := default "?"%string (ns_name <$> slot_info data !! slot).

Definition game_of (slot : Z) : option GameNames :=
  info ← slot_info data !! slot; games names !! ns_game info.

Definition render_item (r : CheckRecord) : string :=
  match game_of (cr_receiver r) with
  | Some g => item_name g (cr_item r)
  | None => str_concat ["Unknown item (ID:"; pretty (cr_item r); ")"]
  end.

Definition render_location (r : CheckRecord) : string :=
  match game_of (cr_finder r) with
  | Some g => location_name g (cr_location r)
  | None => str_concat ["Unknown location (ID:"; pretty (cr_location r); ")"]
  end.

Definition line_members (r : CheckRecord) : list string :=
         [member "type" (quoted "check"); member "at" (fixed3 (cr_at r));
          member "finder" (pretty (cr_finder r)); member "finder_name" (quoted (slot_name (cr_finder r)));
          member "receiver" (pretty (cr_receiver r)); member "receiver_name" (quoted (slot_name (cr_receiver r)));
          member "item" (pretty (cr_item r)); member "item_name" (quoted (render_item r));
          member "location" (pretty (cr_location r)); member "location_name" (quoted (render_location r));
          member "flags" (pretty (cr_flags r))].

Definition render (r : CheckRecord) : string := object (line_members r) +:+ newline.
End render.

(** A gap record: with a note while the writer runs, without one at the end. *)
Definition GAP_NOTE : string := "the journal could not keep up; this many checks are missing above".
Definition gap_line (note : bool) (dropped : Z) : string :=
  object ([member "type" (quoted "gap"); member "dropped" (pretty dropped)] ++
          if note then [member "note" (quoted GAP_NOTE)] else []) +:+ newline.

(** ** The channel and the writer *)

Definition MAX_CAPACITY : Z := 2 ^ 19.
Definition EVENT_HEADROOM : Z := 8192.
Definition FLUSH_EVERY : nat := 1024.

Definition capacity_for (locations : Z) : Z := Z.min (Z.min (locations + EVENT_HEADROOM) u64_max) MAX_CAPACITY.

Section thread.
Context {HJson : Json}.

Inductive Message := MCheck (r : CheckRecord) | MEvent (e : JournalEvent) | MFlush.

Definition is_flush (m : Message) : bool := match m with MFlush => true | _ => false end.

(** A line of the file: the line of a message, or a gap. *)
Inductive Line := LMessage (m : Message) | LGap (note : bool) (dropped : Z).

(** The text of a line; [value_text] is [Value::to_string]. *)
Definition line_text (fixed3 : f64 -> string) (value_text : Value -> string) (data : MultiData) (names : DataPackage)
    (l : Line) : string :=
  match l with
  | LMessage (MCheck r) => render fixed3 data names r
  | LMessage (MEvent e) => value_text (event_value e) +:+ newline
  | LMessage MFlush => EmptyString
  | LGap note dropped => gap_line note dropped
  end.

(** Where the writer is: in [recv], with a message, before its look at the
    counter, past its loop, gone. *)
Inductive WriterPc := Waiting | Got (m : Message) | Reporting | Closing | Finished.

Record Journal := mkJournal {
  jn_queue : list Message;
  jn_dropped : Z;
  (** Whether a handle is left that could send more. *)
  jn_handles : bool;
  jn_pc : WriterPc;
  jn_since_flush : nat;
  jn_reported : Z;
  jn_buffer : list Line;
  jn_file : list Line;
}.

Definition journal_open : Journal := mkJournal [] 0 true Waiting 0 0 [] [].

Context (capacity : nat).

Definition has_room (j : Journal) : bool := (length (jn_queue j) <? capacity)%nat.

(** [record], [event] and [flush]: they never block. *)
Definition offer (m : Message) (j : Journal) : Journal :=
  if has_room j then
    mkJournal (jn_queue j ++ [m]) (jn_dropped j) (jn_handles j) (jn_pc j) (jn_since_flush j)
      (jn_reported j) (jn_buffer j) (jn_file j)
  else if is_flush m then j
  else mkJournal (jn_queue j) (wrap64 (jn_dropped j + 1)) (jn_handles j) (jn_pc j) (jn_since_flush j)
         (jn_reported j) (jn_buffer j) (jn_file j).

(** The last handle is dropped. *)
Definition close_handles (j : Journal) : Journal :=
  mkJournal (jn_queue j) (jn_dropped j) false (jn_pc j) (jn_since_flush j) (jn_reported j) (jn_buffer j) (jn_file j).

Definition goto (pc : WriterPc) (j : Journal) : Journal :=
  mkJournal (jn_queue j) (jn_dropped j) (jn_handles j) pc (jn_since_flush j) (jn_reported j) (jn_buffer j) (jn_file j).

Definition since (n : nat) (j : Journal) : Journal :=
  mkJournal (jn_queue j) (jn_dropped j) (jn_handles j) (jn_pc j) n (jn_reported j) (jn_buffer j) (jn_file j).

(** [write_all] and [flush] on the [BufWriter]. *)
Definition put_line (ok : bool) (l : Line) (j : Journal) : Journal :=
  if ok then mkJournal (jn_queue j) (jn_dropped j) (jn_handles j) (jn_pc j) (jn_since_flush j) (jn_reported j)
               (jn_buffer j ++ [l]) (jn_file j)
  else j.

Definition flush_out (ok : bool) (j : Journal) : Journal :=
  if ok then mkJournal (jn_queue j) (jn_dropped j) (jn_handles j) (jn_pc j) (jn_since_flush j) (jn_reported j)
               [] (jn_file j ++ jn_buffer j)
  else j.

Definition reported (n : Z) (j : Journal) : Journal :=
  mkJournal (jn_queue j) (jn_dropped j) (jn_handles j) (jn_pc j) (jn_since_flush j) n (jn_buffer j) (jn_file j).

(** The gap record, when the counter has moved. *)
Definition report_gap (note ok : bool) (j : Journal) : Journal :=
  if jn_reported j <? jn_dropped j
  then reported (jn_dropped j) (put_line ok (LGap note (jn_dropped j - jn_reported j)) j)
  else j.

(** One step of [run]; [None] is a writer that waits, or is gone.  [timeout] is
    whether [recv_timeout] has run out. *)
Definition writer_step (write_ok flush_ok timeout : bool) (j : Journal) : option Journal :=
  match jn_pc j with
  | Waiting =>
      match jn_queue j with
      | m :: queue =>
          Some (mkJournal queue (jn_dropped j) (jn_handles j) (Got m) (jn_since_flush j) (jn_reported j)
                  (jn_buffer j) (jn_file j))
      | [] =>
          if negb (jn_handles j) then Some (goto Closing j)
          else if timeout && negb (jn_since_flush j =? 0)%nat then Some (since 0 (flush_out flush_ok j))
          else None
      end
  | Got MFlush => Some (goto Reporting (since 0 (flush_out flush_ok j)))
  | Got m =>
      if negb write_ok then Some (goto Waiting j)
      else
        let j := since (S (jn_since_flush j)) (put_line true (LMessage m) j) in
        Some (goto Reporting (if (FLUSH_EVERY <=? jn_since_flush j)%nat then since 0 (flush_out flush_ok j) else j))
  | Reporting =>
      Some (goto Waiting (if jn_reported j <? jn_dropped j
                          then since (S (jn_since_flush j)) (report_gap true write_ok j) else j))
  | Closing => Some (goto Finished (flush_out flush_ok (report_gap false write_ok j)))
  | Finished => None
  end.

(** ** The runs of a healthy disk

    With what the channel accepted, in order, and how many records it refused. *)
Inductive healthy : list Message -> Z -> Journal -> Prop :=
| h_open : healthy [] 0 journal_open
| h_accept accepted refused j m : healthy accepted refused j -> jn_handles j = true -> has_room j = true ->
    healthy (accepted ++ [m]) refused (offer m j)
| h_refuse accepted refused j m : healthy accepted refused j -> jn_handles j = true -> has_room j = false ->
    healthy accepted (if is_flush m then refused else refused + 1) (offer m j)
| h_step accepted refused j timeout j' : healthy accepted refused j -> writer_step true true timeout j = Some j' ->
    healthy accepted refused j'
| h_close accepted refused j : healthy accepted refused j -> healthy accepted refused (close_handles j).

(** ** What the file says *)

Definition records (ms : list Message) : list Message := List.filter (fun m => negb (is_flush m)) ms.
Definition messages_of (ls : list Line) : list Message := omap (fun l => match l with LMessage m => Some m | LGap _ _ => None end) ls.
Definition gaps_of (ls : list Line) : Z := fold_right (fun l n => match l with LGap _ d => d + n | LMessage _ => n end) 0 ls.
Definition written (j : Journal) : list Line := jn_file j ++ jn_buffer j.
Definition in_hand (pc : WriterPc) : list Message := match pc with Got m => [m] | _ => [] end.

Record accounted (accepted : list Message) (refused : Z) (j : Journal) : Prop := mkAccounted {
  ac_messages : messages_of (written j) ++ records (in_hand (jn_pc j)) ++ records (jn_queue j) = records accepted;
  ac_dropped : jn_dropped j = wrap64 refused;
  ac_refused : 0 <= refused;
  ac_reported : gaps_of (written j) = jn_reported j;
  ac_bound : refused < 2 ^ 64 -> jn_reported j <= jn_dropped j;
  ac_fresh : jn_since_flush j = 0%nat -> jn_buffer j = [];
  ac_closing : jn_pc j = Closing \/ jn_pc j = Finished -> jn_queue j = [] /\ jn_handles j = false;
  ac_finished : refused < 2 ^ 64 -> jn_pc j = Finished -> jn_buffer j = [] /\ jn_reported j = jn_dropped j;
}.

Lemma messages_of_app a b : messages_of (a ++ b) = messages_of a ++ messages_of b.
Proof. apply omap_app. Qed.

Lemma gaps_of_app a b : gaps_of (a ++ b) = gaps_of a + gaps_of b.
Proof. unfold gaps_of. induction a as [|[m|note d] a IH]; cbn; lia. Qed.

Lemma written_put l j : written (put_line true l j) = written j ++ [l].
Proof. unfold written, put_line. cbn. by rewrite (assoc_L app). Qed.

Lemma written_flush j : written (flush_out true j) = written j.
Proof. unfold written, flush_out. cbn. by rewrite app_nil_r. Qed.

(** A step leaves the written lines alone, or adds one. *)
Lemma written_same (j : Journal) pc n d : written (goto pc (since n (reported d j))) = written j.
Proof. done. Qed.

Lemma accounted_offer accepted refused j m : accounted accepted refused j -> jn_handles j = true ->
  accounted (if has_room j then accepted ++ [m] else accepted)
    (if has_room j || is_flush m then refused else refused + 1) (offer m j).
Proof.
  intros [Hm Hd Hn Hr Hb Hf Hc He] Hh. unfold offer. destruct (has_room j); cbn [orb].
  - split; try done.
    + change (written _) with (written j). cbn [jn_pc jn_queue]. unfold records in *. rewrite !List.filter_app, <-Hm.
      by rewrite !(assoc_L app).
    + intros Hp. apply Hc in Hp as [_ Hp]. congruence.
  - destruct (is_flush m); [by split|]. split; cbn [jn_dropped jn_reported jn_pc jn_buffer jn_since_flush jn_queue jn_handles]; try done; try lia.
    + rewrite Hd, wrap64_add. done.
    + intros Hlt. assert (E : jn_dropped j = refused) by (rewrite Hd; apply wrap64_id; unfold is_u64; lia).
      specialize (Hb ltac:(lia)). rewrite E in *. rewrite wrap64_id; unfold is_u64; lia.
    + intros Hlt Hp. destruct (Hc (or_intror Hp)). congruence.
Qed.

Lemma accounted_close accepted refused j : accounted accepted refused j -> accounted accepted refused (close_handles j).
Proof. intros [Hm Hd Hn Hr Hb Hf Hc He]. split; try done. intros Hp. by destruct (Hc Hp). Qed.

Ltac fields := cbn [jn_queue jn_dropped jn_handles jn_pc jn_since_flush jn_reported jn_buffer jn_file
  goto since reported flush_out put_line close_handles report_gap in_hand List.filter is_flush negb app] in *.
Ltac by_fields := unfold written, records in *; fields;
  repeat match goal with
  | E : jn_queue ?j = _ |- context [jn_queue ?j] => rewrite E
  | E : jn_pc ?j = _ |- context [jn_pc ?j] => rewrite E
  end; fields; repeat match goal with E : context [_ ++ []] |- _ => rewrite app_nil_r in E end; rewrite ?app_nil_r;
  first [assumption | done | intros [?|?]; congruence | intros; congruence].

(** Taking a message, going idle and leaving the loop. *)
Lemma accounted_waiting accepted refused j timeout j' : accounted accepted refused j -> jn_pc j = Waiting ->
  writer_step true true timeout j = Some j' -> accounted accepted refused j'.
Proof.
  intros [Hm Hd Hn Hr Hb Hf Hc He] Ep Hs. unfold writer_step in Hs. rewrite Ep in Hs, Hm.
  destruct (jn_queue j) as [|m queue] eqn:Eq.
  - destruct (jn_handles j) eqn:Eh; cbn [negb] in Hs.
    + destruct (timeout && _); [|done]. injection Hs as <-. split; by_fields.
    + injection Hs as <-. split; by_fields.
  - injection Hs as <-. split; try by_fields.
    fields. rewrite <-Hm. change (written _) with (written j). by destruct m.
Qed.

(** Writing a line and flushing. *)
Lemma accounted_got accepted refused j m timeout j' : accounted accepted refused j -> jn_pc j = Got m ->
  writer_step true true timeout j = Some j' -> accounted accepted refused j'.
Proof.
  intros [Hm Hd Hn Hr Hb Hf Hc He] Ep Hs. unfold writer_step in Hs. rewrite Ep in Hs, Hm.
  destruct (is_flush m) eqn:Em.
  - destruct m; try done. injection Hs as <-. split; by_fields.
  - assert (Hm' : messages_of (written j ++ [LMessage m]) ++ records [] ++ records (jn_queue j) = records accepted).
    { rewrite messages_of_app, <-(assoc_L app). rewrite <-Hm. cbn. by rewrite Em. }
    assert (Hr' : gaps_of (written j ++ [LMessage m]) = jn_reported j) by (rewrite gaps_of_app; cbn; lia).
    unfold written in Hm', Hr'. rewrite <-(assoc_L app) in Hm', Hr'.
    assert (j' = goto Reporting (let j1 := since (S (jn_since_flush j)) (put_line true (LMessage m) j) in
      if (FLUSH_EVERY <=? jn_since_flush j1)%nat then since 0 (flush_out true j1) else j1)) as ->
      by (destruct m; try done; by injection Hs as <-).
    cbn zeta. destruct (_ <=? _)%nat; split; try by_fields.
Qed.

(** The gap record. *)
Lemma reported_gap accepted refused j note : accounted accepted refused j ->
  messages_of (written (report_gap note true j)) = messages_of (written j) /\
  gaps_of (written (report_gap note true j)) = jn_reported (report_gap note true j) /\
  (refused < 2 ^ 64 -> jn_reported (report_gap note true j) = jn_dropped j).
Proof.
  intros H. pose proof (ac_reported _ _ _ H) as Hr. pose proof (ac_bound _ _ _ H) as Hb. unfold report_gap.
  destruct (Z.ltb_spec (jn_reported j) (jn_dropped j)).
  - change (written (reported ?n ?k)) with (written k). rewrite written_put, messages_of_app, gaps_of_app, Hr.
    cbn. rewrite app_nil_r. split; [done|]. split; [lia|done].
  - split; [done|]. split; [done|]. intros Hlt. specialize (Hb Hlt). lia.
Qed.

Lemma accounted_reporting accepted refused j timeout j' : accounted accepted refused j -> jn_pc j = Reporting ->
  writer_step true true timeout j = Some j' -> accounted accepted refused j'.
Proof.
  intros H Ep Hs. destruct (reported_gap _ _ _ true H) as (Gm & Gr & Gd).
  destruct H as [Hm Hd Hn Hr Hb Hf Hc He]. unfold writer_step in Hs. rewrite Ep in Hs, Hm. injection Hs as <-.
  unfold report_gap in Gm, Gr, Gd. destruct (Z.ltb_spec (jn_reported j) (jn_dropped j)) as [Hlt|Hle].
  - assert (Hg : report_gap true true j = reported (jn_dropped j) (put_line true (LGap true (jn_dropped j - jn_reported j)) j))
      by (unfold report_gap; destruct (Z.ltb_spec (jn_reported j) (jn_dropped j)); [done|lia]).
    rewrite Hg. split; by_fields.
  - split; by_fields.
Qed.

Lemma accounted_closing accepted refused j timeout j' : accounted accepted refused j -> jn_pc j = Closing ->
  writer_step true true timeout j = Some j' -> accounted accepted refused j'.
Proof.
  intros H Ep Hs. destruct (reported_gap _ _ _ false H) as (Gm & Gr & Gd).
  destruct H as [Hm Hd Hn Hr Hb Hf Hc He]. unfold writer_step in Hs. rewrite Ep in Hs, Hm. injection Hs as <-.
  set (k := report_gap false true j) in *.
  assert (Hk : jn_queue k = jn_queue j /\ jn_dropped k = jn_dropped j /\ jn_handles k = jn_handles j)
    by (unfold k, report_gap; by destruct (_ <? _)).
  destruct Hk as (Kq & Kd & Kh).
  match goal with |- accounted _ _ ?x => assert (Kw : written x = written k) by exact (written_flush k) end.
  split; rewrite ?Kw; clear Kw; fields.
  - by rewrite Gm, Kq.
  - by rewrite Kd.
  - done.
  - done.
  - rewrite Kd. intros Hlt. specialize (Gd Hlt). lia.
  - done.
  - rewrite Kq, Kh. naive_solver.
  - rewrite Kd. intros Hlt _. specialize (Gd Hlt). done.
Qed.

Lemma accounted_healthy accepted refused j : healthy accepted refused j -> accounted accepted refused j.
Proof.
  induction 1 as [|accepted refused j m H IH Hh Hr|accepted refused j m H IH Hh Hr|accepted refused j timeout j' H IH Hs|accepted refused j H IH].
  - split; try done. intros [?|?]; done.
  - pose proof (accounted_offer _ _ _ m IH Hh) as Ho. by rewrite Hr in Ho.
  - pose proof (accounted_offer _ _ _ m IH Hh) as Ho. by rewrite Hr in Ho.
  - destruct (jn_pc j) as [|m| | |] eqn:Ep.
    + by eapply accounted_waiting.
    + by eapply accounted_got.
    + by eapply accounted_reporting.
    + by eapply accounted_closing.
    + unfold writer_step in Hs. by rewrite Ep in Hs.
  - by apply accounted_close.
Qed.

(** ** The writer finishes *)

(** The writer left to itself, and a bound on what is left for it to do. *)
Fixpoint write_out (fuel : nat) (j : Journal) : Journal :=
  match fuel with
  | O => j
  | S fuel => match writer_step true true false j with Some j => write_out fuel j | None => j end
  end.

Definition left_to_do (j : Journal) : nat :=
  (3 * length (jn_queue j) +
   match jn_pc j with Waiting => 2 | Got _ => 4 | Reporting => 3 | Closing => 1 | Finished => 0 end)%nat.

Lemma writer_works j : jn_handles j = false -> jn_pc j <> Finished ->
  exists j', writer_step true true false j = Some j' /\ jn_handles j' = false /\ (left_to_do j' < left_to_do j)%nat.
Proof.
  intros Hh Hp. unfold writer_step, left_to_do. destruct (jn_pc j) as [|m| | |] eqn:Ep; [| | | |done].
  - destruct (jn_queue j) as [|m q] eqn:Eq; rewrite ?Hh; cbn [negb].
    + eexists. split; [done|]. split; [done|]. cbn. rewrite Eq. cbn. lia.
    + eexists. split; [done|]. split; [done|]. cbn. lia.
  - assert (Hg : forall b : bool, exists j', match m with
        | MFlush => Some (goto Reporting (since 0 (flush_out true j)))
        | _ => Some (goto Reporting (if b then since 0 (flush_out true (since (S (jn_since_flush j)) (put_line true (LMessage m) j)))
            else since (S (jn_since_flush j)) (put_line true (LMessage m) j))) end = Some j' /\
        jn_handles j' = false /\ jn_queue j' = jn_queue j /\ jn_pc j' = Reporting)
      by (intros b; destruct m, b; eexists; done).
    destruct (Hg (FLUSH_EVERY <=? S (jn_since_flush j))%nat) as (j' & Hs & Hh' & Hq & Hpc).
    exists j'. rewrite Hq, Hpc. split; [by destruct m|]. split; [done|lia].
  - eexists. split; [done|]. unfold report_gap. destruct (_ <? _); cbn; (split; [done|lia]).
  - eexists. split; [done|]. unfold report_gap. destruct (_ <? _); cbn; (split; [done|lia]).
Qed.

Lemma write_out_finishes accepted refused fuel : forall j, healthy accepted refused j -> jn_handles j = false ->
  (left_to_do j <= fuel)%nat -> healthy accepted refused (write_out fuel j) /\ jn_pc (write_out fuel j) = Finished.
Proof.
  induction fuel as [|fuel IH]; intros j H Hh Hf; cbn [write_out].
  - split; [done|]. unfold left_to_do in Hf. destruct (jn_pc j); done || lia.
  - assert (Hpc : jn_pc j = Finished \/ jn_pc j <> Finished) by (destruct (jn_pc j); by (left + right)).
    destruct Hpc as [Hpc|Hpc].
    + replace (writer_step true true false j) with (@None Journal) by (unfold writer_step; by rewrite Hpc). done.
    + destruct (writer_works j Hh Hpc) as (j' & Hs & Hh' & Hl). rewrite Hs.
      apply IH; [by eapply h_step|done|lia].
Qed.

(** C20: The history says what happened to every record.  Whatever the actor offers
    and however its thread and the writer's interleave on a healthy disk: what is
    in the file and the buffer is the accepted records in the order they were
    offered, short of those still on their way; the gaps written never exceed the
    records refused; and a writer that waits without a timer has nothing in its
    buffer.  Once the last handle is gone the writer finishes within three steps a
    queued message and four, and then the file holds every accepted record and its
    gaps add up to exactly the records refused. *)
Theorem history_accounts_for_everything accepted refused j :
  healthy accepted refused j -> refused < 2 ^ 64 ->
  messages_of (written j) ++ records (in_hand (jn_pc j) ++ jn_queue j) = records accepted /\
  gaps_of (written j) <= refused /\
  (jn_since_flush j = 0%nat -> jn_buffer j = []) /\
  (jn_handles j = false ->
    let j' := write_out (3 * length (jn_queue j) + 4) j in
    jn_pc j' = Finished /\ messages_of (jn_file j') = records accepted /\ gaps_of (jn_file j') = refused).
Proof.
  intros H Hlt. pose proof (accounted_healthy _ _ _ H) as [Hm Hd Hn Hr Hb Hf Hc He].
  assert (Hdr : jn_dropped j = refused) by (rewrite Hd; apply wrap64_id; unfold is_u64; lia).
  split; [|split; [|split; [done|]]].
  - rewrite <-Hm. f_equal. unfold records. apply List.filter_app.
  - specialize (Hb Hlt). lia.
  - intros Hh. cbn zeta. destruct (write_out_finishes accepted refused (3 * length (jn_queue j) + 4) j H Hh) as [Hj' Hp].
    { unfold left_to_do. destruct (jn_pc j); lia. }
    pose proof (accounted_healthy _ _ _ Hj') as [Hm' Hd' Hn' Hr' _ _ Hc' He'].
    destruct (He' Hlt Hp) as [Hbuf Hrep]. destruct (Hc' (or_intror Hp)) as [Hq _].
    unfold written in Hm', Hr'. rewrite Hbuf, app_nil_r in Hm', Hr'. rewrite Hp, Hq in Hm'.
    cbn [in_hand] in Hm'. unfold records in Hm' at 1 2. cbn [List.filter app] in Hm'. rewrite app_nil_r in Hm'.
    split; [done|]. split; [done|]. rewrite Hr', Hrep, Hd'. apply wrap64_id. unfold is_u64. lia.
Qed.

(** ** Where a gap is written *)

Lemma filled_up m k : (k <= capacity)%nat ->
  healthy (replicate k m) 0 (mkJournal (replicate k m) 0 true Waiting 0 0 [] []).
Proof.
  induction k as [|k IH]; intros Hk; [apply h_open|].
  specialize (IH ltac:(lia)). eapply (h_accept _ _ _ m) in IH; [|done|].
  - unfold offer in IH. replace (has_room _) with true in IH.
    + cbn [jn_queue jn_dropped jn_handles jn_pc jn_since_flush jn_reported jn_buffer jn_file] in IH.
      by rewrite <-replicate_S_end in IH.
    + unfold has_room. cbn [jn_queue]. rewrite length_replicate. symmetry. by apply Nat.ltb_lt.
  - unfold has_room. cbn [jn_queue]. rewrite length_replicate. by apply Nat.ltb_lt.
Qed.

(** A gap can be written above records that came before the loss.  The note of a
    gap record says that its records are missing above; but the writer looks at
    the counter after each line, so when a record is refused behind a full
    channel, the gap follows the line being written, and everything that was
    queued before the refused record is written below it. *)
Theorem a_gap_may_come_first m : (0 < capacity)%nat -> is_flush m = false ->
  exists j, healthy (replicate capacity m) 1 j /\
    written j = [LMessage m; LGap true 1] /\ jn_queue j = replicate (capacity - 1) m.
Proof.
  intros Hc Hm. destruct capacity as [|c] eqn:Ec; [lia|].
  pose proof (filled_up m (S c) ltac:(lia)) as H.
  assert (Hfull : has_room (mkJournal (replicate (S c) m) 0 true Waiting 0 0 [] []) = false)
    by (unfold has_room; cbn [jn_queue]; rewrite length_replicate, Ec; apply Nat.ltb_irrefl).
  apply (h_refuse _ _ _ m) in H; [|done|exact Hfull].
  unfold offer in H. rewrite Hfull, Hm in H. cbn in H.
  eapply (h_step _ _ _ false) in H; [|reflexivity].
  assert (Hs : forall j, jn_pc j = Got m -> writer_step true true false j =
    Some (goto Reporting (if (FLUSH_EVERY <=? S (jn_since_flush j))%nat then since 0 (flush_out true (since (S (jn_since_flush j)) (put_line true (LMessage m) j)))
      else since (S (jn_since_flush j)) (put_line true (LMessage m) j))))
    by (intros j Hp; unfold writer_step; rewrite Hp; by destruct m).
  eapply (h_step _ _ _ false) in H; [|apply Hs; reflexivity].
  eapply (h_step _ _ _ false) in H; [|reflexivity].
  eexists. split; [exact H|]. split; [reflexivity|]. cbn. by rewrite Nat.sub_0_r.
Qed.
End thread.

(** * Reading a line back

    A reader of JSON's string literals, for comparison: the text after the opening
    quote gives the string and what follows the closing one. *)

Definition simple_escape (c : ascii) : option ascii :=
  if bool_decide (c = quote_char) then Some quote_char
  else if bool_decide (c = backslash_char) then Some backslash_char
  else if bool_decide (c = "/"%char) then Some "/"%char
  else if bool_decide (c = "b"%char) then Some (ascii_of_nat 8)
  else if bool_decide (c = "f"%char) then Some (ascii_of_nat 12)
  else if bool_decide (c = "n"%char) then Some (ascii_of_nat 10)
  else if bool_decide (c = "r"%char) then Some (ascii_of_nat 13)
  else if bool_decide (c = "t"%char) then Some (ascii_of_nat 9)
  else None.

Definition hex_digit_value (c : ascii) : option Z :=
  let n := Z.of_N (N_of_ascii c) in
  if within 48 57 n then Some (n - 48) else if within 97 102 n then Some (n - 87)
  else if within 65 70 n then Some (n - 55) else None.

Definition prepend (c : ascii) (x : option (string * string)) : option (string * string) :=
  '(s, rest) ← x; Some (String c s, rest).

(** A [\u] escape is read when it names a character of ASCII. *)
Fixpoint read_string (s : string) : option (string * string) :=
  match s with
  | EmptyString => None
  | String c s =>
      if bool_decide (c = quote_char) then Some (EmptyString, s)
      else if bool_decide (c = backslash_char) then
        match s with
        | String "u" (String a (String b (String c (String d s)))) =>
            match hex_digit_value a, hex_digit_value b, hex_digit_value c, hex_digit_value d with
            | Some a, Some b, Some c, Some d =>
                let code := ((a * 16 + b) * 16 + c) * 16 + d in
                if code <? 128 then prepend (ascii_of_N (Z.to_N code)) (read_string s) else None
            | _, _, _, _ => None
            end
        | String e s => match simple_escape e with Some c => prepend c (read_string s) | None => None end
        | EmptyString => None
        end
      else if Z.of_N (N_of_ascii c) <? 0x20 then None
      else prepend c (read_string s)
  end.

Lemma string_app_cons c a b : String c a +:+ b = String c (a +:+ b).
Proof. reflexivity. Qed.

Lemma string_app_app a b c : (a +:+ b) +:+ c = a +:+ (b +:+ c).
Proof. induction a as [|x a IH]; [done|]. by rewrite !string_app_cons, IH. Qed.

Lemma string_app_nil a : a +:+ EmptyString = a.
Proof. induction a as [|x a IH]; [done|]. by rewrite string_app_cons, IH. Qed.

Lemma read_escape_char c s : read_string (escape_char c +:+ s) = prepend c (read_string s).
Proof. destruct c as [[] [] [] [] [] [] [] []]; reflexivity. Qed.

Lemma read_quoted name rest : read_string (escape name +:+ quote +:+ rest) = Some (name, rest).
Proof.
  induction name as [|c name IH]; [reflexivity|]. cbn [escape].
  by rewrite string_app_app, read_escape_char, IH.
Qed.

(** The text [t] has a part [m]. *)
Definition has_part (t m : string) : Prop := exists before after, t = before +:+ (m +:+ after).

Lemma concat_part m ms : In m ms -> has_part (String.concat "," ms) m.
Proof.
  induction ms as [|x ms IH]; [done|]. intros Hin.
  assert (Hx : forall y, has_part y m -> has_part (x +:+ "," +:+ y) m).
  { intros y (b & a & ->). exists (x +:+ "," +:+ b), a. by rewrite !string_app_app. }
  destruct ms as [|x2 ms].
  - destruct Hin as [->|[]]. exists EmptyString, EmptyString. symmetry. apply string_app_nil.
  - destruct Hin as [->|Hin]; [|by apply Hx, IH].
    by exists EmptyString, ("," +:+ String.concat "," (x2 :: ms)).
Qed.

Lemma object_part m ms tail : In m ms -> has_part (object ms +:+ tail) m.
Proof.
  intros Hin. destruct (concat_part m ms Hin) as (b & a & E). exists ("{" +:+ b), (a +:+ "}" +:+ tail).
  unfold object, str_concat. cbn [String.concat]. rewrite E. cbn. by rewrite !string_app_app.
Qed.

Lemma quoted_part t name s : has_part t (member name (quoted s)) ->
  exists before after, t = before +:+ quote +:+ escape s +:+ quote +:+ after.
Proof.
  intros (b & a & ->). exists (b +:+ quote +:+ name +:+ quote +:+ ":"), a.
  unfold member, quoted, str_concat. cbn. by rewrite !string_app_app.
Qed.

(** The names of a line are read back exactly.  The line of a check has, between
    quotes, the finder's and the receiver's name, the item's name in the
    receiver's game and the location's name in the finder's; whatever bytes these
    have (quotes, backslashes, control characters), a reader of JSON strings gets
    that name from its place in the line, and goes on behind it. *)
Theorem names_read_back fixed3 data names r :
  Forall (fun name => exists before after,
      render fixed3 data names r = before +:+ quote +:+ escape name +:+ quote +:+ after /\
      read_string (escape name +:+ quote +:+ after) = Some (name, after))
    [slot_name data (cr_finder r); slot_name data (cr_receiver r);
     match game_of data names (cr_receiver r) with
     | Some g => item_name g (cr_item r)
     | None => str_concat ["Unknown item (ID:"; pretty (cr_item r); ")"]
     end;
     match game_of data names (cr_finder r) with
     | Some g => location_name g (cr_location r)
     | None => str_concat ["Unknown location (ID:"; pretty (cr_location r); ")"]
     end].
Proof.
  assert (Hq : forall label name, In (member label (quoted name)) (line_members fixed3 data names r) ->
    exists before after, render fixed3 data names r = before +:+ quote +:+ escape name +:+ quote +:+ after /\
      read_string (escape name +:+ quote +:+ after) = Some (name, after)).
  { intros label name Hin. apply (object_part _ _ newline), quoted_part in Hin as (b & a & E).
    exists b, a. split; [exact E|apply read_quoted]. }
  repeat apply Forall_cons_2; [..|apply Forall_nil_2].
  - apply (Hq "finder_name"%string). cbn. tauto.
  - apply (Hq "receiver_name"%string). cbn. tauto.
  - apply (Hq "item_name"%string). cbn. tauto.
  - apply (Hq "location_name"%string). cbn. tauto.
Qed.

(** ** The theorems at concrete inputs *)

#[local] Existing Instance tree_json.

Definition demo_check : Message := MCheck (mkCheckRecord (S754_zero false) 1 2 7 30 0).

Lemma history_accounts_for_everything_witness :
  let j := close_handles (offer 1 demo_check (offer 1 demo_check journal_open)) in
  messages_of (jn_file (write_out (3 * length (jn_queue j) + 4) j)) = [demo_check] /\
  gaps_of (jn_file (write_out (3 * length (jn_queue j) + 4) j)) = 1.
Proof.
  intros j.
  assert (H : healthy 1 [demo_check] 1 j).
  { apply h_close, (h_refuse 1 [demo_check] 0 (offer 1 demo_check journal_open) demo_check); [|done|done].
    by apply (h_accept 1 [] 0 journal_open demo_check); [constructor|..]. }
  destruct (history_accounts_for_everything 1 [demo_check] 1 j H ltac:(lia)) as (_ & _ & _ & Hf).
  destruct (Hf eq_refl) as (_ & Hm & Hg). split; [exact Hm|exact Hg].
Defined.

Lemma a_gap_may_come_first_witness : exists j, healthy 2 [demo_check; demo_check] 1 j /\
  written j = [LMessage demo_check; LGap true 1] /\ jn_queue j = [demo_check].
Proof. exact (a_gap_may_come_first 2 demo_check ltac:(lia) eq_refl). Defined.
