(* ===== verification/Cli.v ===== *)
(** * The command line and the secrets

    [pahoa/src/cli.rs]: the parser of a command line, and the suggestion it makes
    for an option it does not know, from an edit distance; [pahoa/src/main.rs]:
    the command line the banner logs, with its secrets replaced; and
    [pahoa/src/secrets.rs]: which source of a secret wins.

    The theorems: a command line written from settings is read as those settings
    and an unknown option is refused; the distance is the least number of edits
    there is, and what is suggested is the nearest option; the banner of a plain
    command line shows no secret, though there is one that shows it. *)

From Stdlib Require Import ZArith Lia Bool Ascii.
From stdpp Require Import base tactics list gmap strings pretty.
From S2P Require Import Prelude Types Text.
From S2P Require PyValue.

Record Opt := mkOpt { op_name : string; op_aliases : list string; op_takes_value : bool }.

Definition flag (name : string) (aliases : list string) : Opt := mkOpt name aliases false.
Definition value (name : string) (aliases : list string) : Opt := mkOpt name aliases true.

Record Parsed := mkParsed { positional : list string; values : gmap string string; flags : list string }.

Definition parsed_default : Parsed := mkParsed [] ∅ [].
Definition get (p : Parsed) (name : string) : option string := values p !! name.
Definition is_set (p : Parsed) (name : string) : bool := bool_decide (name ∈ flags p).

(** ** The edit distance *)

Section distance.
Context {A : Type} `{EqDecision A}.

Definition differ (x y : A) : nat := if decide (x = y) then 0 else 1.

(** The inner loop: the rest of the row [cur], from the cell to its left and the
    rest of the row [prev]. *)
Fixpoint next_cells (ca : A) (b : list A) (prev : list nat) (left : nat) : list nat :=
  match b, prev with
  | cb :: b, diagonal :: (above :: _) as prev =>
      let cell := Nat.min (Nat.min (diagonal + differ ca cb) (above + 1)) (left + 1) in
      cell :: next_cells ca b prev cell
  | _, _ => []
  end.

Fixpoint rows (i : nat) (a b : list A) (prev : list nat) : list nat :=
  match a with
  | [] => prev
  | ca :: a => rows (S i) a b (S i :: next_cells ca b prev (S i))
  end.

Definition distance (a b : list A) : nat := nth (length b) (rows 0 a b (seq 0 (S (length b)))) 0%nat.
End distance.

(** [closest]: the first option with the least distance, when it is a typo. *)
Definition candidates (o : Opt) : list string := op_name o :: op_aliases o.

Definition opt_distance (name : string) (o : Opt) : nat :=
  fold_right Nat.min (distance (chars name) (chars (op_name o)))
    ((fun c => distance (chars name) (chars c)) <$> op_aliases o).

Definition nearer (name : string) (best : option (nat * string)) (o : Opt) : option (nat * string) :=
  let d := opt_distance name o in
  match best with
  | Some (bd, _) => if (d <? bd)%nat then Some (d, op_name o) else best
  | None => Some (d, op_name o)
  end.

Definition closest (name : string) (spec : list Opt) : option string :=
  match fold_left (nearer name) spec None with
  | Some (d, n) => if (d <=? 2)%nat && (d * 3 <=? String.length name)%nat then Some n else None
  | None => None
  end.

(** ** The parser *)

Inductive CliError :=
| Unknown (name : string) (guess : option string)
| NeedsValue (name : string)
| GivenTwice (name : string)
| TakesNoValue (name : string)
| ExpectedNumber (name got : string).

Definition find_opt (name : string) (spec : list Opt) : option Opt :=
  List.find (fun o => bool_decide (op_name o = name \/ name ∈ op_aliases o)) spec.

Definition dash : ascii := "-"%char.

Definition add_positional (arg : string) (p : Parsed) : Parsed := mkParsed (positional p ++ [arg]) (values p) (flags p).

Definition add_value (name v : string) (p : Parsed) : result CliError Parsed :=
  match values p !! name with
  | Some _ => Err (GivenTwice name)
  | None => Ok (mkParsed (positional p) (<[name := v]> (values p)) (flags p))
  end.

Definition add_flag (name : string) (p : Parsed) : Parsed :=
  if is_set p name then p else mkParsed (positional p) (values p) (flags p ++ [name]).

Definition is_positional (arg : string) : bool := negb (starts_with "-" arg) || bool_decide (arg = "-"%string).

Fixpoint parse_from (spec : list Opt) (argv : list string) (rest_is_positional : bool) (out : Parsed)
    : result CliError Parsed :=
  match argv with
  | [] => Ok out
  | arg :: argv =>
      if rest_is_positional || is_positional arg then
        parse_from spec argv rest_is_positional (add_positional arg out)
      else if bool_decide (arg = "--"%string) then parse_from spec argv true out
      else
        let '(name, inline) := match PyValue.split_once "=" arg with
                               | Some (n, v) => (n, Some v)
                               | None => (arg, None)
                               end in
        match find_opt name spec with
        | None => Err (Unknown name (closest name spec))
        | Some opt =>
            if op_takes_value opt then
              match inline, argv with
              | Some v, _ =>
                  match add_value (op_name opt) v out with
                  | Ok out => parse_from spec argv rest_is_positional out
                  | Err e => Err e
                  end
              | None, v :: argv =>
                  match add_value (op_name opt) v out with
                  | Ok out => parse_from spec argv rest_is_positional out
                  | Err e => Err e
                  end
              | None, [] => Err (NeedsValue (op_name opt))
              end
            else if bool_decide (is_Some inline) then Err (TakesNoValue (op_name opt))
            else parse_from spec argv rest_is_positional (add_flag (op_name opt) out)
        end
  end.

Definition parse (argv : list string) (spec : list Opt) : result CliError Parsed :=
  parse_from spec argv false parsed_default.

(** [Parsed::number], for a type whose [parse] is [from_str]. *)
Definition number {T} (from_str : string -> option T) (p : Parsed) (name : string) : result CliError (option T) :=
  match get p name with
  | None => Ok None
  | Some v => match from_str v with
              | Some n => Ok (Some n)
              | None => Err (ExpectedNumber name v)
              end
  end.

(** * The distance is the least number of edits *)

Section edits.
Context {A : Type} `{EqDecision A}.

(** One list becomes the other by [n] insertions, deletions and substitutions. *)
Inductive edits : nat -> list A -> list A -> Prop :=
| ed_nil : edits 0 [] []
| ed_keep n x a b : edits n a b -> edits n (x :: a) (x :: b)
| ed_substitute n x y a b : edits n a b -> edits (S n) (x :: a) (y :: b)
| ed_insert n y a b : edits n a b -> edits (S n) a (y :: b)
| ed_delete n x a b : edits n a b -> edits (S n) (x :: a) b.

(** The least number, by recursion on both lists. *)
Fixpoint least (a b : list A) : nat :=
  match a with
  | [] => length b
  | x :: a' =>
      (fix inner (b : list A) : nat :=
         match b with
         | [] => S (length a')
         | y :: b' => Nat.min (Nat.min (least a' b' + differ x y) (least a' (y :: b') + 1)) (inner b' + 1)
         end) b
  end.

Lemma least_nil_r a : least a [] = length a.
Proof. by destruct a. Qed.

Lemma least_cons x a y b :
  least (x :: a) (y :: b) =
  Nat.min (Nat.min (least a b + differ x y) (least a (y :: b) + 1)) (least (x :: a) b + 1).
Proof. reflexivity. Qed.

Lemma edits_insert_all b : edits (length b) [] b.
Proof. induction b; cbn; by constructor. Qed.

Lemma edits_delete_all a : edits (length a) a [].
Proof. induction a; cbn; by constructor. Qed.

Lemma least_edits a b : edits (least a b) a b.
Proof.
  revert b. induction a as [|x a IHa]; intros b; [apply edits_insert_all|].
  induction b as [|y b IHb]; [rewrite least_nil_r; apply edits_delete_all|]. rewrite least_cons.
  assert (Hd : edits (least a b + differ x y) (x :: a) (y :: b)).
  { unfold differ. destruct (decide (x = y)) as [->|]; rewrite ?Nat.add_0_r, ?Nat.add_1_r; by constructor. }
  assert (Hdel : edits (least a (y :: b) + 1) (x :: a) (y :: b)) by (rewrite Nat.add_1_r; by constructor).
  assert (Hins : edits (least (x :: a) b + 1) (x :: a) (y :: b)) by (rewrite Nat.add_1_r; by constructor).
  destruct (Nat.min_dec (Nat.min (least a b + differ x y) (least a (y :: b) + 1)) (least (x :: a) b + 1)) as [->| ->]; [|done].
  by destruct (Nat.min_dec (least a b + differ x y) (least a (y :: b) + 1)) as [->| ->].
Qed.

Lemma least_least n a b : edits n a b -> (least a b <= n)%nat.
Proof.
  induction 1 as [|n x a b _ IH|n x y a b _ IH|n y a b _ IH|n x a b _ IH]; [done|..].
  - rewrite least_cons. unfold differ. destruct (decide (x = x)); [lia|done].
  - rewrite least_cons. unfold differ. destruct (decide (x = y)); lia.
  - destruct a as [|x a]; [cbn in *; lia|]. rewrite least_cons. lia.
  - destruct b as [|y b]; [rewrite least_nil_r in *; cbn; lia|]. rewrite least_cons. lia.
Qed.

Lemma edits_app n a b m c d : edits n a b -> edits m c d -> edits (n + m) (a ++ c) (b ++ d).
Proof. induction 1; intros; cbn; try constructor; auto. Qed.

Lemma edits_rev n a b : edits n a b -> edits n (rev a) (rev b).
Proof.
  induction 1 as [|n x a b _ IH|n x y a b _ IH|n y a b _ IH|n x a b _ IH]; cbn; [constructor|..].
  - rewrite <-(Nat.add_0_r n). apply edits_app; [done|]. repeat constructor.
  - rewrite <-Nat.add_1_r. apply edits_app; [done|]. repeat constructor.
  - rewrite <-(app_nil_r (rev a)), <-Nat.add_1_r. apply edits_app; [done|]. repeat constructor.
  - rewrite <-(app_nil_r (rev b)), <-Nat.add_1_r. apply edits_app; [done|]. repeat constructor.
Qed.

(** The cells of a row: the least numbers from what was read of [a], backwards, to
    each longer part of [b]. *)
Fixpoint cells (ra rb b : list A) : list nat :=
  least ra rb :: match b with [] => [] | y :: b => cells ra (y :: rb) b end.

Lemma next_cells_spec ca b : forall ra rb,
  least (ca :: ra) rb :: next_cells ca b (cells ra rb b) (least (ca :: ra) rb) = cells (ca :: ra) rb b.
Proof.
  induction b as [|y b IH]; intros ra rb; [done|]. cbn [cells]. f_equal.
  rewrite <-(IH ra (y :: rb)). destruct b as [|y2 b]; cbn [cells next_cells].
  - rewrite least_cons. do 2 f_equal.
  - rewrite least_cons. done.
Qed.

Lemma rows_spec b a : forall ra, rows (length ra) a b (cells ra [] b) = cells (rev a ++ ra) [] b.
Proof.
  induction a as [|ca a IH]; intros ra; [done|]. cbn [rows rev].
  rewrite <-(assoc_L app). cbn [app]. rewrite <-(IH (ca :: ra)). cbn [length]. f_equal.
  pose proof (next_cells_spec ca b ra []) as Hc. by rewrite least_nil_r in Hc.
Qed.

Lemma cells_seq b : forall rb, cells [] rb b = seq (length rb) (S (length b)).
Proof. induction b as [|y b IH]; intros rb; [done|]. cbn [cells]. rewrite IH. done. Qed.

Lemma cells_last b : forall ra rb, nth (length b) (cells ra rb b) 0%nat = least ra (rev b ++ rb).
Proof.
  induction b as [|y b IH]; intros ra rb; [done|]. cbn [cells length nth]. rewrite IH. cbn [rev].
  by rewrite <-(assoc_L app).
Qed.

Lemma distance_edits (a b : list A) :
  edits (distance a b) a b /\ forall n, edits n a b -> (distance a b <= n)%nat.
Proof.
  assert (E : distance a b = least (rev a) (rev b)).
  { pose proof (rows_spec b a []) as Hr. rewrite cells_seq in Hr. unfold distance.
    etrans; [exact (f_equal (fun l => nth (length b) l 0%nat) Hr)|]. by rewrite cells_last, !app_nil_r. }
  rewrite E. split.
  - rewrite <-(rev_involutive a) at 2. rewrite <-(rev_involutive b) at 2. apply edits_rev, least_edits.
  - intros n Hn. by apply least_least, edits_rev.
Qed.
End edits.

(** ** What is suggested *)

Definition nearest (name : string) (spec : list Opt) (best : option (nat * string)) : Prop :=
  match best with
  | None => spec = []
  | Some (d, n) => (exists o, o ∈ spec /\ op_name o = n /\ opt_distance name o = d) /\
                   forall o, o ∈ spec -> (d <= opt_distance name o)%nat
  end.

Lemma nearer_nearest name spec : nearest name spec (fold_left (nearer name) spec None).
Proof.
  induction spec as [|o spec IH] using rev_ind; [done|]. rewrite fold_left_app. cbn [fold_left].
  destruct (fold_left (nearer name) spec None) as [[d n]|]; cbn [nearest] in IH; unfold nearer.
  - destruct IH as [(o' & Ho' & Hn & Hd) Hmin].
    destruct (Nat.ltb_spec (opt_distance name o) d); cbn [nearest]; split.
    + exists o. split; [|done]. apply elem_of_app. right. by apply list_elem_of_singleton.
    + intros x [Hx|Hx%list_elem_of_singleton]%elem_of_app; [|by subst]. specialize (Hmin _ Hx). lia.
    + exists o'. split; [|done]. apply elem_of_app. by left.
    + intros x [Hx|Hx%list_elem_of_singleton]%elem_of_app; [auto|by subst].
  - subst spec. cbn [nearest]. split; [exists o; split; [by apply list_elem_of_singleton|done]|].
    intros x Hx%list_elem_of_singleton. by subst.
Qed.

Lemma opt_distance_spec name o : exists c, c ∈ candidates o /\ opt_distance name o = distance (chars name) (chars c) /\
  forall c', c' ∈ candidates o -> (opt_distance name o <= distance (chars name) (chars c'))%nat.
Proof.
  unfold opt_distance, candidates. induction (op_aliases o) as [|c cs IH].
  - exists (op_name o). split; [by left|]. split; [done|]. intros c' Hc%list_elem_of_singleton. by subst.
  - cbn [fmap list_fmap fold_right]. destruct IH as (c0 & H0 & E0 & Hmin).
    set (m := fold_right _ _ _) in *. set (d := distance (chars name) (chars c)) in *.
    destruct (Nat.le_gt_cases d m) as [Hle|Hgt].
    + exists c. split; [right; by left|]. split; [rewrite Nat.min_l by done; done|].
      intros c' Hc. apply elem_of_cons in Hc as [->|Hc]; [specialize (Hmin (op_name o) ltac:(by left)); lia|].
      apply elem_of_cons in Hc as [->|Hc]; [lia|]. specialize (Hmin c' ltac:(by right)). lia.
    + exists c0. split; [apply elem_of_cons in H0 as [->|H0]; [by left|by do 2 right]|].
      split; [rewrite Nat.min_r by lia; done|]. intros c' Hc. apply elem_of_cons in Hc as [->|Hc]; [specialize (Hmin (op_name o) ltac:(by left)); lia|].
      apply elem_of_cons in Hc as [->|Hc]; [lia|]. specialize (Hmin c' ltac:(by right)). lia.
Qed.

(** What is suggested is the option nearest to what was typed.  It is the
    canonical name of an option one of whose spellings is at most two edits, and a
    third of what was typed, away, an edit being an insertion, a deletion or a
    substitution; and no spelling of any option can be reached with fewer. *)
Theorem suggestions_are_nearest name spec n : closest name spec = Some n ->
  exists o c, o ∈ spec /\ op_name o = n /\ c ∈ candidates o /\
    edits (distance (chars name) (chars c)) (chars name) (chars c) /\
    (distance (chars name) (chars c) <= 2)%nat /\ (distance (chars name) (chars c) * 3 <= String.length name)%nat /\
    forall o' c' m, o' ∈ spec -> c' ∈ candidates o' -> edits m (chars name) (chars c') ->
      (distance (chars name) (chars c) <= m)%nat.
Proof.
  unfold closest. intros H. pose proof (nearer_nearest name spec) as Hn.
  destruct (fold_left (nearer name) spec None) as [[d n']|]; [|done]. cbn in Hn.
  destruct ((d <=? 2)%nat && (d * 3 <=? String.length name)%nat) eqn:E; [|done]. simplify_eq.
  apply andb_true_iff in E as [E2%Nat.leb_le E3%Nat.leb_le]. destruct Hn as [(o & Ho & Hname & Hd) Hmin].
  destruct (opt_distance_spec name o) as (c & Hc & Hdc & _). assert (Ed : d = distance (chars name) (chars c)) by congruence. clear Hd Hdc. subst d.
  exists o, c. split; [done|]. split; [done|]. split; [done|].
  split; [apply (proj1 (distance_edits _ _))|]. split; [done|]. split; [done|].
  intros o' c' m Ho' Hc' He. specialize (Hmin _ Ho'). destruct (opt_distance_spec name o') as (_ & _ & _ & Hall).
  specialize (Hall _ Hc'). apply (proj2 (distance_edits _ _)) in He. lia.
Qed.

(** * A command line written from settings *)

(** What an operator means by an argument or two. *)
Inductive Arg :=
| APositional (s : string)
| AValue (o : Opt) (name v : string) (inline : bool)
| AFlag (o : Opt) (name : string).

Definition render_arg (a : Arg) : list string :=
  match a with
  | APositional s => [s]
  | AValue _ name v true => [name +:+ String "=" v]
  | AValue _ name v false => [name; v]
  | AFlag _ name => [name]
  end.

(** [name] is an option's, and can stand before a [=]. *)
Definition spelled (spec : list Opt) (name : string) (o : Opt) : Prop :=
  is_positional name = false /\ name <> "--"%string /\ PyValue.split_once "=" name = None /\
  find_opt name spec = Some o.

Definition arg_ok (spec : list Opt) (a : Arg) : Prop :=
  match a with
  | APositional s => is_positional s = true
  | AValue o name _ _ => spelled spec name o /\ op_takes_value o = true
  | AFlag o name => spelled spec name o /\ op_takes_value o = false
  end.

Fixpoint settle (args : list Arg) (p : Parsed) : result CliError Parsed :=
  match args with
  | [] => Ok p
  | APositional s :: args => settle args (add_positional s p)
  | AValue o _ v _ :: args => match add_value (op_name o) v p with Ok p => settle args p | Err e => Err e end
  | AFlag o _ :: args => settle args (add_flag (op_name o) p)
  end.

Lemma split_once_inline c name v : PyValue.split_once c name = None ->
  PyValue.split_once c (name +:+ String c v) = Some (name, v).
Proof.
  induction name as [|d name IH]; intros H.
  - change (EmptyString +:+ String c v) with (String c v). cbn. by rewrite Ascii.eqb_refl.
  - change (String d name +:+ String c v) with (String d (name +:+ String c v)). cbn [PyValue.split_once] in *.
    destruct (Ascii.eqb d c); [done|]. destruct (PyValue.split_once c name) as [[a b]|]; [done|]. by rewrite IH.
Qed.

Lemma starts_with_app p s t : starts_with p s = true -> starts_with p (s +:+ t) = true.
Proof.
  revert s. induction p as [|a p IH]; intros s H; [by destruct s|]. destruct s as [|b s]; [done|].
  change (String b s +:+ t) with (String b (s +:+ t)). cbn [starts_with] in *.
  apply andb_true_iff in H as [-> H]. by apply IH.
Qed.

Lemma contains_app s p t : contains_str s p = true -> contains_str (s +:+ t) p = true.
Proof.
  induction s as [|c s IH]; intros H.
  - destruct p; [|done]. by destruct t.
  - change (String c s +:+ t) with (String c (s +:+ t)). cbn [contains_str] in *.
    apply orb_true_iff in H as [H|H]; [|by rewrite IH, orb_true_r].
    pose proof (starts_with_app p (String c s) t H) as Hs.
    change (String c s +:+ t) with (String c (s +:+ t)) in Hs. by rewrite Hs.
Qed.

Lemma split_once_join c s name v : PyValue.split_once c s = Some (name, v) -> s = name +:+ String c v.
Proof.
  revert name. induction s as [|d s IH]; intros name H; [done|]. cbn [PyValue.split_once] in H.
  destruct (Ascii.eqb_spec d c) as [->|]; [by simplify_eq|].
  destruct (PyValue.split_once c s) as [[a b]|]; [|done]. cbn in H. simplify_eq. by rewrite (IH a).
Qed.

(** An inline value does not make an argument positional or the separator. *)
Lemma inline_is_option name v : is_positional name = false -> is_positional (name +:+ String "=" v) = false.
Proof.
  unfold is_positional. intros H. apply orb_false_iff in H as [H1 H2]. apply negb_false_iff in H1.
  rewrite (starts_with_app _ _ _ H1). cbn [negb orb]. apply bool_decide_eq_false in H2. apply bool_decide_eq_false.
  intros E. destruct name as [|c [|d name]]; inversion E.
Qed.

Lemma inline_is_not_separator name v : name +:+ String "=" v <> "--"%string.
Proof.
  intros E. destruct name as [|c [|d [|e name]]]; inversion E.
Qed.

Lemma parse_render spec args tail : Forall (arg_ok spec) args -> forall p,
  parse_from spec (concat (render_arg <$> args) ++ tail) false p =
  match settle args p with Ok p => parse_from spec tail false p | Err e => Err e end.
Proof.
  induction 1 as [|a args Ha _ IH]; intros p; [done|]. cbn [fmap list_fmap concat]. rewrite <-(assoc_L app).
  destruct a as [s|o name v inline|o name]; cbn [arg_ok] in Ha.
  - cbn [render_arg app parse_from settle]. rewrite Ha. cbn [orb]. apply IH.
  - destruct Ha as [(Hp & Hs & Hn & Hf) Ht]. cbn [settle]. destruct inline; cbn [render_arg app parse_from].
    + rewrite inline_is_option by done. cbn [orb]. rewrite bool_decide_eq_false_2 by (apply inline_is_not_separator).
      rewrite split_once_inline, Hf, Ht by done. destruct (add_value _ _ _); [apply IH|done].
    + rewrite Hp. cbn [orb]. rewrite bool_decide_eq_false_2, Hn, Hf, Ht by done.
      destruct (add_value _ _ _); [apply IH|done].
  - destruct Ha as [(Hp & Hs & Hn & Hf) Ht]. cbn [settle render_arg app parse_from]. rewrite Hp. cbn [orb].
    rewrite bool_decide_eq_false_2, Hn, Hf, Ht by done. cbn. apply IH.
Qed.

(** C31: A command line is read as it was meant, or refused.  Positional arguments,
    options with their value in the next argument or behind an equals sign, under
    any of their names, and flags, in any order, are read as those settings, a value
    given twice being an error; and wherever an argument then names no option, the
    command line is refused with that name, never read without it. *)
Theorem command_lines_are_read spec args unknown rest :
  Forall (arg_ok spec) args ->
  is_positional unknown = false -> unknown <> "--"%string -> PyValue.split_once "=" unknown = None ->
  find_opt unknown spec = None ->
  parse (concat (render_arg <$> args)) spec = settle args parsed_default /\
  forall p v, settle args parsed_default = Ok p ->
    parse (concat (render_arg <$> args) ++ unknown :: rest) spec = Err (Unknown unknown (closest unknown spec)) /\
    parse (concat (render_arg <$> args) ++ (unknown +:+ String "=" v) :: rest) spec =
      Err (Unknown unknown (closest unknown spec)).
Proof.
  intros Ha Hp Hs Hn Hf. unfold parse. split.
  - pose proof (parse_render spec args [] Ha parsed_default) as H. rewrite app_nil_r in H. rewrite H. by destruct (settle _ _).
  - intros p v Hok. rewrite !parse_render, Hok by done. cbn [parse_from]. rewrite Hp, inline_is_option by done. cbn [orb].
    rewrite !bool_decide_eq_false_2 by (done || apply inline_is_not_separator).
    by rewrite Hn, split_once_inline, Hf by done.
Qed.

(** * The logged command line *)

(** [is_secret] in [redacted_argv]. *)
Definition is_secret (name : string) : bool := starts_with "--" name && contains_str name "password".

(** The loop of [redacted_argv]: the words of the line. *)
Fixpoint redact (argv : list string) (redact_next : bool) : list string :=
  match argv with
  | [] => if redact_next then ["<missing>"%string] else []
  | arg :: argv =>
      if redact_next then "***"%string :: redact argv false
      else
        match PyValue.split_once "=" arg with
        | Some (name, _) =>
            if is_secret name then str_concat [name; "=***"%string] :: redact argv false
            else arg :: redact argv (is_secret arg)
        | None => arg :: redact argv (is_secret arg)
        end
  end.

Definition redacted_argv (argv : list string) : string := String.concat " " (redact argv false).

Definition SERVE_OPTS : list Opt :=
  [flag "--help" ["-h"]; value "--bind" ["--host"]; value "--port" []; value "--save-dir" [];
   value "--save-interval" []; value "--ping-interval" ["--ping_interval"]; value "--ping-timeout" ["--ping_timeout"];
   value "--outbound-budget" []; value "--shards" []; value "--shard-queue-depth" ["--shard_queue_depth"];
   value "--log-level" ["--loglevel"]; value "--log-format" ["--log_format"]; flag "--journal" [];
   value "--filtered-port" ["--filtered_port"]; value "--tls-cert" ["--tls_cert"]; value "--tls-key" ["--tls_key"];
   flag "--allow-plaintext" ["--allow_plaintext"]; flag "--open-tracker" ["--open_tracker"]; value "--password" [];
   value "--server-password" ["--server_password"]; value "--hint-cost" ["--hint_cost"];
   value "--location-check-points" ["--location_check_points"]; value "--release-mode" ["--release_mode"];
   value "--collect-mode" ["--collect_mode"]; value "--remaining-mode" ["--remaining_mode"];
   value "--countdown-mode" ["--countdown_mode"]; flag "--no-item-cheat" ["--disable_item_cheat"];
   value "--compatibility" []; flag "--use-embedded-options" ["--use_embedded_options"]]%string.

(** What the log should have of an argument. *)
Definition masked_arg (a : Arg) : list string :=
  match a with
  | AValue _ name v true => if is_secret name then [str_concat [name; "=***"%string]] else render_arg a
  | AValue _ name v false => if is_secret name then [name; "***"%string] else render_arg a
  | _ => render_arg a
  end.

(** Nothing but the name of an option with a secret value looks like one. *)
Definition plain (a : Arg) : Prop :=
  match a with
  | APositional _ => True
  | AValue _ name v true => is_secret name = true \/ is_secret (name +:+ String "=" v) = false
  | AValue _ name v false => is_secret name = true \/ is_secret v = false
  | AFlag _ name => is_secret name = false
  end.

Lemma positional_is_plain s : is_positional s = true -> is_secret s = false.
Proof.
  unfold is_positional, is_secret. intros H. apply orb_true_iff in H as [H|H].
  - destruct s as [|c s]; [done|]. cbn [starts_with] in *. by destruct (Ascii.eqb "-" c).
  - apply bool_decide_eq_true in H as ->. reflexivity.
Qed.

Lemma secret_before s : is_secret s = false -> forall name v, PyValue.split_once "=" s = Some (name, v) -> is_secret name = false.
Proof.
  intros Hs name v Hsp. destruct (is_secret name) eqn:E; [|done]. exfalso. revert Hs.
  rewrite (split_once_join _ _ _ _ Hsp). unfold is_secret in *. apply andb_true_iff in E as [E1 E2].
  by rewrite (starts_with_app _ _ _ E1), contains_app.
Qed.

Lemma redact_plain_word s rest : is_secret s = false -> redact (s :: rest) false = s :: redact rest false.
Proof.
  intros Hs. cbn [redact]. destruct (PyValue.split_once "=" s) as [[name v]|] eqn:E; rewrite Hs; [|done].
  by rewrite (secret_before s Hs name v E).
Qed.

(** The line of a plain command line, in both spellings. *)
Lemma banners_are_masked spec args :
  Forall (arg_ok spec) args -> Forall plain args ->
  redact (concat (render_arg <$> args)) false = concat (masked_arg <$> args).
Proof.
  intros Hok Hp. induction args as [|a args IH]; [done|].
  apply Forall_cons in Hok as [Ha Hok], Hp as [Hpa Hp]. specialize (IH Hok Hp). cbn [fmap list_fmap concat].
  destruct a as [s|o name v inline|o name]; cbn [arg_ok plain] in *.
  - cbn [render_arg masked_arg app]. by rewrite redact_plain_word, IH by (by apply positional_is_plain).
  - destruct Ha as [(_ & _ & Hn & _) _]. destruct inline; cbn [render_arg masked_arg app].
    + destruct (is_secret name) eqn:E.
      * cbn [redact app]. rewrite split_once_inline, E by done. by rewrite IH.
      * destruct Hpa as [?|Hpa]; [done|]. cbn [app]. by rewrite redact_plain_word, IH.
    + destruct (is_secret name) eqn:E.
      * cbn [redact app]. rewrite Hn, E. by rewrite IH.
      * destruct Hpa as [?|Hpa]; [done|]. cbn [app]. by rewrite !redact_plain_word, IH by done.
  - cbn [render_arg masked_arg app]. by rewrite redact_plain_word, IH.
Qed.

(** The banner shows no secret of a plain command line, and only of a plain one.
    When nothing but the name of an option with a secret value looks like such a
    name (whether it stands alone, as a value, or with its value behind an equals
    sign), the logged line is the given one with exactly the values of the password
    options replaced.  But the redaction looks for a secret name in a whole word,
    the value behind an equals sign included, and then replaces the next word: with
    a save directory whose path has the word password in it, it is the option's
    name that is replaced, and the password itself is logged, though the room is
    started with it. *)
Theorem banners_hide_the_secrets_of_plain_lines :
  (forall spec args, Forall (arg_ok spec) args -> Forall plain args ->
    redact (concat (render_arg <$> args)) false = concat (masked_arg <$> args)) /\
  exists argv p, parse argv SERVE_OPTS = Ok p /\ get p "--password" = Some "hunter2"%string /\
    redacted_argv argv = "seed.archipelago --save-dir=/srv/password-room *** hunter2"%string.
Proof.
  split; [exact banners_are_masked|].
  exists ["seed.archipelago"; "--save-dir=/srv/password-room"; "--password"; "hunter2"]%string.
  eexists. split; [vm_compute; reflexivity|]. split; vm_compute; reflexivity.
Qed.

(** * The secrets of a room *)

Definition PASSWORD : string := "PAHOA_PASSWORD".
Definition SERVER_PASSWORD : string := "PAHOA_SERVER_PASSWORD".
Definition SLOT_PASSWORDS : string := "PAHOA_SLOT_PASSWORDS".
Definition ADMIN_TOKEN : string := "PAHOA_ADMIN_TOKEN".
Definition MIN_ADMIN_TOKEN_BYTES : nat := 32.

Inductive Warning := BothSet (name flag : string) | InArgv (flag name : string).

Record Secrets := mkSecrets {
  sc_password : option string;
  sc_server_password : option string;
  sc_slot_passwords : option (gmap Z string);
  sc_password_from_env : bool;
  sc_server_password_from_env : bool;
  sc_admin_token : option string;
  sc_warnings : list Warning;
}.

Record FromArgv := mkFromArgv { fa_password : option string; fa_server_password : option string }.

Inductive SecretError :=
| NotAnObject (detail : string)
| NotASlot (key : string)
| BothModes
| ShortToken (bytes : nat).

(** [pick]: the value, whether the environment gave it, and what to warn about. *)
Definition pick (name : string) (from_env from_argv : option string) (flag : string)
    : option string * bool * list Warning :=
  match from_env, from_argv with
  | Some value, Some _ => (Some value, true, [BothSet name flag])
  | Some value, None => (Some value, true, [])
  | None, Some value => (Some value, false, [InArgv flag name])
  | None, None => (None, false, [])
  end.

Section secrets.
(** [serde_json::from_str] into a [BTreeMap<String, String>]: its entries in the
    order of their keys, or what is wrong. *)
Context (parse_map : string -> result string (list (string * string))).

Fixpoint slot_entries (entries : list (string * string)) (acc : gmap Z string) : result SecretError (gmap Z string) :=
  match entries with
  | [] => Ok acc
  | (key, password) :: entries =>
      match parse_u32 key with
      | Some slot => slot_entries entries (<[slot := password]> acc)
      | None => Err (NotASlot key)
      end
  end.

Definition parse_slot_passwords (raw : string) : result SecretError (gmap Z string) :=
  match parse_map raw with
  | Ok entries => slot_entries entries ∅
  | Err detail => Err (NotAnObject detail)
  end.

Definition merge (argv : FromArgv) (env : string -> option string) : result SecretError Secrets :=
  slot_passwords ← match env SLOT_PASSWORDS with
                   | None => Ok None
                   | Some raw => Some <$> parse_slot_passwords raw
                   end;
  let '(password, from_env, warnings1) := pick PASSWORD (env PASSWORD) (fa_password argv) "--password" in
  let '(server_password, server_from_env, warnings2) :=
    pick SERVER_PASSWORD (env SERVER_PASSWORD) (fa_server_password argv) "--server-password" in
  if bool_decide (is_Some password) && bool_decide (is_Some slot_passwords) then Err BothModes
  else
    admin_token ← match env ADMIN_TOKEN with
                  | None => Ok None
                  | Some token => if (String.length token <? MIN_ADMIN_TOKEN_BYTES)%nat
                                  then Err (ShortToken (String.length token)) else Ok (Some token)
                  end;
    Ok (mkSecrets password server_password slot_passwords from_env server_from_env admin_token (warnings1 ++ warnings2)).

Lemma pick_spec name from_env from_argv flag v env ws : pick name from_env from_argv flag = (v, env, ws) ->
  v = match from_env with Some x => Some x | None => from_argv end /\ env = bool_decide (is_Some from_env) /\
  (forall w, from_argv = Some w -> ws <> []).
Proof. unfold pick. destruct from_env, from_argv; intros; simplify_eq; naive_solver. Qed.

Lemma slot_entries_spec entries : forall acc m, slot_entries entries acc = Ok m ->
  (forall slot, is_Some (m !! slot) <-> is_Some (acc !! slot) \/ exists key pw, In (key, pw) entries /\ parse_u32 key = Some slot) /\
  (forall slot pw, m !! slot = Some pw -> acc !! slot = Some pw \/ exists key, In (key, pw) entries /\ parse_u32 key = Some slot).
Proof.
  induction entries as [|[key pw] entries IH]; intros acc m H; cbn [slot_entries] in H.
  - simplify_eq. split; [naive_solver|tauto].
  - destruct (parse_u32 key) as [slot|] eqn:E; [|done]. apply IH in H as [Hd Hv]. split.
    + intros s. rewrite Hd, lookup_insert_is_Some'. split.
      * intros [[->|H]|(k & p & Hin & Hk)]; [right; exists key, pw; split; [by left|done]|by left|].
        right. exists k, p. split; [by right|done].
      * intros [H|(k & p & [[= -> ->]|Hin] & Hk)]; [by do 2 (left + right)|left; left; congruence|right; by exists k, p].
    + intros s p Hs. apply Hv in Hs as [Hs|(k & Hin & Hk)]; [|right; exists k; split; [by right|done]].
      apply lookup_insert_Some in Hs as [[<- <-]|[_ Hs]]; [right; exists key; split; [by left|done]|by left].
Qed.

(** A room's secrets are the ones configured, or it does not start.  Resolution
    gives the environment's password over the command line's, and a warning for
    either on the command line; never a room password together with slot passwords,
    whichever source they came from; an admin token of at least 32 bytes or none;
    and slot passwords exactly when their variable is set, each the value of a key
    that is that slot's number, so that a slot nobody named has none. *)
Theorem secrets_are_the_configured_ones argv env s :
  merge argv env = Ok s ->
  sc_password s = (match env PASSWORD with Some p => Some p | None => fa_password argv end) /\
  sc_server_password s = (match env SERVER_PASSWORD with Some p => Some p | None => fa_server_password argv end) /\
  (is_Some (fa_password argv) \/ is_Some (fa_server_password argv) -> sc_warnings s <> []) /\
  (is_Some (sc_password s) -> sc_slot_passwords s = None) /\
  sc_admin_token s = env ADMIN_TOKEN /\
  (forall token, sc_admin_token s = Some token -> (MIN_ADMIN_TOKEN_BYTES <= String.length token)%nat) /\
  match env SLOT_PASSWORDS with
  | None => sc_slot_passwords s = None
  | Some raw => exists m entries, sc_slot_passwords s = Some m /\ parse_map raw = Ok entries /\
      forall slot, (is_Some (m !! slot) <-> exists key pw, In (key, pw) entries /\ parse_u32 key = Some slot) /\
        forall pw, m !! slot = Some pw -> exists key, In (key, pw) entries /\ parse_u32 key = Some slot
  end.
Proof.
  unfold merge. intros H. apply bind_ok in H as (slots & Hslots & H).
  destruct (pick PASSWORD _ _ _) as [[p pe] w1] eqn:E1. destruct (pick SERVER_PASSWORD _ _ _) as [[q qe] w2] eqn:E2.
  apply pick_spec in E1 as (-> & _ & W1), E2 as (-> & _ & W2).
  destruct (bool_decide _ && bool_decide _) eqn:Eb; [done|].
  apply bind_ok in H as (token & Htoken & H). simplify_eq/=.
  split; [done|]. split; [done|]. split.
  { intros [[v Hv]|[v Hv]] Hw; apply app_eq_nil in Hw as [Hw1 Hw2]; [by eapply W1|by eapply W2]. }
  split.
  { intros Hp. rewrite (bool_decide_eq_true_2 _ Hp) in Eb. cbn in Eb. apply bool_decide_eq_false in Eb.
    destruct slots; [|done]. exfalso. apply Eb. by eexists. }
  assert (Ht : token = env ADMIN_TOKEN /\ forall t, token = Some t -> (MIN_ADMIN_TOKEN_BYTES <= String.length t)%nat).
  { destruct (env ADMIN_TOKEN) as [t|]; [|by simplify_eq]. destruct (Nat.ltb_spec (String.length t) MIN_ADMIN_TOKEN_BYTES); [done|].
    simplify_eq. split; [done|]. by intros ? [= <-]. }
  destruct Ht as [Ht Hl]. split; [done|]. split; [done|].
  destruct (env SLOT_PASSWORDS) as [raw|]; [|by simplify_eq]. unfold parse_slot_passwords in Hslots.
  destruct (parse_map raw) as [entries|]; [|done]. destruct (slot_entries entries ∅) as [m|] eqn:Em; [|done].
  cbn in Hslots. simplify_eq. exists m, entries. split; [done|]. split; [done|]. intros slot.
  apply slot_entries_spec in Em as [Hd Hv]. split.
  - rewrite (Hd slot), lookup_empty. split; [intros [[? ?]|?]; done|by right].
  - intros pw Hpw. apply Hv in Hpw as [Hpw|?]; [by rewrite lookup_empty in Hpw|done].
Qed.
End secrets.

(** ** The theorems at concrete inputs *)

Lemma suggestions_are_nearest_witness :
  exists o c, o ∈ SERVE_OPTS /\ op_name o = "--save-dir"%string /\ c ∈ candidates o /\
    edits (distance (chars "--save-dirr") (chars c)) (chars "--save-dirr") (chars c) /\
    (distance (chars "--save-dirr") (chars c) <= 2)%nat /\
    (distance (chars "--save-dirr") (chars c) * 3 <= String.length "--save-dirr")%nat /\
    forall o' c' m, o' ∈ SERVE_OPTS -> c' ∈ candidates o' -> edits m (chars "--save-dirr") (chars c') ->
      (distance (chars "--save-dirr") (chars c) <= m)%nat.
Proof. apply suggestions_are_nearest. vm_compute. reflexivity. Defined.

Definition demo_args : list Arg :=
  [APositional "seed.archipelago"; AValue (value "--hint-cost" ["--hint_cost"%string]) "--hint_cost" "20" false;
   AFlag (flag "--journal" []) "--journal"; AValue (value "--password" []) "--password" "hunter2" true;
   AValue (value "--server-password" ["--server_password"%string]) "--server_password" "admin" false].

Lemma demo_args_ok : Forall (arg_ok SERVE_OPTS) demo_args.
Proof. repeat apply Forall_cons_2; try apply Forall_nil_2; repeat split; done. Qed.

Lemma command_lines_are_read_witness :
  parse ["seed.archipelago"; "--hint_cost"; "20"; "--journal"; "--password=hunter2"; "--server_password"; "admin"]%string SERVE_OPTS =
    settle demo_args parsed_default /\
  forall p v, settle demo_args parsed_default = Ok p ->
    parse (concat (render_arg <$> demo_args) ++ ["--save-dirr"; "x"]%string) SERVE_OPTS = Err (Unknown "--save-dirr" (Some "--save-dir"%string)) /\
    parse (concat (render_arg <$> demo_args) ++ [("--save-dirr" +:+ String "=" v)%string; "x"%string]) SERVE_OPTS =
      Err (Unknown "--save-dirr" (Some "--save-dir"%string)).
Proof.
  assert (Hc : closest "--save-dirr" SERVE_OPTS = Some "--save-dir"%string) by (vm_compute; reflexivity).
  rewrite <-Hc. apply (command_lines_are_read SERVE_OPTS demo_args "--save-dirr" ["x"%string] demo_args_ok); done.
Defined.

Example masked_banner :
  redact (concat (render_arg <$> demo_args)) false =
  ["seed.archipelago"; "--hint_cost"; "20"; "--journal"; "--password=***"; "--server_password"; "***"]%string.
Proof.
  apply (banners_are_masked SERVE_OPTS demo_args demo_args_ok).
  repeat apply Forall_cons_2; try apply Forall_nil_2; cbn; try done; (by left) || (by right).
Defined.

Definition demo_env (name : string) : option string :=
  if bool_decide (name = SLOT_PASSWORDS) then Some "{1: key}"%string
  else if bool_decide (name = ADMIN_TOKEN) then Some "0123456789abcdef0123456789abcdef"%string else None.

Lemma secrets_are_the_configured_ones_witness :
  exists s, merge (fun _ => Ok [("1", "key")]%string) (mkFromArgv None (Some "admin"%string)) demo_env = Ok s /\
    sc_server_password s = Some "admin"%string /\ sc_warnings s <> [].
Proof.
  eexists. split; [reflexivity|].
  edestruct (secrets_are_the_configured_ones (fun _ => Ok [("1", "key")]%string)
    (mkFromArgv None (Some "admin"%string)) demo_env) as (_ & Hs & Hw & _); [reflexivity|].
  split; [exact Hs|]. apply Hw. right. by eexists.
Defined.
