(* ===== verification/Save.v ===== *)
(** * [crates/pahoa-room/src/save.rs], part 2: a snapshot and its bytes

    [Snapshot] has the source's fields, prefixed [s_]; an [Arc] is its content.
    The deflater and the checksum of the [flate2] crate are the operations of
    the class [Flate].  Every collection is sorted before it is written, in
    whatever order a hash map or set gave it. *)

From Stdlib Require Import ZArith Lia Bool.
From stdpp Require Import base tactics list sets gmap strings sorting.
From S2P Require Import Prelude PyRandom PyObj Types Multidata Hints Json PyValue Options Room.
From S2P Require Import SaveBytes.

Open Scope pahoa_scope.

(** "PAHOASAV". *)
Definition MAGIC : list Z := bytes_of_string "PAHOASAV".
Definition FORMAT_VERSION : Z := 3.
Definition VERSION_LOCKED_SLOTS : Z := 2.
Definition VERSION_FILTERS : Z := 3.
Definition ENCODING_RAW : Z := 0.
Definition ENCODING_ZLIB : Z := 1.
Definition HEADER_LEN : nat := 18.

(** [flate2]: a CRC-32, and a zlib stream that inflates to what was deflated. *)
Class Flate : Type := {
  crc32 : list Z -> Z;
  deflate : list Z -> list Z;
  inflate : list Z -> result string (list Z);
  crc32_u32 : forall b, is_u32 (crc32 b);
  inflate_deflate : forall b, inflate (deflate b) = Ok b
}.

(** [sort_unstable_by_key(|(key, _)| *key)]; the keys are distinct. *)
Definition by_key {K V} (le : K -> K -> Prop) (a b : K * V) : Prop := le a.1 b.1.

#[export] Instance by_key_dec {K V} (le : K -> K -> Prop) `{!RelDecision le} :
  RelDecision (by_key (V := V) le).
Proof. intros a b. unfold by_key. apply _. Defined.

Definition sort_by_key {K V} (le : K -> K -> Prop) `{!RelDecision le} (l : list (K * V)) : list (K * V) :=
  merge_sort (by_key le) l.

(** The order of [(u32, u32, bool)]. *)
Definition queuekey_le (a b : QueueKey) : Prop :=
  slotkey_le a.1 b.1 /\ (a.1 = b.1 -> Bool.le a.2 b.2).

#[export] Instance queuekey_le_dec : RelDecision queuekey_le.
Proof.
  intros a b. unfold queuekey_le. destruct (decide (slotkey_le a.1 b.1)); [|by right; intros [? _]].
  destruct (decide (a.1 = b.1)) as [E|E]; [|by left].
  destruct a as [? []], b as [? []]; cbn in *; first [by left | right; intros [_ Hf]; by specialize (Hf E)].
Defined.

(** ** Options *)

Definition encode_options (o : RoomOptions) : list Z :=
  Writer.uvar (hint_cost o) ++
  Writer.uvar (location_check_points o) ++
  concat ((fun mode => Writer.tag (Permission.code mode)) <$>
    [release_mode o; collect_mode o; remaining_mode o; countdown_mode o]) ++
  Writer.byte (Z.b2z (item_cheat o)) ++
  Writer.byte (compatibility o) ++
  each_of (tags o) Writer.str.

Definition read_mode : Rd Permission.t :=
  t ← Reader.tag; or_refuse (Malformed "unknown permission mode") (Permission.from_wire t).

Definition decode_options : Rd RoomOptions :=
  hint_cost ← Reader.u32var;
  location_check_points ← Reader.u32var;
  release_mode ← read_mode;
  collect_mode ← read_mode;
  remaining_mode ← read_mode;
  countdown_mode ← read_mode;
  cheat ← Reader.byte;
  compatibility ← Reader.byte;
  tags ← each_read Reader.str;
  mret (mkRoomOptions None None None hint_cost location_check_points release_mode collect_mode
          remaining_mode countdown_mode (negb (cheat =? 0)) compatibility tags).

Section save.
Context `{JsonText} `{HashOrder} `{Flate}.

Record Snapshot : Type := mkSnapshot {
  s_seed_name : string;
  s_options : RoomOptions;
  s_rng_state : list Z;
  s_location_checks : list (SlotKey * gset Z);
  s_received_items : list (QueueKey * list NetworkItem);
  s_hints : list (SlotKey * list Hint);
  s_hints_used : list (SlotKey * Z);
  s_name_aliases : list (SlotKey * string);
  s_client_game_state : list (SlotKey * ClientStatus.t);
  s_group_collected : list (Z * list Z);
  s_allow_releases : list SlotKey;
  s_stored_data : list (string * Value);
  s_activity_at : list (SlotKey * Z);
  s_connected_at : list (SlotKey * Z);
  s_locked_slots : list SlotKey;
  s_filters : list (string * Value)
}.

(** ** Writing *)

(** The release build's subtraction wraps. *)
Fixpoint put_deltas (previous : Z) (sorted : list Z) : list Z :=
  match sorted with
  | [] => []
  | location :: sorted => Writer.ivar (wrap_i64 (location - previous)) ++ put_deltas location sorted
  end.

Definition put_checks (e : SlotKey * gset Z) : list Z :=
  let sorted := merge_sort Z.le (hash_order (elements e.2)) in
  Writer.key e.1 ++ Writer.uvar (Z.of_nat (length sorted)) ++ put_deltas 0 sorted.

Definition put_item (i : NetworkItem) : list Z :=
  Writer.ivar (ni_item i) ++ Writer.ivar (ni_location i) ++
  Writer.uvar (ni_player i) ++ Writer.uvar (ni_flags i).

Definition put_queue (e : QueueKey * list NetworkItem) : list Z :=
  let '((team, slot, remote), items) := e in
  Writer.uvar team ++ Writer.uvar slot ++ Writer.byte (Z.b2z remote) ++ each_of items put_item.

(** [entrance_index.entry(..).or_insert_with(..)]. *)
Definition intern (t : list string * gmap string Z) (e : string) : list string * gmap string Z :=
  match t.2 !! e with
  | Some _ => t
  | None => (t.1 ++ [e], <[e := wrap32 (Z.of_nat (length t.1))]> t.2)
  end.

Definition entrance_table (hints : list (SlotKey * list Hint)) : list string * gmap string Z :=
  fold_left (fun t e => fold_left (fun t h => intern t (entrance h)) e.2 t) hints ([], ∅).

(** [entrance_index[..]]: every entrance was entered in the table. *)
Definition put_hint (index : gmap string Z) (h : Hint) : list Z :=
  Writer.uvar (receiving_player h) ++ Writer.uvar (finding_player h) ++
  Writer.ivar (h_location h) ++ Writer.ivar (h_item h) ++
  Writer.byte (Z.b2z (found h)) ++
  Writer.uvar (default 0 (index !! entrance h)) ++
  Writer.uvar (item_flags h) ++
  Writer.tag (HintStatus.code (status h)).

Definition put_hints (index : gmap string Z) (e : SlotKey * list Hint) : list Z :=
  Writer.key e.1 ++ each_of e.2 (put_hint index).

Definition put_group (e : Z * list Z) : list Z :=
  Writer.uvar e.1 ++ each_of (merge_sort Z.le e.2) Writer.uvar.

Definition put_value (e : string * Value) : list Z :=
  Writer.str e.1 ++ Writer.bytes (bytes_of_string (json_text e.2)).

Definition put_timers (timers : list (SlotKey * Z)) : list Z :=
  each_of (sort_by_key slotkey_le timers) (fun e => Writer.key e.1 ++ Writer.uvar e.2).

Definition encode_body (s : Snapshot) : list Z :=
  let hints := sort_by_key slotkey_le (s_hints s) in
  let '(entrances, entrance_index) := entrance_table hints in
  Writer.str (s_seed_name s) ++
  encode_options (s_options s) ++
  each_of (s_rng_state s) Writer.u32 ++
  each_of (sort_by_key slotkey_le (s_location_checks s)) put_checks ++
  each_of (sort_by_key queuekey_le (s_received_items s)) put_queue ++
  each_of entrances Writer.str ++
  each_of hints (put_hints entrance_index) ++
  each_of (sort_by_key slotkey_le (s_hints_used s)) (fun e => Writer.key e.1 ++ Writer.ivar e.2) ++
  each_of (sort_by_key slotkey_le (s_name_aliases s)) (fun e => Writer.key e.1 ++ Writer.str e.2) ++
  each_of (sort_by_key slotkey_le (s_client_game_state s))
    (fun e => Writer.key e.1 ++ Writer.tag (ClientStatus.code e.2)) ++
  each_of (sort_by_key Z.le (s_group_collected s)) put_group ++
  each_of (merge_sort slotkey_le (s_allow_releases s)) Writer.key ++
  each_of (sort_by_key string_le (s_stored_data s)) put_value ++
  put_timers (s_activity_at s) ++
  put_timers (s_connected_at s) ++
  each_of (merge_sort slotkey_le (s_locked_slots s)) Writer.key ++
  each_of (sort_by_key string_le (s_filters s)) put_value.

(** [Snapshot::encode]. *)
Definition encode (s : Snapshot) (compress : bool) : list Z :=
  let body := encode_body s in
  let checksum := crc32 body in
  let raw_len := wrap32 (Z.of_nat (length body)) in
  let '(encoding, body) :=
    if compress then (ENCODING_ZLIB, deflate body) else (ENCODING_RAW, body) in
  MAGIC ++ [FORMAT_VERSION] ++ [encoding] ++ le_bytes 4 raw_len ++ le_bytes 4 checksum ++ body.

(** ** Reading *)

(** The reads of a slot's locations: each is a step from the one before. *)
Fixpoint read_deltas (n : nat) (previous : Z) (set : gset Z) : Rd (gset Z) :=
  match n with
  | O => mret set
  | S n =>
      d ← Reader.ivar;
      let location := previous + d in
      if (i64_min <=? location) && (location <=? i64_max)
      then read_deltas n location ({[location]} ∪ set)
      else refuse (Malformed "location id overflowed")
  end.

Definition read_checks : Rd (SlotKey * gset Z) :=
  key ← Reader.key; n ← Reader.count; set ← read_deltas n 0 ∅; mret (key, set).

Definition read_item : Rd NetworkItem :=
  item ← Reader.ivar; location ← Reader.ivar; player ← Reader.u32var; flags ← Reader.u32var;
  mret (mkNetworkItem item location player flags).

Definition read_queue : Rd (QueueKey * list NetworkItem) :=
  team ← Reader.u32var; slot ← Reader.u32var; remote ← Reader.byte; items ← each_read read_item;
  mret ((team, slot, negb (remote =? 0)), items).

Definition read_hint (entrances : list string) : Rd Hint :=
  receiving ← Reader.u32var;
  finding ← Reader.u32var;
  location ← Reader.ivar;
  item ← Reader.ivar;
  f ← Reader.byte;
  i ← Reader.u32var;
  entrance ← or_refuse (Malformed "hint names an unknown entrance") (entrances !! Z.to_nat i);
  flags ← Reader.u32var;
  t ← Reader.tag;
  status ← or_refuse (Malformed "unknown hint status") (HintStatus.from_wire t);
  mret (mkHint receiving finding location item (negb (f =? 0)) entrance flags status).

Definition read_hints (entrances : list string) : Rd (SlotKey * list Hint) :=
  key ← Reader.key; hints ← each_read (read_hint entrances); mret (key, hints).

Definition read_used : Rd (SlotKey * Z) := key ← Reader.key; n ← Reader.ivar; mret (key, n).

Definition read_alias : Rd (SlotKey * string) := key ← Reader.key; s ← Reader.str; mret (key, s).

Definition read_status : Rd (SlotKey * ClientStatus.t) :=
  key ← Reader.key;
  t ← Reader.tag;
  status ← or_refuse (Malformed "unknown client status") (ClientStatus.from_wire t);
  mret (key, status).

Definition read_group : Rd (Z * list Z) :=
  group ← Reader.u32var; members ← each_read Reader.u32var; mret (group, members).

Definition read_value (what : string) : Rd (string * Value) :=
  key ← Reader.str;
  raw ← Reader.bytes;
  value ← or_refuse (Malformed what) (parse_json (string_of_bytes raw));
  mret (key, value).

Definition read_timer : Rd (SlotKey * Z) := key ← Reader.key; at_ ← Reader.uvar; mret (key, at_).

Definition decode_body (version : Z) : Rd Snapshot :=
  seed_name ← Reader.str;
  options ← decode_options;
  rng_state ← each_read Reader.u32;
  location_checks ← each_read read_checks;
  received_items ← each_read read_queue;
  entrances ← each_read Reader.str;
  hints ← each_read (read_hints entrances);
  hints_used ← each_read read_used;
  name_aliases ← each_read read_alias;
  client_game_state ← each_read read_status;
  group_collected ← each_read read_group;
  allow_releases ← each_read Reader.key;
  stored_data ← each_read (read_value "stored value is not JSON");
  activity_at ← each_read read_timer;
  connected_at ← each_read read_timer;
  locked_slots ← (if VERSION_LOCKED_SLOTS <=? version then each_read Reader.key else mret []);
  filters ← (if VERSION_FILTERS <=? version then each_read (read_value "a filter is not JSON") else mret []);
  mret (mkSnapshot seed_name options rng_state location_checks received_items hints hints_used
          name_aliases client_game_state group_collected allow_releases stored_data activity_at
          connected_at locked_slots filters).

(** [Snapshot::decode]. *)
Definition decode (bytes : list Z) : result SaveError Snapshot :=
  if (length bytes <? HEADER_LEN)%nat || negb (bool_decide (firstn 8 bytes = MAGIC)) then Err BadMagic
  else
    let version := nth 8 bytes 0 in
    if FORMAT_VERSION <? version then Err (TooNew version)
    else
      let encoding := nth 9 bytes 0 in
      let raw_len := le_val (firstn 4 (skipn 10 bytes)) in
      let checksum := le_val (firstn 4 (skipn 14 bytes)) in
      let rest := skipn HEADER_LEN bytes in
      body ← (if encoding =? ENCODING_RAW then Ok rest
              else if encoding =? ENCODING_ZLIB then
                match inflate rest with Ok b => Ok b | Err e => Err (InflateFailed e) end
              else Err (UnknownEncoding encoding));
      if negb (Z.of_nat (length body) =? raw_len)
      then Err (Truncated HEADER_LEN raw_len (length body))
      else if negb (crc32 body =? checksum) then Err ChecksumMismatch
      else fst <$> decode_body version (mkCursor body 0).
End save.
