(* ===== verification/SaveTheorems.v ===== *)
(** * Properties of saves

    What a snapshot writes is read back; the bytes do not depend on the order
    a hash map is walked in; older formats are read; and a damaged save is
    refused. *)

From Stdlib Require Import ZArith Lia Bool Ascii.
From stdpp Require Import base tactics list sets gmap strings sorting.
From S2P Require Import Prelude PyRandom PyObj Types Multidata Hints Json PyValue Options Room.
From S2P Require Import SaveBytes Save.

Open Scope pahoa_scope.

(** ** What a save can hold: values of their machine types, strings of UTF-8 *)

Definition key_ok (k : SlotKey) : Prop := is_u32 k.1 /\ is_u32 k.2.

Definition item_ok (i : NetworkItem) : Prop :=
  is_i64 (ni_item i) /\ is_i64 (ni_location i) /\ is_u32 (ni_player i) /\ is_u32 (ni_flags i).

Definition hint_ok (h : Hint) : Prop :=
  is_u32 (receiving_player h) /\ is_u32 (finding_player h) /\ is_i64 (h_location h) /\
  is_i64 (h_item h) /\ utf8_string (entrance h) = true /\ is_u32 (item_flags h).

Definition options_ok (o : RoomOptions) : Prop :=
  is_u32 (hint_cost o) /\ is_u32 (location_check_points o) /\ Forall (fun t => utf8_string t = true) (tags o).

(** Every step between neighbours of a sorted list is an [i64]. *)
Fixpoint steps_fit (previous : Z) (sorted : list Z) : Prop :=
  match sorted with
  | [] => True
  | location :: sorted => is_i64 (location - previous) /\ steps_fit location sorted
  end.

Definition checks_ok (set : gset Z) : Prop :=
  (forall l, l ∈ set -> is_i64 l) /\ steps_fit 0 (merge_sort Z.le (elements set)).

(** The options as a save gives them back. *)
Definition without_secrets (o : RoomOptions) : RoomOptions :=
  mkRoomOptions None None None (hint_cost o) (location_check_points o) (release_mode o)
    (collect_mode o) (remaining_mode o) (countdown_mode o) (item_cheat o) (compatibility o) (tags o).

(** ** The parts *)

Create HintDb save.
#[export] Hint Resolve reads_byte reads_word reads_uvar reads_ivar reads_u32var reads_key reads_tag
  reads_str reads_bytes u32_is_u64 uvar_nonempty app_nonempty : save.

(** Read one field and go on with the next. *)
Ltac rd := eapply reads_bind; [solve [eauto with save]|]; cbn beta.
(** The last field, and the value that is returned. *)
Ltac rd_last := eapply reads_bind_ret; [solve [eauto with save]|intros ?].

Lemma z_of_bool b : negb (Z.b2z b =? 0) = b.
Proof. by destruct b. Qed.

Lemma reads_mode m : reads (Writer.tag (Permission.code m)) read_mode m.
Proof. eapply reads_bind_ret; [apply reads_tag; by destruct m|]. intros c. by destruct m. Qed.

Lemma reads_status_tag s : reads (Writer.tag (ClientStatus.code s)) Reader.tag (ClientStatus.code s).
Proof. apply reads_tag. by destruct s. Qed.

Lemma reads_hint_tag s : reads (Writer.tag (HintStatus.code s)) Reader.tag (HintStatus.code s).
Proof. apply reads_tag. by destruct s. Qed.

#[export] Hint Resolve reads_mode reads_status_tag reads_hint_tag : save.

Lemma str_nonempty s : Writer.str s <> [].
Proof. unfold Writer.str, Writer.bytes. auto with save. Qed.

Lemma key_nonempty k : Writer.key k <> [].
Proof. unfold Writer.key. auto with save. Qed.

#[export] Hint Resolve str_nonempty key_nonempty : save.

Lemma reads_str_list l : Forall (fun t => utf8_string t = true) l -> reads (each_of l Writer.str) (each_read Reader.str) l.
Proof.
  intros Hl. apply reads_each; [apply Forall_true; eauto with save|].
  eapply Forall_impl; [done|]. cbn. eauto with save.
Qed.

Lemma reads_keys l : Forall key_ok l -> reads (each_of l Writer.key) (each_read Reader.key) l.
Proof.
  intros Hl. apply reads_each; [apply Forall_true; eauto with save|].
  eapply Forall_impl; [done|]. intros k [Ht Hs]. eauto with save.
Qed.

#[export] Hint Resolve reads_str_list reads_keys : save.

Lemma reads_options o :
  options_ok o -> reads (encode_options o) decode_options (without_secrets o).
Proof.
  intros (Hh & Hl & Ht). unfold encode_options, decode_options.
  cbn [fmap list_fmap concat]. rewrite app_nil_r, <- !app_assoc. do 8 rd. rd_last.
  rewrite z_of_bool. reflexivity.
Qed.

Lemma reads_item i : item_ok i -> reads (put_item i) read_item i.
Proof. intros (?&?&?&?). unfold put_item, read_item. do 3 rd. rd_last. by destruct i. Qed.

Lemma put_item_nonempty i : put_item i <> [].
Proof. unfold put_item, Writer.ivar. auto with save. Qed.

Lemma reads_items l : Forall item_ok l -> reads (each_of l put_item) (each_read read_item) l.
Proof.
  intros Hl. apply reads_each; [apply Forall_true, put_item_nonempty|].
  eapply Forall_impl; [done|]. apply reads_item.
Qed.

Lemma reads_group e :
  is_u32 e.1 -> Forall is_u32 e.2 -> reads (put_group e) read_group (e.1, merge_sort Z.le e.2).
Proof.
  intros Hg Hm. unfold put_group, read_group. rd. rewrite <- (merge_sort_Permutation Z.le) in Hm.
  eapply reads_bind_ret; [|done]. apply reads_each; [apply Forall_true; eauto with save|].
  eapply Forall_impl; [done|]. eauto with save.
Qed.

Section parts.
Context `{JsonText} `{HashOrder} `{Flate}.

Lemma reads_queue e :
  key_ok e.1.1 -> Forall item_ok e.2 -> reads (put_queue e) read_queue e.
Proof.
  destruct e as [[[team slot] remote] items]. intros [Ht Hs] Hi. cbn in *. unfold read_queue.
  do 3 rd. eapply reads_bind_ret; [by apply reads_items|]. intros c. by rewrite z_of_bool.
Qed.

(** ** Checked locations *)

Lemma reads_deltas previous sorted set :
  Forall is_i64 sorted -> steps_fit previous sorted ->
  reads (put_deltas previous sorted) (read_deltas (length sorted) previous set)
    (list_to_set sorted ∪ set).
Proof.
  revert previous set. induction sorted as [|l sorted IH]; intros previous set Hl Hs.
  { cbn. rewrite union_empty_l_L. apply reads_ret. }
  apply Forall_cons in Hl as [Hl Hf]. destruct Hs as [Hd Hs]. cbn [put_deltas read_deltas length].
  assert (wrap_i64 (l - previous) = l - previous) as ->.
  { unfold is_i64 in Hd. unfold wrap_i64. rewrite Z.mod_small; lia. }
  rd. replace (previous + (l - previous)) with l by lia. unfold is_i64 in Hl.
  rewrite (proj2 (Z.leb_le _ _)), (proj2 (Z.leb_le _ _)) by (unfold i64_min, i64_max; lia). cbn [andb].
  assert (list_to_set (l :: sorted) ∪ set = list_to_set sorted ∪ ({[l]} ∪ set)) as -> by set_solver.
  by apply IH.
Qed.

Lemma put_deltas_length previous sorted : (length sorted <= length (put_deltas previous sorted))%nat.
Proof.
  revert previous. induction sorted as [|l sorted IH]; intros previous; [done|]. cbn [put_deltas length].
  rewrite length_app. specialize (IH l). unfold Writer.ivar.
  pose proof (uvar_nonempty (wrap64 (wrap_i64 (wrap_i64 (l - previous) ^<< 1) ^^ (wrap_i64 (l - previous) ^>> 63)))) as Hn.
  destruct (Writer.uvar _); [done|]. cbn. lia.
Qed.

(** The order a set was walked in is gone once it is sorted. *)
Lemma sorted_elements (set : gset Z) :
  merge_sort Z.le (hash_order (elements set)) = merge_sort Z.le (elements set).
Proof.
  apply (Sorted_unique Z.le); try apply (Sorted_merge_sort Z.le). by rewrite !merge_sort_Permutation, hash_order_perm.
Qed.

Lemma reads_checks e : key_ok e.1 -> checks_ok e.2 -> reads (put_checks e) read_checks e.
Proof.
  destruct e as [key set]. intros [Ht Hs] [Hl Hf]. cbn in *. unfold put_checks, read_checks. cbn [fst snd].
  rewrite sorted_elements. set (sorted := merge_sort Z.le (elements set)) in *. rd.
  eapply reads_counted; [apply put_deltas_length|]. cbn beta.
  assert (list_to_set sorted ∪ ∅ = set) as Hset.
  { rewrite union_empty_r_L. unfold sorted. rewrite (merge_sort_Permutation Z.le). apply list_to_set_elements_L. }
  rewrite <- Hset at 1. apply (reads_map _ _ (fun set => (key, set))). apply reads_deltas; [|done].
  apply Forall_forall. intros l Hin. apply Hl. unfold sorted in Hin.
  rewrite merge_sort_Permutation in Hin. by apply elem_of_elements.
Qed.

(** A step that wraps takes the reader out of the [i64]s. *)
Lemma refuses_deltas previous sorted set :
  is_i64 previous -> Forall is_i64 sorted -> ~ steps_fit previous sorted ->
  refuses (put_deltas previous sorted) (read_deltas (length sorted) previous set)
    (Malformed "location id overflowed").
Proof.
  revert previous set. induction sorted as [|l sorted IH]; intros previous set Hp Hl Hs; [by destruct Hs|].
  apply Forall_cons in Hl as [Hl Hf]. cbn [put_deltas read_deltas length].
  assert (is_i64 (wrap_i64 (l - previous))) as Hw.
  { unfold wrap_i64, is_i64. pose proof (Z.mod_pos_bound (l - previous + 2 ^ 63) (2 ^ 64)). lia. }
  eapply refuses_after; [by apply reads_ivar|]. cbn beta zeta.
  destruct ((i64_min <=? _) && _) eqn:E.
  - breflect. assert (is_i64 (l - previous)) as Hd.
    { unfold is_i64, wrap_i64, i64_min, i64_max in *. pose proof (Z.div_mod (l - previous + 2 ^ 63) (2 ^ 64)). lia. }
    assert (wrap_i64 (l - previous) = l - previous) as ->.
    { unfold is_i64 in Hd. unfold wrap_i64. rewrite Z.mod_small; lia. }
    replace (previous + (l - previous)) with l by lia. apply IH; [done|done|]. intros Hs'. by apply Hs.
  - intros _ pre post. reflexivity.
Qed.

(** A slot's checked locations come back from a save exactly when no two
    neighbours of the sorted list are [2^63] or more apart; otherwise the
    difference wraps when it is written, and the save that holds it is refused as
    malformed. *)
Theorem checks_survive_unless_far_apart (key : SlotKey) (set : gset Z) :
  key_ok key -> (forall l, l ∈ set -> is_i64 l) ->
  let gaps_fit := steps_fit 0 (merge_sort Z.le (elements set)) in
  (gaps_fit -> reads (put_checks (key, set)) read_checks (key, set)) /\
  (~ gaps_fit -> refuses (put_checks (key, set)) read_checks (Malformed "location id overflowed")).
Proof.
  intros [Ht Hk] Hl gaps_fit. split; [by intros Hf; apply reads_checks|]. intros Hn.
  unfold put_checks, read_checks. cbn [fst snd]. rewrite sorted_elements.
  eapply refuses_after; [eauto with save|]. apply refuses_counted; [apply put_deltas_length|].
  apply refuses_bind, refuses_deltas; [unfold is_i64; lia| |done].
  apply Forall_forall. intros l Hin. apply Hl. rewrite merge_sort_Permutation in Hin. by apply elem_of_elements.
Qed.

(** ** Hints and their entrances *)

Definition table_ok (t : list string * gmap string Z) : Prop :=
  Z.of_nat (length t.1) < 2 ^ 32 ->
  forall e i, t.2 !! e = Some i -> 0 <= i < 2 ^ 32 /\ t.1 !! Z.to_nat i = Some e.

Lemma intern_ok t e : table_ok t -> table_ok (intern t e).
Proof.
  intros Ht. unfold intern. destruct (t.2 !! e) as [?|] eqn:E; [done|]. unfold table_ok. cbn [fst snd].
  rewrite length_app. cbn [length]. intros Hl e' i Hi. rewrite lookup_insert_Some in Hi. destruct Hi as [[<- <-]|[_ Hi]].
  - unfold wrap32. rewrite Z.mod_small by lia. split; [lia|]. rewrite Nat2Z.id. by apply list_lookup_middle.
  - destruct (Ht ltac:(lia) e' i Hi) as [? Hl']. split; [done|]. by apply lookup_app_l_Some.
Qed.

Lemma intern_keeps t e e' : is_Some (t.2 !! e') -> is_Some ((intern t e).2 !! e').
Proof.
  intros Hs. unfold intern. destruct (t.2 !! e) eqn:E; [done|]. cbn.
  destruct (decide (e = e')) as [->|Hne]; [by rewrite lookup_insert_eq|by rewrite lookup_insert_ne].
Qed.

Lemma intern_has t e : is_Some ((intern t e).2 !! e).
Proof. unfold intern. destruct (t.2 !! e) eqn:E; [by eexists|]. cbn. by rewrite lookup_insert_eq. Qed.

(** The table of a list of hints, as one pass over their entrances. *)
Lemma table_flat hints t :
  fold_left (fun t (e : SlotKey * list Hint) => fold_left (fun t h => intern t (entrance h)) e.2 t) hints t =
  fold_left intern (entrance <$> (hints ≫= snd)) t.
Proof.
  revert t. induction hints as [|[k l] hints IH]; intros t; [done|]. cbn [fold_left snd].
  rewrite IH, bind_cons, fmap_app, fold_left_app. f_equal. cbn [snd]. clear IH. revert t.
  induction l as [|h l IH]; intros t; [done|]. cbn. apply IH.
Qed.

Lemma fold_intern_ok es t :
  table_ok t -> Forall (fun e => utf8_string e = true) es -> Forall (fun e => utf8_string e = true) t.1 ->
  table_ok (fold_left intern es t) /\ Forall (fun e => utf8_string e = true) (fold_left intern es t).1 /\
  forall e, e ∈ es \/ is_Some (t.2 !! e) -> is_Some ((fold_left intern es t).2 !! e).
Proof.
  revert t. induction es as [|e es IH]; intros t Ht He Hf.
  { split_and!; [done|done|]. intros e [He'|He']; [by apply not_elem_of_nil in He'|done]. }
  apply Forall_cons in He as [He Hes]. destruct (IH (intern t e)) as (H3 & H4 & H5); [by apply intern_ok|done| |].
  { unfold intern. destruct (t.2 !! e); [done|]. cbn. apply Forall_app. by repeat constructor. }
  split_and!; [done|done|]. intros e' He'. apply H5.
  rewrite elem_of_cons in He'. destruct He' as [[->|?]|?]; [right; apply intern_has|by left|right].
  by apply intern_keeps.
Qed.

Lemma entrance_table_ok hints :
  Forall (fun e => Forall hint_ok e.2) hints ->
  let t := entrance_table hints in
  table_ok t /\ Forall (fun e => utf8_string e = true) t.1 /\
  forall e h, e ∈ hints -> h ∈ e.2 -> is_Some (t.2 !! entrance h).
Proof.
  intros Hh t. unfold t, entrance_table. rewrite table_flat.
  destruct (fold_intern_ok (entrance <$> (hints ≫= snd)) ([], ∅)) as (H3 & H4 & H5).
  - intros _ e i. cbn. by rewrite lookup_empty.
  - apply Forall_forall. intros s (h & -> & Hin)%list_elem_of_fmap.
    apply list_elem_of_bind in Hin as (e & Hin & He). rewrite Forall_forall in Hh. specialize (Hh _ He).
    rewrite Forall_forall in Hh. specialize (Hh _ Hin). by destruct Hh as (_&_&_&_&?&_).
  - constructor.
  - split_and!; [done|done|]. intros e h He Hin. apply H5. left. apply list_elem_of_fmap_2.
    apply list_elem_of_bind. eauto.
Qed.

Lemma reads_hint es index h :
  table_ok (es, index) -> Z.of_nat (length es) < 2 ^ 32 -> is_Some (index !! entrance h) -> hint_ok h ->
  reads (put_hint index h) (read_hint es) h.
Proof.
  intros Ht Hl [i Hi] (?&?&?&?&_&?). destruct (Ht Hl (entrance h) i Hi) as [Hir He]. cbn in He.
  unfold put_hint, read_hint. rewrite Hi. cbn [default from_option id]. do 5 rd.
  assert (is_u32 i) by done. rd. rewrite He. cbn [or_refuse].
  eapply (reads_bind []); [apply reads_ret|]. cbn beta. rd.
  eapply reads_bind_ret; [apply reads_hint_tag|]. intros c. rewrite z_of_bool.
  destruct h as [? ? ? ? ? ? ? []]; reflexivity.
Qed.

Lemma reads_hints es index (hints : list (SlotKey * list Hint)) :
  table_ok (es, index) -> Z.of_nat (length es) < 2 ^ 32 ->
  (forall e h, e ∈ hints -> h ∈ e.2 -> is_Some (index !! entrance h)) ->
  Forall (fun e => key_ok e.1 /\ Forall hint_ok e.2) hints ->
  reads (each_of hints (put_hints index)) (each_read (read_hints es)) hints.
Proof.
  intros Ht Hl Hi Hh. apply reads_each; [apply Forall_true; intros; unfold put_hints; auto with save|].
  apply Forall_forall. intros [key list] He. rewrite Forall_forall in Hh.
  destruct (Hh _ He) as [[Hk1 Hk2] Hok]. unfold put_hints, read_hints. cbn [fst snd] in *. rd.
  apply (reads_map _ _ (fun l => (key, l))). apply reads_each.
  { apply Forall_true. intros h. unfold put_hint. auto with save. }
  rewrite Forall_forall in Hok |- *. intros h Hin. apply reads_hint; [done..| |by apply Hok].
  by apply (Hi (key, list)).
Qed.

(** ** The small maps *)

(** A sorted collection of keyed entries. *)
Lemma reads_sorted {K V} (le : K -> K -> Prop) `{!RelDecision le} (one : K * V -> list Z)
    (p : Rd (K * V)) (ok : K * V -> Prop) l :
  (forall e, one e <> []) -> (forall e, ok e -> reads (one e) p e) -> Forall ok l ->
  reads (each_of (sort_by_key le l) one) (each_read p) (sort_by_key le l).
Proof.
  intros Hne Hr Hl. apply reads_each; [by apply Forall_true|]. unfold sort_by_key.
  rewrite <- (merge_sort_Permutation (by_key le)) in Hl. by eapply Forall_impl.
Qed.

Lemma reads_sorted_keys l :
  Forall key_ok l -> reads (each_of (merge_sort slotkey_le l) Writer.key) (each_read Reader.key) (merge_sort slotkey_le l).
Proof. intros Hl. apply reads_keys. by rewrite (merge_sort_Permutation slotkey_le). Qed.

Lemma reads_used (e : SlotKey * Z) : key_ok e.1 /\ is_i64 e.2 -> reads (Writer.key e.1 ++ Writer.ivar e.2) read_used e.
Proof. destruct e as [k n]. intros [[? ?] ?]. unfold read_used. rd. rd_last. done. Qed.

Lemma reads_alias (e : SlotKey * string) :
  key_ok e.1 /\ utf8_string e.2 = true -> reads (Writer.key e.1 ++ Writer.str e.2) read_alias e.
Proof. destruct e as [k s]. intros [[? ?] ?]. unfold read_alias. rd. rd_last. done. Qed.

Lemma reads_status (e : SlotKey * ClientStatus.t) :
  key_ok e.1 -> reads (Writer.key e.1 ++ Writer.tag (ClientStatus.code e.2)) read_status e.
Proof. destruct e as [k s]. intros [? ?]. unfold read_status. rd. rd_last. by destruct s. Qed.

Lemma reads_timer (e : SlotKey * Z) : key_ok e.1 /\ is_u64 e.2 -> reads (Writer.key e.1 ++ Writer.uvar e.2) read_timer e.
Proof. destruct e as [k s]. intros [[? ?] ?]. unfold read_timer. rd. rd_last. done. Qed.

(** A value is what its own text parses to. *)
Definition value_ok (e : string * Value) : Prop :=
  utf8_string e.1 = true /\ parse_json (json_text e.2) = Some e.2.

Lemma reads_value what e : value_ok e -> reads (put_value e) (read_value what) e.
Proof.
  destruct e as [k v]. intros [? Hv]. cbn [fst snd] in *. unfold put_value, read_value. cbn [fst snd]. rd.
  eapply reads_bind_ret; [apply reads_bytes|]. intros c. by rewrite string_of_bytes_of, Hv.
Qed.

Lemma reads_timers l :
  Forall (fun e => key_ok e.1 /\ is_u64 e.2) l -> reads (put_timers l) (each_read read_timer) (sort_by_key slotkey_le l).
Proof. apply reads_sorted; [intros; auto with save|apply reads_timer]. Qed.

Lemma reads_value_list what l :
  Forall value_ok l ->
  reads (each_of (sort_by_key string_le l) put_value) (each_read (read_value what)) (sort_by_key string_le l).
Proof. apply reads_sorted; [intros; unfold put_value; auto with save|apply reads_value]. Qed.

Lemma reads_groups l :
  Forall (fun e : Z * list Z => is_u32 e.1 /\ Forall is_u32 e.2) l ->
  reads (each_of (sort_by_key Z.le l) put_group) (each_read read_group)
    ((fun e => (e.1, merge_sort Z.le e.2)) <$> sort_by_key Z.le l).
Proof.
  intros Hl. set (s := sort_by_key Z.le l). set (f := fun e : Z * list Z => _).
  assert (reads (concat (put_group <$> s)) (times (length s) read_group) (f <$> s)) as Hr.
  { assert (Forall (fun e => is_u32 e.1 /\ Forall is_u32 e.2) s) as Hs.
    { unfold s, sort_by_key. by rewrite (merge_sort_Permutation (by_key Z.le)). }
    clearbody s. clear Hl. induction Hs as [|e s [? ?] _ IH]; [apply reads_ret|]. cbn [length times].
    eapply (reads_bind (put_group e)); [by apply reads_group|]. by apply (reads_map _ _ (cons _)). }
  apply reads_counted; [|done]. apply concat_length, Forall_true. intros e. unfold put_group. auto with save.
Qed.

(** A field that the version may not have. *)
Lemma reads_if {A} (b : bool) w (p : Rd (list A)) l :
  reads w p l -> reads (if b then w else []) (if b then p else mret []) (if b then l else []).
Proof. intros Hr. destruct b; [done|apply reads_ret]. Qed.

(** ** A snapshot *)

Record storable (s : Snapshot) : Prop := mkStorable {
  st_seed : utf8_string (s_seed_name s) = true;
  st_options : options_ok (s_options s);
  st_rng : Forall is_u32 (s_rng_state s);
  st_checks : Forall (fun e => key_ok e.1 /\ checks_ok e.2) (s_location_checks s);
  st_items : Forall (fun e => key_ok e.1.1 /\ Forall item_ok e.2) (s_received_items s);
  st_hints : Forall (fun e => key_ok e.1 /\ Forall hint_ok e.2) (s_hints s);
  st_used : Forall (fun e => key_ok e.1 /\ is_i64 e.2) (s_hints_used s);
  st_aliases : Forall (fun e => key_ok e.1 /\ utf8_string e.2 = true) (s_name_aliases s);
  st_states : Forall (fun e => key_ok e.1) (s_client_game_state s);
  st_groups : Forall (fun e => is_u32 e.1 /\ Forall is_u32 e.2) (s_group_collected s);
  st_releases : Forall key_ok (s_allow_releases s);
  st_stored : Forall value_ok (s_stored_data s);
  st_activity : Forall (fun e => key_ok e.1 /\ is_u64 e.2) (s_activity_at s);
  st_connected : Forall (fun e => key_ok e.1 /\ is_u64 e.2) (s_connected_at s);
  st_locked : Forall key_ok (s_locked_slots s);
  st_filters : Forall value_ok (s_filters s)
}.

(** What a save gives back: every collection sorted, the secrets gone, and
    nothing that the format's version does not carry. *)
Definition canonical_at (version : Z) (s : Snapshot) : Snapshot :=
  mkSnapshot (s_seed_name s) (without_secrets (s_options s)) (s_rng_state s)
    (sort_by_key slotkey_le (s_location_checks s))
    (sort_by_key queuekey_le (s_received_items s))
    (sort_by_key slotkey_le (s_hints s))
    (sort_by_key slotkey_le (s_hints_used s))
    (sort_by_key slotkey_le (s_name_aliases s))
    (sort_by_key slotkey_le (s_client_game_state s))
    ((fun e => (e.1, merge_sort Z.le e.2)) <$> sort_by_key Z.le (s_group_collected s))
    (merge_sort slotkey_le (s_allow_releases s))
    (sort_by_key string_le (s_stored_data s))
    (sort_by_key slotkey_le (s_activity_at s))
    (sort_by_key slotkey_le (s_connected_at s))
    (if VERSION_LOCKED_SLOTS <=? version then merge_sort slotkey_le (s_locked_slots s) else [])
    (if VERSION_FILTERS <=? version then sort_by_key string_le (s_filters s) else []).

Definition canonical : Snapshot -> Snapshot := canonical_at FORMAT_VERSION.

(** The body as a writer of [version] would have written it: without the fields
    appended since. *)
Definition body_at (version : Z) (s : Snapshot) : list Z :=
  let hints := sort_by_key slotkey_le (s_hints s) in
  let t := entrance_table hints in
  Writer.str (s_seed_name s) ++
  encode_options (s_options s) ++
  each_of (s_rng_state s) Writer.u32 ++
  each_of (sort_by_key slotkey_le (s_location_checks s)) put_checks ++
  each_of (sort_by_key queuekey_le (s_received_items s)) put_queue ++
  each_of t.1 Writer.str ++
  each_of hints (put_hints t.2) ++
  each_of (sort_by_key slotkey_le (s_hints_used s)) (fun e => Writer.key e.1 ++ Writer.ivar e.2) ++
  each_of (sort_by_key slotkey_le (s_name_aliases s)) (fun e => Writer.key e.1 ++ Writer.str e.2) ++
  each_of (sort_by_key slotkey_le (s_client_game_state s))
    (fun e => Writer.key e.1 ++ Writer.tag (ClientStatus.code e.2)) ++
  each_of (sort_by_key Z.le (s_group_collected s)) put_group ++
  each_of (merge_sort slotkey_le (s_allow_releases s)) Writer.key ++
  each_of (sort_by_key string_le (s_stored_data s)) put_value ++
  put_timers (s_activity_at s) ++
  put_timers (s_connected_at s) ++
  (if VERSION_LOCKED_SLOTS <=? version
   then each_of (merge_sort slotkey_le (s_locked_slots s)) Writer.key else []) ++
  (if VERSION_FILTERS <=? version then each_of (sort_by_key string_le (s_filters s)) put_value else []).

Lemma body_at_current s : body_at FORMAT_VERSION s = encode_body s.
Proof. unfold body_at, encode_body. by destruct (entrance_table _). Qed.

Lemma reads_body version s :
  storable s -> reads (body_at version s) (decode_body version) (canonical_at version s).
Proof.
  intros []. unfold body_at, decode_body, canonical_at.
  assert (Forall (fun e => key_ok e.1 /\ Forall hint_ok e.2) (sort_by_key slotkey_le (s_hints s))) as Hh.
  { unfold sort_by_key. by rewrite (merge_sort_Permutation (by_key slotkey_le)). }
  destruct (entrance_table_ok (sort_by_key slotkey_le (s_hints s))) as (Ht & Hu & Hi).
  { eapply Forall_impl; [exact Hh|]. by intros e [_ He]. }
  destruct (entrance_table _) as [es index]. cbn [fst snd] in *.
  apply reads_small. intros Hsmall.
  assert (Z.of_nat (length es) < 2 ^ 32) as Hes.
  { assert (length es <= length (each_of es Writer.str))%nat as Hle.
    { unfold each_of. rewrite length_app. pose proof (concat_length Writer.str es) as Hc.
      specialize (Hc ltac:(apply Forall_true; auto with save)). lia. }
    rewrite !length_app in Hsmall. lia. }
  clear Hsmall. rd. eapply reads_bind; [by apply reads_options|]. cbn beta.
  eapply reads_bind; [apply reads_each; [by apply Forall_true|by eapply Forall_impl, reads_word]|]. cbn beta.
  eapply reads_bind.
  { apply reads_sorted with (ok := fun e => key_ok e.1 /\ checks_ok e.2); [| |done].
    - intros e. unfold put_checks. auto with save.
    - intros e [? ?]. by apply reads_checks. }
  eapply reads_bind.
  { apply reads_sorted with (ok := fun e => key_ok e.1.1 /\ Forall item_ok e.2); [| |done].
    - intros [[[team slot] remote] items]. unfold put_queue. auto with save.
    - intros e [? ?]. by apply reads_queue. }
  cbn beta. rd. eapply reads_bind; [by eapply reads_hints|]. cbn beta.
  eapply reads_bind; [eapply reads_sorted; [|apply reads_used|done]; intros; auto with save|].
  eapply reads_bind; [eapply reads_sorted; [|apply reads_alias|done]; intros; auto with save|].
  eapply reads_bind; [eapply reads_sorted; [|apply reads_status|done]; intros; auto with save|].
  eapply reads_bind; [by apply reads_groups|]. eapply reads_bind; [by apply reads_sorted_keys|].
  eapply reads_bind; [by apply reads_value_list|]. do 2 (eapply reads_bind; [by apply reads_timers|]).
  eapply reads_bind; [by apply reads_if, reads_sorted_keys|].
  eapply reads_bind_ret; [by apply reads_if, reads_value_list|done].
Qed.

(** ** The file around a body *)

(** A file of a version: [stored] is the body as the encoding keeps it. *)
Definition file (version encoding : Z) (body stored : list Z) : list Z :=
  MAGIC ++ [version] ++ [encoding] ++ le_bytes 4 (wrap32 (Z.of_nat (length body))) ++
  le_bytes 4 (crc32 body) ++ stored.

Lemma encode_file s compress :
  encode s compress =
  file FORMAT_VERSION (if compress then ENCODING_ZLIB else ENCODING_RAW) (encode_body s)
    (if compress then deflate (encode_body s) else encode_body s).
Proof. unfold encode, file. by destruct compress. Qed.

(** The fields of a header, whatever follows it. *)
Lemma file_fields version encoding body stored :
  let f := file version encoding body stored in
  ((length f <? HEADER_LEN)%nat = false) /\ firstn 8 f = MAGIC /\ nth 8 f 0 = version /\
  nth 9 f 0 = encoding /\ le_val (firstn 4 (skipn 10 f)) = wrap32 (Z.of_nat (length body)) /\
  le_val (firstn 4 (skipn 14 f)) = crc32 body /\ skipn HEADER_LEN f = stored.
Proof.
  intros f. assert (forall x, is_u32 x -> le_val (le_bytes 4 x) = x) as Hle.
  { intros x Hx. apply le_val_le_bytes. unfold is_u32 in Hx. cbn. lia. }
  repeat split. all: apply Hle; [apply wrap32_range || apply crc32_u32].
Qed.

Lemma decode_file version encoding body stored :
  version <= FORMAT_VERSION ->
  decode (file version encoding body stored) =
  (body' ← (if encoding =? ENCODING_RAW then Ok stored
           else if encoding =? ENCODING_ZLIB then
             match inflate stored with Ok b => Ok b | Err e => Err (InflateFailed e) end
           else Err (UnknownEncoding encoding));
   if negb (Z.of_nat (length body') =? wrap32 (Z.of_nat (length body)))
   then Err (Truncated HEADER_LEN (wrap32 (Z.of_nat (length body))) (length body'))
   else if negb (crc32 body' =? crc32 body) then Err ChecksumMismatch
   else fst <$> decode_body version (mkCursor body' 0)).
Proof.
  intros Hv. pose proof (file_fields version encoding body stored) as Hf. cbv zeta in Hf.
  destruct Hf as (H3 & H4 & H5 & H6 & H7 & H8 & H9). unfold decode.
  by rewrite H3, H4, H5, H6, H7, H8, H9, bool_decide_true, (proj2 (Z.ltb_ge _ _)) by done.
Qed.

Lemma decode_same version encoding body stored s :
  version <= FORMAT_VERSION -> Z.of_nat (length body) < 2 ^ 32 ->
  (encoding = ENCODING_RAW /\ stored = body \/ encoding = ENCODING_ZLIB /\ stored = deflate body) ->
  reads body (decode_body version) s ->
  decode (file version encoding body stored) = Ok s.
Proof.
  intros Hv Hl He Hr. rewrite decode_file by done.
  specialize (Hr Hl [] []). rewrite app_nil_l, app_nil_r in Hr. cbn [length Nat.add] in Hr.
  assert (negb (Z.of_nat (length body) =? wrap32 (Z.of_nat (length body))) = false) as Hw.
  { unfold wrap32. rewrite Z.mod_small by lia. by rewrite Z.eqb_refl. }
  destruct He as [[-> ->]|[-> ->]]; cbn [Z.eqb ENCODING_RAW ENCODING_ZLIB Pos.eqb]; rewrite ?inflate_deflate;
    cbn [mbind result_bind]; rewrite Hw, Z.eqb_refl; cbn [negb]; by rewrite Hr.
Qed.

(** A save that was written is read back, deflated or not: every check,
    item, hint, point, alias, goal, group, permission, stored value, timer, lock
    and filter, and the random state; only the order of the collections is
    replaced by the sorted one, and the passwords are not there. *)
Theorem saves_round_trip (s : Snapshot) (compress : bool) :
  storable s -> Z.of_nat (length (encode_body s)) < 2 ^ 32 ->
  decode (encode s compress) = Ok (canonical s).
Proof.
  intros Hs Hl. rewrite encode_file. apply decode_same; [done|done|by destruct compress; [right|left]|].
  rewrite <- body_at_current. by apply reads_body.
Qed.

(** A save of an older version is read as one: what its format had comes
    back as it was, a save from before version 2 locks nobody and one from before
    version 3 filters nothing; and a save of a newer version is refused. *)
Theorem older_saves_load (s : Snapshot) (version : Z) :
  storable s -> Z.of_nat (length (body_at version s)) < 2 ^ 32 ->
  let body := body_at version s in
  (version <= FORMAT_VERSION ->
     decode (file version ENCODING_RAW body body) = Ok (canonical_at version s) /\
     (version < VERSION_LOCKED_SLOTS -> s_locked_slots (canonical_at version s) = []) /\
     (version < VERSION_FILTERS -> s_filters (canonical_at version s) = [])) /\
  (FORMAT_VERSION < version -> decode (file version ENCODING_RAW body body) = Err (TooNew version)).
Proof.
  intros Hs Hl body. split; intros Hv.
  - split; [apply decode_same; [done|done|by left|by apply reads_body]|].
    split; intros Hlt; cbn; by rewrite (proj2 (Z.leb_gt _ _)).
  - pose proof (file_fields version ENCODING_RAW body body) as Hf. cbv zeta in Hf.
    destruct Hf as (H3 & H4 & H5 & _). unfold decode.
    by rewrite H3, H4, H5, bool_decide_true, (proj2 (Z.ltb_lt _ _)) by done.
Qed.

(** ** Damage *)

Lemma file_length version encoding body stored :
  length (file version encoding body stored) = (HEADER_LEN + length stored)%nat.
Proof. reflexivity. Qed.

Lemma file_prefix version encoding body stored n :
  (HEADER_LEN <= n)%nat ->
  firstn n (file version encoding body stored) = file version encoding body (firstn (n - HEADER_LEN) stored).
Proof.
  intros Hn. replace n with (HEADER_LEN + (n - HEADER_LEN))%nat at 1 by lia.
  remember (n - HEADER_LEN)%nat as k. reflexivity.
Qed.


(** ** The order a hash map is walked in *)

(** Two snapshots with the same entries, in whatever order. *)
Record same_entries (s t : Snapshot) : Prop := mkSameEntries {
  se_seed : s_seed_name s = s_seed_name t;
  se_options : without_secrets (s_options s) = without_secrets (s_options t);
  se_rng : s_rng_state s = s_rng_state t;
  se_checks : s_location_checks s ≡ₚ s_location_checks t;
  se_items : s_received_items s ≡ₚ s_received_items t;
  se_hints : s_hints s ≡ₚ s_hints t;
  se_used : s_hints_used s ≡ₚ s_hints_used t;
  se_aliases : s_name_aliases s ≡ₚ s_name_aliases t;
  se_states : s_client_game_state s ≡ₚ s_client_game_state t;
  se_groups : (fun e => (e.1, merge_sort Z.le e.2)) <$> s_group_collected s ≡ₚ
              (fun e => (e.1, merge_sort Z.le e.2)) <$> s_group_collected t;
  se_releases : s_allow_releases s ≡ₚ s_allow_releases t;
  se_stored : s_stored_data s ≡ₚ s_stored_data t;
  se_activity : s_activity_at s ≡ₚ s_activity_at t;
  se_connected : s_connected_at s ≡ₚ s_connected_at t;
  se_locked : s_locked_slots s ≡ₚ s_locked_slots t;
  se_filters : s_filters s ≡ₚ s_filters t
}.

(** The maps' entries have distinct keys. *)
Record distinct_keys (s : Snapshot) : Prop := mkDistinctKeys {
  dk_checks : NoDup (s_location_checks s).*1;
  dk_items : NoDup (s_received_items s).*1;
  dk_hints : NoDup (s_hints s).*1;
  dk_used : NoDup (s_hints_used s).*1;
  dk_aliases : NoDup (s_name_aliases s).*1;
  dk_states : NoDup (s_client_game_state s).*1;
  dk_groups : NoDup (s_group_collected s).*1;
  dk_stored : NoDup (s_stored_data s).*1;
  dk_activity : NoDup (s_activity_at s).*1;
  dk_connected : NoDup (s_connected_at s).*1;
  dk_filters : NoDup (s_filters s).*1
}.
End parts.

#[export] Instance slotkey_le_anti : AntiSymm (=) slotkey_le.
Proof. intros [a1 a2] [b1 b2]. unfold slotkey_le. cbn. intros ? ?. f_equal; lia. Qed.

#[export] Instance queuekey_le_total : Total queuekey_le.
Proof.
  intros [a x] [b y]. unfold queuekey_le. cbn. destruct (decide (a = b)) as [->|Hne].
  - destruct (total slotkey_le b b), x, y; cbn; naive_solver.
  - destruct (total slotkey_le a b); naive_solver.
Qed.

#[export] Instance queuekey_le_trans : Transitive queuekey_le.
Proof.
  intros [a x] [b y] [c z]. unfold queuekey_le. cbn. intros [H1 H2] [H3 H4].
  split; [by etrans|]. intros ->. assert (b = c) as -> by (by apply (anti_symm slotkey_le)).
  specialize (H2 eq_refl). specialize (H4 eq_refl). by destruct x, y, z.
Qed.

#[export] Instance queuekey_le_anti : AntiSymm (=) queuekey_le.
Proof.
  intros [a x] [b y]. unfold queuekey_le. cbn. intros [H1 H2] [H3 H4].
  assert (a = b) as -> by (by apply (anti_symm slotkey_le)).
  specialize (H2 eq_refl). specialize (H4 eq_refl). by destruct x, y.
Qed.

#[export] Instance string_le_total : Total string_le.
Proof.
  intros a. unfold string_le. induction a as [|x a IH]; intros [|y b]; cbn; [by left..|by right|].
  destruct (N.ltb_spec (N_of_ascii x) (N_of_ascii y)); [by left|].
  destruct (N.eqb_spec (N_of_ascii x) (N_of_ascii y)) as [E|E].
  - rewrite E, N.ltb_irrefl, N.eqb_refl. apply IH.
  - right. by rewrite (proj2 (N.ltb_lt _ _)) by lia.
Qed.

#[export] Instance string_le_trans : Transitive string_le.
Proof.
  intros a. unfold string_le. induction a as [|x a IH]; intros [|y b] [|z c]; cbn; try done.
  destruct (N.ltb_spec (N_of_ascii x) (N_of_ascii y)), (N.eqb_spec (N_of_ascii x) (N_of_ascii y)),
    (N.ltb_spec (N_of_ascii y) (N_of_ascii z)), (N.eqb_spec (N_of_ascii y) (N_of_ascii z)),
    (N.ltb_spec (N_of_ascii x) (N_of_ascii z)), (N.eqb_spec (N_of_ascii x) (N_of_ascii z)); try done; try lia.
  apply IH.
Qed.

#[export] Instance string_le_anti : AntiSymm (=) string_le.
Proof.
  intros a. unfold string_le. induction a as [|x a IH]; intros [|y b]; cbn; try done.
  destruct (N.ltb_spec (N_of_ascii x) (N_of_ascii y)), (N.eqb_spec (N_of_ascii x) (N_of_ascii y)) as [E|E],
    (N.ltb_spec (N_of_ascii y) (N_of_ascii x)), (N.eqb_spec (N_of_ascii y) (N_of_ascii x)); try done; try lia.
  intros Hab Hba. f_equal; [|by apply IH].
  by rewrite <- (ascii_N_embedding x), E, ascii_N_embedding.
Qed.

Lemma fst_unique {K V} (l : list (K * V)) k v1 v2 :
  NoDup l.*1 -> (k, v1) ∈ l -> (k, v2) ∈ l -> v1 = v2.
Proof.
  induction l as [|[k' v'] l IH]; intros Hn H1 H2; [by apply not_elem_of_nil in H1|].
  rewrite fmap_cons in Hn. apply NoDup_cons in Hn as [Hk Hn]. cbn in Hk.
  rewrite elem_of_cons in H1, H2.
  assert (forall v, (k', v) ∉ l) as Hl.
  { intros v Hin. apply Hk. by apply (list_elem_of_fmap_2 fst) in Hin. }
  destruct H1 as [E1|H1], H2 as [E2|H2]; simplify_eq/=; [done|by edestruct Hl|by edestruct Hl|by apply IH].
Qed.

Lemma sort_by_key_perm {K V} (le : K -> K -> Prop) `{!RelDecision le} `{!Total le} `{!Transitive le}
    `{!AntiSymm (=) le} (l1 l2 : list (K * V)) :
  NoDup l1.*1 -> l1 ≡ₚ l2 -> sort_by_key le l1 = sort_by_key le l2.
Proof.
  intros Hn Hp. unfold sort_by_key.
  assert (Transitive (by_key (V := V) le)) by (intros a b c; unfold by_key; apply transitivity).
  assert (Total (by_key (V := V) le)) by (intros a b; apply (total le)).
  apply (StronglySorted_unique_strong (by_key le)).
  - intros [k1 v1] [k2 v2] Hx Hy Hxy Hyx. assert (k1 = k2) as -> by (by apply (anti_symm le)).
    rewrite merge_sort_Permutation in Hx. rewrite merge_sort_Permutation, <- Hp in Hy.
    f_equal. by eapply fst_unique.
  - by apply (StronglySorted_merge_sort (by_key le)).
  - by apply (StronglySorted_merge_sort (by_key le)).
  - by rewrite !merge_sort_Permutation.
Qed.

Lemma fmap_keys {K V W} (h : V -> W) (m : list (K * V)) : ((fun e => (e.1, h e.2)) <$> m).*1 = m.*1.
Proof. by rewrite <- list_fmap_compose. Qed.

(** Sorting by key commutes with a change of the values. *)
Lemma sort_by_key_fmap {K V W} (le : K -> K -> Prop) `{!RelDecision le} `{!Total le} `{!Transitive le}
    `{!AntiSymm (=) le} (h : V -> W) (l : list (K * V)) :
  NoDup l.*1 ->
  (fun e => (e.1, h e.2)) <$> sort_by_key le l = sort_by_key le ((fun e => (e.1, h e.2)) <$> l).
Proof.
  intros Hn.
  assert (Transitive (by_key (V := W) le)) by (intros a b c; unfold by_key; apply transitivity).
  assert (Total (by_key (V := W) le)) by (intros a b; apply (total le)).
  assert (Transitive (by_key (V := V) le)) by (intros a b c; unfold by_key; apply transitivity).
  assert (Total (by_key (V := V) le)) by (intros a b; apply (total le)).
  unfold sort_by_key. apply (StronglySorted_unique_strong (by_key le)).
  - intros [k1 v1] [k2 v2] Hx Hy Hxy Hyx. assert (k1 = k2) as -> by (by apply (anti_symm le)).
    rewrite merge_sort_Permutation in Hx. rewrite merge_sort_Permutation in Hy. f_equal.
    eapply (fst_unique ((fun e => (e.1, h e.2)) <$> l)); [by rewrite fmap_keys|done|done].
  - assert (StronglySorted (by_key le) (merge_sort (by_key le) l)) as Hs
      by (by apply (StronglySorted_merge_sort (by_key le))).
    induction Hs as [|e m _ IH Hf]; constructor; [done|].
    apply Forall_fmap. eapply Forall_impl; [exact Hf|]. done.
  - by apply (StronglySorted_merge_sort (by_key le)).
  - by rewrite !merge_sort_Permutation.
Qed.

Lemma merge_sort_keys (l1 l2 : list SlotKey) : l1 ≡ₚ l2 -> merge_sort slotkey_le l1 = merge_sort slotkey_le l2.
Proof.
  intros Hp. apply (StronglySorted_unique slotkey_le); try apply (StronglySorted_merge_sort slotkey_le).
  by rewrite !merge_sort_Permutation.
Qed.

Section canonical.
Context `{JsonText} `{Flate}.

Lemma put_checks_order (O1 O2 : HashOrder) e : put_checks (H1 := O1) e = put_checks (H1 := O2) e.
Proof. unfold put_checks. by rewrite !sorted_elements. Qed.

Lemma put_group_sorted l :
  concat (put_group <$> l) =
  concat ((fun e => Writer.uvar e.1 ++ each_of e.2 Writer.uvar) <$> ((fun e => (e.1, merge_sort Z.le e.2)) <$> l)).
Proof. by rewrite <- list_fmap_compose. Qed.

Lemma encode_options_secrets o : encode_options (without_secrets o) = encode_options o.
Proof. by destruct o. Qed.

Lemma same_groups (l1 l2 : list (Z * list Z)) :
  NoDup l1.*1 ->
  (fun e => (e.1, merge_sort Z.le e.2)) <$> l1 ≡ₚ (fun e => (e.1, merge_sort Z.le e.2)) <$> l2 ->
  each_of (sort_by_key Z.le l1) put_group = each_of (sort_by_key Z.le l2) put_group.
Proof.
  intros Hn Hp. assert (NoDup l2.*1) as Hn2.
  { apply (fmap_Permutation fst) in Hp. rewrite !(fmap_keys (merge_sort Z.le)) in Hp. by rewrite <- Hp. }
  assert ((fun e => (e.1, merge_sort Z.le e.2)) <$> sort_by_key Z.le l1 =
          (fun e => (e.1, merge_sort Z.le e.2)) <$> sort_by_key Z.le l2) as Heq.
  { rewrite (sort_by_key_fmap Z.le (merge_sort Z.le) l1), (sort_by_key_fmap Z.le (merge_sort Z.le) l2) by done.
    apply (sort_by_key_perm Z.le); [|exact Hp]. by rewrite (fmap_keys (merge_sort Z.le)). }
  unfold each_of. rewrite !put_group_sorted, Heq. do 3 f_equal.
  apply (f_equal length) in Heq. by rewrite !length_fmap in Heq.
Qed.

Lemma encode_body_same (O1 O2 : HashOrder) s t :
  same_entries s t -> distinct_keys s -> encode_body (H1 := O1) s = encode_body (H1 := O2) t.
Proof.
  intros [] []. unfold encode_body, put_timers, each_of.
  rewrite <- (encode_options_secrets (s_options s)), <- (encode_options_secrets (s_options t)).
  rewrite se_seed0, se_options0, se_rng0.
  rewrite (sort_by_key_perm _ _ _ dk_checks0 se_checks0), (sort_by_key_perm _ _ _ dk_items0 se_items0),
    (sort_by_key_perm _ _ _ dk_hints0 se_hints0), (sort_by_key_perm _ _ _ dk_used0 se_used0),
    (sort_by_key_perm _ _ _ dk_aliases0 se_aliases0), (sort_by_key_perm _ _ _ dk_states0 se_states0),
    (sort_by_key_perm _ _ _ dk_stored0 se_stored0), (sort_by_key_perm _ _ _ dk_activity0 se_activity0),
    (sort_by_key_perm _ _ _ dk_connected0 se_connected0), (sort_by_key_perm _ _ _ dk_filters0 se_filters0),
    (merge_sort_keys _ _ se_releases0), (merge_sort_keys _ _ se_locked0).
  fold (each_of (sort_by_key Z.le (s_group_collected s)) put_group).
  fold (each_of (sort_by_key Z.le (s_group_collected t)) put_group).
  rewrite (same_groups _ _ dk_groups0 se_groups0).
  assert (forall l : list (SlotKey * gset Z), put_checks (H1 := O1) <$> l = put_checks (H1 := O2) <$> l) as Hc.
  { intros l. apply list_fmap_ext. intros. apply put_checks_order. }
  by rewrite Hc.
Qed.
End canonical.
