(* ===== verification/RoomSave.v ===== *)
(** * [crates/pahoa-room/src/room.rs]: taking a snapshot and restoring one

    [snapshot], [seconds], [restore] and [float_seconds], and what a room is
    after its process went down and came back. *)

From Stdlib Require Import ZArith Lia Bool SpecFloat.
From stdpp Require Import base tactics list sets gmap strings sorting relations.
From S2P Require Import Prelude PyRandom PyObj Text Types Datapackage Multidata Conn Hints Json PyValue.
From S2P Require Import Filter Options Effects Room RoomOps RoomStore RoomSpec RoomInv.
From S2P Require Import RoomStoreTheorems SaveBytes Save SaveTheorems.

Section save.
Context `{JsonText} `{HashOrder}.

(** ** Taking a snapshot *)

(** [at.max(0.0)]: the other operand of a NaN. *)
Definition f64_max0 (at_ : f64) : f64 := if f64_leb zero at_ then at_ else zero.

Definition seconds (timers : gmap SlotKey f64) : list (SlotKey * Z) :=
  sort_by_key slotkey_le
    ((fun e => (e.1, f64_as_u64 (f64_max0 e.2))) <$> hash_order (map_to_list timers)).

Definition snapshot (r : Room) : Snapshot :=
  mkSnapshot (seed_name (r_data r)) (r_options r) (to_state (r_rng r))
    (hash_order (map_to_list (r_location_checks r)))
    (hash_order (map_to_list (r_received_items r)))
    (hash_order (map_to_list (by_slot (r_hints r))))
    (hash_order (map_to_list (r_hints_used r)))
    (hash_order (map_to_list (r_name_aliases r)))
    (hash_order (map_to_list (r_client_game_state r)))
    ((fun e => (e.1, hash_order (elements e.2))) <$> hash_order (map_to_list (r_group_collected r)))
    (hash_order (elements (r_allow_releases r)))
    (hash_order (map_to_list (r_stored_data r)))
    (seconds (r_activity_at r))
    (seconds (r_connected_at r))
    (hash_order (elements (r_locked_slots r)))
    ((fun e => (e.1, filter_to_json e.2)) <$> hash_order (map_to_list (r_filters r))).

(** ** Restoring one *)

(** [collect()] into a map: of two entries with one key the later stays. *)
Definition collect {K V} `{Countable K} (l : list (K * V)) : gmap K V :=
  fold_left (fun m e => <[e.1 := e.2]> m) l ∅.

Definition float_seconds (timers : list (SlotKey * Z)) : gmap SlotKey f64 :=
  collect ((fun e => (e.1, f64_of_Z e.2)) <$> timers).

(** The entries whose rules this build can read. *)
Definition readable_filters (l : list (string * Value)) : list (string * Filter) :=
  omap (fun e => match filter_from_json e.2 with Ok f => Some (e.1, f) | Err _ => None end) l.

(** [..snapshot.options], around the room's own secrets. *)
Definition keep_secrets (own saved : RoomOptions) : RoomOptions :=
  mkRoomOptions (password own) (slot_passwords own) (server_password own) (hint_cost saved)
    (location_check_points saved) (release_mode saved) (collect_mode saved) (remaining_mode saved)
    (countdown_mode saved) (item_cheat saved) (compatibility saved) (tags saved).

(** The room is left alone when the snapshot is refused. *)
Definition restore (s : Snapshot) (r : Room) : result SaveError Room :=
  if negb (str_eqb (s_seed_name s) (seed_name (r_data r)))
  then Err (WrongSeed (seed_name (r_data r)) (s_seed_name s))
  else
    rng ← ok_or (Malformed "random state is the wrong shape") (from_state (s_rng_state s));
    let stored := collect (s_stored_data s) in
    Ok (mkRoom (r_data r) (r_datapackage r)
      (keep_secrets (r_options r) (s_options s))
      (r_clients r) (r_by_slot r)
      (collect (s_location_checks s))
      (collect (s_received_items s))
      (collect (s_client_game_state s))
      (collect (s_name_aliases s))
      (float_seconds (s_activity_at s))
      (float_seconds (s_connected_at s))
      (collect (s_hints_used s))
      (fold_left (fun h e => replace h e.1 e.2) (s_hints s) empty_store)
      rng
      (list_to_set (s_allow_releases s))
      (collect (readable_filters (s_filters s)))
      (r_sampler r)
      (list_to_set (s_locked_slots s))
      (collect ((fun e => (e.1, list_to_set e.2)) <$> s_group_collected s))
      (r_countdown r) (r_admin_conn r)
      stored
      (r_stored_data_subscriptions r)
      (wrap64 (foldr (fun e n => entry_bytes e.1 e.2 + n) 0 (hash_order (map_to_list stored))))
      (r_start_time r) (r_clock r)).

(** ** Maps through lists and back *)

Lemma collect_from {K V} `{Countable K} (l : list (K * V)) (m : gmap K V) :
  NoDup l.*1 -> fold_left (fun m e => <[e.1 := e.2]> m) l m = list_to_map l ∪ m.
Proof.
  revert m. induction l as [|[k v] l IH]; intros m Hn.
  { symmetry. apply (left_id_L ∅ (∪)). }
  rewrite fmap_cons in Hn. apply NoDup_cons in Hn as [Hk Hn]. cbn. rewrite IH by done.
  rewrite <- insert_union_l, insert_union_r; [done|]. by apply not_elem_of_list_to_map_1.
Qed.

Lemma collect_spec {K V} `{Countable K} (l : list (K * V)) : NoDup l.*1 -> collect l = list_to_map l.
Proof. intros Hn. unfold collect. by rewrite collect_from, (right_id_L ∅ (∪)). Qed.

(** A list of a map's entries, in any order, collects to the map. *)
Lemma collect_perm {K V} `{Countable K} (l : list (K * V)) (m : gmap K V) :
  l ≡ₚ map_to_list m -> collect l = m.
Proof.
  intros Hp. assert (NoDup l.*1) as Hn by (rewrite Hp; apply NoDup_fst_map_to_list).
  rewrite collect_spec by done. rewrite <- (list_to_map_to_list m). by apply list_to_map_proper.
Qed.

Lemma sort_by_key_is_perm {K V} (le : K -> K -> Prop) `{!RelDecision le} (l : list (K * V)) :
  sort_by_key le l ≡ₚ l.
Proof. apply merge_sort_Permutation. Qed.

Lemma collect_sorted {K V} `{Countable K} (le : K -> K -> Prop) `{!RelDecision le} (m : gmap K V) :
  collect (sort_by_key le (hash_order (map_to_list m))) = m.
Proof. apply collect_perm. by rewrite (sort_by_key_is_perm le), hash_order_perm. Qed.

Lemma hash_keys {K V} `{Countable K} (m : gmap K V) : NoDup (hash_order (map_to_list m)).*1.
Proof. rewrite hash_order_perm. apply NoDup_fst_map_to_list. Qed.

Lemma set_sorted (s : gset SlotKey) : list_to_set (merge_sort slotkey_le (hash_order (elements s))) = s.
Proof. rewrite (merge_sort_Permutation slotkey_le), hash_order_perm. apply list_to_set_elements_L. Qed.

(** ** The parts of a room that are not kept as they are *)

(** A time as a save keeps it. *)
Definition whole_seconds (at_ : f64) : f64 := f64_of_Z (f64_as_u64 (f64_max0 at_)).

Lemma timers_back timers :
  float_seconds (sort_by_key slotkey_le (seconds timers)) = whole_seconds <$> timers.
Proof.
  unfold float_seconds, seconds. apply collect_perm.
  rewrite !(sort_by_key_is_perm slotkey_le), hash_order_perm, map_to_list_fmap.
  rewrite <- list_fmap_compose. done.
Qed.

Lemma groups_back (m : gmap Z (gset Z)) :
  collect ((fun e => (e.1, list_to_set e.2)) <$>
    ((fun e => (e.1, merge_sort Z.le e.2)) <$>
      sort_by_key Z.le ((fun e => (e.1, hash_order (elements e.2))) <$> hash_order (map_to_list m)))) = m.
Proof.
  apply collect_perm. rewrite (sort_by_key_is_perm Z.le), hash_order_perm, <- !list_fmap_compose.
  rewrite <- (list_fmap_id (map_to_list m)) at 2. apply reflexive_eq, list_fmap_ext.
  intros i [k s] _. cbn. f_equal.
  rewrite (merge_sort_Permutation Z.le), hash_order_perm. apply list_to_set_elements_L.
Qed.

Lemma hints_back (m : gmap SlotKey (list Hint)) :
  fold_left (fun h e => replace h e.1 e.2) (sort_by_key slotkey_le (hash_order (map_to_list m))) empty_store =
  mkHintStore m.
Proof.
  rewrite <- (collect_sorted slotkey_le m) at 2. unfold collect, empty_store.
  generalize (sort_by_key slotkey_le (hash_order (map_to_list m))). intros l.
  generalize (∅ : gmap SlotKey (list Hint)). induction l as [|e l IH]; intros m0; [done|]. apply IH.
Qed.

(** A filter that came from its stored form and is not too long. *)
Definition filter_ok (f : Filter) : Prop :=
  (length f <= MAX_RULES)%nat /\
  Forall (fun r => (exists v, rule_from_json v = Ok r) /\
                   (f64_eqb (probability r) one = true -> probability r = one)) f.

Lemma filter_back f : filter_ok f -> filter_from_json (filter_to_json f) = Ok f.
Proof.
  intros [Hl Hf]. unfold filter_from_json, filter_to_json. rewrite shape_make. cbn [mbind result_bind].
  rewrite length_fmap, (proj2 (Nat.ltb_ge _ _)) by done. clear Hl.
  generalize 0%nat. induction Hf as [|r f [[v Hv] Ho] _ IH]; intros i; [done|]. cbn.
  rewrite (rule_json_round_trip v r Hv Ho), IH. done.
Qed.

Lemma filters_back (m : gmap string Filter) :
  map_Forall (fun _ f => filter_ok f) m ->
  collect (readable_filters (sort_by_key string_le
    ((fun e => (e.1, filter_to_json e.2)) <$> hash_order (map_to_list m)))) = m.
Proof.
  intros Hm. apply collect_perm. unfold readable_filters.
  rewrite (sort_by_key_is_perm string_le), hash_order_perm.
  assert (Forall (fun e => filter_ok e.2) (map_to_list m)) as Hf.
  { apply Forall_forall. intros [k f] Hin%elem_of_map_to_list. by eapply Hm. }
  induction Hf as [|[k f] l Hok _ IH]; [done|]. cbn in *. rewrite filter_back by done. by rewrite IH.
Qed.

Lemma foldr_add_perm {A} (f : A -> Z) l1 l2 :
  l1 ≡ₚ l2 -> foldr (fun e n => f e + n) 0 l1 = foldr (fun e n => f e + n) 0 l2.
Proof. induction 1; cbn [foldr]; lia. Qed.

Lemma stored_total m :
  foldr (fun e n => entry_bytes e.1 e.2 + n) 0 (hash_order (map_to_list m)) = store_total m.
Proof.
  unfold store_total. rewrite map_fold_foldr.
  rewrite (foldr_add_perm _ _ _ (hash_order_perm (map_to_list m))).
  induction (map_to_list m) as [|[k v] l IH]; [done|]. cbn [foldr fst snd uncurry]. by rewrite IH.
Qed.

(** ** A restart *)

(** What a fresh room is after it restored the save of another: the persistent
    state of the other with its times in whole seconds, its own secrets, its own
    connections and clock. *)
Definition restarted (fresh r : Room) : Room :=
  mkRoom (r_data fresh) (r_datapackage fresh) (keep_secrets (r_options fresh) (r_options r))
    (r_clients fresh) (Room.r_by_slot fresh) (r_location_checks r) (r_received_items r)
    (r_client_game_state r) (r_name_aliases r) (whole_seconds <$> r_activity_at r)
    (whole_seconds <$> r_connected_at r) (r_hints_used r) (r_hints r) (r_rng r) (r_allow_releases r)
    (r_filters r) (r_sampler fresh) (r_locked_slots r) (r_group_collected r) (r_countdown fresh)
    (r_admin_conn fresh) (r_stored_data r) (r_stored_data_subscriptions fresh)
    (wrap64 (store_total (r_stored_data r))) (r_start_time fresh) (r_clock fresh).

Lemma restore_canonical fresh r :
  seed_name (r_data fresh) = seed_name (r_data r) -> rng_wf (r_rng r) ->
  map_Forall (fun _ f => filter_ok f) (r_filters r) ->
  restore (canonical (snapshot r)) fresh = Ok (restarted fresh r).
Proof.
  intros Hs Hg Hf. unfold restore, restarted, canonical, canonical_at, snapshot.
  cbn [s_seed_name s_options s_rng_state s_location_checks s_received_items s_hints s_hints_used
       s_name_aliases s_client_game_state s_group_collected s_allow_releases s_stored_data s_activity_at
       s_connected_at s_locked_slots s_filters].
  change (VERSION_LOCKED_SLOTS <=? FORMAT_VERSION) with true.
  change (VERSION_FILTERS <=? FORMAT_VERSION) with true. cbv iota.
  unfold str_eqb. rewrite bool_decide_true by done. cbn [negb].
  rewrite (proj1 state_round_trip) by done. cbn [ok_or mbind result_bind].
  rewrite !(collect_sorted slotkey_le), (collect_sorted queuekey_le), (collect_sorted string_le).
  rewrite !timers_back, groups_back, hints_back, !set_sorted, (filters_back _ Hf), stored_total.
  by destruct (r_hints r).
Qed.
End save.
