(* ===== verification/Restart.v ===== *)
(** * A room across restarts

    A process that goes down and comes back restores the last save over a fresh
    room of the same seed: nothing the players did is lost, nothing the operator
    configured is overruled, and every invariant of the room holds on. *)

From Stdlib Require Import ZArith Lia Bool SpecFloat.
From stdpp Require Import base tactics list sets gmap strings sorting relations.
From S2P Require Import Prelude PyRandom PyObj Text Locations Types Datapackage Multidata Conn Hints Json PyValue.
From S2P Require Import Packets Filter Options Effects Room RoomOps RoomStore RoomPlay Say Admin RoomSpec RoomInv.
From S2P Require Import RoomTheorems RoomStoreTheorems SaveBytes Save SaveTheorems RoomSave RoomDemo.

Section restart.
Context `{Json} `{HashOrder} `{HText : !JsonText} `{HUni : Unicode} `{HFlate : Flate}.

(** A room whose values are of their machine types, so that a save can hold it. *)
Record saveable (r : Room) : Prop := mkSaveable {
  sv_storable : storable (snapshot r);
  sv_size : Z.of_nat (length (encode_body (snapshot r))) < 2 ^ 32;
  sv_rng : rng_wf (r_rng r);
  sv_filters : map_Forall (fun _ f => filter_ok f) (r_filters r)
}.

Lemma restart_ok (r fresh : Room) (compress : bool) :
  saveable r -> seed_name (r_data fresh) = seed_name (r_data r) ->
  (s ← decode (encode (snapshot r) compress); restore s fresh) = Ok (restarted fresh r).
Proof.
  intros [Hs Hl Hg Hf] Hseed. rewrite encode_file.
  rewrite (decode_same _ _ (encode_body (snapshot r)) _ (canonical (snapshot r))); [|done|done| |].
  - by apply restore_canonical.
  - by destruct compress; [right|left].
  - rewrite <- body_at_current. by apply reads_body.
Qed.


(** ** What the bytes depend on *)

(** Two rooms that agree on what is persistent: not on their secrets, their
    connections, their clocks. *)
Record persist_alike (r r' : Room) : Prop := mkPersistAlike {
  pa_seed : seed_name (r_data r) = seed_name (r_data r');
  pa_options : without_secrets (r_options r) = without_secrets (r_options r');
  pa_rng : r_rng r = r_rng r';
  pa_checks : r_location_checks r = r_location_checks r';
  pa_items : r_received_items r = r_received_items r';
  pa_hints : r_hints r = r_hints r';
  pa_used : r_hints_used r = r_hints_used r';
  pa_aliases : r_name_aliases r = r_name_aliases r';
  pa_states : r_client_game_state r = r_client_game_state r';
  pa_groups : r_group_collected r = r_group_collected r';
  pa_releases : r_allow_releases r = r_allow_releases r';
  pa_stored : r_stored_data r = r_stored_data r';
  pa_activity : r_activity_at r = r_activity_at r';
  pa_connected : r_connected_at r = r_connected_at r';
  pa_locked : r_locked_slots r = r_locked_slots r';
  pa_filters : r_filters r = r_filters r'
}.

(** Changing a password changes nothing that is persistent. *)
Lemma set_secrets_alike o r :
  without_secrets (r_options r) = without_secrets o -> persist_alike r (set_options o r).
Proof. intros Ho. by split. Qed.
End restart.

Section bytes.
Context `{Json} `{HText : !JsonText} `{HFlate : Flate}.

Lemma hashes_agree {A} (O1 O2 : HashOrder) (l : list A) :
  hash_order (HashOrder := O1) l ≡ₚ hash_order (HashOrder := O2) l.
Proof. by rewrite !hash_order_perm. Qed.

Lemma seconds_keys (O : HashOrder) timers : NoDup (seconds timers).*1.
Proof.
  unfold seconds. rewrite (sort_by_key_is_perm slotkey_le), (fmap_keys (fun at_ => f64_as_u64 (f64_max0 at_))).
  apply hash_keys.
Qed.

Lemma seconds_agree (O1 O2 : HashOrder) timers :
  seconds (H1 := O1) timers ≡ₚ seconds (H1 := O2) timers.
Proof. unfold seconds. by rewrite !(sort_by_key_is_perm slotkey_le), !hash_order_perm. Qed.

Lemma snapshot_keys (O : HashOrder) r : distinct_keys (snapshot r).
Proof.
  split; cbn; try apply hash_keys; try apply seconds_keys.
  - rewrite (fmap_keys (fun s => hash_order (elements s))). apply hash_keys.
  - rewrite (fmap_keys filter_to_json). apply hash_keys.
Qed.

Lemma snapshots_agree (O1 O2 : HashOrder) r r' :
  persist_alike r r' -> same_entries (snapshot (H1 := O1) r) (snapshot (H1 := O2) r').
Proof.
  intros []. split; cbn; try congruence.
  - rewrite pa_checks0. apply hashes_agree.
  - rewrite pa_items0. apply hashes_agree.
  - rewrite pa_hints0. apply hashes_agree.
  - rewrite pa_used0. apply hashes_agree.
  - rewrite pa_aliases0. apply hashes_agree.
  - rewrite pa_states0. apply hashes_agree.
  - rewrite pa_groups0, !hash_order_perm, <- !list_fmap_compose. apply reflexive_eq, list_fmap_ext.
    intros i [k s] _. cbn. f_equal. by rewrite !sorted_elements.
  - rewrite pa_releases0. apply hashes_agree.
  - rewrite pa_stored0. apply hashes_agree.
  - rewrite pa_activity0. apply seconds_agree.
  - rewrite pa_connected0. apply seconds_agree.
  - rewrite pa_locked0. apply hashes_agree.
  - by rewrite pa_filters0, !hash_order_perm.
Qed.

(** The same state makes the same bytes: a save does not depend on the order
    the hash maps are walked in, nor on a password, a connection or the clock; so
    it tells nobody a secret, and a room whose persistent state did not change
    saves what it saved before. *)
Theorem same_state_same_bytes (O1 O2 : HashOrder) (r r' : Room) (compress : bool) :
  persist_alike r r' ->
  encode (H1 := O1) (snapshot (H1 := O1) r) compress = encode (H1 := O2) (snapshot (H1 := O2) r') compress.
Proof.
  intros Hp. unfold encode.
  by rewrite (encode_body_same O1 O2 _ _ (snapshots_agree O1 O2 r r' Hp) (snapshot_keys O1 r)).
Qed.
End bytes.

Section lives.
Context `{Json} `{HashOrder} `{HText : !JsonText} `{HUni : Unicode} `{HFlate : Flate}.
Context (sha512 : list Z -> list Z) (d : MultiData) (pkg : DataPackage).

(** The process goes down after a save and comes back, with whatever options
    and at whatever time. *)
Definition restarts (r r' : Room) : Prop :=
  exists opts now compress s, saveable r /\ decode (encode (snapshot r) compress) = Ok s /\
    restore s (room_new sha512 d pkg opts now) = Ok r'.

Lemma restarted_inv fresh r :
  r_data fresh = r_data r -> room_inv fresh -> room_inv r -> room_inv (restarted fresh r).
Proof.
  intros Hd Hf Hr. destruct Hr as [Hready _ Hc Hdel Hh]. unfold restarted. rewrite Hd. split.
  - exact Hready.
  - exact (inv_sessions _ Hf).
  - exact Hc.
  - exact Hdel.
  - exact Hh.
Qed.

Lemma restarts_inv r r' :
  ready d -> seed_hints_fresh d -> r_data r = d -> room_inv r -> restarts r r' ->
  room_inv r' /\ r_data r' = d.
Proof.
  intros Hd Hh Hr Hi (opts & now & compress & s & Hs & Hdec & Hres).
  pose proof (restart_ok r (room_new sha512 d pkg opts now) compress Hs) as Ho. cbn [r_data room_new] in Ho.
  rewrite Hr, Hdec in Ho. specialize (Ho eq_refl). cbn [mbind result_bind] in Ho. rewrite Hres in Ho.
  injection Ho as ->. split; [|done]. apply restarted_inv; [done| |done]. by apply room_new_inv.
Qed.

(** C8: Restarts break nothing: in every room reached from a freshly loaded one
    by events and by restarts, in any order and number, every item was delivered
    exactly once, sessions and slots agree, no location is checked that does not
    exist and every hint tells the truth. *)
Theorem restarts_break_nothing opts now (r : Room) :
  ready d -> seed_hints_fresh d ->
  rtc (fun x y => moves x y \/ restarts x y) (room_new sha512 d pkg opts now) r ->
  room_inv r.
Proof.
  intros Hd Hh Hr. enough (room_inv r /\ r_data r = d) by tauto.
  assert (Hi : room_inv (room_new sha512 d pkg opts now) /\ r_data (room_new sha512 d pkg opts now) = d).
  { split; [by apply room_new_inv|done]. }
  revert Hi. generalize (room_new sha512 d pkg opts now) Hr. clear Hr. intros r0 Hr.
  induction Hr as [|x y z Hm _ IH]; intros [Hi Hx]; [done|]. apply IH. destruct Hm as [Hm|Hm].
  - destruct (moves_steps x y Hi Hm) as [Hs Hy]. split; [done|]. by rewrite (steps_data _ _ Hs).
  - by apply (restarts_inv x).
Qed.
End lives.

(** * The theorems on saves at a concrete room

    The room of [RoomDemo] after Alice's checks, with a stored value, a filter
    for the whole room and a locked slot, saved and restored over a fresh room
    that asks for another password. *)

#[local] Existing Instance tree_json.
#[local] Existing Instance ascii_unicode.
#[local] Existing Instance demo_hash.

(** A sum for a checksum, and bodies that are stored backwards. *)
#[local, refine] Instance demo_flate : Flate := {|
  crc32 := fun b => wrap32 (foldr Z.add 0 b);
  deflate := rev (A := Z);
  inflate := fun b => Ok (rev b)
|}.
Proof.
  - intros b. apply wrap32_range.
  - intros b. by rewrite rev_involutive.
Defined.

Definition demo_rules : Value := filter_to_json [demo_death].

(** A parser that also knows the text of one list of rules. *)
Definition demo_parse (s : string) : option Value :=
  if str_eqb s (json_text demo_rules) then Some demo_rules else tree_parse s.

Lemma demo_parse_number s v n : demo_parse s = Some v -> shape v = SNumber n -> tree_parse s = Some v.
Proof. unfold demo_parse. destruct (str_eqb _ _); [by intros [= <-]|done]. Qed.

#[local, refine] Instance demo_text : JsonText := {|
  parse_json := demo_parse;
  string_text := tree_quote;
  num_text := tree_num_text;
  float_text := bits_text;
  lower_exp := bits_text;
  big_to_f64 := f64_of_Z;
  powf := f64_mul;
  debug_char := fun c => c;
  float_text_marked := bits_text_marked;
  lower_exp_marked := bits_text_marked;
  json_text_of := tree_json_text_of;
  num_text_of_i64 := fun z _ => eq_refl;
  num_text_of_big := fun z => eq_refl
|}.
Proof.
  - intros s v n Hs Hp Hn. by eapply tree_marked_not_int, Hn; [|eapply demo_parse_number].
  - intros s v n Hp Hn. by eapply tree_num_text_parsed, Hn; eapply demo_parse_number.
Defined.

Definition demo_half : Value := make (SNumber (num_of_f64 (f64_div (f64_of_Z 1) (f64_of_Z 2)))).

Definition demo_saved : Room :=
  set_stored_data {["half"%string := demo_half]}
    (set_filters {["*"%string := [demo_death]]} (set_locked_slots {[ (0, 2) ]} demo_checked)).

Definition demo_fresh : Room :=
  room_new (fun _ => []) demo_data demo_package
    (mkRoomOptions (Some "new"%string) None None 10 1 Permission.Auto Permission.Auto Permission.Goal
       Permission.Enabled true 2 []) (f64_of_Z 2000).

(** ** The room can be saved *)

#[local] Instance is_u32_dec z : Decision (is_u32 z).
Proof. unfold is_u32. apply _. Defined.
#[local] Instance is_u64_dec z : Decision (is_u64 z).
Proof. unfold is_u64. apply _. Defined.
#[local] Instance is_i64_dec z : Decision (is_i64 z).
Proof. unfold is_i64. apply _. Defined.
#[local] Instance key_ok_dec k : Decision (key_ok k).
Proof. unfold key_ok. apply _. Defined.
#[local] Instance item_ok_dec i : Decision (item_ok i).
Proof. unfold item_ok. apply _. Defined.
#[local] Instance hint_ok_dec h : Decision (hint_ok h).
Proof. unfold hint_ok. apply _. Defined.
#[local] Instance options_ok_dec o : Decision (options_ok o).
Proof. unfold options_ok. apply _. Defined.
#[local] Instance steps_fit_dec previous sorted : Decision (steps_fit previous sorted).
Proof. revert previous. induction sorted; intros previous; cbn; apply _. Defined.
#[local] Instance checks_ok_dec set : Decision (checks_ok set).
Proof. unfold checks_ok. apply and_dec; [change (Decision (set_Forall is_i64 set))|]; apply _. Defined.
#[local] Instance rng_wf_dec r : Decision (rng_wf r).
Proof. unfold rng_wf, mt_wf, words_ok. apply _. Defined.

Ltac by_deciding := apply (bool_decide_unpack _); vm_compute; exact I.

Lemma demo_half_ok : value_ok ("half"%string, demo_half).
Proof. split; [reflexivity|]. vm_compute. reflexivity. Qed.

Lemma demo_rules_ok : value_ok ("*"%string, demo_rules).
Proof. split; [reflexivity|]. cbn [parse_json demo_text snd]. unfold demo_parse, str_eqb. by rewrite bool_decide_true. Qed.

Lemma demo_storable : storable (snapshot demo_saved).
Proof.
  split; [reflexivity| |by_deciding|by_deciding|by_deciding|by_deciding|by_deciding|by_deciding|by_deciding
         |by_deciding|by_deciding| |by_deciding|by_deciding|by_deciding|].
  - by_deciding.
  - cbn. rewrite map_to_list_singleton. repeat constructor; apply demo_half_ok.
  - cbn. rewrite map_to_list_singleton. repeat constructor; apply demo_rules_ok.
Qed.

Lemma demo_saveable : saveable demo_saved.
Proof.
  split; [apply demo_storable|by_deciding|by_deciding|].
  change (r_filters demo_saved) with ({["*"%string := [demo_death]]} : gmap string Filter).
  intros k f [<- <-]%lookup_singleton_Some. split; [by_deciding|]. repeat constructor.
  exists (rule_to_json demo_death). vm_compute. reflexivity.
Qed.

Lemma saves_round_trip_witness :
  decode (encode (snapshot demo_saved) true) = Ok (canonical (snapshot demo_saved)).
Proof. apply (saves_round_trip (snapshot demo_saved) true); [exact demo_storable|by_deciding]. Defined.


(** A save of version 1 has no locks and no filters. *)
Lemma older_saves_load_witness :
  decode (file 1 ENCODING_RAW (body_at 1 (snapshot demo_saved)) (body_at 1 (snapshot demo_saved))) =
    Ok (canonical_at 1 (snapshot demo_saved)) /\
  s_locked_slots (canonical_at 1 (snapshot demo_saved)) = [] /\
  decode (file 4 ENCODING_RAW (body_at 4 (snapshot demo_saved)) (body_at 4 (snapshot demo_saved))) = Err (TooNew 4).
Proof.
  destruct (older_saves_load (snapshot demo_saved) 1 demo_storable) as [H1 _]; [by_deciding|].
  destruct (older_saves_load (snapshot demo_saved) 4 demo_storable) as [_ H2]; [by_deciding|].
  destruct H1 as (H1 & H3 & _); [discriminate|]. split; [exact H1|]. split; [by apply H3|by apply H2].
Defined.


(** Two locations [2^63] apart. *)
Lemma checks_survive_unless_far_apart_witness :
  refuses (put_checks ((0, 1), {[ - 2 ^ 62; 2 ^ 62 ]})) read_checks (Malformed "location id overflowed").
Proof.
  apply (checks_survive_unless_far_apart (0, 1)); [by_deciding| |].
  - intros l Hl. rewrite elem_of_union, !elem_of_singleton in Hl. unfold is_i64. lia.
  - apply (bool_decide_unpack _). vm_compute. exact I.
Defined.

(** Another order for the hash maps, and another room that differs in a
    password. *)
Definition backwards : HashOrder.
Proof. refine {| hash_order := fun A l => rev l |}. intros A l. symmetry. apply Permutation_rev. Defined.

Definition demo_other : Room :=
  set_options (mkRoomOptions (Some "secret"%string) None None 10 1 Permission.Auto Permission.Auto
    Permission.Goal Permission.Enabled true 2 ["AP"%string]) demo_saved.

Lemma same_state_same_bytes_witness :
  password (r_options demo_saved) <> password (r_options demo_other) /\
  encode (snapshot demo_saved) true =
  encode (H1 := backwards) (snapshot (H1 := backwards) demo_other) true.
Proof.
  split; [by_deciding|]. apply (same_state_same_bytes demo_hash backwards demo_saved demo_other true).
  apply set_secrets_alike. vm_compute. reflexivity.
Defined.

(** A restart before anyone came. *)
Lemma demo_room_saveable : saveable demo_room.
Proof.
  split; [|by_deciding|by_deciding|by intros k f].
  split; [reflexivity|by_deciding..|constructor|by_deciding|by_deciding|by_deciding|constructor].
Qed.

Lemma restarts_break_nothing_witness : exists r,
  restarts (fun _ => []) demo_data demo_package demo_room r /\ room_inv r.
Proof.
  pose proof (restart_ok demo_room demo_fresh true demo_room_saveable eq_refl) as Hr.
  destruct (decode (encode (snapshot demo_room) true)) as [s|] eqn:Hd; [|discriminate Hr].
  exists (restarted demo_fresh demo_room). assert (restarts (fun _ => []) demo_data demo_package demo_room (restarted demo_fresh demo_room)) as Hs.
  { eexists _, _, true, s. split; [exact demo_room_saveable|]. split; [exact Hd|exact Hr]. }
  split; [exact Hs|].
  apply (restarts_break_nothing (fun _ => []) demo_data demo_package demo_options (f64_of_Z 1000) _ demo_ready demo_hints_fresh).
  apply rtc_once. right. exact Hs.
Defined.
