(* ===== verification/Startup.v ===== *)
(** * [crates/pahoa/src/serve.rs]: the options a room starts under

    [apply_embedded] with [text], [count], [permission] and [truthy], [load_save],
    [overruled_options], and the part of [run] that puts the secrets, the seed, the
    flags and the save together before the port is bound.  Log lines are values
    here; reading the seed, sizing, TLS and the runtime are not. *)

From Stdlib Require Import ZArith Lia Bool Ascii.
From stdpp Require Import base tactics list sets gmap strings pretty sorting.
From S2P Require Import Prelude PyRandom PyObj Locations Types Datapackage Multidata Conn Hints Json PyValue Text.
From S2P Require Import Filter Options Effects Room RoomOps ServerCommands SaveBytes Save SaveTheorems RoomSave.
From S2P Require Import RoomDemo Restart.
From S2P Require Persist Cli.

(** ** The seed's own options *)

Inductive Log := Warn (line : string) | Info (line : string).

Definition text (v : PyObj) : option (option string) :=
  match v with
  | PNone | PBool false => Some None
  | PStr s => Some (Some s)
  | _ => None
  end.

Definition shown (v : option string) : string :=
  match v with Some _ => "set" | None => "none" end.

Definition count (v : PyObj) : option Z :=
  n ← PyObj.as_int v; if (0 <=? n) && (n <=? u32_max) then Some n else None.

(** [text.replace('_', '-')]. *)
Definition dashed (text : string) : string :=
  str_concat ((fun c => if str_eqb c "_" then "-"%string else c) <$> chars text).

Definition permission (v : PyObj) : option Permission.t :=
  text ← PyObj.as_str v;
  let parsed := Permission.from_text text in
  if str_eqb (Permission.as_text parsed) (dashed text) then Some parsed else None.

Definition truthy (v : PyObj) : option bool :=
  match v with
  | PBool b => Some b
  | PInt n => Some (negb (n =? 0))
  | PNone => Some false
  | _ => None
  end.

Definition level (v : PyObj) : option Z :=
  n ← PyObj.as_int v; if (0 <=? n) && (n <=? 2) then Some n else None.

Definition set_password (v : option string) (o : RoomOptions) : RoomOptions :=
  mkRoomOptions v (slot_passwords o) (server_password o) (hint_cost o) (location_check_points o)
    (release_mode o) (collect_mode o) (remaining_mode o) (countdown_mode o) (item_cheat o)
    (compatibility o) (tags o).
Definition set_server_password (v : option string) (o : RoomOptions) : RoomOptions :=
  mkRoomOptions (password o) (slot_passwords o) v (hint_cost o) (location_check_points o)
    (release_mode o) (collect_mode o) (remaining_mode o) (countdown_mode o) (item_cheat o)
    (compatibility o) (tags o).
Definition set_slot_passwords (v : option (gmap Z string)) (o : RoomOptions) : RoomOptions :=
  mkRoomOptions (password o) v (server_password o) (hint_cost o) (location_check_points o)
    (release_mode o) (collect_mode o) (remaining_mode o) (countdown_mode o) (item_cheat o)
    (compatibility o) (tags o).

(** What one key comes to: nothing, a [continue] with its warning, or the options
    after and the line that says so; [None] where the value is unusable. *)
Inductive Arm :=
| Pass
| Overruled (line : string)
| Took (taken : option (RoomOptions * string)).

(** [conv(raw).map(|v| { field = v; line })]. *)
Definition take {A} (conv : PyObj -> option A) (raw : PyObj) (set : A -> RoomOptions -> RoomOptions)
    (line : A -> string) (o : RoomOptions) : Arm :=
  Took ((fun v => (set v o, line v)) <$> conv raw).

Definition pair (name value : string) : string := str_concat [name; "="; value].
Definition bool_text (b : bool) : string := if b then "true" else "false".

Definition embed (secrets : Cli.Secrets) (key : string) (raw : PyObj) (o : RoomOptions) : Arm :=
  if str_eqb key "password" then
    if Cli.sc_password_from_env secrets then
      Overruled "the seed sets a room password, but one is configured in the environment and wins; ignoring the seed's"
    else if bool_decide (is_Some (Cli.sc_slot_passwords secrets)) then
      Overruled "the seed sets a room password, but this room is in per-slot password mode; ignoring the seed's"
    else take text raw set_password (fun v => pair "password" (shown v)) o
  else if str_eqb key "server_password" then
    if Cli.sc_server_password_from_env secrets then
      Overruled "the seed sets a server password, but one is configured in the environment and wins; ignoring the seed's"
    else take text raw set_server_password (fun v => pair "server_password" (shown v)) o
  else if str_eqb key "hint_cost" then take count raw set_hint_cost (fun v => pair "hint_cost" (pretty v)) o
  else if str_eqb key "location_check_points" then
    take count raw set_check_points (fun v => pair "location_check_points" (pretty v)) o
  else if str_eqb key "compatibility" then take level raw set_compatibility (fun v => pair "compatibility" (pretty v)) o
  else if str_eqb key "release_mode" then
    take permission raw set_release_mode (fun v => pair "release_mode" (Permission.as_text v)) o
  else if str_eqb key "collect_mode" then
    take permission raw set_collect_mode (fun v => pair "collect_mode" (Permission.as_text v)) o
  else if str_eqb key "remaining_mode" then
    take permission raw set_remaining_mode (fun v => pair "remaining_mode" (Permission.as_text v)) o
  else if str_eqb key "countdown_mode" then
    take permission raw set_countdown_mode (fun v => pair "countdown_mode" (Permission.as_text v)) o
  else if str_eqb key "item_cheat" then take truthy raw set_item_cheat (fun v => pair "item_cheat" (bool_text v)) o
  else if str_eqb key "disable_item_cheat" then
    take truthy raw (fun v => set_item_cheat (negb v)) (fun v => pair "item_cheat" (bool_text (negb v))) o
  else Pass.

(** The options, the lines of [applied], and what was logged. *)
Definition Embedding : Type := RoomOptions * list string * list Log.

Definition embed_entry (secrets : Cli.Secrets) (e : Embedding) (entry : PyObj * PyObj) : Embedding :=
  let '(options, applied, log) := e in
  match PyObj.as_str entry.1 with
  | None => e
  | Some key =>
      match embed secrets key entry.2 options with
      | Pass => e
      | Overruled line => (options, applied, log ++ [Warn line])
      | Took (Some (options, line)) => (options, applied ++ [line], log)
      | Took None =>
          (options, applied,
           log ++ [Warn (str_concat ["ignoring embedded server option "; key; ": unusable "; type_name entry.2])])
      end
  end.

Definition apply_embedded (options : RoomOptions) (server_options : option PyObj) (secrets : Cli.Secrets)
    : RoomOptions * list Log :=
  match server_options ≫= PyObj.as_dict with
  | None => (options, [Warn "--use-embedded-options, but this seed carries no server_options"])
  | Some dict =>
      let '(options, applied, log) := fold_left (embed_entry secrets) dict (options, [], []) in
      (options, log ++ [match applied with
                        | [] => Warn "--use-embedded-options, but this seed sets no room options"
                        | _ => Info (str_concat ["room options from the seed: "; String.concat " " applied])
                        end])
  end.

(** ** What a save overrules *)

Definition cheat_state (on : bool) : string := if on then "enabled" else "disabled".

(** The flag, what was asked for, what the save had. *)
Definition compared (asked_for restored : RoomOptions) : list (string * string * string) :=
  let row flag (show : RoomOptions -> string) := (flag, show asked_for, show restored) in
  [row "--hint-cost" (fun o => pretty (hint_cost o));
   row "--location-check-points" (fun o => pretty (location_check_points o));
   row "--release-mode" (fun o => Permission.as_text (release_mode o));
   row "--collect-mode" (fun o => Permission.as_text (collect_mode o));
   row "--remaining-mode" (fun o => Permission.as_text (remaining_mode o));
   row "--countdown-mode" (fun o => Permission.as_text (countdown_mode o));
   row "--no-item-cheat" (fun o => cheat_state (item_cheat o));
   row "--compatibility" (fun o => pretty (compatibility o))]%string.

Definition overruled_line (row : string * string * string) : string :=
  let '(flag, wanted, actual) := row in
  str_concat [flag; " asked for "; wanted; ", but the restored save says "; actual;
              " and wins; room options live in the save once one exists, and are changed with !admin /option or by starting from an empty --save-dir"].

Definition overruled_options (explicit : list string) (asked_for restored : RoomOptions) : list string :=
  overruled_line <$>
    List.filter (fun row => bool_decide (row.1.1 ∈ explicit) && negb (str_eqb row.1.2 row.2))
      (compared asked_for restored).

(** ** From the arguments to a room *)

Record ServeArgs := mkServeArgs {
  sa_options : RoomOptions;
  sa_explicit : list string;
  sa_journal : bool;
  sa_use_embedded : bool;
  sa_secrets : Cli.Secrets;
  sa_build : string * string
}.

Inductive StartError :=
| DirError (e : Persist.OpenError)
| SaveRefused (e : SaveError)
| JournalNeedsDir
| JournalError.

Definition configured (args : ServeArgs) (seed : option PyObj) : RoomOptions * list Log :=
  let secrets := sa_secrets args in
  let options :=
    set_slot_passwords (Cli.sc_slot_passwords secrets)
      (set_server_password (Cli.sc_server_password secrets)
        (set_password (Cli.sc_password secrets) (sa_options args))) in
  if sa_use_embedded args then apply_embedded options seed secrets else (options, []).

(** [SaveStore::open], then [SaveStore::load]: refused, or what is in the
    directory. *)
Definition claim (pid : N) (create_ok lock_ok : bool) (v : Persist.Volume)
    : result Persist.OpenError (option (list Z)) * Persist.Volume :=
  match Persist.open pid create_ok lock_ok v with
  | (Ok _, v) => (Ok (Persist.load (Persist.vl_disk v)), v)
  | (Err e, v) => (Err e, v)
  end.

Definition plural (slots : nat) : string :=
  if Nat.eqb slots 1 then "1 slot" else str_concat [pretty (Z.of_nat slots); " slots"].

Section start.
Context `{Json} `{HashOrder} `{HText : !JsonText} `{HFlate : Flate}.
Context (sha512 : list Z -> list Z) (path : string).

Definition load_save (raw : option (list Z)) : result SaveError (option Snapshot) :=
  match raw with
  | None => Ok None
  | Some bytes => Some <$> decode bytes
  end.

Definition map_err {E E' A} (f : E -> E') (r : result E A) : result E' A :=
  match r with Ok a => Ok a | Err e => Err (f e) end.

(** The [match args.save_dir]: [None] without [--save-dir]. *)
Definition with_save (args : ServeArgs) (dir : option (result Persist.OpenError (option (list Z)))) (room : Room)
    : result StartError (Room * list Log) :=
  match dir with
  | None => Ok (room, [Warn "no --save-dir, so this room keeps nothing across a restart"])
  | Some claimed =>
      raw ← map_err DirError claimed;
      loaded ← map_err SaveRefused (load_save raw);
      match loaded with
      | None => Ok (room, [Info "no save in the directory; starting fresh"])
      | Some snapshot =>
          let slots := length (s_location_checks snapshot) in
          let asked_for := r_options room in
          room ← map_err SaveRefused (restore snapshot room);
          Ok (room, Info (str_concat ["restored "; plural slots; " from "; path])
                    :: (Warn <$> overruled_options (sa_explicit args) asked_for (r_options room)))
      end
  end.

(** The [match (args.journal, args.save_dir)], and the records written before
    anything happens. *)
Definition first_records (args : ServeArgs) (has_dir journal_opens : bool) (start_time : f64) (room : Room)
    : result StartError (list JournalEvent) :=
  if negb (sa_journal args) then Ok []
  else if negb has_dir then Err JournalNeedsDir
  else if negb journal_opens then Err JournalError
  else Ok [JStarted start_time (sa_build args).1 (sa_build args).2; JOptions start_time (r_options room)].

Definition start_room (args : ServeArgs) (data : MultiData) (names : DataPackage) (start_time : f64)
    (dir : option (result Persist.OpenError (option (list Z)))) (journal_opens : bool)
    : result StartError (Room * list JournalEvent * list Log) :=
  let '(options, log) := configured args (server_options data) in
  let room := room_new sha512 data names options start_time in
  '(room, log') ← with_save args dir room;
  events ← first_records args (bool_decide (is_Some dir)) journal_opens start_time room;
  Ok (room, events, log ++ log').
End start.

(** ** What a seed says *)

(** The last value a seed has that can be used. *)
Definition seed_value {A} (conv : string -> PyObj -> option A) (server_options : option PyObj) : option A :=
  last (omap (fun e => key ← PyObj.as_str e.1; conv key e.2) (default [] (server_options ≫= PyObj.as_dict))).

Definition named {A} (name : string) (conv : PyObj -> option A) (key : string) (raw : PyObj) : option A :=
  if str_eqb key name then conv raw else None.

Definition cheat (key : string) (raw : PyObj) : option bool :=
  if str_eqb key "item_cheat" then truthy raw
  else if str_eqb key "disable_item_cheat" then negb <$> truthy raw
  else None.

Definition unless {A} (b : bool) (conv : string -> PyObj -> option A) (key : string) (raw : PyObj) : option A :=
  if b then None else conv key raw.

Definition arm_options (o : RoomOptions) (arm : Arm) : RoomOptions :=
  match arm with Took (Some (o', _)) => o' | _ => o end.

Lemma embed_entry_options secrets o applied log e :
  (embed_entry secrets (o, applied, log) e).1.1 =
  default o ((fun key => arm_options o (embed secrets key e.2 o)) <$> PyObj.as_str e.1).
Proof. unfold embed_entry. destruct (PyObj.as_str e.1) as [key|]; [|done]. cbn. by destruct (embed _ _ _ _) as [| |[[]|]]. Qed.

(** A field is the last usable value, when each arm sets it so. *)
Lemma embed_field {A} (field : RoomOptions -> A) (conv : string -> PyObj -> option A) secrets so o :
  (forall key raw o, field (arm_options o (embed secrets key raw o)) = default (field o) (conv key raw)) ->
  field (apply_embedded o so secrets).1 = default (field o) (seed_value conv so).
Proof.
  intros Harm. unfold apply_embedded, seed_value. destruct (so ≫= PyObj.as_dict) as [dict|]; [|done]. cbn.
  assert (forall e : Embedding, field (fold_left (embed_entry secrets) dict e).1.1 =
    default (field e.1.1) (last (omap (fun e => key ← PyObj.as_str e.1; conv key e.2) dict))) as Hf.
  { induction dict as [|entry dict IH] using rev_ind; intros [[o' applied] log]; [done|].
    rewrite fold_left_app, omap_app, last_app. cbn [fold_left].
    specialize (IH (o', applied, log)). destruct (fold_left _ dict _) as [[o1 applied1] log1] eqn:E.
    rewrite embed_entry_options. cbn [omap list_omap]. cbn in IH.
    destruct (PyObj.as_str entry.1) as [key|]; cbn; [|done]. rewrite Harm.
    by destruct (conv key entry.2); cbn. }
  specialize (Hf (o, [], [])). by destruct (fold_left _ dict _) as [[? ?] ?].
Qed.

Lemma take_options {A} (conv : PyObj -> option A) raw set line o :
  arm_options o (take conv raw set line o) = default o ((fun v => set v o) <$> conv raw).
Proof. unfold take. by destruct (conv raw). Qed.

(** What an arm does to one field, by cases on its key. *)
Ltac embed_cases :=
  intros ???; unfold embed, named, cheat, unless, str_eqb;
  repeat (case_bool_decide; subst; try discriminate);
  match goal with s : Cli.Secrets |- _ =>
    destruct (Cli.sc_password_from_env s), (Cli.sc_server_password_from_env s) end; cbn [orb];
  rewrite ?take_options; try done;
  match goal with |- context [default _ (_ <$> ?x)] => by destruct x end.

Lemma seed_silent {A} so : seed_value (fun _ _ => @None A) so = None.
Proof.
  unfold seed_value. induction (default [] _) as [|e l IH]; [done|]. cbn [omap list_omap].
  by destruct (PyObj.as_str e.1).
Qed.

Lemma embedded_options so o secrets :
  let o' := (apply_embedded o so secrets).1 in
  password o' = default (password o)
    (seed_value (unless (Cli.sc_password_from_env secrets || bool_decide (is_Some (Cli.sc_slot_passwords secrets)))
                  (named "password" text)) so) /\
  server_password o' = default (server_password o)
    (seed_value (unless (Cli.sc_server_password_from_env secrets) (named "server_password" text)) so) /\
  slot_passwords o' = slot_passwords o /\
  hint_cost o' = default (hint_cost o) (seed_value (named "hint_cost" count) so) /\
  location_check_points o' = default (location_check_points o) (seed_value (named "location_check_points" count) so) /\
  release_mode o' = default (release_mode o) (seed_value (named "release_mode" permission) so) /\
  collect_mode o' = default (collect_mode o) (seed_value (named "collect_mode" permission) so) /\
  remaining_mode o' = default (remaining_mode o) (seed_value (named "remaining_mode" permission) so) /\
  countdown_mode o' = default (countdown_mode o) (seed_value (named "countdown_mode" permission) so) /\
  item_cheat o' = default (item_cheat o) (seed_value cheat so) /\
  compatibility o' = default (compatibility o) (seed_value (named "compatibility" level) so) /\
  tags o' = tags o.
Proof.
  intros o'. subst o'.
  split_and!; try (by apply embed_field; embed_cases).
  all: (etransitivity; [apply (embed_field _ (fun _ _ => None)); embed_cases|by rewrite seed_silent]).
Qed.

(** ** What a room starts under *)

Section theorems.
Context `{Json} `{HashOrder} `{HText : !JsonText} `{HFlate : Flate}.
Context (sha512 : list Z -> list Z) (path : string).
Context (parse_map : string -> result string (list (string * string))).

(** The seed's value of an option, when it is asked at all. *)
Definition from_seed {A} (args : ServeArgs) (data : MultiData) (conv : string -> PyObj -> option A) : option A :=
  if sa_use_embedded args then seed_value conv (server_options data) else None.

(** Every rule of a room, as the seed or else the flags have it. *)
Definition rules_of (args : ServeArgs) (data : MultiData) (o : RoomOptions) : Prop :=
  let flags := sa_options args in
  let seed {A} := @from_seed A args data in
  hint_cost o = default (hint_cost flags) (seed (named "hint_cost" count)) /\
  location_check_points o = default (location_check_points flags) (seed (named "location_check_points" count)) /\
  release_mode o = default (release_mode flags) (seed (named "release_mode" permission)) /\
  collect_mode o = default (collect_mode flags) (seed (named "collect_mode" permission)) /\
  remaining_mode o = default (remaining_mode flags) (seed (named "remaining_mode" permission)) /\
  countdown_mode o = default (countdown_mode flags) (seed (named "countdown_mode" permission)) /\
  item_cheat o = default (item_cheat flags) (seed cheat) /\
  compatibility o = default (compatibility flags) (seed (named "compatibility" level)) /\
  tags o = tags flags.

(** The secrets: the environment, then the seed, then the flags. *)
Definition secrets_of (args : ServeArgs) (data : MultiData) (o : RoomOptions) : Prop :=
  let secrets := sa_secrets args in
  password o = default (Cli.sc_password secrets)
    (from_seed args data (unless (Cli.sc_password_from_env secrets || bool_decide (is_Some (Cli.sc_slot_passwords secrets)))
                            (named "password" text))) /\
  server_password o = default (Cli.sc_server_password secrets)
    (from_seed args data (unless (Cli.sc_server_password_from_env secrets) (named "server_password" text))) /\
  slot_passwords o = Cli.sc_slot_passwords secrets.

Lemma configured_options args data :
  let o := (configured args (server_options data)).1 in rules_of args data o /\ secrets_of args data o.
Proof.
  cbv zeta. unfold configured, rules_of, secrets_of, from_seed. destruct (sa_use_embedded args); [|done].
  match goal with |- context [apply_embedded ?o ?so ?s] => pose proof (embedded_options so o s) as He end.
  destruct He as (? & ? & ? & ? & ? & ? & ? & ? & ? & ? & ? & ?). by split_and!.
Qed.

Lemma restore_options s r r' : restore s r = Ok r' -> r_options r' = keep_secrets (r_options r) (s_options s).
Proof. unfold restore. destruct (negb _); [done|]. cbn. by destruct (from_state _); intros [= <-]. Qed.

(** What was loaded, of a directory that could be claimed. *)
Definition loaded (dir : option (result Persist.OpenError (option (list Z)))) : option Snapshot :=
  match dir with Some (Ok (Some bytes)) => match decode bytes with Ok s => Some s | Err _ => None end | _ => None end.

(** What [with_save] did, by what was loaded. *)
Lemma with_save_cases args dir room room' log : with_save path args dir room = Ok (room', log) ->
  match loaded dir with
  | Some s => restore s room = Ok room' /\
      log = Info (str_concat ["restored "; plural (length (s_location_checks s)); " from "; path])
            :: (Warn <$> overruled_options (sa_explicit args) (r_options room) (r_options room'))
  | None => room' = room /\
      log = [match dir with
             | None => Warn "no --save-dir, so this room keeps nothing across a restart"
             | Some _ => Info "no save in the directory; starting fresh"
             end]
  end.
Proof.
  unfold with_save, loaded. destruct dir as [[[bytes|]|]|]; [|by intros [= <- <-]|done|by intros [= <- <-]].
  intros Hw. apply bind_ok in Hw as (raw & [= <-] & Hw). unfold load_save in Hw.
  destruct (decode bytes) as [s|]; [|done]. apply bind_ok in Hw as (raw & [= <-] & Hw).
  apply bind_ok in Hw as (r & Hr & [= <- <-]). by destruct (restore s room); simplify_eq/=.
Qed.

Lemma with_save_options args dir room room' log : with_save path args dir room = Ok (room', log) ->
  match loaded dir with
  | Some s => r_options room' = keep_secrets (r_options room) (s_options s)
  | None => room' = room
  end.
Proof. intros Hw%with_save_cases. destruct (loaded dir); [|apply Hw]. by eapply restore_options, Hw. Qed.

Lemma starts args data names now dir opens room events log :
  start_room sha512 path args data names now dir opens = Ok (room, events, log) ->
  exists log', with_save path args dir
      (room_new sha512 data names (configured args (server_options data)).1 now) = Ok (room, log') /\
    first_records args (bool_decide (is_Some dir)) opens now room = Ok events /\
    log = (configured args (server_options data)).2 ++ log'.
Proof.
  unfold start_room. destruct (configured _ _) as [o l]. cbn.
  destruct (with_save _ _ _ _) as [[r l']|] eqn:E; cbn; [|done].
  destruct (first_records _ _ _ _ _) as [ev|] eqn:E'; cbn; [|done]. intros [= <- <- <-]. by exists l'.
Qed.

Lemma start_restored args data names now bytes s r :
  decode bytes = Ok s -> restore s (room_new sha512 data names (configured args (server_options data)).1 now) = Ok r ->
  exists events log, start_room sha512 path args data names now (Some (Ok (Some bytes))) true = Ok (r, events, log).
Proof.
  intros Hd Hr. unfold start_room. destruct (configured _ _) as [o l]. cbn [fst] in Hr. unfold with_save, load_save.
  cbn [map_err mbind result_bind]. rewrite Hd. cbn [fmap result_fmap map_err mbind result_bind]. rewrite Hr.
  cbn [map_err mbind result_bind]. unfold first_records. rewrite bool_decide_true by done.
  destruct (sa_journal args); do 2 eexists; reflexivity.
Qed.

(** Where a secret came from. *)
Lemma merge_sources argv env s : Cli.merge parse_map argv env = Ok s ->
  Cli.sc_password_from_env s = bool_decide (is_Some (env Cli.PASSWORD)) /\
  Cli.sc_server_password_from_env s = bool_decide (is_Some (env Cli.SERVER_PASSWORD)).
Proof.
  unfold Cli.merge. intros Hm. apply bind_ok in Hm as (slots & _ & Hm).
  destruct (Cli.pick Cli.PASSWORD _ _ _) as [[p pe] w1] eqn:E1.
  destruct (Cli.pick Cli.SERVER_PASSWORD _ _ _) as [[q qe] w2] eqn:E2.
  apply (Cli.pick_spec parse_map) in E1 as (_ & -> & _), E2 as (_ & -> & _).
  cbn in Hm. case_match; [done|]. apply bind_ok in Hm as (token & _ & Hm). by injection Hm as <-.
Qed.

Lemma no_seed {A} args data (conv : string -> PyObj -> option A) b :
  b = true -> from_seed args data (unless b conv) = None.
Proof. intros ->. unfold from_seed. destruct (sa_use_embedded args); [apply seed_silent|done]. Qed.

Lemma secrets_kept args data own saved :
  secrets_of args data own -> secrets_of args data (keep_secrets own saved).
Proof. done. Qed.

(** C24: A room starts under the options it was meant to have.  The environment's
    password is the room's whatever the seed and the command line say; else a
    usable one of the seed, when the seed is asked and there are no slot passwords;
    else the command line's; and a room never has a password and slot passwords
    both.  Every rule is the save's when there is one, else the seed's last usable
    value when the seed is asked, else the flag's.  A seed's value that cannot be
    used changes nothing, and the history opens with the options in force. *)
Theorem options_in_force argv env args data names now dir opens room events log :
  Cli.merge parse_map argv env = Ok (sa_secrets args) ->
  start_room sha512 path args data names now dir opens = Ok (room, events, log) ->
  let o := r_options room in
  secrets_of args data o /\
  (forall p, env Cli.PASSWORD = Some p -> password o = Some p) /\
  (forall p, env Cli.SERVER_PASSWORD = Some p -> server_password o = Some p) /\
  (is_Some (password o) -> slot_passwords o = None) /\
  match loaded dir with
  | Some s => without_secrets o = without_secrets (s_options s)
  | None => rules_of args data o
  end /\
  events = (if sa_journal args
            then [JStarted now (sa_build args).1 (sa_build args).2; JOptions now o] else []).
Proof.
  intros Hm Hs. cbv zeta.
  pose proof (Cli.secrets_are_the_configured_ones parse_map argv env _ Hm) as (Hp & Hsp & _ & Hone & _).
  apply merge_sources in Hm as [Hpe Hse].
  apply starts in Hs as (log' & Hw & Hr & _). apply with_save_options in Hw.
  destruct (configured_options args data) as [Hrules Hsecrets]. cbn zeta in *.
  assert (secrets_of args data (r_options room)) as Ho.
  { destruct (loaded dir); [rewrite Hw; by apply secrets_kept|by subst]. }
  destruct Ho as (Hpw & Hspw & Hslot). split; [done|].
  split. { intros p He. rewrite Hpw, no_seed, Hp, He; [done|]. by rewrite Hpe, He. }
  split. { intros p He. rewrite Hspw, no_seed, Hsp, He; [done|]. by rewrite Hse, He. }
  split.
  { rewrite Hslot, Hpw. destruct (Cli.sc_slot_passwords (sa_secrets args)) as [m|] eqn:Em; [|done].
    rewrite no_seed by (apply orb_true_intro; right; by apply bool_decide_eq_true_2). intros Hs. exact (Hone Hs). }
  split. { destruct (loaded dir); [by rewrite Hw|by subst]. }
  unfold first_records in Hr. destruct (sa_journal args); cbn in Hr; [|by simplify_eq].
  destruct (negb _); [done|]. destruct (negb opens); [done|]. by simplify_eq.
Qed.
End theorems.

(** ** What the log tells *)

(** A value with its text taken out. *)
Definition blank (v : PyObj) : PyObj := match v with PStr _ => PStr EmptyString | _ => v end.

Definition secret_key (k : PyObj) : bool :=
  bool_decide (PyObj.as_str k = Some "password"%string) || bool_decide (PyObj.as_str k = Some "server_password"%string).

Definition hide_value (key v : PyObj) : PyObj := if secret_key key then blank v else v.
Definition hide (e : PyObj * PyObj) : PyObj * PyObj := (e.1, hide_value e.1 e.2).

Definition hidden (server_options : option PyObj) : option (list (PyObj * PyObj)) :=
  List.map hide <$> (server_options ≫= PyObj.as_dict).

(** Secrets of the same shape: from the same sources, in the same mode. *)
Record same_shape (s s' : Cli.Secrets) : Prop := mkSameShape {
  sh_password : Cli.sc_password_from_env s = Cli.sc_password_from_env s';
  sh_server : Cli.sc_server_password_from_env s = Cli.sc_server_password_from_env s';
  sh_slots : is_Some (Cli.sc_slot_passwords s) <-> is_Some (Cli.sc_slot_passwords s')
}.

Definition alike (o o' : RoomOptions) : Prop := without_secrets o = without_secrets o'.

Definition arms_alike (a a' : Arm) : Prop :=
  match a, a' with
  | Pass, Pass => True
  | Overruled l, Overruled l' => l = l'
  | Took None, Took None => True
  | Took (Some (o, l)), Took (Some (o', l')) => l = l' /\ alike o o'
  | _, _ => False
  end.

Lemma take_alike {A} (conv : PyObj -> option A) raw set line o o' :
  alike o o' -> (forall v, alike o o' -> alike (set v o) (set v o')) ->
  arms_alike (take conv raw set line o) (take conv raw set line o').
Proof. intros Ho Hset. unfold take. destruct (conv raw); cbn; [|done]. split; [done|by apply Hset]. Qed.

Lemma text_alike raw raw' set name o o' :
  blank raw = blank raw' -> alike o o' -> (forall v v', alike (set v o) (set v' o')) ->
  arms_alike (take text raw set (fun v => pair name (shown v)) o) (take text raw' set (fun v => pair name (shown v)) o').
Proof.
  intros Hb Ho Hset. unfold take. destruct raw, raw'; simplify_eq/=; try done.
  by destruct b0.
Qed.

Lemma embed_alike s s' key raw raw' o o' :
  same_shape s s' -> alike o o' -> hide_value (PStr key) raw = hide_value (PStr key) raw' ->
  arms_alike (embed s key raw o) (embed s' key raw' o').
Proof.
  intros [Hp Hs Hl] Ho He. unfold embed. rewrite <-Hp, <-Hs, <-(bool_decide_ext _ _ Hl).
  unfold hide_value, secret_key in He. cbn in He. unfold str_eqb.
  destruct o, o'. unfold alike, without_secrets in Ho. cbn in Ho. injection Ho; clear Ho; intros; subst.
  repeat (case_bool_decide; subst; try discriminate); cbn in He; subst;
    repeat match goal with |- context [if ?b then Overruled _ else _] => destruct b end; try done;
    first [apply text_alike; [done|exact eq_refl|intros; exact eq_refl]|apply take_alike; intros; exact eq_refl].
Qed.

Definition embeddings_alike (e e' : Embedding) : Prop := alike e.1.1 e'.1.1 /\ e.1.2 = e'.1.2 /\ e.2 = e'.2.

Lemma hide_type k v v' : hide_value k v = hide_value k v' -> type_name v = type_name v'.
Proof. unfold hide_value. destruct (secret_key k); [by destruct v, v'|by intros ->]. Qed.

Lemma entries_alike s s' e e' entry entry' :
  same_shape s s' -> hide entry = hide entry' -> embeddings_alike e e' ->
  embeddings_alike (embed_entry s e entry) (embed_entry s' e' entry').
Proof.
  intros Hs He (Ho & Ha & Hl). destruct e as [[o applied] log], e' as [[o' applied'] log'].
  destruct entry as [k v], entry' as [k' v']. cbn in Ho, Ha, Hl. subst.
  unfold hide in He. cbn in He. injection He as <- He. unfold embed_entry. cbn.
  destruct (PyObj.as_str k) as [key|] eqn:E; [|done]. rewrite <-(hide_type _ _ _ He).
  assert (k = PStr key) as -> by (destruct k; by simplify_eq/=).
  pose proof (embed_alike s s' key v v' o o' Hs Ho He) as Harm.
  destruct (embed s _ _ _) as [| |[[]|]], (embed s' _ _ _) as [| |[[]|]]; cbn in Harm; try done.
  - by subst.
  - by destruct Harm as [-> ?].
Qed.

Lemma folds_alike s s' d d' e e' :
  same_shape s s' -> List.map hide d = List.map hide d' -> embeddings_alike e e' ->
  embeddings_alike (fold_left (embed_entry s) d e) (fold_left (embed_entry s') d' e').
Proof.
  intros Hs. revert d' e e'. induction d as [|x d IH]; intros [|x' d'] e e' Hd He; try done.
  cbn [List.map] in Hd. apply (f_equal tail) in Hd as Ht. apply (f_equal (hd x)) in Hd as Hh.
  cbn [fold_left]. apply IH; [done|]. by apply entries_alike.
Qed.

Lemma embedded_alike s s' so so' o o' :
  same_shape s s' -> hidden so = hidden so' -> alike o o' ->
  alike (apply_embedded o so s).1 (apply_embedded o' so' s').1 /\
  (apply_embedded o so s).2 = (apply_embedded o' so' s').2.
Proof.
  intros Hs Hh Ho. unfold apply_embedded. unfold hidden in Hh.
  destruct (so ≫= _) as [d|], (so' ≫= _) as [d'|]; try done. cbn in Hh. injection Hh as Hh.
  assert (embeddings_alike (o, [], []) (o', [], [])) as He by done.
  apply (folds_alike s s' d d' _ _ Hs Hh) in He.
  destruct (fold_left _ d _) as [[o1 a1] l1], (fold_left _ d' _) as [[o2 a2] l2].
  destruct He as (? & ? & ?). cbn in *. by subst.
Qed.

Section silence.
Context `{Json} `{HashOrder} `{HText : !JsonText} `{HFlate : Flate}.
Context (sha512 : list Z -> list Z) (path : string).

Lemma overruled_alike explicit a a' r r' :
  alike a a' -> alike r r' -> overruled_options explicit a r = overruled_options explicit a' r'.
Proof.
  intros Ha Hr. unfold overruled_options, compared. destruct a, a', r, r'.
  injection Ha; injection Hr; intros; by subst.
Qed.

(** The flags of [compared], and whether what was asked for is in force. *)
Definition agreements (a o : RoomOptions) : list (string * Prop) :=
  [("--hint-cost", hint_cost a = hint_cost o);
   ("--location-check-points", location_check_points a = location_check_points o);
   ("--release-mode", release_mode a = release_mode o);
   ("--collect-mode", collect_mode a = collect_mode o);
   ("--remaining-mode", remaining_mode a = remaining_mode o);
   ("--countdown-mode", countdown_mode a = countdown_mode o);
   ("--no-item-cheat", item_cheat a = item_cheat o);
   ("--compatibility", compatibility a = compatibility o)]%string.

Lemma as_text_inj p q : Permission.as_text p = Permission.as_text q -> p = q.
Proof. by destruct p, q. Qed.

(** A row per flag, whose two texts are equal exactly when the values are. *)
Lemma rows_agree a o : Forall2 (fun row agree => row.1.1 = agree.1 /\ (row.1.2 = row.2 <-> agree.2))
  (compared a o) (agreements a o).
Proof.
  repeat (apply List.Forall2_cons; [split; [done|cbn; split; [|by intros ->]]|]); [..|apply List.Forall2_nil].
  all: first [apply (inj pretty)|apply as_text_inj|by destruct (item_cheat a), (item_cheat o)].
Qed.


Lemma overruled_rows explicit a o :
  (forall flag agree, (flag, agree) ∈ agreements a o -> flag ∈ explicit -> ~ agree ->
     exists wanted actual, wanted <> actual /\ overruled_line (flag, wanted, actual) ∈ overruled_options explicit a o) /\
  ((forall flag agree, (flag, agree) ∈ agreements a o -> flag ∈ explicit -> agree) -> overruled_options explicit a o = []).
Proof.
  unfold overruled_options. induction (rows_agree a o) as [|[[flag w] t] [flag' agree] rows ags [Hf Ht] _ [IH1 IH2]].
  { split; [|done]. intros flag agree []%elem_of_nil. }
  cbn in Hf, Ht. subst flag'. cbn [List.filter fst snd]. split.
  - intros f ag Hin Hx Hno. apply elem_of_cons in Hin as [[= -> ->]|Hin].
    + exists w, t. split; [by intros ?%Ht|]. rewrite bool_decide_true by done.
      unfold str_eqb. rewrite bool_decide_false by (by intros ?%Ht).
      cbn [andb negb]. rewrite fmap_cons. by left.
    + destruct (IH1 f ag Hin Hx Hno) as (w' & t' & ? & ?). exists w', t'. split; [done|].
      destruct (_ && _); [rewrite fmap_cons; by right|done].
  - intros Hall.
    case_bool_decide as Hx; [|by apply IH2; intros; eapply Hall; [right|]].
    assert (w = t) as -> by (apply Ht, (Hall flag); [by left|done]).
    unfold str_eqb. rewrite bool_decide_true by done. by apply IH2; intros; eapply Hall; [right|].
Qed.

Lemma asked_alike a b o : alike a b -> agreements a o = agreements b o.
Proof. intros Ha. destruct a, b. injection Ha. intros; by subst. Qed.

(** What a save overrules is said, but in the seed's words.  In a room
    restored without asking the seed, every flag that was given and is not in force
    has its line in the log, with two different values; when all that were given are
    in force there is no such line.  When the seed was asked, the line quotes the
    seed's value as what the flag asked for, whatever was typed. *)
Theorem overruled_flags_are_reported args data names now dir opens room events log s :
  start_room sha512 path args data names now dir opens = Ok (room, events, log) -> loaded dir = Some s ->
  let given flag agree := (flag, agree) ∈ agreements (sa_options args) (r_options room) /\ flag ∈ sa_explicit args in
  (sa_use_embedded args = false ->
    (forall flag agree, given flag agree -> ~ agree ->
       exists wanted actual, wanted <> actual /\ Warn (overruled_line (flag, wanted, actual)) ∈ log) /\
    ((forall flag agree, given flag agree -> agree) -> forall line, Warn line ∉ log)) /\
  (forall v, sa_use_embedded args = true -> seed_value (named "hint_cost" count) (server_options data) = Some v ->
     "--hint-cost"%string ∈ sa_explicit args -> v <> hint_cost (r_options room) ->
     Warn (overruled_line ("--hint-cost"%string, pretty v, pretty (hint_cost (r_options room)))) ∈ log).
Proof.
  intros Hst Hl. cbv zeta. apply starts in Hst as (log' & Hw & _ & ->). apply with_save_cases in Hw. rewrite Hl in Hw.
  destruct Hw as [_ ->]. set (asked := r_options (room_new _ _ _ _ _)).
  destruct (overruled_rows (sa_explicit args) asked (r_options room)) as [Hrep Hsil]. split.
  - intros He. assert (alike asked (sa_options args)) as Ha by (unfold asked, configured; by rewrite He).
    assert ((configured args (server_options data)).2 = []) as -> by (unfold configured; by rewrite He).
    rewrite <-(asked_alike _ _ _ Ha). split.
    + intros flag agree [Hin Hx] Hno. destruct (Hrep flag agree Hin Hx Hno) as (w & t & Hwt & Hline).
      exists w, t. split; [done|]. cbn [app]. right. apply list_elem_of_fmap. by eexists.
    + intros Hall line Hline. rewrite Hsil in Hline by (intros f ag ??; by apply (Hall f)).
      cbn in Hline. apply elem_of_cons in Hline as [|[]%elem_of_nil]; done.
  - intros v He Hv Hx Hne. apply elem_of_app. right. right. apply list_elem_of_fmap. eexists. split; [done|].
    assert (hint_cost asked = v) as Hc.
    { destruct (configured_options args data) as [(Hh & _) _]. unfold from_seed in Hh. rewrite He, Hv in Hh. done. }
    unfold overruled_options, compared. cbn [List.filter fst snd]. rewrite bool_decide_true by done.
    unfold str_eqb at 1. rewrite bool_decide_false by (rewrite Hc; by intros ?%(inj pretty)).
    cbn [andb negb]. rewrite fmap_cons, Hc. by left.
Qed.
End silence.

(** ** The theorems at concrete arguments *)

#[local] Existing Instance tree_json.
#[local] Existing Instance ascii_unicode.
#[local] Existing Instance demo_hash.
#[local] Existing Instance demo_flate.
#[local] Existing Instance demo_text.

(** A seed that asks for hints at twenty and for a password. *)
Definition demo_seed (word : string) : MultiData :=
  mkMultiData "demo" (mkVersion 0 6 3) (mkVersion 0 5 0) ∅ (slot_info demo_data) (connect_names demo_data)
    (locations demo_data) (precollected_items demo_data) ∅ ∅ [] false ∅
    (Some (PDict [(PStr "host", PNone); (PStr "hint_cost", PInt 20); (PStr "password", PStr word);
                  (PStr "release_mode", PStr "enable")]))
    ∅.

Definition demo_secrets : Cli.Secrets := Cli.mkSecrets (Some "env"%string) None None true false None [].

Definition demo_args (secrets : Cli.Secrets) (embedded : bool) : ServeArgs :=
  mkServeArgs (set_hint_cost 5 options_default) ["--hint-cost"%string] true embedded secrets ("0"%string, "r"%string).

Definition demo_bytes : list Z := encode (snapshot demo_saved) false.

Lemma demo_decodes : exists s, decode demo_bytes = Ok s /\ s_options s = without_secrets (r_options demo_saved) /\
  forall fresh, seed_name (r_data fresh) = "demo"%string -> restore s fresh = Ok (restarted fresh demo_saved).
Proof.
  exists (canonical (snapshot demo_saved)).
  assert (decode demo_bytes = Ok (canonical (snapshot demo_saved))) as Hd.
  { apply (saves_round_trip (snapshot demo_saved) false); [exact demo_storable|by_deciding]. }
  split; [done|]. split; [done|]. intros fresh Hf.
  pose proof (restart_ok demo_saved fresh false demo_saveable Hf) as Hr.
  unfold demo_bytes in Hd. by rewrite Hd in Hr.
Qed.

Definition no_digest (b : list Z) : list Z := [].
Definition demo_dir : option (result Persist.OpenError (option (list Z))) := Some (Ok (Some demo_bytes)).

Lemma demo_starts secrets embedded word : exists room events log,
  start_room no_digest "room.save" (demo_args secrets embedded) (demo_seed word) demo_package (f64_of_Z 1) demo_dir true
    = Ok (room, events, log) /\ hint_cost (r_options room) = 10.
Proof.
  destruct demo_decodes as (s & Hd & Ho & Hr).
  set (fresh := room_new no_digest (demo_seed word) demo_package
    (configured (demo_args secrets embedded) (server_options (demo_seed word))).1 (f64_of_Z 1)).
  assert (seed_name (r_data fresh) = "demo"%string) as Hn by reflexivity. specialize (Hr fresh Hn).
  destruct (start_restored no_digest "room.save" (demo_args secrets embedded) (demo_seed word) demo_package
    (f64_of_Z 1) demo_bytes s _ Hd Hr) as (events & log & Hs).
  exists (restarted fresh demo_saved), events, log. split; [exact Hs|].
  rewrite (restore_options _ _ _ Hr), Ho. reflexivity.
Qed.

Definition demo_env (name : string) : option string :=
  if bool_decide (name = Cli.PASSWORD) then Some "env"%string else None.

Lemma options_in_force_witness : exists room events log,
  start_room no_digest "room.save" (demo_args demo_secrets true) (demo_seed "seed") demo_package (f64_of_Z 1) None true
    = Err JournalNeedsDir /\
  start_room no_digest "room.save" (demo_args demo_secrets true) (demo_seed "seed") demo_package (f64_of_Z 1)
    (Some (Ok None)) true = Ok (room, events, log) /\
  password (r_options room) = Some "env"%string /\ hint_cost (r_options room) = 20 /\
  release_mode (r_options room) = Permission.Auto.
Proof.
  do 3 eexists. split; [reflexivity|]. split; [reflexivity|].
  edestruct (options_in_force no_digest "room.save" (fun _ => Ok []) (Cli.mkFromArgv None None) demo_env
    (demo_args demo_secrets true) (demo_seed "seed") demo_package (f64_of_Z 1) (Some (Ok None)) true)
    as (_ & Hp & _ & _ & (Hh & _ & Hr & _) & _); [reflexivity|reflexivity|].
  split; [by apply Hp|]. split; [exact Hh|exact Hr].
Defined.


Lemma overruled_flags_are_reported_witness : exists room events log,
  start_room no_digest "room.save" (demo_args demo_secrets true) (demo_seed "seed") demo_package (f64_of_Z 1) demo_dir true
    = Ok (room, events, log) /\
  hint_cost (sa_options (demo_args demo_secrets true)) = 5 /\
  Warn (overruled_line ("--hint-cost", "20", "10")%string) ∈ log.
Proof.
  destruct (demo_starts demo_secrets true "seed") as (room & events & log & H1 & Hc).
  exists room, events, log. split; [exact H1|]. split; [reflexivity|]. destruct demo_decodes as (s & Hd & _).
  destruct (overruled_flags_are_reported no_digest "room.save" _ _ _ _ _ _ _ _ _ s H1) as [_ Hq].
  { unfold loaded, demo_dir. by rewrite Hd. }
  rewrite Hc in Hq. apply (Hq 20); [reflexivity|reflexivity|by left|done].
Defined.
