(* ===== verification/Actor.v ===== *)
(** * [crates/pahoa-net/src/actor.rs]: the room's actor

    One turn of [run_with_saves]'s loop for each message: the room's handler,
    what its effects become on their way to the shards ([Dispatcher]), the
    membership updates behind it, and whether the room is dirty.  [Saver] is the
    state machine of the saves.  The text of a batch of packets (serde_json) is
    the parameter [encode]; the clock's reading is an argument; the refusals'
    log, the metrics, and the replies that only report are left out. *)

From Stdlib Require Import ZArith Lia Bool SpecFloat.
From stdpp Require Import base tactics list sets gmap strings.
From S2P Require Import Prelude PyRandom PyObj Locations Types Multidata Conn Hints Json PyValue Packets Filter.
From S2P Require Import Options Effects Room RoomOps RoomPlay Text Commands ServerCommands Say Admin.
From S2P Require Import Save RoomSave.
From S2P Require Frame Deflate Shard.

(** ** [Dispatcher] *)

(** What goes to the shards and to the journal. *)
Inductive Call `{Json} : Type :=
| Tell (conn : ConnId) (msg : Shard.ShardMsg)
| ToAll (to_ : Recipients) (msg : Frame.Outgoing) (tag : option Shard.OutTag)
| JournalCheck (record : CheckRecord)
| JournalEvent (event : JournalEvent).

Definition close_text (reason : CloseReason) : string :=
  match reason with
  | ProtocolError _ => "protocol error"
  | TooSlow => "client too slow"
  | ServerShutdown => "server shutting down"
  | Kicked => "disconnected by an administrator"
  end.

Section dispatcher.
Context `{Json} `{HashOrder} `{HText : !JsonText} `{HUni : Unicode}.
Context (encode : list ServerPacket -> list Z).

(** One effect, as the calls it makes. *)
Definition dispatched (e : Effect) : list Call :=
  match e with
  | ESend _ [] | EBroadcast _ [] => []
  | ESend to_ msgs => [Tell to_ (Shard.SSend to_ (Frame.outgoing_text (encode msgs)) (outbound_tag msgs))]
  | EBroadcast to_ msgs => [ToAll to_ (Frame.outgoing_text (encode msgs)) (outbound_tag msgs)]
  | EClose conn reason => [Tell conn (Shard.SClose conn (close_text reason))]
  | EMembership conn auth no_text slot => [Tell conn (Shard.SUpdate conn auth no_text slot)]
  | EFilter conn f => [Tell conn (Shard.SSetFilter conn f)]
  | EJournalCheck record => [JournalCheck record]
  | EJournalEvent event => [JournalEvent event]
  | EDirty | ERedundant _ _ _ | EDrop _ => []
  end.

Definition is_dirty (e : Effect) : bool := match e with EDirty => true | _ => false end.

(** ** The saves *)

Record SaveConfig : Type := mkSaveConfig { sc_store : bool; sc_compress : bool }.

(** How a save on its own thread ended: written, refused by the store, or its
    task was lost. *)
Inductive Outcome : Type := Saved | StoreFailed | TaskLost.

Record Saver : Type := mkSaver {
  sv_config : SaveConfig;
  sv_in_flight : option Snapshot;
  sv_dirty : bool
}.

Definition saver_new (config : SaveConfig) : Saver := mkSaver config None false.

Definition set_dirty (d : bool) (s : Saver) : Saver := mkSaver (sv_config s) (sv_in_flight s) d.

Definition maybe_start (room : Room) (s : Saver) : Saver :=
  if negb (sc_store (sv_config s)) then s
  else if negb (sv_dirty s) || bool_decide (is_Some (sv_in_flight s)) then s
  else mkSaver (sv_config s) (Some (snapshot room)) false.

(** [finished], once the save in flight has ended; with none in flight it waits
    for ever. *)
Definition finished (o : Outcome) (s : Saver) : option Saver :=
  match sv_in_flight s with
  | None => None
  | Some _ => Some (mkSaver (sv_config s) None (match o with StoreFailed => true | _ => sv_dirty s end))
  end.

(** [timeout(.., self.finished())]: [None] is the timeout, which leaves the save
    in flight. *)
Definition wait (w : option Outcome) (s : Saver) : Saver :=
  match w with Some o => default s (finished o s) | None => s end.

Definition flush (room : Room) (first second : option Outcome) (s : Saver) : Saver :=
  if negb (sc_store (sv_config s)) then s
  else
    let s := if bool_decide (is_Some (sv_in_flight s)) then wait first s else s in
    wait second (maybe_start room (set_dirty true s)).

(** ** A turn *)

Definition Membership : Type := bool * bool * option SlotKey.

(** The room and the turn's [Dispatcher]. *)
Record Turn : Type := mkTurn {
  t_room : Room;
  t_dirty : bool;
  t_updates : list (ConnId * Membership);
  t_calls : list Call
}.

Definition W (A : Type) : Type := Turn -> result Stop (A * Turn).

#[global] Instance W_ret : MRet W := fun A a t => Ok (a, t).
#[global] Instance W_bind : MBind W := fun A B k m t =>
  match m t with Ok (a, t) => k a t | Err s => Err s end.

(** A handler of the room, its effects dispatched as they come. *)
Definition in_room {A} (m : M A) : W A := fun t =>
  match m (t_room t) with
  | Ok (a, r, es) => Ok (a, mkTurn r (t_dirty t || existsb is_dirty es) (t_updates t)
                               (t_calls t ++ (es ≫= dispatched)))
  | Err s => Err s
  end.

Definition call (c : Call) : W unit := fun t =>
  Ok (tt, mkTurn (t_room t) (t_dirty t) (t_updates t) (t_calls t ++ [c])).

Definition tell (conn : ConnId) (msg : Shard.ShardMsg) : W unit := call (Tell conn msg).

Definition modify_room (f : Room -> Room) : W unit := fun t =>
  Ok (tt, mkTurn (f (t_room t)) (t_dirty t) (t_updates t) (t_calls t)).

Definition room : W Room := fun t => Ok (t_room t, t).

(** The membership of a client, as [push_membership] reports it. *)
Definition membership_of (c : Client) : Membership :=
  (c_auth c, c_no_text c, if c_auth c then Some (c_team c, c_slot c) else None).

Definition push_membership (conn : ConnId) : W unit := fun t =>
  Ok (tt, mkTurn (t_room t) (t_dirty t)
            (match r_clients (t_room t) !! conn with
             | Some c => t_updates t ++ [(conn, membership_of c)]
             | None => t_updates t
             end) (t_calls t)).

Fixpoint for_each {A} (l : list A) (body : A -> W unit) : W unit :=
  match l with [] => mret tt | a :: l => _ ← body a; for_each l body end.

(** ** The messages *)

(** The rules of a request are its [Filter]. *)
Inductive FilterEdit : Type :=
| FRead
| FReplace (rules : Filter)
| FMerge (rules : Filter)
| FRemove (matchers : Filter)
| FClear.

Inductive FilterReply : Type :=
| FOk (rules : option Value) (effective : Value) (inherited : bool) (removed : nat)
| UnknownSlot
| FRefused (e : FilterError).

Inductive ActorMsg : Type :=
| AConnected (conn : ConnId) (deflate : option Z) (budget : nat) (feed : FeedPolicy)
| APackets (conn : ConnId) (packets : list ClientPacket)
| ADecodeFailed (conn : ConnId)
| ADisconnected (conn : ConnId) (reason : string)
| ALive | AStatus | ATracker
| AAdmin (command : AdminCommand)
| ASetSlotPassword (slot : Z) (password : option string)
| AFilter (slot : option Z) (edit : FilterEdit)
| AShutdown.

(** How an arm of the [match] ends, with its reply. *)
Inductive Reply : Type :=
| RNone
| ROutcome (o : AdminOutcome)
| RKnown (known : bool)
| RFilter (reply : FilterReply).

Inductive Flow : Type := Through | Continue | Break.

(** *** [SetSlotPassword] *)

Definition set_slot_passwords (x : gmap Z string) (o : RoomOptions) : RoomOptions :=
  mkRoomOptions (password o) (Some x) (server_password o) (hint_cost o) (location_check_points o)
    (release_mode o) (collect_mode o) (remaining_mode o) (countdown_mode o) (item_cheat o)
    (compatibility o) (tags o).

Definition set_slot_password (now : f64) (slot : Z) (password_ : option string) : W Reply :=
  r ← room;
  if negb (bool_decide (is_Some (slot_info (r_data r) !! slot))) then mret (RKnown false)
  else
    match slot_passwords (r_options r) with
    | Some passwords =>
        let passwords := match password_ with
                         | Some p => <[slot := p]> passwords
                         | None => delete slot passwords
                         end in
        _ ← modify_room (fun r => set_options (set_slot_passwords passwords (r_options r)) r);
        _ ← call (JournalEvent (JSlotPasswordChanged now slot (bool_decide (is_Some password_))));
        mret (RKnown true)
    | None => mret (RKnown false)
    end.

(** *** [Filter] *)

(** The rules afterwards, whether they are stored (and as what), and how many a
    removal took. *)
Definition edited (edit : FilterEdit) (existing : option Filter)
    : result FilterError (option (option Filter) * nat) :=
  let current := default [] existing in
  match edit with
  | FRead => Ok (None, 0%nat)
  | FReplace rules => Ok (Some (Some rules), 0%nat)
  | FMerge rules =>
      let '(merged, fits) := merge_rules current rules in
      match fits with Err e => Err e | Ok _ => Ok (Some (Some merged), 0%nat) end
  | FRemove matchers =>
      let '(kept, removed) := remove_rules current matchers in Ok (Some (Some kept), removed)
  | FClear => Ok (Some None, 0%nat)
  end.

Definition edit_filter (key : option SlotKey) (edit : FilterEdit) : W (Flow * FilterReply * bool) :=
  r ← room;
  let existing := filter_of r key in
  match edited edit existing with
  | Err e => mret (Continue, FRefused e, false)
  | Ok (next, removed) =>
      let own := match next with Some value => value | None => existing end in
      _ ← (match next with Some value => in_room (RoomPlay.set_filter key value) | None => mret tt end);
      r ← room;
      let inherited := bool_decide (is_Some key) && negb (bool_decide (is_Some own)) in
      let effective := if inherited then default [] (filter_of r None) else default [] own in
      mret (Through, FOk (filter_to_json <$> own) (filter_to_json effective) inherited removed,
            bool_decide (is_Some next))
  end.

(** The arm: the last component is whether it set [saver.dirty] itself. *)
Definition on_filter (slot : option Z) (edit : FilterEdit) : W (Flow * FilterReply * bool) :=
  r ← room;
  match slot with
  | Some n =>
      if negb (bool_decide (is_Some (slot_info (r_data r) !! n))) then mret (Continue, UnknownSlot, false)
      else edit_filter (Some (ONLY_TEAM, n)) edit
  | None => edit_filter None edit
  end.

(** *** The [match] *)

Definition on_msg (now : f64) (msg : ActorMsg) : W (Flow * Reply * bool) :=
  match msg with
  | AConnected conn deflate budget feed =>
      _ ← tell conn (Shard.SAdd conn deflate budget (bool_decide (feed = Scoped)));
      _ ← in_room (on_connect_with_feed conn feed);
      _ ← push_membership conn;
      mret (Through, RNone, false)
  | APackets conn packets =>
      _ ← for_each packets (fun packet => in_room (handle conn packet));
      _ ← push_membership conn;
      mret (Through, RNone, false)
  | ADecodeFailed conn =>
      _ ← in_room (on_disconnect conn "protocol error");
      _ ← tell conn (Shard.SClose conn "protocol error");
      _ ← tell conn (Shard.SRemove conn);
      mret (Through, RNone, false)
  | ADisconnected conn reason =>
      _ ← in_room (on_disconnect conn reason);
      _ ← tell conn (Shard.SRemove conn);
      mret (Through, RNone, false)
  | ALive | AStatus | ATracker => mret (Through, RNone, false)
  | AAdmin command =>
      outcome ← in_room (admin command);
      mret (Through, ROutcome outcome, false)
  | ASetSlotPassword slot password_ =>
      reply ← set_slot_password now slot password_;
      mret (Through, reply, false)
  | AFilter slot edit =>
      x ← on_filter slot edit;
      let '(flow, reply, dirty) := x in mret (flow, RFilter reply, dirty)
  | AShutdown =>
      _ ← in_room shutdown;
      mret (Break, RNone, false)
  end.

(** ** The loop *)

Record Actor : Type := mkActor { a_room : Room; a_saver : Saver }.

Definition begin (r : Room) : Turn := mkTurn r false [] [].

(** One message: whether the loop goes on, the reply and the calls. *)
Definition turn (now : f64) (msg : ActorMsg) (a : Actor) : result Stop (Actor * Flow * Reply * list Call) :=
  match (_ ← in_room (tick now); on_msg now msg) (begin (a_room a)) with
  | Err s => Err s
  | Ok ((flow, reply, dirty), t) =>
      let noted := set_dirty (sv_dirty (a_saver a) || dirty) (a_saver a) in
      let saver := match flow with
                   | Continue => noted
                   | _ => set_dirty (sv_dirty noted || t_dirty t) noted
                   end in
      let updates := match flow with
                     | Through => (fun u => Tell u.1 (Shard.SUpdate u.1 u.2.1.1 u.2.1.2 u.2.2)) <$> t_updates t
                     | _ => []
                     end in
      Ok (mkActor (t_room t) saver, flow, reply, t_calls t ++ updates)
  end.

(** The room's own timer. *)
Definition on_tick (now : f64) (a : Actor) : result Stop (Actor * list Call) :=
  match in_room (tick now) (begin (a_room a)) with
  | Err s => Err s
  | Ok (_, t) => Ok (mkActor (t_room t) (set_dirty (sv_dirty (a_saver a) || t_dirty t) (a_saver a)), t_calls t)
  end.

(** The timer of the saves. *)
Definition on_save_timer (a : Actor) : Actor := mkActor (a_room a) (maybe_start (a_room a) (a_saver a)).
End dispatcher.
