(* ===== verification/ActorTheorems.v ===== *)
(** * What the actor promises

    A filter's reply says what holds afterwards; and what the saver's flags mean
    for what is on the disk. *)

From Stdlib Require Import ZArith Lia Bool SpecFloat.
From stdpp Require Import base tactics list sets gmap strings pretty.
From S2P Require Import Prelude PyRandom PyObj Locations Types Multidata Conn Hints Json PyValue Packets Filter.
From S2P Require Import Options Effects Room RoomOps RoomPlay Text Commands ServerCommands Say Admin.
From S2P Require Import RoomSpec RoomWp RoomRefines RoomFrame Save RoomSave Actor.
From S2P Require Frame Deflate Shard.

Section actor.
Context `{Json} `{HashOrder} `{HText : !JsonText} `{HUni : Unicode}.
Context (encode : list ServerPacket -> list Z).

(** ** Filters *)

Lemma filter_key_not_room key : filter_key key <> ROOM_FILTER.
Proof.
  unfold filter_key, ROOM_FILTER. generalize (pretty key.1) as a, (pretty key.2) as b.
  intros [|c [|c' a]] b Heq; cbn in Heq; discriminate.
Qed.

Definition whole (r : Room) : Room := r.

Lemma keeps_all_push_filter conn : keeps_of whole (push_filter conn).
Proof. unfold push_filter. keep. Qed.

Lemma write_then {A} g (k : M A) r a r' es :
  (_ ← write g; k) r = Ok (a, r', es) -> k (g r) = Ok (a, r', es).
Proof. cbv [mbind M_bind write]. by destruct (k (g r)) as [[[? ?] ?]|]. Qed.

(** Storing a filter touches nothing else. *)
Lemma set_filter_room key value r r' es :
  RoomPlay.set_filter key value r = Ok (tt, r', es) ->
  r' = set_filters (match value with
                    | Some f => <[match key with Some k => filter_key k | None => ROOM_FILTER end := f]> (r_filters r)
                    | None => delete (match key with Some k => filter_key k | None => ROOM_FILTER end) (r_filters r)
                    end) r.
Proof.
  unfold RoomPlay.set_filter. cbv zeta. intros Hrun%write_then.
  match type of Hrun with ?m _ = _ => assert (Hk : keeps_of whole m) end; [|by apply (Hk _ _ _ _ Hrun)].
  apply keeps_bind; [apply keeps_read|]. intros r1. apply keeps_each. intros conn. apply keeps_all_push_filter.
Qed.


Definition filter_name (key : option SlotKey) : string :=
  match key with Some k => filter_key k | None => ROOM_FILTER end.

(** The filter that applies to a slot, or the room's own. *)
Definition effective_filter (r : Room) (key : option SlotKey) : Filter :=
  default [] (match key with Some k => filter_for r k | None => filter_of r None end).

Lemma filter_of_name r key : filter_of r key = r_filters r !! filter_name key.
Proof. by destruct key. Qed.

(** What the reply computes is what the room says. *)
Lemma effective_own r key :
  default [] (if bool_decide (is_Some key) && negb (bool_decide (is_Some (filter_of r key)))
              then filter_of r None else filter_of r key) = effective_filter r key.
Proof.
  unfold effective_filter. destruct key as [k|]; [|done]. unfold filter_for. cbn [filter_of].
  unfold filter_of. destruct (r_filters r !! filter_key k); [by rewrite !bool_decide_true by (by eexists)|].
  rewrite (bool_decide_true (is_Some (Some k))) by (by eexists). by rewrite bool_decide_false by (by intros []).
Qed.

Lemma inherited_iff (key : option SlotKey) (own : option Filter) :
  bool_decide (is_Some key) && negb (bool_decide (is_Some own)) = true <-> is_Some key /\ own = None.
Proof.
  rewrite andb_true_iff, negb_true_iff, bool_decide_eq_true, bool_decide_eq_false.
  by rewrite <-eq_None_not_Some.
Qed.

Lemma set_filters_same r : set_filters (r_filters r) r = r.
Proof. by destruct r. Qed.

(** A reply, and the turn before and after. *)
Definition answers (key : option SlotKey) (edit : FilterEdit) (t t' : Turn) (reply : FilterReply) : Prop :=
  match reply with
  | FOk rules effective inherited removed =>
      rules = filter_to_json <$> filter_of (t_room t') key /\
      effective = filter_to_json (effective_filter (t_room t') key) /\
      (inherited = true <-> is_Some key /\ filter_of (t_room t') key = None) /\
      (edit = FRead -> t' = t) /\
      (edit <> FRead -> t_room t' = set_filters
         (match filter_of (t_room t') key with
          | Some f => <[filter_name key := f]> (r_filters (t_room t))
          | None => delete (filter_name key) (r_filters (t_room t))
          end) (t_room t))
  | UnknownSlot | FRefused _ => t' = t
  end.

Lemma edit_filter_ok key edit (t t' : Turn) flow reply dirty :
  edit_filter encode key edit t = Ok (flow, reply, dirty, t') -> answers key edit t t' reply.
Proof.
  unfold edit_filter. cbv [mbind W_bind room mret W_ret].
  destruct (edited edit (filter_of (t_room t) key)) as [[next removed]|e] eqn:He; [|by intros [= <- <- <- <-]].
  destruct next as [value|].
  - assert (edit <> FRead) by (by intros ->).
    destruct (in_room encode (RoomPlay.set_filter key value) t) as [[[] t1]|] eqn:Hin; [|done].
    intros [= <- <- <- <-]. unfold in_room in Hin.
    destruct (RoomPlay.set_filter key value (t_room t)) as [[[[] r'] es]|] eqn:Hr; [|done].
    apply set_filter_room in Hr. injection Hin as <-. cbn [t_room].
    assert (Hown : filter_of r' key = value).
    { rewrite filter_of_name, Hr. cbn [r_filters set_filters].
      destruct value; [by rewrite lookup_insert_eq|by rewrite lookup_delete_eq]. }
    unfold answers. cbn [t_room]. rewrite Hown. split_and!; [done| |apply inherited_iff|done|by intros _].
    rewrite <-effective_own, Hown. by destruct (bool_decide _ && _).
  - assert (edit = FRead) as ->.
    { destruct edit as [| | rules|rules|]; try done; cbn [edited] in He; try discriminate He.
      by destruct (merge_rules _ rules) as [merged []]. }
    intros [= <- <- <- <-]. unfold answers. split_and!; [done| |apply inherited_iff|done|done].
    rewrite <-effective_own. by destruct (bool_decide _ && _).
Qed.

Lemma on_filter_ok slot edit (t t' : Turn) flow reply dirty :
  on_filter encode slot edit t = Ok (flow, reply, dirty, t') ->
  answers (pair ONLY_TEAM <$> slot) edit t t' reply.
Proof.
  unfold on_filter. cbv [mbind W_bind room]. destruct slot as [n|]; cbn; [|apply edit_filter_ok].
  destruct (bool_decide _); cbn; [apply edit_filter_ok|by intros [= <- <- <- <-]].
Qed.

Lemma edit_filter_runs key edit (t : Turn) :
  exists x, edit_filter encode key edit t = Ok x.
Proof.
  unfold edit_filter. cbv [mbind W_bind room mret W_ret].
  destruct (edited edit (filter_of (t_room t) key)) as [[[value|] removed]|e]; [|by eexists..].
  unfold in_room. pose proof (runs_set_filter key value (t_room t)) as Hr. unfold runs, wp in Hr.
  destruct (RoomPlay.set_filter key value (t_room t)) as [[[[] r'] es]|]; [by eexists|done].
Qed.

(** Every filter request is answered, and the answer says what holds once it
    is: its [rules] are the ones stored under the slot, [effective] are the ones
    that apply to it, [inherited] says that these are the room's.  A read and a
    refused request change nothing; the others change that one entry of the
    room. *)
Theorem filter_replies_tell_the_truth slot edit (t : Turn) :
  exists flow reply dirty t', on_filter encode slot edit t = Ok (flow, reply, dirty, t') /\
    answers (pair ONLY_TEAM <$> slot) edit t t' reply.
Proof.
  assert (Hx : exists x, on_filter encode slot edit t = Ok x).
  { unfold on_filter. cbv [mbind W_bind room]. destruct slot as [n|]; [|apply edit_filter_runs].
    cbn. destruct (bool_decide _); cbn; [apply edit_filter_runs|by eexists]. }
  destruct Hx as [[[[flow reply] dirty] t'] Hx]. exists flow, reply, dirty, t'. split; [exact Hx|].
  by eapply on_filter_ok.
Qed.

(** A removal that finds nothing to remove is not without effect: on a slot
    that has no ruleset, and so lives under the room's, it stores an empty one,
    and nothing the room filters is filtered for that slot any more. *)
Theorem an_empty_removal_exempts slot matchers (t : Turn) :
  is_Some (slot_info (r_data (t_room t)) !! slot) -> filter_of (t_room t) (Some (ONLY_TEAM, slot)) = None ->
  exists t', on_filter encode (Some slot) (FRemove matchers) t =
    Ok (Through, FOk (Some (filter_to_json [])) (filter_to_json []) false 0%nat, true, t') /\
    filter_for (t_room t') (ONLY_TEAM, slot) = Some [].
Proof.
  intros Hs Hno. unfold on_filter. cbv [mbind W_bind room]. cbn beta iota.
  rewrite bool_decide_true by done. cbn beta iota delta [negb]. unfold edit_filter. cbv [mbind W_bind room mret W_ret].
  rewrite Hno. change (edited (FRemove matchers) None) with
    (Ok (Some (Some (@nil Rule)), 0%nat) : result FilterError (option (option Filter) * nat)). cbn beta iota.
  unfold in_room. pose proof (runs_set_filter (Some (ONLY_TEAM, slot)) (Some []) (t_room t)) as Hr. unfold runs, wp in Hr.
  destruct (RoomPlay.set_filter _ _ (t_room t)) as [[[[] r'] es]|] eqn:E; [|done].
  eexists. split; [reflexivity|]. apply set_filter_room in E. cbn [t_room]. unfold filter_for. rewrite E.
  cbn [r_filters set_filters]. by rewrite lookup_insert_eq.
Qed.
End actor.
