(* ===== verification/ActorWorld.v ===== *)
(** * The shards follow the room

    What a turn of the actor tells the shards is what changed in the room: the
    flags of the connections, as the shards hold them once they have handled what
    they were told first, are the room's. *)

From Stdlib Require Import ZArith Lia Bool SpecFloat.
From stdpp Require Import base tactics list sets gmap strings relations.
From S2P Require Import Prelude PyRandom PyObj Locations Types Multidata Conn Hints Json PyValue Packets Filter.
From S2P Require Import Options Effects Room RoomSpec RoomOps RoomStore RoomPlay Text Commands ServerCommands Say.
From S2P Require Import Admin Say RoomFrame RoomWp RoomRefines RoomAuth RoomFeed Save RoomSave Actor ActorTheorems.
From S2P Require Import Deflate.
From S2P Require Shard ShardTheorems Frame Budget.

Section sync.
Context `{Json} `{HashOrder} `{HText : !JsonText} `{HUni : Unicode}.
Context (encode : list ServerPacket -> list Z).

(** ** Presence *)

(** Whether a connection is there, and on which feed. *)
Definition feed_at (conn : ConnId) (r : Room) : option bool := snd <$> flags r !! conn.

Lemma feed_keeps conn {A} (m : M A) : keeps m -> keeps_of (feed_at conn) m.
Proof. apply keeps_weaken; [done|]. intros r r' [= _ _ Hf]. unfold feed_at. by rewrite Hf. Qed.
#[local] Hint Extern 2 (keeps_of (feed_at _) _) => apply feed_keeps; solve [eauto 1 with frame nocore] : frame.

Lemma feed_insert conn c c0 r :
  r_clients r !! conn = Some c0 -> scoped c = scoped c0 ->
  feed_at conn (set_clients (<[conn := c]> (r_clients r)) r) = feed_at conn r.
Proof.
  intros Hc Hs. unfold feed_at. rewrite flags_insert, lookup_insert_eq. unfold flags. rewrite lookup_fmap, Hc.
  cbn. by rewrite Hs.
Qed.

Lemma feed_modify_client conn g :
  (forall c, scoped (g c) = scoped c) -> keeps_of (feed_at conn) (modify_client conn g).
Proof. intros Hg. apply keeps_modify. intros c r Hc. by eapply feed_insert. Qed.
#[local] Hint Extern 1 (keeps_of (feed_at _) (modify_client _ _)) =>
  apply feed_modify_client; intros ?; done : frame.

Lemma feed_stamped conn key r : feed_at conn (stamped key r) = feed_at conn r.
Proof. unfold stamped. cbn. by destruct (r_client_game_state r !! key). Qed.

Lemma feed_connect_accepted conn args team slot h :
  keeps_of (feed_at conn) (connect_accepted conn args team slot h).
Proof.
  intros r a r' es E. split; [|by apply Forall_true].
  destruct (r_clients r !! conn) as [c|] eqn:Hc.
  - pose proof (wp_connect_accepted conn args team slot h r c Hc) as Hw. unfold wp in Hw. rewrite E in Hw.
    destruct Hw as (c' & (n & ->) & ->). rewrite feed_stamped. by eapply (feed_insert conn _ c).
  - unfold connect_accepted in E. cbv [mbind M_bind read] in E. rewrite Hc in E. discriminate E.
Qed.
#[local] Hint Resolve feed_connect_accepted : frame.

Lemma feed_handle_connect conn args : keeps_of (feed_at conn) (handle_connect conn args).
Proof. unfold handle_connect. keep. Qed.

Lemma feed_resend conn : keeps_of (feed_at conn) (resend_all_items conn).
Proof. unfold resend_all_items. keep. Qed.
#[local] Hint Resolve feed_handle_connect feed_resend : frame.

Lemma feed_handle_connect_update conn args : keeps_of (feed_at conn) (handle_connect_update conn args).
Proof. unfold handle_connect_update, announce_tags_changed. keep. Qed.

Lemma feed_handle_set conn args raw : keeps_of (feed_at conn) (handle_set conn args raw).
Proof. unfold handle_set, store_value, bad_arguments. keep. Qed.
#[local] Hint Resolve feed_handle_connect_update feed_handle_set : frame.

(** A packet does not take its connection away, nor to another feed. *)
Lemma feed_handle conn p : keeps_of (feed_at conn) (handle conn p).
Proof. unfold handle. keep. destruct p; cbn [dispatch]; keep. Qed.

Lemma disconnect_gone conn reason r r' es :
  on_disconnect conn reason r = Ok (tt, r', es) -> flags r' !! conn = None.
Proof.
  unfold on_disconnect. intros E%write_then. apply fires_read in E.
  set (r1 := if decide _ then _ else r) in E.
  assert (Hc1 : r_clients r1 = r_clients r) by (unfold r1; by case_decide).
  destruct (r_clients r1 !! conn) as [c|] eqn:Hc; cbn [on_some] in E.
  - apply write_then in E.
    match type of E with ?m _ = _ => assert (Hk : keeps m) by keep end.
    apply Hk in E as [[= _ _ Hf] _]. rewrite Hf. unfold flags. cbn [r_clients set_clients].
    by rewrite lookup_fmap, lookup_delete_eq.
  - injection E as <- _. unfold flags. by rewrite lookup_fmap, Hc.
Qed.

Lemma connect_flags conn feed r r' es :
  on_connect_with_feed conn feed r = Ok (tt, r', es) ->
  flags r' !! conn = Some (false, false, None, bool_decide (feed = Scoped)).
Proof.
  unfold on_connect_with_feed. cbv [mbind M_bind write read emit send].
  intros [= <- _]. unfold flags. cbn [r_clients set_clients]. by rewrite lookup_fmap, lookup_insert_eq.
Qed.

(** ** What the calls tell *)

Definition member_flags := ShardTheorems.member_flags.

(** What a message says of a connection. *)
Definition fate_flags (conn : ConnId) (f : option Flags) (msg : Shard.ShardMsg) : option Flags :=
  match msg with
  | Shard.SAdd c _ _ scoped => if c =? conn then Some (false, false, None, scoped) else f
  | Shard.SRemove c => if c =? conn then None else f
  | Shard.SUpdate c auth no_text slot =>
      if c =? conn then (fun x : Flags => (auth, no_text, slot, x.2)) <$> f else f
  | _ => f
  end.

Definition call_flags (conn : ConnId) (f : option Flags) (c : Call) : option Flags :=
  match c with Tell _ msg => fate_flags conn f msg | _ => f end.

Definition calls_flags (conn : ConnId) (f : option Flags) (cs : list Call) : option Flags :=
  fold_left (call_flags conn) cs f.

(** A call that adds or removes no one, and reports no membership but this
    connection's. *)
Definition mild (conn : ConnId) (c : Call) : Prop :=
  match c with
  | Tell to_ (Shard.SUpdate c _ _ _) => to_ = c /\ c = conn
  | Tell to_ (Shard.SSend c _ _) | Tell to_ (Shard.SSetFilter c _) | Tell to_ (Shard.SClose c _) => to_ = c
  | Tell _ _ => False
  | _ => True
  end.

Lemma dispatched_mild conn e : only_of conn e -> Forall (mild conn) (dispatched encode e).
Proof.
  destruct e as [to_ []|to_ []|c reason| |c a n s|c f|record|event|key kind count|record]; cbn; intros Ho;
    repeat constructor; done.
Qed.

Lemma mild_all conn es : Forall (only_of conn) es -> Forall (mild conn) (es ≫= dispatched encode).
Proof.
  induction 1 as [|e es He _ IH]; [apply Forall_nil_2|]. cbn. apply Forall_app. split; [by apply dispatched_mild|exact IH].
Qed.

Lemma mild_other conn c cs f : Forall (mild conn) cs -> c <> conn -> calls_flags c f cs = f.
Proof.
  intros Hm Hne. unfold calls_flags. revert f. induction Hm as [|x cs Hx _ IH]; intros f; [done|]. cbn.
  rewrite IH. destruct x as [to_ msg|? ? ?|?|?]; [|done..]. destruct msg; cbn in *; try done.
  destruct Hx as [_ ->]. by rewrite (proj2 (Z.eqb_neq _ _)).
Qed.

Lemma mild_feed conn c cs f : Forall (mild conn) cs -> snd <$> calls_flags c f cs = snd <$> f.
Proof.
  intros Hm. unfold calls_flags. revert f. induction Hm as [|x cs Hx _ IH]; intros f; [done|]. cbn.
  rewrite IH. destruct x as [to_ msg|? ? ?|?|?]; [|done..]. destruct msg; cbn in *; try done.
  destruct (_ =? _); [|done]. by destruct f.
Qed.

(** Whoever is added was not there. *)
Fixpoint adds_fresh (conn : ConnId) (f : option Flags) (cs : list Call) : Prop :=
  match cs with
  | [] => True
  | c :: cs =>
      (match c with Tell _ (Shard.SAdd c _ _ _) => c = conn -> f = None | _ => True end) /\
      adds_fresh conn (call_flags conn f c) cs
  end.

Lemma adds_fresh_app conn f cs cs' :
  adds_fresh conn f (cs ++ cs') <-> adds_fresh conn f cs /\ adds_fresh conn (calls_flags conn f cs) cs'.
Proof.
  unfold calls_flags. revert f. induction cs as [|c cs IH]; intros f; cbn; [tauto|]. rewrite IH. tauto.
Qed.

Lemma mild_fresh conn c f cs : Forall (mild conn) cs -> adds_fresh c f cs.
Proof.
  intros Hm. revert f. induction Hm as [|x cs Hx _ IH]; intros f; cbn; [done|]. split; [|apply IH].
  destruct x as [to_ msg|? ? ?|?|?]; [|done..]. by destruct msg.
Qed.

(** Each message is for the shard of its own connection. *)
Definition addressed (c : Call) : Prop :=
  match c with
  | Tell to_ (Shard.SAdd c _ _ _) | Tell to_ (Shard.SRemove c) | Tell to_ (Shard.SUpdate c _ _ _)
  | Tell to_ (Shard.SSetFilter c _) | Tell to_ (Shard.SSend c _ _) | Tell to_ (Shard.SClose c _) => c = to_
  | Tell _ _ => False
  | _ => True
  end.

Lemma mild_addressed conn cs : Forall (mild conn) cs -> Forall addressed cs.
Proof. intros Hm. eapply Forall_impl; [exact Hm|]. intros [to_ []| | |]; cbn; naive_solver. Qed.

(** ** Turns *)

Definition others (conn : ConnId) (t t' : Turn) : Prop :=
  delete conn (flags (t_room t')) = delete conn (flags (t_room t)).

(** What a computation about one connection does to the turn. *)
Record gentle (conn : ConnId) (t t' : Turn) (cs : list Call) : Prop := mkGentle {
  ge_calls : t_calls t' = t_calls t ++ cs;
  ge_mild : Forall (mild conn) cs;
  ge_others : others conn t t';
  ge_updates : t_updates t' = t_updates t
}.

Definition follows (conn : ConnId) {A} (m : W A) : Prop :=
  forall t a t', m t = Ok (a, t') ->
    (exists cs, gentle conn t t' cs) /\ feed_at conn (t_room t') = feed_at conn (t_room t).

Lemma gentle_refl conn t : gentle conn t t [].
Proof. split; [by rewrite app_nil_r|apply Forall_nil_2|done|done]. Qed.

Lemma gentle_trans conn t1 t2 t3 cs cs' :
  gentle conn t1 t2 cs -> gentle conn t2 t3 cs' -> gentle conn t1 t3 (cs ++ cs').
Proof.
  intros [Hc Hm Ho Hu] [Hc' Hm' Ho' Hu']. split; [by rewrite Hc', Hc, app_assoc|by apply Forall_app| |congruence].
  unfold others in *. congruence.
Qed.

Lemma W_bind_Ok {A B} (m : W A) (k : A -> W B) t b t2 :
  (m ≫= k) t = Ok (b, t2) -> exists a t1, m t = Ok (a, t1) /\ k a t1 = Ok (b, t2).
Proof. cbv [mbind W_bind]. destruct (m t) as [[a t1]|]; [|done]. intros. by exists a, t1. Qed.

Lemma follows_bind conn {A B} (m : W A) (k : A -> W B) :
  follows conn m -> (forall a, follows conn (k a)) -> follows conn (m ≫= k).
Proof.
  intros Hm Hk t b t2 (a & t1 & E1 & E2)%W_bind_Ok.
  destruct (Hm _ _ _ E1) as [[cs Hg] Hf], (Hk _ _ _ _ E2) as [[cs' Hg'] Hf'].
  split; [eexists; by eapply gentle_trans|by rewrite Hf'].
Qed.

Lemma follows_ret conn {A} (a : A) : follows conn (mret a).
Proof. intros t a' t' [= _ <-]. split; [eexists; apply gentle_refl|done]. Qed.

Lemma in_room_gentle conn {A} (m : M A) t a t' :
  keeps_only conn m -> in_room encode m t = Ok (a, t') -> exists cs, gentle conn t t' cs.
Proof.
  intros Ho. unfold in_room. destruct (m (t_room t)) as [[[a1 r] es]|] eqn:E; [|done]. intros [= _ <-].
  destruct (Ho _ _ _ _ E) as [Hv Hes]. exists (es ≫= dispatched encode). split; cbn; [done| |exact Hv|done].
  by apply mild_all.
Qed.

Lemma follows_room conn {A} (m : M A) :
  keeps_only conn m -> keeps_of (feed_at conn) m -> follows conn (in_room encode m).
Proof.
  intros Ho Hf t a t' E. split; [by eapply in_room_gentle|]. unfold in_room in E.
  destruct (m (t_room t)) as [[[a1 r] es]|] eqn:Em; [|done]. injection E as _ <-. by apply (Hf _ _ _ _ Em).
Qed.

Lemma follows_keeps conn {A} (m : M A) : keeps m -> follows conn (in_room encode m).
Proof. intros Hm. apply follows_room; [by apply only_keeps|by apply feed_keeps]. Qed.

Lemma follows_read conn : follows conn room.
Proof. intros t a t' [= _ <-]. split; [eexists; apply gentle_refl|done]. Qed.

Lemma follows_modify conn g : (forall r, flags (g r) = flags r) -> follows conn (modify_room g).
Proof.
  intros Hg t a t' [= _ <-]. split; [exists []; split; cbn|]; [by rewrite app_nil_r|apply Forall_nil_2| |done|].
  - unfold others. cbn. by rewrite Hg.
  - unfold feed_at. cbn. by rewrite Hg.
Qed.

Lemma follows_journal conn e : follows conn (call (JournalEvent e)).
Proof. intros t a t' [= _ <-]. split; [|done]. eexists. split; cbn; try done. by apply Forall_singleton. Qed.

Lemma follows_each conn {A} (l : list A) body :
  (forall a, follows conn (body a)) -> follows conn (for_each l body).
Proof.
  intros Hb. induction l as [|a l IH]; [apply follows_ret|]. apply follows_bind; [apply Hb|]. by intros [].
Qed.

(** ** What a turn tells *)

(** The calls take one table of flags to another. *)
Record told (fl fl' : gmap ConnId Flags) (cs : list Call) : Prop := mkTold {
  told_flags : forall c, calls_flags c (fl !! c) cs = fl' !! c;
  told_fresh : forall c, adds_fresh c (fl !! c) cs;
  told_addressed : Forall addressed cs
}.

Lemma told_trans fl1 fl2 fl3 cs cs' : told fl1 fl2 cs -> told fl2 fl3 cs' -> told fl1 fl3 (cs ++ cs').
Proof.
  intros [Hf Hn Ha] [Hf' Hn' Ha']. split.
  - intros c. unfold calls_flags. rewrite fold_left_app. fold (calls_flags c (fl1 !! c) cs). by rewrite Hf, <-Hf'.
  - intros c. apply adds_fresh_app. by rewrite Hf.
  - by apply Forall_app.
Qed.

Lemma delete_lookup {A} (m m' : gmap ConnId A) conn c :
  delete conn m' = delete conn m -> c <> conn -> m' !! c = m !! c.
Proof. intros Hd Hne. apply (f_equal (fun m => m !! c)) in Hd. by rewrite !lookup_delete_ne in Hd. Qed.

Lemma told_gentle t t' cs : (forall conn, exists cs', gentle conn t t' cs') -> t_calls t' = t_calls t ++ cs ->
  told (flags (t_room t)) (flags (t_room t')) cs.
Proof.
  intros Hg Hcs.
  assert (Hall : forall conn, Forall (mild conn) cs /\ others conn t t').
  { intros conn. destruct (Hg conn) as [cs' [Hc Hm Ho _]]. rewrite Hc in Hcs. by apply app_inv_head in Hcs as ->. }
  split.
  - intros c. destruct (Hall (c + 1)) as [Hm Ho]. rewrite (mild_other (c + 1)) by (done || lia).
    symmetry. by apply (delete_lookup _ _ (c + 1)); [|lia].
  - intros c. apply (mild_fresh 0). by apply Hall.
  - apply (mild_addressed 0). by apply Hall.
Qed.

(** What [push_membership] adds behind the turn. *)
Definition pushed (conn : ConnId) (r : Room) : list Call :=
  match r_clients r !! conn with
  | Some c => let m := membership_of c in [Tell conn (Shard.SUpdate conn m.1.1 m.1.2 m.2)]
  | None => []
  end.

Lemma told_pushed conn fl r cs :
  Forall (mild conn) cs -> delete conn (flags r) = delete conn fl -> snd <$> flags r !! conn = snd <$> fl !! conn ->
  told fl (flags r) (cs ++ pushed conn r).
Proof.
  intros Hm Hd Hs. split.
  - intros c. unfold calls_flags. rewrite fold_left_app. fold (calls_flags c (fl !! c) cs).
    destruct (decide (c = conn)) as [-> |Hne].
    + pose proof (eq_trans (mild_feed conn conn cs (fl !! conn) Hm) (eq_sym Hs)) as Hf. revert Hf.
      unfold flags, pushed. rewrite !lookup_fmap. destruct (r_clients r !! conn) as [x|]; cbn;
        [|by destruct (calls_flags conn (fl !! conn) cs)].
      rewrite Z.eqb_refl. destruct (calls_flags conn (fl !! conn) cs) as [y|]; [|done]. cbn. intros [= ->].
      unfold client_flags, session_key. by destruct x as [? [] ? ? ? ? ? ? ? ? ?].
    + rewrite (mild_other conn) by done. unfold pushed.
      destruct (r_clients r !! conn) as [x|]; cbn;
        [rewrite (proj2 (Z.eqb_neq conn c)) by done|]; symmetry; by eapply delete_lookup.
  - intros c. apply adds_fresh_app. split; [by apply (mild_fresh conn)|]. unfold pushed. by destruct (r_clients r !! conn).
  - apply Forall_app. split; [by eapply mild_addressed|]. unfold pushed.
    destruct (r_clients r !! conn); [by apply Forall_singleton|apply Forall_nil_2].
Qed.

Lemma told_removed conn fl r cs cs' :
  Forall (mild conn) cs -> Forall (mild conn) cs' -> delete conn (flags r) = delete conn fl -> flags r !! conn = None ->
  told fl (flags r) (cs ++ cs' ++ [Tell conn (Shard.SRemove conn)]).
Proof.
  intros Hm Hm' Hd Hn. rewrite app_assoc. assert (Hmm : Forall (mild conn) (cs ++ cs')) by (by apply Forall_app).
  split.
  - intros c. unfold calls_flags. rewrite fold_left_app. fold (calls_flags c (fl !! c) (cs ++ cs')). cbn.
    destruct (Z.eqb_spec conn c) as [<- |Hne]; [done|]. rewrite (mild_other conn) by done.
    symmetry. by eapply delete_lookup.
  - intros c. apply adds_fresh_app. split; [by apply (mild_fresh conn)|done].
  - apply Forall_app. split; [by eapply mild_addressed|by apply Forall_singleton].
Qed.

(** The transport uses a connection id once. *)
Definition msg_ok (r : Room) (msg : ActorMsg) : Prop :=
  match msg with AConnected conn _ _ _ => r_clients r !! conn = None | _ => True end.

Definition updates_of (flow : Flow) (t : Turn) : list Call :=
  match flow with
  | Through => (fun u => Tell u.1 (Shard.SUpdate u.1 u.2.1.1 u.2.1.2 u.2.2)) <$> t_updates t
  | _ => []
  end.

(** The calls of a turn from here on, with the updates behind it. *)
Definition tells (t t' : Turn) (flow : Flow) : Prop :=
  exists cs, t_calls t' = t_calls t ++ cs /\ told (flags (t_room t)) (flags (t_room t')) (cs ++ updates_of flow t').

Lemma tells_follows {A} (m : W A) flow t a t' :
  (forall conn, follows conn m) -> m t = Ok (a, t') -> t_updates t = [] -> tells t t' flow.
Proof.
  intros Hm E Hu. destruct (Hm 0 _ _ _ E) as [[cs [Hc _ _ Hu']] _]. exists cs. split; [done|].
  rewrite Hu in Hu'. replace (updates_of flow t') with (@nil Call) by (by destruct flow; cbn; rewrite ?Hu').
  rewrite app_nil_r. apply told_gentle; [|done]. intros conn. by destruct (Hm conn _ _ _ E).
Qed.

Lemma updates_pushed conn t :
  t_updates t = [] -> updates_of Through (mkTurn (t_room t) (t_dirty t)
    (match r_clients (t_room t) !! conn with
     | Some c => t_updates t ++ [(conn, membership_of c)]
     | None => t_updates t
     end) (t_calls t)) = pushed conn (t_room t).
Proof. intros Hu. unfold pushed. cbn. rewrite Hu. by destruct (r_clients (t_room t) !! conn). Qed.

Lemma tells_packets now conn packets t flow reply dirty t' :
  on_msg encode now (APackets conn packets) t = Ok (flow, reply, dirty, t') -> t_updates t = [] -> tells t t' flow.
Proof.
  cbn [on_msg]. intros (u & t1 & E1 & E)%W_bind_Ok Hu. destruct u.
  apply W_bind_Ok in E as (u & t2 & [= <- <-] & [= <- <- <- <-]).
  assert (Hf : follows conn (for_each packets (fun packet => in_room encode (handle conn packet)))).
  { apply follows_each. intros packet. apply follows_room; [apply only_handle|apply feed_handle]. }
  destruct (Hf _ _ _ E1) as [[cs [Hc Hm Ho Hu']] Hfeed]. exists cs. split; [exact Hc|].
  rewrite updates_pushed by congruence. by apply told_pushed.
Qed.

Lemma tells_connected now conn deflate budget feed t flow reply dirty t' :
  on_msg encode now (AConnected conn deflate budget feed) t = Ok (flow, reply, dirty, t') ->
  r_clients (t_room t) !! conn = None -> t_updates t = [] -> tells t t' flow.
Proof.
  cbn [on_msg]. intros (u & t1 & [= <- <-] & E)%W_bind_Ok Hno Hu.
  apply W_bind_Ok in E as (u & t2 & E2 & E). apply W_bind_Ok in E as (u' & t3 & [= <- <-] & [= <- <- <- <-]).
  pose proof E2 as Hrun. unfold in_room in Hrun. cbn in Hrun.
  destruct (on_connect_with_feed conn feed (t_room t)) as [[[[] r'] es]|] eqn:Er; [|done].
  apply connect_flags in Er. injection Hrun as _ Hr. assert (Hroom : t_room t2 = r') by (by rewrite <-Hr). clear Hr.
  apply (in_room_gentle conn) in E2 as [cs [Hc Hm Ho Hu']]; [|apply only_on_connect_with_feed]. cbn in Hc, Hu'.
  eexists. split; [cbn; by rewrite Hc, <-app_assoc|].
  rewrite updates_pushed by congruence. rewrite <-app_assoc.
  apply (told_trans _ (<[conn := (false, false, None, bool_decide (feed = Scoped))]> (flags (t_room t)))).
  - split; cbn.
    + intros c. destruct (Z.eqb_spec conn c) as [<- |Hne]; [by rewrite lookup_insert_eq|by rewrite lookup_insert_ne].
    + intros c. split; [|done]. intros <-. unfold flags. by rewrite lookup_fmap, Hno.
    + by apply Forall_singleton.
  - apply told_pushed; [done| |].
    + rewrite delete_insert_eq. exact Ho.
    + cbn. by rewrite Hroom, Er, lookup_insert_eq.
Qed.

(** A disconnect, with what is told before the removal. *)
Lemma tells_gone conn reason extra t t1 t' flow :
  in_room encode (on_disconnect conn reason) t = Ok (tt, t1) -> t_updates t = [] -> Forall (mild conn) extra ->
  t_room t' = t_room t1 -> t_updates t' = t_updates t1 ->
  t_calls t' = t_calls t1 ++ extra ++ [Tell conn (Shard.SRemove conn)] -> tells t t' flow.
Proof.
  intros E Hu He Hr Hup Hcalls. pose proof E as Hrun. unfold in_room in Hrun.
  destruct (on_disconnect conn reason (t_room t)) as [[[[] r'] es]|] eqn:Er; [|done].
  apply disconnect_gone in Er. injection Hrun as Hrun.
  assert (Hroom : t_room t1 = r') by (by rewrite <-Hrun). clear Hrun.
  apply (in_room_gentle conn) in E as [cs [Hc Hm Ho Hu']]; [|apply only_on_disconnect].
  exists (cs ++ extra ++ [Tell conn (Shard.SRemove conn)]). split; [by rewrite Hcalls, Hc, <-app_assoc|].
  replace (updates_of flow t') with (@nil Call) by (destruct flow; cbn; rewrite ?Hup, ?Hu', ?Hu; done).
  rewrite app_nil_r, Hr. apply told_removed; [done..|by rewrite Hroom].
Qed.

Lemma tells_disconnected now msg t flow reply dirty t' :
  (exists conn, msg = ADecodeFailed conn) \/ (exists conn reason, msg = ADisconnected conn reason) ->
  on_msg encode now msg t = Ok (flow, reply, dirty, t') -> t_updates t = [] -> tells t t' flow.
Proof.
  intros [[conn ->]|(conn & reason & ->)]; cbn [on_msg]; intros ([] & t1 & E1 & E)%W_bind_Ok Hu.
  - apply W_bind_Ok in E as ([] & t2 & [= <-] & E). apply W_bind_Ok in E as ([] & t3 & [= <-] & [= <- <- <- <-]).
    eapply (tells_gone _ _ [Tell conn (Shard.SClose conn "protocol error")]); [exact E1|done|by apply Forall_singleton|done..|].
    cbn. by rewrite <-app_assoc.
  - apply W_bind_Ok in E as ([] & t2 & [= <-] & [= <- <- <- <-]).
    by eapply (tells_gone _ _ []); [exact E1|done|apply Forall_nil_2|..].
Qed.

Lemma follows_set_slot_password conn now slot password_ : follows conn (set_slot_password now slot password_).
Proof.
  unfold set_slot_password. apply follows_bind; [apply follows_read|]. intros r.
  destruct (negb _); [apply follows_ret|]. destruct (slot_passwords (r_options r)); [|apply follows_ret]. cbv zeta.
  apply follows_bind; [by apply follows_modify|]. intros _.
  apply follows_bind; [apply follows_journal|]. intros _. apply follows_ret.
Qed.

Lemma follows_on_filter conn slot edit : follows conn (on_filter encode slot edit).
Proof.
  assert (He : forall key, follows conn (edit_filter encode key edit)).
  { intros key. unfold edit_filter. apply follows_bind; [apply follows_read|]. intros r.
    destruct (edited _ _) as [[next removed]|e]; [|apply follows_ret].
    apply follows_bind; [destruct next; [apply follows_keeps, keeps_set_filter|apply follows_ret]|]. intros _.
    apply follows_bind; [apply follows_read|]. intros r'. apply follows_ret. }
  unfold on_filter. apply follows_bind; [apply follows_read|]. intros r. destruct slot; [|apply He].
  destruct (negb _); [apply follows_ret|apply He].
Qed.

Lemma on_msg_tells now msg t flow reply dirty t' :
  on_msg encode now msg t = Ok (flow, reply, dirty, t') -> flow <> Break -> msg_ok (t_room t) msg ->
  t_updates t = [] -> tells t t' flow.
Proof.
  intros E Hflow Hok Hu. destruct msg as [conn deflate budget feed|conn packets|conn|conn reason| | | |command|slot pw|slot edit|].
  - by eapply tells_connected.
  - by eapply tells_packets.
  - eapply tells_disconnected; [|exact E|done]. left. by eexists.
  - eapply tells_disconnected; [|exact E|done]. right. by eexists _, _.
  - eapply (tells_follows (mret (Through, RNone, false))); [intros; apply follows_ret|exact E|done].
  - eapply (tells_follows (mret (Through, RNone, false))); [intros; apply follows_ret|exact E|done].
  - eapply (tells_follows (mret (Through, RNone, false))); [intros; apply follows_ret|exact E|done].
  - eapply (tells_follows (on_msg encode now (AAdmin command))); [|exact E|done]. intros conn. cbn [on_msg].
    apply follows_bind; [apply follows_keeps, keeps_admin|]. intros. apply follows_ret.
  - eapply (tells_follows (on_msg encode now (ASetSlotPassword slot pw))); [|exact E|done]. intros conn. cbn [on_msg].
    apply follows_bind; [apply follows_set_slot_password|]. intros. apply follows_ret.
  - eapply (tells_follows (on_msg encode now (AFilter slot edit))); [|exact E|done]. intros conn. cbn [on_msg].
    apply follows_bind; [apply follows_on_filter|]. intros [[flow' reply'] dirty']. apply follows_ret.
  - cbn [on_msg] in E. apply W_bind_Ok in E as ([] & t1 & _ & [= <- _ _ _]). done.
Qed.

Lemma tick_gentle now t t' : in_room encode (tick now) t = Ok (tt, t') -> forall conn, exists cs, gentle conn t t' cs.
Proof. intros E conn. eapply in_room_gentle; [|exact E]. apply only_keeps, keeps_tick. Qed.

(** A turn of the actor tells the shards exactly what it did to the flags. *)
Lemma turn_told now msg a a' flow reply calls :
  turn encode now msg a = Ok (a', flow, reply, calls) -> flow <> Break -> msg_ok (a_room a) msg ->
  told (flags (a_room a)) (flags (a_room a')) calls.
Proof.
  unfold turn. destruct ((_ ← in_room encode (tick now); on_msg encode now msg) (begin (a_room a)))
    as [[[[flow' reply'] dirty] t]|] eqn:E; [|done].
  intros Hq. assert (flow' = flow) as -> by (by injection Hq).
  assert (Hcalls : calls = t_calls t ++ updates_of flow t) by (by injection Hq).
  assert (Hroom : a_room a' = t_room t) by (by injection Hq as <-). clear Hq.
  intros Hflow Hok. rewrite Hcalls, Hroom. apply W_bind_Ok in E as ([] & t1 & E1 & E).
  pose proof (tick_gentle now _ _ E1) as Hg. destruct (Hg 0) as [cs0 [Hc0 _ _ Hu0]]. cbn in Hc0, Hu0.
  assert (Hclients : match msg with AConnected conn _ _ _ => r_clients (t_room t1) !! conn = None | _ => True end).
  { destruct msg; try done. destruct (Hg (conn + 1)) as [cs [_ _ Ho _]].
    apply (delete_lookup _ _ (conn + 1) conn) in Ho; [|lia]. revert Ho. unfold flags. rewrite !lookup_fmap. cbn in Hok |- *.
    rewrite Hok. by destruct (r_clients (t_room t1) !! conn). }
  destruct (on_msg_tells _ _ _ _ _ _ _ E Hflow Hclients Hu0) as (cs & Hc & Ht).
  rewrite Hc, Hc0, <-app_assoc. eapply told_trans; [|exact Ht]. by apply (told_gentle (begin (a_room a)) t1).
Qed.
End sync.

(** * The room, its actor and its shards together

    The actor takes its turns, the shards take theirs, in any order and however
    full the bounded inboxes are.  Once a shard has handled what it was told
    first, it knows of its connections what the room knows. *)

Section world.
Context `{Json} `{HashOrder} `{HText : !JsonText} `{HUni : Unicode} `{HFlate : Flate2}.
Context (encode : list ServerPacket -> list Z) (budget : Budget.Budget) (level : Z).

Record World : Type := mkWorld {
  w_actor : Actor;
  w_inboxes : list Shard.Inbox;
  w_shards : list Shard.Shard;
  w_shared : Budget.Shared
}.

Definition world_new (shards : nat) (r : Room) (config : SaveConfig) (g : Budget.Shared) : World :=
  mkWorld (mkActor r (saver_new config)) (replicate shards (Shard.mkInbox [] []))
    ((fun k => Shard.shard_new (Z.of_nat k)) <$> seq 0 shards) g.

(** What the calls of a turn put into the inboxes of shard [k] of [n]; the
    bounded one may refuse any of them. *)
Inductive posts (n k : nat) : list Call -> Shard.Inbox -> Shard.Inbox -> Prop :=
| PostsNil i : posts n k [] i i
| PostsTell conn msg refused cs i i' :
    posts n k cs (if decide (Shard.shard_of n conn = k) then Shard.tell conn msg refused i else i) i' ->
    posts n k (Tell conn msg :: cs) i i'
| PostsAll to_ msg tag refused cs i i' :
    posts n k cs (Shard.shards_broadcast to_ msg tag refused i) i' -> posts n k (ToAll to_ msg tag :: cs) i i'
| PostsCheck record cs i i' : posts n k cs i i' -> posts n k (JournalCheck record :: cs) i i'
| PostsEvent event cs i i' : posts n k cs i i' -> posts n k (JournalEvent event :: cs) i i'.

Definition posted (calls : list Call) (ibs ibs' : list Shard.Inbox) : Prop :=
  length ibs' = length ibs /\
  forall k i i', ibs !! k = Some i -> ibs' !! k = Some i' -> posts (length ibs) k calls i i'.

Inductive world_step : World -> World -> Prop :=
| WTurn now msg a a' flow reply calls ibs ibs' ss g :
    turn encode now msg a = Ok (a', flow, reply, calls) -> flow <> Break -> msg_ok (a_room a) msg ->
    posted calls ibs ibs' -> world_step (mkWorld a ibs ss g) (mkWorld a' ibs' ss g)
| WTick now a a' calls ibs ibs' ss g :
    on_tick encode now a = Ok (a', calls) -> posted calls ibs ibs' ->
    world_step (mkWorld a ibs ss g) (mkWorld a' ibs' ss g)
| WSave a ibs ss g : world_step (mkWorld a ibs ss g) (mkWorld (on_save_timer a) ibs ss g)
| WFinished o a s ibs ss g :
    finished o (a_saver a) = Some s -> world_step (mkWorld a ibs ss g) (mkWorld (mkActor (a_room a) s) ibs ss g)
| WShard k env msg a i i' s s' ibs ss g g' out :
    ibs !! k = Some i -> ss !! k = Some s -> Shard.next_msg i = Some (msg, i') ->
    Shard.handle_msg budget level env msg s g = (s', g', out) ->
    world_step (mkWorld a ibs ss g) (mkWorld a (<[k := i']> ibs) (<[k := s']> ss) g').

(** ** What a shard will know *)

Definition as_calls (ms : list Shard.ShardMsg) : list Call := Tell 0 <$> ms.

Definition known (s : Shard.Shard) (conn : ConnId) : option Flags := member_flags <$> Shard.members s !! conn.

Lemma known_marked s ms conn :
  ShardTheorems.marked (Shard.members s) ms -> member_flags <$> ms !! conn = known s conn.
Proof.
  intros Hm. specialize (Hm conn). unfold known. destruct (Shard.members s !! conn) as [m|]; [|by rewrite Hm].
  by destruct Hm as [-> | ->].
Qed.

Lemma known_fan env l msg tag s g conn :
  known (Shard.fan_out_to budget level env l msg tag s g).1.1 conn = known s conn.
Proof.
  pose proof (ShardTheorems.fan_out_marked budget level env l msg tag s g) as [Hm _]. by apply known_marked.
Qed.

Lemma known_step env msg s g conn :
  known (Shard.handle_msg budget level env msg s g).1.1 conn = fate_flags conn (known s conn) msg.
Proof.
  destruct msg as [c ? ? ?|c|c ? ? ?|c ?|c ? ?|to_ ? ?|c ?|[c|]]; cbn [fate_flags Shard.handle_msg];
    try apply known_fan; try done; unfold known.
  - cbn. destruct (Z.eqb_spec c conn) as [-> |]; [by rewrite lookup_insert_eq|by rewrite lookup_insert_ne].
  - destruct (Shard.members s !! c) as [m|] eqn:Hc; cbn.
    + destruct (Z.eqb_spec c conn) as [-> |]; [by rewrite lookup_delete_eq|by rewrite lookup_delete_ne].
    + destruct (Z.eqb_spec c conn) as [-> |]; [by rewrite Hc|done].
  - destruct (Shard.members s !! c) as [m|] eqn:Hc; cbn.
    + destruct (Z.eqb_spec c conn) as [-> |]; [by rewrite lookup_insert_eq, Hc|by rewrite lookup_insert_ne].
    + destruct (Z.eqb_spec c conn) as [-> |]; [by rewrite Hc|done].
  - cbn. destruct (decide (c = conn)) as [-> |]; [|by rewrite lookup_alter_ne].
    rewrite lookup_alter_eq. by destruct (Shard.members s !! conn).
  - destruct (Shard.members s !! c) as [m|] eqn:Hc; [|done]. destruct (Shard.mb_lagged m); [done|]. cbn.
    destruct (decide (c = conn)) as [-> |]; [by rewrite lookup_insert_eq, Hc|by rewrite lookup_insert_ne].
  - destruct (Shard.swept s); [done|]. cbn. rewrite lookup_fmap. by destruct (Shard.members s !! conn).
Qed.

(** ** Posting *)

Lemma call_flags_other conn c f : addressed c -> match c with Tell to_ _ => to_ <> conn | _ => True end -> call_flags conn f c = f.
Proof.
  destruct c as [to_ msg|? ? ?|?|?]; [|done..]. destruct msg; cbn; try done; intros -> Hne;
    by rewrite (proj2 (Z.eqb_neq _ _)).
Qed.

(** What calls put into a shard's inboxes, for the connections it owns and for
    the others. *)
Definition accounts (n k : nat) (cs : list Call) (ms : list Shard.ShardMsg) : Prop :=
  forall conn f,
    calls_flags conn f (as_calls ms) = (if decide (Shard.shard_of n conn = k) then calls_flags conn f cs else f) /\
    ((if decide (Shard.shard_of n conn = k) then adds_fresh conn f cs else True) -> adds_fresh conn f (as_calls ms)).

Lemma accounts_neutral n k c cs ms :
  (forall conn f, Shard.shard_of n conn = k -> call_flags conn f c = f) -> accounts n k cs ms -> accounts n k (c :: cs) ms.
Proof.
  intros Hn Ha conn f. destruct (Ha conn f) as [Hf Hd]. unfold calls_flags. cbn.
  destruct (decide (Shard.shard_of n conn = k)) as [Hk|]; [|done]. rewrite Hn by done. split; [exact Hf|tauto].
Qed.

Lemma accounts_desync n k d cs ms : accounts n k cs ms -> accounts n k cs (Shard.SDesynced d :: ms).
Proof.
  intros Ha conn f. destruct (Ha conn f) as [Hf Hd]. unfold calls_flags, as_calls in *. cbn.
  by destruct d; split; [exact Hf|tauto|exact Hf|tauto].
Qed.

Lemma accounts_told n k conn msg cs ms :
  Shard.shard_of n conn = k -> addressed (Tell conn msg) -> accounts n k cs ms ->
  accounts n k (Tell conn msg :: cs) (msg :: ms).
Proof.
  intros Hk Had Ha conn' f. unfold calls_flags, as_calls in *. cbn.
  destruct (decide (Shard.shard_of n conn' = k)) as [Hk'|Hk'].
  - destruct (Ha conn' (fate_flags conn' f msg)) as [Hf Hd]. rewrite decide_True in Hf by done.
    rewrite decide_True in Hd by done.
    split; [exact Hf|]. intros [Hn Hr]. split; [by destruct msg|by apply Hd].
  - assert (Hne : conn <> conn') by congruence.
    assert (Hsame : fate_flags conn' f msg = f) by (by apply (call_flags_other conn' (Tell conn msg) f)).
    destruct (Ha conn' f) as [Hf Hd]. rewrite decide_False in Hf by done.
    rewrite decide_False in Hd by done. rewrite Hsame. split; [exact Hf|].
    intros _. split; [|by apply Hd]. destruct msg; try done. cbn in Had. congruence.
Qed.

Lemma posts_inbox n k cs i i' :
  posts n k cs i i' -> Forall addressed cs ->
  exists ms fr, Shard.control i' = Shard.control i ++ ms /\ Shard.frames i' = Shard.frames i ++ fr /\
    Forall (fun m => Shard.is_control m = false) fr /\ accounts n k cs ms.
Proof.
  induction 1 as [i|conn msg refused cs i i' _ IH|to_ msg tag refused cs i i' _ IH|record cs i i' _ IH|event cs i i' _ IH];
    intros Had.
  { exists [], []. rewrite !app_nil_r. split_and!; [done..|]. intros conn f. cbn. by case_decide. }
  all: apply Forall_cons in Had as [Hx Had]; destruct (IH Had) as (ms & fr & Hc & Hf & Hfr & Hm); clear IH.
  - destruct (decide (Shard.shard_of n conn = k)) as [Hk|Hk].
    + unfold Shard.tell in Hc, Hf. destruct (Shard.is_control msg) eqn:Hctl; [|destruct refused]; cbn in Hc, Hf.
      * exists (msg :: ms), fr. rewrite Hc, <-app_assoc. split_and!; [done..|]. by apply accounts_told.
      * exists (Shard.SDesynced (Some conn) :: ms), fr. rewrite Hc, <-app_assoc. split_and!; [done..|].
        apply accounts_desync, accounts_neutral; [|done]. intros conn' f _. by destruct msg.
      * exists ms, (msg :: fr). rewrite Hf, <-app_assoc. split_and!; [done..|by apply Forall_cons|].
        apply accounts_neutral; [|done]. intros conn' f _. by destruct msg.
    + exists ms, fr. split_and!; [done..|]. apply accounts_neutral; [|done]. intros conn' f Hk'.
      apply call_flags_other; [done|congruence].
  - unfold Shard.shards_broadcast in Hc, Hf. destruct refused; cbn in Hc, Hf.
    + exists (Shard.SDesynced None :: ms), fr. rewrite Hc, <-app_assoc. split_and!; [done..|].
      by apply accounts_desync, accounts_neutral.
    + exists ms, (Shard.SBroadcast to_ msg tag :: fr). rewrite Hf, <-app_assoc.
      split_and!; [done..|by apply Forall_cons|by apply accounts_neutral].
  - exists ms, fr. split_and!; [done..|by apply accounts_neutral].
  - exists ms, fr. split_and!; [done..|by apply accounts_neutral].
Qed.

(** ** The invariant *)

Record world_ok (w : World) : Prop := mkWorldOk {
  wo_length : length (w_inboxes w) = length (w_shards w);
  wo_index : Forall ShardTheorems.index_ok (w_shards w);
  wo_frames : Forall (fun i => Forall (fun m => Shard.is_control m = false) (Shard.frames i)) (w_inboxes w);
  wo_sync : forall k i s conn, w_inboxes w !! k = Some i -> w_shards w !! k = Some s ->
    calls_flags conn (known s conn) (as_calls (Shard.control i)) =
      (if decide (Shard.shard_of (length (w_inboxes w)) conn = k)
       then flags (a_room (w_actor w)) !! conn else None) /\
    adds_fresh conn (known s conn) (as_calls (Shard.control i))
}.

Lemma world_new_ok n r config g : r_clients r = ∅ -> world_ok (world_new n r config g).
Proof.
  intros Hr. split; cbn.
  - by rewrite length_replicate, length_fmap, length_seq.
  - apply Forall_fmap, Forall_true. intros k. split; intros key; [|intros conn]; cbn; rewrite lookup_empty; cbn;
      [apply NoDup_nil_2|]. unfold ShardTheorems.slot_in. cbn. rewrite lookup_empty, elem_of_nil. done.
  - apply Forall_replicate, Forall_nil_2.
  - intros k i s conn [-> _]%lookup_replicate Hs. apply list_lookup_fmap_Some in Hs as (j & -> & _). cbn.
    split; [|done]. unfold flags. rewrite Hr. unfold known. cbn. rewrite lookup_empty, fmap_empty, lookup_empty.
    by case_decide.
Qed.

Lemma calls_flags_app conn f cs cs' : calls_flags conn f (cs ++ cs') = calls_flags conn (calls_flags conn f cs) cs'.
Proof. unfold calls_flags. by rewrite fold_left_app. Qed.

Lemma posted_lookup calls ibs ibs' k i' :
  posted calls ibs ibs' -> ibs' !! k = Some i' -> exists i, ibs !! k = Some i /\ posts (length ibs) k calls i i'.
Proof.
  intros [Hl Hp] Hi'. destruct (lookup_lt_is_Some_2 ibs k) as [i Hi].
  { rewrite <-Hl. by eapply lookup_lt_Some. }
  exists i. split; [exact Hi|by apply Hp].
Qed.

Lemma world_posted a a' calls ibs ibs' ss g :
  world_ok (mkWorld a ibs ss g) -> told (flags (a_room a)) (flags (a_room a')) calls -> posted calls ibs ibs' ->
  world_ok (mkWorld a' ibs' ss g).
Proof.
  intros [Hl Hx Hfr Hs] [Htf Htn Hta] Hp. cbn in *. pose proof Hp as [Hlen _]. split; cbn.
  - congruence.
  - exact Hx.
  - apply Forall_lookup. intros k i' Hi'. destruct (posted_lookup _ _ _ _ _ Hp Hi') as (i & Hi & Hpi).
    destruct (posts_inbox _ _ _ _ _ Hpi Hta) as (ms & fr & _ & -> & Hm & _).
    apply Forall_app. split; [by eapply (Forall_lookup_1 _ _ _ _ Hfr Hi)|exact Hm].
  - intros k i' s conn Hi' Hk. destruct (posted_lookup _ _ _ _ _ Hp Hi') as (i & Hi & Hpi).
    destruct (posts_inbox _ _ _ _ _ Hpi Hta) as (ms & fr & -> & _ & _ & Hm).
    destruct (Hs k i s conn Hi Hk) as [Hf Hn].
    destruct (Hm conn (calls_flags conn (known s conn) (as_calls (Shard.control i)))) as [Hmf Hmn].
    unfold as_calls in *. rewrite fmap_app, calls_flags_app, adds_fresh_app, Hlen.
    rewrite Hmf, Hf. split.
    + case_decide; [apply Htf|done].
    + split; [exact Hn|]. rewrite <-Hf. apply Hmn. rewrite Hf. case_decide; [apply Htn|done].
Qed.

Lemma world_turn a ibs ss g env k msg i i' s s' g' out :
  world_ok (mkWorld a ibs ss g) -> ibs !! k = Some i -> ss !! k = Some s -> Shard.next_msg i = Some (msg, i') ->
  Shard.handle_msg budget level env msg s g = (s', g', out) ->
  world_ok (mkWorld a (<[k := i']> ibs) (<[k := s']> ss) g').
Proof.
  intros [Hl Hx Hfr Hs] Hi Hk Hn E. cbn in *.
  assert (Hs' : s' = (Shard.handle_msg budget level env msg s g).1.1) by (by rewrite E). clear E.
  pose proof (Forall_lookup_1 _ _ _ _ Hfr Hi) as Hfri. cbn in Hfri.
  assert (Hpop : forall conn, calls_flags conn (known s conn) (as_calls (Shard.control i)) =
                   calls_flags conn (known s' conn) (as_calls (Shard.control i')) /\
                 (adds_fresh conn (known s conn) (as_calls (Shard.control i)) ->
                  adds_fresh conn (known s' conn) (as_calls (Shard.control i'))) /\
                 (adds_fresh conn (known s conn) (as_calls (Shard.control i)) ->
                  match msg with Shard.SAdd c _ _ _ => c = conn -> known s conn = None | _ => True end)).
  { intros conn. rewrite Hs', known_step. unfold Shard.next_msg in Hn.
    destruct (Shard.control i) as [|m ctl].
    - destruct (Shard.frames i) as [|m fr] eqn:Efr; [done|]. injection Hn as -> <-. cbn.
      rewrite ?Efr in Hfri. apply Forall_cons in Hfri as [Hm _]. by destruct msg.
    - injection Hn as -> <-. unfold calls_flags. cbn. tauto. }
  split; cbn.
  - by rewrite !length_insert.
  - apply Forall_insert; [done|]. rewrite Hs'. apply ShardTheorems.index_kept; [by eapply Forall_lookup_1|].
    destruct msg as [c ? ? ?| | | | | | |]; try done. cbn.
    destruct (Hpop c) as (_ & _ & Hadd). destruct (Hs k i s c Hi Hk) as [_ Hfresh]. specialize (Hadd Hfresh eq_refl).
    unfold known in Hadd. by destruct (Shard.members s !! c).
  - apply Forall_insert; [done|]. unfold Shard.next_msg in Hn. destruct (Shard.control i); [|by injection Hn as _ <-].
    destruct (Shard.frames i) eqn:Efr; [done|]. injection Hn as _ <-. rewrite ?Efr in Hfri.
    by apply Forall_cons in Hfri as [_ ?].
  - intros k2 i2 s2 conn Hi2 Hk2. rewrite length_insert. destruct (decide (k2 = k)) as [-> |Hne].
    + rewrite (list_lookup_insert_eq ibs k i' (lookup_lt_Some _ _ _ Hi)) in Hi2.
      rewrite (list_lookup_insert_eq ss k s' (lookup_lt_Some _ _ _ Hk)) in Hk2.
      injection Hi2 as <-. injection Hk2 as <-. destruct (Hpop conn) as (Hf & Hd & _).
      destruct (Hs k i s conn Hi Hk) as [Hf0 Hd0]. rewrite <-Hf. split; [exact Hf0|by apply Hd].
    + rewrite list_lookup_insert_ne in Hi2 by done. rewrite list_lookup_insert_ne in Hk2 by done. by apply Hs.
Qed.

Lemma on_tick_told now a a' calls :
  on_tick encode now a = Ok (a', calls) -> told (flags (a_room a)) (flags (a_room a')) calls.
Proof.
  unfold on_tick. destruct (in_room encode (tick now) (begin (a_room a))) as [[[] t]|] eqn:E; [|done].
  intros [= <- <-]. cbn. apply (told_gentle (begin (a_room a)) t); [|done]. by eapply tick_gentle.
Qed.

Lemma step_world_ok w w' : world_step w w' -> world_ok w -> world_ok w'.
Proof.
  intros Hs Hok. destruct Hs as [now msg a a' flow reply calls ibs ibs' ss g E Hf Hm Hp|now a a' calls ibs ibs' ss g E Hp|
    a ibs ss g|o a s ibs ss g E|k env msg a i i' s s' ibs ss g g' out Hi Hk Hn E].
  - eapply world_posted; [exact Hok| |exact Hp]. by eapply turn_told.
  - eapply world_posted; [exact Hok| |exact Hp]. by eapply on_tick_told.
  - destruct Hok as [? ? ? Hsync]. by split.
  - destruct Hok as [? ? ? Hsync]. by split.
  - by eapply world_turn.
Qed.

(** C5: The shards follow the room.  Whatever the actor is asked and however the
    bounded inboxes refuse frames, once every shard has handled what it was told
    first, the connections the shards hold are exactly those of the room, each in
    its own shard and with the room's view of it: whether it is logged in, to
    which slot, whether it takes text, and which feed it is on. *)
Theorem shards_follow_the_room shards r config g w :
  r_clients r = ∅ -> rtc world_step (world_new shards r config g) w ->
  Forall (fun i => Shard.control i = []) (w_inboxes w) ->
  ShardTheorems.in_sync (flags (a_room (w_actor w))) (w_shards w).
Proof.
  intros Hr Hrtc Hdrained.
  assert (Hok : world_ok w).
  { assert (Hstart : world_ok (world_new shards r config g)) by (by apply world_new_ok).
    clear Hdrained. induction Hrtc; eauto using step_world_ok. }
  destruct Hok as [Hl Hx _ Hs]. rewrite Forall_lookup in Hdrained.
  assert (Hat : forall k s conn, w_shards w !! k = Some s -> known s conn =
    (if decide (Shard.shard_of (length (w_shards w)) conn = k) then flags (a_room (w_actor w)) !! conn else None)).
  { intros k s conn Hk. destruct (lookup_lt_is_Some_2 (w_inboxes w) k) as [i Hi].
    { rewrite Hl. by eapply lookup_lt_Some. }
    destruct (Hs k i s conn Hi Hk) as [Hf _]. by rewrite (Hdrained k i Hi), Hl in Hf. }
  split; [exact Hx| |].
  - intros conn s Hk. pose proof (Hat _ _ conn Hk) as Hf. by rewrite decide_True in Hf.
  - intros conn k s Hk Hne. pose proof (Hat _ _ conn Hk) as Hf. rewrite decide_False in Hf by congruence.
    unfold known in Hf. by destruct (Shard.members s !! conn).
Qed.
End world.
