(* ===== verification/ActorSaves.v ===== *)
(** * The saves of the actor

    Every change that a save carries makes the saver dirty; a saver that is clean
    and has nothing in flight has the room on the disk; and the last save of a
    shutdown is the last state, unless the save before it outlives its wait. *)

From Stdlib Require Import ZArith Lia Bool SpecFloat.
From stdpp Require Import base tactics list sets gmap strings relations.
From S2P Require Import Prelude PyRandom PyObj Locations Types Multidata Conn Hints Json PyValue Packets Filter.
From S2P Require Import Options Effects Room RoomSpec RoomOps RoomPlay Text Commands ServerCommands Say Admin.
From S2P Require Import Say RoomFrame RoomDirty RoomFeed Save RoomSave Actor ActorTheorems ActorWorld.

Section saves.
Context `{Json} `{HashOrder} `{HText : !JsonText} `{HUni : Unicode}.
Context (encode : list ServerPacket -> list Z).

(** ** Turns *)

(** The turn noted the change, or there was none. *)
Definition noted (t t' : Turn) : Prop := t_dirty t' = true \/ (same_save (t_room t) (t_room t') /\ t_dirty t' = t_dirty t).

Lemma noted_refl t : noted t t.
Proof. right. by split. Qed.

Definition notes {A} (m : W A) : Prop :=
  forall t a t', m t = Ok (a, t') -> (t_dirty t = true -> t_dirty t' = true) /\
    (t_dirty t' = true \/ same_save (t_room t) (t_room t')).

Lemma notes_ret {A} (a : A) : notes (mret a).
Proof. intros t ? ? [= _ <-]. split; [done|by right]. Qed.

Lemma notes_bind {A B} (m : W A) (k : A -> W B) : notes m -> (forall a, notes (k a)) -> notes (m ≫= k).
Proof.
  intros Hm Hk t b t2 (a & t1 & E1 & E2)%W_bind_Ok.
  destruct (Hm _ _ _ E1) as [Hd1 Hs1], (Hk _ _ _ _ E2) as [Hd2 Hs2]. split; [by auto|].
  destruct Hs2 as [Hd|Hs2]; [by left|]. destruct Hs1 as [Hd|Hs1]; [by left; auto|]. right. by etrans.
Qed.

Lemma dirty_in es : EDirty ∈ es -> existsb is_dirty es = true.
Proof. intros Hin. apply existsb_exists. exists EDirty. by rewrite <-list_elem_of_In. Qed.

Lemma notes_room {A} (m : M A) : saves m -> notes (in_room encode m).
Proof.
  intros Hm t a t'. unfold in_room. destruct (m (t_room t)) as [[[a1 r] es]|] eqn:E; [|done]. intros [= _ <-]. cbn.
  split; [by intros ->|]. destruct (Hm _ _ _ _ E) as [Hd|Hs]; [|by right].
  left. rewrite (dirty_in es Hd). by destruct (t_dirty t).
Qed.

Lemma notes_same {A} (m : W A) :
  (forall t a t', m t = Ok (a, t') -> same_save (t_room t) (t_room t') /\ t_dirty t' = t_dirty t) -> notes m.
Proof. intros Hm t a t' E. destruct (Hm _ _ _ E) as [Hs Hd]. split; [by rewrite Hd|by right]. Qed.

Lemma notes_call c : notes (call c).
Proof. apply notes_same. intros t a t' [= _ <-]. by split. Qed.

Lemma notes_push conn : notes (push_membership conn).
Proof. apply notes_same. intros t a t' [= _ <-]. by split. Qed.

Lemma notes_get : notes room.
Proof. apply notes_same. intros t a t' [= _ <-]. by split. Qed.

Lemma notes_modify g : (forall r, same_save r (g r)) -> notes (modify_room g).
Proof. intros Hg. apply notes_same. intros t a t' [= _ <-]. split; [apply Hg|done]. Qed.

Lemma notes_each {A} (l : list A) body : (forall a, notes (body a)) -> notes (for_each l body).
Proof.
  intros Hb. induction l as [|a l IH]; [apply notes_ret|]. apply notes_bind; [apply Hb|]. by intros [].
Qed.

Lemma notes_password now slot password_ : notes (set_slot_password now slot password_).
Proof.
  unfold set_slot_password. apply notes_bind; [apply notes_get|]. intros r. destruct (negb _); [apply notes_ret|].
  destruct (slot_passwords (r_options r)); [|apply notes_ret]. cbv zeta.
  apply notes_bind; [apply notes_modify; intros r'; by split|]. intros _.
  apply notes_bind; [apply notes_call|]. intros _. apply notes_ret.
Qed.

(** What an arm does: going on without the end of the loop, it did nothing. *)
Definition arm_ok (t t' : Turn) (flow : Flow) (dirty : bool) : Prop :=
  (flow = Continue -> t' = t /\ dirty = false) /\
  (t_dirty t' = true \/ dirty = true \/ same_save (t_room t) (t_room t')).

(** A filter request sets the saver's flag itself. *)
Lemma filter_arm slot edit t flow reply dirty t' :
  on_filter encode slot edit t = Ok (flow, reply, dirty, t') -> arm_ok t t' flow dirty.
Proof.
  assert (Hsame : forall t flow dirty, dirty = false -> arm_ok t t flow dirty) 
    by (intros t0 f0 d0 ->; split; [done|by right; right]).
  assert (He : forall key, edit_filter encode key edit t = Ok (flow, reply, dirty, t') -> arm_ok t t' flow dirty).
  { intros key. unfold edit_filter. cbv [mbind W_bind room mret W_ret].
    destruct (edited edit (filter_of (t_room t) key)) as [[[value|] removed]|e].
    - destruct (in_room encode _ t) as [[[] t1]|]; [|done]. intros [= <- _ <- <-]. split; [done|auto].
    - intros [= <- _ <- <-]. by apply Hsame.
    - intros [= <- _ <- <-]. by apply Hsame. }
  unfold on_filter. cbv [mbind W_bind room mret W_ret]. destruct slot as [n|]; [|apply He].
  cbn. destruct (bool_decide _); cbn; [apply He|]. intros [= <- _ <- <-]. by apply Hsame.
Qed.

(** The other arms but the filters' end the same way. *)
Lemma arm_notes {A} (m : W A) flow t a t' : notes m -> m t = Ok (a, t') -> flow <> Continue -> arm_ok t t' flow false.
Proof. intros Hm E Hf. destruct (Hm _ _ _ E) as [_ Hs]. split; [done|tauto]. Qed.

Lemma on_msg_arm now msg t flow reply dirty t' :
  on_msg encode now msg t = Ok (flow, reply, dirty, t') -> arm_ok t t' flow dirty.
Proof.
  destruct msg as [conn deflate budget feed|conn packets|conn|conn reason| | | |command|slot pw|slot edit|]; intros E;
    try (assert (flow = Through /\ dirty = false) as [-> ->];
      [cbn [on_msg] in E; repeat (apply W_bind_Ok in E as (? & ? & _ & E)); by injection E|];
      eapply arm_notes; [|exact E|done]; cbn [on_msg]).
  - repeat (apply notes_bind; [|intros _]); [apply notes_call|apply notes_room, saves_on_connect_with_feed|apply notes_push|apply notes_ret].
  - repeat (apply notes_bind; [|intros _]); [|apply notes_push|apply notes_ret].
    apply notes_each. intros packet. apply notes_room, saves_handle.
  - repeat (apply notes_bind; [|intros _]); [apply notes_room, saves_on_disconnect|apply notes_call..|apply notes_ret].
  - repeat (apply notes_bind; [|intros _]); [apply notes_room, saves_on_disconnect|apply notes_call|apply notes_ret].
  - apply notes_ret.
  - apply notes_ret.
  - apply notes_ret.
  - apply notes_bind; [apply notes_room, saves_admin|]. intros. apply notes_ret.
  - apply notes_bind; [apply notes_password|]. intros. apply notes_ret.
  - cbn [on_msg] in E. apply W_bind_Ok in E as ([[f r] d] & t1 & E1 & [= <- <- <- <-]). by eapply filter_arm.
  - cbn [on_msg] in E. apply W_bind_Ok in E as ([] & t1 & E1 & [= <- <- <- <-]).
    eapply arm_notes; [|exact E1|done]. apply notes_room, shutdown_saves.
Qed.

(** The room's clock, at the start of every turn. *)
Lemma tick_noted now t t' :
  in_room encode (tick now) t = Ok (tt, t') -> same_save (t_room t) (t_room t') /\ t_dirty t' = t_dirty t.
Proof.
  unfold in_room. destruct (tick now (t_room t)) as [[[[] r] es]|] eqn:E; [|done]. intros [= <-]. cbn.
  apply tick_same in E as [Hs Hes]. split; [exact Hs|]. destruct (existsb is_dirty es) eqn:Hx; [|apply orb_false_r].
  apply existsb_exists in Hx as (e & Hin & He). rewrite Forall_forall in Hes.
  apply list_elem_of_In, Hes in Hin. by destruct e.
Qed.

Lemma turn_noted now msg a a' flow reply calls :
  turn encode now msg a = Ok (a', flow, reply, calls) ->
  sv_config (a_saver a') = sv_config (a_saver a) /\ sv_in_flight (a_saver a') = sv_in_flight (a_saver a) /\
  (sv_dirty (a_saver a) = true -> sv_dirty (a_saver a') = true) /\
  (sv_dirty (a_saver a') = true \/ same_save (a_room a) (a_room a')).
Proof.
  unfold turn. destruct ((_ ← in_room encode (tick now); on_msg encode now msg) (begin (a_room a)))
    as [[[[flow' reply'] dirty] t]|] eqn:E; [|done].
  intros [= <- -> _ _]. apply W_bind_Ok in E as ([] & t1 & E1 & E). apply tick_noted in E1 as [Hs1 _]. cbn in Hs1.
  apply on_msg_arm in E as [Hc Ha]. cbn.
  split_and!; [by destruct flow|by destruct flow|intros Hd; destruct flow; cbn; by rewrite Hd|].
  destruct flow; cbn; [..|];
    first [destruct Ha as [-> |[-> |Hs]]; [left; by rewrite ?orb_true_r|left; by rewrite ?orb_true_r|right; by etrans]
          |destruct (Hc eq_refl) as [-> ->]; by right].
Qed.

(** ** The disk *)

(** The actor and the snapshot the last completed save wrote. *)
Record Saving : Type := mkSaving { sg_actor : Actor; sg_disk : option Snapshot }.

(** What is on the disk once the save in flight ended so. *)
Definition landed (o : Outcome) (s : Saver) (disk : option Snapshot) : option Snapshot :=
  match o with Saved => match sv_in_flight s with Some sn => Some sn | None => disk end | _ => disk end.

Inductive saving_step : Saving -> Saving -> Prop :=
| SgTurn now msg a a' flow reply calls d :
    turn encode now msg a = Ok (a', flow, reply, calls) -> saving_step (mkSaving a d) (mkSaving a' d)
| SgTick now a a' calls d : on_tick encode now a = Ok (a', calls) -> saving_step (mkSaving a d) (mkSaving a' d)
| SgTimer a d : saving_step (mkSaving a d) (mkSaving (on_save_timer a) d)
| SgFinished o a s d :
    o <> TaskLost -> finished o (a_saver a) = Some s ->
    saving_step (mkSaving a d) (mkSaving (mkActor (a_room a) s) (landed o (a_saver a) d)).

(** A snapshot of the room, as far as a save goes. *)
Definition covers (sn : Snapshot) (r : Room) : Prop := exists r0, sn = snapshot r0 /\ same_save r0 r.

(** A clean saver has the room in flight or on the disk. *)
Definition accounted (start : Room) (d0 : option Snapshot) (x : Saving) : Prop :=
  let a := sg_actor x in
  sv_dirty (a_saver a) = true \/
  match sv_in_flight (a_saver a) with
  | Some sn => covers sn (a_room a)
  | None => (sg_disk x = d0 /\ same_save start (a_room a)) \/ exists sn, sg_disk x = Some sn /\ covers sn (a_room a)
  end.

Lemma covers_same sn r r' : covers sn r -> same_save r r' -> covers sn r'.
Proof. intros (r0 & -> & Hs) Hs'. exists r0. split; [done|by etrans]. Qed.

Lemma accounted_moves start d0 a a' d :
  accounted start d0 (mkSaving a d) -> sv_in_flight (a_saver a') = sv_in_flight (a_saver a) ->
  (sv_dirty (a_saver a) = true -> sv_dirty (a_saver a') = true) ->
  sv_dirty (a_saver a') = true \/ same_save (a_room a) (a_room a') -> accounted start d0 (mkSaving a' d).
Proof.
  intros Ha Hf Hd [Hs|Hs]; [by left|]. unfold accounted in *. cbn in *. rewrite Hf.
  destruct Ha as [Ha|Ha]; [left; auto|right]. destruct (sv_in_flight (a_saver a)) as [sn|]; [by eapply covers_same|].
  destruct Ha as [[-> Ha]|(sn & -> & Ha)]; [left; split; [done|by etrans]|right; exists sn; split; [done|by eapply covers_same]].
Qed.

Lemma accounted_step start d0 x x' : saving_step x x' -> accounted start d0 x -> accounted start d0 x'.
Proof.
  intros Hs Ha. destruct Hs as [now msg a a' flow reply calls d E|now a a' calls d E|a d|o a s d Ho E].
  - apply turn_noted in E as (_ & Hf & Hd & Hs). by eapply accounted_moves.
  - unfold on_tick in E. destruct (in_room encode (tick now) (begin (a_room a))) as [[[] t]|] eqn:Et; [|done].
    injection E as <- _. apply tick_noted in Et as [Hs _]. cbn in Hs.
    eapply accounted_moves; [exact Ha|done|by intros Hd; cbn; rewrite Hd|by right].
  - unfold on_save_timer, maybe_start, accounted in *. cbn in *.
    destruct (sc_store (sv_config (a_saver a))); [|done]. cbn.
    destruct (sv_dirty (a_saver a)) eqn:Hd; cbn; [|by rewrite Hd].
    case_bool_decide as Hf; cbn; [by left|]. right. exists (a_room a). split; [done|reflexivity].
  - unfold finished in E. unfold accounted, landed in *. cbn in *.
    destruct (sv_in_flight (a_saver a)) as [sn|] eqn:Hf; [|done]. injection E as <-. cbn.
    destruct o; cbn; [|by left|done]. destruct Ha as [Ha|Ha]; [by left|]. right. right. by exists sn.
Qed.

(** C16: A clean saver has saved the room.  Whatever the room is asked and however
    its saves end (short of a save's task being lost), as long as the saver is
    clean and nothing is in flight, the disk holds a snapshot of a room that is
    for a save the present one, or nothing of the room has changed since it was
    loaded. *)
Theorem clean_means_saved start config d0 x :
  rtc saving_step (mkSaving (mkActor start (saver_new config)) d0) x ->
  sv_dirty (a_saver (sg_actor x)) = false -> sv_in_flight (a_saver (sg_actor x)) = None ->
  (sg_disk x = d0 /\ same_save start (a_room (sg_actor x))) \/
  exists sn, sg_disk x = Some sn /\ covers sn (a_room (sg_actor x)).
Proof.
  intros Hr Hd Hf. assert (Ha : accounted start d0 x).
  { assert (Hstart : accounted start d0 (mkSaving (mkActor start (saver_new config)) d0)).
    { right. left. by split. }
    clear Hd Hf. induction Hr; eauto using accounted_step. }
  destruct Ha as [Ha|Ha]; [congruence|]. by rewrite Hf in Ha.
Qed.

(** ** The last save *)

(** The disk after [flush], whose two waits ended so. *)
Definition flush_disk (room : Room) (first second : option Outcome) (s : Saver) (disk : option Snapshot)
    : option Snapshot :=
  let disk := match first with Some o => landed o s disk | None => disk end in
  let s := if bool_decide (is_Some (sv_in_flight s)) then wait first s else s in
  match second with Some o => landed o (maybe_start room (set_dirty true s)) disk | None => disk end.

(** What a shutdown leaves.  When the last wait of [flush] ends with a save
    that was written, the disk holds the room as it is, unless the save in flight
    outlived the first wait: then it is that older save that was waited for, the
    room's last state is not saved, and nothing says so. *)
Theorem a_slow_save_hides_the_last room first s disk :
  sc_store (sv_config s) = true ->
  match sv_in_flight s, first with
  | Some old, None =>
      flush_disk room first (Some Saved) s disk = Some old /\
      flush room first (Some Saved) s = mkSaver (sv_config s) None true
  | _, _ =>
      flush_disk room first (Some Saved) s disk = Some (snapshot room) /\
      flush room first (Some Saved) s = mkSaver (sv_config s) None false
  end.
Proof.
  intros Hs. destruct s as [config inf d]. cbn in *. unfold flush, flush_disk, maybe_start, wait, finished, landed.
  destruct inf as [old|], first as [o|]; cbn; rewrite ?Hs; cbn; rewrite ?Hs; repeat case_bool_decide;
    rewrite ?Hs; cbn; try done; exfalso; by eauto.
Qed.
End saves.
