(* ===== verification/Http.v ===== *)
(** * [crates/pahoa-net/src/http/mod.rs]: the HTTP surface

    A request becomes a [Routed]: an answer, a document, or a message for the
    room's actor with what its reply is answered as.  A reply of [None] is a room
    that has stopped.  The documents of the tracker, the status and the metrics
    are named here, [Report] and [Exposition] render them; the clock is an
    argument. *)

From Stdlib Require Import ZArith Lia Bool Ascii SpecFloat.
From stdpp Require Import base tactics numbers list strings gmap pretty.
From S2P Require Import Prelude PyRandom PyObj Locations Types Multidata Text Json PyValue Packets Filter.
From S2P Require Import Options Effects Room RoomOps RoomStore RoomPlay Commands ServerCommands Say Admin.
From S2P Require Import Actor HttpAdmin.
From S2P Require Handshake HttpCommand.

(** ** Strings *)

(** [s.strip_suffix(p)]. *)
Fixpoint without_suffix (p s : string) : option string :=
  if str_eqb s p then Some EmptyString
  else match s with
       | EmptyString => None
       | String c s => String c <$> without_suffix p s
       end.

(** [s.split(['?', '#']).next()]. *)
Fixpoint before_query (s : string) : string :=
  match s with
  | EmptyString => EmptyString
  | String c s' => if Ascii.eqb c "?" || Ascii.eqb c "#" then EmptyString else String c (before_query s')
  end.

(** ** The paths *)

Definition slots_prefix : string := "/admin/v1/slots/".

Definition filter_path (path : string) : option (option Z) :=
  if str_eqb path "/admin/v1/filter" then Some None
  else
    rest ← strip_str slots_prefix path;
    slot ← without_suffix "/filter" rest;
    n ← parse_u32 slot;
    Some (Some n).

Definition slot_password_path (path : string) : option Z :=
  rest ← strip_str slots_prefix path;
  slot ← without_suffix "/password" rest;
  parse_u32 slot.

Definition route_label (path : string) : string :=
  let path := before_query path in
  match filter_path path with
  | Some _ => if str_eqb path "/admin/v1/filter" then "/admin/v1/filter" else "/admin/v1/slots/{slot}/filter"
  | None =>
      match slot_password_path path with
      | Some _ => "/admin/v1/slots/{slot}/password"
      | None =>
          if existsb (str_eqb path) ["/healthz"; "/api/v1/room"; "/api/tracker"; "/api/static_tracker";
               "/admin/v1/status"; "/admin/v1/metrics"; "/admin/v1/command"; "/admin/v1/shutdown"]%string
          then path else "other"
      end
  end.

(** ** [rfc3339] *)

Definition civil (days : Z) : Z * Z * Z :=
  let z := days + 719468 in
  let era := z / 146097 in
  let doe := z mod 146097 in
  let yoe := (doe - doe / 1460 + doe / 36524 - doe / 146096) / 365 in
  let doy := doe - (365 * yoe + yoe / 4 - yoe / 100) in
  let mp := (5 * doy + 2) / 153 in
  let day := doy - (153 * mp + 2) / 5 + 1 in
  let month := if mp <? 10 then mp + 3 else mp - 9 in
  (yoe + era * 400 + (if month <=? 2 then 1 else 0), month, day).

(** [{n:0width}]. *)
Definition padded (width : nat) (n : Z) : string :=
  let s := pretty n in
  String.append (String.concat EmptyString (repeat "0"%string (width - String.length s))) s.

(** [secs] are the whole seconds since the epoch. *)
Definition stamp (secs : Z) : Z * Z * Z * (Z * Z * Z) :=
  let '(days, rem) := (secs / 86400, secs mod 86400) in
  (civil days, (rem / 3600, rem mod 3600 / 60, rem mod 60)).

Definition rfc3339 (secs : Z) : string :=
  let '(year, month, day, (hh, mm, ss)) := stamp secs in
  str_concat [padded 4 year; "-"; padded 2 month; "-"; padded 2 day; "T"; padded 2 hh; ":"; padded 2 mm; ":";
              padded 2 ss; "Z"]%string.

(** ** The tracker's cache *)

Definition TRACKER_TTL : Z := 60 * 1000000000.
Definition STATIC_TRACKER_TTL : Z := 300 * 1000000000.

Record Cached : Type := mkCached { ch_at : option Z; ch_body : option (list Z) }.

Definition fresh (ttl now : Z) (c : Cached) : option (list Z) :=
  at_ ← ch_at c; if ttl <=? Z.max 0 (now - at_) then None else ch_body c.

Definition store (now : Z) (body : list Z) (c : Cached) : Cached := mkCached (Some now) (Some body).

Definition tracker_response (body : list Z) : Response :=
  with_header "Access-Control-Allow-Origin" "*" (rs_json_bytes 200 body).

Definition stopping : Response := rs_text 503 (String.append "the room is stopping" (String (ascii_of_nat 10) EmptyString)).

(** [tracker]: [rendered] is the document of the room as it is, if it answers. *)
Definition tracker (ttl now : Z) (rendered : option (list Z)) (c : Cached) : Response * Cached :=
  match fresh ttl now c with
  | Some body => (tracker_response body, c)
  | None =>
      match rendered with
      | None => (stopping, c)
      | Some body => (tracker_response body, store now body c)
      end
  end.

(** ** Refusals *)

Definition refused_why (name : string) : string :=
  let l := to_ascii_lowercase name in
  if str_eqb l "received_items" then "dropping an item delivery desynchronizes the slot: the room advances its send index as it sends, so the client would never learn what it missed"
  else if str_eqb l "connected" then "a client that never receives its Connect reply cannot play at all"
  else if str_eqb l "location_info" then "scout results answer a request the client is waiting on"
  else "room updates carry checked locations and permissions the client acts on".

Section router.
Context `{Json} `{HashOrder} `{HText : !JsonText} `{HUni : Unicode}.
(** The text of serde_json's refusal, and [Display] of a float. *)
Context (json_error : list Z -> string) (display_f64 : f64 -> string).

Definition quoted (s : string) : string := String.append quote2 (String.append s quote2).

Definition rule_error_text (e : RuleError) : string :=
  match e with
  | NotAnObject => "a rule must be a JSON object"
  | FieldRequired name => String.append (debug_str name) " is required and must be a string"
  | UnknownDirection s => str_concat ["unknown direction "%string; debug_str s; ", known: from_slot, to_slot"%string]
  | KindRefused s => str_concat [debug_str s; " cannot be filtered: "%string; refused_why s]
  | UnknownKind s => str_concat ["unknown kind "%string; debug_str s; ", known: "%string;
                                 String.concat ", " (Filter.kind_text <$> Filter.ALL)]
  | CannotTravel k d => str_concat ["a "%string; Filter.kind_text k; " cannot travel "%string; direction_text d; "; it is "%string;
      if travels k FromSlot then "something a slot sends"%string else "something a slot receives"%string]
  | MustNotBeEmpty name => String.append (debug_str name) " must not be empty"
  | MustBeString name => String.append (debug_str name) " must be a string"
  | TagOnlyBounce => String.append (quoted "tag") " only applies to a bounce"
  | SubtypeOnlyPrintJson => String.append (quoted "subtype") " only applies to print_json"
  | PMustBeNumber => String.append (quoted "p") " must be a number"
  | POutOfRange p => str_concat [quoted "p";
      " is the share of matching messages to drop and must be between 0 and 1, got "%string; display_f64 p]
  end.

Definition filter_error_text (e : FilterError) : string :=
  match e with
  | ExpectedList => "expected a list of rules"
  | ExpectedRules => str_concat ["expected {"%string; quoted "rules"; ": [...]}"%string]
  | TooManyRules n => str_concat ["at most "%string; pretty MAX_RULES; " rules, got "%string; pretty n]
  | BadRule i e => str_concat ["rule "%string; pretty i; ": "%string; rule_error_text e]
  end.

(** What [Filter::merge] says of too many. *)
Definition merge_error_text (e : FilterError) : string :=
  match e with
  | TooManyRules n => str_concat ["at most "%string; pretty MAX_RULES; " rules, and this would make "%string; pretty n]
  | e => filter_error_text e
  end.

(** ** The answers *)

Definition v_bool (b : bool) : Value := make (SBool b).
Definition v_obj (l : list (string * Value)) : Value := make (SObject l).
Definition v_list (l : list Value) : Value := make (SArray l).
Definition or_null (o : option Value) : Value := default v_null o.

Definition rs_json (status : Z) (v : Value) : Response := rs_json_bytes status (bytes_of_string (json_text v)).

Definition bad_request (detail : string) : Response := rs_json 400 (v_obj [("error"%string, v_string detail)]).

Definition method_not_allowed : Response := rs_status_of 405 "Method Not Allowed".

Definition no_slot (slot : Z) : Response :=
  rs_json 404 (v_obj [("error"%string, v_string (str_concat ["there is no slot "%string; pretty slot; " in this seed"%string]))]).

Inductive Which : Type := LiveTracker | StaticTracker.

Inductive Routed : Type :=
| Answer (r : Response)
| RoomPage
| TrackerPage (which : Which)
| StatusPage
| MetricsPage
| Ask (msg : ActorMsg) (answer : option Reply -> Response)
| ShuttingDown (r : Response).

(** [filter]: the question and what its reply is answered as. *)
Definition filter_answer (slot : option Z) (reply : option Reply) : Response :=
  match reply with
  | Some (RFilter (FOk rules effective inherited removed)) =>
      rs_json 200 (v_obj
        [("ok"%string, v_bool true); ("team"%string, or_null ((fun _ => v_int ONLY_TEAM) <$> slot));
         ("slot"%string, or_null (v_int <$> slot)); ("rules"%string, or_null rules); ("effective"%string, effective);
         ("inherited"%string, v_bool inherited); ("removed"%string, v_int (Z.of_nat removed))])
  | Some (RFilter UnknownSlot) => no_slot (default 0 slot)
  | Some (RFilter (FRefused e)) => bad_request (merge_error_text e)
  | _ => stopping
  end.

Definition ask_filter (slot : option Z) (edit : FilterEdit) : Routed := Ask (AFilter slot edit) (filter_answer slot).

Definition parse_rules (body : list Z) : result string Filter :=
  match body with
  | [] => Ok []
  | _ =>
      let value := if utf8_valid body then parse_json (string_of_bytes body) else None in
      v ← ok_or (String.append "the body is not JSON: " (json_error body)) value;
      match filter_from_json v with Ok f => Ok f | Err e => Err (filter_error_text e) end
  end.

Definition with_rules (body : list Z) (k : Filter -> Routed) : Routed :=
  match parse_rules body with Ok rules => k rules | Err e => Answer (bad_request e) end.

Definition command_answer (reply : option Reply) : Response :=
  match reply with
  | Some (ROutcome o) =>
      rs_json 200 (v_obj [("ok"%string, v_bool (ok o)); ("output"%string, v_list (v_string <$> output o));
                          ("affected_slots"%string, v_list (v_int <$> affected_slots o))])
  | _ => stopping
  end.

Definition command (body : list Z) : Routed :=
  match HttpCommand.parse json_error body with
  | Err detail =>
      Answer (rs_json 400 (v_obj [("ok"%string, v_bool false); ("output"%string, v_list [v_string detail]);
                                  ("affected_slots"%string, v_list [])]))
  | Ok command => Ask (AAdmin command) command_answer
  end.

Definition password_answer (slot : Z) (reply : option Reply) : Response :=
  match reply with
  | Some (RKnown true) =>
      rs_json 200 (v_obj [("ok"%string, v_bool true); ("team"%string, v_int ONLY_TEAM); ("slot"%string, v_int slot)])
  | Some (RKnown false) => no_slot slot
  | _ => stopping
  end.

Definition set_slot_password (slot : Z) (body : list Z) : Routed :=
  match HttpCommand.slot_password json_error body with
  | Err detail => Answer (bad_request detail)
  | Ok password => Ask (ASetSlotPassword slot password) (password_answer slot)
  end.

(** [room], with the live figures if the room answers. *)
Definition room_page (version : string) (started_at : Z) (seed : MultiData) (live : option (nat * bool)) : Response :=
  let slot_entry (key : Z * Z) : list Value :=
    match slot_info seed !! key.2 with
    | Some info =>
        [v_obj [("team"%string, v_int key.1); ("slot"%string, v_int key.2); ("name"%string, v_string (ns_name info));
                ("game"%string, v_string (ns_game info));
                ("total_checks"%string, v_int (Z.of_nat (count_for (locations seed) key.2)))]]
    | None => []
    end in
  rs_json 200 (v_obj
    [("seed_name"%string, v_string (seed_name seed)); ("pahoa_version"%string, v_string version);
     ("api_version"%string, v_int 1); ("started_at"%string, v_string (rfc3339 started_at));
     ("password"%string, or_null ((fun l => v_bool l.2) <$> live));
     ("clients_connected"%string, or_null ((fun l => v_int (Z.of_nat l.1)) <$> live));
     ("slots"%string, v_list (team_slots seed ≫= slot_entry))]).

(** ** The routes *)

Definition admin_route (method path : string) (body : list Z) : Routed :=
  match slot_password_path path with
  | Some slot => if str_eqb method "POST" then set_slot_password slot body else Answer method_not_allowed
  | None =>
      match filter_path path with
      | Some slot =>
          if str_eqb method "GET" then ask_filter slot FRead
          else if str_eqb method "PUT" then with_rules body (fun rules => ask_filter slot (FReplace rules))
          else if str_eqb method "PATCH" then with_rules body (fun rules => ask_filter slot (FMerge rules))
          else if str_eqb method "DELETE" then
            match body with
            | [] => ask_filter slot FClear
            | _ => with_rules body (fun rules => ask_filter slot (FRemove rules))
            end
          else Answer method_not_allowed
      | None =>
          if str_eqb path "/admin/v1/status" then (if str_eqb method "GET" then StatusPage else Answer method_not_allowed)
          else if str_eqb path "/admin/v1/metrics" then (if str_eqb method "GET" then MetricsPage else Answer method_not_allowed)
          else if str_eqb path "/admin/v1/command" then (if str_eqb method "POST" then command body else Answer method_not_allowed)
          else if str_eqb path "/admin/v1/shutdown" then
            (if str_eqb method "POST"
             then ShuttingDown (rs_text 202 (String.append "shutting down" (String (ascii_of_nat 10) EmptyString)))
             else Answer method_not_allowed)
          else Answer not_found
      end
  end.

Record Router : Type := mkRouter { rt_token : option string; rt_open_tracker : bool }.

Definition open_roster (r : Router) : bool := negb (bool_decide (is_Some (rt_token r))) || rt_open_tracker r.

Definition is_roster (path : string) : bool :=
  existsb (str_eqb path) ["/api/v1/room"; "/api/tracker"; "/api/static_tracker"]%string.

Definition public_route (method path : string) : Routed :=
  if str_eqb path "/healthz" then
    (if str_eqb method "GET" then Answer (rs_text 200 (String.append "ok" (String (ascii_of_nat 10) EmptyString)))
     else Answer method_not_allowed)
  else if str_eqb path "/api/v1/room" then (if str_eqb method "GET" then RoomPage else Answer method_not_allowed)
  else if str_eqb path "/api/tracker" then (if str_eqb method "GET" then TrackerPage LiveTracker else Answer method_not_allowed)
  else if str_eqb path "/api/static_tracker" then
    (if str_eqb method "GET" then TrackerPage StaticTracker else Answer method_not_allowed)
  else Answer not_found.

(** [roster_gate]: the refusal, if any. *)
Definition roster_gate (r : Router) (request : Handshake.HttpRequest) (source : IpAddr) (now : Z) (f : Failures)
    : option Response * Failures :=
  if open_roster r then (None, f)
  else
    match rt_token r with
    | None => (Some not_found, f)
    | Some token =>
        let '(auth, f) := check token (Handshake.header "Authorization" request) source now f in
        (match auth with AuthRefused response => Some response | AuthOk => None end, f)
    end.

Definition route (r : Router) (request : Handshake.HttpRequest) (body : list Z) (source : IpAddr) (now : Z) (f : Failures)
    : Routed * Failures :=
  let method := Handshake.rq_method request in
  let path := before_query (Handshake.rq_path request) in
  if starts_with "/admin/v1/" path then
    match rt_token r with
    | None => (Answer not_found, f)
    | Some token =>
        let '(auth, f) := check token (Handshake.header "Authorization" request) source now f in
        match auth with
        | AuthRefused response => (Answer response, f)
        | AuthOk => (admin_route method path body, f)
        end
    end
  else
    let '(refused, f) := if is_roster path then roster_gate r request source now f else (None, f) in
    match refused with
    | Some response => (Answer response, f)
    | None => (public_route method path, f)
    end.
End router.

(** * The HTTP surface's theorems

    Dates against a calendar that goes day by day, what the routes give away
    without the token, and how old a cached document can be. *)

(** ** The calendar *)

Definition leap (y : Z) : bool := (y mod 4 =? 0) && (negb (y mod 100 =? 0) || (y mod 400 =? 0)).

Definition month_days (y m : Z) : Z :=
  if m =? 2 then (if leap y then 29 else 28)
  else if existsb (Z.eqb m) [4; 6; 9; 11] then 30 else 31.

Definition next_day (date : Z * Z * Z) : Z * Z * Z :=
  let '(y, m, d) := date in
  if d <? month_days y m then (y, m, d + 1) else if m <? 12 then (y, m + 1, 1) else (y + 1, 1, 1).

Definition next_second (t : Z * Z * Z * (Z * Z * Z)) : Z * Z * Z * (Z * Z * Z) :=
  let '(date, (h, m, s)) := t in
  if s <? 59 then (date, (h, m, s + 1))
  else if m <? 59 then (date, (h, m + 1, 0))
  else if h <? 23 then (date, (h + 1, 0, 0))
  else (next_day date, (0, 0, 0)).

(** All of the numbers below [n]. *)
Definition all_below (n : N) (p : Z -> bool) : bool :=
  (N.iter n (fun s => (s.1 + 1, s.2 && p s.1)) (0, true)).2.

Lemma all_below_spec n p : all_below n p = true -> forall z, 0 <= z < Z.of_N n -> p z = true.
Proof.
  unfold all_below. set (f := fun s : Z * bool => (s.1 + 1, s.2 && p s.1)).
  assert (Hi : (N.iter n f (0, true)).1 = Z.of_N n /\
    ((N.iter n f (0, true)).2 = true -> forall z, 0 <= z < Z.of_N n -> p z = true)).
  { induction n as [|n [IH1 IH2]] using N.peano_ind; [split; [done|cbn; lia]|]. rewrite N.iter_succ.
    split; [cbn; rewrite IH1; lia|]. cbn. rewrite IH1. intros [Ha Hp]%andb_true_iff z Hz.
    destruct (decide (z = Z.of_N n)) as [-> |]; [done|]. apply IH2; [done|lia]. }
  apply Hi.
Qed.

Definition shift_years (k : Z) (date : Z * Z * Z) : Z * Z * Z := (date.1.1 + 400 * k, date.1.2, date.2).

Lemma civil_shift k days : civil (days + 146097 * k) = shift_years k (civil days).
Proof.
  unfold civil, shift_years. cbv zeta.
  replace (days + 146097 * k + 719468) with (days + 719468 + k * 146097) by lia.
  rewrite Z.div_add, Z.mod_add by lia. cbn [fst snd]. do 2 f_equal. lia.
Qed.

Lemma leap_shift k y : leap (y + 400 * k) = leap y.
Proof.
  unfold leap. replace (y + 400 * k) with (y + (100 * k) * 4) at 1 by lia. rewrite Z.mod_add by lia.
  replace (y + 400 * k) with (y + (4 * k) * 100) at 1 by lia. rewrite Z.mod_add by lia.
  replace (y + 400 * k) with (y + k * 400) by lia. by rewrite Z.mod_add by lia.
Qed.

Lemma next_day_shift k date : next_day (shift_years k date) = shift_years k (next_day date).
Proof.
  destruct date as [[y m] d]. unfold shift_years, next_day, month_days. cbn [fst snd]. rewrite leap_shift.
  repeat case_match; cbn [fst snd]; try done; do 2 f_equal; lia.
Qed.

(** *** One era of 400 years, each of which begins in March *)

Definition yoe_num (doe : Z) : Z := doe - doe / 1460 + doe / 36524 - doe / 146096.
Definition year_start (y : Z) : Z := 365 * y + y / 4 - y / 100.
Definition year_last (y : Z) : Z := if y =? 399 then 146096 else year_start (y + 1) - 1.

(** The month and the day of a day of the year. *)
Definition month_of (doy : Z) : Z := let mp := (5 * doy + 2) / 153 in if mp <? 10 then mp + 3 else mp - 9.
Definition day_of (doy : Z) : Z := doy - (153 * ((5 * doy + 2) / 153) + 2) / 5 + 1.
Definition carry (m : Z) : Z := if m <=? 2 then 1 else 0.

Lemma civil_era doe : 0 <= doe < 146097 ->
  let y := yoe_num doe / 365 in let doy := doe - year_start y in
  civil (doe - 719468) = (y + carry (month_of doy), month_of doy, day_of doy).
Proof.
  intros Hd. unfold civil. replace (doe - 719468 + 719468) with doe by lia.
  rewrite (Z.div_small doe), (Z.mod_small doe) by done. cbv zeta. fold (yoe_num doe). unfold year_start.
  rewrite Z.mul_0_l, Z.add_0_r. reflexivity.
Qed.

Lemma yoe_num_mono a b : 0 <= a <= b -> b < 146097 -> yoe_num a <= yoe_num b.
Proof.
  intros Ha Hb. unfold yoe_num.
  assert (a - a / 1460 <= b - b / 1460) by (Z.div_mod_to_equations; lia).
  assert (a / 36524 - a / 146096 <= b / 36524 - b / 146096) by (Z.div_mod_to_equations; lia). lia.
Qed.

Lemma years_checked : all_below 400 (fun y =>
  (yoe_num (year_start y) / 365 =? y) && (yoe_num (year_last y) / 365 =? y) &&
  (year_last y - year_start y =? (if leap (y + 1) then 365 else 364)) && (0 <=? year_start y) &&
  (year_last y <? 146097)) = true.
Proof. vm_compute. reflexivity. Qed.

Lemma year_spec y : 0 <= y < 400 ->
  yoe_num (year_start y) / 365 = y /\ yoe_num (year_last y) / 365 = y /\
  year_last y - year_start y = (if leap (y + 1) then 365 else 364) /\ 0 <= year_start y <= year_last y /\ year_last y < 146097.
Proof.
  intros Hy. pose proof (all_below_spec _ _ years_checked y Hy) as Hb. cbv beta in Hb.
  apply andb_true_iff in Hb as [Hb H5%Z.ltb_lt]. apply andb_true_iff in Hb as [Hb H4%Z.leb_le].
  apply andb_true_iff in Hb as [Hb H3%Z.eqb_eq]. apply andb_true_iff in Hb as [H1%Z.eqb_eq H2%Z.eqb_eq].
  split_and!; try done. destruct (leap (y + 1)); lia.
Qed.

Lemma year_of doe : 0 <= doe < 146097 ->
  0 <= yoe_num doe / 365 < 400 /\ year_start (yoe_num doe / 365) <= doe <= year_last (yoe_num doe / 365).
Proof.
  intros Hd. pose proof (yoe_num_mono 0 doe ltac:(lia) ltac:(lia)) as Hl. change (yoe_num 0) with 0 in Hl.
  pose proof (yoe_num_mono doe 146096 ltac:(lia) ltac:(lia)) as Hu. change (yoe_num 146096) with 145999 in Hu.
  assert (Hy : 0 <= yoe_num doe / 365 < 400) by (Z.div_mod_to_equations; lia). split; [exact Hy|].
  set (y := yoe_num doe / 365) in *. destruct (year_spec y Hy) as (Hs & Hla & _ & H0 & H1). split.
  - destruct (Z.le_gt_cases (year_start y) doe) as [|Hlt]; [done|]. exfalso.
    destruct (decide (y = 0)) as [E|]; [rewrite E in Hlt; change (year_start 0) with 0 in Hlt; lia|].
    destruct (year_spec (y - 1) ltac:(lia)) as (_ & Hla' & _). unfold year_last in Hla'.
    rewrite (proj2 (Z.eqb_neq _ _)) in Hla' by lia. replace (y - 1 + 1) with y in Hla' by lia.
    pose proof (yoe_num_mono doe (year_start y - 1) ltac:(lia) ltac:(lia)) as Hm.
    apply (Z.div_le_mono _ _ 365) in Hm; [|lia]. fold y in Hm. lia.
  - destruct (Z.le_gt_cases doe (year_last y)) as [|Hlt]; [done|]. exfalso. unfold year_last in Hlt.
    destruct (Z.eqb_spec y 399); [lia|]. destruct (year_spec (y + 1) ltac:(lia)) as (Hs' & _ & _ & H0' & _).
    pose proof (yoe_num_mono (year_start (y + 1)) doe ltac:(lia) ltac:(lia)) as Hm.
    apply (Z.div_le_mono _ _ 365) in Hm; [|lia]. fold y in Hm. lia.
Qed.

(** The days of a year, with and without the leap day at its end. *)
Definition next_month_day (b : bool) (m d : Z) : Z * Z * Z :=
  let days := if m =? 2 then (if b then 29 else 28) else if existsb (Z.eqb m) [4; 6; 9; 11] then 30 else 31 in
  if d <? days then (0, m, d + 1) else if m <? 12 then (0, m + 1, 1) else (1, 1, 1).

Definition day_checked (b : bool) (doy : Z) : bool :=
  let '(c, m, d) := next_month_day b (month_of doy) (day_of doy) in
  (month_of (doy + 1) =? m) && (day_of (doy + 1) =? d) && (carry m =? carry (month_of doy) + c).

Definition last_checked (b : bool) : bool :=
  let doy := if b then 365 else 364 in
  let '(c, m, d) := next_month_day b (month_of doy) (day_of doy) in (c =? 0) && (m =? 3) && (d =? 1) && (month_of doy =? 2).

Lemma days_checked :
  all_below 365 (day_checked true) && all_below 364 (day_checked false) && last_checked true && last_checked false = true.
Proof. vm_compute. reflexivity. Qed.

Lemma next_day_march y m d :
  next_day (y + carry m, m, d) =
  let '(c, m', d') := next_month_day (leap (y + 1)) m d in (y + carry m + c, m', d').
Proof.
  unfold next_day, next_month_day, month_days, carry. destruct (Z.eqb_spec m 2) as [-> |]; cbn [Z.leb Z.compare];
    repeat case_match; simplify_eq/=; rewrite ?Z.add_0_r; try done; congruence.
Qed.

Lemma date_eq (y y' m m' d d' : Z) : y = y' -> m = m' -> d = d' -> (y, m, d) = (y', m', d').
Proof. by intros -> -> ->. Qed.

Lemma era_succ doe : 0 <= doe < 146097 -> civil (doe + 1 - 719468) = next_day (civil (doe - 719468)).
Proof.
  intros Hd. destruct (year_of doe Hd) as (Hy & Hin). rewrite (civil_era doe Hd). cbv zeta.
  set (y := yoe_num doe / 365) in *. set (doy := doe - year_start y).
  destruct (year_spec y Hy) as (_ & Hla & Hlen & H0 & H1). rewrite next_day_march.
  pose proof days_checked as Hc. apply andb_true_iff in Hc as [Hc Hl2]. apply andb_true_iff in Hc as [Hc Hl1].
  apply andb_true_iff in Hc as [Hc1 Hc2].
  destruct (decide (doe = year_last y)) as [He|Hne].
  - assert (Hlast : last_checked (leap (y + 1)) = true) by (by destruct (leap (y + 1))).
    assert (Hdoy : doy = if leap (y + 1) then 365 else 364) by (unfold doy; lia).
    unfold last_checked in Hlast. rewrite <-Hdoy in Hlast. destruct (next_month_day _ _ _) as [[c m] d].
    apply andb_true_iff in Hlast as [Hlast Hm2%Z.eqb_eq]. apply andb_true_iff in Hlast as [Hlast Hd1%Z.eqb_eq].
    apply andb_true_iff in Hlast as [->%Z.eqb_eq ->%Z.eqb_eq]. subst d. rewrite Hm2. change (carry 2) with 1.
    unfold year_last in He. destruct (Z.eqb_spec y 399) as [E|E].
    + rewrite He, E. reflexivity.
    + rewrite He. replace (year_start (y + 1) - 1 + 1) with (year_start (y + 1)) by lia.
      destruct (year_spec (y + 1) ltac:(lia)) as (Hs' & _ & _ & H0' & H1').
      rewrite civil_era by lia. cbv zeta. rewrite Hs'. replace (year_start (y + 1) - year_start (y + 1)) with 0 by lia.
      apply date_eq; [|done..]. change (carry (month_of 0)) with 0. lia.
  - assert (Hnext : doe + 1 <= year_last y) by lia.
    assert (Hyy : yoe_num (doe + 1) / 365 = y).
    { pose proof (yoe_num_mono doe (doe + 1) ltac:(lia) ltac:(lia)) as Ha.
      pose proof (yoe_num_mono (doe + 1) (year_last y) ltac:(lia) ltac:(lia)) as Hb.
      apply (Z.div_le_mono _ _ 365) in Ha, Hb; [|lia..]. fold y in Ha. lia. }
    rewrite civil_era by lia. cbv zeta. rewrite Hyy. replace (doe + 1 - year_start y) with (doy + 1) by (unfold doy; lia).
    assert (Hday : day_checked (leap (y + 1)) doy = true).
    { destruct (leap (y + 1)); [eapply (all_below_spec _ _ Hc1)|eapply (all_below_spec _ _ Hc2)]; unfold doy; lia. }
    unfold day_checked in Hday. destruct (next_month_day _ _ _) as [[c m] d].
    apply andb_true_iff in Hday as [Hday Hcar%Z.eqb_eq]. apply andb_true_iff in Hday as [-> %Z.eqb_eq ->%Z.eqb_eq].
    apply date_eq; [lia|done..].
Qed.

Lemma civil_succ days : civil (days + 1) = next_day (civil days).
Proof.
  pose (doe := (days + 719468) mod 146097). pose (era := (days + 719468) / 146097).
  assert (Hd : days = doe - 719468 + 146097 * era) by (pose proof (Z.div_mod (days + 719468) 146097); lia).
  assert (Hr : 0 <= doe < 146097) by (by apply Z.mod_pos_bound).
  clearbody doe era. subst days.
  replace (doe - 719468 + 146097 * era + 1) with (doe + 1 - 719468 + 146097 * era) by lia.
  by rewrite !civil_shift, next_day_shift, era_succ.
Qed.

(** The hands of the clock. *)
Definition hands (rem : Z) : Z * Z * Z := (rem / 3600, rem mod 3600 / 60, rem mod 60).

Lemma hands_of h m s : 0 <= m < 60 -> 0 <= s < 60 -> hands (3600 * h + 60 * m + s) = (h, m, s).
Proof.
  intros Hm Hs. unfold hands. replace (3600 * h + 60 * m + s) with (60 * m + s + h * 3600) at 1 2 by lia.
  rewrite Z.div_add, Z.mod_add, Z.div_small, Z.mod_small by lia.
  replace (60 * m + s) with (s + m * 60) by lia. rewrite Z.div_add, Z.div_small by lia.
  replace (3600 * h + 60 * m + s) with (s + (60 * h + m) * 60) by lia. by rewrite Z.mod_add, Z.mod_small by lia.
Qed.

Lemma hands_are rem : exists h m s, rem = 3600 * h + 60 * m + s /\ 0 <= m < 60 /\ 0 <= s < 60.
Proof.
  exists (rem / 3600), (rem mod 3600 / 60), (rem mod 3600 mod 60).
  pose proof (Z.div_mod rem 3600). pose proof (Z.div_mod (rem mod 3600) 60).
  pose proof (Z.mod_pos_bound rem 3600). pose proof (Z.mod_pos_bound (rem mod 3600) 60). 
  split; [lia|]. split; [|lia]. split; [apply Z.div_pos; lia|apply Z.div_lt_upper_bound; lia].
Qed.

(** C33: The timestamps are the calendar's.  The stamp of second zero is the first
    of January 1970 at midnight, and the stamp of each second is the one after
    that of the second before, minutes, hours, days, months and leap years
    included. *)
Theorem stamps_follow_the_calendar secs :
  stamp 0 = (1970, 1, 1, (0, 0, 0)) /\ stamp (secs + 1) = next_second (stamp secs).
Proof.
  split; [done|]. change (stamp (secs + 1)) with (civil ((secs + 1) / 86400), hands ((secs + 1) mod 86400)).
  change (stamp secs) with (civil (secs / 86400), hands (secs mod 86400)).
  assert (0 <= secs mod 86400 < 86400) as Hr by (by apply Z.mod_pos_bound).
  assert (Hs : secs = secs mod 86400 + secs / 86400 * 86400) by (pose proof (Z.div_mod secs 86400); lia).
  set (days := secs / 86400) in *. set (rem := secs mod 86400) in *. clearbody days rem. subst secs.
  destruct (hands_are rem) as (h & m & s & -> & Hm & Hss). rewrite hands_of by done. unfold next_second.
  destruct (decide (3600 * h + 60 * m + s = 86399)) as [He|Hne].
  - assert (h = 23 /\ m = 59 /\ s = 59) as (-> & -> & ->) by lia.
    replace (3600 * 23 + 60 * 59 + 59 + days * 86400 + 1) with (0 + (days + 1) * 86400) by lia.
    rewrite Z.div_add, Z.mod_add by lia. change (0 / 86400) with 0. by rewrite Z.add_0_l, civil_succ.
  - replace (3600 * h + 60 * m + s + days * 86400 + 1) with (3600 * h + 60 * m + s + 1 + days * 86400) by lia.
    rewrite Z.div_add, Z.mod_add, Z.div_small, Z.mod_small, Z.add_0_l by lia.
    destruct (Z.ltb_spec s 59); [|destruct (Z.ltb_spec m 59); [|destruct (Z.ltb_spec h 23); [|lia]]].
    + rewrite <-(hands_of h m (s + 1)) by lia. do 2 f_equal. lia.
    + rewrite <-(hands_of h (m + 1) 0) by lia. do 2 f_equal. lia.
    + rewrite <-(hands_of (h + 1) 0 0) by lia. do 2 f_equal. lia.
Qed.

(** ** The routes *)

Section routes.
Context `{Json} `{HashOrder} `{HText : !JsonText} `{HUni : Unicode}.
Context (json_error : list Z -> string) (display_f64 : f64 -> string).

(** What a route asks of the process: more than an answer it has at hand. *)
Definition privileged (x : Routed) : bool :=
  match x with Answer _ => false | RoomPage | TrackerPage _ => false | _ => true end.
Definition tells_the_roster (x : Routed) : bool :=
  match x with RoomPage | TrackerPage _ => true | _ => false end.

Definition authorised (r : Router) (request : Handshake.HttpRequest) : Prop :=
  exists token, rt_token r = Some token /\ supplied_token (Handshake.header "Authorization" request) = Some token.

Lemma check_passes token header source now f f' :
  check token header source now f = (AuthOk, f') -> supplied_token header = Some token.
Proof. rewrite check_spec. case_bool_decide; [done|]. by destruct (record_failure source now f). Qed.

Lemma public_route_mild method path : privileged (public_route method path) = false /\
  (tells_the_roster (public_route method path) = true -> is_roster path = true).
Proof.
  unfold public_route, is_roster. cbn [existsb]. destruct (str_eqb path "/healthz"); [by destruct (str_eqb method "GET")|].
  destruct (str_eqb path "/api/v1/room"); [by destruct (str_eqb method "GET")|].
  destruct (str_eqb path "/api/tracker"); [by destruct (str_eqb method "GET")|].
  destruct (str_eqb path "/api/static_tracker"); [by destruct (str_eqb method "GET")|]. by split.
Qed.

Lemma admin_route_hides method path body : tells_the_roster (admin_route json_error display_f64 method path body) = false.
Proof.
  unfold admin_route, set_slot_password, command, ask_filter, with_rules. repeat (case_match; try done).
Qed.

(** C12: Nothing is done and nobody is named without the token.  Whatever the
    request, what reaches the room's actor, the status, the metrics or the
    shutdown carried the configured token; so did what shows the roster, unless
    the roster is open; and where no token is configured there is no admin
    surface at all. *)
Theorem nothing_without_the_token r request body source now f :
  let '(routed, f') := route json_error display_f64 r request body source now f in
  (privileged routed = true -> authorised r request) /\
  (tells_the_roster routed = true -> open_roster r = true \/ authorised r request) /\
  (rt_token r = None -> starts_with "/admin/v1/" (before_query (Handshake.rq_path request)) = true ->
     routed = Answer not_found) /\
  (open_roster r = true -> starts_with "/admin/v1/" (before_query (Handshake.rq_path request)) = false -> f' = f).
Proof.
  unfold route. set (path := before_query _). destruct (starts_with "/admin/v1/" path) eqn:Ha.
  - destruct (rt_token r) as [token|] eqn:Ht; [|by split_and!].
    destruct (check token _ source now f) as [auth f'] eqn:Ec. destruct auth as [|response]; [|by split_and!].
    assert (authorised r request) by (exists token; split; [done|by eapply check_passes]).
    split_and!; [done| |done|done]. by rewrite admin_route_hides.
  - destruct (public_route_mild (Handshake.rq_method request) path) as [Hp Hr].
    destruct (is_roster path) eqn:Er.
    + unfold roster_gate. destruct (open_roster r) eqn:Ho.
      { split_and!; [by rewrite Hp|by left|done|done]. }
      destruct (rt_token r) as [token|] eqn:Ht; [|by split_and!].
      destruct (check token _ source now f) as [auth f'] eqn:Ec. destruct auth as [|response]; [|by split_and!].
      split_and!; [by rewrite Hp| |done|done]. right. exists token. split; [done|by eapply check_passes].
    + split_and!; [by rewrite Hp|by intros ?%Hr|done|done].
Qed.
End routes.

(** ** The cache *)

(** A served document and the time of the room it shows. *)
Record Served : Type := mkServed { sv_at : Z; sv_body : list Z }.

(** Every document that is held was rendered when the cache says. *)
Definition cache_of (rendered : Z -> option (list Z)) (c : Cached) : Prop :=
  match ch_body c with
  | Some body => exists at_, ch_at c = Some at_ /\ rendered at_ = Some body
  | None => True
  end.

(** A request of the tracker at each of these times. *)
Fixpoint visits (ttl : Z) (rendered : Z -> option (list Z)) (times : list Z) (c : Cached) : list (Z * Response) * Cached :=
  match times with
  | [] => ([], c)
  | now :: times =>
      let '(response, c) := tracker ttl now (rendered now) c in
      let '(l, c) := visits ttl rendered times c in ((now, response) :: l, c)
  end.

Lemma tracker_ok ttl now rendered c : cache_of rendered c ->
  let '(response, c') := tracker ttl now (rendered now) c in
  cache_of rendered c' /\
  (response = stopping /\ rendered now = None \/
   exists at_ body, rendered at_ = Some body /\ response = tracker_response body /\ (at_ = now \/ now - at_ < ttl)).
Proof.
  intros Hc. unfold tracker. destruct (fresh ttl now c) as [body|] eqn:Ef.
  - split; [done|]. right. unfold fresh in Ef. destruct (ch_at c) as [at_|] eqn:Ea; [|done]. cbn in Ef.
    destruct (Z.leb_spec ttl (Z.max 0 (now - at_))); [done|]. unfold cache_of in Hc. rewrite Ef, Ea in Hc.
    destruct Hc as (a & [= <-] & Hr). exists at_, body. split_and!; [done|done|right; lia].
  - destruct (rendered now) as [body|] eqn:Er; [|by split; [|left]].
    split; [by exists now|]. right. exists now, body. by split_and!; [| |left].
Qed.

(** The tracker is never staler than its window.  However often it is asked,
    each answer is the room's own document as it was rendered then, or less than
    the window before; or says that the room is stopping, and only when it did
    not answer just then. *)
Theorem documents_are_fresh ttl rendered times :
  Forall (fun e => (e.2 = stopping /\ rendered e.1 = None) \/
    exists at_ body, rendered at_ = Some body /\ e.2 = tracker_response body /\ (at_ = e.1 \/ e.1 - at_ < ttl))
    (visits ttl rendered times (mkCached None None)).1.
Proof.
  assert (Hc : cache_of rendered (mkCached None None)) by done. revert Hc. generalize (mkCached None None).
  induction times as [|now times IH]; intros c Hc; [constructor|]. cbn [visits].
  pose proof (tracker_ok ttl now rendered c Hc) as Ht. destruct (tracker ttl now (rendered now) c) as [response c'].
  destruct Ht as [Hc' Ht]. specialize (IH c' Hc'). destruct (visits ttl rendered times c') as [l c2].
  by constructor.
Qed.
