(* ===== verification/Report.v ===== *)
(** * What a room reports about itself

    [Room::tracker_data] and the [Status] the actor answers with, as functions of a
    room ([room.rs], [room/tracker.rs], [actor.rs]), and the documents rendered from
    them: the two of the tracker ([http/tracker.rs]) and the status document
    ([http/status.rs]).  Everything a process counts is an argument, [Gauges]. *)

From Stdlib Require Import ZArith Lia Bool Ascii SpecFloat.
From stdpp Require Import base tactics numbers list strings gmap pretty sorting.
From S2P Require Import Prelude PyRandom PyObj Locations Types Datapackage Multidata Text Hints Json PyValue Packets.
From S2P Require Import Filter Options Effects Room RoomOps RoomStore RoomPlay Commands Say Admin RoomSpec RoomInv.
From S2P Require Import RoomDemo Actor Http.

#[export] Instance RedundantKind_eq_dec : EqDecision RedundantKind.
Proof. solve_decision. Defined.

Section report.
Context `{Json} `{HashOrder} `{HText : !JsonText} `{HUni : Unicode}.

(** ** [tracker_data] *)

Record TrackerSlot := mkTrackerSlot {
  ts_team : Z;
  ts_slot : Z;
  ts_game : string;
  ts_alias : option string;
  ts_status : ClientStatus.t;
  ts_total_locations : nat;
  ts_playing : bool;
  ts_checks : gset Z;
  ts_items_received : list NetworkItem;
  ts_hints : list Hint;
  ts_last_activity : option f64;
  ts_last_connection : option f64
}.

Record TrackerGroup := mkTrackerGroup { tg_slot : Z; tg_name : string; tg_members : list Z }.

Record TrackerData := mkTrackerData {
  td_slots : list TrackerSlot;
  td_groups : list TrackerGroup;
  td_datapackage : list (string * option string);
  td_total_checks : list (Z * nat)
}.

Definition tracker_slot (r : Room) (team : Z) (e : Z * NetworkSlot) : TrackerSlot :=
  let key := (team, e.1) in
  mkTrackerSlot team e.1 (ns_game e.2) (r_name_aliases r !! key) (client_state r key)
    (count_for (locations (r_data r)) e.1) (bool_decide (slot_type e.2 = SlotType.Player))
    (checks_of r key) (queue_of r (key, true)) (hints_get (r_hints r) key)
    (r_activity_at r !! key) (r_connected_at r !! key).

Definition tracker_data (r : Room) : TrackerData :=
  let slots := team ← teams (r_data r); tracker_slot r team <$> btree_items (slot_info (r_data r)) in
  let groups :=
    (fun e => mkTrackerGroup e.1 (ns_name e.2) (group_members e.2)) <$>
      filter (fun e : Z * NetworkSlot => group_members e.2 <> []) (btree_items (slot_info (r_data r))) in
  mkTrackerData slots groups
    ((fun game => (game, games (r_datapackage r) !! game ≫= (fun names => checksum (package names)))) <$>
       sorted_strings (elements (games_of (r_data r))))
    [(0, foldr (fun s n => size (ts_checks s) + n)%nat 0%nat slots)].

(** ** The documents of the tracker *)

Definition v_array (l : list Value) : Value := make (SArray l).
Definition v_object (m : JMap) : Value := make (SObject m).
Definition v_nat (n : nat) : Value := v_int (Z.of_nat n).
Definition v_or_null (o : option Value) : Value := default v_null o.
Definition v_bool (b : bool) : Value := make (SBool b).

Definition item (i : NetworkItem) : Value :=
  v_array [v_int (ni_item i); v_int (ni_location i); v_int (ni_player i); v_int (ni_flags i)].

Definition hint (h : Hint) : Value :=
  v_array [v_int (receiving_player h); v_int (finding_player h); v_int (h_location h); v_int (h_item h);
           v_bool (found h); v_string (entrance h); v_int (item_flags h); v_int (HintStatus.code (status h))].

Definition DAYS : list string := ["Thu"; "Fri"; "Sat"; "Sun"; "Mon"; "Tue"; "Wed"]%string.
Definition MONTHS : list string :=
  ["Jan"; "Feb"; "Mar"; "Apr"; "May"; "Jun"; "Jul"; "Aug"; "Sep"; "Oct"; "Nov"; "Dec"]%string.

(** [{year:04}], the sign before the zeros. *)
Definition year_text (year : Z) : string :=
  if year <? 0 then String "-" (padded 3 (- year)) else padded 4 year.

Definition http_date (secs : Z) : string :=
  let '(year, month, day, (hh, mm, ss)) := stamp secs in
  str_concat [nth (Z.to_nat ((secs / 86400) mod 7)) DAYS EmptyString; ", "; padded 2 day; " ";
              nth (Z.to_nat (month - 1)) MONTHS EmptyString; " "; year_text year; " ";
              padded 2 hh; ":"; padded 2 mm; ":"; padded 2 ss; " GMT"]%string.

Definition rfc1123 (at_ : option f64) : Value :=
  match at_ with
  | None => v_null
  | Some secs => v_string (http_date (f64_as_i64 secs))
  end.

(** One row of an array of the document. *)
Definition row (s : TrackerSlot) (fields : JMap) : Value :=
  v_object ([("team"%string, v_int (ts_team s)); ("player"%string, v_int (ts_slot s))] ++ fields).

Definition players (data : TrackerData) : list TrackerSlot := filter (fun s => ts_playing s = true) (td_slots data).

Definition tracker (data : TrackerData) : Value :=
  let players := players data in
  v_object
    [("aliases"%string, v_array ((fun s => row s [("alias"%string, v_or_null (v_string <$> ts_alias s))]) <$> players));
     ("player_items_received"%string,
       v_array ((fun s => row s [("items"%string, v_array (item <$> ts_items_received s))]) <$> players));
     ("player_checks_done"%string,
       v_array ((fun s => row s [("locations"%string, v_array (v_int <$> merge_sort Z.le (elements (ts_checks s))))]) <$> players));
     ("total_checks_done"%string,
       v_array ((fun e => v_object [("team"%string, v_int e.1); ("checks_done"%string, v_nat e.2)]) <$> td_total_checks data));
     ("hints"%string, v_array ((fun s => row s [("hints"%string, v_array (hint <$> ts_hints s))]) <$> td_slots data));
     ("activity_timers"%string, v_array ((fun s => row s [("time"%string, rfc1123 (ts_last_activity s))]) <$> players));
     ("connection_timers"%string, v_array ((fun s => row s [("time"%string, rfc1123 (ts_last_connection s))]) <$> players));
     ("player_status"%string,
       v_array ((fun s => row s [("status"%string, v_int (ClientStatus.code (ts_status s)))]) <$> players))].

Definition static_tracker (data : TrackerData) : Value :=
  let players := players data in
  v_object
    [("groups"%string,
       v_array ((fun g => v_object [("slot"%string, v_int (tg_slot g)); ("name"%string, v_string (tg_name g));
                                    ("members"%string, v_array (v_int <$> tg_members g))]) <$> td_groups data));
     ("datapackage"%string,
       v_object ((fun e => (e.1, v_object [("checksum"%string, v_or_null (v_string <$> e.2)); ("version"%string, v_int 0)]))
                   <$> td_datapackage data));
     ("player_locations_total"%string,
       v_array ((fun s => row s [("total_locations"%string, v_nat (ts_total_locations s))]) <$> players));
     ("player_game"%string, v_array ((fun s => row s [("game"%string, v_string (ts_game s))]) <$> players))].

(** ** What the actor answers *)

Record RoomRules := mkRoomRules {
  rr_hint_cost : Z;
  rr_location_check_points : Z;
  rr_release_mode : string;
  rr_collect_mode : string;
  rr_remaining_mode : string;
  rr_countdown_mode : string;
  rr_item_cheat : bool;
  rr_compatibility : Z
}.

Record SlotStatus := mkSlotStatus {
  ss_team : Z;
  ss_slot : Z;
  ss_name : string;
  ss_game : string;
  ss_connections : nat;
  ss_checks : nat;
  ss_total_checks : nat;
  ss_status : string;
  ss_locked : bool;
  ss_filtered : bool
}.

Record StoreStatus := mkStoreStatus { sd_keys : nat; sd_bytes : Z; sd_subscribed_keys : nat; sd_subscriptions : nat }.

Record Status := mkStatus {
  st_clients_connected : nat;
  st_save_dirty : bool;
  st_save_interval : Z;
  st_saving : bool;
  st_options : RoomRules;
  st_slots : list SlotStatus;
  st_last_check_at : option f64;
  st_datastore : StoreStatus
}.

(** The integer [f64::total_cmp] compares. *)
Definition total_key (f : f64) : Z :=
  let bits := wrap_i64 (f64_to_bits f) in if bits <? 0 then Z.lxor bits i64_max else bits.

(** [max_by]: of equal elements the last. *)
Definition later (best : option f64) (at_ : f64) : option f64 :=
  match best with
  | Some b => if total_key b <=? total_key at_ then Some at_ else Some b
  | None => Some at_
  end.

Definition last_check_at (r : Room) : option f64 :=
  fold_left later (hash_order (map_to_list (r_activity_at r))).*2 None.

Definition stored_data_subscriptions (r : Room) : nat * nat :=
  (size (r_stored_data_subscriptions r),
   foldr (fun e n => size e.2 + n)%nat 0%nat (hash_order (map_to_list (r_stored_data_subscriptions r)))).

Definition slot_status (r : Room) (key : SlotKey) : option SlotStatus :=
  info ← slot_info (r_data r) !! key.2;
  Some (mkSlotStatus key.1 key.2 (ns_name info) (ns_game info) (connections_for r key) (checked_count r key)
          (count_for (locations (r_data r)) key.2) (ClientStatus.as_text (client_state r key))
          (bool_decide (key ∈ r_locked_slots r)) (filters_slot r key)).

(** The arm of [ActorMsg::Status]; [&slot_info[&number]] is there for every slot
    that is walked, and the interval is the configuration's. *)
Definition status_of (r : Room) (saver : Saver) (interval : Z) : Status :=
  let o := r_options r in
  let subscriptions := stored_data_subscriptions r in
  mkStatus (client_count r) (sv_dirty saver) interval (sc_store (sv_config saver))
    (mkRoomRules (hint_cost o) (location_check_points o) (Permission.as_text (release_mode o))
       (Permission.as_text (collect_mode o)) (Permission.as_text (remaining_mode o))
       (Permission.as_text (countdown_mode o)) (item_cheat o) (compatibility o))
    (omap (slot_status r) (team_slots (r_data r)))
    (last_check_at r)
    (mkStoreStatus (size (r_stored_data r)) (r_stored_data_bytes r) subscriptions.1 subscriptions.2).

(** ** What a process counts *)

(** The figures of [metrics.rs], [budget.rs], [deflate.rs] and
    [pahoa_datastore::metrics], and the wall clock in nanoseconds. *)
Record Gauges := mkGauges {
  g_now : Z;
  g_mailbox_depth : Z;
  g_mailbox_peak : Z;
  g_lag_disconnects : Z;
  g_queued_bytes : Z;
  g_peak_bytes : Z;
  g_compressions : Z;
  g_save_micros : Z;
  g_save_bytes : Z;
  g_save_at : Z;
  g_last_client_message_at : Z;
  g_http_malformed : Z;
  g_auth_failures : Z;
  g_auth_rate_limited : Z;
  g_shard_overflow : Z;
  g_shard_sweeps : Z;
  g_resident_bytes : option Z;
  g_cpu_seconds : option f64;
  g_start_time_seconds : option f64;
  g_applied : Z;
  g_apply_nanos : Z;
  g_apply_max_nanos : Z
}.

(** The rows of the tables, in the order their maps are walked. *)
Record Tables := mkTables {
  tb_failures : list (string * Z);
  tb_packets : list (option SlotKey * string * Z);
  tb_bytes_in : list (option SlotKey * Z);
  tb_packets_out : list (string * Z);
  tb_delivered : list (option SlotKey * (Z * Z));
  tb_deflate : list (SlotKey * bool * Z);
  tb_http : list (string * string * Z * (Z * Z * Z));
  tb_redundant : list (SlotKey * RedundantKind * Z);
  tb_drops : list (SlotKey * Direction * Kind * Z)
}.

(** A second that is zero is none yet. *)
Definition since_start (secs : Z) : option Z := if secs =? 0 then None else Some secs.
Definition last_save_at (g : Gauges) : option Z := since_start (g_save_at g).
Definition last_client_message_at (g : Gauges) : option Z := since_start (g_last_client_message_at g).

(** [now.duration_since(at)] in seconds, or zero when it is in the future. *)
Definition seconds_since (g : Gauges) (at_ : Z) : Z := Z.max 0 ((g_now g - at_ * 1000000000) / 1000000000).

Definition idle_seconds (g : Gauges) : option Z := seconds_since g <$> last_client_message_at g.

(** Whole seconds after the epoch; [None] is the panic of an instant the clock
    cannot hold. *)
Definition room_time (at_ : f64) : option Z :=
  let secs := if f64_finite at_ then (if f64_leb (f64_of_Z 0) at_ then at_ else f64_of_Z 0) else f64_of_Z 0 in
  let whole := f64_as_u64 secs in
  if whole <=? i64_max then Some whole else None.

(** [Duration::as_secs_f64]. *)
Definition secs_f64 (nanos : Z) : f64 :=
  f64_add (f64_of_Z (nanos / 1000000000)) (f64_div (f64_of_Z (nanos mod 1000000000)) (f64_of_Z 1000000000)).

(** A [u64] as a number. *)
Definition v_count (n : Z) : Value := if n <=? i64_max then v_int n else make (SNumber (num_of_big n)).

Definition redundant_total (kind : RedundantKind) (t : Tables) : Z :=
  wrap64 (sum_of snd (filter (fun row => row.1.2 = kind) (tb_redundant t))).

Definition dropped_total (direction : Direction) (t : Tables) : Z :=
  wrap64 (sum_of snd (filter (fun row => row.1.1.2 = direction) (tb_drops t))).

(** ** The status document *)

Definition save_member (live : Status) (g : Gauges) : Value :=
  if st_saving live then
    v_object
      [("last_save_at"%string, v_or_null (v_string ∘ rfc3339 <$> last_save_at g));
       ("last_save_bytes"%string, v_count (g_save_bytes g));
       ("last_save_seconds"%string, v_f64 (secs_f64 (g_save_micros g * 1000)));
       ("save_interval_seconds"%string, v_count (st_save_interval live / 1000000000));
       ("dirty"%string, v_bool (st_save_dirty live))]
  else v_null.

Definition slot_member (s : SlotStatus) : Value :=
  v_object
    [("team"%string, v_int (ss_team s)); ("slot"%string, v_int (ss_slot s)); ("name"%string, v_string (ss_name s));
     ("game"%string, v_string (ss_game s)); ("connected"%string, v_bool (0 <? ss_connections s)%nat);
     ("connections"%string, v_nat (ss_connections s)); ("checks"%string, v_nat (ss_checks s));
     ("total_checks"%string, v_nat (ss_total_checks s)); ("status"%string, v_string (ss_status s));
     ("locked"%string, v_bool (ss_locked s)); ("filtered"%string, v_bool (ss_filtered s))].

Definition options_member (o : RoomRules) : Value :=
  v_object
    [("hint_cost"%string, v_int (rr_hint_cost o)); ("location_check_points"%string, v_int (rr_location_check_points o));
     ("release_mode"%string, v_string (rr_release_mode o)); ("collect_mode"%string, v_string (rr_collect_mode o));
     ("remaining_mode"%string, v_string (rr_remaining_mode o)); ("countdown_mode"%string, v_string (rr_countdown_mode o));
     ("item_cheat"%string, v_bool (rr_item_cheat o)); ("compatibility"%string, v_int (rr_compatibility o))].

Definition check_idle_seconds (g : Gauges) (last : option f64) : option (option Z) :=
  match last with
  | None => Some None
  | Some at_ => (fun t => Some (seconds_since g t)) <$> room_time at_
  end.

(** [None] when [room_time] panics. *)
Definition document (version : string) (seed : MultiData) (live : Status) (started_at budget : Z) (g : Gauges) (t : Tables)
    : option Value :=
  check_idle ← check_idle_seconds g (st_last_check_at live);
  last_check ← (match st_last_check_at live with None => Some None | Some at_ => Some <$> room_time at_ end);
  let d := st_datastore live in
  Some (v_object
    [("seed_name"%string, v_string (seed_name seed)); ("pahoa_version"%string, v_string version);
     ("api_version"%string, v_int 1); ("started_at"%string, v_string (rfc3339 started_at));
     ("save"%string, save_member live g);
     ("net"%string, v_object
       [("clients_connected"%string, v_nat (st_clients_connected live)); ("mailbox_depth"%string, v_count (g_mailbox_depth g));
        ("mailbox_peak"%string, v_count (g_mailbox_peak g)); ("lag_disconnects"%string, v_count (g_lag_disconnects g));
        ("outbound_queued_bytes"%string, v_count (g_queued_bytes g)); ("outbound_peak_bytes"%string, v_count (g_peak_bytes g));
        ("outbound_budget_bytes"%string, v_count budget); ("resident_bytes"%string, v_or_null (v_count <$> g_resident_bytes g));
        ("compressions"%string, v_count (g_compressions g))]);
     ("activity"%string, v_object
       [("last_client_message_at"%string, v_or_null (v_string ∘ rfc3339 <$> last_client_message_at g));
        ("idle_seconds"%string, v_or_null (v_count <$> idle_seconds g));
        ("last_check_at"%string, v_or_null (v_string ∘ rfc3339 <$> last_check));
        ("check_idle_seconds"%string, v_or_null (v_count <$> check_idle))]);
     ("datastore"%string, v_object
       [("keys"%string, v_nat (sd_keys d)); ("bytes"%string, v_count (sd_bytes d));
        ("subscribed_keys"%string, v_nat (sd_subscribed_keys d)); ("subscriptions"%string, v_nat (sd_subscriptions d));
        ("applied"%string, v_count (g_applied g)); ("apply_seconds"%string, v_f64 (secs_f64 (g_apply_nanos g)));
        ("apply_max_seconds"%string, v_f64 (secs_f64 (g_apply_max_nanos g)));
        ("failures"%string, v_object ((fun e => (e.1, v_count e.2)) <$> tb_failures t))]);
     ("filters"%string, v_object
       [("slots_filtered"%string, v_nat (length (filter (fun s => ss_filtered s = true) (st_slots live))));
        ("dropped_from_slots"%string, v_count (dropped_total FromSlot t));
        ("dropped_to_slots"%string, v_count (dropped_total ToSlot t))]);
     ("redundant"%string, v_object
       [("location_checks"%string, v_count (redundant_total LocationCheck t)); ("hints"%string, v_count (redundant_total RedundantHint t))]);
     ("options"%string, options_member (st_options live));
     ("slots"%string, v_array (slot_member <$> st_slots live))]).
End report.

(** ** Reading a tracker document back *)

Section tracker.
Context `{Json} `{HashOrder} `{HText : !JsonText} `{HUni : Unicode}.

Definition member (v : Value) (name : string) : option Value := m ← v_as_object v; map_get m name.

Definition as_number (v : Value) : option Z := match shape v with SNumber n => num_as_i64 n | _ => None end.

(** The row of a player in an array of the document. *)
Definition player_row (doc : Value) (name : string) (n : Z) : option Value :=
  rows ← (member doc name ≫= v_as_array);
  List.find (fun r => bool_decide (member r "player" ≫= as_number = Some n)) rows.

Definition player_field (doc : Value) (name : string) (n : Z) (field : string) : option Value :=
  r ← player_row doc name n; member r field.

Lemma member_object m name : member (v_object m) name = map_get m name.
Proof. unfold member, v_object, v_as_object. by rewrite shape_make. Qed.

Lemma array_of l : v_as_array (v_array l) = Some l.
Proof. unfold v_array, v_as_array. by rewrite shape_make. Qed.

Lemma number_of z : is_i64 z -> as_number (v_int z) = Some z.
Proof. intros Hz. unfold as_number, v_int. rewrite shape_make. by apply num_as_i64_of. Qed.

Lemma row_player s fields : member (row s fields) "player" = Some (v_int (ts_slot s)).
Proof. unfold row. rewrite member_object. cbn [app]. rewrite map_get_skip by done. apply map_get_here. Qed.

Lemma row_field s field v : field <> "team"%string -> field <> "player"%string ->
  member (row s [(field, v)]) field = Some v.
Proof. intros. unfold row. rewrite member_object. cbn [app]. rewrite !map_get_skip by done. apply map_get_here. Qed.

(** The row of a slot, among rows whose slots are numbers and all different. *)
Lemma find_row (l : list TrackerSlot) (f : TrackerSlot -> JMap) n :
  Forall (fun s => is_i64 (ts_slot s)) l -> NoDup (ts_slot <$> l) ->
  (forall s, s ∈ l -> ts_slot s = n ->
     List.find (fun r => bool_decide (member r "player" ≫= as_number = Some n)) ((fun s => row s (f s)) <$> l)
       = Some (row s (f s))) /\
  ((forall s, s ∈ l -> ts_slot s <> n) ->
     List.find (fun r => bool_decide (member r "player" ≫= as_number = Some n)) ((fun s => row s (f s)) <$> l) = None).
Proof.
  intros Hz. induction Hz as [|x l Hx _ IH]; intros Hn; [split; [intros s []%elem_of_nil|done]|].
  rewrite fmap_cons in Hn. apply NoDup_cons in Hn as [Hnot Hn]. destruct (IH Hn) as [IH1 IH2].
  rewrite fmap_cons. cbn [List.find]. rewrite row_player. cbn [mbind option_bind]. rewrite number_of by done. split.
  - intros s Hs Hsn. apply elem_of_cons in Hs as [->|Hs]; [by rewrite bool_decide_eq_true_2 by by f_equal|].
    rewrite bool_decide_eq_false_2; [by apply IH1|]. intros [= Hxn]. apply Hnot. rewrite Hxn, <-Hsn.
    by apply list_elem_of_fmap_2.
  - intros Hno. rewrite bool_decide_eq_false_2; [apply IH2; intros; apply Hno; by right|].
    intros [= Hxn]. by apply (Hno x); [left|].
Qed.

Definition slots_are_numbers (d : MultiData) : Prop := map_Forall (fun n _ => is_u32 n) (slot_info d).

Lemma tracked_slots r : td_slots (tracker_data r) = tracker_slot r ONLY_TEAM <$> btree_items (slot_info (r_data r)).
Proof. unfold tracker_data. cbn. by rewrite app_nil_r. Qed.

Lemma tracked r n s : s ∈ td_slots (tracker_data r) /\ ts_slot s = n <->
  exists info, slot_info (r_data r) !! n = Some info /\ s = tracker_slot r ONLY_TEAM (n, info).
Proof.
  rewrite tracked_slots, list_elem_of_fmap. split.
  - intros [([k info] & -> & Hin) Hk]. cbn in Hk. subst. exists info. split; [|done]. by apply elem_of_btree_items.
  - intros (info & Hi & ->). split; [|done]. exists (n, info). split; [done|]. by apply elem_of_btree_items.
Qed.

Lemma items_distinct {A} (m : gmap Z A) : NoDup (btree_items m).*1.
Proof.
  unfold btree_items. pose proof (NoDup_btree_keys m) as Hn. induction Hn as [|k l Hk _ IH]; [constructor|].
  cbn [omap list_omap]. destruct (m !! k) as [x|]; cbn [fmap option_fmap option_map]; [|done].
  rewrite fmap_cons. apply NoDup_cons. split; [|done]. cbn. intros Hin. apply Hk.
  apply list_elem_of_fmap in Hin as ([k' y] & -> & (k'' & Hk'' & He)%list_elem_of_omap).
  destruct (m !! k''); simplify_eq/=; done.
Qed.

Lemma tracked_distinct r : NoDup (ts_slot <$> td_slots (tracker_data r)).
Proof. rewrite tracked_slots, <-list_fmap_compose. apply items_distinct. Qed.

Lemma tracked_numbers r : slots_are_numbers (r_data r) -> Forall (fun s => is_i64 (ts_slot s)) (td_slots (tracker_data r)).
Proof.
  intros Hd. rewrite Forall_forall. intros s Hs.
  destruct (proj1 (tracked r (ts_slot s) s) (conj Hs eq_refl)) as (info & Hi & _).
  apply Hd in Hi. unfold is_u32 in Hi. unfold is_i64. lia.
Qed.

(** The field of a slot, from an array over the players or over all. *)
Lemma all_field r n info field f :
  slots_are_numbers (r_data r) -> slot_info (r_data r) !! n = Some info ->
  List.find (fun x => bool_decide (member x "player" ≫= as_number = Some n))
    ((fun s => row s [(field, f s)]) <$> td_slots (tracker_data r)) =
  Some (row (tracker_slot r ONLY_TEAM (n, info)) [(field, f (tracker_slot r ONLY_TEAM (n, info)))]).
Proof.
  intros Hd Hi. destruct (proj2 (tracked r n (tracker_slot r ONLY_TEAM (n, info)))) as [Hin Hn]; [by exists info|].
  by apply (find_row _ (fun s => [(field, f s)]) n (tracked_numbers r Hd) (tracked_distinct r)).
Qed.

Lemma players_field r n info field f :
  slots_are_numbers (r_data r) -> slot_info (r_data r) !! n = Some info ->
  List.find (fun x => bool_decide (member x "player" ≫= as_number = Some n))
    ((fun s => row s [(field, f s)]) <$> players (tracker_data r)) =
  if bool_decide (slot_type info = SlotType.Player)
  then Some (row (tracker_slot r ONLY_TEAM (n, info)) [(field, f (tracker_slot r ONLY_TEAM (n, info)))]) else None.
Proof.
  intros Hd Hi. set (ts := tracker_slot r ONLY_TEAM (n, info)).
  assert (Forall (fun s => is_i64 (ts_slot s)) (players (tracker_data r))) as Hz.
  { apply Forall_forall. intros s [_ Hs]%list_elem_of_filter. exact (proj1 (Forall_forall _ _) (tracked_numbers r Hd) s Hs). }
  assert (NoDup (ts_slot <$> players (tracker_data r))) as Hn.
  { eapply sublist_NoDup; [apply tracked_distinct|]. by apply fmap_sublist, sublist_filter. }
  destruct (find_row _ (fun s => [(field, f s)]) n Hz Hn) as [Hf Hf']. case_bool_decide as Hp.
  - apply Hf; [|done]. apply list_elem_of_filter. split; [by apply bool_decide_eq_true|]. apply (tracked r n ts). by exists info.
  - apply Hf'. intros s [Hpl Hs]%list_elem_of_filter Hsn.
    destruct (proj1 (tracked r n s) (conj Hs Hsn)) as (info' & Hi' & ->). cbn in Hpl. simplify_eq.
    by apply bool_decide_eq_true in Hpl.
Qed.

End tracker.

Example noon_of_a_monday : http_date 1786990929 = "Mon, 17 Aug 2026 18:22:09 GMT"%string.
Proof. reflexivity. Qed.

(** ** The theorem at the room of [RoomDemo] *)

#[local] Existing Instance tree_json.
#[local] Existing Instance tree_text.
#[local] Existing Instance ascii_unicode.
#[local] Existing Instance demo_hash.

#[local] Instance number_dec n : Decision (is_u32 n).
Proof. unfold is_u32. apply _. Defined.

