(* ===== verification/Metrics.v ===== *)
(** * [crates/pahoa-net/src/metrics.rs]: the counters of a process

    The tables of counters that every task of the process writes: a hash map behind
    a lock for readers and a writer, its values atomics, as threads that take one
    step at a time.  [record_packet], [record_bytes_in], [record_packet_out],
    [record_delivery], [record_client_deflate] and [record_http] are one protocol,
    a call of it a key with what is added to each counter of its row. *)

From Stdlib Require Import ZArith Lia Bool Ascii.
From stdpp Require Import base tactics list gmap strings relations.
From S2P Require Import Prelude Types Text Json Packets Filter RoomStore.

(** ** One table *)

Section table.
Context {K : Type} `{Countable K}.
(** How many counters a row has. *)
Context (width : nat).

(** [record_..(key, amounts)]. *)
Definition Call : Type := K * list Z.

(** Where a thread is in the call at the head of its list. *)
Inductive Pc :=
| Idle                               (* before [TABLE.read()] *)
| Reading                            (* [.get(&key)], under the read lock *)
| Adding (exclusive : bool) (i : nat)  (* the [i]-th [fetch_add] *)
| Missed                             (* before [TABLE.write()] *)
| Writing.                           (* [.entry(key).or_default()] *)

Definition Thread : Type := list Call * Pc.

Record Table := mkTable {
  tb_rows : gmap K (list Z);
  tb_readers : Z;
  tb_writer : bool
}.

Definition add_at (i : nat) (n : Z) (row : list Z) : list Z := alter (fun c => wrap64 (c + n)) i row.

(** One step of a thread: [None] when it has nothing to do or waits for the
    lock. *)
Definition advance (s : Table) (t : Thread) : option (Table * Thread) :=
  match t with
  | ([], _) => None
  | ((key, amounts) :: calls, pc) =>
      match pc with
      | Idle =>
          if tb_writer s then None
          else Some (mkTable (tb_rows s) (tb_readers s + 1) false, (t.1, Reading))
      | Reading =>
          match tb_rows s !! key with
          | Some _ => Some (s, (t.1, Adding false 0))
          | None => Some (mkTable (tb_rows s) (tb_readers s - 1) (tb_writer s), (t.1, Missed))
          end
      | Missed =>
          if tb_writer s || negb (tb_readers s =? 0) then None
          else Some (mkTable (tb_rows s) (tb_readers s) true, (t.1, Writing))
      | Writing =>
          let row := default (replicate width 0) (tb_rows s !! key) in
          Some (mkTable (<[key := row]> (tb_rows s)) (tb_readers s) (tb_writer s), (t.1, Adding true 0))
      | Adding exclusive i =>
          match amounts !! i with
          | Some n => Some (mkTable (alter (add_at i n) key (tb_rows s)) (tb_readers s) (tb_writer s),
                            (t.1, Adding exclusive (S i)))
          | None =>
              Some (if exclusive then mkTable (tb_rows s) (tb_readers s) false
                    else mkTable (tb_rows s) (tb_readers s - 1) (tb_writer s),
                    (calls, Idle))
          end
      end
  end.

(** The process: the table and its threads, of which any may run next. *)
Definition World : Type := Table * list Thread.

Inductive wstep : World -> World -> Prop :=
| WStep s ts i t s' t' :
    ts !! i = Some t -> advance s t = Some (s', t') -> wstep (s, ts) (s', <[i := t']> ts).

Definition wstart (jobs : list (list Call)) : World :=
  (mkTable ∅ 0 false, (fun calls => (calls, Idle)) <$> jobs).

(** [record_..] alone, as a function of the rows. *)
Definition add_row (amounts row : list Z) : list Z := zip_with (fun c n => wrap64 (c + n)) row amounts.

Definition record (rows : gmap K (list Z)) (c : Call) : gmap K (list Z) :=
  <[c.1 := add_row c.2 (default (replicate width 0) (rows !! c.1))]> rows.

(** ** What is in the table and what is still to come *)

Definition counter (s : Table) (k : K) (i : nat) : Z := default 0 (tb_rows s !! k ≫= (fun row => row !! i)).

Definition amount (k : K) (i : nat) (c : Call) : Z :=
  if bool_decide (c.1 = k) then default 0 (c.2 !! i) else 0.

Definition total (k : K) (i : nat) (calls : list Call) : Z := sum_of (amount k i) calls.

(** Of the head's amounts, those before the place of the thread are in. *)
Definition remaining (k : K) (i : nat) (t : Thread) : Z :=
  match t with
  | (c :: calls, Adding _ j) => (if (i <? j)%nat then 0 else amount k i c) + total k i calls
  | (calls, _) => total k i calls
  end.

Definition reads (t : Thread) : Z :=
  match t with
  | (_ :: _, Reading) | (_ :: _, Adding false _) => 1
  | _ => 0
  end.

Definition writes (t : Thread) : Z :=
  match t with
  | (_ :: _, Writing) | (_ :: _, Adding true _) => 1
  | _ => 0
  end.

(** A thread still has a call for the key. *)
Definition pending (k : K) (t : Thread) : Prop := exists c, c ∈ t.1 /\ c.1 = k.

(** The head's row is there while a thread adds to it. *)
Definition holds_row (s : Table) (t : Thread) : Prop :=
  match t with
  | (c :: _, Adding _ _) => is_Some (tb_rows s !! c.1)
  | _ => True
  end.

Definition well_formed (t : Thread) : Prop := Forall (fun c : Call => length c.2 = width) t.1.

Record table_ok (jobs : list (list Call)) (w : World) : Prop := mkTableOk {
  tk_counts k i : wrap64 (counter w.1 k i + sum_of (remaining k i) w.2) = wrap64 (sum_of (total k i) jobs);
  tk_u64 k i : is_u64 (counter w.1 k i);
  tk_readers : tb_readers w.1 = sum_of reads w.2;
  tk_writer : Z.b2z (tb_writer w.1) = sum_of writes w.2;
  tk_exclusive : tb_writer w.1 = true -> tb_readers w.1 = 0;
  tk_rows : Forall (holds_row w.1) w.2;
  tk_width k row : tb_rows w.1 !! k = Some row -> length row = width;
  tk_formed : Forall well_formed w.2;
  tk_keys k : is_Some (tb_rows w.1 !! k) \/ (exists j t, w.2 !! j = Some t /\ pending k t) <->
              exists c, c ∈ concat jobs /\ c.1 = k
}.

(** ** A step keeps the account *)

Definition rows_wide (s : Table) : Prop := forall k row, tb_rows s !! k = Some row -> length row = width.

Lemma counter_alter s k i j n key r w :
  is_Some (tb_rows s !! key) -> rows_wide s -> (i < width)%nat ->
  counter (mkTable (alter (add_at i n) key (tb_rows s)) r w) k j =
  if bool_decide (key = k /\ i = j) then wrap64 (counter s k j + n) else counter s k j.
Proof.
  intros [row Hrow] Hw Hi. unfold counter. cbn [tb_rows]. case_bool_decide as Hd.
  - destruct Hd as [-> ->]. rewrite lookup_alter_eq, Hrow. cbn. unfold add_at. rewrite list_lookup_alter_eq.
    apply Hw in Hrow. destruct (lookup_lt_is_Some_2 row j) as [c Hc]; [lia|]. by rewrite Hc.
  - destruct (decide (key = k)) as [->|Hk]; [|by rewrite lookup_alter_ne].
    rewrite lookup_alter_eq, Hrow. cbn. unfold add_at. rewrite list_lookup_alter_ne; [done|naive_solver].
Qed.

Lemma add_at_length i n row : length (add_at i n row) = length row.
Proof. apply length_alter. Qed.

Lemma counter_entry s k j key r w :
  counter (mkTable (<[key := default (replicate width 0) (tb_rows s !! key)]> (tb_rows s)) r w) k j = counter s k j.
Proof.
  unfold counter. cbn [tb_rows]. destruct (decide (key = k)) as [->|Hk]; [|by rewrite lookup_insert_ne].
  rewrite lookup_insert_eq. destruct (tb_rows s !! k); [done|]. cbn.
  destruct (replicate width 0 !! j) as [c|] eqn:E; [|done]. by apply lookup_replicate in E as [-> _].
Qed.

Lemma amount_in k i c n : c.2 !! i = Some n -> c.1 = k -> amount k i c = n.
Proof. intros Hn <-. unfold amount. by rewrite bool_decide_true, Hn. Qed.

Lemma remaining_idle k i calls : remaining k i (calls, Idle) = total k i calls.
Proof. by destruct calls. Qed.

Lemma advance_counts s t s' t' k i :
  holds_row s t -> well_formed t -> rows_wide s -> is_u64 (counter s k i) -> advance s t = Some (s', t') ->
  wrap64 (counter s' k i + remaining k i t') = wrap64 (counter s k i + remaining k i t) /\ is_u64 (counter s' k i).
Proof.
  destruct t as [[|[key amounts] calls] pc]; [done|]. cbn [advance fst]. intros Hh Hf Hw Hu Ha.
  apply Forall_cons in Hf as [Hlen _]. cbn in Hlen, Hh.
  destruct pc as [| |ex j| |].
  - destruct (tb_writer s); [done|]. by injection Ha as <- <-.
  - by destruct (tb_rows s !! key); injection Ha as <- <-.
  - destruct (amounts !! j) as [n|] eqn:En; injection Ha as <- <-.
    + assert (j < width)%nat as Hj by (rewrite <-Hlen; by eapply lookup_lt_Some).
      rewrite counter_alter by done. cbn [remaining]. case_bool_decide as Hd.
      * destruct Hd as [-> ->]. split; [|apply wrap64_range]. rewrite wrap64_add.
        replace (i <? i)%nat with false by (symmetry; apply Nat.ltb_irrefl).
        replace (i <? S i)%nat with true by (symmetry; apply Nat.ltb_lt; lia).
        rewrite (amount_in k i (k, amounts) n) by done. cbn iota. f_equal. lia.
      * split; [|done]. f_equal. f_equal. f_equal.
        destruct (decide (i = j)) as [->|Hij].
        { unfold amount. rewrite bool_decide_false by (cbn; naive_solver). by repeat case_match. }
        replace (i <? S j)%nat with (i <? j)%nat; [done|].
        apply eq_true_iff_eq. rewrite !Nat.ltb_lt. lia.
    + assert (counter (if ex then mkTable (tb_rows s) (tb_readers s) false
        else mkTable (tb_rows s) (tb_readers s - 1) (tb_writer s)) k i = counter s k i) as -> by by destruct ex.
      split; [|done]. rewrite remaining_idle. cbn [remaining]. f_equal. f_equal. destruct (Nat.ltb_spec i j); [lia|].
      unfold amount. cbn [fst snd]. apply lookup_ge_None in En. rewrite (lookup_ge_None_2 amounts i) by lia.
      destruct (bool_decide _); cbn; lia.
  - destruct (_ || _); [done|]. by injection Ha as <- <-.
  - injection Ha as <- <-. rewrite counter_entry. split; [|done]. cbn [remaining]. f_equal.
Qed.

Definition pairs_of_locks (s : Table) (ts : list Thread) : Prop :=
  tb_readers s = sum_of reads ts /\ Z.b2z (tb_writer s) = sum_of writes ts /\
  (tb_writer s = true -> tb_readers s = 0).

Lemma advance_lock s t s' t' :
  reads t <= tb_readers s -> writes t <= Z.b2z (tb_writer s) -> (tb_writer s = true -> tb_readers s = 0) ->
  advance s t = Some (s', t') ->
  tb_readers s' - reads t' = tb_readers s - reads t /\
  Z.b2z (tb_writer s') - writes t' = Z.b2z (tb_writer s) - writes t /\
  (tb_writer s' = true -> tb_readers s' = 0).
Proof.
  destruct t as [[|[key amounts] calls] pc]; [done|]. cbn [advance fst]. intros Hr Hw He Ha.
  assert (reads (calls, Idle) = 0 /\ writes (calls, Idle) = 0) as [Hr0 Hw0] by by destruct calls.
  destruct pc as [| |ex j| |]; cbn [reads writes] in Hr, Hw |- *.
  - destruct (tb_writer s) eqn:E; [done|]. injection Ha as <- <-. cbn. split_and!; [lia|lia|done].
  - destruct (tb_rows s !! key); injection Ha as <- <-; cbn; split_and!; try lia; [done|].
    intros Hs. rewrite (He Hs) in Hr. lia.
  - destruct (amounts !! j); injection Ha as <- <-; [by destruct ex; cbn; split_and!|].
    rewrite Hr0, Hw0. destruct ex; cbn.
    + split_and!; [lia| |done]. destruct (tb_writer s); cbn in *; lia.
    + split_and!; [lia|lia|]. intros Hs. rewrite (He Hs) in Hr. lia.
  - destruct (tb_writer s) eqn:E; [done|]. destruct (Z.eqb_spec (tb_readers s) 0); [|done].
    injection Ha as <- <-. cbn. split_and!; [lia|lia|done].
  - injection Ha as <- <-. cbn. by split_and!.
Qed.

Lemma rows_grow s t s' t' k : advance s t = Some (s', t') -> is_Some (tb_rows s !! k) -> is_Some (tb_rows s' !! k).
Proof.
  destruct t as [[|[key amounts] calls] pc]; [done|]. cbn [advance fst]. intros Ha Hk.
  destruct pc as [| |ex j| |]; repeat case_match; simplify_eq/=; try done.
  - by apply lookup_alter_is_Some.
  - apply lookup_insert_is_Some'. by right.
Qed.

Lemma advance_rows s t s' t' :
  holds_row s t -> well_formed t -> rows_wide s -> advance s t = Some (s', t') ->
  holds_row s' t' /\ well_formed t' /\ rows_wide s'.
Proof.
  destruct t as [[|[key amounts] calls] pc]; [done|]. cbn [advance fst]. intros Hh Hf Hw Ha.
  assert (holds_row s' (calls, Idle)) as Hi by by destruct calls.
  assert (well_formed (calls, Idle)) as Hc by by apply Forall_cons in Hf as [_ ?].
  destruct pc as [| |ex j| |]; cbn [holds_row fst] in Hh.
  - destruct (tb_writer s); [done|]. by injection Ha as <- <-.
  - destruct (tb_rows s !! key) eqn:E; injection Ha as <- <-; [|done]. split_and!; [by eexists|done|done].
  - destruct (amounts !! j) as [n|]; injection Ha as <- <-; [|by destruct ex].
    split_and!; [by apply lookup_alter_is_Some|done|]. intros k row. cbn [tb_rows].
    destruct (decide (key = k)) as [->|?]; [|rewrite lookup_alter_ne by done; apply Hw].
    rewrite lookup_alter_eq. intros (row' & Hrow & ->)%fmap_Some. rewrite add_at_length. by eapply Hw.
  - destruct (_ || _); [done|]. by injection Ha as <- <-.
  - injection Ha as <- <-. split_and!; [|done|].
    + cbn. rewrite lookup_insert_eq. by eexists.
    + intros k row. cbn [tb_rows]. destruct (decide (key = k)) as [->|?]; [|rewrite lookup_insert_ne by done; apply Hw].
      rewrite lookup_insert_eq. intros [= <-]. destruct (tb_rows s !! k) eqn:E; [by eapply Hw|]. apply length_replicate.
Qed.

Lemma advance_keys s t s' t' k : holds_row s t -> advance s t = Some (s', t') ->
  is_Some (tb_rows s' !! k) \/ pending k t' <-> is_Some (tb_rows s !! k) \/ pending k t.
Proof.
  destruct t as [[|[key amounts] calls] pc]; [done|]. cbn [advance fst]. intros Hh Ha.
  assert (pending k ((key, amounts) :: calls, pc) <-> key = k \/ pending k (calls, Idle)) as Hp.
  { unfold pending. cbn [fst]. setoid_rewrite elem_of_cons. naive_solver. }
  assert (forall pc', pending k ((key, amounts) :: calls, pc') <-> key = k \/ pending k (calls, Idle)) as Hp' by done.
  destruct pc as [| |ex j| |]; cbn [holds_row fst] in Hh.
  - destruct (tb_writer s); [done|]. by injection Ha as <- <-.
  - by destruct (tb_rows s !! key); injection Ha as <- <-.
  - destruct (amounts !! j) as [n|]; injection Ha as <- <-.
    + cbn [tb_rows]. by rewrite lookup_alter_is_Some.
    + rewrite Hp. assert (tb_rows (if ex then mkTable (tb_rows s) (tb_readers s) false
        else mkTable (tb_rows s) (tb_readers s - 1) (tb_writer s)) = tb_rows s) as -> by by destruct ex.
      split; [tauto|]. intros [?|[<-|?]]; [by left|by left|by right].
  - destruct (_ || _); [done|]. by injection Ha as <- <-.
  - injection Ha as <- <-. cbn [tb_rows]. rewrite !Hp', lookup_insert_is_Some'. tauto.
Qed.

(** ** Every reachable state *)

Lemma reads_nonneg ts : Forall (fun t : Thread => 0 <= reads t) ts.
Proof. apply Forall_forall. intros [[|c calls] [| |[]| |]] _; cbn; lia. Qed.

Lemma writes_nonneg ts : Forall (fun t : Thread => 0 <= writes t) ts.
Proof. apply Forall_forall. intros [[|c calls] [| |[]| |]] _; cbn; lia. Qed.

Lemma insert_exists {A} (P : A -> Prop) (l : list A) i x y (Q Q' : Prop) :
  l !! i = Some x -> (Q' \/ P y <-> Q \/ P x) ->
  (Q -> Q') ->
  (Q' \/ (exists j z, <[i := y]> l !! j = Some z /\ P z) <-> Q \/ (exists j z, l !! j = Some z /\ P z)).
Proof.
  intros Hi HPQ Hgrow. assert (i < length l)%nat as Hlt by by eapply lookup_lt_Some. split.
  - intros [Hq|(j & z & Hj & Hz)].
    + destruct HPQ as [HPQ _]. destruct (HPQ (or_introl Hq)) as [?|?]; [by left|right; by exists i, x].
    + destruct (decide (i = j)) as [<-|Hij].
      * rewrite list_lookup_insert_eq in Hj by done. injection Hj as <-.
        destruct HPQ as [HPQ _]. destruct (HPQ (or_intror Hz)) as [?|?]; [by left|right; by exists i, x].
      * rewrite list_lookup_insert_ne in Hj by done. right. by exists j, z.
  - intros [Hq|(j & z & Hj & Hz)]; [left; by apply Hgrow|].
    destruct (decide (i = j)) as [<-|Hij].
    + rewrite Hi in Hj. injection Hj as <-. destruct HPQ as [_ HPQ].
      destruct (HPQ (or_intror Hz)) as [?|?]; [by left|]. right. exists i, y. by rewrite list_lookup_insert_eq.
    + right. exists j, z. by rewrite list_lookup_insert_ne.
Qed.

Lemma wstep_ok jobs w w' : table_ok jobs w -> wstep w w' -> table_ok jobs w'.
Proof.
  intros [Hc Hu Hr Hw He Hh Hwide Hf Hk] Hs. destruct Hs as [s ts i t s' t' Hi Ha]. cbn [fst snd] in *.
  pose proof (sum_of_elem reads ts i t (reads_nonneg ts) Hi) as Hrt.
  pose proof (sum_of_elem writes ts i t (writes_nonneg ts) Hi) as Hwt.
  pose proof (proj1 (Forall_lookup _ _) Hh i t Hi) as Hht. pose proof (proj1 (Forall_lookup _ _) Hf i t Hi) as Hft.
  destruct (advance_lock s t s' t') as (Hr' & Hw' & He'); [lia|lia|done|done|].
  destruct (advance_rows s t s' t' Hht Hft Hwide Ha) as (Hh' & Hf' & Hwide').
  assert (forall k j, wrap64 (counter s' k j + remaining k j t') = wrap64 (counter s k j + remaining k j t) /\
    is_u64 (counter s' k j)) as Hcount by (intros k j; by apply advance_counts).
  split; cbn [fst snd].
  - intros k j. rewrite (sum_of_insert (remaining k j) ts i t t' Hi), <-Hc.
    destruct (Hcount k j) as [Heq _]. unfold wrap64 in *.
    replace (counter s' k j + (sum_of (remaining k j) ts - remaining k j t + remaining k j t'))
      with ((counter s' k j + remaining k j t') + (sum_of (remaining k j) ts - remaining k j t)) by lia.
    rewrite <-Zplus_mod_idemp_l, Heq, Zplus_mod_idemp_l. f_equal. lia.
  - intros k j. apply Hcount.
  - rewrite (sum_of_insert reads ts i t t' Hi). lia.
  - rewrite (sum_of_insert writes ts i t t' Hi). lia.
  - done.
  - apply Forall_insert; [|done]. eapply Forall_impl; [exact Hh|].
    intros [[|c calls] pc]; [done|]. destruct pc; try done. cbn. by apply rows_grow with t t'.
  - done.
  - by apply Forall_insert.
  - intros k. rewrite <-Hk. eapply insert_exists; [done|by apply advance_keys|by apply rows_grow with t t'].
Qed.

Lemma sum_of_fmap {A B} (f : B -> Z) (g : A -> B) l : sum_of f (g <$> l) = sum_of (fun x => f (g x)) l.
Proof. induction l as [|x l IH]; [done|]. rewrite fmap_cons, !sum_of_cons, IH. done. Qed.

Lemma wstart_ok jobs : Forall (Forall (fun c : Call => length c.2 = width)) jobs -> table_ok jobs (wstart jobs).
Proof.
  intros Hj. unfold wstart. split; cbn [fst snd tb_readers tb_writer tb_rows Z.b2z].
  - intros k i. rewrite sum_of_fmap. unfold counter. cbn [tb_rows]. rewrite lookup_empty. cbn [mbind option_bind default].
    f_equal. rewrite Z.add_0_l. apply sum_of_ext. intros. apply remaining_idle.
  - done.
  - rewrite sum_of_fmap. induction jobs as [|c jobs IH]; [done|]. rewrite sum_of_cons.
    apply Forall_cons in Hj as [_ Hj]. rewrite <-IH by done. by destruct c.
  - rewrite sum_of_fmap. induction jobs as [|c jobs IH]; [done|]. rewrite sum_of_cons.
    apply Forall_cons in Hj as [_ Hj]. rewrite <-IH by done. by destruct c.
  - done.
  - apply Forall_fmap, Forall_forall. by intros [|].
  - done.
  - by apply Forall_fmap.
  - intros k. rewrite lookup_empty. split.
    + intros [[? ?]|(j & t & Hl & c & Hc & Hk)]; [done|]. apply list_lookup_fmap_Some in Hl as (calls & -> & Hl).
      exists c. split; [|done]. apply list_elem_of_In, in_concat. exists calls.
      split; apply list_elem_of_In; [by eapply list_elem_of_lookup_2|done].
    + intros (c & Hc%list_elem_of_In & Hk). apply in_concat in Hc as (calls & Hl & Hc).
      apply list_elem_of_In, list_elem_of_lookup_1 in Hl as [j Hl]. right. exists j, (calls, Idle).
      split; [by rewrite list_lookup_fmap, Hl|]. exists c. split; [by apply list_elem_of_In|done].
Qed.

Lemma reachable_ok jobs w :
  Forall (Forall (fun c : Call => length c.2 = width)) jobs -> rtc wstep (wstart jobs) w -> table_ok jobs w.
Proof.
  intros Hj%wstart_ok Hw. induction Hw as [w|w w1 w2 Hs _ IH]; [done|]. apply IH. by eapply wstep_ok.
Qed.

(** ** A call alone, and all of them in any order *)

Lemma add_row_lookup amounts row i :
  length amounts = width -> length row = width ->
  add_row amounts row !! i = (fun c => wrap64 (c + default 0 (amounts !! i))) <$> row !! i.
Proof.
  intros Ha Hr. unfold add_row. rewrite lookup_zip_with. destruct (row !! i) as [c|] eqn:E; [|done]. cbn.
  destruct (lookup_lt_is_Some_2 amounts i) as [n Hn]; [|by rewrite Hn].
  rewrite Ha, <-Hr. by eapply lookup_lt_Some.
Qed.

(** The row of a key after some calls, one after the other. *)
Definition row_of (k : K) (calls : list Call) : list Z := (fun i => wrap64 (total k i calls)) <$> seq 0 width.

Lemma row_of_lookup k calls i : (i < width)%nat -> row_of k calls !! i = Some (wrap64 (total k i calls)).
Proof. intros Hi. unfold row_of. rewrite list_lookup_fmap, lookup_seq_lt by done. done. Qed.

Lemma row_of_length k calls : length (row_of k calls) = width.
Proof. unfold row_of. by rewrite length_fmap, length_seq. Qed.

Lemma total_app k i a b : total k i (a ++ b) = total k i a + total k i b.
Proof. unfold total. induction a as [|c a IH]; [done|]. cbn [app]. rewrite !sum_of_cons, IH. lia. Qed.

Lemma total_absent k i calls : (forall c, c ∈ calls -> c.1 <> k) -> total k i calls = 0.
Proof.
  unfold total. induction calls as [|c calls IH]; intros Hc; [done|]. rewrite sum_of_cons, IH by (intros; apply Hc; by right).
  unfold amount. rewrite bool_decide_false; [done|]. apply Hc. by left.
Qed.

Lemma called k (calls : list Call) : k ∈ calls.*1 <-> exists c, c ∈ calls /\ c.1 = k.
Proof. rewrite list_elem_of_fmap. naive_solver. Qed.

Lemma row_of_fresh k calls : k ∉ calls.*1 -> row_of k calls = replicate width 0.
Proof.
  intros Hk. apply list_eq_same_length with width; [by rewrite length_replicate|by rewrite row_of_length|].
  intros i x y Hi. rewrite row_of_lookup by done. rewrite lookup_replicate_2 by done.
  rewrite total_absent; [by intros [= <-] [= <-]|]. intros c Hc Hck. apply Hk, called. by exists c.
Qed.

Lemma row_of_snoc k calls c : length c.2 = width ->
  row_of k (calls ++ [c]) = if bool_decide (c.1 = k) then add_row c.2 (row_of k calls) else row_of k calls.
Proof.
  intros Hc. apply list_eq. intros i. destruct (decide (i < width)%nat) as [Hi|Hi].
  - rewrite row_of_lookup by done. rewrite total_app. unfold total at 2. rewrite sum_of_cons. cbn [sum_of foldr].
    unfold amount at 1. case_bool_decide as Hk.
    + rewrite add_row_lookup by (done || apply row_of_length). rewrite row_of_lookup by done. cbn [fmap option_fmap option_map].
      rewrite wrap64_add. do 2 f_equal. cbn. lia.
    + rewrite row_of_lookup by done. do 2 f_equal. cbn. lia.
  - rewrite !(proj2 (lookup_ge_None _ _)); [done| |rewrite row_of_length; lia].
    case_bool_decide; [unfold add_row; rewrite length_zip_with|]; rewrite row_of_length; lia.
Qed.

Lemma recorded calls k :
  Forall (fun c : Call => length c.2 = width) calls ->
  fold_left record calls ∅ !! k = if bool_decide (k ∈ calls.*1) then Some (row_of k calls) else None.
Proof.
  induction calls as [|c calls IH] using rev_ind; intros Hf; [done|].
  apply Forall_app in Hf as [Hf [Hc _]%Forall_cons]. rewrite fold_left_app. cbn [fold_left]. unfold record at 1.
  rewrite row_of_snoc by done. rewrite fmap_app. cbn [fmap list_fmap]. destruct (decide (c.1 = k)) as [<-|Hk].
  - rewrite lookup_insert_eq. rewrite !(bool_decide_eq_true_2 (c.1 = c.1)) by done.
    rewrite (bool_decide_eq_true_2 (_ ∈ _ ++ _)) by (apply elem_of_app; right; by left).
    rewrite IH by done. case_bool_decide as Hin; [done|]. cbn [default]. by rewrite row_of_fresh.
  - rewrite lookup_insert_ne by done. rewrite (bool_decide_eq_false_2 (c.1 = k)) by done. rewrite IH by done.
    destruct (decide (k ∈ calls.*1)) as [Hin|Hin].
    + rewrite !bool_decide_eq_true_2; [done|apply elem_of_app; by left|done].
    + rewrite !bool_decide_eq_false_2; [done| |done]. rewrite elem_of_app, elem_of_cons.
      intros [?|[?|[]%elem_of_nil]]; [done|congruence].
Qed.

(** ** Progress *)

Definition waiting (t : Thread) : bool :=
  match t with ([], _) | (_, Idle) | (_, Missed) => true | _ => false end.

Lemma advance_busy s t : waiting t <> true -> is_Some (advance s t).
Proof.
  destruct t as [[|[key amounts] calls] [| |ex j| |]]; cbn; intros Hw; try done.
  - destruct (tb_rows s !! key); by eexists.
  - destruct (amounts !! j); by eexists.
Qed.

(** A thread that waits has calls left, and the lock is free. *)
Lemma advance_free s t : waiting t = true -> t.1 <> [] -> tb_readers s = 0 -> tb_writer s = false -> is_Some (advance s t).
Proof.
  destruct t as [[|[key amounts] calls] [| |ex j| |]]; cbn; intros Hw Hc Hr Hs; try done; rewrite Hs; [by eexists|].
  rewrite Hr. by eexists.
Qed.

Lemma waiting_free ts : Forall (fun t : Thread => waiting t = true) ts -> sum_of reads ts = 0 /\ sum_of writes ts = 0.
Proof.
  induction 1 as [|t ts Ht _ [IH1 IH2]]; [done|]. rewrite !sum_of_cons, IH1, IH2.
  by destruct t as [[|c calls] [| |[]| |]].
Qed.

Lemma wstep_progress jobs w : table_ok jobs w -> (exists w', wstep w w') \/ Forall (fun t => t.1 = []) w.2.
Proof.
  intros [_ _ Hr Hw _ _ _ _ _]. destruct w as [s ts]. cbn [fst snd] in *.
  assert (forall i t, ts !! i = Some t -> is_Some (advance s t) -> exists w', wstep (s, ts) w') as Hstep.
  { intros i t Hi [[s' t'] Ha]. eexists. by econstructor. }
  destruct (decide (Forall (fun t : Thread => waiting t = true) ts)) as [Hall|Hno].
  - destruct (decide (Forall (fun t : Thread => t.1 = []) ts)) as [|Hsome]; [by right|left].
    apply not_Forall_Exists, Exists_exists in Hsome as (t & [i Hi]%list_elem_of_lookup & Ht); [|apply _].
    pose proof (waiting_free ts Hall) as [H1 H2]. apply (Hstep i t Hi), advance_free.
    + by apply (proj1 (Forall_lookup _ _) Hall i t).
    + done.
    + lia.
    + destruct (tb_writer s); [|done]. cbn in Hw. lia.
  - left. apply not_Forall_Exists, Exists_exists in Hno as (t & [i Hi]%list_elem_of_lookup & Ht); [|apply _].
    by apply (Hstep i t Hi), advance_busy.
Qed.

(** How many steps a thread has left. *)
Definition steps_left (t : Thread) : Z :=
  match t with
  | ([], _) => 0
  | (_ :: calls, pc) =>
      Z.of_nat (length calls) * (Z.of_nat width + 5) +
      match pc with
      | Idle => Z.of_nat width + 5
      | Reading => Z.of_nat width + 4
      | Missed => Z.of_nat width + 3
      | Writing => Z.of_nat width + 2
      | Adding _ i => Z.of_nat (width - i) + 1
      end
  end.

Lemma steps_left_nonneg t : 0 <= steps_left t.
Proof. destruct t as [[|c calls] []]; cbn; lia. Qed.

Lemma advance_steps s t s' t' : well_formed t -> advance s t = Some (s', t') -> steps_left t' < steps_left t.
Proof.
  destruct t as [[|[key amounts] calls] pc]; [done|]. cbn [advance fst]. intros Hf Ha.
  apply Forall_cons in Hf as [Hlen _]. cbn in Hlen.
  destruct pc as [| |ex j| |].
  - destruct (tb_writer s); [done|]. injection Ha as <- <-. cbn. lia.
  - destruct (tb_rows s !! key); injection Ha as <- <-; cbn; lia.
  - destruct (amounts !! j) as [n|] eqn:En; injection Ha as <- <-.
    + apply lookup_lt_Some in En. cbn. lia.
    + destruct calls as [|c calls]; cbn; lia.
  - destruct (_ || _); [done|]. injection Ha as <- <-. cbn. lia.
  - injection Ha as <- <-. cbn. lia.
Qed.

Lemma run_bound jobs n w : table_ok jobs w -> forall w', nsteps wstep n w w' ->
  Z.of_nat n + sum_of steps_left w'.2 <= sum_of steps_left w.2.
Proof.
  intros Hok w' Hn. revert Hok. induction Hn as [w|n w w1 w2 Hs _ IH]; intros Hok; [lia|].
  pose proof (wstep_ok _ _ _ Hok Hs) as Hok1. specialize (IH Hok1). destruct Hs as [s ts i t s' t' Hi Ha]. cbn [snd] in *.
  rewrite (sum_of_insert steps_left ts i t t' Hi) in IH.
  pose proof (advance_steps s t s' t' (proj1 (Forall_lookup _ _) (tk_formed _ _ Hok) i t Hi) Ha). lia.
Qed.

Lemma start_steps jobs :
  sum_of steps_left (wstart jobs).2 = Z.of_nat (length (concat jobs)) * (Z.of_nat width + 5).
Proof.
  cbn [wstart snd]. rewrite sum_of_fmap. induction jobs as [|calls jobs IH]; [done|].
  rewrite sum_of_cons, IH. cbn [concat]. rewrite length_app. destruct calls; cbn [steps_left length]; lia.
Qed.

(** ** The counters of a process *)

Lemma total_concat k i jobs : sum_of (total k i) jobs = total k i (concat jobs).
Proof. induction jobs as [|c jobs IH]; [done|]. cbn [concat]. by rewrite sum_of_cons, total_app, IH. Qed.

Lemma all_done_rows jobs w :
  Forall (Forall (fun c : Call => length c.2 = width)) jobs -> table_ok jobs w -> Forall (fun t : Thread => t.1 = []) w.2 ->
  tb_rows w.1 = fold_left record (concat jobs) ∅.
Proof.
  intros Hj [Hc Hu _ _ _ _ Hwide _ Hk] Hd. destruct w as [s ts]. cbn [fst snd] in *.
  assert (forall k i, sum_of (remaining k i) ts = 0) as Hrem.
  { intros k i. clear -Hd. induction Hd as [|[calls pc] ts Ht _ IH]; [done|]. cbn in Ht. subst.
    by rewrite sum_of_cons, IH. }
  apply map_eq. intros k. rewrite recorded by by apply Forall_concat.
  assert (is_Some (tb_rows s !! k) <-> k ∈ (concat jobs).*1) as Hdom.
  { rewrite called, <-Hk. split; [by left|]. intros [?|(j & t & Hl & c & Hin & _)]; [done|].
    rewrite (proj1 (Forall_lookup _ _) Hd j t Hl) in Hin. by apply elem_of_nil in Hin. }
  destruct (tb_rows s !! k) as [row|] eqn:E.
  - rewrite bool_decide_eq_true_2 by (by apply Hdom). f_equal. apply list_eq. intros i.
    destruct (decide (i < width)%nat) as [Hi|Hi].
    + rewrite row_of_lookup by done. specialize (Hc k i). rewrite Hrem, Z.add_0_r, total_concat, wrap64_id in Hc by done.
      rewrite <-Hc. unfold counter. rewrite E. cbn.
      destruct (lookup_lt_is_Some_2 row i) as [x Hx]; [by rewrite (Hwide k row E)|]. by rewrite Hx.
    + rewrite !(proj2 (lookup_ge_None _ _)); [done|rewrite row_of_length; lia|rewrite (Hwide k row E); lia].
  - rewrite bool_decide_eq_false_2; [done|]. intros Hin%Hdom. by destruct Hin.
Qed.
End table.

Section theorem.
Context {K : Type} `{Countable K} (width : nat).

(** C18: No count is lost.  However the tasks of the process interleave on a
    table of counters, a call of every one of them is over after at most five steps
    and one per counter, some task can always go on while any has a call left, and
    when none has, each row is exactly what the calls made one after the other in
    any order leave: two tasks that both miss a new key make one row and both count
    in it. *)
Theorem no_count_is_lost (jobs : list (list (Call (K := K)))) n w :
  Forall (Forall (fun c : Call => length c.2 = width)) jobs -> nsteps (wstep width) n (wstart jobs) w ->
  Z.of_nat n <= Z.of_nat (length (concat jobs)) * (Z.of_nat width + 5) /\
  ((exists w', wstep width w w') \/
   (Forall (fun t => t.1 = []) w.2 /\ tb_readers w.1 = 0 /\ tb_writer w.1 = false /\
    forall calls, calls ≡ₚ concat jobs -> tb_rows w.1 = fold_left (record width) calls ∅)).
Proof.
  intros Hj Hn. pose proof (reachable_ok width jobs w Hj (proj2 (rtc_nsteps _ _) (ex_intro _ n Hn))) as Hok.
  split.
  { pose proof (run_bound width jobs n _ (wstart_ok width jobs Hj) w Hn) as Hb. rewrite start_steps in Hb.
    assert (0 <= sum_of (steps_left width) w.2); [|lia]. apply sum_of_nonneg, Forall_forall. intros. apply steps_left_nonneg. }
  destruct (wstep_progress width jobs w Hok) as [|Hd]; [by left|right]. split; [done|].
  pose proof (all_done_rows width jobs w Hj Hok Hd) as Hrows. destruct Hok as [_ _ Hr Hw _ _ _ _ _].
  assert (sum_of reads w.2 = 0 /\ sum_of writes w.2 = 0) as [Hr0 Hw0].
  { apply waiting_free. eapply Forall_impl; [exact Hd|]. by intros [[|] ?]. }
  split; [lia|]. split; [destruct (tb_writer w.1); [cbn in Hw; lia|done]|].
  intros calls Hp. rewrite Hrows. apply map_eq. intros k.
  assert (Forall (fun c : Call => length c.2 = width) (concat jobs)) as Hf by by apply Forall_concat.
  rewrite !recorded by (rewrite ?Hp; done). rewrite (bool_decide_ext (k ∈ calls.*1) (k ∈ (concat jobs).*1)) by by rewrite Hp.
  destruct (bool_decide _); [|done]. f_equal. unfold row_of. apply list_fmap_ext. intros i ? _. f_equal.
  unfold total. clear -Hp. induction Hp; rewrite ?sum_of_cons; lia.
Qed.
End theorem.

(** Two tasks count a packet each for a command nobody has sent: both miss, one
    after the other makes the row. *)
Definition demo_jobs : list (list (Call (K := string))) := [[("Say"%string, [1])]; [("Say"%string, [1])]].

(** Any thread that can, in turn. *)
Fixpoint drive (fuel : nat) (w : World (K := string)) : World (K := string) :=
  match fuel with
  | O => w
  | S fuel =>
      let '(s, ts) := w in
      match ts with
      | [a; b] =>
          match advance 1 s a with
          | Some (s, a) =>
              match advance 1 s b with
              | Some (s, b) => drive fuel (s, [a; b])
              | None => drive fuel (s, [a; b])
              end
          | None => match advance 1 s b with Some (s, b) => drive fuel (s, [a; b]) | None => w end
          end
      | _ => w
      end
  end.

Example demo_both_counted : tb_rows (drive 12 (wstart demo_jobs)).1 !! "Say"%string = Some [2].
Proof. vm_compute. reflexivity. Qed.

Lemma no_count_is_lost_witness :
  tb_rows (drive 12 (wstart demo_jobs)).1 = {["Say"%string := [2]]} /\
  (forall n w, nsteps (wstep 1) n (wstart demo_jobs) w -> Z.of_nat n <= 12).
Proof.
  split; [vm_compute; reflexivity|]. intros n w Hn.
  refine (proj1 (no_count_is_lost 1 demo_jobs n w _ Hn)). repeat constructor.
Defined.

(** ** The methods that have a label *)

Definition known_method (method : string) : string :=
  if existsb (str_eqb method) ["GET"; "POST"; "PUT"; "PATCH"; "DELETE"; "HEAD"; "OPTIONS"]%string then method else "other".

(** ** What is counted: the key of each call and what it adds *)

Module Calls.

Definition record_packet (slot : option (Z * Z)) (cmd : string) : Call (K := option (Z * Z) * string) := ((slot, cmd), [1]).

Definition record_bytes_in (slot : option (Z * Z)) (bytes : Z) : Call (K := option (Z * Z)) := (slot, [bytes]).

Definition record_packet_out (cmd : string) : Call (K := string) := (cmd, [1]).

(** The frames and the bytes. *)
Definition record_delivery (slot : option (Z * Z)) (bytes : Z) : Call (K := option (Z * Z)) := (slot, [1; bytes]).

Definition record_client_deflate (key : Z * Z) (deflate : bool) : Call (K := Z * Z * bool) := ((key, deflate), [1]).

Definition record_http (route method : string) (status request_bytes response_bytes : Z) : Call (K := string * string * Z) :=
  ((route, known_method method, status), [1; request_bytes; response_bytes]).

Definition record_failure (op : string) : Call (K := string) := (op, [1]).

(** A count of zero makes no row. *)
Definition record_redundant {Kind} (key : Z * Z) (kind : Kind) (count : Z) : option (Call (K := Z * Z * Kind)) :=
  if count =? 0 then None else Some ((key, kind), [count]).

Definition record_drop (key : DropKey) : Call (K := DropKey) := (key, [1]).

End Calls.

(** The gauges that are an atomic each: the mailbox, as its depth and the deepest it
    was, and the operations of the data store, as how many, their nanoseconds and the
    most of one. *)
Definition record_mailbox_depth (depth : Z) (mailbox : Z * Z) : Z * Z := (depth, Z.max mailbox.2 depth).

Definition record_apply (elapsed : Z) (stats : Z * Z * Z) : Z * Z * Z :=
  let nanos := Z.min elapsed u64_max in
  let '(applied, total, worst) := stats in
  (wrap64 (applied + 1), wrap64 (total + nanos), Z.max worst nanos).

(** ** What the process costs, from [/proc] *)

(** [s.rsplit_once(c)]: around the last one. *)
Fixpoint rsplit_once (c : ascii) (s : string) : option (string * string) :=
  match s with
  | EmptyString => None
  | String d s =>
      match rsplit_once c s with
      | Some (a, b) => Some (String d a, b)
      | None => if Ascii.eqb d c then Some (EmptyString, s) else None
      end
  end.

Definition proc_stat_fields (stat : string) : option (list string) :=
  split_whitespace ∘ snd <$> rsplit_once ")" stat.

Definition parse_u64 : string -> option Z := parse_within 0 u64_max.

(** The ticks of user and system time, [utime + stime]: their sum overflows in
    theory only, and then wraps. *)
Definition cpu_ticks (stat : string) : option Z :=
  fields ← proc_stat_fields stat;
  utime ← (fields !! 11%nat ≫= parse_u64);
  stime ← (fields !! 12%nat ≫= parse_u64);
  Some (wrap64 (utime + stime)).

Definition start_ticks (stat : string) : option Z :=
  fields ← proc_stat_fields stat; fields !! 19%nat ≫= parse_u64.

(** [/proc/self/statm], the pages in its second field. *)
Definition resident_bytes (statm : string) : option Z :=
  pages ← (split_whitespace statm !! 1%nat ≫= parse_u64); Some (wrap64 (pages * 4096)).

(** [CLOCK_TICKS] is 100 a second. *)
Definition CLOCK_TICKS : f64 := f64_of_Z 100.

Definition cpu_seconds (stat : string) : option f64 :=
  (fun ticks => f64_div (f64_of_Z ticks) CLOCK_TICKS) <$> cpu_ticks stat.

(** [s.lines()], but for a carriage return before the end of a line. *)
Fixpoint lines_go (current s : string) : list string :=
  match s with
  | EmptyString => match current with EmptyString => [] | _ => [current] end
  | String c s =>
      if Ascii.eqb c (ascii_of_nat 10) then current :: lines_go EmptyString s
      else lines_go (String.append current (String c EmptyString)) s
  end.

(** [btime] of [/proc/stat], the first line that has one. *)
Fixpoint boot_time (lines : list string) : option Z :=
  match lines with
  | [] => None
  | line :: lines =>
      match strip_str "btime " line ≫= (fun rest => parse_u64 (trim rest)) with
      | Some secs => Some secs
      | None => boot_time lines
      end
  end.

Definition start_time_seconds (stat proc_stat : string) : option f64 :=
  ticks ← start_ticks stat;
  btime ← boot_time (lines_go EmptyString proc_stat);
  Some (f64_add (f64_of_Z btime) (f64_div (f64_of_Z ticks) CLOCK_TICKS)).

Fixpoint no_char (c : ascii) (s : string) : bool :=
  match s with EmptyString => true | String d s => negb (Ascii.eqb d c) && no_char c s end.

Definition field_ok (w : string) : Prop :=
  w <> EmptyString /\ ascii_only w = true /\ Forall (fun c => is_whitespace c = false) (ascii_chars w) /\
  no_char ")" w = true.

Definition spaced (fields : list string) : string :=
  foldr (fun w s => String.append " " (String.append w s)) EmptyString fields.

Lemma rsplit_none c s : no_char c s = true -> rsplit_once c s = None.
Proof.
  induction s as [|d s IH]; [done|]. cbn. intros [Hd Hs]%andb_true_iff. rewrite (IH Hs). by apply negb_true_iff in Hd as ->.
Qed.

Lemma rsplit_last c a b : no_char c b = true -> rsplit_once c (String.append a (String c b)) = Some (a, b).
Proof.
  intros Hb. induction a as [|d a IH].
  - change (String.append EmptyString (String c b)) with (String c b). cbn [rsplit_once].
    by rewrite (rsplit_none c b Hb), Ascii.eqb_refl.
  - change (match rsplit_once c (String.append a (String c b)) with
            | Some (a, b) => Some (String d a, b)
            | None => if Ascii.eqb d c then Some (EmptyString, String.append a (String c b)) else None
            end = Some (String d a, b)). by rewrite IH.
Qed.

Lemma no_char_append c a b : no_char c (String.append a b) = no_char c a && no_char c b.
Proof. induction a as [|d a IH]; [done|]. change (String.append (String d a) b) with (String d (String.append a b)).
  cbn [no_char]. by rewrite IH, andb_assoc. Qed.

Lemma spaced_no_paren fields : Forall field_ok fields -> no_char ")" (spaced fields) = true.
Proof.
  induction 1 as [|w ws (_ & _ & _ & Hw) _ IH]; [done|]. cbn [spaced foldr]. rewrite !no_char_append, Hw. exact IH.
Qed.

Lemma words_go_word current p l :
  Forall (fun c => is_whitespace c = false) (ascii_chars p) ->
  words_go current (ascii_chars p ++ l) = words_go (String.append current p) l.
Proof.
  revert current. induction p as [|a p IH]; intros current Hp; [by rewrite append_nil|].
  cbn [ascii_chars] in Hp. apply Forall_cons in Hp as [Ha Hp].
  change (ascii_chars (String a p) ++ l) with (String a EmptyString :: (ascii_chars p ++ l)). cbn [words_go].
  rewrite Ha, IH by done. f_equal.
  clear. induction current as [|c s IH]; [done|]. exact (f_equal (String c) IH).
Qed.

Lemma starts_ascii w s : ascii_only w = true -> starts_char s = true -> starts_char (String.append w s) = true.
Proof.
  destruct w as [|a w]; [done|]. intros [Ha _]%andb_true_iff _. apply Z.ltb_lt in Ha.
  apply negb_true_iff, andb_false_iff. left. apply Z.leb_gt. exact Ha.
Qed.

Lemma words_spaced fields : Forall field_ok fields -> forall current,
  words_go current (chars (spaced fields)) = (if str_eqb current EmptyString then [] else [current]) ++ fields.
Proof.
  induction 1 as [|w ws (Hne & Hw & Hs & _) Hws IH]; intros current; [cbn; by rewrite app_nil_r|].
  cbn [spaced foldr]. fold (spaced ws). assert (starts_char (spaced ws) = true) as Hst by by destruct ws.
  rewrite (chars_append " ") by (done || by apply starts_ascii). rewrite (chars_append w) by done.
  change (ascii_chars " " ++ ascii_chars w ++ chars (spaced ws)) with (" "%string :: (ascii_chars w ++ chars (spaced ws))).
  cbn [words_go]. change (is_whitespace " ") with true. cbn iota. rewrite words_go_word by exact Hs.
  change (String.append EmptyString w) with w. rewrite IH. unfold str_eqb. rewrite (bool_decide_eq_false_2 (w = _)) by done.
  by case_bool_decide.
Qed.

(** The line of the kernel for a process number, a command and the fields after it. *)
Definition stat_line (pid command : string) (fields : list string) : string :=
  String.append (String.append pid (String.append " (" command)) (String ")" (spaced fields)).

(** The fields are those after the command, whatever spaces and parentheses it
    holds. *)
Lemma stat_fields pid command fields :
  Forall field_ok fields -> proc_stat_fields (stat_line pid command fields) = Some fields.
Proof.
  intros Hf. unfold proc_stat_fields, stat_line. rewrite rsplit_last by by apply spaced_no_paren. cbn.
  unfold split_whitespace. f_equal. by apply (words_spaced fields Hf EmptyString).
Qed.

Example hostile_command :
  proc_stat_fields "42 (yacht (dice) roller) S 1 42" = Some ["S"; "1"; "42"]%string.
Proof. vm_compute. reflexivity. Qed.
