(* ===== verification/Exposition.v ===== *)
(** * [crates/pahoa-net/src/http/status.rs]: the metrics a scraper reads

    [prometheus]: the figures of a room and of its process as families of the text
    exposition, each with its help, its type and its samples, and the text they are
    written as.  A label that holds a name of the seed goes through [label]. *)

From Stdlib Require Import ZArith Lia Bool Ascii SpecFloat.
From stdpp Require Import base tactics numbers list strings gmap pretty sorting.
From S2P Require Import Prelude PyRandom Locations Types Multidata Text Hints Json Packets Filter Effects Room RoomStore.
From S2P Require Import Http Metrics Report.
From S2P Require Journal.

Abbreviation quote := Journal.quote.
Abbreviation newline := Journal.newline.

(** ** Orders of rows

    The key a table is sorted by, as lists of numbers in the order of lists. *)

Fixpoint compare_list {A} (cmp : A -> A -> comparison) (a b : list A) : comparison :=
  match a, b with
  | [], [] => Eq
  | [], _ => Lt
  | _, [] => Gt
  | x :: a, y :: b => match cmp x y with Eq => compare_list cmp a b | c => c end
  end.

Definition SortKey : Type := list (list Z).
Definition key_compare : SortKey -> SortKey -> comparison := compare_list (compare_list Z.compare).
Definition sort_key_le (a b : SortKey) : Prop := key_compare a b <> Gt.

#[export] Instance sort_key_le_dec a b : Decision (sort_key_le a b).
Proof. unfold sort_key_le. apply _. Defined.

Definition sort_on {A} (key : A -> SortKey) (l : list A) : list A :=
  merge_sort (fun a b => sort_key_le (key a) (key b)) l.

Definition text_key (s : string) : list Z := (fun c => Z.of_N (N_of_ascii c)) <$> String.list_ascii_of_string s.
Definition slot_key (k : SlotKey) : SortKey := [[k.1; k.2]].
(** [None] comes first. *)
Definition held_key (k : option SlotKey) : SortKey := match k with Some k => slot_key k | None => [[]] end.

(** ** Numbers *)

(** [m / d] to the nearest, half to even. *)
Definition nearest (n d : Z) : Z :=
  let q := n / d in
  match Z.compare (2 * (n mod d)) d with
  | Lt => q
  | Gt => q + 1
  | Eq => if Z.even q then q else q + 1
  end.

(** [format!("{:.digits$}")], for at least one digit. *)
Definition fixed_text (digits : nat) (n : Z) : string :=
  let unit := 10 ^ Z.of_nat digits in
  str_concat [pretty (n / unit); "."%string; padded digits (n mod unit)].

Definition fixed (digits : nat) (f : f64) : string :=
  let sign (s : bool) := if s then "-"%string else EmptyString in
  let unit := 10 ^ Z.of_nat digits in
  match f with
  | S754_nan => "NaN"
  | S754_infinity s => String.append (sign s) "inf"
  | S754_zero s => String.append (sign s) (fixed_text digits 0)
  | S754_finite s m e =>
      String.append (sign s)
        (fixed_text digits (if 0 <=? e then Z.pos m * 2 ^ e * unit else nearest (Z.pos m * unit) (2 ^ (- e))))
  end.

(** [seconds] of a duration. *)
Definition seconds (nanos : Z) : string := fixed 6 (secs_f64 nanos).

(** ** Labels *)

Definition MAX_LABEL : nat := 128.

Fixpoint take_bytes (n : nat) (s : string) : string :=
  match n, s with
  | S n, String c s => String c (take_bytes n s)
  | _, _ => EmptyString
  end.

(** [s.is_char_boundary(n)]. *)
Definition is_char_boundary (s : string) (n : nat) : bool :=
  match n with
  | O => true
  | _ => if (n =? String.length s)%nat then true
         else match String.get n s with Some c => negb (is_continuation c) | None => false end
  end.

(** The loop that moves [end] back to a boundary. *)
Fixpoint boundary_before (s : string) (n : nat) : nat :=
  match n with
  | O => O
  | S m => if is_char_boundary s n then n else boundary_before s m
  end.

(** [&value[..end]]. *)
Definition cut (value : string) : string :=
  take_bytes (boundary_before value (Nat.min (String.length value) MAX_LABEL)) value.

(** A byte outside ASCII is itself. *)
Definition escape_byte (c : ascii) : string :=
  if bool_decide (c = Journal.backslash_char) then String Journal.backslash_char (String Journal.backslash_char EmptyString)
  else if bool_decide (c = Journal.quote_char) then String Journal.backslash_char (String Journal.quote_char EmptyString)
  else if bool_decide (c = ascii_of_nat 10) then String Journal.backslash_char "n"
  else String c EmptyString.

Fixpoint escaped (s : string) : string :=
  match s with EmptyString => EmptyString | String c s => String.append (escape_byte c) (escaped s) end.

Definition label (value : string) : string := escaped (cut value).

(** What is written between the quotes of a label: a text of the program's as it
    is, or a value through [label]. *)
Inductive LabelText := Plain (s : string) | Named (s : string).

Definition label_text (l : LabelText) : string := match l with Plain s => s | Named s => label s end.

(** ** Families *)

Record Sample := mkSample { sm_labels : list (string * LabelText); sm_value : string }.

Record Family := mkFamily { fm_name : string; fm_help : string; fm_kind : string; fm_samples : list Sample }.

Definition metric_line (name help kind value : string) : Family := mkFamily name help kind [mkSample [] value].

Definition label_pair (l : string * LabelText) : string := str_concat [l.1; "="%string; quote; label_text l.2; quote].

Definition labels_text (ls : list (string * LabelText)) : string :=
  match ls with
  | [] => EmptyString
  | _ => str_concat ["{"%string; String.concat "," (label_pair <$> ls); "}"%string]
  end.

Definition sample_text (name : string) (s : Sample) : string :=
  str_concat [name; labels_text (sm_labels s); " "%string; sm_value s; newline].

Definition family_text (f : Family) : string :=
  String.append (str_concat ["# HELP "%string; fm_name f; " "%string; fm_help f; newline])
    (String.append (str_concat ["# TYPE "%string; fm_name f; " "%string; fm_kind f; newline])
       (str_concat (sample_text (fm_name f) <$> fm_samples f))).

Definition exposition (fs : list Family) : string := str_concat (family_text <$> fs).

Definition number (n : nat) : string := pretty (Z.of_nat n).

(** No series without a row. *)
Definition unless_empty {A} (rows : list A) (fs : list Family) : list Family :=
  match rows with [] => [] | _ => fs end.

(** ** What the room is doing *)

Definition room_families (live : Status) (budget check_idle : Z) (g : Gauges) : list Family :=
  [metric_line "pahoa_clients_connected" "Open client connections, including those that have not authenticated."%string "gauge" (number (st_clients_connected live));
   metric_line "pahoa_mailbox_depth" "Messages queued for the room actor. The bottleneck canary."%string "gauge" (pretty (g_mailbox_depth g));
   metric_line "pahoa_mailbox_peak" "Deepest the actor mailbox has been since startup."%string "gauge" (pretty (g_mailbox_peak g));
   metric_line "pahoa_lag_disconnects_total" (str_concat
         ["Connections the room decided to drop for falling behind. Counts the decision; the close "%string;
          "itself is forced out of band. Should be zero in a healthy room."%string]) "counter" (pretty (g_lag_disconnects g));
   metric_line "pahoa_outbound_queued_bytes" "Bytes queued for clients across all connections."%string "gauge" (pretty (g_queued_bytes g));
   metric_line "pahoa_outbound_peak_bytes" "Most that has ever been queued at once."%string "gauge" (pretty (g_peak_bytes g));
   metric_line "pahoa_outbound_budget_bytes" "Ceiling on queued outbound bytes."%string "gauge" (pretty budget);
   metric_line "pahoa_compressions_total" "Messages compressed. Should track broadcasts, not broadcasts times connections."%string "counter" (pretty (g_compressions g));
   metric_line "pahoa_idle_seconds" "Seconds since any client last sent a message."%string "gauge" (pretty (default 0 (idle_seconds g)));
   metric_line "pahoa_check_idle_seconds" (str_concat
         ["Seconds since any slot last registered a new location check. 0 when none ever has, "%string;
          "which `pahoa_checks_total` disambiguates."%string]) "gauge" (pretty check_idle)].

Definition save_families (live : Status) (g : Gauges) : list Family :=
  if st_saving live then
    [metric_line "pahoa_save_bytes" "Size of the most recent save."%string "gauge" (pretty (g_save_bytes g));
     metric_line "pahoa_save_duration_seconds" "Wall time of the most recent save."%string "gauge" (seconds (g_save_micros g * 1000));
     metric_line "pahoa_save_dirty" "1 when state has changed since the last save started."%string "gauge" (pretty (Z.b2z (st_save_dirty live)))] ++
    match last_save_at g with
    | Some at_ => [metric_line "pahoa_last_save_timestamp_seconds" "Unix time of the last completed save."%string "gauge" (pretty at_)]
    | None => []
    end
  else [].

Definition slot_families (live : Status) (g : Gauges) (t : Tables) : list Family :=
  let slots := st_slots live in
  [metric_line "pahoa_slots" "Player slots in this seed."%string "gauge" (number (length slots));
   metric_line "pahoa_slots_connected" "Player slots with at least one open connection."%string "gauge" (number (length (filter (fun s => (0 < ss_connections s)%nat) slots)));
   metric_line "pahoa_slots_locked" "Slots an administrator has barred from connecting."%string "gauge" (number (length (filter (fun s => ss_locked s = true) slots)));
   metric_line "pahoa_slots_filtered" "Slots with something filtering their traffic, their own rules or the room's."%string "gauge" (number (length (filter (fun s => ss_filtered s = true) slots)));
   metric_line "pahoa_filtered_from_slots_total" "Messages dropped because a slot's filter matched what it sent."%string "counter" (pretty (dropped_total FromSlot t));
   metric_line "pahoa_filtered_to_slots_total" (str_concat
         ["Messages dropped because a filter matched what a slot would receive. Counted per "%string;
          "recipient connection, so one broadcast filtered for forty slots is forty, and eighty if "%string;
          "each also has a tracker attached. pahoa_filtered_from_slots_total is counted once per "%string;
          "message instead, because that is where its decision is."%string]) "counter" (pretty (dropped_total ToSlot t));
   metric_line "pahoa_checks_total" "Locations checked across every slot."%string "gauge" (pretty (wrap64 (sum_of (fun s => Z.of_nat (ss_checks s)) slots)));
   metric_line "pahoa_checks_possible" "Locations that exist across every slot."%string "gauge" (pretty (wrap64 (sum_of (fun s => Z.of_nat (ss_total_checks s)) slots)));
   metric_line "pahoa_admin_auth_failures_total" (str_concat
         ["Admin requests with a wrong or missing bearer token. Its own counter rather than a "%string;
          "status filter, because pahoa_http_requests_total{status="%string;
          quote;
          "401"%string;
          quote;
          "} also carries the tracker's gate."%string]) "counter" (pretty (g_auth_failures g));
   metric_line "pahoa_admin_auth_rate_limited_total" (str_concat
         ["Admin requests answered 429 because that source had already failed too often. A correct "%string;
          "token is never refused, so this counts only sources that were guessing."%string]) "counter" (pretty (g_auth_rate_limited g));
   metric_line "pahoa_shard_overflow_total" (str_concat
         ["Frames a fan-out shard's inbox had no room for. Each one disconnects whoever it was for "%string;
          "(one connection for a directed send, every connection on that shard for a broadcast) "%string;
          "because a lost frame would otherwise leave a client silently out of sync with the room. "%string;
          "Should be zero; if it is not, the shard queue is too shallow for the load. Not the same "%string;
          "as pahoa_lag_disconnects_total, which is a client that could not keep up rather than a "%string;
          "server that could not."%string]) "counter" (pretty (g_shard_overflow g));
   metric_line "pahoa_shard_sweeps_total" (str_concat
         ["Times a shard closed every connection it owns because a broadcast for them was dropped. "%string;
          "Read against pahoa_shard_overflow_total: a full inbox refuses a broadcast on every "%string;
          "attempt, but a sweep only has work once per population, so overflows count how far past "%string;
          "the first failure the load went while this counts how many times people were actually "%string;
          "disconnected. Multiply by the connections per shard for the number of players affected."%string]) "counter" (pretty (g_shard_sweeps g));
   metric_line "pahoa_http_malformed_total" (str_concat
         ["Requests that never parsed into a route, so they are counted nowhere else. A port scan "%string;
          "looks like this."%string]) "counter" (pretty (g_http_malformed g))].

Definition process (g : Gauges) : list Family :=
  match g_cpu_seconds g with
  | Some secs => [metric_line "process_cpu_seconds_total" (str_concat
         ["Total user and system CPU time spent in seconds. Process-wide: it says what this room "%string;
          "costs a node, not which task is busy; pahoa_mailbox_depth is what says whether the "%string;
          "actor is the bottleneck."%string]) "counter" (fixed 2 secs)]
  | None => []
  end ++
  match g_start_time_seconds g with
  | Some at_ => [metric_line "process_start_time_seconds" "Start time of the process since unix epoch in seconds."%string "gauge" (fixed 3 at_)]
  | None => []
  end ++
  match g_resident_bytes g with
  | Some rss => [metric_line "process_resident_memory_bytes" (str_concat
         ["Resident memory size in bytes: the whole process, allocator included, not what pahoa "%string;
          "believes it holds. Replaces pahoa_resident_bytes, which was the same number under a "%string;
          "house name and is no longer exported."%string]) "gauge" (pretty rss)]
  | None => []
  end.

Definition datastore (live : Status) (g : Gauges) (t : Tables) : list Family :=
  let d := st_datastore live in
  [metric_line "pahoa_datastore_keys" (str_concat
         ["Keys held in the shared data store. Unbounded and entirely client-driven: clients "%string;
          "choose the keys, nothing ever deletes one, and all of it is written into every save."%string]) "gauge" (number (sd_keys d));
   metric_line "pahoa_datastore_bytes" (str_concat
         ["Size of the data store: every key plus the compact JSON of its value. This is what each "%string;
          "save carries on top of the room's own state, so it is the number to look at first when "%string;
          "pahoa_save_duration_seconds starts climbing."%string]) "gauge" (pretty (sd_bytes d));
   metric_line "pahoa_datastore_subscribed_keys" "Keys at least one client is watching with SetNotify."%string "gauge" (number (sd_subscribed_keys d));
   metric_line "pahoa_datastore_subscriptions" (str_concat
         ["Total SetNotify subscriptions across all keys, which is the fan-out a Set pays. Larger "%string;
          "than pahoa_datastore_subscribed_keys by however many clients share a key: one key "%string;
          "watched by two thousand trackers makes every Set on it two thousand deliveries, which "%string;
          "otherwise appears in the outbound counters with nothing to explain it."%string]) "gauge" (number (sd_subscriptions d));
   metric_line "pahoa_datastore_applied_total" (str_concat
         ["Operation sequences applied, successful or not: one per Set that got as far as its "%string;
          "operations."%string]) "counter" (pretty (g_applied g));
   metric_line "pahoa_datastore_apply_seconds_total" (str_concat
         ["Actor time spent inside data storage operations. This is time the room spends on "%string;
          "nobody's behalf but one client's, on the single task that owns all room state, so "%string;
          "rate() of this is directly the fraction of the room that Sets are taking."%string]) "counter" (seconds (g_apply_nanos g));
   metric_line "pahoa_datastore_apply_max_seconds" (str_concat
         ["The worst single operation sequence since the room started. A high-water mark rather "%string;
          "than a histogram, and it only records a stall that ENDED: an operation that never "%string;
          "returns is invisible here and shows up as pahoa_mailbox_depth climbing without draining."%string]) "gauge" (seconds (g_apply_max_nanos g))] ++
  let failures := sort_on (fun e => [text_key e.1]) (tb_failures t) in
  unless_empty failures
    [mkFamily "pahoa_datastore_failures_total" (str_concat
         ["Operation sequences that failed, by operation. Each one cost a client its connection: "%string;
          "the reference server raises here, so pahoa closes the socket to match. A client looping "%string;
          "on a bad Set therefore reconnects forever, and this is the counter that says so; the "%string;
          "disconnects themselves look like ordinary churn. The label is one of the eighteen "%string;
          "operation names or "%string;
          quote;
          "unknown"%string;
          quote;
          "; a name the client invented is never used as a label."%string]) "counter" ((fun e => mkSample [("operation"%string, Plain e.1)] (pretty e.2)) <$> failures)].

(** ** The HTTP surface *)

(** The running total of a route, at the place of its first row. *)
Fixpoint add_route (route : string) (n : Z) (by_route : list (string * Z)) : list (string * Z) :=
  match by_route with
  | [] => [(route, n)]
  | (r, total) :: by_route => if str_eqb r route then (r, wrap64 (total + n)) :: by_route
                              else (r, total) :: add_route route n by_route
  end.

Definition HttpRow : Type := string * string * Z * (Z * Z * Z).
Definition hr_route (row : HttpRow) : string := row.1.1.1.
Definition hr_method (row : HttpRow) : string := row.1.1.2.
Definition hr_status (row : HttpRow) : Z := row.1.2.
Definition hr_count (row : HttpRow) : Z := row.2.1.1.
Definition hr_request (row : HttpRow) : Z := row.2.1.2.
Definition hr_response (row : HttpRow) : Z := row.2.2.

Definition sum_routes (pick : HttpRow -> Z) (rows : list HttpRow) : list (string * Z) :=
  fold_left (fun acc row => add_route (hr_route row) (pick row) acc) rows [].

Definition route_samples (by_route : list (string * Z)) : list Sample :=
  (fun e => mkSample [("route"%string, Named e.1)] (pretty e.2)) <$> by_route.

Definition http_order (row : HttpRow) : SortKey := [text_key (hr_route row); text_key (hr_method row); [hr_status row]].

Definition http_surface (t : Tables) : list Family :=
  let rows := sort_on http_order (tb_http t) in
  unless_empty rows
    [mkFamily "pahoa_http_requests_total" (str_concat
         ["Requests answered on the HTTP surface, by route, method and status. WebSocket upgrades "%string;
          "are not counted here. The route is a template, so a slot's filter counts under "%string;
          "/admin/v1/slots/{slot}/filter and anything unrecognized under "%string;
          quote;
          "other"%string;
          quote;
          ": a public port gets scanned, and a label taken from the request line would let a "%string;
          "scanner mint series."%string]) "counter" ((fun row => mkSample [("route"%string, Named (hr_route row)); ("method"%string, Plain (hr_method row));
                              ("status"%string, Plain (pretty (hr_status row)))] (pretty (hr_count row))) <$> rows);
     mkFamily "pahoa_http_request_bytes_total" "Bytes received on the HTTP surface, head and body, by route."%string "counter" (route_samples (sum_routes hr_request rows));
     mkFamily "pahoa_http_response_bytes_total" (str_concat
         ["Bytes sent on the HTTP surface, head and body, by route. The tracker documents dominate "%string;
          "this on a large room."%string]) "counter" (route_samples (sum_routes hr_response rows))].

(** ** The series of a slot *)

(** [live.slots] by key, the last of a key. *)
Definition named_slots (live : Status) : gmap SlotKey (string * string) :=
  fold_left (fun m s => <[(ss_team s, ss_slot s) := (ss_name s, ss_game s)]> m) (st_slots live) ∅.

Definition identify (named : gmap SlotKey (string * string)) (key : SlotKey) : list (string * LabelText) :=
  let '(name, game) := default (EmptyString, EmptyString) (named !! key) in
  let game := if str_eqb game EmptyString then "Archipelago"%string else game in
  [("team"%string, Plain (pretty key.1)); ("slot"%string, Plain (pretty key.2));
   ("player"%string, Named name); ("game"%string, Named game)].

Definition bool_text (b : bool) : string := if b then "true" else "false".

Definition redundant_text (kind : RedundantKind) : string :=
  match kind with LocationCheck => "location_check" | RedundantHint => "hint" end.

Definition packet_order (row : option SlotKey * string * Z) : SortKey := held_key row.1.1 ++ [text_key row.1.2].

Definition packet_families (identify : SlotKey -> list (string * LabelText)) (t : Tables) : list Family :=
  let packets := sort_on packet_order (tb_packets t) in
  let held := omap (fun row => (fun key => (key, row.1.2, row.2)) <$> row.1.1) packets in
  let preauth := filter (fun row => row.1.1 = None) packets in
  unless_empty held
    [mkFamily "pahoa_packets_in_total" "Packets received from a slot, by command. Only pairs actually observed appear."%string "counter" ((fun row => mkSample (identify row.1.1 ++ [("cmd"%string, Named row.1.2)]) (pretty row.2)) <$> held)] ++
  unless_empty preauth
    [mkFamily "pahoa_packets_preauth_total" (str_concat
         ["Packets received before the connection held a slot, by command. Connect and "%string;
          "GetDataPackage are the only two the room answers unauthenticated, so a climbing count "%string;
          "here is failed logins."%string]) "counter" ((fun row => mkSample [("cmd"%string, Named row.1.2)] (pretty row.2)) <$> preauth)].

Definition deflate_order (row : SlotKey * bool * Z) : SortKey := slot_key row.1.1 ++ [[Z.b2z row.1.2]].

Definition deflate_families (identify : SlotKey -> list (string * LabelText)) (t : Tables) : list Family :=
  let deflate := sort_on deflate_order (tb_deflate t) in
  unless_empty deflate
    [mkFamily "pahoa_client_connections_total" (str_concat
         ["Connections that reached a slot, by whether they negotiated permessage-deflate. Per "%string;
          "connection, not per slot: a game client may compress where a tracker on the same slot "%string;
          "does not. sum by (game, deflate) is which games' clients support it."%string]) "counter" ((fun row => mkSample (identify row.1.1 ++ [("deflate"%string, Plain (bool_text row.1.2))]) (pretty row.2)) <$> deflate)].

(** The rows of slots of a table whose keys may be nobody's, and nobody's row. *)
Definition held_rows {A} (rows : list (option SlotKey * A)) : list (SlotKey * A) :=
  omap (fun row => (fun key => (key, row.2)) <$> row.1) rows.
Definition nobodys {A} (rows : list (option SlotKey * A)) : option A :=
  snd <$> List.find (fun row => bool_decide (row.1 = None)) rows.

Definition slot_samples {A} (identify : SlotKey -> list (string * LabelText)) (value : A -> Z)
    (rows : list (SlotKey * A)) : list Sample :=
  (fun row => mkSample (identify row.1) (pretty (value row.2))) <$> rows.

Definition bytes_in_families (identify : SlotKey -> list (string * LabelText)) (t : Tables) : list Family :=
  let bytes_in := sort_on (fun row => held_key row.1) (tb_bytes_in t) in
  unless_empty (held_rows bytes_in)
    [mkFamily "pahoa_bytes_in_total" (str_concat
         ["Wire bytes of the protocol messages a slot sent, as framed and compressed on the "%string;
          "socket. Pings, pongs and undecodable frames are not included: the reader that sees "%string;
          "those bytes does not know whose they are."%string]) "counter" (slot_samples identify id (held_rows bytes_in))] ++
  match nobodys bytes_in with
  | Some count => [metric_line "pahoa_bytes_in_preauth_total" (str_concat
         ["Wire bytes of messages read before the connection held a slot. A Connect arrives here, "%string;
          "so this climbing on its own is login attempts."%string]) "counter" (pretty count)]
  | None => []
  end.

Definition packets_out_families (t : Tables) : list Family :=
  let produced := sort_on (fun row => [text_key row.1]) (tb_packets_out t) in
  unless_empty produced
    [mkFamily "pahoa_packets_out_total" (str_concat
         ["Packets the room emitted, by command. Counted once per message whatever its audience, "%string;
          "so one broadcast to two thousand slots is one; pahoa_frames_out_total is what fan-out "%string;
          "made of it."%string]) "counter" ((fun row => mkSample [("cmd"%string, Named row.1)] (pretty row.2)) <$> produced)].

Definition delivered_families (identify : SlotKey -> list (string * LabelText)) (t : Tables) : list Family :=
  let delivered := sort_on (fun row => held_key row.1) (tb_delivered t) in
  unless_empty (held_rows delivered)
    [mkFamily "pahoa_frames_out_total" (str_concat
         ["WebSocket frames handed to a slot's writers. Per recipient connection, so a slot with a "%string;
          "game and two trackers counts three for a broadcast all three receive."%string]) "counter" (slot_samples identify fst (held_rows delivered));
     mkFamily "pahoa_bytes_out_total" (str_concat
         ["Bytes handed to a slot's writers, after compression. Per recipient connection, like "%string;
          "pahoa_frames_out_total. This is what fills the outbound budget."%string]) "counter" (slot_samples identify snd (held_rows delivered))] ++
  match nobodys delivered with
  | Some (frames, bytes) =>
      [metric_line "pahoa_frames_out_preauth_total" "Frames sent to connections that held no slot yet."%string "counter" (pretty frames);
       metric_line "pahoa_bytes_out_preauth_total" (str_concat
         ["Bytes sent to connections that held no slot yet. RoomInfo goes to every connection that "%string;
          "opens, and a DataPackage answered here can be megabytes."%string]) "counter" (pretty bytes)]
  | None => []
  end.

Definition redundant_order (row : SlotKey * RedundantKind * Z) : SortKey :=
  slot_key row.1.1 ++ [[match row.1.2 with LocationCheck => 0 | RedundantHint => 1 end]].

Definition redundant_families (identify : SlotKey -> list (string * LabelText)) (t : Tables) : list Family :=
  let redundant := sort_on redundant_order (tb_redundant t) in
  unless_empty redundant
    [mkFamily "pahoa_redundant_requests_total" (str_concat
         ["Requests a client made for work the room had already done, by slot, game and kind: "%string;
          "location_check is a location that slot had already checked, hint is a CreateHints or a "%string;
          "create_as_hint=2 LocationScouts naming a hint that already existed. Neither is an error "%string;
          "and the room handles both correctly, which is why they are otherwise invisible: a "%string;
          "client looping on either costs the room work and looks exactly like a busy player. Read "%string;
          "as a ratio against pahoa_packets_total for the same slot, never as a threshold: "%string;
          "re-sending checks on reconnect is how the protocol resynchronizes, so a room with churn "%string;
          "accumulates these legitimately. A whole game's slots sharing a ratio is a client bug; "%string;
          "one slot is a mod or a script."%string]) "counter" ((fun row => mkSample (identify row.1.1 ++ [("kind"%string, Plain (redundant_text row.1.2))]) (pretty row.2)) <$> redundant)].

Definition drop_order (row : SlotKey * Direction * Kind * Z) : SortKey :=
  slot_key row.1.1.1 ++ [text_key (direction_text row.1.1.2); text_key (kind_text row.1.2)].

Definition drop_families (identify : SlotKey -> list (string * LabelText)) (t : Tables) : list Family :=
  let drops := sort_on drop_order (tb_drops t) in
  unless_empty drops
    [mkFamily "pahoa_filtered_total" (str_concat
         ["Messages a filter dropped, by slot, direction and kind. Sums to "%string;
          "pahoa_filtered_from_slots_total and pahoa_filtered_to_slots_total, which are this same "%string;
          "table added up. The two directions have different denominators: from_slot is once per "%string;
          "message, where the room makes the decision, and to_slot is once per recipient "%string;
          "connection, matching pahoa_frames_out_total, so one chat line filtered for forty slots "%string;
          "is forty and eighty if each also has a tracker."%string]) "counter" ((fun row => mkSample (identify row.1.1.1 ++ [("direction"%string, Plain (direction_text row.1.1.2));
                                                     ("kind"%string, Plain (kind_text row.1.2))]) (pretty row.2)) <$> drops)].

Definition by_slot (live : Status) (t : Tables) : list Family :=
  let identify := identify (named_slots live) in
  packet_families identify t ++ deflate_families identify t ++ bytes_in_families identify t ++
  packets_out_families t ++ delivered_families identify t ++ redundant_families identify t ++ drop_families identify t.

(** ** The whole scrape: [None] when [room_time] panics *)

Definition prometheus (live : Status) (budget : Z) (g : Gauges) (t : Tables) : option (list Family) :=
  idle ← check_idle_seconds g (st_last_check_at live);
  Some (room_families live budget (default 0 idle) g ++ save_families live g ++ slot_families live g t ++
        process g ++ datastore live g t ++ by_slot live t ++ http_surface t).

(** * Reading a scrape

    A reader of the text exposition, for comparison: a comment gives a help or a
    type, any other line a series with its labels and its value. *)

Inductive Line :=
| LHelp (name help : string)
| LType (name kind : string)
| LSample (name : string) (labels : list (string * string)) (value : string).

#[export] Instance Line_eq_dec : EqDecision Line.
Proof. solve_decision. Defined.

(** The text before the first character that ends it, and the rest from there. *)
Fixpoint span_until (ends : ascii -> bool) (s : string) : string * string :=
  match s with
  | EmptyString => (EmptyString, EmptyString)
  | String c s' => if ends c then (EmptyString, s) else let '(a, b) := span_until ends s' in (String c a, b)
  end.

Definition drop_char (c : ascii) (s : string) : option string :=
  match s with String d s => if Ascii.eqb d c then Some s else None | EmptyString => None end.

(** The characters of a label up to its closing quote, and what follows. *)
Fixpoint read_label_value (s : string) : option (string * string) :=
  match s with
  | EmptyString => None
  | String c s =>
      if bool_decide (c = Journal.quote_char) then Some (EmptyString, s)
      else if bool_decide (c = Journal.backslash_char) then
        match s with
        | String e s =>
            if bool_decide (e = Journal.backslash_char) then Journal.prepend e (read_label_value s)
            else if bool_decide (e = Journal.quote_char) then Journal.prepend e (read_label_value s)
            else if Ascii.eqb e "n" then Journal.prepend (ascii_of_nat 10) (read_label_value s)
            else None
        | EmptyString => None
        end
      else Journal.prepend c (read_label_value s)
  end.

Fixpoint read_labels (fuel : nat) (s : string) : option (list (string * string) * string) :=
  match fuel with
  | O => None
  | S fuel =>
      let '(name, rest) := span_until (Ascii.eqb "=") s in
      rest ← (drop_char "=" rest ≫= drop_char Journal.quote_char);
      '(value, rest) ← read_label_value rest;
      match drop_char "}" rest with
      | Some rest => Some ([(name, value)], rest)
      | None =>
          rest ← drop_char "," rest;
          '(labels, rest) ← read_labels fuel rest;
          Some ((name, value) :: labels, rest)
      end
  end.

Definition ends_name (c : ascii) : bool := Ascii.eqb " " c || Ascii.eqb "{" c.

(** A value and no timestamp. *)
Definition read_value (s : string) : option string :=
  value ← drop_char " " s; if no_char " " value then Some value else None.

Definition read_header (s : string) : option (string * string) :=
  let '(name, rest) := span_until (Ascii.eqb " ") s in pair name <$> drop_char " " rest.

Definition read_line (s : string) : option Line :=
  match strip_str "# HELP " s with
  | Some rest => '(name, help) ← read_header rest; Some (LHelp name help)
  | None =>
      match strip_str "# TYPE " s with
      | Some rest => '(name, kind) ← read_header rest; Some (LType name kind)
      | None =>
          let '(name, rest) := span_until ends_name s in
          match drop_char "{" rest with
          | Some rest =>
              '(labels, rest) ← read_labels (String.length rest) rest;
              LSample name labels <$> read_value rest
          | None => LSample name [] <$> read_value rest
          end
      end
  end.

(** Every line ends in a newline. *)
Fixpoint lines_of (s : string) : list string :=
  match s with
  | EmptyString => []
  | String c s =>
      if Ascii.eqb c (ascii_of_nat 10) then EmptyString :: lines_of s
      else match lines_of s with
           | line :: lines => String c line :: lines
           | [] => [String c EmptyString]
           end
  end.

Definition read_exposition (s : string) : option (list Line) := mapM read_line (lines_of s).

(** What the families mean: a label is the name it holds, within its bound. *)
Definition meant_label (l : string * LabelText) : string * string :=
  (l.1, match l.2 with Plain s => s | Named s => cut s end).

Definition meant_sample (name : string) (s : Sample) : Line :=
  LSample name (meant_label <$> sm_labels s) (sm_value s).

Definition meant_family (f : Family) : list Line :=
  LHelp (fm_name f) (fm_help f) :: LType (fm_name f) (fm_kind f) :: (meant_sample (fm_name f) <$> fm_samples f).

Definition meant (fs : list Family) : list Line := concat (meant_family <$> fs).

(** ** What the program's own texts are *)

Definition newline_char : ascii := ascii_of_nat 10.

(** A text written between quotes as it is. *)
Definition plain (s : string) : bool :=
  no_char Journal.quote_char s && no_char Journal.backslash_char s && no_char newline_char s.

(** A text of a line of a series that is not between quotes. *)
Definition bare (s : string) : bool := no_char " " s && no_char newline_char s.

Definition name_ok (s : string) : bool := bare s && no_char "{" s && no_char "#" s.

Definition label_ok (l : string * LabelText) : Prop :=
  bare l.1 = true /\ no_char "=" l.1 = true /\ match l.2 with Plain s => plain s = true | Named _ => True end.

Definition sample_ok (s : Sample) : Prop := Forall label_ok (sm_labels s) /\ bare (sm_value s) = true.

Definition family_ok (f : Family) : Prop :=
  name_ok (fm_name f) && no_char newline_char (fm_help f) && no_char newline_char (fm_kind f) = true /\
  Forall sample_ok (fm_samples f).

(** ** Reading back what is written *)

Lemma span_until_app ends a c b :
  (forall d, ends d = true -> no_char d a = true) -> ends c = true ->
  span_until ends (String.append a (String c b)) = (a, String c b).
Proof.
  intros Ha Hc. induction a as [|d a IH].
  - change (String.append EmptyString (String c b)) with (String c b). cbn. by rewrite Hc.
  - rewrite Journal.string_app_cons. cbn [span_until]. destruct (ends d) eqn:E.
    { specialize (Ha d E). cbn in Ha. by rewrite Ascii.eqb_refl in Ha. }
    rewrite IH; [done|]. intros e He. specialize (Ha e He). cbn in Ha. by apply andb_true_iff in Ha as [_ ?].
Qed.

Lemma no_char_span c a : no_char c a = true -> forall d, Ascii.eqb c d = true -> no_char d a = true.
Proof. intros Ha d Hd. by apply Ascii.eqb_eq in Hd as <-. Qed.

Lemma drop_char_here c s : drop_char c (String c s) = Some s.
Proof. cbn. by rewrite Ascii.eqb_refl. Qed.

Lemma read_escape_byte c s : read_label_value (String.append (escape_byte c) s) = Journal.prepend c (read_label_value s).
Proof. destruct c as [[] [] [] [] [] [] [] []]; reflexivity. Qed.

Lemma read_escaped s rest : read_label_value (String.append (escaped s) (String Journal.quote_char rest)) = Some (s, rest).
Proof.
  induction s as [|c s IH]; [reflexivity|]. cbn [escaped]. by rewrite Journal.string_app_app, read_escape_byte, IH.
Qed.

Lemma read_plain s rest : plain s = true ->
  read_label_value (String.append s (String Journal.quote_char rest)) = Some (s, rest).
Proof.
  unfold plain. rewrite !andb_true_iff. intros [[Hq Hb] _]. induction s as [|c s IH]; [reflexivity|].
  cbn in Hq, Hb. apply andb_true_iff in Hq as [Hq Hq'], Hb as [Hb Hb']. rewrite Journal.string_app_cons. cbn [read_label_value].
  apply negb_true_iff, Ascii.eqb_neq in Hq, Hb. rewrite !bool_decide_eq_false_2 by done. by rewrite IH.
Qed.

Lemma read_label_text l rest : label_ok l ->
  read_label_value (String.append (label_text l.2) (String Journal.quote_char rest)) = Some ((meant_label l).2, rest).
Proof. intros (_ & _ & Hl). destruct (l.2) as [s|s] eqn:E; cbn; rewrite E; [by apply read_plain|by apply read_escaped]. Qed.

Lemma string_app_one c b : String.append (String c EmptyString) b = String c b.
Proof. reflexivity. Qed.

Lemma label_pair_app l rest : String.append (label_pair l) rest =
  String.append l.1 (String "=" (String Journal.quote_char (String.append (label_text l.2) (String Journal.quote_char rest)))).
Proof.
  unfold label_pair. rewrite !str_concat_cons. cbn [str_concat].
  change (str_concat []) with EmptyString. by rewrite !Journal.string_app_app.
Qed.

Lemma read_label l rest : label_ok l -> forall fuel,
  read_labels (S fuel) (String.append (label_pair l) rest) =
  match drop_char "}" rest with
  | Some rest => Some ([meant_label l], rest)
  | None =>
      rest ← drop_char "," rest; '(labels, rest) ← read_labels fuel rest; Some (meant_label l :: labels, rest)
  end.
Proof.
  intros Hl fuel. rewrite label_pair_app. cbn [read_labels].
  rewrite (span_until_app (Ascii.eqb "=")); [|apply no_char_span, Hl|done].
  rewrite drop_char_here. cbn [mbind option_bind]. rewrite drop_char_here. cbn [mbind option_bind].
  rewrite read_label_text by done. cbn [mbind option_bind]. done.
Qed.

Lemma read_all_labels ls rest : ls <> [] -> Forall label_ok ls -> forall fuel, (length ls <= fuel)%nat ->
  read_labels fuel (String.append (String.concat "," (label_pair <$> ls)) (String "}" rest)) =
  Some (meant_label <$> ls, rest).
Proof.
  intros Hne Hls. induction Hls as [|l ls Hl Hls IH]; [done|]. intros [|fuel] Hf; [cbn in Hf; lia|].
  destruct ls as [|l2 ls].
  - change (String.concat "," (label_pair <$> [l])) with (label_pair l). rewrite read_label by done.
    by rewrite drop_char_here.
  - change (String.concat "," (label_pair <$> l :: l2 :: ls))
      with (String.append (label_pair l) (String "," (String.concat "," (label_pair <$> l2 :: ls)))).
    rewrite Journal.string_app_app, Journal.string_app_cons, read_label by done.
    change (drop_char "}" (String "," _)) with (@None string). rewrite drop_char_here. cbn [mbind option_bind].
    rewrite IH; [done|done|cbn in *; lia].
Qed.

(** A pair takes at least one character, so the fuel is enough. *)
Lemma labels_length ls rest : ls <> [] ->
  (length ls <= String.length (String.append (String.concat "," (label_pair <$> ls)) rest))%nat.
Proof.
  assert (forall a b, String.length (String.append a b) = (String.length a + String.length b)%nat) as Happ.
  { intros a b. induction a as [|c a IH]; [done|]. rewrite Journal.string_app_cons. cbn. by rewrite IH. }
  assert (forall l, (1 <= String.length (label_pair l))%nat) as Hone.
  { intros l. rewrite <-(Journal.string_app_nil (label_pair l)), label_pair_app, Happ. cbn. lia. }
  intros _. rewrite Happ. induction ls as [|l ls IH]; [cbn; lia|]. destruct ls as [|l2 ls].
  - change (String.concat "," (label_pair <$> [l])) with (label_pair l). specialize (Hone l). cbn [length]. lia.
  - change (String.concat "," (label_pair <$> l :: l2 :: ls))
      with (String.append (label_pair l) (String "," (String.concat "," (label_pair <$> l2 :: ls)))).
    rewrite Happ. cbn [String.length]. specialize (Hone l). cbn [length] in *. lia.
Qed.

Lemma read_value_of v : bare v = true -> read_value (String " " v) = Some v.
Proof. unfold bare, read_value. intros [Hv _]%andb_true_iff. rewrite drop_char_here. cbn [mbind option_bind]. by rewrite Hv. Qed.

Lemma name_ok_spec n : name_ok n = true ->
  no_char " " n = true /\ no_char newline_char n = true /\ no_char "{" n = true /\ no_char "#" n = true.
Proof. unfold name_ok, bare. rewrite !andb_true_iff. tauto. Qed.

Lemma not_comment p n rest : no_char "#" n = true -> n <> EmptyString ->
  strip_str (String "#" p) (String.append n rest) = None.
Proof.
  destruct n as [|c n]; [done|]. cbn [no_char]. intros [Hc _]%andb_true_iff _. rewrite Journal.string_app_cons. cbn [strip_str].
  apply negb_true_iff, Ascii.eqb_neq in Hc. destruct (Ascii.eqb_spec "#" c); [congruence|done].
Qed.

Lemma read_sample name s : name_ok name = true -> name <> EmptyString -> sample_ok s ->
  read_line (str_concat [name; labels_text (sm_labels s); " "%string; sm_value s]) = Some (meant_sample name s).
Proof.
  intros (Hs & _ & Hb & Hh)%name_ok_spec Hne [Hls Hv]. unfold read_line.
  rewrite str_concat_cons, !not_comment by done. rewrite str_concat_cons.
  change (str_concat [" "%string; sm_value s]) with (String " " (sm_value s)).
  assert (forall d, ends_name d = true -> no_char d name = true) as Hends.
  { intros d [He|He]%orb_true_iff; apply Ascii.eqb_eq in He as <-; done. }
  unfold meant_sample. destruct (sm_labels s) as [|l ls] eqn:E.
  - cbn [labels_text]. change (String.append EmptyString (String " " (sm_value s))) with (String " " (sm_value s)).
    rewrite (span_until_app ends_name) by done. change (drop_char "{" (String " " _)) with (@None string). cbn iota.
    by rewrite read_value_of.
  - assert (labels_text (l :: ls) = String "{" (String.append (String.concat "," (label_pair <$> l :: ls)) "}")) as -> by reflexivity.
    rewrite Journal.string_app_cons, Journal.string_app_app.
    change (String.append "}" (String " " (sm_value s))) with (String "}" (String " " (sm_value s))).
    rewrite (span_until_app ends_name) by done. rewrite drop_char_here. cbn iota.
    rewrite read_all_labels; [|done|done|by apply labels_length]. cbn [mbind option_bind]. by rewrite read_value_of.
Qed.

Lemma read_header_of a b : no_char " " a = true -> read_header (String.append a (String " " b)) = Some (a, b).
Proof.
  intros Ha. unfold read_header. rewrite (span_until_app (Ascii.eqb " ")); [|by apply no_char_span|done].
  by rewrite drop_char_here.
Qed.

Lemma read_help name help : name_ok name = true ->
  read_line (str_concat ["# HELP "%string; name; " "%string; help]) = Some (LHelp name help).
Proof.
  intros (Hs & _)%name_ok_spec. unfold read_line. rewrite str_concat_cons, str_concat_cons.
  change (str_concat [" "%string; help]) with (String " " help).
  change (strip_str "# HELP " (String.append "# HELP " ?x)) with (Some x).
  change (strip_str "# HELP " (String.append "# HELP " (String.append name (String " " help))))
    with (Some (String.append name (String " " help))).
  cbn iota. by rewrite read_header_of.
Qed.

Lemma read_type name kind : name_ok name = true ->
  read_line (str_concat ["# TYPE "%string; name; " "%string; kind]) = Some (LType name kind).
Proof.
  intros (Hs & _)%name_ok_spec. unfold read_line. rewrite str_concat_cons, str_concat_cons.
  change (str_concat [" "%string; kind]) with (String " " kind).
  change (strip_str "# HELP " (String.append "# TYPE " (String.append name (String " " kind)))) with (@None string).
  change (strip_str "# TYPE " (String.append "# TYPE " (String.append name (String " " kind))))
    with (Some (String.append name (String " " kind))).
  cbn iota. by rewrite read_header_of.
Qed.

(** ** Lines *)

Lemma lines_of_line a b : no_char newline_char a = true ->
  lines_of (String.append a (String newline_char b)) = a :: lines_of b.
Proof.
  induction a as [|c a IH]; [done|]. cbn [no_char]. intros [Hc Ha]%andb_true_iff.
  rewrite Journal.string_app_cons. cbn [lines_of]. apply negb_true_iff in Hc. unfold newline_char in Hc. by rewrite Hc, IH.
Qed.

(** The text is the lines [ls], none of which holds a newline. *)
Definition has_lines (s : string) (ls : list string) : Prop := forall rest, lines_of (String.append s rest) = ls ++ lines_of rest.

Lemma has_line a : no_char newline_char a = true -> has_lines (String.append a newline) [a].
Proof. intros Ha rest. rewrite Journal.string_app_app. by apply lines_of_line. Qed.

Lemma has_lines_app a b la lb : has_lines a la -> has_lines b lb -> has_lines (String.append a b) (la ++ lb).
Proof. intros Ha Hb rest. by rewrite Journal.string_app_app, Ha, Hb, app_assoc. Qed.

Lemma has_lines_concat {A} (f : A -> string) (g : A -> list string) l :
  Forall (fun x => has_lines (f x) (g x)) l -> has_lines (str_concat (f <$> l)) (concat (g <$> l)).
Proof.
  induction 1 as [|x l Hx _ IH]; [by intros rest|]. rewrite !fmap_cons, str_concat_cons. cbn [concat].
  by apply has_lines_app.
Qed.

Lemma no_newline_escaped s : no_char newline_char (escaped s) = true.
Proof.
  induction s as [|c s IH]; [done|]. cbn [escaped]. rewrite no_char_append, IH, andb_true_r.
  destruct c as [[] [] [] [] [] [] [] []]; reflexivity.
Qed.

Lemma no_char_concat c l : Forall (fun s => no_char c s = true) l -> no_char c (str_concat l) = true.
Proof. induction 1 as [|s l Hs _ IH]; [done|]. by rewrite str_concat_cons, no_char_append, Hs, IH. Qed.

Lemma bare_spec s : bare s = true -> no_char " " s = true /\ no_char newline_char s = true.
Proof. apply andb_true_iff. Qed.

Lemma label_pair_line l : label_ok l -> no_char newline_char (label_pair l) = true.
Proof.
  intros ([_ Hn]%bare_spec & _ & Hl). apply no_char_concat. repeat (apply Forall_cons; split); try done.
  destruct (l.2) as [s|s]; [|apply no_newline_escaped]. unfold plain in Hl. rewrite !andb_true_iff in Hl. apply Hl.
Qed.

Lemma labels_line ls : Forall label_ok ls -> no_char newline_char (labels_text ls) = true.
Proof.
  intros Hls. destruct ls as [|l ls]; [done|]. apply no_char_concat. repeat (apply Forall_cons; split); try done.
  induction Hls as [|l1 ls1 Hl Hls IH]; [done|]. destruct ls1 as [|l2 ls1]; [by apply label_pair_line|].
  change (String.concat "," (label_pair <$> l1 :: l2 :: ls1))
    with (String.append (label_pair l1) (String "," (String.concat "," (label_pair <$> l2 :: ls1)))).
  rewrite no_char_append, label_pair_line by done. cbn [no_char]. exact IH.
Qed.

Lemma str_concat_snoc l x : str_concat (l ++ [x]) = String.append (str_concat l) x.
Proof.
  induction l as [|y l IH]; [reflexivity|].
  cbn [app]. by rewrite !str_concat_cons, IH, Journal.string_app_app.
Qed.

Lemma has_line_concat l : Forall (fun s => no_char newline_char s = true) l ->
  has_lines (str_concat (l ++ [newline])) [str_concat l].
Proof. intros Hl. rewrite str_concat_snoc. by apply has_line, no_char_concat. Qed.

Definition sample_line (name : string) (s : Sample) : string :=
  str_concat [name; labels_text (sm_labels s); " "%string; sm_value s].

Definition family_lines (f : Family) : list string :=
  str_concat ["# HELP "%string; fm_name f; " "%string; fm_help f] ::
  str_concat ["# TYPE "%string; fm_name f; " "%string; fm_kind f] :: (sample_line (fm_name f) <$> fm_samples f).

Lemma concat_singles {A B} (f : A -> B) l : concat ((fun x => [f x]) <$> l) = f <$> l.
Proof. induction l as [|x l IH]; [done|]. rewrite !fmap_cons. cbn. by rewrite IH. Qed.

Lemma family_has_lines f : family_ok f -> has_lines (family_text f) (family_lines f).
Proof.
  intros [((Hn & Hh)%andb_true_iff & Hk)%andb_true_iff Hs]. destruct (name_ok_spec _ Hn) as (_ & Hnl & _).
  unfold family_text, family_lines.
  apply (has_lines_app _ _ [_]). { apply (has_line_concat [_; _; _; _]). repeat (apply Forall_cons; split); done. }
  apply (has_lines_app _ _ [_]). { apply (has_line_concat [_; _; _; _]). repeat (apply Forall_cons; split); done. }
  rewrite <-(concat_singles (sample_line (fm_name f))). apply has_lines_concat. eapply Forall_impl; [exact Hs|]. intros s [Hls [_ Hv]%bare_spec].
  apply (has_line_concat [_; _; _; _]). repeat (apply Forall_cons; split); try done. by apply labels_line.
Qed.

Lemma read_family f : family_ok f -> fm_name f <> EmptyString -> mapM read_line (family_lines f) = Some (meant_family f).
Proof.
  intros [((Hn & _)%andb_true_iff & _)%andb_true_iff Hs] Hne. unfold family_lines, meant_family. cbn [mapM].
  rewrite read_help by done. cbn [mbind option_bind]. rewrite read_type by done. cbn [mbind option_bind].
  assert (mapM read_line (sample_line (fm_name f) <$> fm_samples f) = Some (meant_sample (fm_name f) <$> fm_samples f)) as ->; [|done].
  induction Hs as [|s l Hs _ IH]; [done|]. rewrite !fmap_cons. cbn [mapM]. rewrite (read_sample (fm_name f) s Hn Hne Hs : read_line (sample_line (fm_name f) s) = _).
  cbn [mbind option_bind]. by rewrite IH.
Qed.

Lemma mapM_app {A B} (f : A -> option B) l k : mapM f (l ++ k) = (x ← mapM f l; y ← mapM f k; Some (x ++ y)).
Proof.
  induction l as [|a l IH]; cbn; [by destruct (mapM f k)|]. destruct (f a); [|done]. cbn. rewrite IH.
  destruct (mapM f l); [|done]. cbn. by destruct (mapM f k).
Qed.

Lemma read_back fs : Forall (fun f => family_ok f /\ fm_name f <> EmptyString) fs ->
  read_exposition (exposition fs) = Some (meant fs).
Proof.
  intros Hfs. unfold read_exposition, exposition.
  assert (lines_of (str_concat (family_text <$> fs)) = concat (family_lines <$> fs)) as ->.
  { rewrite <-(Journal.string_app_nil (str_concat _)), (has_lines_concat family_text family_lines); [by rewrite app_nil_r|].
    eapply Forall_impl; [exact Hfs|]. intros f [Hf _]. by apply family_has_lines. }
  unfold meant. induction Hfs as [|f fs [Hf Hne] _ IH]; [done|]. rewrite !fmap_cons. cbn [concat].
  rewrite mapM_app, read_family by done. cbn [mbind option_bind]. by rewrite IH.
Qed.

(** ** The texts of numbers *)

(** A character that ends something in the format. *)
Definition special (c : ascii) : Prop :=
  c = " "%char \/ c = newline_char \/ c = Journal.quote_char \/ c = Journal.backslash_char.

Lemma digit_not_special c n : special c -> negb (Ascii.eqb (pretty_N_char n) c) = true.
Proof.
  intros Hc. apply negb_true_iff, Ascii.eqb_neq. unfold pretty_N_char.
  destruct Hc as [->|[->|[->| ->]]]; repeat case_match; discriminate.
Qed.

Lemma pretty_N_no c (n : N) : special c -> no_char c (pretty n) = true.
Proof.
  intros Hc. assert (forall x s, no_char c s = true -> no_char c (pretty_N_go x s) = true) as Hgo.
  { intros x. induction (N.lt_wf_0 x) as [x _ IH]; intros s Hs.
    assert (x = 0 \/ 0 < x)%N as [->|Hx] by lia; [done|]. rewrite pretty_N_go_step by done.
    apply IH; [by apply N.div_lt|]. cbn. by rewrite digit_not_special. }
  unfold pretty, pretty_N. case_decide; [|by apply Hgo].
  destruct Hc as [->|[->|[->| ->]]]; reflexivity.
Qed.

Lemma pretty_no c (z : Z) : special c -> no_char c (pretty z) = true.
Proof.
  intros Hc. destruct z as [|p|p].
  - by destruct Hc as [->|[->|[->| ->]]].
  - exact (pretty_N_no c (N.pos p) Hc).
  - change (pretty (Z.neg p)) with (String.append "-" (pretty (N.pos p))).
    rewrite no_char_append, pretty_N_no by done. by destruct Hc as [->|[->|[->| ->]]].
Qed.

Lemma padded_no c w z : special c -> no_char c (padded w z) = true.
Proof.
  intros Hc. unfold padded. rewrite no_char_append, pretty_no, andb_true_r by done.
  change (no_char c (str_concat (repeat "0"%string (w - String.length (pretty z)))) = true). apply no_char_concat.
  apply Forall_forall. intros s Hs. apply list_elem_of_In, repeat_spec in Hs as ->. by destruct Hc as [->|[->|[->| ->]]].
Qed.

Lemma fixed_no c w f : special c -> no_char c (fixed w f) = true.
Proof.
  intros Hc. assert (forall n, no_char c (fixed_text w n) = true) as Hf.
  { intros n. apply no_char_concat. repeat (apply Forall_cons; split); [by apply pretty_no| |by apply padded_no|done].
    by destruct Hc as [->|[->|[->| ->]]]. }
  assert (forall s : bool, no_char c (if s then "-"%string else EmptyString) = true) as Hs.
  { intros []; [|done]. by destruct Hc as [->|[->|[->| ->]]]. }
  destruct f as [s|s| |s m e]; cbn [fixed]; rewrite ?no_char_append, ?Hs, ?Hf; [done| | |done];
    by destruct Hc as [->|[->|[->| ->]]].
Qed.

Lemma bare_of s : (forall c, special c -> no_char c s = true) -> bare s = true.
Proof. intros Hs. unfold bare. rewrite !Hs; [done|unfold special; tauto|unfold special; tauto]. Qed.

Lemma bare_pretty (z : Z) : bare (pretty z) = true.
Proof. apply bare_of. intros. by apply pretty_no. Qed.

Lemma bare_fixed w f : bare (fixed w f) = true.
Proof. apply bare_of. intros. by apply fixed_no. Qed.

Lemma plain_pretty (z : Z) : plain (pretty z) = true.
Proof. unfold plain. rewrite !pretty_no; [done|unfold special; tauto..]. Qed.

(** ** The orders *)

Record order_ok {A} (cmp : A -> A -> comparison) : Prop := mkOrderOk {
  oo_eq x y : cmp x y = Eq <-> x = y;
  oo_flip x y : cmp y x = CompOpp (cmp x y);
  oo_trans x y z : cmp x y = Lt -> cmp y z = Lt -> cmp x z = Lt
}.

Lemma order_Z : order_ok Z.compare.
Proof.
  split; [apply Z.compare_eq_iff|apply Z.compare_antisym|].
  intros x y z. rewrite !Z.compare_lt_iff. lia.
Qed.

Lemma order_list {A} (cmp : A -> A -> comparison) : order_ok cmp -> order_ok (compare_list cmp).
Proof.
  intros [He Hf Ht]. assert (forall x, cmp x x = Eq) as Hr by (intros; by apply He).
  split.
  - intros a. induction a as [|x a IH]; intros [|y b]; cbn; try done. destruct (cmp x y) eqn:E.
    + apply He in E as ->. rewrite IH. split; [by intros ->|by intros [=]].
    + split; [done|]. intros [= -> ->]. by rewrite Hr in E.
    + split; [done|]. intros [= -> ->]. by rewrite Hr in E.
  - intros a. induction a as [|x a IH]; intros [|y b]; cbn; try done. rewrite (Hf x y).
    destruct (cmp x y); cbn; [apply IH|done|done].
  - intros a. induction a as [|x a IH]; intros [|y b] [|z c]; cbn; try done.
    destruct (cmp x y) eqn:Exy, (cmp y z) eqn:Eyz; try done.
    + apply He in Exy as ->, Eyz as ->. rewrite Hr. apply IH.
    + apply He in Exy as ->. by rewrite Eyz.
    + apply He in Eyz as <-. by rewrite Exy.
    + by rewrite (Ht x y z).
Qed.

Lemma key_order : order_ok key_compare.
Proof. apply order_list, order_list, order_Z. Qed.

Section sorting.
Context {A : Type} (key : A -> SortKey).

Definition row_le (a b : A) : Prop := sort_key_le (key a) (key b).

#[local] Instance row_le_total : Total row_le.
Proof.
  intros x y. unfold row_le, sort_key_le. rewrite (oo_flip _ key_order (key x) (key y)).
  destruct (key_compare (key x) (key y)); cbn; [by left|by left|by right].
Qed.

#[local] Instance row_le_trans : Transitive row_le.
Proof.
  intros x y z. unfold row_le, sort_key_le. generalize (key x) as a, (key y) as b, (key z) as c. intros a b c Hab Hbc.
  destruct key_order as [He Hf Ht].
  destruct (key_compare a b) eqn:E1; [apply He in E1 as ->; done| |done].
  destruct (key_compare b c) eqn:E2; [apply He in E2 as <-; by rewrite E1|by rewrite (Ht a b c)|done].
Qed.

Lemma sort_on_perm l : sort_on key l ≡ₚ l.
Proof. apply merge_sort_Permutation. Qed.

(** Rows with different keys have one order. *)
Lemma sort_on_one l l' :
  (forall a b, a ∈ l -> b ∈ l -> key a = key b -> a = b) -> l ≡ₚ l' -> sort_on key l = sort_on key l'.
Proof.
  intros Hk Hl. apply (StronglySorted_unique_strong row_le).
  - intros a b. rewrite !sort_on_perm, <-Hl. intros Ha Hb H1 H2. apply Hk; [done|done|].
    unfold row_le, sort_key_le in *. rewrite (oo_flip _ key_order (key a) (key b)) in H2.
    apply (oo_eq _ key_order). destruct (key_compare (key a) (key b)); done.
  - apply (StronglySorted_merge_sort row_le).
  - apply (StronglySorted_merge_sort row_le).
  - by rewrite !sort_on_perm.
Qed.
End sorting.

Lemma fmap_NoDup_inj {A B} (f : A -> B) l a b : NoDup (f <$> l) -> a ∈ l -> b ∈ l -> f a = f b -> a = b.
Proof.
  intros Hn [i Hi]%list_elem_of_lookup [j Hj]%list_elem_of_lookup Hf.
  assert (i = j) as ->; [|congruence]. apply (NoDup_lookup _ i j (f a) Hn); rewrite list_lookup_fmap.
  - by rewrite Hi.
  - rewrite Hj. cbn. by rewrite Hf.
Qed.

Lemma sorted_once {A B} (key : A -> SortKey) (f : A -> B) l l' :
  NoDup (f <$> l) -> (forall a b, key a = key b -> f a = f b) -> l ≡ₚ l' -> sort_on key l = sort_on key l'.
Proof. intros Hn Hk. apply sort_on_one. intros a b Ha Hb Hab. apply (fmap_NoDup_inj f l); auto. Qed.

Lemma text_key_inj a b : text_key a = text_key b -> a = b.
Proof.
  unfold text_key. intros H. rewrite <-(String.string_of_list_ascii_of_string a), <-(String.string_of_list_ascii_of_string b).
  f_equal. revert H. generalize (String.list_ascii_of_string a) as l, (String.list_ascii_of_string b) as k.
  induction l as [|c l IH]; intros [|d k] H; try done. rewrite !fmap_cons in H. injection H as Hcd H.
  apply N2Z.inj in Hcd. f_equal; [|by apply IH]. by rewrite <-(ascii_N_embedding c), Hcd, ascii_N_embedding.
Qed.

#[global] Arguments cut _ : simpl never.

(** ** Every family of a scrape *)

Definition series (s : Sample) : list (string * string) := meant_label <$> sm_labels s.

(** What the rows of the tables are: a row per key, as of a hash map, whose texts
    are the program's own. *)
Definition short (s : string) : Prop := (String.length s <= MAX_LABEL)%nat.

Record tables_ok (t : Tables) : Prop := mkTablesOk {
  to_failures : NoDup (tb_failures t).*1;
  to_packets : NoDup (tb_packets t).*1;
  to_bytes_in : NoDup (tb_bytes_in t).*1;
  to_packets_out : NoDup (tb_packets_out t).*1;
  to_delivered : NoDup (tb_delivered t).*1;
  to_deflate : NoDup (tb_deflate t).*1;
  to_http : NoDup (tb_http t).*1;
  to_redundant : NoDup (tb_redundant t).*1;
  to_drops : NoDup (tb_drops t).*1;
  to_operations : Forall (fun e => plain e.1 = true) (tb_failures t);
  to_commands : Forall (fun row => short row.1.2) (tb_packets t);
  to_commands_out : Forall (fun row => short row.1) (tb_packets_out t);
  to_requests : Forall (fun row => short (hr_route row) /\ plain (hr_method row) = true) (tb_http t)
}.

Record family_good (f : Family) : Prop := mkFamilyGood {
  fg_ok : family_ok f;
  fg_named : fm_name f <> EmptyString;
  fg_once : NoDup (series <$> fm_samples f)
}.

Definition header (name help kind : string) : bool :=
  name_ok name && no_char newline_char help && no_char newline_char kind && negb (str_eqb name EmptyString).

Lemma header_named name help kind samples : header name help kind = true -> Forall sample_ok samples ->
  family_ok (mkFamily name help kind samples) /\ name <> EmptyString.
Proof.
  unfold header. intros [H Hn]%andb_true_iff Hs. split; [by split|]. intros ->. done.
Qed.

Lemma line_good name help kind v : header name help kind = true -> bare v = true ->
  family_good (metric_line name help kind v).
Proof.
  intros Hh Hv. destruct (header_named name help kind [mkSample [] v] Hh) as [Ho Hn].
  { apply Forall_singleton. by split; [constructor|]. }
  split; [done|done|]. apply NoDup_singleton.
Qed.

Lemma rows_good {A K} name help kind (f : A -> Sample) (key : A -> K) rows :
  header name help kind = true -> (forall a, a ∈ rows -> sample_ok (f a)) -> NoDup (key <$> rows) ->
  (forall a b, a ∈ rows -> b ∈ rows -> series (f a) = series (f b) -> key a = key b) ->
  family_good (mkFamily name help kind (f <$> rows)).
Proof.
  intros Hh Hs Hn Hk. destruct (header_named name help kind (f <$> rows) Hh) as [Ho Hne].
  { apply Forall_fmap, Forall_forall. exact Hs. }
  split; [done|done|]. cbn [fm_samples]. clear -Hn Hk. induction rows as [|a rows IH]; [constructor|].
  rewrite fmap_cons in Hn. apply NoDup_cons in Hn as [Hnot Hn]. rewrite !fmap_cons. apply NoDup_cons. split.
  - intros Hin. apply Hnot. apply list_elem_of_fmap in Hin as (s & Hs & (b & -> & Hb)%list_elem_of_fmap).
    apply list_elem_of_fmap. exists b. split; [|done]. apply Hk; [by left|by right|done].
  - apply IH; [done|]. intros; apply Hk; [by right|by right|done].
Qed.

Lemma unless_empty_good {A} (rows : list A) fs : Forall family_good fs -> Forall family_good (unless_empty rows fs).
Proof. by destruct rows; [constructor|]. Qed.

Lemma omap_NoDup {A B K L} (f : A -> option B) (ka : A -> K) (kb : B -> L) l :
  NoDup (ka <$> l) ->
  (forall a a' b b', f a = Some b -> f a' = Some b' -> kb b = kb b' -> ka a = ka a') ->
  NoDup (kb <$> omap f l).
Proof.
  intros Hn Hk. induction l as [|a l IH]; [constructor|]. rewrite fmap_cons in Hn. apply NoDup_cons in Hn as [Hnot Hn].
  cbn [omap list_omap]. destruct (f a) as [b|] eqn:E; [|by apply IH]. rewrite fmap_cons. apply NoDup_cons. split; [|by apply IH].
  intros (b' & Hb & (a' & Ha' & Hf)%list_elem_of_omap)%list_elem_of_fmap. apply Hnot, list_elem_of_fmap.
  exists a'. split; [by eapply Hk|done].
Qed.

Lemma sort_on_NoDup {A B} (o : A -> SortKey) (f : A -> B) l : NoDup (f <$> l) -> NoDup (f <$> sort_on o l).
Proof. by rewrite sort_on_perm. Qed.

Lemma sort_on_Forall {A} (o : A -> SortKey) (P : A -> Prop) l : Forall P l -> forall a, a ∈ sort_on o l -> P a.
Proof. intros Hl a. rewrite sort_on_perm. intros Ha. by apply (proj1 (Forall_forall _ _) Hl). Qed.

(** *** Labels *)

Lemma take_all s : take_bytes (String.length s) s = s.
Proof. induction s as [|c s IH]; [done|]. cbn. by rewrite IH. Qed.

Lemma take_length n s : (String.length (take_bytes n s) <= n)%nat.
Proof. revert s. induction n as [|n IH]; intros [|c s]; cbn; [lia..|]. specialize (IH s). lia. Qed.

Lemma boundary_le s n : (boundary_before s n <= n)%nat.
Proof. induction n as [|n IH]; [done|]. cbn [boundary_before]. destruct (is_char_boundary s (S n)); lia. Qed.

Lemma cut_length s : (String.length (cut s) <= MAX_LABEL)%nat.
Proof. unfold cut. etrans; [apply take_length|]. etrans; [apply boundary_le|]. lia. Qed.

Lemma cut_short s : short s -> cut s = s.
Proof.
  unfold short, cut. intros Hs. rewrite Nat.min_l by done. transitivity (take_bytes (String.length s) s); [|apply take_all].
  f_equal. destruct (String.length s) as [|n] eqn:E; [done|]. cbn [boundary_before is_char_boundary]. by rewrite E, Nat.eqb_refl.
Qed.

Lemma identified named key : exists name game, identify named key =
  [("team"%string, Plain (pretty key.1)); ("slot"%string, Plain (pretty key.2));
   ("player"%string, Named name); ("game"%string, Named game)].
Proof. unfold identify. destruct (default _ _) as [name game]. eauto. Qed.

Lemma identify_ok named key : Forall label_ok (identify named key).
Proof.
  destruct (identified named key) as (name & game & ->). repeat first [apply Forall_nil_2 | apply Forall_cons; split];
    (split; [done|]; split; [done|]); first [apply plain_pretty|exact I].
Qed.

Lemma identify_inj named key key' rest rest' :
  meant_label <$> identify named key ++ rest = meant_label <$> identify named key' ++ rest' ->
  key = key' /\ meant_label <$> rest = meant_label <$> rest'.
Proof.
  destruct (identified named key) as (n & g & ->), (identified named key') as (n' & g' & ->).
  cbn [app]. rewrite !fmap_cons. intros H. injection H as Ht Hs _ _ Hr. apply (inj pretty) in Ht, Hs.
  split; [|done]. destruct key, key'. cbn in *. by subst.
Qed.

Lemma sample_good ls (z : Z) : Forall label_ok ls -> sample_ok (mkSample ls (pretty z)).
Proof. intros Hl. split; [done|apply bare_pretty]. Qed.

Lemma identify_sample named key rest (z : Z) : Forall label_ok rest -> sample_ok (mkSample (identify named key ++ rest) (pretty z)).
Proof. intros Hr. apply sample_good, Forall_app. split; [apply identify_ok|done]. Qed.

Lemma named_ok name s : bare name && no_char "=" name = true -> label_ok (name, Named s).
Proof. by intros [? ?]%andb_true_iff. Qed.

Lemma plain_ok name s : bare name && no_char "=" name = true -> plain s = true -> label_ok (name, Plain s).
Proof. by intros [? ?]%andb_true_iff. Qed.

(** *** The fixed lines *)

Ltac lines := repeat first [apply Forall_nil_2 | apply Forall_cons; split];
  (apply line_good; [vm_compute; reflexivity|first [apply bare_pretty|apply bare_fixed]]).

Lemma room_good live budget idle g : Forall family_good (room_families live budget idle g).
Proof. unfold room_families. lines. Qed.

Lemma save_good live g : Forall family_good (save_families live g).
Proof.
  unfold save_families. destruct (st_saving live); [|constructor]. apply Forall_app. split; [lines|].
  destruct (last_save_at g); [lines|constructor].
Qed.

Lemma slots_good live g t : Forall family_good (slot_families live g t).
Proof. unfold slot_families. lines. Qed.

Lemma process_good g : Forall family_good (process g).
Proof.
  unfold process. repeat (apply Forall_app; split).
  - destruct (g_cpu_seconds g); [lines|constructor].
  - destruct (g_start_time_seconds g); [lines|constructor].
  - destruct (g_resident_bytes g); [lines|constructor].
Qed.

(** *** The families of the tables *)

Section tables.
Context (t : Tables) (Ht : tables_ok t) (named : gmap SlotKey (string * string)).

Lemma datastore_good live g : Forall family_good (datastore live g t).
Proof.
  unfold datastore. apply Forall_app. split; [lines|]. apply unless_empty_good, Forall_singleton.
  apply (rows_good _ _ _ _ fst); [vm_compute; reflexivity| |apply sort_on_NoDup, Ht|].
  - intros e He. apply sample_good, Forall_singleton, plain_ok; [done|].
    by apply (sort_on_Forall _ _ _ (to_operations t Ht)) in He.
  - intros a b _ _ H. by injection H.
Qed.

Lemma packets_good : Forall family_good (packet_families (identify named) t).
Proof.
  unfold packet_families. set (packets := sort_on packet_order (tb_packets t)).
  assert (NoDup packets.*1) as Hn by by apply sort_on_NoDup, Ht.
  assert (forall row, row ∈ packets -> cut row.1.2 = row.1.2) as Hc.
  { intros row Hrow. apply cut_short. by apply (sort_on_Forall _ _ _ (to_commands t Ht)) in Hrow. }
  apply Forall_app. split; apply unless_empty_good, Forall_singleton.
  - apply (rows_good _ _ _ _ fst); [vm_compute; reflexivity| | |].
    + intros a _. apply identify_sample, Forall_singleton. by apply named_ok.
    + apply (omap_NoDup _ fst); [done|]. intros [[[k|] c] n] [[[k'|] c'] n'] b b'; cbn; intros; simplify_eq/=; done.
    + intros [[k c] n] [[k' c'] n'] (a & Ha & Ea)%list_elem_of_omap (b & Hb & Eb)%list_elem_of_omap [Hk H]%identify_inj.
      injection H as H. cbn in *. destruct a as [[[ka|] ca] na], b as [[[kb|] cb] nb]; simplify_eq/=.
      pose proof (Hc _ Ha). pose proof (Hc _ Hb). cbn in *. congruence.
  - apply (rows_good _ _ _ _ fst); [vm_compute; reflexivity| | |].
    + intros a _. apply sample_good, Forall_singleton. by apply named_ok.
    + eapply sublist_NoDup; [exact Hn|]. apply fmap_sublist, sublist_filter.
    + intros [[k c] n] [[k' c'] n'] [Ek Ha]%list_elem_of_filter [Ek' Hb]%list_elem_of_filter H. injection H as H. cbn in *.
      pose proof (Hc _ Ha). pose proof (Hc _ Hb). cbn in *. congruence.
Qed.

Lemma deflate_good : Forall family_good (deflate_families (identify named) t).
Proof.
  unfold deflate_families. apply unless_empty_good, Forall_singleton.
  apply (rows_good _ _ _ _ fst); [vm_compute; reflexivity| |apply sort_on_NoDup, Ht|].
  - intros a _. apply identify_sample, Forall_singleton, plain_ok; [done|]. by destruct a.1.2.
  - intros [[k []] n] [[k' []] n'] _ _ [Hk H]%identify_inj; cbn in *; by simplify_eq.
Qed.

Lemma redundant_good : Forall family_good (redundant_families (identify named) t).
Proof.
  unfold redundant_families. apply unless_empty_good, Forall_singleton.
  apply (rows_good _ _ _ _ fst); [vm_compute; reflexivity| |apply sort_on_NoDup, Ht|].
  - intros a _. apply identify_sample, Forall_singleton, plain_ok; [done|]. by destruct a.1.2.
  - intros [[k []] n] [[k' []] n'] _ _ [Hk H]%identify_inj; cbn in *; by simplify_eq.
Qed.

Lemma drops_good : Forall family_good (drop_families (identify named) t).
Proof.
  unfold drop_families. apply unless_empty_good, Forall_singleton.
  apply (rows_good _ _ _ _ fst); [vm_compute; reflexivity| |apply sort_on_NoDup, Ht|].
  - intros a _. apply identify_sample. repeat first [apply Forall_nil_2 | apply Forall_cons; split]; apply plain_ok; try done.
    + by destruct a.1.1.2.
    + by destruct a.1.2.
  - intros [[[k []] []] n] [[[k' []] []] n'] _ _ [Hk H]%identify_inj; cbn in *; by simplify_eq.
Qed.

Lemma held_rows_NoDup {A} (rows : list (option SlotKey * A)) : NoDup rows.*1 -> NoDup (held_rows rows).*1.
Proof.
  intros Hn. apply (omap_NoDup _ fst); [done|]. intros [[k|] x] [[k'|] x'] b b'; cbn; intros; simplify_eq/=; done.
Qed.

Lemma slot_samples_good {A} name help kind (value : A -> Z) rows :
  header name help kind = true -> NoDup rows.*1 ->
  family_good (mkFamily name help kind (slot_samples (identify named) value rows)).
Proof.
  intros Hh Hn. apply (rows_good _ _ _ _ fst); [done| |done|].
  - intros a _. apply sample_good, identify_ok.
  - intros a b _ _ H. unfold series in H. cbn [sm_labels] in H.
    rewrite <-(app_nil_r (identify named a.1)), <-(app_nil_r (identify named b.1)) in H. by apply identify_inj in H as [? _].
Qed.

Lemma bytes_in_good : Forall family_good (bytes_in_families (identify named) t).
Proof.
  unfold bytes_in_families. apply Forall_app. split.
  - apply unless_empty_good, Forall_singleton, slot_samples_good; [vm_compute; reflexivity|].
    apply held_rows_NoDup, sort_on_NoDup, Ht.
  - destruct (nobodys _); [lines|constructor].
Qed.

Lemma packets_out_good : Forall family_good (packets_out_families t).
Proof.
  unfold packets_out_families. apply unless_empty_good, Forall_singleton.
  apply (rows_good _ _ _ _ fst); [vm_compute; reflexivity| |apply sort_on_NoDup, Ht|].
  - intros a _. apply sample_good, Forall_singleton. by apply named_ok.
  - intros a b Ha Hb H. injection H as H. apply (sort_on_Forall _ _ _ (to_commands_out t Ht)) in Ha, Hb.
    by rewrite !cut_short in H.
Qed.

Lemma delivered_good : Forall family_good (delivered_families (identify named) t).
Proof.
  unfold delivered_families. assert (NoDup (held_rows (sort_on (fun row => held_key row.1) (tb_delivered t))).*1) as Hn.
  { apply held_rows_NoDup, sort_on_NoDup, Ht. }
  apply Forall_app. split.
  - apply unless_empty_good. repeat first [apply Forall_nil_2 | apply Forall_cons; split];
      (apply slot_samples_good; [vm_compute; reflexivity|exact Hn]).
  - destruct (nobodys _) as [[frames bytes]|]; [lines|constructor].
Qed.

Lemma by_slot_good live : named = named_slots live -> Forall family_good (by_slot live t).
Proof.
  intros E. unfold by_slot. rewrite <-E.
  apply Forall_app; split; [apply packets_good|]. apply Forall_app; split; [apply deflate_good|].
  apply Forall_app; split; [apply bytes_in_good|]. apply Forall_app; split; [apply packets_out_good|].
  apply Forall_app; split; [apply delivered_good|]. apply Forall_app; split; [apply redundant_good|apply drops_good].
Qed.

(** The routes of the sums, each once. *)
Lemma add_route_keys route n acc :
  NoDup acc.*1 -> NoDup (add_route route n acc).*1 /\ forall r, r ∈ (add_route route n acc).*1 <-> r = route \/ r ∈ acc.*1.
Proof.
  induction acc as [|[r total] acc IH]; intros Hn.
  { cbn. split; [apply NoDup_singleton|]. intros r. rewrite elem_of_cons, elem_of_nil. done. }
  rewrite fmap_cons in Hn. apply NoDup_cons in Hn as [Hnot Hn]. cbn [fst] in Hnot. cbn [add_route].
  unfold str_eqb. case_bool_decide as E.
  - subst. rewrite !fmap_cons. cbn [fst]. split; [by apply NoDup_cons|]. intros r'. rewrite elem_of_cons. tauto.
  - destruct (IH Hn) as [IH1 IH2]. rewrite !fmap_cons. cbn [fst]. split.
    + apply NoDup_cons. split; [|done]. rewrite IH2. by intros [?|?].
    + intros r'. rewrite !elem_of_cons, IH2. tauto.
Qed.

Lemma sum_routes_keys pick rows : forall acc, NoDup acc.*1 ->
  let out := fold_left (fun acc row => add_route (hr_route row) (pick row) acc) rows acc in
  NoDup out.*1 /\ forall r, r ∈ out.*1 -> r ∈ acc.*1 \/ r ∈ hr_route <$> rows.
Proof.
  induction rows as [|row rows IH]; intros acc Hn; [split; [done|]; by left|]. cbn [fold_left].
  destruct (add_route_keys (hr_route row) (pick row) acc Hn) as [Hn' Hin]. destruct (IH _ Hn') as [H1 H2].
  split; [exact H1|]. intros r Hr. rewrite fmap_cons, elem_of_cons.
  destruct (H2 r Hr) as [[?|?]%Hin|?]; tauto.
Qed.

Lemma http_good : Forall family_good (http_surface t).
Proof.
  unfold http_surface. set (rows := sort_on http_order (tb_http t)).
  assert (forall row, row ∈ rows -> short (hr_route row) /\ plain (hr_method row) = true) as Hr.
  { apply sort_on_Forall, Ht. }
  assert (forall pick name help kind, header name help kind = true ->
    family_good (mkFamily name help kind (route_samples (sum_routes pick rows)))) as Hsum.
  { intros pick name help kind Hh. unfold route_samples, sum_routes.
    destruct (sum_routes_keys pick rows [] (NoDup_nil_2)) as [Hn Hin].
    assert (forall e, e ∈ fold_left (fun acc row => add_route (hr_route row) (pick row) acc) rows [] -> cut e.1 = e.1) as Hc.
    { intros e He. apply cut_short. destruct (Hin e.1) as [[]%elem_of_nil|(row & -> & Hrow)%list_elem_of_fmap].
      - apply list_elem_of_fmap. by exists e.
      - by apply Hr. }
    apply (rows_good _ _ _ _ fst); [done| |done|].
    - intros a _. apply sample_good, Forall_singleton. by apply named_ok.
    - intros a b Ha Hb H. injection H as H. by rewrite (Hc a Ha), (Hc b Hb) in H. }
  apply unless_empty_good. apply Forall_cons. split;
    [|repeat first [apply Forall_nil_2 | apply Forall_cons; split]; (apply Hsum; vm_compute; reflexivity)].
  apply (rows_good _ _ _ _ fst); [vm_compute; reflexivity| |apply sort_on_NoDup, Ht|].
  - intros a Ha. apply sample_good.
    repeat first [apply Forall_nil_2 | apply Forall_cons; split]; [by apply named_ok|apply plain_ok; [done|]|apply plain_ok; [done|]].
    + by apply Hr.
    + apply plain_pretty.
  - intros [[[r m] s] c] [[[r' m'] s'] c'] Ha Hb H. injection H as H1 H2 H3. apply Hr in Ha as [Ha _], Hb as [Hb _].
    cbn in *. rewrite !cut_short in H1 by done. apply (inj pretty) in H3. by subst.
Qed.
End tables.

(** *** No family twice *)

Definition room_names : list string :=
  ["pahoa_clients_connected"; "pahoa_mailbox_depth"; "pahoa_mailbox_peak"; "pahoa_lag_disconnects_total";
   "pahoa_outbound_queued_bytes"; "pahoa_outbound_peak_bytes"; "pahoa_outbound_budget_bytes"; "pahoa_compressions_total";
   "pahoa_idle_seconds"; "pahoa_check_idle_seconds"; "pahoa_save_bytes"; "pahoa_save_duration_seconds"; "pahoa_save_dirty";
   "pahoa_last_save_timestamp_seconds"; "pahoa_slots"; "pahoa_slots_connected"; "pahoa_slots_locked"; "pahoa_slots_filtered";
   "pahoa_filtered_from_slots_total"; "pahoa_filtered_to_slots_total"; "pahoa_checks_total"; "pahoa_checks_possible";
   "pahoa_admin_auth_failures_total"; "pahoa_admin_auth_rate_limited_total"; "pahoa_shard_overflow_total";
   "pahoa_shard_sweeps_total"; "pahoa_http_malformed_total"]%string.
Definition process_names : list string :=
  ["process_cpu_seconds_total"; "process_start_time_seconds"; "process_resident_memory_bytes"]%string.
Definition datastore_names : list string :=
  ["pahoa_datastore_keys"; "pahoa_datastore_bytes"; "pahoa_datastore_subscribed_keys"; "pahoa_datastore_subscriptions";
   "pahoa_datastore_applied_total"; "pahoa_datastore_apply_seconds_total"; "pahoa_datastore_apply_max_seconds";
   "pahoa_datastore_failures_total"]%string.
Definition traffic_names : list string :=
  ["pahoa_packets_in_total"; "pahoa_packets_preauth_total"; "pahoa_client_connections_total"; "pahoa_bytes_in_total";
   "pahoa_bytes_in_preauth_total"; "pahoa_packets_out_total"; "pahoa_frames_out_total"; "pahoa_bytes_out_total";
   "pahoa_frames_out_preauth_total"; "pahoa_bytes_out_preauth_total"; "pahoa_redundant_requests_total";
   "pahoa_filtered_total"]%string.
Definition http_names : list string :=
  ["pahoa_http_requests_total"; "pahoa_http_request_bytes_total"; "pahoa_http_response_bytes_total"]%string.

Definition all_names : list string := room_names ++ process_names ++ datastore_names ++ traffic_names ++ http_names.

Ltac among := cbn [app fmap list_fmap fm_name metric_line unless_empty option_map];
  repeat first [apply sublist_nil | apply sublist_skip | apply sublist_cons].

Lemma room_among live budget idle g t :
  sublist (fm_name <$> (room_families live budget idle g ++ save_families live g ++ slot_families live g t)) room_names.
Proof.
  unfold save_families, room_families, slot_families.
  destruct (st_saving live); [destruct (last_save_at g)|]; among.
Qed.

Lemma process_among g : sublist (fm_name <$> process g) process_names.
Proof. unfold process. destruct (g_cpu_seconds g), (g_start_time_seconds g), (g_resident_bytes g); among. Qed.

Lemma datastore_among live g t : sublist (fm_name <$> datastore live g t) datastore_names.
Proof. unfold datastore. destruct (sort_on _ (tb_failures t)); among. Qed.

Lemma unless_empty_among {A} (rows : list A) fs : sublist (fm_name <$> unless_empty rows fs) (fm_name <$> fs).
Proof. destruct rows; [apply sublist_nil_l|done]. Qed.

Lemma traffic_among live t : sublist (fm_name <$> by_slot live t) traffic_names.
Proof.
  unfold by_slot. generalize (identify (named_slots live)) as ident. intros ident. rewrite !fmap_app.
  apply (sublist_app _ ["pahoa_packets_in_total"; "pahoa_packets_preauth_total"]%string).
  { unfold packet_families. rewrite fmap_app. apply (sublist_app _ [_] _ [_]); apply unless_empty_among. }
  apply (sublist_app _ ["pahoa_client_connections_total"]%string); [apply unless_empty_among|].
  apply (sublist_app _ ["pahoa_bytes_in_total"; "pahoa_bytes_in_preauth_total"]%string).
  { unfold bytes_in_families. rewrite fmap_app. apply (sublist_app _ [_] _ [_]); [apply unless_empty_among|].
    destruct (nobodys _); among. }
  apply (sublist_app _ ["pahoa_packets_out_total"]%string); [apply unless_empty_among|].
  apply (sublist_app _ ["pahoa_frames_out_total"; "pahoa_bytes_out_total"; "pahoa_frames_out_preauth_total";
                        "pahoa_bytes_out_preauth_total"]%string).
  { unfold delivered_families. rewrite fmap_app. apply (sublist_app _ [_; _] _ [_; _]); [apply unless_empty_among|].
    destruct (nobodys _) as [[]|]; among. }
  apply (sublist_app _ ["pahoa_redundant_requests_total"]%string); apply unless_empty_among.
Qed.

Lemma names_once live budget g t fs : prometheus live budget g t = Some fs -> NoDup (fm_name <$> fs).
Proof.
  unfold prometheus. destruct (check_idle_seconds g _) as [idle|]; [|done].
  cbn [mbind option_bind]. intros H. apply (inj Some) in H. rewrite <-H.
  apply sublist_NoDup with all_names; [apply (bool_decide_unpack _); vm_compute; exact I|].
  rewrite (app_assoc (save_families live g)), (app_assoc (room_families _ _ _ _)), fmap_app.
  apply sublist_app; [apply room_among|]. rewrite !fmap_app. repeat apply sublist_app; [apply process_among|apply datastore_among|apply traffic_among|].
  apply unless_empty_among.
Qed.

(** *** The order the tables are walked in *)

Record tables_equiv (t t' : Tables) : Prop := mkTablesEquiv {
  te_failures : tb_failures t ≡ₚ tb_failures t';
  te_packets : tb_packets t ≡ₚ tb_packets t';
  te_bytes_in : tb_bytes_in t ≡ₚ tb_bytes_in t';
  te_packets_out : tb_packets_out t ≡ₚ tb_packets_out t';
  te_delivered : tb_delivered t ≡ₚ tb_delivered t';
  te_deflate : tb_deflate t ≡ₚ tb_deflate t';
  te_http : tb_http t ≡ₚ tb_http t';
  te_redundant : tb_redundant t ≡ₚ tb_redundant t';
  te_drops : tb_drops t ≡ₚ tb_drops t'
}.

Lemma sum_of_perm {A} (f : A -> Z) l l' : l ≡ₚ l' -> sum_of f l = sum_of f l'.
Proof. induction 1; rewrite ?sum_of_cons; lia. Qed.

Lemma held_key_inj k k' : held_key k = held_key k' -> k = k'.
Proof. destruct k as [[a b]|], k' as [[c d]|]; cbn; intros H; by simplify_eq/=. Qed.

Lemma held_key_app k k' x x' : held_key k ++ [x] = held_key k' ++ [x'] -> k = k' /\ x = x'.
Proof. intros H. apply app_inj_2 in H as [H1%held_key_inj H2]; [|done]. by injection H2. Qed.

Lemma walked_once t t' : tables_ok t -> tables_equiv t t' ->
  sort_on (fun e => [text_key e.1]) (tb_failures t) = sort_on (fun e => [text_key e.1]) (tb_failures t') /\
  sort_on packet_order (tb_packets t) = sort_on packet_order (tb_packets t') /\
  sort_on (fun row => held_key row.1) (tb_bytes_in t) = sort_on (fun row => held_key row.1) (tb_bytes_in t') /\
  sort_on (fun row => [text_key row.1]) (tb_packets_out t) = sort_on (fun row => [text_key row.1]) (tb_packets_out t') /\
  sort_on (fun row => held_key row.1) (tb_delivered t) = sort_on (fun row => held_key row.1) (tb_delivered t') /\
  sort_on deflate_order (tb_deflate t) = sort_on deflate_order (tb_deflate t') /\
  sort_on http_order (tb_http t) = sort_on http_order (tb_http t') /\
  sort_on redundant_order (tb_redundant t) = sort_on redundant_order (tb_redundant t') /\
  sort_on drop_order (tb_drops t) = sort_on drop_order (tb_drops t').
Proof.
  intros Ht He. split_and!; (apply (sorted_once _ fst); [apply Ht| |apply He]).
  - intros a b [= H]. by apply text_key_inj.
  - intros [[k c] n] [[k' c'] n'] [Hk Hc%text_key_inj]%held_key_app. cbn in *. by subst.
  - intros a b H. by apply held_key_inj.
  - intros a b [= H]. by apply text_key_inj.
  - intros a b H. by apply held_key_inj.
  - intros [[[a b] []] n] [[[c d] []] n']; cbn; intros H; by simplify_eq/=.
  - intros [[[r m] s] c] [[[r' m'] s'] c'] H. unfold http_order in H. cbn in *.
    injection H as H1 H2 H3. apply text_key_inj in H1, H2. by subst.
  - intros [[[a b] []] n] [[[c d] []] n']; cbn; intros H; by simplify_eq/=.
  - intros [[[[a b] d] k] n] [[[[a' b'] d'] k'] n'] H. cbn [drop_order slot_key fst snd app] in H.
    injection H as -> -> Hd Hk. apply text_key_inj in Hd, Hk. cbn [fst]. f_equal; [f_equal; by destruct d, d'|by destruct k, k'].
Qed.

Lemma one_scrape live budget g t t' : tables_ok t -> tables_equiv t t' ->
  prometheus live budget g t' = prometheus live budget g t.
Proof.
  intros Ht He. destruct (walked_once t t' Ht He) as (H1 & H2 & H3 & H4 & H5 & H6 & H7 & H8 & H9).
  assert (forall d, dropped_total d t' = dropped_total d t) as Hd.
  { intros d. unfold dropped_total. f_equal. apply sum_of_perm. by rewrite (te_drops t t' He). }
  unfold prometheus, slot_families, datastore, by_slot, http_surface, packet_families, deflate_families, bytes_in_families,
    packets_out_families, delivered_families, redundant_families, drop_families.
  by rewrite !Hd, H1, H2, H3, H4, H5, H6, H7, H8, H9.
Qed.

(** *** A row of the packets *)

Lemma packet_told live budget g t fs key cmd n :
  tables_ok t -> prometheus live budget g t = Some fs -> (Some key, cmd, n) ∈ tb_packets t ->
  LSample "pahoa_packets_in_total" ((meant_label <$> identify (named_slots live) key) ++ [("cmd"%string, cmd)]) (pretty n)
    ∈ meant fs.
Proof.
  intros Ht Hp Hrow. assert (cut cmd = cmd) as Hc.
  { apply cut_short. exact (proj1 (Forall_forall _ _) (to_commands t Ht) _ Hrow). }
  assert (exists rest others, fs = rest ++ packet_families (identify (named_slots live)) t ++ others) as (rest & others & Efs).
  { unfold prometheus in Hp. destruct (check_idle_seconds g _) as [idle|]; [|done].
    cbn [mbind option_bind] in Hp. apply (inj Some) in Hp. rewrite <-Hp. unfold by_slot.
    exists (room_families live budget (default 0 idle) g ++ save_families live g ++ slot_families live g t ++ process g ++
            datastore live g t). eexists. rewrite <-!app_assoc. reflexivity. }
  rewrite Efs. unfold meant. rewrite !fmap_app, !concat_app. apply elem_of_app. right. apply elem_of_app. left. unfold packet_families.
  set (held := omap _ (sort_on packet_order (tb_packets t))).
  assert ((key, cmd, n) ∈ held) as Hin.
  { apply list_elem_of_omap. exists (Some key, cmd, n). split; [by rewrite sort_on_perm|done]. }
  rewrite fmap_app, concat_app. apply elem_of_app. left. 
  assert (forall fs, unless_empty held fs = fs) as ->.
  { intros ?. destruct held; [by apply elem_of_nil in Hin|done]. }
  clearbody held. cbn [fmap list_fmap concat]. rewrite app_nil_r. unfold meant_family. cbn [fm_name fm_samples].
  do 2 apply list_elem_of_further. apply list_elem_of_fmap.
  exists (mkSample (identify (named_slots live) key ++ [("cmd"%string, Named cmd)]) (pretty n)). split.
  - unfold meant_sample. cbn [sm_labels sm_value]. rewrite fmap_app. cbn [fmap list_fmap]. unfold meant_label at 3. cbn [fst snd].
    by rewrite Hc.
  - apply list_elem_of_fmap. by exists (key, cmd, n).
Qed.

Fixpoint drop_bytes (n : nat) (s : string) : string :=
  match n, s with S n, String _ s => drop_bytes n s | _, _ => s end.

Lemma take_drop_bytes n s : String.append (take_bytes n s) (drop_bytes n s) = s.
Proof. revert s. induction n as [|n IH]; intros [|c s]; try done. cbn [take_bytes drop_bytes]. by rewrite Journal.string_app_cons, IH. Qed.

Lemma take_length_eq n s : (n <= String.length s)%nat -> String.length (take_bytes n s) = n.
Proof. revert s. induction n as [|n IH]; intros [|c s] Hn; cbn in *; [done|done|lia|]. by rewrite IH by lia. Qed.

Lemma boundary_found s n : is_char_boundary s (boundary_before s n) = true.
Proof. induction n as [|n IH]; [done|]. cbn [boundary_before]. by destruct (is_char_boundary s (S n)) eqn:E. Qed.

(** A label is a beginning of the name that ends between two characters. *)
Lemma cut_clean s : (exists rest, s = String.append (cut s) rest) /\ is_char_boundary s (String.length (cut s)) = true.
Proof.
  split; [eexists; symmetry; apply take_drop_bytes|]. unfold cut. rewrite take_length_eq; [apply boundary_found|].
  etrans; [apply boundary_le|]. lia.
Qed.

(** C19: A scrape says what was counted, whatever the names in the seed.  Reading
    the text back line by line gives exactly the families and samples the room
    meant: a player or a game whose name holds quotes, backslashes or newlines can
    neither break a series nor make one.  Each such label is the name itself, or
    what of it fits in its bound, cut between characters; no family and no series
    is written twice; every packet counted for a slot is there under the slot's own
    labels; and the text is the same in whatever order the tables are walked. *)
Theorem scrapes_read_back live budget g t fs :
  tables_ok t -> prometheus live budget g t = Some fs ->
  read_exposition (exposition fs) = Some (meant fs) /\
  NoDup (fm_name <$> fs) /\ Forall (fun f => NoDup (series <$> fm_samples f)) fs /\
  (forall s, (short s -> cut s = s) /\ short (cut s) /\
     (exists rest, s = String.append (cut s) rest) /\ is_char_boundary s (String.length (cut s)) = true) /\
  (forall key cmd n, (Some key, cmd, n) ∈ tb_packets t ->
     LSample "pahoa_packets_in_total" ((meant_label <$> identify (named_slots live) key) ++ [("cmd"%string, cmd)]) (pretty n)
       ∈ meant fs) /\
  (forall t', tables_equiv t t' -> prometheus live budget g t' = Some fs).
Proof.
  intros Ht Hp. assert (Forall family_good fs) as Hg.
  { unfold prometheus in Hp. destruct (check_idle_seconds g _) as [idle|]; [|done].
    cbn [mbind option_bind] in Hp. apply (inj Some) in Hp. rewrite <-Hp.
    apply Forall_app; split; [apply room_good|]. apply Forall_app; split; [apply save_good|].
    apply Forall_app; split; [apply slots_good|]. apply Forall_app; split; [apply process_good|].
    apply Forall_app; split; [by apply datastore_good|]. apply Forall_app; split; [|by apply http_good].
    by eapply by_slot_good. }
  split; [|split; [|split; [|split; [|split]]]].
  - apply read_back. eapply Forall_impl; [exact Hg|]. by intros f [? ? _].
  - by eapply names_once.
  - eapply Forall_impl; [exact Hg|]. by intros f [_ _ ?].
  - intros s. split; [apply cut_short|]. split; [apply cut_length|apply cut_clean].
  - intros key cmd n Hrow. by eapply packet_told.
  - intros t' He. by rewrite <-Hp, (one_scrape live budget g t t').
Qed.

(** ** A player whose name is a forged series *)

Definition hostile_name : string := str_concat ["x"%string; quote; "} 7"%string; newline; "pahoa_slots 999"%string].

Definition demo_status : Status :=
  mkStatus 1 false 0 false (mkRoomRules 10 1 "auto" "auto" "goal" "auto" true 2)
    [mkSlotStatus 0 1 hostile_name EmptyString 1 0 3 "CONNECTED" false false] None (mkStoreStatus 0 0 0 0).

Definition demo_gauges : Gauges := mkGauges 0 0 0 0 0 0 0 0 0 0 0 0 0 0 0 0 (Some 4096) (Some (f64_of_Z 12)) None 0 0 0.

Definition demo_tables : Tables :=
  mkTables [("add"%string, 2)] [(None, "Connect"%string, 1); (Some (0, 1), "Say"%string, 5)] [(Some (0, 1), 90)]
    [("PrintJSON"%string, 4)] [] [(0, 1, true, 1)] [("/metrics"%string, "GET"%string, 200, (1, 80, 9000))] [] [].

Example demo_forged :
  match prometheus demo_status 0 demo_gauges demo_tables with
  | Some fs => bool_decide (LSample "pahoa_packets_in_total"
      [("team", "0"); ("slot", "1"); ("player", hostile_name); ("game", "Archipelago"); ("cmd", "Say")] "5" ∈ meant fs) &&
      bool_decide (read_exposition (exposition fs) = Some (meant fs))
  | None => false
  end%string = true.
Proof. vm_compute. reflexivity. Qed.

Lemma scrapes_read_back_witness :
  exists fs, prometheus demo_status 0 demo_gauges demo_tables = Some fs /\
    read_exposition (exposition fs) = Some (meant fs) /\
    LSample "pahoa_packets_in_total" ((meant_label <$> identify (named_slots demo_status) (0, 1)) ++ [("cmd"%string, "Say"%string)])
      (pretty 5) ∈ meant fs.
Proof.
  assert (tables_ok demo_tables) as Ht.
  { split; first [apply (bool_decide_unpack _); vm_compute; exact I
                 |repeat first [apply Forall_nil_2 | apply Forall_cons; split]; vm_compute; try reflexivity; try lia]. }
  destruct (prometheus demo_status 0 demo_gauges demo_tables) as [fs|] eqn:E.
  - exists fs. destruct (scrapes_read_back demo_status 0 demo_gauges demo_tables fs Ht E) as (Hr & _ & _ & _ & Hp & _).
    split; [done|]. split; [exact Hr|]. apply Hp. by right; left.
  - exfalso. assert (is_Some (prometheus demo_status 0 demo_gauges demo_tables)) as [? Hs].
    { eexists. unfold prometheus. reflexivity. }
    congruence.
Defined.

Example demo_numbers :
  (fixed 2 (f64_div (f64_of_Z 1) (f64_of_Z 8)), fixed 2 (f64_of_Z 1200), seconds 1500000, fixed 3 (f64_div (f64_of_Z (-7)) (f64_of_Z 3))) =
  ("0.12", "1200.00", "0.001500", "-2.333")%string.
Proof. vm_compute. reflexivity. Qed.
