(* ===== verification/ActorDemo.v ===== *)
(** * The actor and its shards at a concrete room

    The room of [RoomDemo] behind one shard: a connection comes, an administrator
    sends an item, the room is saved, and a frame is lost.  The last section cuts
    a concrete upgrade request in two. *)

From Stdlib Require Import ZArith Lia Bool SpecFloat Ascii.
From stdpp Require Import base tactics list sets gmap strings sorting relations.
From S2P Require Import Prelude PyRandom PyObj Text Locations Types Datapackage Multidata Conn Hints Json PyValue.
From S2P Require Import Packets Filter Options Effects Room RoomOps RoomPlay Say Admin RoomSpec RoomFrame.
From S2P Require Import RoomDirty RoomInv RoomTheorems RoomDemo RoomAuth Save RoomSave Deflate ShardTheorems Actor.
From S2P Require Import ActorTheorems ActorWorld ActorSaves Handshake Accept.
From S2P Require Frame Budget Shard.

#[local] Existing Instance tree_json.
#[local] Existing Instance tree_text.
#[local] Existing Instance ascii_unicode.
#[local] Existing Instance demo_hash.

(** A compressor that keeps every eighth byte, and an inflater that copies. *)
#[local, refine] Instance demo_flate2 : Flate2 := {|
  Compress := Z * Z;
  compress_new := pair;
  compress_reset := id;
  compress_sync := fun c input => (take (length input / 8) input ++ SYNC_TRAILER, c);
  made_for := fun level bits c => c = (level, bits);
  Decompress := unit;
  decompress_new := fun _ => tt;
  decompress_reset := id;
  decompress_vec := fun d input room =>
    let n := Nat.min room (length input) in
    (Ok (if (n =? 0)%nat then BufError else StatusOk), n, take n input, d)
|}.
Proof.
  - done.
  - by intros level bits c input ->.
  - by intros level bits c ->.
  - intros [] input room. cbn. lia.
  - intros [] input room. cbn. rewrite length_take. lia.
  - intros [] input room. cbn [fst snd]. destruct (Nat.eqb_spec (Nat.min room (length input)) 0); [done|lia].
Defined.

Definition demo_grow (cap len n : nat) : nat := (len + n)%nat.

Lemma inflating_is_bounded_witness :
  exists r, (decompress demo_grow (inflater_new 11 true 5) [1; 2; 3; 4; 5; 6; 7; 8]).1 = Some r /\
    (forall out, r = Ok out -> (length out <= 5)%nat).
Proof.
  destruct (inflating_is_bounded demo_grow (fun cap len n => Nat.le_refl (len + n))
    (inflater_new 11 true 5) [1; 2; 3; 4; 5; 6; 7; 8]) as (r & Hr & Ho & _).
  exists r. split; [exact Hr|exact Ho].
Defined.

(** ** A shard *)

Definition demo_budget : Budget.Budget := Budget.mkBudget 100000 5000.
Definition demo_shared : Budget.Shared := Budget.mkShared 0 0 [Budget.conn_default 0; Budget.conn_default 0].
Definition demo_env (k : nat) (conn : ConnId) : Shard.Answer := Shard.mkAnswer 0 Shard.Taken.

(** Two connections that are logged in, with and without compression. *)
Definition demo_member (deflate : option Z) (handle : nat) : Shard.Member :=
  Shard.set_membership true false (Some (0, 1)) (Shard.new_member deflate handle false).

Definition demo_shard : Shard.Shard :=
  Shard.mkShard {[ 5 := demo_member (Some 11) 0; 6 := demo_member None 1 ]} {[ (0, 1) := [5; 6] ]}
    [(11, deflater_new 6 11)] 0 false.

Definition demo_frame : Frame.Outgoing := Frame.outgoing_text (repeat 65 200).


Definition demo_log_member : Shard.Member :=
  match r_clients demo_logged !! 11 with
  | Some c => Shard.set_membership (c_auth c) (c_no_text c) (Some (session_key c)) (Shard.new_member None 0 (scoped c))
  | None => demo_member None 0
  end.

Definition demo_one_shard : list Shard.Shard :=
  [Shard.mkShard {[ 11 := demo_log_member ]} {[ (0, 1) := [11] ]} [] 0 false].

Lemma demo_members_known : member_flags <$> ({[ 11 := demo_log_member ]} : gmap ConnId Shard.Member) = flags demo_logged.
Proof. apply (bool_decide_unpack _). vm_compute. exact I. Qed.

Lemma demo_own_slot : slot_in (Shard.mkShard {[ 11 := demo_log_member ]} {[ (0, 1) := [11] ]} [] 0 false) 11 = Some (0, 1).
Proof. apply (bool_decide_unpack _). vm_compute. exact I. Qed.

Lemma shard_of_one conn : Shard.shard_of 1 conn = 0%nat.
Proof. unfold Shard.shard_of. by rewrite Z.mod_1_r. Qed.

Lemma demo_in_sync : in_sync (flags demo_logged) demo_one_shard.
Proof.
  split.
  - repeat constructor.
    + intros key. cbn. destruct (decide (key = (0, 1))) as [-> |].
      * rewrite lookup_singleton_eq. apply NoDup_singleton.
      * rewrite lookup_singleton_ne by done. constructor.
    + cbn. destruct (decide (key = (0, 1))) as [-> |].
      * rewrite lookup_singleton_eq. intros ->%list_elem_of_singleton. apply demo_own_slot.
      * rewrite lookup_singleton_ne by done. by intros ?%not_elem_of_nil.
    + intros Hs. destruct (decide (conn = 11)) as [-> |].
      * rewrite demo_own_slot in Hs. injection Hs as <-. cbn. by left.
      * exfalso. revert Hs. unfold slot_in. cbn. by rewrite lookup_singleton_ne by done.
  - intros conn s Hs. rewrite shard_of_one in Hs. injection Hs as <-.
    by rewrite <-demo_members_known, lookup_fmap.
  - intros conn [|i] s Hs Hne; [by rewrite shard_of_one in Hne|done].
Qed.


(** ** A lost frame *)

Definition demo_told : System := mkSystem (Shard.tell 5 (Shard.SAdd 5 None 0 false) false (Shard.mkInbox [] []))
  (Shard.shard_new 0) demo_shared.
Definition demo_added : System := mkSystem (Shard.mkInbox [] [])
  (Shard.handle_msg demo_budget 6 demo_env (Shard.SAdd 5 None 0 false) (Shard.shard_new 0) demo_shared).1.1 demo_shared.
Definition demo_lost : System := mkSystem (Shard.tell 5 (Shard.SSend 5 demo_frame None) true (Shard.mkInbox [] []))
  (shard demo_added) demo_shared.
Definition demo_swept : System := mkSystem (Shard.mkInbox [] [])
  (Shard.handle_msg demo_budget 6 demo_env (Shard.SDesynced (Some 5)) (shard demo_added) demo_shared).1.1 demo_shared.

Lemma demo_added_steps : steps demo_budget 6 (system_new 0 demo_shared) [Hello 5] demo_added.
Proof.
  apply (StepsCons _ _ _ [Hello 5] demo_told []).
  - exact (StepTell _ _ 5 (Shard.SAdd 5 None 0 false) false (Shard.mkInbox [] []) (Shard.shard_new 0) demo_shared eq_refl).
  - apply (StepsCons _ _ _ [] demo_added []); [|constructor].
    by apply (StepTurn _ _ demo_env (Shard.SAdd 5 None 0 false) _ (Shard.mkInbox [] []) _ _ demo_shared demo_shared []).
Qed.

Lemma no_silent_gap_witness : gone (shard demo_added) 5 = false /\ gone (shard demo_swept) 5 = true.
Proof.
  split; [vm_compute; reflexivity|].
  apply (no_silent_gap demo_budget 6 0 demo_shared demo_added [Hello 5] (Some 5) demo_lost
           [Put (Shard.OClose 5 Shard.DESYNCED)] demo_swept 5); [exact demo_added_steps| |by right| |set_solver|done].
  - exact (StepTell _ _ 5 (Shard.SSend 5 demo_frame None) true (Shard.mkInbox [] []) (shard demo_added) demo_shared eq_refl).
  - apply (StepsCons _ _ _ [Put (Shard.OClose 5 Shard.DESYNCED)] demo_swept []); [|constructor].
    apply (StepTurn _ _ demo_env (Shard.SDesynced (Some 5)) _ (Shard.mkInbox [] []) _ _ demo_shared demo_shared
             [Shard.OClose 5 Shard.DESYNCED]); vm_compute; reflexivity.
Defined.

(** ** The actor *)

Definition demo_encode (msgs : list ServerPacket) : list Z := repeat 65 (length msgs).
Definition demo_now : f64 := f64_of_Z 1001.

Definition demo_actor : Actor := mkActor demo_room (saver_new (mkSaveConfig true true)).

Definition turned (msg : ActorMsg) (a : Actor) : Actor :=
  match turn demo_encode demo_now msg a with Ok (a', _, _, _) => a' | Err _ => a end.
Definition flowed (msg : ActorMsg) (a : Actor) : Flow :=
  match turn demo_encode demo_now msg a with Ok (_, flow, _, _) => flow | Err _ => Break end.
Definition replied (msg : ActorMsg) (a : Actor) : Reply :=
  match turn demo_encode demo_now msg a with Ok (_, _, reply, _) => reply | Err _ => RNone end.
Definition called (msg : ActorMsg) (a : Actor) : list Call :=
  match turn demo_encode demo_now msg a with Ok (_, _, _, calls) => calls | Err _ => [] end.

Lemma turned_ok msg a :
  is_ok (turn demo_encode demo_now msg a) = true ->
  turn demo_encode demo_now msg a = Ok (turned msg a, flowed msg a, replied msg a, called msg a).
Proof.
  unfold turned, flowed, replied, called. by destruct (turn demo_encode demo_now msg a) as [[[[a' flow] reply] calls]|].
Qed.

(** What the inboxes of the only shard hold when nothing is refused. *)
Fixpoint posting (n k : nat) (cs : list Call) (i : Shard.Inbox) : Shard.Inbox :=
  match cs with
  | [] => i
  | Tell conn msg :: cs => posting n k cs (if decide (Shard.shard_of n conn = k) then Shard.tell conn msg false i else i)
  | ToAll to_ msg tag :: cs => posting n k cs (Shard.shards_broadcast to_ msg tag false i)
  | _ :: cs => posting n k cs i
  end.

Lemma posting_posts n k cs i : posts n k cs i (posting n k cs i).
Proof.
  revert i. induction cs as [|[conn msg|to_ msg tag|record|event] cs IH]; intros i; cbn [posting].
  - apply PostsNil.
  - apply (PostsTell _ _ _ _ false), IH.
  - apply (PostsAll _ _ _ _ _ false), IH.
  - apply PostsCheck, IH.
  - apply PostsEvent, IH.
Qed.

Lemma posting_posted cs i : posted cs [i] [posting 1 0 cs i].
Proof.
  split; [done|]. intros [|k] i1 i2 Hi1 Hi2; [|done]. injection Hi1 as <-. injection Hi2 as <-. apply posting_posts.
Qed.

(** *** A connection comes *)

Definition hello : ActorMsg := AConnected 11 None 0 Full.
Definition demo_world (inbox_ : Shard.Inbox) (a : Actor) (s : Shard.Shard) : World := mkWorld a [inbox_] [s] demo_shared.
Definition demo_posted : Shard.Inbox := posting 1 0 (called hello demo_actor) (Shard.mkInbox [] []).

(** The shard's turns, one by one. *)
Fixpoint worked (n : nat) (i : Shard.Inbox) (s : Shard.Shard) (g : Budget.Shared) : Shard.Inbox * Shard.Shard * Budget.Shared :=
  match n, Shard.next_msg i with
  | S n, Some (msg, i') =>
      let '(s', g', _) := Shard.handle_msg demo_budget 6 demo_env msg s g in worked n i' s' g'
  | _, _ => (i, s, g)
  end.

Lemma worked_steps n a i s g :
  let '(i', s', g') := worked n i s g in
  rtc (world_step demo_encode demo_budget 6) (mkWorld a [i] [s] g) (mkWorld a [i'] [s'] g').
Proof.
  revert i s g. induction n as [|n IH]; intros i s g; [constructor|]. cbn [worked].
  destruct (Shard.next_msg i) as [[msg i']|] eqn:Hn; [|constructor].
  destruct (Shard.handle_msg demo_budget 6 demo_env msg s g) as [[s' g'] out] eqn:E.
  specialize (IH i' s' g'). destruct (worked n i' s' g') as [[i2 s2] g2].
  eapply rtc_l; [|exact IH]. exact (WShard _ _ _ 0 demo_env msg a i i' s s' [i] [s] g g' out eq_refl eq_refl Hn E).
Qed.

Definition demo_worked : Shard.Inbox * Shard.Shard * Budget.Shared := worked 9 demo_posted (Shard.shard_new 0) demo_shared.

Lemma shards_follow_the_room_witness :
  is_Some (flags (a_room (turned hello demo_actor)) !! 11) /\
  in_sync (flags (a_room (turned hello demo_actor))) [demo_worked.1.2].
Proof.
  split; [apply is_some_true; vm_compute; reflexivity|].
  pose proof (worked_steps 9 (turned hello demo_actor) demo_posted (Shard.shard_new 0) demo_shared) as Hw.
  fold demo_worked in Hw. destruct demo_worked as [[i s] g] eqn:E.
  apply (shards_follow_the_room demo_encode demo_budget 6 1 demo_room (mkSaveConfig true true) demo_shared
           (mkWorld (turned hello demo_actor) [i] [s] g) eq_refl).
  - eapply rtc_l; [|exact Hw].
    eapply (WTurn _ _ _ demo_now hello demo_actor _ (flowed hello demo_actor) (replied hello demo_actor)
      (called hello demo_actor) [Shard.mkInbox [] []] [demo_posted] [Shard.shard_new 0] demo_shared).
    + apply turned_ok. vm_compute. reflexivity.
    + by vm_compute.
    + exact eq_refl.
    + apply posting_posted.
  - constructor; [|done]. assert (Hi : length (Shard.control demo_worked.1.1) = 0%nat) by (vm_compute; reflexivity).
    rewrite E in Hi. by apply nil_length_inv.
Defined.

(** *** A save *)

Definition gift : ActorMsg := AAdmin (ASendItem 2 "Lamp").
Definition saved (a : Actor) : Saving :=
  mkSaving (mkActor (a_room a) (mkSaver (sv_config (a_saver a)) None (sv_dirty (a_saver a)))) (sv_in_flight (a_saver a)).

Lemma saved_step a d : is_Some (sv_in_flight (a_saver a)) -> saving_step demo_encode (mkSaving a d) (saved a).
Proof.
  intros [sn Hs]. replace (saved a) with
    (mkSaving (mkActor (a_room a) (mkSaver (sv_config (a_saver a)) None (sv_dirty (a_saver a)))) (landed Saved (a_saver a) d))
    by (unfold saved, landed; by rewrite Hs).
  apply SgFinished; [done|]. unfold finished. by rewrite Hs.
Qed.

Lemma saved_disk a : is_Some (sv_in_flight (a_saver a)) -> sg_disk (saved a) = None -> False.
Proof. intros [sn Hs] Hd. cbn in Hd. congruence. Qed.

Definition demo_saving : Actor := on_save_timer (turned gift demo_actor).

Lemma demo_saving_in_flight : is_Some (sv_in_flight (a_saver demo_saving)).
Proof. apply is_some_true. vm_compute. reflexivity. Qed.

Lemma demo_gift_turn : saving_step demo_encode (mkSaving demo_actor None) (mkSaving (turned gift demo_actor) None).
Proof. eapply SgTurn, (turned_ok gift). vm_compute. reflexivity. Qed.

Lemma clean_means_saved_witness :
  exists sn, sg_disk (saved demo_saving) = Some sn /\ covers sn (a_room demo_saving).
Proof.
  destruct (clean_means_saved demo_encode demo_room (mkSaveConfig true true) None (saved demo_saving))
    as [[Hd _]|Hs]; [| | |exfalso|exact Hs].
  - eapply rtc_l; [exact demo_gift_turn|]. eapply rtc_l; [exact (SgTimer _ _ _)|].
    apply rtc_once, saved_step, demo_saving_in_flight.
  - vm_compute. reflexivity.
  - reflexivity.
  - exact (saved_disk _ demo_saving_in_flight Hd).
Defined.

Lemma a_slow_save_hides_the_last_witness :
  flush_disk demo_cheated None (Some Saved)
    (mkSaver (mkSaveConfig true true) (Some (snapshot demo_room)) true) None = Some (snapshot demo_room).
Proof.
  pose proof (a_slow_save_hides_the_last demo_cheated None (mkSaver (mkSaveConfig true true) (Some (snapshot demo_room)) true)
           None eq_refl) as Ht.
  cbv beta iota delta [sv_in_flight] in Ht. exact (proj1 Ht).
Defined.

(** *** A filter *)

Lemma an_empty_removal_exempts_witness : exists t',
  on_filter demo_encode (Some 2) (FRemove [demo_death])
    (begin (set_filters {["*"%string := [demo_death]]} demo_logged)) =
    Ok (Through, FOk (Some (filter_to_json [])) (filter_to_json []) false 0%nat, true, t') /\
  filter_for (t_room t') (ONLY_TEAM, 2) = Some [].
Proof.
  apply (an_empty_removal_exempts demo_encode 2 [demo_death]
    (begin (set_filters {["*"%string := [demo_death]]} demo_logged))).
  - apply is_some_true. vm_compute. reflexivity.
  - vm_compute. reflexivity.
Defined.

(** * A request in two pieces

    The theorem on arrival at a concrete upgrade, with a plain parser of heads
    and a stand-in for the digest. *)

Definition demo_header (l : string) : option (string * list Z) :=
  '(k, v) ← PyValue.split_once ":" (trim l); Some (k, bytes_of_string v).

Definition demo_parse (buf : list Z) : Parsed :=
  match blank_line buf with
  | None => PartialHead
  | Some i =>
      match split_on (ascii_of_nat 10) (string_of_bytes (take i buf)) with
      | [] => ParseError "no request line"
      | first :: lines =>
          match split_on " " first with
          | method :: path :: _ => Complete (i + 4) (Some method) (Some path) (omap demo_header lines)
          | _ => ParseError "no target"
          end
      end
  end.

#[local, refine] Instance demo_http : HttpParse := {| http_parse := demo_parse |}.
Proof.
  - intros buf rest Hp. unfold demo_parse in *. destruct (blank_line buf) as [i|] eqn:E; [|done].
    rewrite (blank_line_app _ rest _ E), take_app_le; [done|]. apply blank_line_long in E. lia.
  - intros buf _ Hc. unfold headers_complete in Hc. apply bool_decide_eq_true in Hc as [i Hi].
    unfold demo_parse. rewrite Hi. by repeat case_match.
Defined.

#[local, refine] Instance demo_sha1 : Sha1 := {| sha1 := fun b => be_bytes 20 (le_val b) |}.
Proof.
  - intros b. apply length_be_bytes.
  - intros b. apply Forall_rev, le_bytes_u8.
Defined.

Definition demo_request : list Z := bytes_of_string (str_concat
  ["GET /?x HTTP/1.1"%string; crlf; "Connection: keep-alive, Upgrade"%string; crlf; "upgrade: WebSocket"%string; crlf;
   "Sec-WebSocket-Version: 13"%string; crlf; "Sec-WebSocket-Key: abc"%string; crlf;
   "Sec-WebSocket-Extensions: permessage-deflate; client_max_window_bits=10"%string; crlf; crlf; "frames"%string]).

Definition demo_limits : AcceptConfig := mkAcceptConfig deflate_config_default 8192 1000 1000.

Definition is_websocket (x : option (result AcceptError Outcome * list Z)) : bool :=
  match x with
  | Some (Ok (WebSocket u), _) => bool_decide (ug_leftover u = bytes_of_string "frames" /\ ug_deflate u = Some 11)
  | _ => false
  end.

